(* ===== verification/_CoqProject ===== *)
-Q . S2P
Prelude.v
RustStr.v
Remotes.v
Disk.v
TaskArchive.v
TaskCache.v
TaskMerge.v
TaskView.v
TaskCrash.v
TaskUpdate.v
TaskRotate.v
TaskExample.v
TaskProps.v
JobState.v
SubscriptionTypes.v
KeyPool.v
KeyPlan.v
KeyInv.v
KeyRouter.v
KeyAuth.v
KeyOrphan.v
KeyProposals.v
KeyDrain.v
KeyFacts.v
KeyProps.v
ApiCache.v
RemoteCache.v
MultiClient.v
TryRequest.v
RemotesConfig.v
Connection.v
Search.v
Resources.v
Views.v
ResourceList.v
ResourceListFacts.v
ResourceProps.v
Fetcher.v
FetcherProps.v
TaskRefresh.v
TaskRefreshFacts.v
TaskRefreshProps.v
TaskListProps.v
ResourceStatus.v
ResourceStatusFacts.v
TopEntities.v
StatusProps.v
MetricStore.v
RrdData.v
MetricCollection.v
MetricFacts.v
MetricProps.v
CephConfig.v
CephConfigFacts.v
CephRegistry.v
CephFacts.v
CephStore.v
Examples.v
ConnectionProps.v
CephProps.v
AutoInstallConfig.v
AutoInstaller.v
AutoInstallFacts.v
AutoInstallStore.v
AutoInstallProps.v
NexusJson.v
NexusDomains.v
NexusDomainFacts.v
NexusDomainProps.v
NexusMonitoring.v
NexusMonitorFacts.v
NexusMonitorProps.v
RemoteUpdates.v
SdnClient.v
SdnProps.v
PveGuests.v
PveApi.v
ViewConfigs.v
LocationCache.v
CephStatus.v
