(* ===== verification/Prelude.v ===== *)
(** * Verification of the core of the datacenter manager

    The program is a daemon that manages Proxmox VE and Proxmox Backup Server installations
    ("remotes").  This library models the parts of the server that keep state or decide what a
    caller sees, and proves the properties that make them correct.  Paths are relative to src/.

    ** The parts and their files

    - Remote tasks.  server/src/remote_tasks/task_cache.rs keeps the tasks of all remotes in a
      directory: archive files (optionally compressed), a journal, the file of active tasks and
      a state file with the time up to which each node's tasks were fetched.
      [Remotes] models task ids (lib/pdm-api-types/src/remote_upid.rs), [TaskArchive] the
      records, file names, file iterators and writers, [TaskCache] the operations
      ([update], [apply_journal], [rotate], [init], [get_tasks], ...).  [TaskMerge] relates the
      merge of journal and archive to a reference definition, [TaskView] defines what readers
      see, [TaskCrash], [TaskUpdate] and [TaskRotate] carry the proofs, [TaskExample] has a
      concrete instance and [TaskProps] the theorems.
    - Refreshing and listing tasks.  [TaskRefresh] is the timer task of
      server/src/remote_tasks/refresh_task.rs, which polls tracked tasks, fetches task lists
      with the parallel fetcher and updates the cache; [TaskListProps] has the listing, the
      statistics and the tracking of new tasks (server/src/remote_tasks/mod.rs,
      server/src/api/remotes/tasks.rs) with their theorems.  [TaskRefreshFacts] and
      [TaskRefreshProps] have the proofs of the refresh.
    - Parallel requests.  [Fetcher] models server/src/parallel_fetcher.rs: a task per remote and
      per node, bounded by two semaphores; [FetcherProps] has the theorems.
    - Connections.  [RemoteCache] models server/src/remote_cache and the update
      from the configuration: which hosts are reachable, how long an unreachable one is left
      alone, the canary remote.  [MultiClient] and [TryRequest] model the fail-over of a request
      between the nodes of a remote, [Connection] how clients are built and kept
      (server/src/connection.rs).  [RemotesConfig] models remotes.cfg with its shadow file
      (lib/pdm-config/src/remotes.rs) and the handlers on remotes.  [TryRequest] carries
      proofs, [Examples] has a concrete instance and [ConnectionProps] the theorems.
    - Resources.  [Search] models search terms (lib/pdm-search/src/lib.rs), [Resources] the
      resource types and how they are built from the answers of remotes
      (lib/pdm-api-types/src/resource.rs, server/src/api/resources.rs), [Views] the views with
      their filter rules, [ResourceList] the search over all remotes, [ResourceStatus] the
      dashboard numbers, [TopEntities] the subscription status and the ranking by metrics
      (server/src/metric_collection/top_entities.rs).  [ResourceListFacts] and
      [ResourceStatusFacts] relate the listing and the numbers to references, [ResourceProps] and
      [StatusProps] have the theorems.
    - Metrics.  [MetricStore] models what is written to the round robin database
      (server/src/metric_collection/rrd_task.rs, rrd_cache.rs), with the metrics of the host, and
      [MetricCollection] the task that collects metrics from all remotes and its state file
      (remote_collection_task.rs, state.rs).  [MetricFacts] and [MetricProps] have the proofs.
      [RrdData] models how the stored series become the data points of an object
      (server/src/api/rrd_common.rs and the rrddata.rs of pve, pbs and nodes), with its theorems.
    - Subscription keys.  server/src/api/subscriptions/mod.rs is the API of a pool of
      subscription keys that are bound to nodes of remotes and pushed to them by a worker; the
      pool is a configuration file (lib/pdm-config/src/subscriptions.rs).
      [SubscriptionTypes] models keys and entries (lib/pdm-api-types/src/subscription.rs)
      and the summary state of a remote (server/src/api/resources.rs),
      [KeyPool] the handlers on single keys, [KeyPlan] the node status, the automatic
      assignment and the bulk handlers, the worker and the pending changes, and
      [KeyRouter] the API as a state machine.  [KeyInv] to [KeyFacts] carry the proofs,
      [KeyProps] has a concrete instance and the theorems.
    - API cache.  [ApiCache] models server/src/namespaced_cache.rs with the namespaces of
      server/src/api_cache.rs and the cached subscription state of resources.rs, which answers
      the queries of the key pool, with its theorems.  [LocationCache] adds the cached locations
      of nodes (server/src/location_cache.rs) and their listing.
    - Ceph clusters.  [CephConfig] models the file ceph-clusters.cfg with the keys the types do
      not know (lib/pdm-config/src/ceph.rs), [CephRegistry] the operations on the registry: the
      detection and the sweep (server/src/ceph/sweep.rs), who sees which cluster (registry.rs)
      and through which member it is reached (dispatch.rs, server/src/api/ceph/clusters.rs).
      [CephConfigFacts], [CephFacts] and [CephStore] carry the proofs, [Examples] has a
      concrete file format and [CephProps] the theorems.  [CephStatus] models the cached status of
      clusters with its summary (server/src/ceph/cache.rs), the statuses a sweep stores, and the
      list and the reads of clusters (clusters.rs).
    - Automated installations.  A machine that boots an installer asks for an answer with a
      token, gets the prepared configuration that matches it, and reports back when it is done.
      [AutoInstallConfig] has the data (lib/pdm-api-types/src/auto_installer.rs) and the files
      (lib/pdm-config/src/auto_install.rs), [AutoInstaller] the rendering of an answer
      and the handlers (server/src/api/auto_installer/mod.rs).
      [AutoInstallFacts] and [AutoInstallStore] carry the proofs, [AutoInstallProps] has concrete
      instances and the theorems.
    - Nexus.  server/src/api/nexus has handlers beside those of the manager.  [NexusDomains] models
      domains.rs: the inventory of hosted domains, the DNS, mail and TLS checks, the adoption of
      an existing set-up and the onboarding by a helper program.  [NexusMonitoring] models
      monitoring/: the monitored devices (store.rs), the downtimes in SigNoz (signoz.rs), the
      configuration of the probe collector (collector.rs) and the handlers (mod.rs).  [NexusJson]
      has JSON values, JSON files and what programs answer;
      [NexusDomainFacts] and [NexusMonitorFacts] carry proofs, [NexusDomainProps] and
      [NexusMonitorProps] have concrete instances and the theorems.

    - Updates of remotes.  [RemoteUpdates] models server/src/remote_updates.rs, the summary of the
      updates that the nodes of all remotes have: what a node answers, the cached summary, its
      refresh with the parallel fetcher and what callers see of it
      (server/src/api/remotes/updates.rs); with its theorems.
    - Software defined networks.  [SdnClient] models server/src/sdn_client.rs, transactions that
      lock, change and apply the configurations of several remotes, with the handlers of
      server/src/api/sdn; [SdnProps] has the theorems.
    - Requests on PVE remotes.  [PveGuests] models the requests on guests
      (server/src/api/pve/qemu.rs, lxc.rs), [PveApi] those on tasks, nodes, storages, the cluster
      and the firewalls (tasks.rs, node.rs, storage.rs, mod.rs, firewall.rs), with the router and
      the theorems.  A run is the sequence of the requests to remotes with their answers.
    - Jobs.  [JobState] models the state files of scheduled jobs (server/src/jobstate.rs) and the
      schedule of the rotation of the logs (proxmox-datacenter-api/tasks/logrotate.rs), with its
      theorems.
    - Stored views.  [ViewConfigs] models the handlers on the views and the file they are in
      (server/src/api/config/views.rs, lib/pdm-config/src/views.rs); with its theorems.

    [Prelude] (this file), [RustStr] (strings and slices), [Remotes] (remote types) and [Disk]
    (files) are shared.  A file with several parts has a heading for each.

    ** How code becomes definitions

    A program that does I/O is a function on [world]: the files of a directory, a counter of
    file operations and a schedule that says which of them fail.  Theorems over all schedules
    cover I/O errors at every call, and crashes, since a schedule can fail every call from some
    point on.  A file of lines that was opened is read by [read_lines], and a read may fail in its
    middle at a line that [Reads] says; the code then goes on with the lines before.  The theorems
    on crashes of the task cache assume that this does not happen ([SteadyReads]), and
    [TaskProps.journal_read_error_loses] shows that tasks are lost when it does.  [replace_file] and [rename] are atomic; appending writes character by character.
    Errors are values: [IO], [API], [Worker], [Cached] and [Tick] are state-and-error monads and
    [?] is their bind.  A Rust panic is an error value where it can happen.  64 and 32 bit
    integers are [Z] with the wrap-around written out, and an [f64] is an IEEE binary64 number.

    Code that waits can be interleaved with other code, which the definitions spell out.  A
    handler of the key pool first reads the pool and asks remotes without holding the lock and
    then runs a transaction under the lock: the two phases are separate definitions, and what
    other handlers do in between is an arbitrary function on the world.  The refresh of tasks
    and that of updates have such a function ([meanwhile]) between fetching and updating, and a
    request that fails over has one at each of its rounds ([moment]).  The parallel fetcher and a
    run of the metric collection are step relations ([fetch_step], [collect_step]) whose steps are
    what their tasks do between two await points.  A transaction on several remotes is a program
    that asks for answers ([Sdn]); what it did is the sequence of its requests with their answers.

    Code of other crates is a parameter with named laws: the native task id parsers and the JSON
    of tasks ([UpidEnv], [TaskJson], [TaskJsonLaws]), the section config format, its container
    and the digest ([KeyPoolEnv], [KeyPoolLaws], [SectionData], [SectionLaws]),
    the sections of the Ceph registry ([CephSections], [CephSectionsLaws]), the types of the
    installer, globs, templates and password hashes ([InstallEnv]), the JSON of installations
    ([InstallJson], [InstallJsonLaws]), JSON texts ([JsonText], [JsonTextLaws]), SigNoz
    ([SigNoz], [SigNozLaws]), the JSON of
    cache entries and the identifier pattern ([CacheEnv], [CacheLaws], [LocationEnv],
    [LocationLaws]), the JSON of the metric
    state ([StateJson], [StateJsonLaws]), the round robin database, the HTTP client
    ([ClientEnv]), the schemas of filter rules ([RuleEnv]), the tables of Unicode and the
    parser of booleans ([LowerEnv], [LowerLaws]), the types that PVE remotes report ([PveTypes]),
    the tasks and locks of jobs ([JobEnv], [JobLaws]), the privileges, the configured remotes and the
    answers of remotes ([env], [list_env], [refresh_env]), the summary of package repositories
    ([RepoEnv]), the numbers of a JSON value and the answers of Ceph ([JsonFloats], [CephApi]).
    Each set of laws has an instance.

    ** What the theorems show

    - Task cache: applying the journal, updating and compressing never lose or change a task a
      reader could see, whatever fails but a read of an open file; the journal merge is the per-file merge; the fetch
      cutoffs never pass a running task or an unsaved one; rotation keeps the newest files;
      names and ids round-trip.
    - Task refresh: a tick never moves a cutoff past a task that readers cannot see, whatever
      fails (with the same exception) and whatever other writers do meanwhile; the task list shows only what its caller
      may see, and its pages and counts are those of the filtered list.
    - Parallel fetcher: the numbers of open connections stay within the limits, every schedule
      ends, no permit is lost and the responses are those of the requests, in order of names.
    - Connections: a request ends after a bounded number of attempts, tries nodes in order of
      rotation, gives the first definite answer if all hosts count as reachable, and repeats a request that is not idempotent
      only after a time-out; some remote is always tried at once; the back-off stays in its
      bounds; saving the configuration keeps the secrets.
    - Resources: the listing with all its shortcuts is the plain one, callers see what their
      privileges allow, views decide consistently, searches and filter rules print and parse.
      The dashboard numbers, the subscription status and the top entities are those of what the
      caller may see.
    - Metrics: a collection run stays within its limits, ends, and gives every remote what its
      own answer makes of it, whatever the interleaving; the state survives failing writes; the
      data points of an object are exactly what the database has for it.
    - Key pool: every reachable pool is well-formed; no call orphans a live subscription even
      when calls race; calls change only entries their caller may modify; the worker's calls to
      remotes are justified by the pool at that moment and no pending entry is left out when no
      node runs a foreign key; the
      automatic assignment is the greedy best fit and a preview commits in full; single
      handlers do what they promise.
    - API cache: values read back until they expire, writes are atomic, [set_if_newer] is
      monotone, and a subscription query is answered from the source it should be.
    - Ceph: a sweep leaves the registry its probe results call for, where the documentation says
      what they call for, or fails and changes nothing; the registry on disk is always sane and keeps what the types do not know; callers
      see and reach the clusters on remotes they may see; and a status is a young cached one or
      what a member just said.
    - Automated installations: only a token that is stored and active gets an answer, that of the
      first configuration that matches the machine; the callback finishes an installation once;
      requests on tokens store only the hashes of their secrets; the prepared configurations stay
      valid; a migration of the older file keeps what is newer, and one that is interrupted loses
      nothing.
    - Nexus: the inventories stay readable and valid whatever fails, for requests one after the
      other; a domain becomes managed only
      after the helper succeeded, and the helper is started only when it should be; an adopted
      set-up is asked about exactly when it has changed; no downtime leaks from an update that
      succeeds; the collector only gets configurations it has accepted, and what it probes is
      read back from them.
    - Updates of remotes: after a refresh the summary tells exactly what the nodes answered, and
      callers see what they may see of it.
    - Software defined networks: each lock that is obtained is asked to be given back once, nothing
      is applied unless every change was made, a transaction ends when the tasks of the remotes do, and the
      lists are exact.
    - Requests on PVE remotes: a request does nothing without its privilege and otherwise at most
      the one change it asks for, whose task is tracked; waiting for a task ends when the task
      does; the status of the firewalls shows what the remotes answered.
    - Jobs: the file of a job says what became of its task, and the rotation runs when it is due.
    - Stored views: a request changes what it should or nothing, and what is stored stays valid.
    - Locations: a location is a cached one, what the remote just said, or the last known one.
    - Where the code departs from its documentation, a theorem exhibits the behaviour.

    ** Bounds

    Recursions are structural or over finite lists, with a few exceptions that take fuel.  The
    request loop [try_loop] has one round more than the remote has nodes, and [try_request_ends]
    shows that it never uses up this fuel.  The parser of IPv6 addresses reads at most as many
    groups as there are.  The binary search has the length of the list, since
    each probe shrinks the range.  [remember] repeats at most once per client between two
    positions, which is its fuel.  The rounds in which the tasks of remotes are polled are an
    argument ([picks]); [transaction_ends] says how many are enough, and [waiting_ends] says so for
    the requests of a caller that waits for a task.

    ** What is not modelled

    Locks are taken as mutual exclusion of whole operations; lock time-outs appear as a failing
    call.  Log messages are dropped, and some error texts are shortened where they embed the
    text of another error.  The durations of requests, HTTP clients, TLS and the ACL tree are not
    modelled.  Left out are also the user interface, the command line tools and the client
    library, which draw, parse arguments or name the paths of the API; the handlers that forward a
    request to a PBS remote unchanged (server/src/api/pbs), consoles and the scan of new remotes;
    the handlers that only call a Proxmox library (ACME, certificates, notifications, users); and
    what the log rotation does to the logs.  The requests of Nexus on monitored devices run one
    after the other in the model; the code lets a reconciliation overlap with the others.

    ** This file

    Results, machine integers, orders given by comparison functions, sorting, duplicates and the
    tactics and lemmas that the other files share. *)
From Stdlib Require Import Sorted Permutation.
From Stdlib Require Export ssreflect Ascii.
From stdpp Require Export base gmap list strings sorting.

#[export] Set Default Goal Selector "!".
Global Open Scope general_if_scope.
Global Arguments String.append !_ _ / : simpl nomatch.

(** ** Results

    Rust's [Result<A, E>].  The monad instance gives the [?] operator: [x ← m; k]
    returns early with the error of [m]. *)
Inductive result (E A : Type) : Type :=
| Ok (a : A)
| Err (e : E).
Arguments Ok {_ _} _.
Arguments Err {_ _} _.

Global Instance result_ret E : MRet (result E) := λ _ a, Ok a.
Global Instance result_bind E : MBind (result E) := λ _ _ f m,
  match m with Ok a => f a | Err e => Err e end.
Global Instance result_fmap E : FMap (result E) := λ _ _ f m,
  match m with Ok a => Ok (f a) | Err e => Err e end.

Definition is_ok {E A} (r : result E A) : bool :=
  match r with Ok _ => true | Err _ => false end.

(** [Option::ok_or] *)
Definition ok_or {E A} (o : option A) (e : E) : result E A :=
  match o with Some a => Ok a | None => Err e end.

(** [bail!] guarded by a condition: [if c { bail!(e) }] *)
Definition bail_if {E} (c : bool) (e : E) : result E () :=
  if c then Err e else Ok ().

(** ** Machine integers

    A [w]-bit integer is a [Z]; the operations of the release build wrap. *)
Definition wrap_u (w z : Z) : Z := z `mod` 2 ^ w.
Definition wrap_i (w z : Z) : Z :=
  (z + 2 ^ (w - 1)) `mod` 2 ^ w - 2 ^ (w - 1).
Abbreviation u32 := (wrap_u 32).
Abbreviation u64 := (wrap_u 64).
Abbreviation i64 := (wrap_i 64).
Definition i64_min : Z := - 2 ^ 63.
Definition i64_max : Z := 2 ^ 63 - 1.
Definition u64_max : Z := 2 ^ 64 - 1.
Definition in_i64 (z : Z) : bool := (i64_min <=? z)%Z && (z <=? i64_max)%Z.

Lemma i64_id z : (- 2 ^ 63 ≤ z < 2 ^ 63)%Z → i64 z = z.
Proof. intros Hz. unfold wrap_i. rw Z.mod_small; lia. Qed.
Lemma u32_id z : (0 ≤ z < 2 ^ 32)%Z → u32 z = z.
Proof. intros Hz. unfold wrap_u. by rw Z.mod_small. Qed.
Lemma u64_id z : (0 ≤ z < 2 ^ 64)%Z → u64 z = z.
Proof. intros Hz. unfold wrap_u. by rw Z.mod_small. Qed.

(** ** Orders given by a comparison function

    [sort_by], [cmp] and [then_with] take a [Fn(&A, &A) -> Ordering]; [CmpOrder] says that
    such a function is a total preorder. *)
Class CmpOrder {A} (cmp : A → A → comparison) : Prop := {
  cmp_opp x y : cmp y x = CompOpp (cmp x y);
  cmp_le_trans x y z : cmp x y ≠ Gt → cmp y z ≠ Gt → cmp x z ≠ Gt;
}.

Definition cmp_le {A} (cmp : A → A → comparison) : relation A :=
  λ x y, cmp x y ≠ Gt.
Definition cmp_lt {A} (cmp : A → A → comparison) : relation A :=
  λ x y, cmp x y = Lt.

Global Instance comparison_eq_dec : EqDecision comparison.
Proof. solve_decision. Defined.
Global Instance cmp_lt_dec {A} (cmp : A → A → comparison) x y : Decision (cmp_lt cmp x y).
Proof. unfold cmp_lt. apply _. Defined.

(** [Ordering::then_with] *)
Definition then_with (c d : comparison) : comparison :=
  match c with Eq => d | _ => c end.

Definition cmp_rev {A} (cmp : A → A → comparison) (x y : A) : comparison := cmp y x.

Definition bool_cmp (a b : bool) : comparison :=
  match a, b with
  | false, true => Lt
  | true, false => Gt
  | _, _ => Eq
  end.

(** ** Slices: [sort_by] (stable), [dedup_by_key] and [dedup] *)
Fixpoint insert_by {A} (cmp : A → A → comparison) (x : A) (l : list A) : list A :=
  match l with
  | [] => [x]
  | y :: l' => match cmp x y with Gt => y :: insert_by cmp x l' | _ => x :: l end
  end.

Definition sort_by {A} (cmp : A → A → comparison) (l : list A) : list A :=
  foldr (insert_by cmp) [] l.

(** [Vec::dedup_by]: an element is dropped when it is the same as the last one kept. *)
Fixpoint dedup_after {A} (same : A → A → bool) (last : A) (l : list A) : list A :=
  match l with
  | [] => []
  | x :: l' => if same x last then dedup_after same last l'
               else x :: dedup_after same x l'
  end.
Definition dedup_by {A} (same : A → A → bool) (l : list A) : list A :=
  match l with [] => [] | x :: l' => x :: dedup_after same x l' end.
Definition dedup {A} `{EqDecision A} : list A → list A := dedup_by (λ x y, bool_decide (x = y)).
Definition dedup_by_key {A K} `{EqDecision K} (key : A → K) : list A → list A :=
  dedup_by (λ x y, bool_decide (key x = key y)).

(** [Iterator::min_by_key]: the first of the minimal elements. *)
Fixpoint min_by_key {A} (key : A → Z) (l : list A) : option A :=
  match l with
  | [] => None
  | x :: l' =>
      match min_by_key key l' with
      | Some y => if (key y <? key x)%Z then Some y else Some x
      | None => Some x
      end
  end.

(** [Iterator::find] and [Iterator::filter_map] *)
Definition find_by {A} (p : A → bool) (l : list A) : option A := List.find p l.
Fixpoint filter_map {A B} (f : A → option B) (l : list A) : list B :=
  match l with
  | [] => []
  | x :: l' => match f x with Some y => y :: filter_map f l' | None => filter_map f l' end
  end.

(** ** Tactics *)
Create HintDb nexus.

(** Case analysis on every [match]/[if] scrutinee, closing absurd branches. *)
Ltac cases :=
  repeat (case_match; simplify_eq/=; try done).

(** ** Lemmas on comparisons *)
Section cmp.
Context {A} (cmp : A → A → comparison) `{!CmpOrder cmp}.

Lemma cmp_refl x : cmp x x = Eq.
Proof. pose proof (cmp_opp x x). destruct (cmp x x); done. Qed.

Lemma cmp_eq_sym x y : cmp x y = Eq → cmp y x = Eq.
Proof. intros H. rw cmp_opp H //. Qed.

Lemma cmp_lt_gt x y : cmp x y = Lt ↔ cmp y x = Gt.
Proof. rw (cmp_opp x y). destruct (cmp x y); naive_solver. Qed.

Lemma cmp_eq_l x y z : cmp x y = Eq → cmp x z = cmp y z.
Proof.
  intros Hxy. pose proof (cmp_eq_sym _ _ Hxy) as Hyx.
  pose proof (cmp_le_trans x y z) as H1. pose proof (cmp_le_trans y x z) as H2.
  pose proof (cmp_le_trans z x y) as H3. pose proof (cmp_le_trans z y x) as H4.
  rw (cmp_opp x z) (cmp_opp y z) in H3 H4.
  rw Hxy in H1 H3. rw Hyx in H2 H4.
  destruct (cmp x z), (cmp y z); naive_solver.
Qed.

Lemma cmp_eq_r x y z : cmp x y = Eq → cmp z x = cmp z y.
Proof. intros H. rw (cmp_opp x z) (cmp_opp y z) (cmp_eq_l x y z) //. Qed.

Lemma cmp_lt_le_trans x y z : cmp x y = Lt → cmp y z ≠ Gt → cmp x z = Lt.
Proof.
  intros Hxy Hyz. pose proof (cmp_le_trans x y z) as H.
  destruct (cmp x z) eqn:Hxz; [ | done | exfalso; apply H; by rw ?Hxy].
  exfalso. rw (cmp_eq_l _ _ _ Hxz) in Hxy.
  apply cmp_lt_gt in Hxy. done.
Qed.

Lemma cmp_le_lt_trans x y z : cmp x y ≠ Gt → cmp y z = Lt → cmp x z = Lt.
Proof.
  intros Hxy Hyz. apply cmp_lt_gt. rw cmp_opp.
  destruct (cmp x z) eqn:Hxz; [| done |].
  - exfalso. rw -(cmp_eq_r _ _ y Hxz) in Hyz. apply cmp_lt_gt in Hyz. done.
  - exfalso. apply (cmp_le_trans x y z); [done | by rw Hyz | done].
Qed.

Global Instance cmp_le_Transitive : Transitive (cmp_le cmp).
Proof. intros x y z. apply cmp_le_trans. Qed.

Lemma cmp_lt_trans x y z : cmp x y = Lt → cmp y z = Lt → cmp x z = Lt.
Proof. intros H1 H2. apply (cmp_lt_le_trans x y); [done | by rw H2]. Qed.

Global Instance cmp_lt_Transitive : Transitive (cmp_lt cmp).
Proof. intros x y z. apply cmp_lt_trans. Qed.

Lemma cmp_total x y : cmp x y ≠ Gt ∨ cmp y x ≠ Gt.
Proof. rw (cmp_opp x y). destruct (cmp x y); naive_solver. Qed.

Lemma cmp_rev_order : CmpOrder (cmp_rev cmp).
Proof.
  split; unfold cmp_rev; [intros; apply cmp_opp |].
  intros x y z Hxy Hyz. by apply (cmp_le_trans _ y).
Qed.
End cmp.

Global Instance Z_compare_order : CmpOrder Z.compare.
Proof.
  split; [intros; apply Z.compare_antisym |].
  intros x y z. fold (x ≤ y)%Z (y ≤ z)%Z (x ≤ z)%Z. lia.
Qed.

Global Instance bool_cmp_order : CmpOrder bool_cmp.
Proof. split; [by intros [] [] | by intros [] [] []]. Qed.

Global Instance string_compare_order : CmpOrder String.compare.
Proof.
  split; [intros; apply String.compare_antisym |].
  induction x as [|a x IH]; intros [|b y] [|c z]; simpl; try done.
  unfold Ascii.compare.
  destruct (N.compare_spec (Ascii.N_of_ascii a) (Ascii.N_of_ascii b)) as [Hab|Hab|Hab]; try done;
  destruct (N.compare_spec (Ascii.N_of_ascii b) (Ascii.N_of_ascii c)) as [Hbc|Hbc|Hbc]; try done;
  destruct (N.compare_spec (Ascii.N_of_ascii a) (Ascii.N_of_ascii c)) as [Hac|Hac|Hac]; try done;
    try lia. apply IH.
Qed.

(** Lexicographic composition, as [a.cmp(b).then_with(..)]. *)
Lemma then_with_order {A} (f g : A → A → comparison) (Hf : CmpOrder f) (Hg : CmpOrder g) :
  CmpOrder (λ x y, then_with (f x y) (g x y)).
Proof.
  split.
  - intros x y. rw (cmp_opp (cmp:=f) x y) (cmp_opp (cmp:=g) x y). by destruct (f x y).
  - intros x y z. destruct (f x y) eqn:Hxy; simpl; [| |done].
    + rw (cmp_eq_l f x y z Hxy). destruct (f y z) eqn:Hyz; simpl; try done.
      apply cmp_le_trans.
    + destruct (f y z) eqn:Hyz; simpl; try done; intros _ _.
      * by rw -(cmp_eq_r f _ _ x Hyz) Hxy.
      * by rw (cmp_lt_trans f x y z).
Qed.

Lemma cmp_pullback {A B} (h : B → A) (f : A → A → comparison) (Hf : CmpOrder f) :
  CmpOrder (λ x y, f (h x) (h y)).
Proof. split; intros; [apply cmp_opp | by apply (cmp_le_trans _ (h y))]. Qed.

Lemma string_compare_eq x y : String.compare x y = Eq ↔ x = y.
Proof. split; [apply String.compare_eq_iff | intros ->; apply cmp_refl, _]. Qed.

(** ** Lemmas on sorting *)
Section sort_by.
Context {A} (cmp : A → A → comparison) `{!CmpOrder cmp}.

Lemma insert_by_perm x l : insert_by cmp x l ≡ₚ x :: l.
Proof.
  induction l as [|y l IH]; simpl; [done |].
  destruct (cmp x y); [done | done |]. rw IH. apply Permutation_swap.
Qed.

Lemma sort_by_perm l : sort_by cmp l ≡ₚ l.
Proof. induction l as [|x l IH]; simpl; [done |]. by rw insert_by_perm IH. Qed.

Lemma elem_of_sort_by x l : x ∈ sort_by cmp l ↔ x ∈ l.
Proof. by rw sort_by_perm. Qed.

Lemma insert_by_sorted x l :
  StronglySorted (cmp_le cmp) l → StronglySorted (cmp_le cmp) (insert_by cmp x l).
Proof.
  induction 1 as [|y l Hl IH Hy]; simpl; [by repeat constructor |].
  destruct (cmp x y) eqn:Hxy.
  - constructor; [by constructor |]. constructor; [by unfold cmp_le; rw Hxy |].
    eapply Forall_impl; [done | intros z Hz]. apply (cmp_le_trans x y z); [by rw Hxy | done].
  - constructor; [by constructor |]. constructor; [by unfold cmp_le; rw Hxy |].
    eapply Forall_impl; [done | intros z Hz]. apply (cmp_le_trans x y z); [by rw Hxy | done].
  - constructor; [done |]. rw insert_by_perm. constructor; [| done].
    unfold cmp_le. apply cmp_lt_gt in Hxy; [| done]. by rw Hxy.
Qed.

Lemma sort_by_sorted l : StronglySorted (cmp_le cmp) (sort_by cmp l).
Proof. induction l; simpl; [constructor | by apply insert_by_sorted]. Qed.

Lemma sort_by_id l : StronglySorted (cmp_le cmp) l → sort_by cmp l = l.
Proof.
  induction 1 as [|x l Hl IH Hx]; simpl; [done |]. rw IH.
  destruct Hx as [|y l Hxy Hx]; simpl; [done |].
  by destruct (cmp x y) eqn:E.
Qed.

Lemma sort_by_length l : length (sort_by cmp l) = length l.
Proof. by rw sort_by_perm. Qed.

(** A strictly sorted list is determined by its elements. *)
Lemma strict_sorted_unique l1 l2 :
  StronglySorted (cmp_lt cmp) l1 → StronglySorted (cmp_lt cmp) l2 →
  (∀ x, x ∈ l1 ↔ x ∈ l2) → l1 = l2.
Proof.
  intros H1. revert l2. induction H1 as [|x l1 Hs1 IH Hx]; intros l2 H2 Heq.
  - destruct l2 as [|y l2]; [done |].
    exfalso. apply (not_elem_of_nil y), Heq, list_elem_of_here.
  - destruct H2 as [|y l2 Hs2 Hy].
    { exfalso. apply (not_elem_of_nil x), Heq, list_elem_of_here. }
    rw !Forall_forall in Hx Hy.
    assert (x = y) as ->.
    { destruct (proj1 (elem_of_cons _ _ _) (proj1 (Heq x) (list_elem_of_here _ _)))
        as [| Hxl2]; [done |].
      destruct (proj1 (elem_of_cons _ _ _) (proj2 (Heq y) (list_elem_of_here _ _)))
        as [| Hyl1]; [done |].
      apply Hy, cmp_lt_gt in Hxl2; [| done]. apply Hx in Hyl1.
      unfold cmp_lt in *. congruence. }
    f_equal. apply IH; [done |]. intros z. split; intros Hz.
    + destruct (proj1 (elem_of_cons _ _ _) (proj1 (Heq z) (list_elem_of_further _ _ _ Hz)))
        as [-> |]; [| done].
      apply Hx in Hz. unfold cmp_lt in Hz. rw (cmp_refl cmp) in Hz. done.
    + destruct (proj1 (elem_of_cons _ _ _) (proj2 (Heq z) (list_elem_of_further _ _ _ Hz)))
        as [-> |]; [| done].
      apply Hy in Hz. unfold cmp_lt in Hz. rw (cmp_refl cmp) in Hz. done.
Qed.

Lemma cmp_lt_le_sorted l :
  StronglySorted (cmp_lt cmp) l → StronglySorted (cmp_le cmp) l.
Proof.
  induction 1 as [|x l Hl IH Hx]; constructor; [done |].
  eapply Forall_impl; [done |]. unfold cmp_lt, cmp_le. by intros y ->.
Qed.
End sort_by.

Lemma StronglySorted_sublist {A} (R : relation A) l k :
  l `sublist_of` k → StronglySorted R k → StronglySorted R l.
Proof.
  induction 1 as [|x l k Hlk IH|x l k Hlk IH]; [done | |].
  - intros [Hx Hs]%StronglySorted_cons. apply StronglySorted_cons. split; [| by apply IH].
    rw Forall_forall. rw Forall_forall in Hx. intros y Hy. apply Hx. by eapply sublist_subseteq.
  - intros [_ Hs]%StronglySorted_cons. by apply IH.
Qed.

Lemma sort_by_strict {A} (cmp : A → A → comparison) `{!CmpOrder cmp} l :
  NoDup l → (∀ x y, x ∈ l → y ∈ l → cmp x y = Eq → x = y) →
  StronglySorted (cmp_lt cmp) (sort_by cmp l).
Proof.
  intros Hnd Hinj. pose proof (sort_by_sorted cmp l) as Hs.
  assert (NoDup (sort_by cmp l)) as Hnd' by by rw sort_by_perm.
  assert (∀ x y, x ∈ sort_by cmp l → y ∈ sort_by cmp l → cmp x y = Eq → x = y) as Hinj'.
  { intros x y. rw !elem_of_sort_by. apply Hinj. }
  clear Hnd Hinj. induction Hs as [|x k Hk IH Hx]; constructor.
  - apply NoDup_cons in Hnd' as [_ ?]. apply IH; [done |]. intros a b Ha Hb.
    apply Hinj'; by apply list_elem_of_further.
  - apply NoDup_cons in Hnd' as [Hnx _]. rw Forall_forall in Hx. apply Forall_forall. intros y Hy.
    unfold cmp_lt. specialize (Hx y Hy). unfold cmp_le in Hx.
    destruct (cmp x y) eqn:E; [| done | done].
    apply Hinj' in E; [| apply list_elem_of_here | by apply list_elem_of_further]. by subst y.
Qed.

Lemma StronglySorted_impl {A} (R S : relation A) l :
  (∀ x y, R x y → S x y) → StronglySorted R l → StronglySorted S l.
Proof.
  intros HRS. induction 1 as [|x l Hl IH Hx]; constructor; [done |].
  eapply Forall_impl; [done |]. auto.
Qed.

Lemma elem_of_concat_fmap {A B} (g : A → list B) l y :
  y ∈ concat (g <$> l) ↔ ∃ x, x ∈ l ∧ y ∈ g x.
Proof.
  induction l as [|x l IH]; simpl; [set_solver |]. rw elem_of_app IH. set_solver.
Qed.

Lemma StronglySorted_concat {A B} (R : relation A) (S : relation B) (g : A → list B) l :
  StronglySorted R l → (∀ x, x ∈ l → StronglySorted S (g x)) →
  (∀ x y a b, x ∈ l → y ∈ l → R x y → a ∈ g x → b ∈ g y → S a b) →
  StronglySorted S (concat (g <$> l)).
Proof.
  induction 1 as [|x l Hl IH Hx]; intros Hg Hxy; simpl; [constructor |].
  apply StronglySorted_app. split_and!.
  - intros a b Ha (y & Hy & Hb)%elem_of_concat_fmap. rw Forall_forall in Hx.
    apply (Hxy x y); [apply list_elem_of_here | by apply list_elem_of_further | auto | done | done].
  - apply Hg, list_elem_of_here.
  - apply IH; [intros; apply Hg; by apply list_elem_of_further |].
    intros y z a b Hy Hz. apply Hxy; by apply list_elem_of_further.
Qed.

Lemma StronglySorted_NoDup {A} (R : relation A) `{!Irreflexive R} l :
  StronglySorted R l → NoDup l.
Proof.
  induction 1 as [|x l Hl IH Hx]; constructor; [| done].
  intros Hin. rw Forall_forall in Hx. by apply (irreflexivity R x), Hx.
Qed.

Lemma StronglySorted_Forall {A} (R : relation A) (P : A → Prop) x l :
  StronglySorted R (x :: l) → (∀ y, R x y → P y) → P x → Forall P (x :: l).
Proof.
  intros [Hx _]%StronglySorted_cons HP Px. constructor; [done |].
  by eapply Forall_impl.
Qed.

Section dedup.
Context {A : Type} (same : A → A → bool).

Lemma dedup_after_sublist x l : dedup_after same x l `sublist_of` l.
Proof.
  revert x. induction l as [|y l IH]; intros x; simpl; [done |].
  destruct (same y x); [by apply sublist_cons | by apply sublist_skip].
Qed.

Lemma dedup_by_sublist l : dedup_by same l `sublist_of` l.
Proof. destruct l; simpl; [done | by apply sublist_skip, dedup_after_sublist]. Qed.

Lemma dedup_after_covers x l y :
  (∀ a b c, same a b = true → same b c = true → same a c = true) →
  (∀ a, same a a = true) →
  y ∈ l → same y x = true ∨ ∃ z, z ∈ dedup_after same x l ∧ same y z = true.
Proof.
  intros Htr Hrefl. revert x. induction l as [|z l IH]; intros x Hy; [by apply not_elem_of_nil in Hy |].
  apply elem_of_cons in Hy as [-> | Hy]; simpl.
  - destruct (same z x) eqn:E; [by left |]. right. exists z. split; [apply list_elem_of_here | done].
  - destruct (same z x) eqn:E; [by apply IH |].
    destruct (IH z Hy) as [Hyz | (w & Hw & Hyw)].
    + right. exists z. split; [apply list_elem_of_here | done].
    + right. exists w. split; [by apply list_elem_of_further | done].
Qed.

Lemma dedup_by_covers l y :
  (∀ a b c, same a b = true → same b c = true → same a c = true) →
  (∀ a, same a a = true) →
  y ∈ l → ∃ z, z ∈ dedup_by same l ∧ same y z = true.
Proof.
  intros Htr Hrefl Hy. destruct l as [|x l]; [by apply not_elem_of_nil in Hy |].
  simpl. apply elem_of_cons in Hy as [-> | Hy].
  - exists x. split; [apply list_elem_of_here | done].
  - destruct (dedup_after_covers x l y Htr Hrefl Hy) as [? | (z & ? & ?)].
    + exists x. split; [apply list_elem_of_here | done].
    + exists z. split; [by apply list_elem_of_further | done].
Qed.

(** On a sorted list whose ties are exactly the [same] elements, [dedup_by] leaves a
    strictly sorted list. *)
Lemma dedup_after_strict (cmp : A → A → comparison) `{!CmpOrder cmp} x l :
  (∀ a b, a ∈ x :: l → b ∈ x :: l → cmp a b = Eq → same b a = true) →
  StronglySorted (cmp_le cmp) (x :: l) →
  StronglySorted (cmp_lt cmp) (x :: dedup_after same x l).
Proof.
  revert x. induction l as [|y l IH]; intros x Hsame Hs; simpl.
  { apply StronglySorted_cons. split; constructor. }
  apply StronglySorted_cons in Hs as [Hx Hs].
  destruct (same y x) eqn:E.
  - apply IH; [intros a b Ha Hb; apply Hsame; set_solver |].
    apply StronglySorted_cons in Hs as [_ Hs]. apply StronglySorted_cons.
    split; [by apply Forall_cons in Hx as [_ ?] | done].
  - assert (StronglySorted (cmp_lt cmp) (y :: dedup_after same y l)) as Hy.
    { apply IH; [| done]. intros a b Ha Hb. apply Hsame; by apply list_elem_of_further. }
    apply StronglySorted_cons. split; [| done].
    apply Forall_cons in Hx as [Hxy _].
    assert (cmp x y = Lt) as Hlt.
    { unfold cmp_le in Hxy. destruct (cmp x y) eqn:E'; [| done | done].
      rw (Hsame x y) // in E; set_solver. }
    apply (StronglySorted_Forall _ _ _ _ Hy); [| done].
    intros z Hyz. by apply (cmp_lt_trans cmp x y).
Qed.

Lemma dedup_by_strict (cmp : A → A → comparison) `{!CmpOrder cmp} l :
  (∀ a b, a ∈ l → b ∈ l → cmp a b = Eq → same b a = true) →
  StronglySorted (cmp_le cmp) l → StronglySorted (cmp_lt cmp) (dedup_by same l).
Proof. destruct l; simpl; [constructor | by apply dedup_after_strict]. Qed.

(** On a sorted list the element kept is the first of its key. *)
Lemma dedup_after_first {K} (key : A → K) (R : relation A) `{!Asymmetric R} x l y z :
  (∀ a b, same a b = true ↔ key a = key b) →
  (∀ a b c, R a b → R b c → key a = key c → key b = key a) →
  StronglySorted R (x :: l) → y ∈ x :: dedup_after same x l → z ∈ x :: l →
  key z = key y → z = y ∨ R y z.
Proof.
  intros Hsame Hconv. revert x z. induction l as [|w l IH]; intros x z Hs Hy Hz E.
  { simpl in Hy. set_solver. }
  pose proof Hs as [Hx Hl]%StronglySorted_cons. rw Forall_forall in Hx. simpl in Hy.
  assert (StronglySorted R (x :: l)) as Hs'.
  { apply (StronglySorted_sublist R _ (x :: w :: l)); [| done]. by apply sublist_skip, sublist_cons. }
  destruct (same w x) eqn:Ew.
  - apply Hsame in Ew. apply elem_of_cons in Hz as [-> | [-> | Hz]%elem_of_cons];
      [by apply (IH x); [| | left |] | | by apply (IH x); [| | right |]].
    apply elem_of_cons in Hy as Hy'. destruct Hy' as [-> | Hy'].
    { right. apply Hx. left. }
    assert (y ∈ l) as Hyl by (eapply sublist_subseteq; [apply dedup_after_sublist | done]).
    destruct (IH x x Hs' Hy (list_elem_of_here _ _)) as [<- | Hyx]; [congruence | right; apply Hx; left |].
    exfalso. apply (asymmetry (R:=R) Hyx), Hx. by right.
  - apply elem_of_cons in Hy as [-> | Hy].
    { apply elem_of_cons in Hz as [-> | Hz]; [by left | right; by apply Hx]. }
    apply elem_of_cons in Hz as [-> | Hz]; [| by apply (IH w)].
    exfalso. assert (key w ≠ key x) as Hne by (intros Hk%Hsame; congruence).
    apply elem_of_cons in Hy as [-> | Hy]; [congruence |].
    assert (y ∈ l) as Hyl by (eapply sublist_subseteq; [apply dedup_after_sublist | done]).
    apply StronglySorted_cons in Hl as [Hw _]. rw Forall_forall in Hw.
    apply Hne, (Hconv x w y); [apply Hx; left | by apply Hw | done].
Qed.

Lemma dedup_by_first {K} (key : A → K) (R : relation A) `{!Asymmetric R} l y z :
  (∀ a b, same a b = true ↔ key a = key b) →
  (∀ a b c, R a b → R b c → key a = key c → key b = key a) →
  StronglySorted R l → y ∈ dedup_by same l → z ∈ l → key z = key y → z = y ∨ R y z.
Proof.
  intros Hsame Hconv. destruct l as [|x l]; [by intros _ ?%not_elem_of_nil |].
  by apply dedup_after_first.
Qed.
End dedup.

Lemma elem_of_dedup {A} `{EqDecision A} (x : A) l : x ∈ dedup l ↔ x ∈ l.
Proof.
  split.
  - intros Hx. eapply sublist_subseteq; [apply dedup_by_sublist | done].
  - intros Hx. destruct (dedup_by_covers (λ x y, bool_decide (x = y)) l x) as (z & Hz & E).
    + intros a b c. rw !bool_decide_eq_true. congruence.
    + intros a. by rw bool_decide_eq_true.
    + done.
    + apply bool_decide_eq_true in E as ->. done.
Qed.

Lemma dedup_sorted {A} `{EqDecision A} (R : relation A) (l : list A) :
  StronglySorted R l → StronglySorted R (dedup l).
Proof. apply StronglySorted_sublist, dedup_by_sublist. Qed.

(** ** Lemmas on iterator adaptors *)
Lemma elem_of_filter_map {A B} (f : A → option B) l y :
  y ∈ filter_map f l ↔ ∃ x, x ∈ l ∧ f x = Some y.
Proof.
  induction l as [|x l IH]; simpl; [set_solver |].
  destruct (f x) eqn:E; rw ?elem_of_cons IH; [set_solver |].
  split; [set_solver |]. intros (z & [-> | Hz]%elem_of_cons & Hf); [congruence | eauto].
Qed.

Lemma filter_map_app {A B} (f : A → option B) l k :
  filter_map f (l ++ k) = filter_map f l ++ filter_map f k.
Proof. induction l as [|x l IH]; simpl; [done |]. destruct (f x); by rw IH. Qed.

Lemma filter_map_perm {A B} (f : A → option B) l l' : l ≡ₚ l' → filter_map f l ≡ₚ filter_map f l'.
Proof.
  induction 1 as [|x l l' Hl IH|x y l|l1 l2 l3 H1 IH1 H2 IH2]; simpl.
  - done.
  - destruct (f x); by rw IH.
  - destruct (f x), (f y); [apply Permutation_swap | done..].
  - by rw IH1.
Qed.

Lemma filter_map_filter {A B C} (f : A → option B) (p : B → bool) (g : B → option C) (h : A → option C) l :
  (∀ x, match f x with Some y => if p y then g y else None | None => None end = h x) →
  filter_map g (List.filter p (filter_map f l)) = filter_map h l.
Proof.
  intros Hh. induction l as [|x l IH]; simpl; [done |]. rw -(Hh x).
  destruct (f x) as [y|]; simpl; [| done]. destruct (p y); simpl; [| done]. by rw IH.
Qed.

Lemma filter_map_omap {A B} (f : A → option B) l : filter_map f l = omap f l.
Proof. induction l as [|x l IH]; simpl; [done |]. rw IH. by destruct (f x). Qed.

Lemma filter_none {A} (p : A → bool) l : (∀ x, p x = false) → List.filter p l = [].
Proof. intros H. induction l as [|x l IH]; simpl; [done |]. by rw H. Qed.

Lemma filter_all {A} (p : A → bool) l : (∀ x, p x = true) → List.filter p l = l.
Proof. intros H. induction l as [|x l IH]; simpl; [done |]. by rw H IH. Qed.

Lemma filter_eq {A} (p q : A → bool) l : (∀ x, p x = q x) → List.filter p l = List.filter q l.
Proof. intros H. induction l as [|x l IH]; simpl; [done |]. by rw H IH. Qed.

Lemma StronglySorted_lookup {A} (R : relation A) l i j x y :
  StronglySorted R l → i < j → l !! i = Some x → l !! j = Some y → R x y.
Proof.
  intros Hs. revert i j. induction Hs as [|z l Hs IH Hz]; [done |]. intros [|i] [|j] Hij; simpl; try lia.
  - intros [= ->] Hy. apply (proj1 (Forall_forall _ _) Hz). by eapply list_elem_of_lookup_2.
  - apply IH. lia.
Qed.

Lemma existsb_mono {A} (p q : A → bool) l :
  (∀ x, p x = true → q x = true) → existsb p l = true → existsb q l = true.
Proof. intros Hpq (x & Hx & Hp)%existsb_exists. apply existsb_exists. eauto. Qed.

Lemma filter_map_all {A B} (f : A → option B) (g : B → A) l :
  (∀ b, f (g b) = Some b) → filter_map f (g <$> l) = l.
Proof. intros H. induction l as [|x l IH]; simpl; [done |]. by rw H IH. Qed.

Lemma find_by_Some {A} (p : A → bool) l x :
  find_by p l = Some x → x ∈ l ∧ p x = true.
Proof. intros H. apply List.find_some in H as [?%list_elem_of_In ?]. done. Qed.

Lemma find_by_None {A} (p : A → bool) l x :
  find_by p l = None → x ∈ l → p x = false.
Proof. intros H Hx%list_elem_of_In. by apply (List.find_none _ _ H). Qed.

Lemma min_by_key_spec {A} (key : A → Z) l x :
  min_by_key key l = Some x → x ∈ l ∧ ∀ y, y ∈ l → (key x ≤ key y)%Z.
Proof.
  revert x. induction l as [|z l IH]; intros x; simpl; [done |].
  destruct (min_by_key key l) as [m|] eqn:E.
  - destruct (IH m eq_refl) as [Hm Hmin].
    destruct (Z.ltb_spec (key m) (key z)); intros [= <-]; (split; [set_solver |]).
    + intros y [-> | ?]%elem_of_cons; [lia | auto].
    + intros y [-> | ?%Hmin]%elem_of_cons; lia.
  - intros [= <-]. split; [set_solver |].
    destruct l as [|w l]; [intros y ->%list_elem_of_singleton; lia |].
    simpl in E. by destruct (min_by_key key l); [case_match |].
Qed.

Lemma min_by_key_None {A} (key : A → Z) l : min_by_key key l = None ↔ l = [].
Proof. destruct l; simpl; [done |]. split; [| done]. repeat case_match; done. Qed.

(** ** Sums over lists *)
Lemma sum_insert {A} (g : A → nat) (l : list A) i x y :
  l !! i = Some x → sum_list_with g (<[i := y]> l) + g x = sum_list_with g l + g y.
Proof.
  revert i. induction l as [|z l IH]; intros [|i]; simpl; [done.. | |].
  - intros [= ->]. lia.
  - intros Hi. specialize (IH i Hi). lia.
Qed.

Lemma sum_zero {A} (g : A → nat) l : (∀ x, x ∈ l → g x = 0) → sum_list_with g l = 0.
Proof.
  induction l as [|x l IH]; simpl; [done |]. intros H. rw (H x); [by left |].
  rw IH; [intros y Hy; apply H; by right | done].
Qed.

Lemma sum_le {A} (g h : A → nat) l : (∀ x, g x ≤ h x) → sum_list_with g l ≤ sum_list_with h l.
Proof. intros H. induction l as [|x l IH]; simpl; [done |]. specialize (H x). lia. Qed.

(** ** Keys *)
Lemma NoDup_key {A B} (k : A → B) l x y :
  NoDup (k <$> l) → x ∈ l → y ∈ l → k x = k y → x = y.
Proof.
  intros Hnd [i Hi]%list_elem_of_lookup [j Hj]%list_elem_of_lookup Hk.
  assert (i = j) as ->; [| congruence].
  apply (NoDup_lookup (k <$> l) i j (k x)); [done | |]; rw list_lookup_fmap ?Hi ?Hj //= ?Hk //.
Qed.

Lemma find_by_key {A} (k : A → string) l x :
  NoDup (k <$> l) → x ∈ l → find_by (λ r, String.eqb (k r) (k x)) l = Some x.
Proof.
  intros Hnd Hx. destruct (find_by _ l) as [y|] eqn:E.
  - apply find_by_Some in E as [Hy Hk%String.eqb_eq]. f_equal. by eapply NoDup_key.
  - apply (find_by_None _ _ x) in E; [| done]. by rw String.eqb_refl in E.
Qed.

Lemma find_by_key_None {A} (k : A → string) l n :
  find_by (λ r, String.eqb (k r) n) l = None ↔ n ∉ k <$> l.
Proof.
  induction l as [|x l IH]; simpl; [split; [by intros _ ?%not_elem_of_nil | done] |].
  rw not_elem_of_cons. unfold find_by in *. simpl.
  destruct (String.eqb_spec (k x) n); [naive_solver | rw IH; naive_solver].
Qed.

(** [for r in l { m.insert(k(r), f(r, m.get(k(r)))) }] over different keys *)
Lemma foldl_update_lookup {A B} (k : A → string) (f : A → option B → B) l (m : gmap string B) n :
  NoDup (k <$> l) →
  foldl (λ m r, <[k r := f r (m !! k r)]> m) m l !! n
  = match find_by (λ r, String.eqb (k r) n) l with Some r => Some (f r (m !! n)) | None => m !! n end.
Proof.
  revert m. induction l as [|x l IH]; intros m Hnd; simpl; [done |].
  apply NoDup_cons in Hnd as [Hx Hnd]. rw (IH _ Hnd). unfold find_by. simpl.
  destruct (String.eqb_spec (k x) n) as [<- | Hne].
  - replace (List.find (λ r, String.eqb (k r) (k x)) l) with (@None A); [by rw lookup_insert_eq |].
    symmetry. by apply find_by_key_None.
  - destruct (List.find _ _); by rw lookup_insert_ne.
Qed.
