(* ===== verification/RustStr.v ===== *)
(** * Strings

    The operations of [str] the program uses, on byte strings ([String.string]): a Rust
    [String] is a UTF-8 byte string and its order and equality are bytewise.  Decimal
    printing and parsing of [i64] is what [format!] and [str::parse] do.
    The second part has the binary search of slices. *)
From Stdlib Require DecimalString DecimalZ.
From S2P Require Import Prelude.

Import DecimalString.

#[local] Open Scope string_scope.

(** [s.split_once(c)]: around the first occurrence of [c]. *)
Fixpoint split_once (c : ascii) (s : string) : option (string * string) :=
  match s with
  | EmptyString => None
  | String a s' =>
      if Ascii.eqb a c then Some (EmptyString, s')
      else match split_once c s' with
           | Some (l, r) => Some (String a l, r)
           | None => None
           end
  end.

(** [s.strip_prefix(p)] *)
Fixpoint strip_prefix (p s : string) : option string :=
  match p, s with
  | EmptyString, _ => Some s
  | String a p', String b s' => if Ascii.eqb a b then strip_prefix p' s' else None
  | _, _ => None
  end.

(** [s.strip_suffix(q)]: the shortest prefix of [s] that [q] completes. *)
Fixpoint strip_suffix (q s : string) : option string :=
  if String.eqb s q then Some EmptyString
  else match s with
       | EmptyString => None
       | String a s' => match strip_suffix q s' with
                        | Some r => Some (String a r)
                        | None => None
                        end
       end.

Definition starts_with (p s : string) : bool :=
  match strip_prefix p s with Some _ => true | None => false end.

(** [s.contains(c)] for a character *)
Fixpoint has_char (c : ascii) (s : string) : bool :=
  match s with
  | EmptyString => false
  | String a s' => Ascii.eqb a c || has_char c s'
  end.

Fixpoint forall_char (p : ascii → bool) (s : string) : bool :=
  match s with
  | EmptyString => true
  | String a s' => p a && forall_char p s'
  end.

(** [s.chars().take_while(p).collect()] for a predicate on ASCII characters *)
Fixpoint take_while (p : ascii → bool) (s : string) : string :=
  match s with
  | EmptyString => EmptyString
  | String a s' => if p a then String a (take_while p s') else EmptyString
  end.

Definition is_empty (s : string) : bool := String.eqb s "".

Definition in_range (lo hi c : ascii) : bool :=
  (Ascii.N_of_ascii lo <=? Ascii.N_of_ascii c)%N && (Ascii.N_of_ascii c <=? Ascii.N_of_ascii hi)%N.
Definition is_ascii_digit : ascii → bool := in_range "0"%char "9"%char.

(** [s.chars()]: the UTF-8 sequences of [s]; a byte [0x80..=0xBF] continues the sequence of
    the byte before it. *)
Definition is_continuation (c : ascii) : bool :=
  (128 <=? Ascii.N_of_ascii c)%N && (Ascii.N_of_ascii c <? 192)%N.
Fixpoint chars (s : string) : list string :=
  match s with
  | EmptyString => []
  | String a s' =>
      match s' with
      | String b _ =>
          if is_continuation b then
            match chars s' with
            | c :: cs => String a c :: cs
            | [] => [String a EmptyString]
            end
          else String a EmptyString :: chars s'
      | EmptyString => [String a EmptyString]
      end
  end.

(** [format!("{z}")] for an integer *)
Definition show_int (z : Z) : string := NilZero.string_of_int (Z.to_int z).

(** [s.parse::<i64>()]: an optional sign, at least one digit, within range. *)
Definition parse_int (s : string) : option Z :=
  match s with
  | String "+"%char s' => Z.of_uint <$> NilZero.uint_of_string s'
  | _ => Z.of_int <$> NilZero.int_of_string s
  end.
Definition parse_i64 (s : string) : option Z :=
  match parse_int s with
  | Some z => if in_i64 z then Some z else None
  | None => None
  end.
(** [s.parse::<u32>()]: an optional ["+"]; ["-"] is no digit of an unsigned integer. *)
Definition parse_u32 (s : string) : option Z :=
  let digits := match s with String "+"%char s' => s' | _ => s end in
  match Z.of_uint <$> NilZero.uint_of_string digits with
  | Some z => if (z <? 2 ^ 32)%Z then Some z else None
  | None => None
  end.

(** ** Lemmas *)

Lemma string_app_assoc (s t u : string) : (s ++ t) ++ u = s ++ (t ++ u).
Proof. induction s as [|a s IH]; simpl; [done | by rw IH]. Qed.

Lemma string_app_nil_r (s : string) : s ++ "" = s.
Proof. induction s as [|a s IH]; simpl; [done | by rw IH]. Qed.

Lemma string_length_app (s t : string) : String.length (s ++ t) = String.length s + String.length t.
Proof. induction s as [|a s IH]; simpl; [done | by rw IH]. Qed.

Lemma split_once_app c l r : has_char c l = false → split_once c (l ++ String c r) = Some (l, r).
Proof.
  induction l as [|a l IH]; simpl; [by rw Ascii.eqb_refl |].
  destruct (Ascii.eqb a c); simpl; [done |]. intros H. by rw IH.
Qed.

Lemma split_once_Some c s l r :
  split_once c s = Some (l, r) → s = l ++ String c r ∧ has_char c l = false.
Proof.
  revert l. induction s as [|a s IH]; intros l; simpl; [done |].
  destruct (Ascii.eqb_spec a c) as [-> | Hne]; [by intros [= <- <-] |].
  destruct (split_once c s) as [[l' r']|]; [| done]. intros [= <- ->].
  destruct (IH l' eq_refl) as [-> Hl']. simpl. rw Hl'.
  split; [done |]. by apply Ascii.eqb_neq in Hne as ->.
Qed.

Lemma split_once_None c s : split_once c s = None ↔ has_char c s = false.
Proof.
  induction s as [|a s IH]; simpl; [done |].
  destruct (Ascii.eqb a c); simpl; [done |]. rw -IH. by destruct (split_once c s) as [[]|].
Qed.

Lemma has_char_app c s t : has_char c (s ++ t) = has_char c s || has_char c t.
Proof. induction s as [|a s IH]; simpl; [done |]. rw IH. by destruct (Ascii.eqb a c). Qed.

Lemma strip_prefix_app p s : strip_prefix p (p ++ s) = Some s.
Proof. induction p as [|a p IH]; simpl; [done | by rw Ascii.eqb_refl]. Qed.

Lemma strip_prefix_Some p s r : strip_prefix p s = Some r → s = p ++ r.
Proof.
  revert s. induction p as [|a p IH]; intros [|b s]; simpl; try congruence.
  destruct (Ascii.eqb_spec a b) as [-> |]; [| done]. by intros ->%IH.
Qed.

Lemma strip_suffix_app q s : strip_suffix q (s ++ q) = Some s.
Proof.
  induction s as [|a s IH].
  - destruct q as [|b q]; [done |]. simpl. rw Ascii.eqb_refl. by rw String.eqb_refl.
  - cbn [String.append strip_suffix].
    destruct (String.eqb_spec (String a (s ++ q)) q) as [E |]; [| by rw IH].
    exfalso. apply (f_equal String.length) in E. simpl in E. rw string_length_app in E. lia.
Qed.

Lemma strip_suffix_Some q s r : strip_suffix q s = Some r → s = r ++ q.
Proof.
  revert r. induction s as [|a s IH]; intros r; cbn [strip_suffix].
  - destruct (String.eqb_spec "" q) as [<- |]; [by intros [= <-] | done].
  - destruct (String.eqb_spec (String a s) q) as [<- |]; [by intros [= <-] |].
    destruct (strip_suffix q s) as [r'|]; [| done]. intros [= <-].
    simpl. by rw -(IH r').
Qed.

Lemma string_app_inj_l (s t u : string) : s ++ t = s ++ u → t = u.
Proof. induction s as [|a s IH]; simpl; [done |]. by intros [= ?%IH]. Qed.

(** *** Decimal integers *)
Lemma Z_to_int_nonnil z : Z.to_int z ≠ Decimal.Pos Decimal.Nil ∧ Z.to_int z ≠ Decimal.Neg Decimal.Nil.
Proof.
  destruct z as [|p|p]; simpl; split; try done; intros [= H];
    by apply (DecimalPos.Unsigned.to_uint_nonnil p).
Qed.

Lemma show_int_parse z : NilZero.int_of_string (show_int z) = Some (Z.to_int z).
Proof. destruct (Z_to_int_nonnil z). by apply NilZero.isi. Qed.

Definition int_char (c : ascii) : bool := is_ascii_digit c || Ascii.eqb c "-"%char.

Lemma uint_chars d : forall_char int_char (NilEmpty.string_of_uint d) = true.
Proof. induction d; simpl; done. Qed.

Lemma show_int_chars z : forall_char int_char (show_int z) = true.
Proof.
  unfold show_int. destruct (Z.to_int z) as [d|d]; simpl.
  - pose proof (uint_chars d). by destruct d.
  - pose proof (uint_chars d). by destruct d.
Qed.

Lemma forall_char_has p s c : forall_char p s = true → p c = false → has_char c s = false.
Proof.
  induction s as [|a s IH]; simpl; [done |]. intros [Ha Hs]%andb_true_iff Hc.
  destruct (Ascii.eqb_spec a c) as [-> |]; [congruence | by apply IH].
Qed.

Lemma parse_int_show z : parse_int (show_int z) = Some z.
Proof.
  unfold parse_int. pose proof (show_int_parse z) as H. pose proof (show_int_chars z) as Hc.
  destruct (show_int z) as [|a s]; [done |].
  assert (a ≠ "+"%char). { intros ->. simpl in Hc. done. }
  rw H /=. destruct a as [[] [] [] [] [] [] [] []]; try done; by rw DecimalZ.of_to.
Qed.

Lemma parse_i64_show z : in_i64 z = true → parse_i64 (show_int z) = Some z.
Proof. intros Hz. unfold parse_i64. by rw parse_int_show Hz. Qed.

Lemma show_int_inj z z' : show_int z = show_int z' → z = z'.
Proof.
  intros E. pose proof (show_int_parse z) as H. rw E (show_int_parse z') in H.
  apply DecimalZ.to_int_inj. congruence.
Qed.

(** *** A binary number as text, for the file formats of the concrete instances *)
Fixpoint pos_string (p : positive) : string :=
  match p with
  | xH => ""
  | xO p => String "0" (pos_string p)
  | xI p => String "1" (pos_string p)
  end.
Fixpoint string_pos (s : string) : positive :=
  match s with
  | EmptyString => xH
  | String c s => if Ascii.eqb c "0" then xO (string_pos s) else xI (string_pos s)
  end.
Lemma string_pos_pos_string p : string_pos (pos_string p) = p.
Proof. induction p as [p IH|p IH|]; simpl; [by rw IH | by rw IH | done]. Qed.

(** * Slices

    [slice::binary_search_by] of the Rust standard library: where it finds an element, or where
    one would have to be inserted. *)

#[local] Open Scope nat_scope.

Section binary_search.
Context {A : Type} (f : A → comparison) (l : list A).

(** The loop halves the range; its length is enough fuel. *)
Fixpoint narrow (fuel base size : nat) : nat :=
  match fuel with
  | O => base
  | S fuel =>
      if size <=? 1 then base
      else
        let half := size / 2 in
        let mid := base + half in
        let base := match l !! mid with
                    | Some x => match f x with Gt => base | _ => mid end
                    | None => base
                    end in
        narrow fuel base (size - half)
  end.
Definition binary_search_by : result nat nat :=
  let base := narrow (length l) 0 (length l) in
  match l !! base with
  | None => Err 0
  | Some x => match f x with Eq => Ok base | Lt => Err (S base) | Gt => Err base end
  end.

(** Once the probe says greater it says so for all later elements. *)
Definition probe_sorted : Prop :=
  ∀ i j x y, i < j → l !! i = Some x → l !! j = Some y → f x = Gt → f y = Gt.

Lemma narrow_spec fuel base size : probe_sorted → size ≤ fuel → 1 ≤ size → base + size ≤ length l →
  (∀ j y, base + size ≤ j → l !! j = Some y → f y = Gt) →
  (base = 0 ∨ ∃ x, l !! base = Some x ∧ f x ≠ Gt) →
  let b := narrow fuel base size in
  b < length l ∧ (∀ j y, b < j → l !! j = Some y → f y = Gt) ∧ (b = 0 ∨ ∃ x, l !! b = Some x ∧ f x ≠ Gt).
Proof.
  intros Hs. revert base size. induction fuel as [|fuel IH]; intros base size Hf H1 Hlen Hgt Hb; cbn [narrow]; [lia |].
  destruct (Nat.leb_spec size 1) as [Hle | Hlt].
  { split; [lia |]. split; [| done]. intros j y Hj. apply Hgt. lia. }
  assert (2 * (size / 2) ≤ size ∧ 1 ≤ size / 2) as [Hh1 Hh2].
  { split; [apply Nat.Div0.mul_div_le |]. apply Nat.div_le_lower_bound; lia. }
  generalize dependent (size / 2). intros half Hh1 Hh2.
  destruct (lookup_lt_is_Some_2 l (base + half)) as [x Hx]; [lia |]. rw Hx.
  destruct (f x) eqn:Ef.
  - apply IH; [lia.. | | right; exists x; by rw Ef]. intros j y Hj. apply Hgt. lia.
  - apply IH; [lia.. | | right; exists x; by rw Ef]. intros j y Hj. apply Hgt. lia.
  - apply IH; [lia.. | | done]. intros j y Hj Hy.
    destruct (decide (j = base + half)) as [-> | Hne]; [congruence |].
    by eapply (Hs (base + half) j); [lia | ..].
Qed.

(** The position of the last element that is not greater, if there is one *)
Lemma narrow_last : probe_sorted → l ≠ [] →
  let b := narrow (length l) 0 (length l) in
  b < length l ∧ (∀ j y, b < j → l !! j = Some y → f y = Gt) ∧ (b = 0 ∨ ∃ x, l !! b = Some x ∧ f x ≠ Gt).
Proof.
  intros Hs Hl. assert (0 < length l) by by destruct l; [| simpl; lia].
  apply narrow_spec; [done | lia.. | | by left]. intros j y Hj Hy%lookup_lt_Some. lia.
Qed.

Lemma binary_search_sound i : binary_search_by = Ok i → ∃ x, l !! i = Some x ∧ f x = Eq.
Proof.
  unfold binary_search_by. destruct (l !! _) as [x|] eqn:Hx; [| done].
  destruct (f x) eqn:Ef; [| done..]. intros [= <-]. eauto.
Qed.

(** An element before which all are less and after which all are greater is found. *)
Lemma binary_search_unique i x : probe_sorted → l !! i = Some x → f x = Eq →
  (∀ j y, j < i → l !! j = Some y → f y = Lt) → (∀ j y, i < j → l !! j = Some y → f y = Gt) →
  binary_search_by = Ok i.
Proof.
  intros Hs Hi Hx Hbefore Hafter. assert (l ≠ []) as Hl by by intros ->.
  destruct (narrow_last Hs Hl) as (Hlt & Hgt & Hb). unfold binary_search_by.
  set (b := narrow (length l) 0 (length l)) in *.
  assert (b = i) as ->; [| by rw Hi Hx].
  destruct (Nat.lt_trichotomy b i) as [Hlt' | [-> | Hlt']]; [| done |].
  - by rw (Hgt _ _ Hlt' Hi) in Hx.
  - destruct Hb as [-> | (y & Hy & Hny)]; [lia |]. by rw (Hafter _ _ Hlt' Hy) in Hny.
Qed.

(** Inserting at the position that the search gives keeps the elements in order. *)
Lemma binary_search_position : probe_sorted →
  let i := match binary_search_by with Ok i | Err i => i end in
  i ≤ length l ∧ (∀ j y, i ≤ j → l !! j = Some y → f y ≠ Lt)
  ∧ (∀ j y, j < i → l !! j = Some y → f y ≠ Gt).
Proof.
  intros Hs. unfold binary_search_by. destruct (decide (l = [])) as [E | Hl].
  { rw E. simpl. split_and!; [lia | done | lia]. }
  destruct (narrow_last Hs Hl) as (Hlt & Hgt & Hb). set (b := narrow (length l) 0 (length l)) in *.
  destruct (lookup_lt_is_Some_2 l b Hlt) as [x Hx]. rw Hx.
  assert (∀ j y, b < j → l !! j = Some y → f y ≠ Lt) as Hafter by by intros j y Hj Hy; rw (Hgt j y).
  assert (∀ j y, j < b → l !! j = Some y → f y ≠ Gt) as Hbefore.
  { intros j y Hj Hy Hfy. destruct Hb as [-> | (x' & Hx' & Hn)]; [lia |]. destruct Hn. by eapply (Hs j b). }
  destruct (f x) eqn:Ef; split_and!; try lia; intros j y Hj Hy.
  - destruct (decide (j = b)) as [-> |]; [by simplify_eq; rw Ef |]. apply (Hafter j); [lia | done].
  - by apply (Hbefore j).
  - apply (Hafter j); [lia | done].
  - destruct (decide (j = b)) as [-> |]; [by simplify_eq; rw Ef |]. apply (Hbefore j); [lia | done].
  - destruct (decide (j = b)) as [-> |]; [by simplify_eq; rw Ef |]. apply (Hafter j); [lia | done].
  - by apply (Hbefore j).
Qed.
End binary_search.
