(* ===== verification/Remotes.v ===== *)
(** * Remotes

    The type of a remote entry of lib/pdm-api-types/src/remotes.rs.
    The second part has the ids of remote tasks. *)
From S2P Require Import Prelude RustStr.

Inductive RemoteType := Pve | Pbs.

Global Instance RemoteType_eq_dec : EqDecision RemoteType.
Proof. solve_decision. Defined.

Global Instance RemoteType_countable : Countable RemoteType.
Proof.
  refine (inj_countable' (λ t, match t with Pve => true | Pbs => false end)
                         (λ b, if b then Pve else Pbs) _). by intros [].
Defined.

Definition default_port (t : RemoteType) : Z :=
  match t with Pve => 8006 | Pbs => 8007 end.

(** [serde(rename_all = "lowercase")] on [RemoteType]: [Display] and [FromStr] *)
Definition show_remote_type (t : RemoteType) : string :=
  match t with Pve => "pve" | Pbs => "pbs" end.
Definition parse_remote_type (s : string) : option RemoteType :=
  if String.eqb s "pve" then Some Pve
  else if String.eqb s "pbs" then Some Pbs
  else None.

Lemma show_remote_type_chars t c :
  c = ":"%char ∨ c = "!"%char → has_char c (show_remote_type t) = false.
Proof. by intros [-> | ->]; destruct t. Qed.

Lemma parse_show_remote_type t : parse_remote_type (show_remote_type t) = Some t.
Proof. by destruct t. Qed.

(** * Remote task ids

    [RemoteUpid] of lib/pdm-api-types/src/remote_upid.rs, on the [RemoteType] of Remotes.
    The native UPID parsers are those of the crates pve-api-types and pbs-api-types, and the
    regular expression of a safe id is proxmox-schema's: all three are parameters, bundled in
    the class [UpidEnv]. *)

(** ** Data *)
Record RemoteUpid := {
  ru_remote : string;
  ru_type : RemoteType;
  ru_upid : string;
}.

Global Instance RemoteUpid_eq_dec : EqDecision RemoteUpid.
Proof. solve_decision. Defined.

Global Instance RemoteUpid_countable : Countable RemoteUpid.
Proof.
  refine (inj_countable' (λ u, (ru_remote u, ru_type u, ru_upid u))
                         (λ '(r, t, u), Build_RemoteUpid r t u) _). by intros [].
Defined.

(** The fields of a parsed native UPID that the program reads. *)
Record NativeFields := {
  nu_node : string;
  nu_pid : Z;
  nu_pstart : Z;
  nu_starttime : Z;
  nu_worker_type : string;
  nu_worker_id : option string;
  nu_auth_id : string;
}.

Inductive NativeUpid :=
| PveUpid (f : NativeFields)
| PbsUpid (f : NativeFields).

Inductive upid_error :=
| MissingSeparator
| BadRemoteId
| InvalidUpid (raw : string)
| UnknownRemoteType (ty : string)
| ExpectedPve
| ExpectedPbs.

(** Code of other crates that this file calls. *)
Class UpidEnv := {
  safe_id : string → bool;                     (* SAFE_ID_REGEX.is_match *)
  parse_pve_upid : string → option NativeFields; (* PveUpid::from_str *)
  parse_pbs_upid : string → option NativeFields; (* pbs_api_types::UPID::from_str *)
}.

(** What the program relies on: a safe id holds no separator of a remote upid. *)
Class SafeIdLaws `{UpidEnv} : Prop := {
  safe_id_no_colon s : safe_id s = true → has_char ":"%char s = false;
  safe_id_no_bang s : safe_id s = true → has_char "!"%char s = false;
}.

(** ** Operations *)
Definition new_upid (r : string) (t : RemoteType) (u : string) : RemoteUpid :=
  {| ru_remote := r; ru_type := t; ru_upid := u |}.

Definition native_node (n : NativeUpid) : string :=
  match n with PveUpid f => nu_node f | PbsUpid f => nu_node f end.

Section upid.
Context `{UpidEnv}.

Definition native_upid (u : RemoteUpid) : result upid_error NativeUpid :=
  match ru_type u with
  | Pve => PveUpid <$> ok_or (parse_pve_upid (ru_upid u)) (InvalidUpid (ru_upid u))
  | Pbs => PbsUpid <$> ok_or (parse_pbs_upid (ru_upid u)) (InvalidUpid (ru_upid u))
  end.

Definition pve_upid (u : RemoteUpid) : result upid_error NativeFields :=
  n ← native_upid u;
  match n with PveUpid f => Ok f | PbsUpid _ => Err ExpectedPve end.

Definition pbs_upid (u : RemoteUpid) : result upid_error NativeFields :=
  n ← native_upid u;
  match n with PveUpid _ => Err ExpectedPbs | PbsUpid f => Ok f end.

Definition deduce_type (raw : string) : result upid_error RemoteType :=
  match parse_pve_upid raw with
  | Some _ => Ok Pve
  | None => match parse_pbs_upid raw with
            | Some _ => Ok Pbs
            | None => Err (InvalidUpid raw)
            end
  end.

(** [TryFrom<(&str, &str)>]: the type is deduced from the upid *)
Definition try_from_pair (r u : string) : result upid_error RemoteUpid :=
  _ ← bail_if (negb (safe_id r)) BadRemoteId;
  ty ← deduce_type u;
  Ok (new_upid r ty u).

(** [TryFrom<(&str, &str, &str)>]: the type is given *)
Definition try_from_triple (ty r u : string) : result upid_error RemoteUpid :=
  _ ← bail_if (negb (safe_id r)) BadRemoteId;
  ty ← ok_or (parse_remote_type ty) (UnknownRemoteType ty);
  Ok (new_upid r ty u).

Definition from_str (s : string) : result upid_error RemoteUpid :=
  match split_once "!"%char s with
  | None => Err MissingSeparator
  | Some (remote_and_type, u) =>
      match split_once ":"%char remote_and_type with
      | Some (ty, r) => try_from_triple ty r u
      | None => try_from_pair remote_and_type u
      end
  end.
End upid.

(** [Display]: ["{remote_type}:{remote}!{upid}"] *)
Definition to_string (u : RemoteUpid) : string :=
  (show_remote_type (ru_type u) ++ ":" ++ ru_remote u ++ "!" ++ ru_upid u)%string.

(** ** Properties *)

Section laws.
Context `{SafeIdLaws}.

Lemma split_to_string u :
  safe_id (ru_remote u) = true →
  split_once "!"%char (to_string u)
    = Some ((show_remote_type (ru_type u) ++ ":" ++ ru_remote u)%string, ru_upid u)
  ∧ split_once ":"%char (show_remote_type (ru_type u) ++ ":" ++ ru_remote u)%string
    = Some (show_remote_type (ru_type u), ru_remote u).
Proof.
  intros Hsafe. unfold to_string. split.
  - rw -!string_app_assoc. rw (string_app_assoc _ "!" (ru_upid u)). apply split_once_app.
    rw !has_char_app show_remote_type_chars; [by right |]. by rw (safe_id_no_bang _ Hsafe).
  - apply split_once_app. apply show_remote_type_chars. by left.
Qed.

(** Two remote upids of well-formed remotes print alike only when they are equal. *)
Lemma to_string_inj u v :
  safe_id (ru_remote u) = true → safe_id (ru_remote v) = true →
  to_string u = to_string v → u = v.
Proof.
  intros Hu Hv E. destruct (split_to_string u Hu) as [Hu1 Hu2].
  destruct (split_to_string v Hv) as [Hv1 Hv2].
  rw E Hv1 in Hu1. injection Hu1 as Hl Hr. rw -Hl Hv2 in Hu2.
  injection Hu2 as Ht Hrem. destruct u as [r t x], v as [r' t' x']. simpl in *.
  subst. by destruct t, t'.
Qed.

Lemma from_str_to_string u : safe_id (ru_remote u) = true → from_str (to_string u) = Ok u.
Proof.
  intros Hu. destruct (split_to_string u Hu) as [H1 H2].
  unfold from_str. rw H1 H2. unfold try_from_triple. rw Hu parse_show_remote_type.
  by destruct u.
Qed.
End laws.

(** What [from_str] accepts carries a safe remote id. *)
Lemma from_str_safe `{UpidEnv} s u : from_str s = Ok u → safe_id (ru_remote u) = true.
Proof.
  unfold from_str, try_from_triple, try_from_pair.
  destruct (split_once "!"%char s) as [[rt x]|]; [| done].
  destruct (split_once ":"%char rt) as [[ty r]|].
  - destruct (safe_id r) eqn:E; simpl; [| done].
    destruct (parse_remote_type ty); simpl; [| done]. by intros [= <-].
  - destruct (safe_id rt) eqn:E; simpl; [| done].
    destruct (deduce_type x); simpl; [| done]. by intros [= <-].
Qed.
