(* ===== verification/Disk.v ===== *)
(** * Files

    The directory a cache keeps its files in, as the [std::fs] and [proxmox_sys::fs] calls of
    the program see it: a finite map from file names to contents, and a small state-and-error
    monad for the calls.  A content is the list of lines [BufRead::lines] returns: a line of
    text, a last line without its newline, or a line that cannot be read (bytes that are no
    UTF-8, a truncated zstd frame).
    Every call of a file operation asks the world's fault schedule first, so a theorem over all
    schedules covers I/O errors at every call, and, with a schedule that fails from some call
    on, a crash at that call. *)
From S2P Require Import Prelude RustStr.

Inductive io_kind := NotFound | OtherIo.
Record error := Error { kind : io_kind; message : list string }.

Inductive line :=
| Text (s : string)
| Partial (s : string)   (* a last line that has no newline yet *)
| Unreadable (raw : string).
Abbreviation file := (list line).
Abbreviation dir := (gmap string file).

Record world := World {
  disk : dir;
  tick : nat;
  faults : nat → bool;
}.

Definition IO (A : Type) : Type := world → result error A * world.

Global Instance IO_ret : MRet IO := λ _ a w, (Ok a, w).
Global Instance IO_bind : MBind IO := λ _ _ f m w,
  match m w with
  | (Ok a, w') => f a w'
  | (Err e, w') => (Err e, w')
  end.

Definition fail {A} (e : error) : IO A := λ w, (Err e, w).

(** A [match] on the [Result] of a call instead of [?]. *)
Definition attempt {A} (m : IO A) : IO (result error A) := λ w,
  let '(r, w') := m w in (Ok r, w').

(** [anyhow]'s [.context(..)] *)
Definition context {A} (msg : string) (m : IO A) : IO A := λ w,
  let '(r, w') := m w in
  (match r with Ok a => Ok a | Err e => Err (Error (kind e) (msg :: message e)) end, w').

(** One call into the file system. *)
Definition syscall : IO () := λ w,
  (if faults w (tick w) then Err (Error OtherIo []) else Ok (),
   World (disk w) (S (tick w)) (faults w)).
Definition get_disk : IO dir := λ w, (Ok (disk w), w).
Definition put_disk (d : dir) : IO () := λ w, (Ok (), World d (tick w) (faults w)).

Definition enoent {A} : IO A := fail (Error NotFound []).

Definition fs_open (name : string) : IO file :=
  _ ← syscall; d ← get_disk;
  match d !! name with Some f => mret f | None => enoent end.

(** Reading a file that is open can fail as well: the read of the file opened last before call
    [n] ends with an error after [short_read n] lines, or reaches the end of the file. *)
Class Reads := { short_read : nat → option nat }.
Class SteadyReads `{Reads} : Prop := { steady n : short_read n = None }.
Definition read_lines `{Reads} (f : file) : IO file := λ w,
  (Ok (match short_read (tick w) with Some k => take k f ++ [Unreadable ""] | None => f end), w).

Definition fs_read_dir : IO (list string) :=
  _ ← syscall; d ← get_disk; mret (fst <$> map_to_list d).

(** [replace_file], and the [rename] of a finished temporary file: atomic *)
Definition fs_replace (name : string) (f : file) : IO () :=
  _ ← syscall; d ← get_disk; put_disk (<[name := f]> d).

Definition fs_remove (name : string) : IO () :=
  _ ← syscall; d ← get_disk;
  match d !! name with Some _ => put_disk (delete name d) | None => enoent end.

(** [file_read_optional_string] *)
Definition file_read_optional_string (name : string) : IO (option file) :=
  r ← attempt (fs_open name);
  match r with
  | Ok f => mret (Some f)
  | Err e => match kind e with NotFound => mret None | OtherIo => fail e end
  end.

(** [path.exists()] is [false] when the path cannot be examined. *)
Definition path_exists (name : string) : IO bool :=
  r ← attempt syscall; d ← get_disk;
  mret (match r with Ok _ => bool_decide (is_Some (d !! name)) | Err _ => false end).
(** [std::fs::rename] *)
Definition fs_rename (from to : string) : IO () :=
  _ ← syscall; d ← get_disk;
  match d !! from with Some f => put_disk (<[to := f]> (delete from d)) | None => enoent end.

(** [OpenOptions::new().append(true).create(true).open(name)] *)
Definition fs_open_append (name : string) : IO () :=
  _ ← syscall; d ← get_disk;
  match d !! name with Some _ => mret () | None => put_disk (<[name := []]> d) end.

(** Appending one character, and a newline: an unterminated last line is continued. *)
Fixpoint push_char (c : ascii) (f : file) : file :=
  match f with
  | [] => [Partial (String c "")]
  | l :: f' =>
      match l, f' with
      | Partial s, [] => [Partial (s ++ String c "")%string]
      | _, _ => l :: push_char c f'
      end
  end.
Fixpoint push_newline (f : file) : file :=
  match f with
  | [] => [Text ""]
  | l :: f' =>
      match l, f' with
      | Partial s, [] => [Text s]
      | _, _ => l :: push_newline f'
      end
  end.

(** One [write] to a file opened for appending. *)
Definition fs_append (name : string) (push : file → file) : IO () :=
  _ ← syscall; d ← get_disk;
  put_disk (<[name := push (default [] (d !! name))]> d).

(** [OpenOptions::new().write(true).truncate(true).open(name)] *)
Definition fs_truncate (name : string) : IO () :=
  _ ← syscall; d ← get_disk;
  match d !! name with Some _ => put_disk (<[name := []]> d) | None => enoent end.

Definition line_size (l : line) : Z :=
  match l with
  | Text s | Unreadable s => Z.of_nat (String.length s) + 1
  | Partial s => Z.of_nat (String.length s)
  end.
Definition file_size (f : file) : Z := foldr (λ l n, line_size l + n)%Z 0%Z f.

(** [path.metadata()?.size()] *)
Definition fs_size (name : string) : IO Z :=
  _ ← syscall; d ← get_disk;
  match d !! name with Some f => mret (file_size f) | None => enoent end.

(** A [for] loop with [?] in its body. *)
Fixpoint for_each {A} (l : list A) (body : A → IO ()) : IO () :=
  match l with
  | [] => mret ()
  | x :: l' => _ ← body x; for_each l' body
  end.

(** [serde_json::to_writer] to a [File]: the text is written piece by piece.  A write per
    character covers every way to cut it into pieces. *)
Definition fs_write_str (name : string) (text : string) : IO () :=
  for_each (String.list_ascii_of_string text) (λ c, fs_append name (push_char c)).
Definition fs_write_line (name : string) (text : string) : IO () :=
  _ ← fs_write_str name text; fs_append name push_newline.

(** ** Running without faults

    [quiet_run d m r d']: on a fault-free world whose disk is [d], [m] returns [r] and leaves
    the disk [d'].  The call counter is not observable, so a rule per operation is enough to
    run a program symbolically. *)
Definition quiet (w : world) : Prop := ∀ n, faults w n = false.
Definition quiet_run {A} (d : dir) (m : IO A) (r : result error A) (d' : dir) : Prop :=
  ∀ w, quiet w → disk w = d →
    (m w).1 = r ∧ disk (m w).2 = d' ∧ quiet (m w).2.

Definition quiet_world (d : dir) : world := World d 0 (λ _, false).

(** ** Invariants under every fault schedule

    [keeps I m]: whatever calls fail, [m] keeps the property [I] of the disk. *)
Definition keeps {A} (I : dir → Prop) (m : IO A) : Prop :=
  ∀ w, I (disk w) → I (disk (m w).2).

(** [triple P m Q E]: from a disk with [P], a successful run of [m] ends with [Q] and a failing
    one with [E], whatever calls fail. *)
Definition triple {A} (P : dir → Prop) (m : IO A) (Q : A → dir → Prop) (E : dir → Prop) : Prop :=
  ∀ w, P (disk w) →
    match m w with (Ok a, w') => Q a (disk w') | (Err _, w') => E (disk w') end.

Section quiet.
Context {A B : Type}.
Implicit Types (d : dir) (m : IO A) (f : A → IO B).

Lemma quiet_ret d (a : A) : quiet_run d (mret a) (Ok a) d.
Proof. by intros w Hq <-. Qed.

Lemma quiet_bind d m f a d' r d'' :
  quiet_run d m (Ok a) d' → quiet_run d' (f a) r d'' → quiet_run d (m ≫= f) r d''.
Proof.
  intros Hm Hf w Hq Hd. destruct (Hm w Hq Hd) as (Hr & Hd' & Hq').
  unfold mbind, IO_bind. destruct (m w) as [r' w']; simpl in *. subst r'. by apply Hf.
Qed.

Lemma quiet_bind_err d m f e d' :
  quiet_run d m (Err e) d' → quiet_run d (m ≫= f) (Err e) d'.
Proof.
  intros Hm w Hq Hd. destruct (Hm w Hq Hd) as (Hr & Hd' & Hq').
  unfold mbind, IO_bind. destruct (m w) as [r' w']; simpl in *. by subst r'.
Qed.

Lemma quiet_context d msg m a d' :
  quiet_run d m (Ok a) d' → quiet_run d (context msg m) (Ok a) d'.
Proof.
  intros Hm w Hq Hd. destruct (Hm w Hq Hd) as (Hr & Hd' & Hq').
  unfold context. destruct (m w) as [r' w']; simpl in *. by subst r'.
Qed.

Lemma quiet_attempt d m r d' :
  quiet_run d m r d' → quiet_run d (attempt m) (Ok r) d'.
Proof.
  intros Hm w Hq Hd. destruct (Hm w Hq Hd) as (Hr & Hd' & Hq').
  unfold attempt. destruct (m w) as [r' w']; simpl in *. by subst r'.
Qed.

Lemma quiet_syscall d : quiet_run d syscall (Ok ()) d.
Proof. intros w Hq <-. unfold syscall. rw (Hq (tick w)). simpl. done. Qed.
Lemma quiet_get_disk d : quiet_run d get_disk (Ok d) d.
Proof. by intros w Hq <-. Qed.
Lemma quiet_put_disk d d' : quiet_run d (put_disk d') (Ok ()) d'.
Proof. by intros w Hq <-. Qed.
Lemma quiet_fail d e : quiet_run d (fail (A:=A) e) (Err e) d.
Proof. by intros w Hq <-. Qed.

Lemma quiet_run_world d m r d' :
  quiet_run d m r d' →
  (m (quiet_world d)).1 = r ∧ disk (m (quiet_world d)).2 = d'.
Proof. intros Hm. destruct (Hm (quiet_world d)) as (? & ? & _); done. Qed.
End quiet.

Create HintDb quiet.
#[export] Hint Resolve quiet_ret quiet_syscall quiet_get_disk quiet_put_disk quiet_fail
  quiet_attempt quiet_context : quiet.

(** One call of the primitives, with the lookup decided. *)
Ltac quiet_prim :=
  eapply quiet_bind; [apply quiet_syscall |];
  eapply quiet_bind; [apply quiet_get_disk |]; cbn beta.

Section quiet_ops.
Implicit Types (d : dir) (n : string).

Lemma quiet_open d n f : d !! n = Some f → quiet_run d (fs_open n) (Ok f) d.
Proof. intros H. quiet_prim. rw H. auto with quiet. Qed.

Lemma quiet_open_missing d n :
  d !! n = None → quiet_run d (fs_open n) (Err (Error NotFound [])) d.
Proof. intros H. quiet_prim. rw H. apply quiet_fail. Qed.

Lemma quiet_read_dir d : quiet_run d fs_read_dir (Ok (fst <$> map_to_list d)) d.
Proof. quiet_prim. auto with quiet. Qed.

Lemma quiet_replace d n f : quiet_run d (fs_replace n f) (Ok ()) (<[n := f]> d).
Proof. quiet_prim. auto with quiet. Qed.

Lemma quiet_remove d n f : d !! n = Some f → quiet_run d (fs_remove n) (Ok ()) (delete n d).
Proof. intros H. quiet_prim. rw H. auto with quiet. Qed.

Lemma quiet_open_append d n :
  quiet_run d (fs_open_append n) (Ok ()) (<[n := default [] (d !! n)]> d).
Proof.
  quiet_prim. destruct (d !! n) as [f|] eqn:E; simpl; [| auto with quiet].
  by rw insert_id.
Qed.

Lemma quiet_append d n push :
  quiet_run d (fs_append n push) (Ok ()) (<[n := push (default [] (d !! n))]> d).
Proof. quiet_prim. auto with quiet. Qed.

Lemma quiet_truncate d n f :
  d !! n = Some f → quiet_run d (fs_truncate n) (Ok ()) (<[n := []]> d).
Proof. intros H. quiet_prim. rw H. auto with quiet. Qed.

Lemma quiet_size d n f : d !! n = Some f → quiet_run d (fs_size n) (Ok (file_size f)) d.
Proof. intros H. quiet_prim. rw H. auto with quiet. Qed.
End quiet_ops.

Lemma steady_lines `{SteadyReads} f w : read_lines f w = (Ok f, w).
Proof. unfold read_lines. by rw steady. Qed.
Lemma quiet_lines_bind `{SteadyReads} {A} d f (m : file → IO A) r d' :
  quiet_run d (m f) r d' → quiet_run d (read_lines f ≫= m) r d'.
Proof. intros Hm w Hq Hd. unfold mbind, IO_bind. rw steady_lines. by apply Hm. Qed.
Lemma triple_lines_bind `{SteadyReads} {A} P f (m : file → IO A) Q E :
  triple P (m f) Q E → triple P (read_lines f ≫= m) Q E.
Proof. intros Hm w Hw. unfold mbind, IO_bind. rw steady_lines. by apply Hm. Qed.
#[export] Hint Resolve quiet_open quiet_open_missing quiet_read_dir quiet_replace quiet_remove
  quiet_open_append quiet_append quiet_truncate quiet_size : quiet.

(** *** Keeping an invariant *)
Section keeps.
Context (I : dir → Prop).

Lemma keeps_ret {A} (a : A) : keeps I (mret a).
Proof. by intros w. Qed.
Lemma keeps_fail {A} e : keeps I (fail (A:=A) e).
Proof. by intros w. Qed.
Lemma keeps_syscall : keeps I syscall.
Proof. by intros w. Qed.
Lemma keeps_get_disk : keeps I get_disk.
Proof. by intros w. Qed.
Lemma keeps_bind {A B} (m : IO A) (f : A → IO B) :
  keeps I m → (∀ a, keeps I (f a)) → keeps I (m ≫= f).
Proof.
  intros Hm Hf w Hw. specialize (Hm w Hw). unfold mbind, IO_bind.
  destruct (m w) as [[a|e] w']; simpl in *; [by apply Hf | done].
Qed.
Lemma keeps_attempt {A} (m : IO A) : keeps I m → keeps I (attempt m).
Proof. intros Hm w Hw. specialize (Hm w Hw). unfold attempt. by destruct (m w). Qed.
Lemma keeps_context {A} msg (m : IO A) : keeps I m → keeps I (context msg m).
Proof. intros Hm w Hw. specialize (Hm w Hw). unfold context. by destruct (m w). Qed.
Lemma keeps_for_each {A} (l : list A) body :
  (∀ x, x ∈ l → keeps I (body x)) → keeps I (for_each l body).
Proof.
  induction l as [|x l IH]; intros Hb; simpl; [apply keeps_ret |].
  apply keeps_bind; [apply Hb, list_elem_of_here |].
  intros _. apply IH. intros y Hy. by apply Hb, list_elem_of_further.
Qed.

(** A call that reads the disk and stores a new one keeps [I] when the new disk has it. *)
Lemma keeps_update (g : dir → IO ()) :
  (∀ w, I (disk w) → I (disk (g (disk w) w).2)) →
  keeps I (_ ← syscall; d ← get_disk; g d).
Proof.
  intros Hg w Hw. unfold mbind, IO_bind, syscall, get_disk. simpl.
  destruct (faults w (tick w)); simpl; [done |].
  by apply (Hg (World (disk w) (S (tick w)) (faults w))).
Qed.

Lemma keeps_open n : keeps I (fs_open n).
Proof.
  apply keeps_bind; [apply keeps_syscall | intros _].
  apply keeps_bind; [apply keeps_get_disk | intros d].
  case_match; [apply keeps_ret | apply keeps_fail].
Qed.
Lemma keeps_size n : keeps I (fs_size n).
Proof.
  apply keeps_bind; [apply keeps_syscall | intros _].
  apply keeps_bind; [apply keeps_get_disk | intros d].
  case_match; [apply keeps_ret | apply keeps_fail].
Qed.
Lemma keeps_read_dir : keeps I fs_read_dir.
Proof.
  apply keeps_bind; [apply keeps_syscall | intros _].
  apply keeps_bind; [apply keeps_get_disk | intros d]. apply keeps_ret.
Qed.
Lemma keeps_replace n f : (∀ d, I d → I (<[n := f]> d)) → keeps I (fs_replace n f).
Proof. intros Hn. apply keeps_update. intros w Hw. by apply Hn. Qed.
Lemma keeps_remove n :
  (∀ d, I d → is_Some (d !! n) → I (delete n d)) → keeps I (fs_remove n).
Proof.
  intros Hn. apply keeps_update. intros w Hw.
  destruct (disk w !! n) eqn:E; [by apply Hn; [| rw E] | done].
Qed.
Lemma keeps_open_append n :
  (∀ d, I d → d !! n = None → I (<[n := []]> d)) → keeps I (fs_open_append n).
Proof.
  intros Hn. apply keeps_update. intros w Hw.
  destruct (disk w !! n) eqn:E; [done | by apply Hn].
Qed.
Lemma keeps_append n push :
  (∀ d, I d → I (<[n := push (default [] (d !! n))]> d)) → keeps I (fs_append n push).
Proof. intros Hn. apply keeps_update. intros w Hw. by apply Hn. Qed.
Lemma keeps_truncate n :
  (∀ d, I d → is_Some (d !! n) → I (<[n := []]> d)) → keeps I (fs_truncate n).
Proof.
  intros Hn. apply keeps_update. intros w Hw.
  destruct (disk w !! n) eqn:E; [by apply Hn; [| rw E] | done].
Qed.
End keeps.
#[export] Hint Resolve keeps_ret keeps_fail keeps_syscall keeps_get_disk keeps_attempt
  keeps_context keeps_open keeps_size keeps_read_dir : nexus.

(** *** Triples *)
Section triple.
Implicit Types (P E : dir → Prop).

Lemma triple_conseq {A} P P' (m : IO A) (Q Q' : A → dir → Prop) E E' :
  triple P' m Q' E' → (∀ d, P d → P' d) → (∀ a d, Q' a d → Q a d) → (∀ d, E' d → E d) →
  triple P m Q E.
Proof.
  intros Hm HP HQ HE w Hw. specialize (Hm w (HP _ Hw)).
  destruct (m w) as [[a|e] w']; auto.
Qed.

(** A pure part of the precondition. *)
Lemma triple_pre {A} P (m : IO A) Q E :
  (∀ d, P d → triple (λ d', d' = d) m Q E) → triple P m Q E.
Proof. intros Hm w Hw. by apply (Hm _ Hw). Qed.

Lemma triple_ret {A} P (a : A) Q E : (∀ d, P d → Q a d) → triple P (mret a) Q E.
Proof. intros HP w Hw. by apply HP. Qed.

Lemma triple_fail {A} P e (Q : A → dir → Prop) E : (∀ d, P d → E d) → triple P (fail e) Q E.
Proof. intros HP w Hw. by apply HP. Qed.

Lemma triple_bind {A B} P (m : IO A) (f : A → IO B) R Q E :
  triple P m R E → (∀ a, triple (R a) (f a) Q E) → triple P (m ≫= f) Q E.
Proof.
  intros Hm Hf w Hw. specialize (Hm w Hw). unfold mbind, IO_bind.
  destruct (m w) as [[a|e] w']; [by apply Hf | done].
Qed.

Lemma triple_context {A} P msg (m : IO A) Q E : triple P m Q E → triple P (context msg m) Q E.
Proof.
  intros Hm w Hw. specialize (Hm w Hw). unfold context. by destruct (m w) as [[a|e] w'].
Qed.

Lemma triple_attempt {A} P (m : IO A) (Q : result error A → dir → Prop) E :
  triple P m (λ a, Q (Ok a)) (λ d, ∀ e, Q (Err e) d) → triple P (attempt m) Q E.
Proof.
  intros Hm w Hw. specialize (Hm w Hw). unfold attempt. by destruct (m w) as [[a|e] w'].
Qed.

Lemma triple_syscall P E : (∀ d, P d → E d) → triple P syscall (λ _, P) E.
Proof.
  intros HE w Hw. unfold syscall. destruct (faults w (tick w)); simpl; [by apply HE | done].
Qed.

Lemma triple_get_disk P E : triple P get_disk (λ d d', d' = d ∧ P d) E.
Proof. by intros w Hw. Qed.

Lemma triple_put_disk P d Q E : (∀ d', P d' → Q () d) → triple P (put_disk d) Q E.
Proof. intros HP w Hw. by eapply HP. Qed.

(** The shape of every primitive. *)
Lemma triple_prim {A} P (g : dir → IO A) Q E :
  (∀ d, P d → E d) → (∀ d, P d → triple (λ d', d' = d) (g d) Q E) →
  triple P (_ ← syscall; d ← get_disk; g d) Q E.
Proof.
  intros HE Hg. eapply triple_bind; [by apply triple_syscall |]. intros [].
  eapply triple_bind; [apply triple_get_disk |]. intros d w [Hd Hw]. by apply (Hg d Hw).
Qed.

Lemma triple_open P n E :
  (∀ d, P d → E d) → triple P (fs_open n) (λ c d, d !! n = Some c ∧ P d) E.
Proof.
  intros HE. apply triple_prim; [done |]. intros d Hd.
  destruct (d !! n) eqn:Hn; [by apply triple_ret; intros ? -> | by apply triple_fail; intros ? ->; apply HE].
Qed.
Lemma triple_size P n E :
  (∀ d, P d → E d) → triple P (fs_size n) (λ _, P) E.
Proof.
  intros HE. apply triple_prim; [done |]. intros d Hd.
  destruct (d !! n) eqn:Hn; [by apply triple_ret; intros ? -> | by apply triple_fail; intros ? ->; apply HE].
Qed.
Lemma triple_read_dir P E :
  (∀ d, P d → E d) → triple P fs_read_dir (λ l d, l = fst <$> map_to_list d ∧ P d) E.
Proof. intros HE. apply triple_prim; [done |]. intros d Hd. apply triple_ret. intros d' Hd'. by subst d'. Qed.
Lemma triple_replace P n c (Q : () → dir → Prop) E :
  (∀ d, P d → E d) → (∀ d, P d → Q () (<[n := c]> d)) → triple P (fs_replace n c) Q E.
Proof.
  intros HE HQ. apply triple_prim; [done |]. intros d Hd. apply triple_put_disk. intros ? ->. auto.
Qed.
Lemma triple_remove P n (Q : () → dir → Prop) E :
  (∀ d, P d → E d) → (∀ d, P d → is_Some (d !! n) → Q () (delete n d)) →
  triple P (fs_remove n) Q E.
Proof.
  intros HE HQ. apply triple_prim; [done |]. intros d Hd. destruct (d !! n) eqn:Hn.
  - apply triple_put_disk. intros ? ->. apply HQ; [done | by rw Hn].
  - apply triple_fail. intros ? ->. auto.
Qed.
Lemma triple_open_append P n (Q : () → dir → Prop) E :
  (∀ d, P d → E d) → (∀ d, P d → Q () (<[n := default [] (d !! n)]> d)) →
  triple P (fs_open_append n) Q E.
Proof.
  intros HE HQ. apply triple_prim; [done |]. intros d Hd. specialize (HQ d Hd).
  destruct (d !! n) eqn:Hn; simpl in HQ.
  - rw insert_id // in HQ. apply triple_ret. by intros ? ->.
  - apply triple_put_disk. by intros ? ->.
Qed.
Lemma triple_append P n push (Q : () → dir → Prop) E :
  (∀ d, P d → E d) → (∀ d, P d → Q () (<[n := push (default [] (d !! n))]> d)) →
  triple P (fs_append n push) Q E.
Proof.
  intros HE HQ. apply triple_prim; [done |]. intros d Hd. apply triple_put_disk. intros ? ->. auto.
Qed.
Lemma triple_truncate P n (Q : () → dir → Prop) E :
  (∀ d, P d → E d) → (∀ d, P d → is_Some (d !! n) → Q () (<[n := []]> d)) →
  triple P (fs_truncate n) Q E.
Proof.
  intros HE HQ. apply triple_prim; [done |]. intros d Hd. destruct (d !! n) eqn:Hn.
  - apply triple_put_disk. intros ? ->. apply HQ; [done | by rw Hn].
  - apply triple_fail. intros ? ->. auto.
Qed.

Lemma keeps_triple {A} P (m : IO A) : triple P m (λ _, P) P ↔ keeps P m.
Proof.
  split; intros Hm w Hw; specialize (Hm w Hw); destruct (m w) as [[a|e] w']; done.
Qed.

Lemma triple_for_each {A} (l : list A) body (P : list A → dir → Prop) E :
  (∀ x l', triple (P (x :: l')) (body x) (λ _, P l') E) →
  triple (P l) (for_each l body) (λ _, P []) E.
Proof.
  intros Hb. induction l as [|x l IH]; simpl; [by apply triple_ret |].
  eapply triple_bind; [apply Hb | intros []; apply IH].
Qed.
End triple.

(** ** Appending a line *)
Section append.
Open Scope string_scope.

Definition closed (f : file) : bool :=
  match last f with Some (Partial _) => false | _ => true end.
(** What a write that stopped after [p] leaves behind. *)
Definition torn (p : string) : file := match p with "" => [] | _ => [Partial p] end.

Lemma closed_cons l f : closed (l :: f) = true → f ≠ [] → closed f = true.
Proof. by destruct f. Qed.

Lemma closed_app_text f s : closed ((f ++ [Text s])%list) = true.
Proof. unfold closed. by rw last_snoc. Qed.

Lemma push_char_torn f p c :
  closed f = true → push_char c (f ++ torn p)%list = (f ++ torn (p ++ String c ""))%list.
Proof.
  intros Hc. assert (torn (p ++ String c "") = [Partial (p ++ String c "")]) as -> by by destruct p.
  induction f as [|l f IH]; simpl; [by destruct p |].
  destruct (decide (f = [])) as [-> | Hf].
  - clear IH. simpl. destruct l as [s|s|s]; [| by unfold closed in Hc |]; by destruct p.
  - assert (push_char c (f ++ torn p)%list = (f ++ [Partial (p ++ String c "")])%list) as <-.
    { apply IH. by apply (closed_cons l). }
    destruct f as [|l' f]; [done |]. by destruct l.
Qed.

Lemma push_newline_torn f p :
  closed f = true → push_newline (f ++ torn p)%list = (f ++ [Text p])%list.
Proof.
  intros Hc. induction f as [|l f IH]; simpl; [by destruct p |].
  destruct (decide (f = [])) as [-> | Hf].
  - clear IH. simpl. destruct l as [s|s|s]; [| by unfold closed in Hc |]; by destruct p.
  - assert (push_newline (f ++ torn p)%list = (f ++ [Text p])%list) as <-.
    { apply IH. by apply (closed_cons l). }
    destruct f as [|l' f]; [done |]. by destruct l.
Qed.

Context (n : string) (d : dir) (f : file).
Context (Hf : d !! n = Some f) (Hc : closed f = true).

Definition appended (g : file) : dir := <[n := (f ++ g)%list]> d.

Lemma appended_nil : appended [] = d.
Proof. unfold appended. by rw app_nil_r insert_id. Qed.

Lemma append_torn p push g :
  push (f ++ torn p)%list = (f ++ g)%list →
  <[n := push (default [] (appended (torn p) !! n))]> (appended (torn p)) = appended g.
Proof. intros E. unfold appended. rw lookup_insert_eq insert_insert_eq. simpl. by rw E. Qed.

Lemma string_cons_app p c q : (p ++ String c q) = ((p ++ String c "") ++ q).
Proof. by rw string_app_assoc. Qed.

Lemma quiet_write_line text :
  quiet_run d (fs_write_line n text) (Ok ()) (appended [Text text]).
Proof.
  assert (∀ q p, quiet_run (appended (torn p))
    (for_each (String.list_ascii_of_string q) (λ c, fs_append n (push_char c))) (Ok ())
    (appended (torn (p ++ q)))) as Hw.
  { induction q as [|c q IH]; intros p; simpl.
    - rw string_app_nil_r. apply quiet_ret.
    - eapply quiet_bind; [apply quiet_append |].
      rw (append_torn p (push_char c) _ (push_char_torn f p c Hc)).
      rw (string_cons_app p c q). apply IH. }
  eapply quiet_bind; [specialize (Hw text ""); simpl in Hw; rw appended_nil in Hw; exact Hw |].
  rw -(append_torn text push_newline _ (push_newline_torn f text Hc)). apply quiet_append.
Qed.

(** A failed append leaves a prefix of the line. *)
Lemma triple_write_line text (Q : () → dir → Prop) E :
  Q () (appended [Text text]) → (∀ p q, p ++ q = text → E (appended (torn p))) →
  triple (λ d', d' = d) (fs_write_line n text) Q E.
Proof.
  intros HQ HE.
  assert (∀ q p, p ++ q = text →
    triple (λ d', d' = appended (torn p))
      (for_each (String.list_ascii_of_string q) (λ c, fs_append n (push_char c)))
      (λ _ d', d' = appended (torn text)) E) as Hw.
  { induction q as [|c q IH]; intros p Hp; simpl.
    - apply triple_ret. intros ? ->. by rw -Hp string_app_nil_r.
    - eapply triple_bind with (R := λ _ d', d' = appended (torn (p ++ String c ""))).
      + apply triple_append; intros ? ->; [by eapply HE |]. apply append_torn, push_char_torn, Hc.
      + intros _. apply IH. by rw -(string_cons_app p c q). }
  eapply triple_bind.
  - specialize (Hw text "" eq_refl). simpl in Hw. rw appended_nil in Hw. exact Hw.
  - intros []. apply triple_append; intros ? ->; [apply (HE text ""), string_app_nil_r |].
    rw (append_torn text push_newline _ (push_newline_torn f text Hc)). done.
Qed.
End append.

(** ** Calls that only read, and calls that change only some files *)

(** [m] does not change the disk, and its result satisfies [R]. *)
Definition reader {A} (m : IO A) (R : dir → A → Prop) : Prop :=
  ∀ w, disk (m w).2 = disk w ∧ ∀ a, (m w).1 = Ok a → R (disk w) a.
(** [m] changes no file outside [S]. *)
Definition only {A} (S : list string) (m : IO A) : Prop :=
  ∀ w n, n ∉ S → disk (m w).2 !! n = disk w !! n.

Section reader.
Context {A B : Type}.
Implicit Types (m : IO A) (f : A → IO B).

Lemma reader_ret (a : A) : reader (mret a) (λ _ b, b = a).
Proof. intros w. split; [done |]. by intros ? [= ->]. Qed.
Lemma reader_fail e (R : dir → A → Prop) : reader (fail e) R.
Proof. intros w. by split. Qed.
Lemma reader_syscall : reader syscall (λ _ _, True).
Proof. intros w. unfold syscall. by destruct (faults w (tick w)). Qed.
Lemma reader_get_disk : reader get_disk (λ d d', d' = d).
Proof. intros w. split; [done |]. by intros ? [= ->]. Qed.
Lemma reader_bind m f R R' :
  reader m R → (∀ a, reader (f a) (λ d b, R d a → R' d b)) → reader (m ≫= f) R'.
Proof.
  intros Hm Hf w. destruct (Hm w) as [Hd Hr]. unfold mbind, IO_bind. destruct (m w) as [[a | e] w1]; simpl in *; [| done].
  destruct (Hf a w1) as [Hd' Hr']. rw Hd in Hd' Hr'. split; [congruence |]. intros b Hb. apply (Hr' b Hb). by apply Hr.
Qed.
Lemma reader_attempt m R : reader m R → reader (attempt m) (λ d r, match r with Ok a => R d a | Err _ => True end).
Proof.
  intros Hm w. destruct (Hm w) as [Hd Hr]. unfold attempt. destruct (m w) as [r w1]; simpl in *. split; [done |].
  intros r' [= <-]. destruct r; [by apply Hr | done].
Qed.
Lemma reader_weaken m (R R' : dir → A → Prop) : reader m R → (∀ d a, R d a → R' d a) → reader m R'.
Proof. intros Hm HR w. destruct (Hm w) as [? Hr]. split; [done |]. auto. Qed.
Lemma reader_run m R w r w' : reader m R → m w = (r, w') → disk w' = disk w ∧ ∀ a, r = Ok a → R (disk w) a.
Proof. intros Hm Hw. destruct (Hm w) as [Hd Hr]. rw Hw in Hd Hr. done. Qed.

Lemma run_bind m f w b w' : (m ≫= f) w = (Ok b, w') → ∃ a w1, m w = (Ok a, w1) ∧ f a w1 = (Ok b, w').
Proof. unfold mbind, IO_bind. destruct (m w) as [[a | e] w1]; [eauto | done]. Qed.

Lemma only_reader S m R : reader m R → only S m.
Proof. intros Hm w n _. by destruct (Hm w) as [-> _]. Qed.
Lemma only_fail S e : only S (fail (A := A) e).
Proof. by intros w n _. Qed.
Lemma only_bind S m f : only S m → (∀ a, only S (f a)) → only S (m ≫= f).
Proof.
  intros Hm Hf w n Hn. specialize (Hm w n Hn). unfold mbind, IO_bind. destruct (m w) as [[a | e] w1]; simpl in *; [| done].
  rw (Hf a w1 n Hn). done.
Qed.
Lemma only_context S msg m : only S m → only S (context msg m).
Proof. intros Hm w n Hn. specialize (Hm w n Hn). unfold context. by destruct (m w). Qed.

(** The result of [m], if it has one, satisfies [R]. *)
Definition yields {C} (m : IO C) (R : C → Prop) : Prop := ∀ w a, (m w).1 = Ok a → R a.
Lemma yields_bind m f R : (∀ a, yields (f a) R) → yields (m ≫= f) R.
Proof. intros Hf w b. unfold mbind, IO_bind. destruct (m w) as [[a | e] w1]; [apply Hf | done]. Qed.
Lemma yields_ret (b : B) (R : B → Prop) : R b → yields (mret b) R.
Proof. by intros Hb w a [= <-]. Qed.
Lemma yields_fail e (R : B → Prop) : yields (fail e) R.
Proof. by intros w a. Qed.
Lemma keeps_bind_yields (I : dir → Prop) m R f :
  keeps I m → yields m R → (∀ a, R a → keeps I (f a)) → keeps I (m ≫= f).
Proof.
  intros Hm Hy Hf w Hw. specialize (Hm w Hw). specialize (Hy w). unfold mbind, IO_bind.
  destruct (m w) as [[a | e] w1]; simpl in *; [by apply Hf; [apply Hy |] | done].
Qed.

Lemma keeps_only (I : dir → Prop) S m :
  only S m → (∀ d d', (∀ n, n ∉ S → d' !! n = d !! n) → I d → I d') → keeps I m.
Proof. intros Hm HI w Hw. eapply HI; [| exact Hw]. apply Hm. Qed.
Lemma keeps_reader (I : dir → Prop) m R : reader m R → keeps I m.
Proof. intros Hm w Hw. by destruct (Hm w) as [-> _]. Qed.
Lemma keeps_reader_bind (I : dir → Prop) m R f :
  reader m R → (∀ d a, I d → R d a → keeps I (f a)) → keeps I (m ≫= f).
Proof.
  intros Hm Hf w Hw. destruct (Hm w) as [Hd Hr]. unfold mbind, IO_bind. destruct (m w) as [[a | e] w1]; simpl in *; [| by rw Hd].
  eapply Hf; [exact Hw | by apply Hr | by rw Hd].
Qed.
End reader.

Lemma only_replace S n f : n ∈ S → only S (fs_replace n f).
Proof.
  intros Hn w k Hk. unfold fs_replace, syscall, get_disk, put_disk, mbind, IO_bind. simpl.
  destruct (faults w (tick w)); simpl; [done |]. rw lookup_insert_ne //. by intros ->.
Qed.

Lemma reader_open name : reader (fs_open name) (λ d f, d !! name = Some f).
Proof.
  intros w. unfold fs_open, syscall, get_disk, enoent, fail, mbind, IO_bind, mret, IO_ret. simpl.
  destruct (faults w (tick w)); simpl; [done |]. by destruct (disk w !! name) eqn:E; simpl; split; intros; simplify_eq.
Qed.
Lemma reader_optional name : reader (file_read_optional_string name) (λ d o, o = d !! name).
Proof.
  intros w. unfold file_read_optional_string, attempt, fs_open, syscall, get_disk, enoent, fail, mbind, IO_bind, mret, IO_ret. simpl.
  destruct (faults w (tick w)); simpl; [done |]. by destruct (disk w !! name) eqn:E; simpl; split; intros; simplify_eq.
Qed.
Lemma reader_names : reader fs_read_dir (λ d names, names = (map_to_list d).*1).
Proof. intros w. unfold fs_read_dir, syscall, get_disk, mbind, IO_bind. simpl. destruct (faults w (tick w)); [done |]. by split; [| intros ? [= ->]]. Qed.
Lemma reader_path_exists n : reader (path_exists n) (λ d b, b = true → is_Some (d !! n)).
Proof.
  eapply reader_bind; [apply reader_attempt, reader_syscall |]. intros r. eapply reader_bind; [apply reader_get_disk |]. intros d'.
  eapply reader_weaken; [apply reader_ret |]. intros d b -> -> _. destruct r; [by intros ?%bool_decide_eq_true | done].
Qed.
Lemma replace_run name f w u w' : fs_replace name f w = (Ok u, w') → disk w' = <[name := f]> (disk w).
Proof.
  unfold fs_replace, syscall, get_disk, put_disk, mbind, IO_bind. simpl. destruct (faults w (tick w)); simpl; [done |]. by intros [= _ <-].
Qed.
Lemma replace_err name f w e w' : fs_replace name f w = (Err e, w') → disk w' = disk w.
Proof.
  unfold fs_replace, syscall, get_disk, put_disk, mbind, IO_bind. simpl. destruct (faults w (tick w)); simpl; [| done]. by intros [= _ <-].
Qed.

(** What a call that only reads gives a triple *)
Lemma triple_reader {A} d0 (m : IO A) R (E : dir → Prop) :
  reader m R → E d0 → triple (λ d, d = d0) m (λ a d, d = d0 ∧ R d0 a) E.
Proof.
  intros Hm HE w <-. destruct (Hm w) as [Hd Hr]. destruct (m w) as [[a | e] w']; simpl in *; [| by rw Hd].
  split; [done |]. by apply Hr.
Qed.
Lemma triple_read_bind {A B} d0 (m : IO A) (f : A → IO B) R Q E :
  reader m R → E d0 → (∀ a, R d0 a → triple (λ d, d = d0) (f a) Q E) → triple (λ d, d = d0) (m ≫= f) Q E.
Proof.
  intros Hm HE Hf. eapply triple_bind; [by apply triple_reader |]. intros a w [Hd Ha]. by apply (Hf a Ha).
Qed.
