(* ===== verification/TaskArchive.v ===== *)
(** * Task archive files

    The data of server/src/remote_tasks/task_cache.rs and the operations on a single file:
    task items and their order, the archive file names, the line-by-line readers
    ([ArchiveIterator], [JournalIterator]), the merging iterator ([MergeTaskIterator]) and the
    state file ([State], [NodeFetchSuccessMap]).  JSON encoding is serde_json's: a parameter
    with its round trip as a law ([TaskJson]). *)
From S2P Require Import Prelude RustStr Remotes Disk.

(** ** Task items *)
Record TaskCacheItem := {
  upid : RemoteUpid;
  starttime : Z;
  status : option string;
  endtime : option Z;
}.

Global Instance TaskCacheItem_eq_dec : EqDecision TaskCacheItem.
Proof. solve_decision. Defined.

Global Instance TaskCacheItem_countable : Countable TaskCacheItem.
Proof.
  refine (inj_countable' (λ t, (upid t, starttime t, status t, endtime t))
    (λ '(u, s, st, e), Build_TaskCacheItem u s st e) _). by intros [].
Defined.

(** By start time, then by descending printed UPID. *)
Definition compare_tasks (a b : TaskCacheItem) : comparison :=
  then_with (starttime a ?= starttime b)%Z
            (String.compare (to_string (upid b)) (to_string (upid a))).
Definition compare_tasks_reverse (a b : TaskCacheItem) : comparison := compare_tasks b a.

(** ** State file *)
Record NodeState := { cutoff : Z }.
Record RemoteState := { node_state : gmap string NodeState }.
Record State := {
  remote_state : gmap string RemoteState;
  tracked_tasks : gset RemoteUpid;
}.
Definition default_state : State := {| remote_state := ∅; tracked_tasks := ∅ |}.

Definition cutoff_timestamp (s : State) (remote_id node : string) : option Z :=
  rs ← remote_state s !! remote_id; ns ← node_state rs !! node; Some (cutoff ns).

Definition state_add_tracked_task (s : State) (u : RemoteUpid) : State :=
  {| remote_state := remote_state s; tracked_tasks := {[u]} ∪ tracked_tasks s |}.
Definition remove_tracked_task (s : State) (u : RemoteUpid) : State :=
  {| remote_state := remote_state s; tracked_tasks := tracked_tasks s ∖ {[u]} |}.

Definition update_cutoff_timestamp (s : State) (remote_id node : string)
    (update_fn : option Z → Z) : State :=
  let rs' :=
    match remote_state s !! remote_id with
    | Some rs =>
        match node_state rs !! node with
        | Some ns => <[node := {| cutoff := update_fn (Some (cutoff ns)) |}]> (node_state rs)
        | None => <[node := {| cutoff := update_fn None |}]> (node_state rs)
        end
    | None => {[node := {| cutoff := update_fn None |}]}
    end in
  {| remote_state := <[remote_id := {| node_state := rs' |}]> (remote_state s);
     tracked_tasks := tracked_tasks s |}.

(** The cutoff of every node lowered to [reset] ([request_repair]'s nested loops). *)
Definition lower_cutoffs (reset : Z) (s : State) : State :=
  {| remote_state :=
       (λ rs, {| node_state := (λ ns, {| cutoff := Z.min (cutoff ns) reset |}) <$> node_state rs |})
         <$> remote_state s;
     tracked_tasks := tracked_tasks s |}.

(** ** Which nodes were fetched successfully *)
Definition NodeFetchSuccessMap : Type := gmap (string * string) bool.
Definition set_node_success (m : NodeFetchSuccessMap) (r n : string) : NodeFetchSuccessMap :=
  <[(r, n) := true]> (m : gmap (string * string) bool).
Definition node_successful (m : NodeFetchSuccessMap) (r n : string) : bool :=
  match (m : gmap (string * string) bool) !! (r, n) with Some true => true | _ => false end.
(** [extend]: the entries of [other] win *)
Definition merge_success (m other : NodeFetchSuccessMap) : NodeFetchSuccessMap :=
  (other : gmap (string * string) bool) ∪ m.

(** ** JSON encoding (serde_json) *)
Class TaskJson := {
  task_to_json : TaskCacheItem → string;
  task_from_json : string → option TaskCacheItem;
  state_to_json : State → file;
  state_from_json : file → option State;
}.
Class TaskJsonLaws `{TaskJson} : Prop := {
  task_json_roundtrip t : task_from_json (task_to_json t) = Some t;
  (* a JSON object that was cut off does not parse *)
  task_json_cut t p q :
    task_to_json t = (p ++ q)%string → q ≠ ""%string → task_from_json p = None;
  state_json_roundtrip s : state_from_json (state_to_json s) = Some s;
}.

(** ** Archive files *)
Record ArchiveFile := {
  path : string;
  compressed : bool;
  af_starttime : Z;
}.
Global Instance ArchiveFile_eq_dec : EqDecision ArchiveFile.
Proof. solve_decision. Defined.
Inductive ArchiveFileState := Valid | Corrupted.
Definition corrupted_state (s : ArchiveFileState) : bool :=
  match s with Valid => false | Corrupted => true end.

Definition ACTIVE_FILENAME : string := "active".
Definition ARCHIVE_FILENAME_PREFIX : string := "archive.".
Definition STATE_FILENAME : string := "state".
Definition WAL_FILENAME : string := "journal".
Definition ZSTD_EXTENSION_WITH_DOT : string := ".zst".

Definition archive_path (start : Z) (comp : bool) : string :=
  (ARCHIVE_FILENAME_PREFIX ++ show_int start
     ++ (if comp then ZSTD_EXTENSION_WITH_DOT else ""))%string.

Definition parse_archive_filename (filename : string) : option ArchiveFile :=
  rest ← strip_prefix ARCHIVE_FILENAME_PREFIX filename;
  match strip_suffix ZSTD_EXTENSION_WITH_DOT rest with
  | Some start =>
      z ← parse_i64 start;
      Some {| path := filename; compressed := true; af_starttime := z |}
  | None =>
      z ← parse_i64 rest;
      Some {| path := filename; compressed := false; af_starttime := z |}
  end.

Definition active_file : ArchiveFile :=
  {| path := ACTIVE_FILENAME; compressed := false; af_starttime := 0 |}.

Definition set_compressed (f : ArchiveFile) (comp : bool) : ArchiveFile :=
  {| path := archive_path (af_starttime f) comp; compressed := comp;
     af_starttime := af_starttime f |}.

(** The order of [archive_files_with_dupes]: newest first, compressed before uncompressed. *)
Definition compare_files (a b : ArchiveFile) : comparison :=
  then_with (af_starttime b ?= af_starttime a)%Z (bool_cmp (compressed b) (compressed a)).

(** ** Readers *)
Section readers.
Context `{TaskJson} `{Reads}.

(** [ArchiveIterator]: one item per line; a line that cannot be read is the last. *)
Fixpoint archive_items (f : file) : list (result error TaskCacheItem) :=
  match f with
  | [] => []
  | Text s :: f' | Partial s :: f' =>
      ok_or (task_from_json s) (Error OtherIo ["failed to decode JSON"]) :: archive_items f'
  | Unreadable _ :: _ => [Err (Error OtherIo ["failed to read line"])]
  end.

(** The items that decode, errors being logged and skipped. *)
Definition ok_items (l : list (result error TaskCacheItem)) : list TaskCacheItem :=
  filter_map (λ r, match r with Ok t => Some t | Err _ => None end) l.
Definition items_state (l : list (result error TaskCacheItem)) : ArchiveFileState :=
  if forallb is_ok l then Valid else Corrupted.

(** [JournalIterator::new], and the same steps in [apply_journal]. *)
Definition journal_tasks (f : file) : list TaskCacheItem :=
  dedup (sort_by compare_tasks_reverse (ok_items (archive_items f))).

(** [ArchiveFileWriter::write_tasks]: one JSON line per task. *)
Definition write_tasks (tasks : list TaskCacheItem) : file :=
  (λ t, Text (task_to_json t)) <$> tasks.

(** [ArchiveFile::iter]: [None] when the file does not exist *)
Definition file_iter (f : ArchiveFile) : IO (option (list (result error TaskCacheItem))) :=
  r ← attempt (fs_open (path f));
  match r with
  | Ok content =>
      _ ← (if compressed f
           then context "failed to create zstd decoder for archive file" syscall
           else mret ());
      lines ← read_lines content;
      mret (Some (archive_items lines))
  | Err e => match kind e with NotFound => mret None | OtherIo => fail e end
  end.
End readers.

(** ** Merging two sorted sequences

    [MergeTaskIterator::next]: the greater of the two heads; of two equal heads the left one,
    the right one being dropped. *)
Definition merge_next (left right : list TaskCacheItem)
    : option (TaskCacheItem * (list TaskCacheItem * list TaskCacheItem)) :=
  let order :=
    match left, right with
    | l :: _, r :: _ => Some (compare_tasks l r)
    | _ :: _, [] => Some Gt
    | [], _ :: _ => Some Lt
    | [], [] => None
    end in
  match order, left, right with
  | Some Gt, l :: left', _ => Some (l, (left', right))
  | Some Lt, _, r :: right' => Some (r, (left, right'))
  | Some Eq, l :: left', _ :: right' => Some (l, (left', right'))
  | _, _, _ => None
  end.

(** The sequence the iterator yields. *)
Fixpoint merge_iter (left : list TaskCacheItem) : list TaskCacheItem → list TaskCacheItem :=
  fix go (right : list TaskCacheItem) : list TaskCacheItem :=
    match left, right with
    | [], _ => right
    | _, [] => left
    | l :: left', r :: right' =>
        match compare_tasks l r with
        | Gt => l :: merge_iter left' right
        | Lt => r :: go right'
        | Eq => l :: merge_iter left' right'
        end
    end.

(** ** Lemmas *)

Global Instance compare_tasks_order : CmpOrder compare_tasks.
Proof.
  refine (then_with_order (λ a b, starttime a ?= starttime b)%Z
           (λ a b, String.compare (to_string (upid b)) (to_string (upid a))) _ _).
  - apply (cmp_pullback starttime), _.
  - apply (cmp_pullback (λ t, to_string (upid t)) (cmp_rev String.compare)), cmp_rev_order, _.
Qed.

Global Instance compare_tasks_reverse_order : CmpOrder compare_tasks_reverse.
Proof. apply (cmp_rev_order compare_tasks). Qed.

Global Instance compare_files_order : CmpOrder compare_files.
Proof.
  refine (then_with_order (λ a b, af_starttime b ?= af_starttime a)%Z
           (λ a b, bool_cmp (compressed b) (compressed a)) _ _).
  - apply (cmp_pullback af_starttime (cmp_rev Z.compare)), cmp_rev_order, _.
  - apply (cmp_pullback compressed (cmp_rev bool_cmp)), cmp_rev_order, _.
Qed.

(** Newest first, ties by ascending UPID: what the archive calls sorted. *)
Abbreviation task_sorted := (StronglySorted (cmp_le compare_tasks_reverse)).
(** ... and with no two entries of one UPID. *)
Abbreviation task_strict := (StronglySorted (cmp_lt compare_tasks_reverse)).

Lemma compare_tasks_eq a b :
  compare_tasks a b = Eq ↔
  starttime a = starttime b ∧ to_string (upid a) = to_string (upid b).
Proof.
  unfold compare_tasks. destruct (Z.compare_spec (starttime a) (starttime b)) as [E|E|E]; simpl.
  - rw string_compare_eq. naive_solver.
  - split; [done | lia].
  - split; [done | lia].
Qed.

Lemma compare_reverse_le a b :
  cmp_le compare_tasks_reverse a b → (starttime b ≤ starttime a)%Z.
Proof.
  unfold cmp_le, compare_tasks_reverse, compare_tasks.
  destruct (Z.compare_spec (starttime b) (starttime a)); simpl; [lia | lia | done].
Qed.

(** [merge_iter] is what repeated calls of [next] yield. *)
Lemma merge_next_iter l r :
  merge_iter l r =
  match merge_next l r with Some (x, (l', r')) => x :: merge_iter l' r' | None => [] end.
Proof.
  destruct l as [|x l], r as [|y r]; simpl; [done | by destruct r | by destruct l |].
  unfold merge_next. by destruct (compare_tasks x y).
Qed.

Lemma merge_next_length l r x l' r' :
  merge_next l r = Some (x, (l', r')) → length l' + length r' < length l + length r.
Proof.
  unfold merge_next. destruct l as [|a l], r as [|b r]; simpl; try done.
  - intros [= <- <- <-]. simpl. lia.
  - intros [= <- <- <-]. simpl. lia.
  - destruct (compare_tasks a b); intros [= <- <- <-]; simpl; lia.
Qed.

Lemma merge_iter_nil_l r : merge_iter [] r = r.
Proof. by destruct r. Qed.

Lemma merge_iter_nil_r l : merge_iter l [] = l.
Proof. by destruct l. Qed.

Lemma merge_iter_cons x l y r :
  merge_iter (x :: l) (y :: r) =
  match compare_tasks x y with
  | Gt => x :: merge_iter l (y :: r)
  | Lt => y :: merge_iter (x :: l) r
  | Eq => x :: merge_iter l r
  end.
Proof. done. Qed.

(** Induction along the calls of [next]. *)
Lemma merge_ind (P : list TaskCacheItem → list TaskCacheItem → Prop) :
  (∀ r, P [] r) → (∀ l, P l []) →
  (∀ x l y r, compare_tasks x y = Gt → P l (y :: r) → P (x :: l) (y :: r)) →
  (∀ x l y r, compare_tasks x y = Lt → P (x :: l) r → P (x :: l) (y :: r)) →
  (∀ x l y r, compare_tasks x y = Eq → P l r → P (x :: l) (y :: r)) →
  ∀ l r, P l r.
Proof.
  intros Hl Hr Hgt Hlt Heq l. induction l as [|x l IHl]; [done |].
  intros r. induction r as [|y r IHr]; [done |].
  destruct (compare_tasks x y) eqn:E; auto.
Qed.

(** Only items of the two inputs, all of the left one, and every key of the right one. *)
Lemma merge_iter_sub l r x : x ∈ merge_iter l r → x ∈ l ∨ x ∈ r.
Proof.
  revert l r. apply (merge_ind (λ l r, x ∈ merge_iter l r → x ∈ l ∨ x ∈ r)).
  - intros r. rw merge_iter_nil_l. by right.
  - intros l. rw merge_iter_nil_r. by left.
  - intros a l b r E IH. rw merge_iter_cons E. rw !elem_of_cons. intros [-> | H]; [by left; left |].
    apply IH in H. set_solver.
  - intros a l b r E IH. rw merge_iter_cons E. rw !elem_of_cons. intros [-> | H]; [by right; left |].
    apply IH in H. set_solver.
  - intros a l b r E IH. rw merge_iter_cons E. rw !elem_of_cons. intros [-> | H]; [by left; left |].
    apply IH in H. set_solver.
Qed.

Lemma merge_iter_left l r x : x ∈ l → x ∈ merge_iter l r.
Proof.
  revert l r. apply (merge_ind (λ l r, x ∈ l → x ∈ merge_iter l r)).
  - set_solver.
  - intros l. by rw merge_iter_nil_r.
  - intros a l b r E IH. rw merge_iter_cons E. rw !elem_of_cons. naive_solver.
  - intros a l b r E IH H. rw merge_iter_cons E. rw elem_of_cons. right. by apply IH.
  - intros a l b r E IH. rw merge_iter_cons E. rw !elem_of_cons. naive_solver.
Qed.

Lemma merge_iter_right l r y :
  y ∈ r → ∃ x, x ∈ merge_iter l r ∧ (x = y ∨ x ∈ l ∧ compare_tasks x y = Eq).
Proof.
  revert l r. apply (merge_ind (λ l r, y ∈ r →
    ∃ x, x ∈ merge_iter l r ∧ (x = y ∨ x ∈ l ∧ compare_tasks x y = Eq))).
  - intros r Hy. exists y. rw merge_iter_nil_l. auto.
  - set_solver.
  - intros a l b r E IH H. destruct (IH H) as (x & Hx & Hxy).
    exists x. rw merge_iter_cons E. set_solver.
  - intros a l b r E IH [-> | H]%elem_of_cons.
    + exists b. rw merge_iter_cons E. set_solver.
    + destruct (IH H) as (x & Hx & Hxy). exists x. rw merge_iter_cons E. set_solver.
  - intros a l b r E IH [-> | H]%elem_of_cons.
    + exists a. rw merge_iter_cons E. set_solver.
    + destruct (IH H) as (x & Hx & Hxy). exists x. rw merge_iter_cons E. set_solver.
Qed.

Section merge_sorted.
Context (R : relation TaskCacheItem) `{!Transitive R}.
Context (HR : ∀ x y, cmp_lt compare_tasks_reverse x y → R x y).
Context (HE : ∀ x y z, compare_tasks x y = Eq → R y z → R x z).

(** Both strictness levels are instances of this. *)
Lemma merge_iter_StronglySorted l r :
  StronglySorted R l → StronglySorted R r → StronglySorted R (merge_iter l r).
Proof.
  revert l r. apply (merge_ind (λ l r, StronglySorted R l → StronglySorted R r →
    StronglySorted R (merge_iter l r))).
  - intros r. by rw merge_iter_nil_l.
  - intros l. by rw merge_iter_nil_r.
  - intros x l y r E IH [Hx Hl]%StronglySorted_cons Hr. rw merge_iter_cons E.
    apply StronglySorted_cons. split; [| by apply IH].
    assert (R x y) as Hxy. { apply HR, cmp_lt_gt; [apply _ | done]. }
    apply Forall_forall. intros z [Hz | Hz]%merge_iter_sub.
    { by apply (proj1 (Forall_forall _ _) Hx). }
    apply StronglySorted_cons in Hr as [Hy Hr]. apply elem_of_cons in Hz as [-> | Hz]; [done |].
    transitivity y; [done |]. by apply (proj1 (Forall_forall _ _) Hy).
  - intros x l y r E IH Hl [Hy Hr]%StronglySorted_cons. rw merge_iter_cons E.
    apply StronglySorted_cons. split; [| by apply IH].
    assert (R y x) as Hyx by by apply HR.
    apply Forall_forall. intros z [Hz | Hz]%merge_iter_sub.
    + apply StronglySorted_cons in Hl as [Hx Hl].
      apply elem_of_cons in Hz as [-> | Hz]; [done |].
      transitivity x; [done |]. by apply (proj1 (Forall_forall _ _) Hx).
    + by apply (proj1 (Forall_forall _ _) Hy).
  - intros x l y r E IH [Hx Hl]%StronglySorted_cons [Hy Hr]%StronglySorted_cons.
    rw merge_iter_cons E. apply StronglySorted_cons. split; [| by apply IH].
    apply Forall_forall. intros z [Hz | Hz]%merge_iter_sub.
    + by apply (proj1 (Forall_forall _ _) Hx).
    + apply (HE x y); [done |]. by apply (proj1 (Forall_forall _ _) Hy).
Qed.
End merge_sorted.

Lemma compare_tasks_eq_rev x y z :
  compare_tasks x y = Eq → compare_tasks_reverse x z = compare_tasks_reverse y z.
Proof. unfold compare_tasks_reverse. apply (cmp_eq_r compare_tasks). Qed.

Lemma merge_iter_task_sorted l r : task_sorted l → task_sorted r → task_sorted (merge_iter l r).
Proof.
  apply (merge_iter_StronglySorted (cmp_le compare_tasks_reverse)).
  - intros x y. unfold cmp_le, cmp_lt. by intros ->.
  - intros x y z E. unfold cmp_le. by rw (compare_tasks_eq_rev _ _ _ E).
Qed.

Lemma merge_iter_task_strict l r : task_strict l → task_strict r → task_strict (merge_iter l r).
Proof.
  apply (merge_iter_StronglySorted (cmp_lt compare_tasks_reverse)); [done |].
  intros x y z E. unfold cmp_lt. by rw (compare_tasks_eq_rev _ _ _ E).
Qed.

(** Merging what is already there changes nothing. *)
Lemma merge_iter_absorb l r :
  task_strict l → task_strict r → (∀ y, y ∈ r → y ∈ l) → merge_iter l r = l.
Proof.
  intros Hl Hr Hsub. apply (strict_sorted_unique compare_tasks_reverse).
  - by apply merge_iter_task_strict.
  - done.
  - intros x. split; [| apply merge_iter_left].
    intros [? | ?]%merge_iter_sub; auto.
Qed.

Lemma elem_of_merge_iter l r x :
  (∀ a b, a ∈ l → b ∈ r → compare_tasks a b = Eq → a = b) →
  x ∈ merge_iter l r ↔ x ∈ l ∨ x ∈ r.
Proof.
  intros Hinj. split; [apply merge_iter_sub |]. intros [Hx | Hx].
  - by apply merge_iter_left.
  - destruct (merge_iter_right l r x Hx) as (y & Hy & [-> | [Hyl E]]); [done |].
    by rw -(Hinj y x).
Qed.

(** *** File names *)
Lemma show_int_no_char z c : int_char c = false → has_char c (show_int z) = false.
Proof. apply forall_char_has, show_int_chars. Qed.

Lemma parse_archive_path z c :
  in_i64 z = true →
  parse_archive_filename (archive_path z c)
    = Some {| path := archive_path z c; compressed := c; af_starttime := z |}.
Proof.
  intros Hz. unfold parse_archive_filename, archive_path at 1. rw strip_prefix_app. simpl.
  destruct c.
  - rw strip_suffix_app. simpl. by rw parse_i64_show.
  - rw string_app_nil_r. destruct (strip_suffix _ (show_int z)) as [s|] eqn:E; simpl.
    + exfalso. apply strip_suffix_Some in E. pose proof (show_int_no_char z "."%char eq_refl) as H.
      rw E has_char_app in H. apply orb_false_iff in H as [_ H]. done.
    + by rw parse_i64_show.
Qed.

Lemma archive_path_inj z c z' c' :
  archive_path z c = archive_path z' c' → z = z' ∧ c = c'.
Proof.
  unfold archive_path. intros E%string_app_inj_l.
  assert (∀ x y, show_int x ≠ (show_int y ++ ZSTD_EXTENSION_WITH_DOT)%string) as Hne.
  { intros x y E'. pose proof (show_int_no_char x "."%char eq_refl) as H.
    rw E' has_char_app in H. apply orb_false_iff in H as [_ H]. done. }
  destruct c, c'; rw ?string_app_nil_r in E.
  - apply (f_equal (strip_suffix ZSTD_EXTENSION_WITH_DOT)) in E. rw !strip_suffix_app in E.
    injection E as E. by apply show_int_inj in E.
  - by apply eq_sym, Hne in E.
  - by apply Hne in E.
  - by apply show_int_inj in E.
Qed.

Lemma parse_archive_Some n f :
  parse_archive_filename n = Some f → path f = n ∧ in_i64 (af_starttime f) = true.
Proof.
  unfold parse_archive_filename. destruct (strip_prefix _ n) as [rest|]; simpl; [| done].
  assert (∀ s z, parse_i64 s = Some z → in_i64 z = true) as Hp.
  { unfold parse_i64. intros s z. destruct (parse_int s) as [z'|]; [| done].
    destruct (in_i64 z') eqn:E; [by intros [= <-] | done]. }
  destruct (strip_suffix _ rest) as [s|]; simpl.
  - destruct (parse_i64 s) eqn:E; simpl; [| done]. intros [= <-]. eauto.
  - destruct (parse_i64 rest) eqn:E; simpl; [| done]. intros [= <-]. eauto.
Qed.

(** The other files of the directory are no archive files. *)
Lemma parse_archive_other n :
  n ∈ [ACTIVE_FILENAME; STATE_FILENAME; WAL_FILENAME] → parse_archive_filename n = None.
Proof. rw !elem_of_cons elem_of_nil. by intros [-> | [-> | [-> | []]]]. Qed.

Lemma archive_path_other z c n :
  n ∈ [ACTIVE_FILENAME; STATE_FILENAME; WAL_FILENAME] → archive_path z c ≠ n.
Proof. rw !elem_of_cons elem_of_nil. by intros [-> | [-> | [-> | []]]]. Qed.

(** *** Readers and writers *)
Section io_laws.
Context `{TaskJsonLaws}.

Lemma archive_items_write ts : archive_items (write_tasks ts) = Ok <$> ts.
Proof.
  induction ts as [|t ts IH]; simpl; [done |]. rw task_json_roundtrip /=. by f_equal.
Qed.

Lemma ok_items_Ok ts : ok_items (Ok <$> ts) = ts.
Proof. unfold ok_items. induction ts as [|t ts IH]; simpl; [done | by f_equal]. Qed.

Lemma items_state_Ok ts : items_state (Ok <$> ts) = Valid.
Proof. unfold items_state. by induction ts as [|t ts IH]. Qed.

Lemma archive_items_app f g :
  forallb is_ok (archive_items f) = true →
  archive_items (f ++ g) = archive_items f ++ archive_items g.
Proof.
  induction f as [|[s|s|s] f IH]; simpl; [done | | | done];
    (intros [_ Hf]%andb_true_iff; by rw IH).
Qed.

(** Lines appended after lines of text. *)
Definition is_text (l : line) : bool := match l with Text _ => true | _ => false end.

Lemma archive_items_text f g :
  forallb is_text f = true → archive_items (f ++ g) = archive_items f ++ archive_items g.
Proof.
  induction f as [|[s|s|s] f IH]; simpl; [done | | done | done]. intros Hf. by rw IH.
Qed.

Lemma text_write ts : forallb is_text (write_tasks ts) = true.
Proof. by induction ts. Qed.

Lemma text_closed f : forallb is_text f = true → closed f = true.
Proof.
  unfold closed. rw List.forallb_forall. intros Hf.
  destruct (last f) as [l|] eqn:E; [| done].
  apply last_Some_elem_of, list_elem_of_In, Hf in E. by destruct l.
Qed.

Lemma ok_items_torn t p q x :
  task_to_json t = (p ++ q)%string → x ∈ ok_items (archive_items (torn p)) → x = t.
Proof.
  intros E. destruct (decide (q = ""%string)) as [-> | Hq].
  - rw string_app_nil_r in E. destruct p as [|c p]; [by intros ?%not_elem_of_nil |].
    simpl. rw -E task_json_roundtrip. simpl. apply list_elem_of_singleton.
  - destruct p as [|c p]; [by intros ?%not_elem_of_nil |].
    simpl. rw (task_json_cut t _ _ E Hq). simpl. by intros ?%not_elem_of_nil.
Qed.

Lemma journal_tasks_sorted f : task_sorted (journal_tasks f).
Proof. apply dedup_sorted, sort_by_sorted, _. Qed.

Lemma elem_of_journal_tasks f t :
  t ∈ journal_tasks f ↔ t ∈ ok_items (archive_items f).
Proof. unfold journal_tasks. by rw elem_of_dedup elem_of_sort_by. Qed.
End io_laws.

(** *** Cutoffs *)
Lemma cutoff_update s r n f r' n' :
  cutoff_timestamp (update_cutoff_timestamp s r n f) r' n'
  = if decide (r = r' ∧ n = n') then Some (f (cutoff_timestamp s r n))
    else cutoff_timestamp s r' n'.
Proof.
  unfold cutoff_timestamp, update_cutoff_timestamp. simpl.
  destruct (decide (r = r')) as [-> | Hr].
  - rw lookup_insert_eq. simpl. destruct (remote_state s !! r') as [rs|]; simpl.
    + destruct (node_state rs !! n) as [ns|] eqn:En; simpl;
        (destruct (decide (n = n')) as [-> | Hn];
         [rw lookup_insert_eq decide_True // | rw lookup_insert_ne // decide_False //; naive_solver]).
    + destruct (decide (n = n')) as [-> | Hn].
      * by rw lookup_singleton_eq decide_True.
      * rw lookup_singleton_ne // decide_False //. naive_solver.
  - rw lookup_insert_ne // decide_False //. naive_solver.
Qed.

Lemma cutoff_lower c s r n :
  cutoff_timestamp (lower_cutoffs c s) r n = (λ z, Z.min z c) <$> cutoff_timestamp s r n.
Proof.
  unfold cutoff_timestamp, lower_cutoffs. simpl. rw lookup_fmap.
  destruct (remote_state s !! r) as [rs|]; simpl; [| done]. rw lookup_fmap.
  by destruct (node_state rs !! n).
Qed.
