(* ===== verification/TaskCache.v ===== *)
(** * The task cache

    [TaskCache], [WritableTaskCache] and [ReadableTaskCache] of
    server/src/remote_tasks/task_cache.rs as operations on the files of the cache directory.
    Writers hold the exclusive lock and readers the shared one, so the operations below do not
    interleave; what can happen inside one is an I/O error or a crash at any file operation,
    which the fault schedule of [Disk] covers. *)
From S2P Require Import Prelude RustStr Remotes Disk TaskArchive.

(** Sizes and limits of [TaskCache::new]; the paths are those of the cache directory. *)
Record TaskCache := {
  max_files : Z;           (* u32 *)
  uncompressed_files : Z;  (* u32 *)
  rotate_after : Z;        (* u64, seconds *)
  journal_max_size : Z;    (* u64, bytes *)
}.

Inductive GetTasks := All | Active | Archived.

(** A [for] loop that threads a value. *)
Fixpoint fold_io {A B} (step : B → A → IO B) (acc : B) (l : list A) : IO B :=
  match l with
  | [] => mret acc
  | x :: l' => acc' ← step acc x; fold_io step acc' l'
  end.

(** ** Directory listing *)
Definition archive_files_with_dupes : IO (list ArchiveFile) :=
  names ← fs_read_dir;
  mret (sort_by compare_files (filter_map parse_archive_filename names)).

Definition archive_files : IO (list ArchiveFile) :=
  names ← archive_files_with_dupes;
  mret (dedup_by_key af_starttime names).

(** ** Writers: a temporary file, flushed, synced and renamed over the original *)
Definition writer (f : ArchiveFile) : IO () :=
  _ ← syscall;
  if compressed f then syscall else mret ().
Definition commit (f : ArchiveFile) (content : file) : IO () :=
  _ ← context "could not fsync" syscall;
  context "failed to replace" (fs_replace (path f) content).

Section ops.
Context `{UpidEnv} `{TaskJson} `{Reads}.

Definition new_file (now : Z) (compress : bool) : IO ArchiveFile :=
  let f := {| path := archive_path now compress; compressed := compress;
              af_starttime := now |} in
  _ ← writer f; _ ← commit f []; mret f.

(** ** State file *)
Definition read_state : IO State :=
  r ← attempt (fs_open STATE_FILENAME);
  mret match r with
       | Ok content => default default_state (state_from_json content)
       | Err e => default_state (* missing, or logged *)
       end.

Definition write_state (s : State) : IO () := fs_replace STATE_FILENAME (state_to_json s).

(** ** Reading *)
Definition corrupted_of (f : ArchiveFile) (items : list (result error TaskCacheItem))
    : list ArchiveFile :=
  if (af_starttime f =? 0)%Z then []
  else filter_map (λ r, match r with Ok _ => None | Err _ => Some f end) items.

(** [InnerTaskArchiveIterator] on the files in the order they are popped: the items, and the
    files recorded as corrupted. *)
Fixpoint read_files (files : list ArchiveFile)
    : IO (list (result error TaskCacheItem) * list ArchiveFile) :=
  match files with
  | [] => mret ([], [])
  | f :: files' =>
      r ← attempt (file_iter f);
      match r with
      | Ok (Some items) =>
          rest ← read_files files';
          mret (items ++ rest.1, corrupted_of f items ++ rest.2)
      | Ok None => read_files files'
      | Err _ => read_files files'
      end
  end.

(** [TaskArchiveIterator::new], consumed to the end. *)
Definition iterate (journal : option string) (files : list ArchiveFile)
    : IO (list TaskCacheItem * list ArchiveFile) :=
  match journal with
  | None =>
      inner ← read_files (reverse files);
      mret (ok_items inner.1, inner.2)
  | Some j =>
      r ← attempt (fs_open j);
      match r with
      | Ok content =>
          lines ← read_lines content;
          inner ← read_files (reverse files);
          mret (merge_iter (journal_tasks lines) (ok_items inner.1), inner.2)
      | Err e =>
          match kind e with
          | NotFound =>
              inner ← read_files (reverse files);
              mret (ok_items inner.1, inner.2)
          | OtherIo => fail e
          end
      end
  end.

(** [get_tasks_impl], with the corrupted files a reader can take afterwards *)
Definition get_tasks_impl (mode : GetTasks) : IO (list TaskCacheItem * list ArchiveFile) :=
  match mode with
  | All =>
      files ← archive_files;
      iterate (Some WAL_FILENAME) (reverse files ++ [active_file])
  | Active => iterate None [active_file]
  | Archived =>
      files ← archive_files;
      iterate (Some WAL_FILENAME) (reverse files)
  end.

Definition get_tasks (mode : GetTasks) : IO (list TaskCacheItem) :=
  r ← context "failed to create task archive iterator" (get_tasks_impl mode); mret r.1.

(** ** Merging into the archive *)
Definition merge_single_archive_file (tasks : list TaskCacheItem) (f : ArchiveFile)
    : IO ArchiveFileState :=
  match tasks with
  | [] => mret Valid
  | _ =>
      _ ← writer f;
      r ← file_iter f;
      match r with
      | None => fail (Error OtherIo ["task archive file disappeared while merging tasks"])
      | Some items =>
          _ ← commit f (write_tasks (merge_iter (ok_items items) tasks));
          mret (items_state items)
      end
  end.

(** The archive files still to be filled: the current one, the ones after it, the tasks
    collected for the current one and the corrupted files seen. *)
Record merge_cursor := Cursor {
  current : option ArchiveFile;
  rest : list ArchiveFile;
  tasks_for_current_file : list TaskCacheItem;
  corrupted : list ArchiveFile;
}.

Definition note_corrupted (st : ArchiveFileState) (f : ArchiveFile) (l : list ArchiveFile)
    : list ArchiveFile := if corrupted_state st then l ++ [f] else l.

(** [while next.is_some()]: finish files until one may hold a task that started at [start] *)
Fixpoint skip_ahead (start : Z) (cur : option ArchiveFile) (rest : list ArchiveFile)
    (buf : list TaskCacheItem) (corr : list ArchiveFile) : IO merge_cursor :=
  match rest with
  | [] => mret (Cursor cur [] buf corr)
  | next :: rest' =>
      match cur with
      | Some c =>
          if (af_starttime c <=? start)%Z then mret (Cursor cur rest buf corr)
          else
            st ← context "failed to merge archive file" (merge_single_archive_file buf c);
            skip_ahead start (Some next) rest' [] (note_corrupted st c corr)
      | None => skip_ahead start (Some next) rest' buf corr
      end
  end.

Definition merge_step (cur : merge_cursor) (t : TaskCacheItem) : IO merge_cursor :=
  cur ← skip_ahead (starttime t) (current cur) (rest cur)
          (tasks_for_current_file cur) (corrupted cur);
  let keep := Cursor (current cur) (rest cur) (tasks_for_current_file cur ++ [t])
                (corrupted cur) in
  mret match current cur with
       | Some c => if (starttime t <? af_starttime c)%Z then cur else keep
       | None => keep
       end.

Definition merge_tasks_into_archive (tasks : list TaskCacheItem) : IO (list ArchiveFile) :=
  files ← context "failed to read archive files" archive_files;
  cur ← fold_io merge_step (Cursor (head files) (tail files) [] []) tasks;
  match current cur with
  | Some c =>
      st ← context "failed to merge archive file"
             (merge_single_archive_file (tasks_for_current_file cur) c);
      mret (note_corrupted st c (corrupted cur))
  | None => mret (corrupted cur)
  end.

Definition request_repair (corrupted_archive_files : list ArchiveFile) : IO () :=
  match af_starttime <$> corrupted_archive_files with
  | [] => mret ()
  | z :: zs =>
      state ← read_state;
      context "failed to write state when resetting cutoff after archive file corruption event"
        (write_state (lower_cutoffs (foldr Z.min z zs) state))
  end.

(** ** Journal *)
Definition apply_journal : IO () :=
  r ← attempt (fs_open WAL_FILENAME);
  match r with
  | Err e => match kind e with NotFound => mret () | OtherIo => fail e end
  | Ok content =>
      lines ← read_lines content;
      corrupted_archive_files ← merge_tasks_into_archive (journal_tasks lines);
      _ ← context "failed to truncate journal file" (fs_truncate WAL_FILENAME);
      match corrupted_archive_files with
      | [] => mret ()
      | _ => request_repair corrupted_archive_files
      end
  end.

Context (cache : TaskCache).

Definition apply_journal_if_too_large : IO () :=
  size ← context "failed to read metadata of journal file" (fs_size WAL_FILENAME);
  if (journal_max_size cache <? size)%Z then apply_journal else mret ().

(** The node name a task's cutoff is kept under. *)
Definition cutoff_node (u : RemoteUpid) (n : NativeUpid) : string :=
  match ru_type u with Pve => native_node n | Pbs => "localhost" end.

(** One finished task: out of the active set, its node's cutoff raised, a journal line. *)
Definition journal_step (succ : NodeFetchSuccessMap)
    (acc : gmap RemoteUpid TaskCacheItem * State) (t : TaskCacheItem)
    : IO (gmap RemoteUpid TaskCacheItem * State) :=
  let active := delete (upid t) acc.1 in
  match native_upid (upid t) with
  | Err _ => mret (active, acc.2)
  | Ok n =>
      let node := cutoff_node (upid t) n in
      let r := ru_remote (upid t) in
      let state :=
        if node_successful succ r node
        then update_cutoff_timestamp acc.2 r node
               (λ existing, Z.max (default 0 existing) (starttime t))%Z
        else acc.2 in
      _ ← fs_write_line WAL_FILENAME (task_to_json t);
      mret (active, state)
  end.

(** One task still running: its node's cutoff is at most its start. *)
Definition active_step (succ : NodeFetchSuccessMap) (state : State) (t : TaskCacheItem)
    : State :=
  match native_upid (upid t) with
  | Err _ => state
  | Ok n =>
      let node := cutoff_node (upid t) n in
      let r := ru_remote (upid t) in
      if node_successful succ r node
      then update_cutoff_timestamp state r node
             (λ existing, Z.min (default i64_max existing) (starttime t))%Z
      else state
  end.

Definition write_tasks_to_journal (finished : list TaskCacheItem)
    (active : gmap RemoteUpid TaskCacheItem) (succ : NodeFetchSuccessMap) (state : State)
    : IO (gmap RemoteUpid TaskCacheItem * State) :=
  _ ← fs_open_append WAL_FILENAME;
  acc ← fold_io (journal_step succ) (active, state) finished;
  let state := foldl (active_step succ) acc.2 (snd <$> map_to_list acc.1) in
  _ ← syscall; (* sync_all *)
  mret (acc.1, state).

Definition write_active_tasks (tasks : list TaskCacheItem) : IO () :=
  _ ← writer active_file;
  context "could not finalize 'active' file" (commit active_file (write_tasks tasks)).

(** [HashMap::from_iter]: a later task replaces an earlier one of the same UPID *)
Definition insert_task (m : gmap RemoteUpid TaskCacheItem) (t : TaskCacheItem)
    : gmap RemoteUpid TaskCacheItem := <[upid t := t]> m.

Definition is_running (t : TaskCacheItem) : bool :=
  match endtime t with None => true | Some _ => false end.

(** ** The operations of a writable cache *)
Definition update (new_tasks : list TaskCacheItem) (succ : NodeFetchSuccessMap)
    (drop_tracked : gset RemoteUpid) : IO () :=
  task_iter ← context "failed to create archive iterator for active tasks" (get_tasks Active);
  let kept := base.filter (λ t, upid t ∉ drop_tracked) task_iter in
  let active_tasks :=
    foldl insert_task (foldl insert_task ∅ kept) (base.filter (λ t, is_running t = true) new_tasks) in
  let new_finished_tasks := base.filter (λ t, is_running t = false) new_tasks in
  state ← read_state;
  let state := foldl remove_tracked_task state (elements drop_tracked) in
  acc ← write_tasks_to_journal new_finished_tasks active_tasks succ state;
  _ ← context "failed to write active task file when adding tasks"
        (write_active_tasks
           (sort_by compare_tasks_reverse (snd <$> map_to_list acc.1)));
  _ ← context "failed to update task archive state file when adding tasks"
        (write_state acc.2);
  context "could not apply journal early" apply_journal_if_too_large.

Definition add_tracked_task (t : TaskCacheItem) : IO () :=
  state ← read_state;
  tasks ← context "failed to create active task iterator" (get_tasks Active);
  _ ← context "failed to write active tasks file when adding tracked task"
        (write_active_tasks (sort_by compare_tasks_reverse (tasks ++ [t])));
  context "failed to write state when adding tracked task"
    (write_state (state_add_tracked_task state (upid t))).

(** Create the initial archive files, when there are none. *)
Definition init (now : Z) : IO () :=
  files ← archive_files;
  match files with
  | _ :: _ => mret ()
  | [] =>
      for_each (seqZ 0 (max_files cache)) (λ i,
        _ ← new_file (i64 (now - i64 (u64 (i * rotate_after cache))))
              (uncompressed_files cache <=? i)%Z;
        mret ())
  end.

Definition compress_archive_file (f : ArchiveFile) : IO ArchiveFileState :=
  let nf := set_compressed f true in
  r ← file_iter f;
  match r with
  | None => fail (Error OtherIo ["task archive file disappeared while merging tasks"])
  | Some items =>
      _ ← writer nf;
      _ ← commit nf (write_tasks (ok_items items));
      _ ← context "failed to remove uncompressed archive file" (fs_remove (path f));
      mret (items_state items)
  end.

(** The files of a listing without duplicates, and the duplicates, which are removed. *)
Fixpoint split_dupes (seen : gset Z) (files : list ArchiveFile)
    : list ArchiveFile * list ArchiveFile :=
  match files with
  | [] => ([], [])
  | f :: files' =>
      if decide (af_starttime f ∈ seen)
      then let r := split_dupes seen files' in (r.1, f :: r.2)
      else let r := split_dupes ({[af_starttime f]} ∪ seen) files' in (f :: r.1, r.2)
  end.

Definition start_new_file (now : Z) (files : list ArchiveFile) : IO (list ArchiveFile) :=
  f ← new_file now (uncompressed_files cache =? 0)%Z;
  _ ← apply_journal;
  mret (f :: files).

(** Compress the files that are due, collecting the corrupted ones. *)
Definition compress_step (corr : list ArchiveFile) (f : ArchiveFile) : IO (list ArchiveFile) :=
  if compressed f then mret corr
  else
    st ← context "failed to compress" (compress_archive_file f);
    mret (note_corrupted st f corr).

(** [rotate]: remove duplicates (a failure is logged), start a new file when the newest one
    is old enough, drop the files beyond [max_files], compress what is due. *)
Definition rotate (now : Z) : IO bool :=
  with_dupes ← archive_files_with_dupes;
  let s := split_dupes ∅ with_dupes in
  _ ← for_each s.2 (λ f, _ ← attempt (fs_remove (path f)); mret ());
  let due :=
    match s.1 with
    | bound :: _ => (af_starttime bound <? now)%Z
                    && (i64 (rotate_after cache) <=? i64 (now - af_starttime bound))%Z
    | [] => true
    end in
  files ← (if due then start_new_file now s.1 else mret s.1);
  let keep := take (Z.to_nat (max_files cache)) files in
  _ ← for_each (reverse (drop (Z.to_nat (max_files cache)) files))
        (λ f, context "failed to remove" (fs_remove (path f)));
  corr ← fold_io compress_step [] (drop (Z.to_nat (uncompressed_files cache)) keep);
  _ ← match corr with [] => mret () | _ => request_repair corr end;
  mret due.
End ops.
