(* ===== verification/TaskMerge.v ===== *)
(** * Merging the journal into the archive

    [merge_tasks_into_archive] walks the journal and the archive files in parallel.  Its
    reference is [fill]: each archive file is merged with the tasks of its own time slice.
    The first part shows that the walk computes the reference on every directory, the second
    what the reference means for the tasks. *)
From S2P Require Import Prelude RustStr Remotes Disk TaskArchive TaskCache.

Section spec.
Context `{UpidEnv} `{TaskJson} `{SteadyReads}.

(** The directory's archive files, newest first, one per start time. *)
Definition listing_with_dupes (d : dir) : list ArchiveFile :=
  sort_by compare_files (filter_map parse_archive_filename (fst <$> map_to_list d)).
Definition listing (d : dir) : list ArchiveFile :=
  dedup_by_key af_starttime (listing_with_dupes d).

Definition content (d : dir) (f : ArchiveFile) : file := default [] (d !! path f).
Definition items_of (d : dir) (f : ArchiveFile) : list TaskCacheItem :=
  ok_items (archive_items (content d f)).

(** Merge [ts] into one file; nothing is written for no task. *)
Definition fill_one (f : ArchiveFile) (ts : list TaskCacheItem) (d : dir) : dir :=
  match ts with
  | [] => d
  | _ => <[path f := write_tasks (merge_iter (items_of d f) ts)]> d
  end.
Definition corrupted_one (f : ArchiveFile) (ts : list TaskCacheItem) (d : dir) : list ArchiveFile :=
  match ts with
  | [] => []
  | _ => if corrupted_state (items_state (archive_items (content d f))) then [f] else []
  end.

(** The tasks of the slice of [f]: those that started at or after [af_starttime f], of the
    ones no newer file took. *)
Definition slice (f : ArchiveFile) (ts : list TaskCacheItem) : list TaskCacheItem :=
  base.filter (λ t, af_starttime f ≤ starttime t)%Z ts.
Definition older (f : ArchiveFile) (ts : list TaskCacheItem) : list TaskCacheItem :=
  base.filter (λ t, starttime t < af_starttime f)%Z ts.

Fixpoint fill (files : list ArchiveFile) (ts : list TaskCacheItem) (d : dir) : dir :=
  match files with
  | [] => d
  | f :: files' => fill files' (older f ts) (fill_one f (slice f ts) d)
  end.
Fixpoint fill_corrupted (files : list ArchiveFile) (ts : list TaskCacheItem) (d : dir)
    : list ArchiveFile :=
  match files with
  | [] => []
  | f :: files' =>
      corrupted_one f (slice f ts) d
        ++ fill_corrupted files' (older f ts) (fill_one f (slice f ts) d)
  end.

(** The tail of the walk: the tasks after the cursor, then the last merge. *)
Definition finish (cur : merge_cursor) : IO (list ArchiveFile) :=
  match current cur with
  | Some c =>
      st ← context "failed to merge archive file"
             (merge_single_archive_file (tasks_for_current_file cur) c);
      mret (note_corrupted st c (corrupted cur))
  | None => mret (corrupted cur)
  end.
End spec.

(** ** The walk computes [fill] *)
Section walk.
Context `{UpidEnv} `{TaskJson} `{SteadyReads}.
Implicit Types (d : dir) (f : ArchiveFile) (ts : list TaskCacheItem).

Definition on_disk d f : Prop := is_Some (d !! path f).

Lemma quiet_writer d f : quiet_run d (writer f) (Ok ()) d.
Proof.
  eapply quiet_bind; [apply quiet_syscall |]. destruct (compressed f); auto with quiet.
Qed.
Lemma quiet_commit d f c : quiet_run d (commit f c) (Ok ()) (<[path f := c]> d).
Proof.
  eapply quiet_bind; [apply quiet_context, quiet_syscall |].
  apply quiet_context, quiet_replace.
Qed.
Lemma quiet_file_iter d f :
  on_disk d f → quiet_run d (file_iter f) (Ok (Some (archive_items (content d f)))) d.
Proof.
  intros [c Hc]. eapply quiet_bind; [by apply quiet_attempt, quiet_open |].
  eapply quiet_bind; [| apply quiet_lines_bind; unfold content; rw Hc; apply quiet_ret].
  destruct (compressed f); [apply quiet_context |]; auto with quiet.
Qed.

Lemma quiet_archive_files d : quiet_run d archive_files (Ok (listing d)) d.
Proof.
  unfold archive_files, archive_files_with_dupes.
  eapply quiet_bind; [eapply quiet_bind; [apply quiet_read_dir | apply quiet_ret] |].
  apply quiet_ret.
Qed.

Lemma quiet_merge_single d f ts :
  on_disk d f →
  ∃ st, quiet_run d (merge_single_archive_file ts f) (Ok st) (fill_one f ts d) ∧
        ∀ corr, note_corrupted st f corr = corr ++ corrupted_one f ts d.
Proof.
  intros Hf. destruct ts as [|t ts].
  - exists Valid. split; [apply quiet_ret |]. intros corr. by rw app_nil_r.
  - exists (items_state (archive_items (content d f))). split.
    + eapply quiet_bind; [apply quiet_writer |].
      eapply quiet_bind; [by apply quiet_file_iter |].
      eapply quiet_bind; [apply quiet_commit | apply quiet_ret].
    + intros corr. unfold note_corrupted, corrupted_one.
      destruct (corrupted_state _); [done | by rw app_nil_r].
Qed.

Lemma on_disk_fill_one d f g ts : on_disk d g → on_disk (fill_one f ts d) g.
Proof.
  unfold on_disk, fill_one. destruct ts; [done |]. intros Hg.
  destruct (decide (path f = path g)) as [-> | Hne];
    [by rw lookup_insert_eq | by rw lookup_insert_ne].
Qed.

Lemma slice_nil f : slice f [] = []. Proof. done. Qed.
Lemma older_nil f : older f [] = []. Proof. done. Qed.
Lemma fill_nil files d : fill files [] d = d ∧ fill_corrupted files [] d = [].
Proof. induction files as [|f files IH]; simpl; done. Qed.

Lemma slice_ge f t ts :
  (af_starttime f ≤ starttime t)%Z → slice f (t :: ts) = t :: slice f ts ∧ older f (t :: ts) = older f ts.
Proof. intros Hge. unfold slice, older. rw !filter_cons decide_True // decide_False //. lia. Qed.

(** Once a task is older than [f], so are the following ones. *)
Lemma slice_lt f t ts :
  task_sorted (t :: ts) → (starttime t < af_starttime f)%Z →
  slice f (t :: ts) = [] ∧ older f (t :: ts) = t :: ts.
Proof.
  intros Hs Hlt.
  assert (Forall (λ x, starttime x < af_starttime f)%Z (t :: ts)) as Hall.
  { apply (StronglySorted_Forall _ _ _ _ Hs); [| done].
    intros y Hy%compare_reverse_le. lia. }
  clear Hs Hlt. unfold slice, older.
  induction Hall as [|x l Hx Hl [IH1 IH2]]; [done |].
  rw !filter_cons decide_False; [lia |]. rw decide_True //. split; [done | by f_equal].
Qed.

(** The result of the walk from a cursor, in terms of [fill]. *)
Definition walk_from (c : ArchiveFile) (rest : list ArchiveFile)
    (buf ts : list TaskCacheItem) d : dir :=
  fill rest (older c ts) (fill_one c (buf ++ slice c ts) d).
Definition walk_corrupted (c : ArchiveFile) (rest : list ArchiveFile)
    (buf ts : list TaskCacheItem) d (corr : list ArchiveFile) : list ArchiveFile :=
  corr ++ corrupted_one c (buf ++ slice c ts) d
    ++ fill_corrupted rest (older c ts) (fill_one c (buf ++ slice c ts) d).

Definition walk (cur : merge_cursor) (ts : list TaskCacheItem) : IO (list ArchiveFile) :=
  cur ← fold_io merge_step cur ts; finish cur.

Lemma walk_cons cur t ts w :
  walk cur (t :: ts) w =
  (cur' ← skip_ahead (starttime t) (current cur) (rest cur)
            (tasks_for_current_file cur) (corrupted cur);
   walk (match current cur' with
         | Some c => if (starttime t <? af_starttime c)%Z then cur'
                     else Cursor (current cur') (rest cur') (tasks_for_current_file cur' ++ [t])
                            (corrupted cur')
         | None => Cursor (current cur') (rest cur') (tasks_for_current_file cur' ++ [t])
                     (corrupted cur')
         end) ts) w.
Proof.
  unfold walk, merge_step. simpl. unfold mbind, IO_bind, mret, IO_ret.
  by destruct (skip_ahead _ _ _ _ _ w) as [[]].
Qed.

(** A task older than the current file: the file is finished and the next one tried. *)
Lemma walk_next c g rest buf corr t ts w :
  (starttime t < af_starttime c)%Z →
  walk (Cursor (Some c) (g :: rest) buf corr) (t :: ts) w =
  (st ← context "failed to merge archive file" (merge_single_archive_file buf c);
   walk (Cursor (Some g) rest [] (note_corrupted st c corr)) (t :: ts)) w.
Proof.
  intros Hlt. rw walk_cons. simpl. rw (proj2 (Z.leb_gt _ _) Hlt).
  unfold mbind at 1, IO_bind at 1. unfold mbind at 1, IO_bind at 1.
  unfold mbind at 1, IO_bind at 1.
  destruct (context _ (merge_single_archive_file buf c) w) as [[s|] w']; [| done].
  by rw walk_cons.
Qed.

(** A task of the current file's slice is kept for it. *)
Lemma walk_take c rest buf corr t ts w :
  (af_starttime c ≤ starttime t)%Z →
  walk (Cursor (Some c) rest buf corr) (t :: ts) w
  = walk (Cursor (Some c) rest (buf ++ [t]) corr) ts w.
Proof.
  intros Hge. rw walk_cons. simpl.
  assert (∀ k : merge_cursor → IO (list ArchiveFile),
    (skip_ahead (starttime t) (Some c) rest buf corr ≫= k) w
    = k (Cursor (Some c) rest buf corr) w) as ->.
  { intros k. destruct rest as [|g rest]; simpl; [done |].
    by rw (proj2 (Z.leb_le _ _) Hge). }
  simpl. by rw (proj2 (Z.ltb_ge _ _) Hge).
Qed.

Lemma quiet_ext {A} d (m m' : IO A) r d' :
  (∀ w, m w = m' w) → quiet_run d m' r d' → quiet_run d m r d'.
Proof. intros Heq Hm w. rw Heq. apply Hm. Qed.

Lemma quiet_walk_nil d c rest buf corr :
  on_disk d c →
  quiet_run d (walk (Cursor (Some c) rest buf corr) []) (Ok (walk_corrupted c rest buf [] d corr))
    (walk_from c rest buf [] d).
Proof.
  intros Hc. unfold walk_from, walk_corrupted. rw older_nil slice_nil app_nil_r.
  destruct (fill_nil rest (fill_one c buf d)) as [-> ->]. rw app_nil_r.
  destruct (quiet_merge_single d c buf Hc) as (st & Hm & Hst).
  eapply quiet_bind; [apply quiet_ret |].
  eapply quiet_bind; [by apply quiet_context |]. rw -Hst. apply quiet_ret.
Qed.

Lemma quiet_walk rest : ∀ c buf corr ts d,
  task_sorted ts → on_disk d c → Forall (on_disk d) rest →
  quiet_run d (walk (Cursor (Some c) rest buf corr) ts) (Ok (walk_corrupted c rest buf ts d corr))
    (walk_from c rest buf ts d).
Proof.
  induction rest as [|g rest IHrest]; intros c buf corr ts d Hs Hc Hrest.
  - (* the last file: older tasks are dropped *)
    revert buf. induction Hs as [|t ts Hs IH Ht]; intros buf; [by apply quiet_walk_nil |].
    eapply quiet_ext; [apply walk_cons |]. simpl.
    eapply quiet_bind; [apply quiet_ret |]. simpl.
    destruct (Z.ltb_spec (starttime t) (af_starttime c)) as [Hlt | Hge].
    + specialize (IH buf). unfold walk_from, walk_corrupted in *. simpl in *.
      assert (task_sorted (t :: ts)) as Hts by by apply StronglySorted_cons.
      destruct (slice_lt c t ts Hts Hlt) as [-> _].
      destruct ts as [|t' ts]; [done |].
      apply StronglySorted_cons in Hts as [Hts Hts'].
      destruct (slice_lt c t' ts Hts') as [E _]; [| by rw E in IH].
      apply Forall_cons in Hts as [Hle%compare_reverse_le _]. lia.
    + destruct (slice_ge c t ts Hge) as [E1 E2].
      unfold walk_from, walk_corrupted in *. rw E1 E2.
      specialize (IH (buf ++ [t])). by rw -!app_assoc in IH.
  - revert buf. induction Hs as [|t ts Hs IH Ht]; intros buf; [by apply quiet_walk_nil |].
    assert (task_sorted (t :: ts)) as Hts by by apply StronglySorted_cons.
    apply Forall_cons in Hrest as [Hg Hrest].
    destruct (Z.lt_ge_cases (starttime t) (af_starttime c)) as [Hlt | Hge].
    + (* finish [c] and go on with [g] *)
      destruct (quiet_merge_single d c buf Hc) as (st & Hm & Hst).
      specialize (IHrest g [] (note_corrupted st c corr) (t :: ts) (fill_one c buf d) Hts).
      eapply quiet_ext; [by intros w; apply walk_next |].
      eapply quiet_bind; [by apply quiet_context |].
      unfold walk_from, walk_corrupted in *. simpl in *.
      destruct (slice_lt c t ts Hts Hlt) as [-> ->]. rw app_nil_r.
      rw Hst in IHrest. rw Hst. rw app_assoc. apply IHrest.
      * by apply on_disk_fill_one.
      * eapply Forall_impl; [done |]. intros h. apply on_disk_fill_one.
    + (* [c] takes [t] *)
      eapply quiet_ext; [by intros w; apply walk_take |].
      destruct (slice_ge c t ts Hge) as [E1 E2].
      unfold walk_from, walk_corrupted in *. rw E1 E2.
      specialize (IH (buf ++ [t])). by rw -!app_assoc in IH.
Qed.
End walk.

(** ** Listings *)
Section listings.
Context `{UpidEnv} `{TaskJson} `{SteadyReads}.
Implicit Types (d : dir) (f : ArchiveFile).

Lemma elem_of_listing_with_dupes d f :
  f ∈ listing_with_dupes d ↔ on_disk d f ∧ parse_archive_filename (path f) = Some f.
Proof.
  unfold listing_with_dupes. rw elem_of_sort_by elem_of_filter_map. split.
  - intros (n & Hn & Hf). destruct (parse_archive_Some _ _ Hf) as [<- _].
    apply list_elem_of_fmap in Hn as ((n & c) & En & Hn). simpl in En.
    apply elem_of_map_to_list in Hn. rw En in Hf. rw En. split; [| done].
    unfold on_disk. rw En Hn. done.
  - intros [[c Hc] Hf]. exists (path f). split; [| done].
    apply list_elem_of_fmap. exists (path f, c). split; [done |]. by apply elem_of_map_to_list.
Qed.

Lemma listing_sublist d : listing d `sublist_of` listing_with_dupes d.
Proof. apply dedup_by_sublist. Qed.

Lemma listing_parse d f :
  f ∈ listing d → on_disk d f ∧ parse_archive_filename (path f) = Some f.
Proof.
  intros Hf. apply elem_of_listing_with_dupes.
  eapply sublist_subseteq; [apply listing_sublist | done].
Qed.

Lemma listing_path_inj d f g :
  f ∈ listing d → g ∈ listing d → path f = path g → f = g.
Proof. intros [_ Hf]%listing_parse [_ Hg]%listing_parse E. rw E in Hf. congruence. Qed.

(** Newest first, no start time twice. *)
Lemma listing_sorted d :
  StronglySorted (λ f g, af_starttime g < af_starttime f)%Z (listing d).
Proof.
  set (cmp := λ f g : ArchiveFile, (af_starttime g ?= af_starttime f)%Z).
  assert (CmpOrder cmp) as Hcmp.
  { apply (cmp_pullback af_starttime (cmp_rev Z.compare)), cmp_rev_order, _. }
  apply (StronglySorted_impl (cmp_lt cmp)); [by unfold cmp_lt, cmp; intros f g ?%Z.compare_lt_iff |].
  apply dedup_by_strict; [done | |].
  - intros f g _ _ E%Z.compare_eq_iff. by rw bool_decide_eq_true.
  - apply (StronglySorted_impl (cmp_le compare_files)); [| apply sort_by_sorted, _].
    unfold cmp_le, compare_files, cmp. intros f g.
    destruct (af_starttime g ?= af_starttime f)%Z; done.
Qed.

Lemma listing_NoDup d : NoDup (path <$> listing d).
Proof.
  apply NoDup_fmap_2_strong; [intros f g; apply listing_path_inj |].
  eapply StronglySorted_NoDup; [| apply listing_sorted]. intros f Hf. lia.
Qed.

Lemma on_disk_listing d : Forall (on_disk d) (listing d).
Proof. apply Forall_forall. intros f Hf. by apply listing_parse in Hf as [? _]. Qed.
End listings.

(** ** What the reference does to each file *)
Section fill.
Context `{UpidEnv} `{TaskJson} `{SteadyReads}.
Implicit Types (d : dir) (f g : ArchiveFile) (t : TaskCacheItem) (ts : list TaskCacheItem).

(** The file of a task: the newest one whose start is not after the task's. *)
Definition target (files : list ArchiveFile) t : option ArchiveFile :=
  find_by (λ f, af_starttime f <=? starttime t)%Z files.
Definition assigned (files : list ArchiveFile) f ts : list TaskCacheItem :=
  base.filter (λ t, path <$> target files t = Some (path f)) ts.

Lemma target_newest files t f :
  StronglySorted (λ f g, af_starttime g < af_starttime f)%Z files →
  f ∈ files → (af_starttime f ≤ starttime t)%Z →
  (∀ g, g ∈ files → (af_starttime g ≤ starttime t → af_starttime g ≤ af_starttime f)%Z) →
  target files t = Some f.
Proof.
  intros Hs Hf Hle Hmax. unfold target, find_by.
  induction Hs as [|g files Hs IH Hg]; [by apply not_elem_of_nil in Hf |]. simpl.
  destruct (Z.leb_spec (af_starttime g) (starttime t)) as [Hgt | Hgt].
  - apply elem_of_cons in Hf as [-> | Hf]; [done |].
    rw Forall_forall in Hg. specialize (Hg f Hf).
    specialize (Hmax g (list_elem_of_here _ _) Hgt). lia.
  - apply elem_of_cons in Hf as [-> | Hf]; [lia |].
    apply IH; [done |]. intros h Hh. apply Hmax. by apply list_elem_of_further.
Qed.

Lemma target_Some files t f :
  target files t = Some f → f ∈ files ∧ (af_starttime f ≤ starttime t)%Z.
Proof. intros [? ?%Z.leb_le]%find_by_Some. done. Qed.

Lemma fill_one_other d f ts n : n ≠ path f → fill_one f ts d !! n = d !! n.
Proof. intros Hn. destruct ts; simpl; [done |]. by rw lookup_insert_ne. Qed.

Lemma fill_other files : ∀ ts d n, n ∉ path <$> files → fill files ts d !! n = d !! n.
Proof.
  induction files as [|f files IH]; intros ts d n Hn; simpl; [done |].
  rw fmap_cons not_elem_of_cons in Hn. destruct Hn as [Hf Hn].
  rw IH //. by apply fill_one_other.
Qed.

Lemma fill_one_assigned d d' f ts :
  d !! path f = d' !! path f →
  fill_one f ts d !! path f = fill_one f ts d' !! path f.
Proof.
  intros E. destruct ts; simpl; [done |]. rw !lookup_insert_eq /items_of /content E. done.
Qed.

Lemma assigned_here files f ts :
  path f ∉ path <$> files → assigned (f :: files) f ts = slice f ts.
Proof.
  intros Hf. unfold assigned, slice. apply list_filter_iff. intros t. unfold target. simpl.
  destruct (Z.leb_spec (af_starttime f) (starttime t)); simpl; [naive_solver |].
  split; [| lia]. intros Ht. destruct (find_by _ files) as [g|] eqn:E; [| done].
  apply find_by_Some in E as [E _]. simpl in Ht. injection Ht as Ht.
  destruct Hf. rw -Ht. by apply list_elem_of_fmap_2.
Qed.

Lemma assigned_further files f g ts :
  path g ≠ path f → assigned (f :: files) g ts = assigned files g (older f ts).
Proof.
  intros Hne. unfold assigned, older. rw list_filter_filter. apply list_filter_iff.
  intros t. unfold target. simpl.
  destruct (Z.leb_spec (af_starttime f) (starttime t)); simpl.
  - split; [intros [= ?]; congruence | intros [_ ?]; lia].
  - naive_solver.
Qed.

(** Each file is merged with the tasks assigned to it and no other file changes. *)
Lemma fill_lookup files : ∀ ts d f,
  NoDup (path <$> files) → f ∈ files →
  fill files ts d !! path f = fill_one f (assigned files f ts) d !! path f.
Proof.
  induction files as [|g files IH]; intros ts d f Hnd Hf; [by apply not_elem_of_nil in Hf |].
  rw fmap_cons NoDup_cons in Hnd. destruct Hnd as [Hg Hnd].
  apply elem_of_cons in Hf as [-> | Hf]; simpl.
  - rw fill_other //. by rw assigned_here.
  - assert (path f ≠ path g) as Hne.
    { intros E. destruct Hg. rw -E. by apply list_elem_of_fmap_2. }
    rw IH // assigned_further //. apply fill_one_assigned. by rw fill_one_other.
Qed.
End fill.

(** ** [merge_tasks_into_archive] and [apply_journal] *)
Section apply.
Context `{UpidEnv} `{TaskJson} `{SteadyReads}.
Implicit Types (d : dir) (f g : ArchiveFile) (t : TaskCacheItem) (ts : list TaskCacheItem).

Lemma walk_no_file ts : ∀ d buf corr,
  quiet_run d (fold_io merge_step (Cursor None [] buf corr) ts)
    (Ok (Cursor None [] (buf ++ ts) corr)) d.
Proof.
  induction ts as [|t ts IH]; intros d buf corr; simpl.
  - rw app_nil_r. apply quiet_ret.
  - eapply quiet_bind; [| specialize (IH d (buf ++ [t]) corr); rw -app_assoc in IH; exact IH].
    eapply quiet_bind; [apply quiet_ret |]. apply quiet_ret.
Qed.

Lemma quiet_merge_tasks d ts :
  task_sorted ts →
  quiet_run d (merge_tasks_into_archive ts) (Ok (fill_corrupted (listing d) ts d))
    (fill (listing d) ts d).
Proof.
  intros Hs. eapply quiet_bind; [apply quiet_context, quiet_archive_files |].
  pose proof (on_disk_listing d) as Hd. destruct (listing d) as [|f files]; simpl.
  - eapply quiet_bind; [apply walk_no_file |]. apply quiet_ret.
  - apply Forall_cons in Hd as [Hf Hd].
    apply (quiet_walk files f [] [] ts d Hs Hf Hd).
Qed.

Definition state_of d : State :=
  match d !! STATE_FILENAME with
  | Some c => default default_state (state_from_json c)
  | None => default_state
  end.
Definition journal_of d : list TaskCacheItem :=
  match d !! WAL_FILENAME with Some c => journal_tasks c | None => [] end.

Lemma quiet_read_state d : quiet_run d read_state (Ok (state_of d)) d.
Proof.
  unfold read_state, state_of. destruct (d !! STATE_FILENAME) as [c|] eqn:E.
  - eapply quiet_bind; [by apply quiet_attempt, quiet_open |]. apply quiet_ret.
  - eapply quiet_bind; [by apply quiet_attempt, quiet_open_missing |]. apply quiet_ret.
Qed.

(** The oldest start of some corrupted files, and the state after [request_repair]. *)
Definition oldest (corr : list ArchiveFile) : option Z :=
  match af_starttime <$> corr with [] => None | z :: zs => Some (foldr Z.min z zs) end.
Definition repaired (corr : list ArchiveFile) d : dir :=
  match oldest corr with
  | Some z => <[STATE_FILENAME := state_to_json (lower_cutoffs z (state_of d))]> d
  | None => d
  end.

Lemma oldest_le corr z f : oldest corr = Some z → f ∈ corr → (z ≤ af_starttime f)%Z.
Proof.
  unfold oldest. destruct corr as [|g corr]; simpl; [done |]. intros [= <-] Hf.
  assert (∀ l a, (foldr Z.min a l ≤ a ∧ ∀ x, x ∈ l → foldr Z.min a l ≤ x)%Z) as Hmin.
  { induction l as [|y l IH]; intros a; simpl; [split; [lia | set_solver] |].
    destruct (IH a) as [Hle Hall]. split; [lia |]. intros x [-> | Hx%Hall]%elem_of_cons; lia. }
  destruct (Hmin (af_starttime <$> corr) (af_starttime g)) as [Hle Hall].
  apply elem_of_cons in Hf as [-> | Hf]; [done |]. apply Hall. by apply list_elem_of_fmap_2.
Qed.

Lemma oldest_in corr z : oldest corr = Some z → ∃ f, f ∈ corr ∧ af_starttime f = z.
Proof.
  unfold oldest. destruct corr as [|g corr]; simpl; [done |]. intros [= <-].
  assert (∀ l a, foldr Z.min a l = a ∨ foldr Z.min a l ∈ l) as Hmin.
  { induction l as [|y l IH]; intros a; simpl; [by left |].
    destruct (IH a) as [-> | ?]; destruct (Z.min_spec y (foldr Z.min a l)) as [[_ E] | [_ E]];
      destruct (Z.min_spec y a) as [[_ E'] | [_ E']]; rw ?E ?E'; set_solver. }
  destruct (Hmin (af_starttime <$> corr) (af_starttime g)) as [E | Hin].
  - exists g. split; [left | by symmetry].
  - apply list_elem_of_fmap in Hin as (f & E & Hf). exists f. set_solver.
Qed.

Lemma quiet_request_repair d corr : quiet_run d (request_repair corr) (Ok ()) (repaired corr d).
Proof.
  unfold request_repair, repaired, oldest. destruct corr as [|f corr]; [apply quiet_ret |].
  eapply quiet_bind; [apply quiet_read_state |]. apply quiet_context, quiet_replace.
Qed.

Lemma listing_not_other d n :
  n ∈ [ACTIVE_FILENAME; STATE_FILENAME; WAL_FILENAME] → n ∉ path <$> listing d.
Proof.
  intros Hn (f & -> & [_ Hf]%listing_parse)%list_elem_of_fmap.
  rw (parse_archive_other _ Hn) in Hf. done.
Qed.

Definition journal_applied d (c : file) : dir :=
  repaired (fill_corrupted (listing d) (journal_tasks c) d)
    (<[WAL_FILENAME := []]> (fill (listing d) (journal_tasks c) d)).

Lemma quiet_apply_journal d c :
  d !! WAL_FILENAME = Some c → quiet_run d apply_journal (Ok ()) (journal_applied d c).
Proof.
  intros Hc. eapply quiet_bind; [by apply quiet_attempt, quiet_open |]. apply quiet_lines_bind.
  eapply quiet_bind; [apply quiet_merge_tasks, journal_tasks_sorted |].
  eapply quiet_bind.
  { apply quiet_context, (quiet_truncate _ _ c).
    rw fill_other //. apply listing_not_other. set_solver. }
  unfold journal_applied. destruct (fill_corrupted _ _ _) as [|f corr]; [apply quiet_ret |].
  apply quiet_request_repair.
Qed.

Lemma quiet_apply_journal_missing d :
  d !! WAL_FILENAME = None → quiet_run d apply_journal (Ok ()) d.
Proof.
  intros Hc. eapply quiet_bind; [by apply quiet_attempt, quiet_open_missing |]. apply quiet_ret.
Qed.
End apply.
