(* ===== verification/TaskView.v ===== *)
(** * What readers of the task cache see

    [view d] is what [get_tasks Archived] returns on a directory [d].  A well-formed archive
    keeps every task in the file of its time slice, strictly sorted; then the view is strictly
    sorted, is determined by the tasks on disk, and applying the journal does not change it,
    not even when it fails half way. *)
From S2P Require Import Prelude RustStr Remotes Disk TaskArchive TaskCache TaskMerge.

Section view.
Context `{UpidEnv} `{TaskJson} `{SteadyReads}.
Implicit Types (d : dir) (f g : ArchiveFile) (t : TaskCacheItem) (ts : list TaskCacheItem).

Definition archived d : list TaskCacheItem := concat (items_of d <$> listing d).
Definition view d : list TaskCacheItem := merge_iter (journal_of d) (archived d).

(** Archive files carry the names the program gives them. *)
Definition canonical d : Prop :=
  ∀ f, f ∈ listing_with_dupes d → path f = archive_path (af_starttime f) (compressed f).

Record archive_wf d : Prop := {
  wf_canonical : canonical d;
  wf_strict f : f ∈ listing d → task_strict (items_of d f);
  wf_target f t : f ∈ listing d → t ∈ items_of d f → target (listing d) t = Some f;
}.

(** One record per task: two records of one start time and UPID are the same. *)
Definition one_record ts : Prop :=
  ∀ a b, a ∈ ts → b ∈ ts → compare_tasks a b = Eq → a = b.
Definition all_tasks d : list TaskCacheItem := journal_of d ++ archived d.

Lemma elem_of_archived d t : t ∈ archived d ↔ ∃ f, f ∈ listing d ∧ t ∈ items_of d f.
Proof.
  apply elem_of_concat_fmap.
Qed.

Lemma elem_of_journal d t :
  t ∈ journal_of d ↔ ∃ c, d !! WAL_FILENAME = Some c ∧ t ∈ ok_items (archive_items c).
Proof.
  unfold journal_of. destruct (d !! WAL_FILENAME) as [c|].
  - rw elem_of_journal_tasks. naive_solver.
  - rw elem_of_nil. naive_solver.
Qed.

Lemma one_record_sub ts ts' : one_record ts → (∀ t, t ∈ ts' → t ∈ ts) → one_record ts'.
Proof. intros Hone Hsub a b Ha Hb. apply Hone; auto. Qed.

Lemma journal_strict d : one_record (journal_of d) → task_strict (journal_of d).
Proof.
  unfold journal_of. destruct (d !! WAL_FILENAME) as [c|]; [| constructor]. intros Hone.
  apply dedup_by_strict; [apply _ | | apply sort_by_sorted, _].
  intros a b Ha Hb E. rw bool_decide_eq_true. apply Hone; [.. | done]; by apply elem_of_dedup.
Qed.

(** A task of an older file is older than the newer file. *)
Lemma target_older files t f g :
  target files t = Some g → f ∈ files → (af_starttime g < af_starttime f)%Z →
  StronglySorted (λ f g, af_starttime g < af_starttime f)%Z files →
  (starttime t < af_starttime f)%Z.
Proof.
  intros Ht Hf Hlt Hs. unfold target, find_by in Ht.
  induction Hs as [|h files Hs IH Hh]; [done |]. simpl in Ht.
  destruct (Z.leb_spec (af_starttime h) (starttime t)) as [Hle | Hgt].
  - injection Ht as ->. apply elem_of_cons in Hf as [-> | Hf]; [lia |].
    rw Forall_forall in Hh. specialize (Hh f Hf). lia.
  - apply elem_of_cons in Hf as [-> | Hf]; [done | by apply IH].
Qed.

Lemma archived_strict d : archive_wf d → task_strict (archived d).
Proof.
  intros Hwf. eapply StronglySorted_concat; [apply listing_sorted | apply Hwf |].
  simpl. intros f g a b Hf Hg Hlt Ha Hb.
  assert (starttime b < starttime a)%Z as Hab.
  { apply (wf_target d Hwf) in Ha as [_ Ha]%target_Some; [| done].
    apply (wf_target d Hwf) in Hb; [| done].
    pose proof (target_older _ _ _ _ Hb Hf Hlt (listing_sorted d)). lia. }
  unfold cmp_lt, compare_tasks_reverse, compare_tasks. apply Z.compare_lt_iff in Hab.
  by rw Hab.
Qed.

Lemma elem_of_view d t :
  one_record (all_tasks d) → t ∈ view d ↔ t ∈ all_tasks d.
Proof.
  intros Hone. unfold view. rw elem_of_merge_iter; [| by unfold all_tasks; rw elem_of_app].
  intros a b Ha Hb. apply Hone; apply elem_of_app; auto.
Qed.

Lemma view_strict d : archive_wf d → one_record (all_tasks d) → task_strict (view d).
Proof.
  intros Hwf Hone. apply merge_iter_task_strict; [| by apply archived_strict].
  apply journal_strict. eapply one_record_sub; [done |]. unfold all_tasks. set_solver.
Qed.

(** The view is a function of the set of tasks on disk. *)
Lemma view_ext d d' :
  archive_wf d → archive_wf d' → one_record (all_tasks d) →
  (∀ t, t ∈ all_tasks d' ↔ t ∈ all_tasks d) → view d' = view d.
Proof.
  intros Hwf Hwf' Hone Heq.
  assert (one_record (all_tasks d')) as Hone' by (eapply one_record_sub; [done |]; apply Heq).
  apply (strict_sorted_unique compare_tasks_reverse); [by apply view_strict.. |].
  intros t. by rw !elem_of_view.
Qed.

(** ** Listings of related directories *)
Lemma canonical_strict d :
  canonical d → StronglySorted (cmp_lt compare_files) (listing_with_dupes d).
Proof.
  intros Hc. unfold listing_with_dupes. apply sort_by_strict; [apply _ | |].
  - pose proof (NoDup_fst_map_to_list d) as Hnd. revert Hnd.
    generalize (fst <$> map_to_list d). intros ns Hnd.
    induction Hnd as [|n ns Hn Hnd IH]; simpl; [constructor |].
    destruct (parse_archive_filename n) as [f|] eqn:E; [| done]. constructor; [| done].
    intros (n' & Hn' & E')%elem_of_filter_map.
    apply parse_archive_Some in E as [E _]. apply parse_archive_Some in E' as [E' _].
    congruence.
  - intros f g Hf Hg E. unfold compare_files in E.
    destruct (Z.compare_spec (af_starttime g) (af_starttime f)) as [Es | |]; [| done | done].
    assert (compressed f = compressed g) as Ec
      by (simpl in E; by destruct (compressed f), (compressed g)).
    assert (path f = path g) as Ep.
    { pose proof (Hc f) as Hpf. pose proof (Hc g) as Hpg. unfold listing_with_dupes in Hpf, Hpg.
      rw elem_of_sort_by in Hpf. rw elem_of_sort_by in Hpg.
      rw (Hpf Hf) (Hpg Hg) Es Ec. done. }
    destruct f, g; simpl in *; congruence.
Qed.

Lemma listing_ext d d' :
  canonical d →
  (∀ f, parse_archive_filename (path f) = Some f → on_disk d' f ↔ on_disk d f) →
  listing_with_dupes d' = listing_with_dupes d.
Proof.
  intros Hc Heq.
  assert (∀ f, f ∈ listing_with_dupes d' ↔ f ∈ listing_with_dupes d) as Hel.
  { intros f. rw !elem_of_listing_with_dupes. naive_solver. }
  apply (strict_sorted_unique compare_files); [| by apply canonical_strict | done].
  apply canonical_strict. intros f Hf. by apply Hc, Hel.
Qed.

Lemma listing_ext_dedup d d' :
  canonical d →
  (∀ f, parse_archive_filename (path f) = Some f → on_disk d' f ↔ on_disk d f) →
  listing d' = listing d ∧ canonical d'.
Proof.
  intros Hc Heq. unfold listing, canonical. by rw (listing_ext d d').
Qed.

(** Writing a file that is no archive file. *)
Lemma insert_other d n c f :
  parse_archive_filename n = None → parse_archive_filename (path f) = Some f →
  on_disk (<[n := c]> d) f ↔ on_disk d f.
Proof.
  intros Hn Hf. unfold on_disk. rw lookup_insert_ne //. intros ->. congruence.
Qed.
Lemma items_of_insert_other d n c f :
  parse_archive_filename n = None → parse_archive_filename (path f) = Some f →
  items_of (<[n := c]> d) f = items_of d f.
Proof.
  intros Hn Hf. unfold items_of, content. rw lookup_insert_ne //. intros ->. congruence.
Qed.

Lemma archived_insert_other d n c :
  parse_archive_filename n = None → canonical d →
  archived (<[n := c]> d) = archived d ∧ listing (<[n := c]> d) = listing d
  ∧ canonical (<[n := c]> d).
Proof.
  intros Hn Hc. destruct (listing_ext_dedup d (<[n := c]> d) Hc) as [El Hc'].
  { intros f Hf. by apply insert_other. }
  unfold archived. rw El. split; [| done]. f_equal. apply list_fmap_ext.
  intros i f Hf%list_elem_of_lookup_2. apply items_of_insert_other; [done |].
  by apply listing_parse in Hf as [_ ?].
Qed.
Lemma archive_wf_insert_other d n c :
  parse_archive_filename n = None → archive_wf d → archive_wf (<[n := c]> d).
Proof.
  intros Hn Hwf. destruct (archived_insert_other d n c Hn (wf_canonical d Hwf)) as (_ & El & Hc).
  split; [done | |]; rw El.
  - intros f Hf. rw items_of_insert_other //; [by apply listing_parse in Hf as [_ ?] |].
    by apply (wf_strict d).
  - intros f t Hf. rw items_of_insert_other //; [by apply listing_parse in Hf as [_ ?] |].
    by apply (wf_target d).
Qed.

(** The files that no reader of the archive looks at. *)
Lemma all_tasks_insert_other d n (c : file) :
  n = STATE_FILENAME ∨ n = ACTIVE_FILENAME → canonical d →
  all_tasks (<[n := c]> d) = all_tasks d.
Proof.
  intros Hn Hc. unfold all_tasks, journal_of.
  assert (parse_archive_filename n = None) as Hp by by destruct Hn as [-> | ->].
  destruct (archived_insert_other d n c Hp Hc) as (-> & _ & _).
  rw lookup_insert_ne //. by destruct Hn as [-> | ->].
Qed.

(** A reader sees the same tasks on [d'] as on [d]. *)
Record same_view d d' : Prop := {
  sv_wf : archive_wf d';
  sv_tasks t : t ∈ all_tasks d' ↔ t ∈ all_tasks d;
  sv_listing : listing d' = listing d;
}.

Lemma same_view_view d d' :
  archive_wf d → one_record (all_tasks d) → same_view d d' → view d' = view d.
Proof. intros Hwf Hone [Hwf' Ht _]. by apply view_ext. Qed.

Lemma same_view_other d d' n (c : file) :
  same_view d d' → n = STATE_FILENAME ∨ n = ACTIVE_FILENAME → same_view d (<[n := c]> d').
Proof.
  intros [Hwf Ht El] Hn.
  assert (parse_archive_filename n = None) as Hp by by destruct Hn as [-> | ->].
  destruct (archived_insert_other d' n c Hp (wf_canonical _ Hwf)) as (_ & El' & _).
  split; [by apply archive_wf_insert_other | | by rw El'].
  intros t. rw all_tasks_insert_other //. apply Hwf.
Qed.

(** The well-formedness predicates as checks. *)
Definition archive_wfb d : bool :=
  bool_decide (Forall (λ f, path f = archive_path (af_starttime f) (compressed f))
                 (listing_with_dupes d))
  && bool_decide (Forall (λ f, task_strict (items_of d f)
                      ∧ Forall (λ t, target (listing d) t = Some f) (items_of d f)) (listing d)).
Definition one_recordb ts : bool :=
  bool_decide (Forall (λ a, Forall (λ b, compare_tasks a b = Eq → a = b) ts) ts).

Lemma archive_wfb_spec d : archive_wfb d = true → archive_wf d.
Proof.
  unfold archive_wfb. rw andb_true_iff !bool_decide_eq_true !Forall_forall. intros [Hc Hf].
  split; [exact Hc | by intros f [? _]%Hf |]. intros f t [_ Ht]%Hf. rw Forall_forall in Ht. auto.
Qed.
Lemma one_recordb_spec ts : one_recordb ts = true → one_record ts.
Proof.
  unfold one_recordb. rw bool_decide_eq_true Forall_forall. intros Ha a b Hina Hinb.
  specialize (Ha a Hina). rw Forall_forall in Ha. auto.
Qed.

(** *** Reading the view *)
Lemma quiet_read_files d files :
  Forall (on_disk d) files →
  ∃ corr, quiet_run d (read_files files)
            (Ok (concat ((λ f, archive_items (content d f)) <$> files), corr)) d.
Proof.
  induction 1 as [|f files Hf Hfiles [corr IH]]; simpl.
  - exists []. apply quiet_ret.
  - eexists. eapply quiet_bind; [by apply quiet_attempt, quiet_file_iter |].
    eapply quiet_bind; [exact IH |]. apply quiet_ret.
Qed.

Lemma ok_items_concat d files :
  ok_items (concat ((λ f, archive_items (content d f)) <$> files))
  = concat (items_of d <$> files).
Proof.
  unfold items_of, ok_items. induction files as [|f files IH]; simpl; [done |].
  by rw filter_map_app IH.
Qed.

(** Reading the journal and some files of the directory. *)
Lemma quiet_iterate d files :
  Forall (on_disk d) files →
  ∃ corr, quiet_run d (iterate (Some WAL_FILENAME) (reverse files))
            (Ok (merge_iter (journal_of d) (concat (items_of d <$> files)), corr)) d.
Proof.
  intros Hf. destruct (quiet_read_files d files Hf) as [corr Hr]. exists corr.
  unfold iterate, journal_of. rw reverse_involutive -ok_items_concat.
  destruct (d !! WAL_FILENAME) as [c|] eqn:E.
  - eapply quiet_bind; [by apply quiet_attempt, quiet_open |]. apply quiet_lines_bind.
    eapply quiet_bind; [exact Hr |]. apply quiet_ret.
  - eapply quiet_bind; [by apply quiet_attempt, quiet_open_missing |].
    eapply quiet_bind; [exact Hr |]. rw merge_iter_nil_l. apply quiet_ret.
Qed.

Lemma quiet_get_archived d : quiet_run d (get_tasks Archived) (Ok (view d)) d.
Proof.
  destruct (quiet_iterate d (listing d) (on_disk_listing d)) as [corr Hr].
  eapply quiet_bind; [apply quiet_context; eapply quiet_bind; [apply quiet_archive_files |] |].
  - exact Hr.
  - apply quiet_ret.
Qed.
End view.
