(* ===== verification/TaskCrash.v ===== *)
(** * Applying the journal under I/O errors and crashes

    Each archive file is replaced atomically and the journal is truncated only after every
    merge succeeded, so at every point of [apply_journal] a reader sees the same tasks. *)
From S2P Require Import Prelude RustStr Remotes Disk TaskArchive TaskCache TaskMerge TaskView.

(** ** A single merge is atomic *)
Section single.
Context `{UpidEnv} `{TaskJson} `{SteadyReads}.
Implicit Types (d : dir) (f : ArchiveFile).

Lemma triple_writer d f E : E d → triple (λ d', d' = d) (writer f) (λ _ d', d' = d) E.
Proof.
  intros HE. eapply triple_bind; [by apply triple_syscall; intros ? -> |]. intros [].
  destruct (compressed f); [by apply triple_syscall; intros ? -> | by apply triple_ret].
Qed.

Lemma triple_commit d f c (E : dir → Prop) :
  E d → triple (λ d', d' = d) (commit f c) (λ _ d', d' = <[path f := c]> d) E.
Proof.
  intros HE.
  eapply triple_bind; [by apply triple_context, triple_syscall; intros ? -> |]. intros [].
  apply triple_context, triple_replace; by intros ? ->.
Qed.

Lemma triple_file_iter d f (E : dir → Prop) :
  E d →
  triple (λ d', d' = d) (file_iter f)
    (λ r d', d' = d ∧ (r = None ∨ r = Some (archive_items (content d f)) ∧ on_disk d f)) E.
Proof.
  intros HE. eapply triple_bind.
  { eapply triple_attempt, triple_conseq; [eapply (triple_open (λ d', d' = d) _ (λ d', d' = d)) | done | |].
    - done.
    - intros c d' Hc. exact (Hc : (λ r d', match r with
        | Ok c => d' !! path f = Some c ∧ d' = d | Err _ => d' = d end) (Ok c) d').
    - by intros d' ->. }
  intros [c | e]; simpl.
  - eapply triple_bind with (R := λ _ d', d' !! path f = Some c ∧ d' = d).
    + destruct (compressed f); [apply triple_context, triple_syscall | by apply triple_ret].
      by intros d' [_ ->].
    + intros []. apply triple_lines_bind, triple_ret. intros d' [Hc ->]. split; [done |]. right.
      unfold content, on_disk. by rw Hc.
  - destruct (kind e); [apply triple_ret | apply triple_fail]; intros d' ->; auto.
Qed.

Lemma triple_merge_single d f ts (E : dir → Prop) :
  E d →
  triple (λ d', d' = d) (merge_single_archive_file ts f) (λ _ d', d' = fill_one f ts d) E.
Proof.
  intros HE. destruct ts as [|t ts]; [by apply triple_ret |].
  eapply triple_bind; [by apply triple_writer |]. intros [].
  eapply triple_bind; [by apply triple_file_iter |]. intros [items|].
  - apply triple_pre. intros d' [-> [? | [[= ->] _]]]; [done |].
    eapply triple_bind; [by apply triple_commit |]. intros []. by apply triple_ret.
  - apply triple_fail. by intros d' [-> _].
Qed.

Lemma triple_archive_files d (E : dir → Prop) :
  E d → triple (λ d', d' = d) archive_files (λ l d', l = listing d ∧ d' = d) E.
Proof.
  intros HE. unfold archive_files, archive_files_with_dupes.
  eapply triple_bind with (R := λ l d', l = listing_with_dupes d ∧ d' = d).
  - eapply triple_bind; [by apply triple_read_dir; intros ? -> |].
    intros ns. apply triple_ret. by intros d' [-> ->].
  - intros l. apply triple_ret. by intros d' [-> ->].
Qed.
End single.

(** ** The walk *)
Section crash.
Context `{UpidEnv} `{TaskJsonLaws} `{SteadyReads}.
Context (d0 : dir).
Context (Hwf : archive_wf d0).
Context (Hone : one_record (all_tasks d0)).
Implicit Types (d : dir) (f g c : ArchiveFile) (t : TaskCacheItem) (ts D : list TaskCacheItem).

Local Abbreviation L := (listing d0).
Local Abbreviation J := (journal_of d0).

(** Every task has a file. *)
Context (Htarget : ∀ t, t ∈ J → is_Some (target L t)).

(** Some journal tasks have been merged, those of [D] at least. *)
Record partial D d : Prop := {
  part_other n : n ∉ path <$> L → d !! n = d0 !! n;
  part_disk f : f ∈ L → on_disk d f;
  part_strict f : f ∈ L → task_strict (items_of d f);
  part_old f t : f ∈ L → t ∈ items_of d0 f → t ∈ items_of d f;
  part_new f t : f ∈ L → t ∈ items_of d f →
    t ∈ items_of d0 f ∨ (t ∈ J ∧ target L t = Some f);
  part_done t : t ∈ D → ∃ f, target L t = Some f ∧ t ∈ items_of d f;
}.

Lemma partial_weaken D D' d : partial D d → (∀ t, t ∈ D' → t ∈ D) → partial D' d.
Proof. intros [] Hsub. split; auto. Qed.

Lemma partial_start : partial [] d0.
Proof.
  split; [done | | | auto | auto |].
  - intros f Hf. by apply listing_parse in Hf as [? _].
  - apply (wf_strict _ Hwf).
  - intros t Ht%not_elem_of_nil. done.
Qed.

Lemma items_of_fill_one f g ts d :
  items_of (fill_one f ts d) g
  = if decide (path g = path f) then merge_iter (items_of d f) ts else items_of d g.
Proof.
  destruct ts as [|t ts]; simpl.
  - case_decide as E; [| done]. by rw merge_iter_nil_r /items_of /content E.
  - unfold items_of at 1, content at 1. case_decide as E.
    + rw E lookup_insert_eq. simpl. by rw archive_items_write ok_items_Ok.
    + by rw lookup_insert_ne.
Qed.

Lemma partial_consistent f t t' d D :
  partial D d → f ∈ L → t ∈ items_of d f → t' ∈ J → compare_tasks t t' = Eq → t = t'.
Proof.
  intros Hp Hf Ht Ht'. apply Hone; apply elem_of_app; [| by left].
  destruct (part_new _ _ Hp f t Hf Ht) as [? | [? _]]; [right | by left].
  apply elem_of_archived. eauto.
Qed.

Lemma partial_fill_one c buf D d :
  partial D d → c ∈ L → task_strict buf → (∀ t, t ∈ buf → t ∈ J ∧ target L t = Some c) →
  partial (D ++ buf) (fill_one c buf d).
Proof.
  intros Hp Hc Hs Hbuf.
  assert (∀ f, f ∈ L → path f = path c → f = c) as Hpath by (intros; by apply (listing_path_inj d0)).
  assert (∀ t, t ∈ merge_iter (items_of d c) buf ↔ t ∈ items_of d c ∨ t ∈ buf) as Hel.
  { intros t. apply elem_of_merge_iter. intros a b Ha Hb.
    by apply (partial_consistent c a b d D); [.. | apply Hbuf]. }
  split.
  - intros n Hn. rw fill_one_other; [| by apply (part_other _ _ Hp)].
    intros ->. apply Hn. by apply list_elem_of_fmap_2.
  - intros f Hf. by apply on_disk_fill_one, (part_disk _ _ Hp).
  - intros f Hf. rw items_of_fill_one. case_decide as E.
    + apply merge_iter_task_strict; [by apply (part_strict _ _ Hp) | done].
    + by apply (part_strict _ _ Hp).
  - intros f t Hf Ht. rw items_of_fill_one. apply (part_old _ _ Hp) in Ht; [| done].
    case_decide as E; [| done]. apply Hel. left. by rw -(Hpath f).
  - intros f t Hf. rw items_of_fill_one. case_decide as E; [| by apply (part_new _ _ Hp)].
    rw (Hpath f Hf E) Hel. intros [Ht | Ht]; [by apply (part_new _ _ Hp) | by right; apply Hbuf].
  - intros t [Ht | Ht]%elem_of_app.
    + destruct (part_done _ _ Hp t Ht) as (f & Hf & Htf). exists f. split; [done |].
      rw items_of_fill_one. case_decide as E; [| done]. apply Hel. left.
      by rw -(Hpath f) //; apply target_Some in Hf as [? _].
    + exists c. split; [by apply Hbuf |]. rw items_of_fill_one decide_True // Hel. by right.
Qed.

Lemma triple_walk_single c buf D :
  c ∈ L → task_strict buf → (∀ t, t ∈ buf → t ∈ J ∧ target L t = Some c) →
  triple (partial D) (context "failed to merge archive file" (merge_single_archive_file buf c))
    (λ _, partial (D ++ buf)) (partial []).
Proof.
  intros Hc Hs Hbuf. apply triple_pre. intros d Hd. apply triple_context.
  eapply triple_conseq; [apply (triple_merge_single d c buf (partial [])) | done | |].
  - eapply partial_weaken; [done | set_solver].
  - intros _ d' ->. by apply partial_fill_one.
  - done.
Qed.

Lemma triple_ext {A} P (m m' : IO A) Q E :
  (∀ w, m w = m' w) → triple P m' Q E → triple P m Q E.
Proof. intros Heq Hm w Hw. rw Heq. by apply Hm. Qed.

Lemma task_strict_app_l ts ts' : task_strict (ts ++ ts') → task_strict ts.
Proof. apply StronglySorted_sublist, sublist_inserts_r. done. Qed.

Lemma walk_target pre c rest t :
  L = pre ++ c :: rest → (∀ g, g ∈ pre → starttime t < af_starttime g)%Z →
  (af_starttime c ≤ starttime t)%Z → target L t = Some c.
Proof.
  intros EL Hpre Hge. pose proof (listing_sorted d0) as Hs.
  apply target_newest; [done | rw EL; set_solver | done |].
  rw EL StronglySorted_app StronglySorted_cons Forall_forall in Hs. destruct Hs as (_ & _ & Hc & _).
  intros g Hg Hgt. rw EL elem_of_app elem_of_cons in Hg.
  destruct Hg as [Hg%Hpre | [-> | Hg%Hc]]; lia.
Qed.

Lemma strict_starttime t ts x : task_strict (t :: ts) → x ∈ t :: ts → (starttime x ≤ starttime t)%Z.
Proof.
  intros [Ht _]%StronglySorted_cons Hx. rw Forall_forall in Ht.
  apply elem_of_cons in Hx as [-> | Hx]; [done |]. apply compare_reverse_le.
  specialize (Ht x Hx). unfold cmp_lt in Ht. unfold cmp_le. by rw Ht.
Qed.

(** What the walk keeps: [pre] is finished, [buf] is waiting for [c], [ts] is to come. *)
Lemma triple_walk n : ∀ pre c rest buf corr ts D,
  length rest + length ts ≤ n →
  L = pre ++ c :: rest → task_strict (buf ++ ts) →
  (∀ t, t ∈ buf → t ∈ J ∧ target L t = Some c) →
  (∀ t, t ∈ ts → t ∈ J ∧ ∀ g, g ∈ pre → (starttime t < af_starttime g)%Z) →
  triple (partial D) (walk (Cursor (Some c) rest buf corr) ts)
    (λ _, partial (D ++ buf ++ ts)) (partial []).
Proof.
  induction n as [|n IH]; intros pre c rest buf corr [|t ts] D Hn EL Hs Hbuf Hts;
    simpl in Hn; try lia.
  1, 2: rw app_nil_r in Hs; rw app_nil_r;
    (apply (triple_ext _ _ (finish (Cursor (Some c) rest buf corr))); [done |]);
    (eapply triple_bind; [by apply triple_walk_single; [rw EL; set_solver | ..] |]);
    intros st; by apply triple_ret.
  destruct (Z.lt_ge_cases (starttime t) (af_starttime c)) as [Hlt | Hge].
  - destruct rest as [|g rest].
    { exfalso. destruct (Hts t) as [Ht Hpre]; [set_solver |].
      destruct (Htarget t Ht) as [f [Hf Hle]%target_Some].
      rw EL elem_of_app list_elem_of_singleton in Hf. destruct Hf as [Hf%Hpre | ->]; lia. }
    eapply triple_ext; [by intros w; apply walk_next |].
    eapply triple_bind.
    { apply triple_walk_single; [rw EL; set_solver | by apply (task_strict_app_l _ (t :: ts)) | done]. }
    intros st. simpl. rw app_assoc. apply (StronglySorted_sublist _ (t :: ts)) in Hs; [| by apply sublist_inserts_l].
    apply (IH (pre ++ [c]) g rest [] (note_corrupted st c corr) (t :: ts) (D ++ buf)); [| | done | |].
    + simpl in *. lia.
    + by rw -app_assoc.
    + set_solver.
    + intros x Hx. split; [by apply Hts |]. intros h [Hh | ->%list_elem_of_singleton]%elem_of_app.
      * by apply Hts.
      * pose proof (strict_starttime t ts x Hs Hx). lia.
  - eapply triple_ext; [by intros w; apply walk_take |].
    specialize (IH pre c rest (buf ++ [t]) corr ts D). rw -!app_assoc in IH. apply IH.
    + lia.
    + done.
    + done.
    + intros x [Hx | ->%list_elem_of_singleton]%elem_of_app; [by apply Hbuf |].
      destruct (Hts t) as [Ht Hpre]; [set_solver |]. split; [done |].
      by apply (walk_target pre c rest).
    + intros x Hx. apply Hts. set_solver.
Qed.
(** *** From the invariant to the view *)
Lemma partial_listing D d : partial D d → listing d = L ∧ canonical d.
Proof.
  intros Hp. apply listing_ext_dedup; [apply (wf_canonical _ Hwf) |]. intros f Hf.
  destruct (decide (path f ∈ path <$> L)) as [(g & E & Hg)%list_elem_of_fmap | Hn].
  - unfold on_disk. rw E. split; intros _; [by apply listing_parse in Hg as [? _] |].
    by apply (part_disk _ _ Hp).
  - unfold on_disk. by rw (part_other _ _ Hp).
Qed.

Lemma partial_wf D d : partial D d → archive_wf d.
Proof.
  intros Hp. destruct (partial_listing D d Hp) as [El Hc]. split; [done | |]; rw El.
  - apply (part_strict _ _ Hp).
  - intros f t Hf Ht. destruct (part_new _ _ Hp f t Hf Ht) as [? | [_ ?]]; [| done].
    by apply (wf_target _ Hwf).
Qed.

Lemma partial_journal D d : partial D d → journal_of d = J.
Proof.
  intros Hp. unfold journal_of. rw (part_other _ _ Hp) //.
  apply listing_not_other. set_solver.
Qed.

(** Whether the journal still holds the tasks or is empty after all of them were merged. *)
Lemma partial_tasks D d t :
  partial D d → (t ∈ J ∨ t ∈ archived d) ↔ t ∈ all_tasks d0.
Proof.
  intros Hp. destruct (partial_listing D d Hp) as [El _].
  unfold all_tasks. rw elem_of_app !elem_of_archived El. split.
  - intros [? | (f & Hf & Ht)]; [by left |].
    destruct (part_new _ _ Hp f t Hf Ht) as [? | [? _]]; [right; eauto | by left].
  - intros [? | (f & Hf & Ht)]; [by left | right; exists f]. split; [done |].
    by apply (part_old _ _ Hp).
Qed.

Lemma partial_done D d t : partial D d → t ∈ D → t ∈ archived d.
Proof.
  intros Hp Ht. destruct (part_done _ _ Hp t Ht) as (f & Hf & Hin).
  apply elem_of_archived. exists f. split; [| done].
  destruct (partial_listing D d Hp) as [-> _]. by apply target_Some in Hf as [? _].
Qed.

Lemma partial_same_view D d : partial D d → same_view d0 d.
Proof.
  intros Hp. split; [by eapply partial_wf | | by eapply partial_listing].
  intros t. rw -(partial_tasks D d t Hp). unfold all_tasks.
  by rw elem_of_app (partial_journal D d Hp).
Qed.

Lemma partial_truncated d :
  partial J d → same_view d0 (<[WAL_FILENAME := []]> d).
Proof.
  intros Hp. assert (parse_archive_filename WAL_FILENAME = None) as HW by done.
  destruct (partial_listing J d Hp) as [El Hc].
  destruct (archived_insert_other d WAL_FILENAME [] HW Hc) as (Ea & El' & Hc').
  split.
  - apply archive_wf_insert_other; [done |]. by eapply partial_wf.
  - intros t. unfold all_tasks at 1. rw Ea. unfold journal_of at 1. rw lookup_insert_eq.
    rw -(partial_tasks J d t Hp). simpl. split; [by right |].
    intros [Ht | ?]; [| done]. by eapply partial_done.
  - by rw El'.
Qed.

Lemma triple_merge_tasks :
  triple (λ d, d = d0) (merge_tasks_into_archive J) (λ _, partial J) (partial []).
Proof.
  eapply triple_bind; [by apply triple_context, triple_archive_files, partial_start |].
  intros files. apply triple_pre. intros d [-> ->].
  assert (L = [] ∨ ∃ c rest, L = c :: rest) as [EL | (c & rest & EL)]
    by (destruct L; eauto).
  - assert (J = []) as EJ.
    { pose proof Htarget as Ht. rw EL in Ht.
      destruct J as [|t ts]; [done |]. by destruct (Ht t (list_elem_of_here _ _)). }
    rw EL EJ. apply triple_ret. intros d ->. apply partial_start.
  - rw {1 2}EL. eapply triple_conseq; [apply (triple_walk (length rest + length J) [] c rest [] [] J []) | | |].
    + done.
    + by rw EL.
    + apply journal_strict. eapply one_record_sub; [done |]. unfold all_tasks. set_solver.
    + set_solver.
    + intros t Ht. split; [done | set_solver].
    + intros d ->. apply partial_start.
    + done.
    + done.
Qed.

(** The state a read returns: the one on disk, or the default if the read fails. *)
Lemma triple_read_state_of P (E : dir → Prop) :
  triple P read_state (λ s d, P d ∧ (s = state_of d ∨ s = default_state)) E.
Proof.
  intros w Hw. unfold read_state, attempt, fs_open, syscall, get_disk, mbind, IO_bind, state_of. simpl.
  destruct (faults w (tick w)); simpl; [by split; [| right] |].
  destruct (disk w !! STATE_FILENAME) as [c|] eqn:E'; simpl; rw ?E'; split; try done; by left.
Qed.

Lemma triple_read_state P (E : dir → Prop) :
  (∀ d, P d → E d) → triple P read_state (λ _, P) E.
Proof.
  intros HE. eapply triple_conseq; [apply (triple_read_state_of P E) | done | by intros s d [? _] | done].
Qed.

Lemma state_of_insert d s : state_of (<[STATE_FILENAME := state_to_json s]> d) = s.
Proof. unfold state_of. rw lookup_insert_eq. by rw state_json_roundtrip. Qed.
Lemma state_of_ext d d' : d' !! STATE_FILENAME = d !! STATE_FILENAME → state_of d' = state_of d.
Proof. unfold state_of. by intros ->. Qed.

(** Every cutoff of [s'] is at most the one of [s]. *)
Definition below (s s' : State) : Prop :=
  ∀ r n z, cutoff_timestamp s' r n = Some z → ∃ z0, cutoff_timestamp s r n = Some z0 ∧ (z ≤ z0)%Z.
Lemma below_refl s : below s s.
Proof. intros r n z Hz. eauto with lia. Qed.
Lemma below_trans s1 s2 s3 : below s1 s2 → below s2 s3 → below s1 s3.
Proof.
  intros H12 H23 r n z (z1 & Hz1 & Hle)%H23. destruct (H12 _ _ _ Hz1) as (z2 & Hz2 & Hle').
  exists z2. split; [done | lia].
Qed.
Lemma below_default s : below s default_state.
Proof. by intros r n z. Qed.
Lemma below_lower z s s' : below s s' → below s (lower_cutoffs z s').
Proof.
  intros Hb r n c. rw cutoff_lower. intros (c' & Hc' & ->)%fmap_Some. destruct (Hb _ _ _ Hc') as (z0 & Hz0 & Hle).
  exists z0. split; [done | lia].
Qed.

Lemma triple_request_repair corr (P : dir → Prop) :
  (∀ d s, P d → below (state_of d) s → P (<[STATE_FILENAME := state_to_json s]> d)) →
  triple P (request_repair corr) (λ _, P) P.
Proof.
  intros HP. destruct corr as [|f corr]; simpl; [by apply triple_ret |].
  eapply triple_bind; [apply triple_read_state_of |]. intros s. apply triple_context.
  apply triple_replace; [by intros d [? _] |]. intros d [Hd Hs]. apply HP; [done |]. apply below_lower.
  destruct Hs as [-> | ->]; [apply below_refl | apply below_default].
Qed.

(** What [apply_journal] leaves behind, wherever it stops. *)
Definition journal_safe d : Prop := same_view d0 d ∧ below (state_of d0) (state_of d).

Lemma partial_safe D d : partial D d → journal_safe d.
Proof.
  intros Hp. split; [by eapply partial_same_view |]. rw (state_of_ext d0 d); [| apply below_refl].
  apply (part_other _ _ Hp), listing_not_other. set_solver.
Qed.

Lemma truncated_safe d : partial J d → journal_safe (<[WAL_FILENAME := []]> d).
Proof.
  intros Hp. split; [by apply partial_truncated |]. destruct (partial_safe J d Hp) as [_ Hb].
  rw (state_of_ext d (<[WAL_FILENAME := []]> d)); [by rw lookup_insert_ne | done].
Qed.

Lemma triple_apply_journal :
  triple (λ d, d = d0) apply_journal
    (λ _ d, journal_safe d ∧ default [] (d !! WAL_FILENAME) = []) journal_safe.
Proof.
  assert (journal_safe d0) as Hv0 by by eapply partial_safe, partial_start.
  eapply triple_bind with (R := λ r d, d = d0 ∧ match r with
    | Ok c => d0 !! WAL_FILENAME = Some c | Err e => kind e = NotFound → d0 !! WAL_FILENAME = None end).
  { intros w Hw. unfold attempt, fs_open, syscall, get_disk, mbind, IO_bind. simpl.
    destruct (faults w (tick w)); simpl; [done |]. rw Hw.
    by destruct (d0 !! WAL_FILENAME). }
  intros [c | e]; simpl.
  - apply triple_pre. intros d [-> Hc].
    apply triple_lines_bind. assert (journal_tasks c = J) as -> by by unfold journal_of; rw Hc.
    eapply triple_bind.
    { eapply triple_conseq; [apply triple_merge_tasks | done | done |]. apply partial_safe. }
    intros corr. simpl.
    eapply triple_bind with (R := λ _ d, journal_safe d ∧ default [] (d !! WAL_FILENAME) = []).
    { apply triple_context, triple_truncate; [by intros d ?%partial_safe |].
      intros d Hp _. split; [by apply truncated_safe | by rw lookup_insert_eq]. }
    intros []. destruct corr as [|f corr]; [by apply triple_ret |].
    eapply triple_conseq; [apply triple_request_repair | by intros d Hd; exact Hd | done | by intros d [? _]].
    intros d s [[Hv Hb] Hj] Hs. split; [split |].
    + by apply same_view_other; [| left].
    + rw state_of_insert. by eapply below_trans.
    + by rw lookup_insert_ne.
  - destruct (kind e) eqn:E; [apply triple_ret | apply triple_fail]; intros d [-> He]; [| done].
    by rw He.
Qed.

Lemma empty_journal d : default [] (d !! WAL_FILENAME) = [] → journal_of d = [].
Proof. unfold journal_of. destruct (d !! WAL_FILENAME) as [c|]; [| done]. simpl. by intros ->. Qed.
End crash.
