(* ===== verification/TaskUpdate.v ===== *)
(** * Updating the task cache

    What [update] leaves in the journal, the active file and the state file, the cutoffs it
    computes, and what a failure at any file operation leaves behind. *)
From S2P Require Import Prelude RustStr Remotes Disk TaskArchive TaskCache TaskMerge TaskView TaskCrash.

(** ** The pure part *)
Section pure.
Context `{UpidEnv} `{TaskJson} `{SteadyReads}.
Implicit Types (t : TaskCacheItem) (ts : list TaskCacheItem) (s : State).

(** A task whose UPID parses is recorded under its remote and node. *)
Definition node_of t : option (string * string) :=
  match native_upid (upid t) with
  | Ok n => Some (ru_remote (upid t), cutoff_node (upid t) n)
  | Err _ => None
  end.
Definition recordable t : bool := is_ok (native_upid (upid t)).

Definition raise_cutoff (succ : NodeFetchSuccessMap) s t : State :=
  match node_of t with
  | Some (r, n) =>
      if node_successful succ r n
      then update_cutoff_timestamp s r n (λ e, Z.max (default 0 e) (starttime t))%Z
      else s
  | None => s
  end.
Definition lower_cutoff (succ : NodeFetchSuccessMap) s t : State :=
  match node_of t with
  | Some (r, n) =>
      if node_successful succ r n
      then update_cutoff_timestamp s r n (λ e, Z.min (default i64_max e) (starttime t))%Z
      else s
  | None => s
  end.

Lemma active_step_lower succ s t : active_step succ s t = lower_cutoff succ s t.
Proof. unfold active_step, lower_cutoff, node_of. by destruct (native_upid (upid t)). Qed.

Definition record_acc (succ : NodeFetchSuccessMap)
    (acc : gmap RemoteUpid TaskCacheItem * State) t : gmap RemoteUpid TaskCacheItem * State :=
  (delete (upid t) acc.1, raise_cutoff succ acc.2 t).

(** The active tasks [update] starts from and the finished ones it gets. *)
Definition active_after (active new_tasks : list TaskCacheItem) (drop : gset RemoteUpid)
    : gmap RemoteUpid TaskCacheItem :=
  foldl insert_task
    (foldl insert_task ∅ (base.filter (λ t, upid t ∉ drop) active))
    (base.filter (λ t, is_running t = true) new_tasks).
Definition finished ts : list TaskCacheItem := base.filter (λ t, is_running t = false) ts.
Definition recorded ts : list TaskCacheItem := base.filter (λ t, recordable t = true) ts.

Definition update_acc (d : dir) new_tasks succ drop : gmap RemoteUpid TaskCacheItem * State :=
  foldl (record_acc succ)
    (active_after (items_of d active_file) new_tasks drop,
     foldl remove_tracked_task (state_of d) (elements drop))
    (finished new_tasks).
Definition update_active d new_tasks succ drop : list TaskCacheItem :=
  sort_by compare_tasks_reverse (snd <$> map_to_list (update_acc d new_tasks succ drop).1).
Definition update_state d new_tasks succ drop : State :=
  let acc := update_acc d new_tasks succ drop in
  foldl (active_step succ) acc.2 (snd <$> map_to_list acc.1).

(** *** Cutoffs *)
Definition cutoff_le (succ : NodeFetchSuccessMap) s t : Prop :=
  ∀ r n, node_of t = Some (r, n) → node_successful succ r n = true →
    ∃ z, cutoff_timestamp s r n = Some z ∧ (z ≤ starttime t)%Z.

Lemma lower_cutoff_mono succ s t t' : cutoff_le succ s t → cutoff_le succ (lower_cutoff succ s t') t.
Proof.
  intros Hle r n Hn Hs. destruct (Hle r n Hn Hs) as (z & Hz & Hzt). unfold lower_cutoff.
  destruct (node_of t') as [[r' n']|]; [| eauto].
  destruct (node_successful succ r' n'); [| eauto].
  rw cutoff_update. case_decide as E; [| eauto]. destruct E as [-> ->].
  rw Hz. simpl. eexists. split; [done | lia].
Qed.

Lemma lower_cutoff_here succ s t : cutoff_le succ (lower_cutoff succ s t) t.
Proof.
  intros r n Hn Hs. unfold lower_cutoff. rw Hn Hs cutoff_update decide_True //.
  eexists. split; [done | lia].
Qed.

Lemma lower_cutoffs_le succ s ts t :
  t ∈ ts ∨ cutoff_le succ s t → cutoff_le succ (foldl (active_step succ) s ts) t.
Proof.
  revert s. induction ts as [|t' ts IH]; intros s Ht; simpl.
  - by destruct Ht as [?%not_elem_of_nil | ?].
  - apply IH. rw active_step_lower. rw elem_of_cons in Ht.
    destruct Ht as [[-> | ?] | ?]; [right; apply lower_cutoff_here | by left |].
    right. by apply lower_cutoff_mono.
Qed.

(** A node that was not fetched successfully keeps its cutoff. *)
Lemma raise_cutoff_other succ s t r n :
  node_successful succ r n = false →
  cutoff_timestamp (raise_cutoff succ s t) r n = cutoff_timestamp s r n.
Proof.
  intros Hs. unfold raise_cutoff. destruct (node_of t) as [[r' n']|]; [| done].
  destruct (node_successful succ r' n') eqn:E; [| done].
  rw cutoff_update decide_False //. intros [-> ->]. congruence.
Qed.
Lemma lower_cutoff_other succ s t r n :
  node_successful succ r n = false →
  cutoff_timestamp (lower_cutoff succ s t) r n = cutoff_timestamp s r n.
Proof.
  intros Hs. unfold lower_cutoff. destruct (node_of t) as [[r' n']|]; [| done].
  destruct (node_successful succ r' n') eqn:E; [| done].
  rw cutoff_update decide_False //. intros [-> ->]. congruence.
Qed.

Lemma record_acc_state succ acc ts :
  (foldl (record_acc succ) acc ts).2 = foldl (raise_cutoff succ) acc.2 ts.
Proof. revert acc. induction ts as [|t ts IH]; intros acc; simpl; [done | by rw IH]. Qed.

Lemma remove_tracked_fold s us :
  remote_state (foldl remove_tracked_task s us) = remote_state s
  ∧ tracked_tasks (foldl remove_tracked_task s us) = tracked_tasks s ∖ list_to_set us.
Proof.
  revert s. induction us as [|u us IH]; intros s; simpl; [split; [done | set_solver] |].
  destruct (IH (remove_tracked_task s u)) as [-> ->]. split; [done |]. simpl. set_solver.
Qed.

Lemma raise_fold_other succ s ts r n :
  node_successful succ r n = false →
  cutoff_timestamp (foldl (raise_cutoff succ) s ts) r n = cutoff_timestamp s r n.
Proof.
  intros Hs. revert s. induction ts as [|t ts IH]; intros s; simpl; [done |].
  rw IH. by apply raise_cutoff_other.
Qed.
Lemma lower_fold_other succ s ts r n :
  node_successful succ r n = false →
  cutoff_timestamp (foldl (active_step succ) s ts) r n = cutoff_timestamp s r n.
Proof.
  intros Hs. revert s. induction ts as [|t ts IH]; intros s; simpl; [done |].
  rw IH active_step_lower. by apply lower_cutoff_other.
Qed.
Lemma remove_tracked_cutoff s us r n :
  cutoff_timestamp (foldl remove_tracked_task s us) r n = cutoff_timestamp s r n.
Proof. unfold cutoff_timestamp. by destruct (remove_tracked_fold s us) as [-> _]. Qed.

Lemma update_state_unsuccessful d new_tasks succ drop r n :
  node_successful succ r n = false →
  cutoff_timestamp (update_state d new_tasks succ drop) r n = cutoff_timestamp (state_of d) r n.
Proof.
  intros Hs. unfold update_state. rw lower_fold_other //. unfold update_acc.
  by rw record_acc_state /= raise_fold_other // remove_tracked_cutoff.
Qed.

(** A cutoff never exceeds the old one and every finished task's start. *)
Lemma raise_cutoff_bound succ s ts r n b z :
  (∀ t, t ∈ ts → node_of t = Some (r, n) → starttime t ≤ b)%Z → (0 ≤ b)%Z →
  (∀ c, cutoff_timestamp s r n = Some c → c ≤ b)%Z →
  cutoff_timestamp (foldl (raise_cutoff succ) s ts) r n = Some z → (z ≤ b)%Z.
Proof.
  revert s. induction ts as [|t ts IH]; intros s Hts Hb Hs; simpl; [by apply Hs |].
  apply IH; [intros t' Ht'; apply Hts; by apply list_elem_of_further | done |].
  intros c. unfold raise_cutoff. specialize (Hts t (list_elem_of_here _ _)).
  destruct (node_of t) as [[r' n']|]; [| apply Hs].
  destruct (node_successful succ r' n'); [| apply Hs].
  rw cutoff_update. case_decide as E; [| apply Hs]. destruct E as [-> ->]. intros [= <-].
  specialize (Hts eq_refl). destruct (cutoff_timestamp s r n) as [c'|]; simpl; [| lia].
  specialize (Hs c' eq_refl). lia.
Qed.

Lemma update_active_cutoff d new_tasks succ drop t :
  t ∈ update_active d new_tasks succ drop →
  cutoff_le succ (update_state d new_tasks succ drop) t.
Proof.
  intros Ht. apply lower_cutoffs_le. left. by apply elem_of_sort_by in Ht.
Qed.

(** *** The active set *)
Lemma insert_task_fold m ts u :
  (foldl insert_task m ts) !! u = match find_by (λ t, bool_decide (upid t = u)) (reverse ts) with
                                  | Some t => Some t | None => m !! u end.
Proof.
  revert m. induction ts as [|t ts IH] using rev_ind; intros m; [done |].
  rw foldl_app reverse_app. simpl. unfold insert_task at 1.
  destruct (decide (upid t = u)) as [<- | Hne].
  - by rw lookup_insert_eq bool_decide_eq_true_2.
  - rw lookup_insert_ne // bool_decide_eq_false_2 //.
Qed.

Lemma record_acc_active succ acc ts u :
  (foldl (record_acc succ) acc ts).1 !! u
  = if bool_decide (u ∈ upid <$> ts) then None else acc.1 !! u.
Proof.
  revert acc. induction ts as [|t ts IH]; intros acc; simpl; [done |].
  rw IH. simpl. destruct (decide (u = upid t)) as [-> | Hne].
  - rw lookup_delete_eq. rw (bool_decide_eq_true_2 (upid t ∈ upid t :: _)); [set_solver |].
    by case_bool_decide.
  - rw lookup_delete_ne //. do 2 case_bool_decide; [done | set_solver | set_solver | done].
Qed.
End pure.

(** ** The journal *)
Section journal.
Context `{UpidEnv} `{TaskJsonLaws} `{SteadyReads}.
Context (succ : NodeFetchSuccessMap) (d : dir) (c : file).
Context (Hd : d !! WAL_FILENAME = Some c) (Hc : forallb is_text c = true).
Implicit Types (t : TaskCacheItem) (ts : list TaskCacheItem).

(** The directory after the lines of [ts] and [rest]. *)
Definition with_lines ts (rest : file) : dir :=
  <[WAL_FILENAME := c ++ write_tasks ts ++ rest]> d.

Lemma with_lines_nil : with_lines [] [] = d.
Proof. unfold with_lines. rw !app_nil_r. by apply insert_id. Qed.

Lemma text_lines ts : forallb is_text (c ++ write_tasks ts) = true.
Proof. rw forallb_app Hc. apply text_write. Qed.

Lemma appended_lines ts g :
  appended WAL_FILENAME (with_lines ts []) (c ++ write_tasks ts) g = with_lines ts g.
Proof. unfold appended, with_lines. rw insert_insert_eq. by rw app_assoc. Qed.

Lemma with_lines_lookup ts :
  with_lines ts [] !! WAL_FILENAME = Some (c ++ write_tasks ts).
Proof. unfold with_lines. by rw lookup_insert_eq app_nil_r. Qed.

Lemma with_lines_snoc ts t : with_lines ts [Text (task_to_json t)] = with_lines (ts ++ [t]) [].
Proof. unfold with_lines, write_tasks. by rw fmap_app app_nil_r. Qed.

Lemma journal_step_eq acc t :
  journal_step succ acc t =
  if recordable t
  then _ ← fs_write_line WAL_FILENAME (task_to_json t); mret (record_acc succ acc t)
  else mret (record_acc succ acc t).
Proof.
  unfold journal_step, recordable, record_acc, raise_cutoff, node_of.
  by destruct (native_upid (upid t)).
Qed.

Lemma recorded_cons t ts :
  recorded (t :: ts) = if recordable t then t :: recorded ts else recorded ts.
Proof.
  unfold recorded. rw filter_cons. by destruct (recordable t).
Qed.

Lemma quiet_journal_fold ts : ∀ acc done,
  quiet_run (with_lines done []) (fold_io (journal_step succ) acc ts)
    (Ok (foldl (record_acc succ) acc ts)) (with_lines (done ++ recorded ts) []).
Proof.
  induction ts as [|t ts IH]; intros acc dn; simpl; [rw app_nil_r; apply quiet_ret |].
  rw recorded_cons journal_step_eq. destruct (recordable t).
  - eapply quiet_bind; [eapply quiet_bind |].
    + apply quiet_write_line; [apply with_lines_lookup | apply text_closed, text_lines].
    + apply quiet_ret.
    + rw appended_lines with_lines_snoc. specialize (IH (record_acc succ acc t) (dn ++ [t])).
      by rw -app_assoc in IH.
  - eapply quiet_bind; [apply quiet_ret | apply IH].
Qed.

(** A failed append leaves the lines of the first tasks and a piece of the next line. *)
Lemma triple_journal_fold ts (E : dir → Prop) : ∀ acc dn,
  (∀ ts1 t ts2 p q, recorded ts = ts1 ++ t :: ts2 → task_to_json t = (p ++ q)%string →
     E (with_lines (dn ++ ts1) (torn p))) →
  triple (λ d', d' = with_lines dn []) (fold_io (journal_step succ) acc ts)
    (λ acc' d', acc' = foldl (record_acc succ) acc ts
                ∧ d' = with_lines (dn ++ recorded ts) []) E.
Proof.
  induction ts as [|t ts IH]; intros acc dn HE; simpl.
  { apply triple_ret. intros ? ->. by rw app_nil_r. }
  rw recorded_cons in HE. rw recorded_cons journal_step_eq. destruct (recordable t).
  - eapply triple_bind with (R := λ a d', a = record_acc succ acc t
                                          ∧ d' = with_lines (dn ++ [t]) []).
    + eapply triple_bind.
      * apply (triple_write_line WAL_FILENAME _ (c ++ write_tasks dn));
          [apply with_lines_lookup | apply text_closed, text_lines | |].
        { instantiate (1 := λ _ d', d' = with_lines (dn ++ [t]) []). simpl.
          by rw appended_lines with_lines_snoc. }
        intros p q Ep. rw appended_lines.
        specialize (HE [] t (recorded ts) p q eq_refl). rw app_nil_r in HE. by apply HE.
      * intros []. apply triple_ret. by intros ? ->.
    + intros a. apply triple_pre. intros d' [-> ->].
      specialize (IH (record_acc succ acc t) (dn ++ [t])). rw -app_assoc in IH. apply IH.
      intros ts1 t' ts2 p q Er Ep. rw -app_assoc. apply (HE (t :: ts1) t' ts2 p q); [| done].
      by rw Er.
  - eapply triple_bind with (R := λ a d', a = record_acc succ acc t ∧ d' = with_lines dn []).
    + apply triple_ret. by intros ? ->.
    + intros a. apply triple_pre. intros d' [-> ->]. by apply IH.
Qed.
End journal.

(** ** Running [update] *)
Section run.
Context `{UpidEnv} `{TaskJsonLaws} `{SteadyReads}.
Implicit Types (d : dir) (t : TaskCacheItem) (ts : list TaskCacheItem).

Lemma quiet_get_active d : quiet_run d (get_tasks Active) (Ok (items_of d active_file)) d.
Proof.
  eapply quiet_bind with (a := (items_of d active_file, _)); [apply quiet_context | apply quiet_ret].
  eapply quiet_bind with (a := (match d !! ACTIVE_FILENAME with
    | Some c => archive_items c | None => [] end, [])).
  - simpl. destruct (d !! ACTIVE_FILENAME) as [c|] eqn:E.
    + eapply quiet_bind; [apply quiet_attempt, quiet_file_iter; unfold on_disk; by rw E |].
      eapply quiet_bind; [apply quiet_ret |]. simpl. unfold corrupted_of, content. simpl.
      rw E app_nil_r. apply quiet_ret.
    + eapply quiet_bind; [apply quiet_attempt |].
      * eapply quiet_bind; [by apply quiet_attempt, quiet_open_missing |]. apply quiet_ret.
      * apply quiet_ret.
  - simpl. unfold items_of, content. simpl.
    destruct (d !! ACTIVE_FILENAME); apply quiet_ret.
Qed.

Definition open_journal d : dir := <[WAL_FILENAME := default [] (d !! WAL_FILENAME)]> d.

Lemma open_journal_lookup d :
  open_journal d !! WAL_FILENAME = Some (default [] (d !! WAL_FILENAME)).
Proof. by unfold open_journal; rw lookup_insert_eq. Qed.

Definition journal_text d : Prop :=
  forallb is_text (default [] (d !! WAL_FILENAME)) = true.

(** The directory after the three files were written. *)
Definition updated d new_tasks succ drop : dir :=
  <[STATE_FILENAME := state_to_json (update_state d new_tasks succ drop)]>
    (<[ACTIVE_FILENAME := write_tasks (update_active d new_tasks succ drop)]>
       (with_lines (open_journal d) (default [] (d !! WAL_FILENAME))
          (recorded (finished new_tasks)) [])).

Lemma quiet_update cache d new_tasks succ drop r d' :
  journal_text d →
  quiet_run (updated d new_tasks succ drop) (apply_journal_if_too_large cache) (Ok r) d' →
  quiet_run d (update cache new_tasks succ drop) (Ok r) d'.
Proof.
  intros Ht Hj. eapply quiet_bind; [apply quiet_context, quiet_get_active |].
  eapply quiet_bind; [apply quiet_read_state |]. eapply quiet_bind.
  { eapply quiet_bind; [apply quiet_open_append |]. fold (open_journal d).
    eapply quiet_bind.
    - rw -{1}(with_lines_nil (open_journal d) _ (open_journal_lookup d)).
      apply quiet_journal_fold. exact Ht.
    - eapply quiet_bind; [apply quiet_syscall | apply quiet_ret]. }
  eapply quiet_bind.
  { apply quiet_context. eapply quiet_bind; [apply quiet_writer |].
    apply quiet_context, quiet_commit. }
  eapply quiet_bind; [apply quiet_context, quiet_replace |].
  apply quiet_context. exact Hj.
Qed.
End run.

(** ** Failures *)
Section failures.
Context `{UpidEnv} `{TaskJsonLaws} `{SteadyReads}.
Context (d0 : dir).
Context (new_tasks : list TaskCacheItem).
Implicit Types (d : dir) (t : TaskCacheItem) (ts : list TaskCacheItem).

Local Abbreviation F := (recorded (finished new_tasks)).
Local Abbreviation L := (listing d0).
Local Abbreviation c0 := (default [] (d0 !! WAL_FILENAME)).

Context (Hwf : archive_wf d0).
Context (Htext : journal_text d0).
Context (Hone : one_record (all_tasks d0 ++ F)).
Context (Htarget : ∀ t, t ∈ journal_of d0 ++ F → is_Some (target L t)).

(** No task got lost, those of [T] are there, and nothing but new tasks was added. *)
Record grown (T : list TaskCacheItem) d : Prop := {
  gr_wf : archive_wf d;
  gr_listing : listing d = L;
  gr_old t : t ∈ all_tasks d0 → t ∈ all_tasks d;
  gr_new t : t ∈ T → t ∈ all_tasks d;
  gr_sub t : t ∈ all_tasks d → t ∈ all_tasks d0 ∨ t ∈ F;
}.

Lemma grown_weaken T T' d : grown T d → (∀ t, t ∈ T' → t ∈ T) → grown T' d.
Proof. intros [] Hsub. split; auto. Qed.

Lemma grown_one_record T d : grown T d → one_record (all_tasks d).
Proof.
  intros Hg. eapply one_record_sub; [exact Hone |]. intros t Ht%(gr_sub _ _ Hg).
  by apply elem_of_app.
Qed.

Lemma grown_view T d t : grown T d → t ∈ view d ↔ t ∈ all_tasks d.
Proof. intros Hg. by eapply elem_of_view, grown_one_record. Qed.

Lemma grown_start : grown [] d0.
Proof. split; [done | done | done | by intros t ?%not_elem_of_nil | by left]. Qed.

Lemma elem_of_all_tasks d t :
  t ∈ all_tasks d ↔ t ∈ ok_items (archive_items (default [] (d !! WAL_FILENAME))) ∨ t ∈ archived d.
Proof.
  unfold all_tasks, journal_of. rw elem_of_app. destruct (d !! WAL_FILENAME); simpl.
  - by rw elem_of_journal_tasks.
  - done.
Qed.

Lemma grown_lines ts g :
  (∀ t, t ∈ ts → t ∈ F) → (∀ t, t ∈ ok_items (archive_items g) → t ∈ F) →
  grown ts (with_lines (open_journal d0) c0 ts g).
Proof.
  intros Hts Hg. unfold with_lines, open_journal. rw insert_insert_eq.
  assert (∀ t, t ∈ ok_items (archive_items (c0 ++ write_tasks ts ++ g))
               ↔ t ∈ ok_items (archive_items c0) ∨ t ∈ ts ∨ t ∈ ok_items (archive_items g)) as Hel.
  { intros t. rw archive_items_text //. unfold ok_items. rw filter_map_app elem_of_app.
    rw archive_items_text; [apply text_write |].
    rw filter_map_app elem_of_app. fold (ok_items (archive_items (write_tasks ts))).
    by rw archive_items_write ok_items_Ok. }
  destruct (archived_insert_other d0 WAL_FILENAME (c0 ++ write_tasks ts ++ g) eq_refl
              (wf_canonical _ Hwf)) as (Ea & El & _).
  split; [by apply archive_wf_insert_other | done | ..]; intros t;
    rw ?elem_of_all_tasks lookup_insert_eq /= Ea Hel; naive_solver.
Qed.

Lemma grown_other T d n (c : file) :
  grown T d → n = STATE_FILENAME ∨ n = ACTIVE_FILENAME → grown T (<[n := c]> d).
Proof.
  intros [Hwf' El Ho Hn Hs] Hname.
  assert (parse_archive_filename n = None) as Hp by by destruct Hname as [-> | ->].
  destruct (archived_insert_other d n c Hp (wf_canonical _ Hwf')) as (_ & El' & _).
  split; [by apply archive_wf_insert_other | by rw El' | ..]; intros t;
    rw all_tasks_insert_other //; try apply Hwf'; auto.
Qed.

Lemma grown_same_view T d d' : grown T d → same_view d d' → grown T d'.
Proof.
  intros [Hwf' El Ho Hn Hs] [Hwf'' Ht El'].
  split; [done | by rw El' | ..]; intros t; rw Ht; auto.
Qed.

Lemma grown_target T d t : grown T d → t ∈ journal_of d → is_Some (target (listing d) t).
Proof.
  intros Hg Ht. rw (gr_listing _ _ Hg). assert (t ∈ all_tasks d) as Hall by (apply elem_of_app; by left).
  apply (gr_sub _ _ Hg) in Hall. unfold all_tasks in Hall. rw elem_of_app in Hall.
  destruct Hall as [[Hj | (f & Hf & Hin)%elem_of_archived] | HF].
  - apply Htarget, elem_of_app. by left.
  - by rw (wf_target _ Hwf f t Hf Hin).
  - apply Htarget, elem_of_app. by right.
Qed.

Context (succ : NodeFetchSuccessMap) (drop : gset RemoteUpid).

(** The state [update] computes when the reads gave the active tasks [act] and the state [s]. *)
Definition next_acc (act : list TaskCacheItem) (s : State) : gmap RemoteUpid TaskCacheItem * State :=
  foldl (record_acc succ)
    (active_after act new_tasks drop, foldl remove_tracked_task s (elements drop)) (finished new_tasks).
Definition next_state (act : list TaskCacheItem) (s : State) : State :=
  foldl (active_step succ) (next_acc act s).2 (snd <$> map_to_list (next_acc act s).1).
(** The cutoffs are at most those [update] computes. *)
Definition moved s' : Prop :=
  ∃ act s, (s = state_of d0 ∨ s = default_state) ∧ below (next_state act s) s'.

(** What holds wherever [update] stops: the cutoffs move only after the tasks are safe. *)
Definition safe d : Prop :=
  grown [] d ∧ (d !! STATE_FILENAME = d0 !! STATE_FILENAME ∨ grown F d ∧ moved (state_of d)).

Lemma safe_lines ts g :
  (∀ t, t ∈ ts → t ∈ F) → (∀ t, t ∈ ok_items (archive_items g) → t ∈ F) →
  safe (with_lines (open_journal d0) c0 ts g).
Proof.
  intros Hts Hg. split.
  - eapply grown_weaken; [by apply grown_lines |]. by intros t ?%not_elem_of_nil.
  - left. unfold with_lines, open_journal. rw insert_insert_eq. by rw lookup_insert_ne.
Qed.

Lemma triple_get_active (E : dir → Prop) d :
  E d → triple (λ d', d' = d) (get_tasks Active) (λ _ d', d' = d) E.
Proof.
  intros HE. eapply triple_bind with (R := λ _ d', d' = d); [apply triple_context |];
    [| intros r; by apply triple_ret].
  eapply triple_bind with (R := λ _ d', d' = d); [| intros r; by apply triple_ret].
  simpl. eapply triple_bind with (R := λ _ d', d' = d).
  - eapply triple_attempt, triple_conseq; [by apply (triple_file_iter d active_file (λ d', d' = d)) |..].
    + done.
    + by intros r d' [-> _].
    + by intros d' -> e.
  - intros [[items|]|e]; [| by apply triple_ret..].
    eapply triple_bind with (R := λ _ d', d' = d); [by apply triple_ret |].
    intros r. by apply triple_ret.
Qed.

Lemma triple_write_journal active state :
  triple (λ d, d = d0) (write_tasks_to_journal (finished new_tasks) active succ state)
    (λ acc d, d = with_lines (open_journal d0) c0 F []
              ∧ acc.2 = (let a := foldl (record_acc succ) (active, state) (finished new_tasks) in
                         foldl (active_step succ) a.2 (snd <$> map_to_list a.1))) safe.
Proof.
  assert (safe d0) as Hs0 by (split; [apply grown_start | by left]).
  assert (safe (with_lines (open_journal d0) c0 F [])) as Hs1
    by (apply safe_lines; [done | by intros t ?%not_elem_of_nil]).
  eapply triple_bind with (R := λ _ d, d = open_journal d0).
  { by apply triple_open_append; intros d ->. }
  intros []. eapply triple_bind with (R := λ acc d, d = with_lines (open_journal d0) c0 F []
    ∧ acc = foldl (record_acc succ) (active, state) (finished new_tasks)).
  { eapply triple_conseq;
      [apply (triple_journal_fold succ (open_journal d0) c0 Htext
                (finished new_tasks) safe (active, state) []) | | |].
    - simpl. intros ts1 t ts2 p q Er Ep. apply safe_lines.
      + intros x Hx. rw Er. set_solver.
      + intros x Hx. rw (ok_items_torn t p q x Ep Hx) Er. set_solver.
    - intros d ->. by rw (with_lines_nil (open_journal d0) c0 (open_journal_lookup d0)).
    - by intros acc d [-> ->].
    - done. }
  intros acc. eapply triple_bind; [by apply triple_syscall; intros d [-> _] |]. intros [].
  apply triple_ret. by intros d [-> ->].
Qed.

(** After the files are written: all tasks are there, the journal is text and the cutoffs have
    moved. *)
Definition complete d : Prop := grown F d ∧ moved (state_of d) ∧ journal_text d.

Lemma complete_safe d : complete d → safe d.
Proof.
  intros (Hg & Hm & _). split; [| by right]. eapply grown_weaken; [exact Hg |].
  by intros t ?%not_elem_of_nil.
Qed.

Lemma triple_apply_large cache :
  triple complete (apply_journal_if_too_large cache) (λ _, complete) safe.
Proof.
  eapply triple_bind; [apply triple_context, triple_size | intros size].
  { apply complete_safe. }
  destruct (journal_max_size cache <? size)%Z; [| by apply triple_ret].
  apply triple_pre. intros d (Hg & (act & s & Hs & Hb) & _).
  assert (∀ d', journal_safe d d' → grown F d' ∧ moved (state_of d')) as Hnext.
  { intros d' [Hsv Hb']. split; [by eapply grown_same_view |]. exists act, s. split; [done |].
    by eapply below_trans. }
  eapply triple_conseq; [apply (triple_apply_journal d) | done | |].
  - apply (gr_wf _ _ Hg).
  - by eapply grown_one_record.
  - intros t. by eapply grown_target.
  - intros [] d' [Hsv Hj]. destruct (Hnext d' Hsv). split_and!; [done.. |].
    unfold journal_text. by rw Hj.
  - intros d' Hsv. destruct (Hnext d' Hsv) as [Hg' Hm]. split; [| by right].
    eapply grown_weaken; [exact Hg' |]. by intros t ?%not_elem_of_nil.
Qed.

Lemma triple_update_files cache :
  triple (λ d, d = d0) (update cache new_tasks succ drop) (λ _, complete) safe.
Proof.
  assert (safe d0) as Hs0 by (split; [apply grown_start | by left]).
  set (d1 := with_lines (open_journal d0) c0 F []).
  assert (safe d1) as Hs1 by (apply safe_lines; [done | by intros t ?%not_elem_of_nil]).
  assert (grown F d1) as Hg1 by (apply grown_lines; [done | by intros t ?%not_elem_of_nil]).
  eapply triple_bind; [by apply triple_context, triple_get_active |]. intros active. simpl.
  eapply triple_bind; [apply triple_read_state_of |]. intros s. simpl.
  apply triple_pre. intros d [-> Hs].
  eapply triple_bind; [apply triple_write_journal |]. intros acc. simpl.
  apply triple_pre. intros d [-> Hacc]. fold d1.
  set (c := write_tasks (sort_by compare_tasks_reverse (snd <$> map_to_list acc.1))).
  assert (grown F (<[ACTIVE_FILENAME := c]> d1)) as Hg2 by by apply grown_other; [| right].
  eapply triple_bind with (R := λ _ d, d = <[ACTIVE_FILENAME := c]> d1).
  { apply triple_context. eapply triple_bind; [by apply triple_writer |]. intros [].
    eapply triple_conseq; [apply triple_context; by apply (triple_commit d1 _ _ safe) | done | by intros [] d -> | done]. }
  intros []. eapply triple_bind with (R := λ _, complete); [| intros []; by apply triple_context, triple_apply_large].
  apply triple_context, triple_replace; intros d ->.
  - split.
    + eapply grown_weaken; [exact Hg2 |]. by intros t ?%not_elem_of_nil.
    + left. unfold d1, with_lines, open_journal. by rw lookup_insert_ne // insert_insert_eq lookup_insert_ne.
  - split_and!; [by apply grown_other; [| left] | |].
    + rw state_of_insert Hacc. exists active, s. split; [done | apply below_refl].
    + unfold journal_text, d1, with_lines. rw lookup_insert_ne // lookup_insert_ne // lookup_insert_eq. simpl.
      by rw app_nil_r text_lines.
Qed.

Lemma triple_update cache :
  triple (λ d, d = d0) (update cache new_tasks succ drop) (λ _, grown F) safe.
Proof.
  eapply triple_conseq; [apply triple_update_files | done | by intros [] d [? _] | done].
Qed.
End failures.

(** ** Files after an update *)
Section after.
Context `{UpidEnv} `{TaskJsonLaws} `{SteadyReads}.
Implicit Types (d : dir) (t : TaskCacheItem) (ts : list TaskCacheItem) (s : State).

Lemma items_of_active d ts :
  items_of (<[ACTIVE_FILENAME := write_tasks ts]> d) active_file = ts.
Proof.
  unfold items_of, content. simpl. rw lookup_insert_eq. simpl. by rw archive_items_write ok_items_Ok.
Qed.

(** [s'] is [s] with cutoffs that may be lower. *)
Definition lowered s s' : Prop :=
  tracked_tasks s' = tracked_tasks s
  ∧ ∀ r n, cutoff_timestamp s' r n = cutoff_timestamp s r n
           ∨ ∃ c, cutoff_timestamp s' r n = (λ z, Z.min z c) <$> cutoff_timestamp s r n.

Lemma cutoff_le_lowered succ s s' t : lowered s s' → cutoff_le succ s t → cutoff_le succ s' t.
Proof.
  intros [_ Hl] Hle r n Hn Hs. destruct (Hle r n Hn Hs) as (z & Hz & Hzt).
  destruct (Hl r n) as [E | [c E]]; rw E Hz; simpl; eexists; split; [done | done | done | lia].
Qed.

Lemma journal_applied_other d c n :
  n ∉ path <$> listing d → n ≠ WAL_FILENAME → n ≠ STATE_FILENAME →
  journal_applied d c !! n = d !! n.
Proof.
  intros Hp Hw Hs. unfold journal_applied, repaired.
  assert (<[WAL_FILENAME := []]> (fill (listing d) (journal_tasks c) d) !! n = d !! n) as E.
  { rw lookup_insert_ne //. by apply fill_other. }
  destruct (oldest _); [by rw lookup_insert_ne | done].
Qed.

Lemma journal_applied_state d c : lowered (state_of d) (state_of (journal_applied d c)).
Proof.
  unfold journal_applied.
  assert (state_of (<[WAL_FILENAME := []]> (fill (listing d) (journal_tasks c) d)) = state_of d) as E.
  { apply state_of_ext. rw lookup_insert_ne //. apply fill_other, listing_not_other. set_solver. }
  unfold repaired. destruct (oldest _) as [z|].
  - rw state_of_insert E. split; [done |]. intros r n. right. exists z. apply cutoff_lower.
  - rw E. split; [done |]. by left.
Qed.

Lemma quiet_apply_if_large cache d c :
  d !! WAL_FILENAME = Some c →
  ∃ d', quiet_run d (apply_journal_if_too_large cache) (Ok ()) d'
        ∧ lowered (state_of d) (state_of d')
        ∧ d' !! ACTIVE_FILENAME = d !! ACTIVE_FILENAME.
Proof.
  intros Hc. unfold apply_journal_if_too_large.
  destruct (journal_max_size cache <? file_size c)%Z eqn:E.
  - exists (journal_applied d c). split_and!.
    + eapply quiet_bind; [by apply quiet_context, quiet_size |]. rw E. by apply quiet_apply_journal.
    + apply journal_applied_state.
    + apply journal_applied_other; [apply listing_not_other; set_solver | done | done].
  - exists d. split_and!; [| split; [done | by left] | done].
    eapply quiet_bind; [by apply quiet_context, quiet_size |]. rw E. apply quiet_ret.
Qed.

Lemma raise_tracked succ s ts :
  tracked_tasks (foldl (raise_cutoff succ) s ts) = tracked_tasks s.
Proof.
  revert s. induction ts as [|t ts IH]; intros s; simpl; [done |]. rw IH. unfold raise_cutoff.
  destruct (node_of t) as [[r n]|]; [| done]. by destruct (node_successful succ r n).
Qed.
Lemma lower_tracked succ s ts :
  tracked_tasks (foldl (active_step succ) s ts) = tracked_tasks s.
Proof.
  revert s. induction ts as [|t ts IH]; intros s; simpl; [done |]. rw IH active_step_lower.
  unfold lower_cutoff. destruct (node_of t) as [[r n]|]; [| done]. by destruct (node_successful succ r n).
Qed.
Lemma update_state_tracked d new_tasks succ drop :
  tracked_tasks (update_state d new_tasks succ drop) = tracked_tasks (state_of d) ∖ drop.
Proof.
  unfold update_state. rw lower_tracked. unfold update_acc. rw record_acc_state raise_tracked. simpl.
  destruct (remove_tracked_fold (state_of d) (elements drop)) as [_ ->].
  by rw list_to_set_elements_L.
Qed.

Lemma quiet_update_files cache d new_tasks succ drop :
  journal_text d →
  ∃ d', quiet_run d (update cache new_tasks succ drop) (Ok ()) d'
        ∧ lowered (update_state d new_tasks succ drop) (state_of d')
        ∧ items_of d' active_file = update_active d new_tasks succ drop.
Proof.
  intros Ht.
  destruct (quiet_apply_if_large cache (updated d new_tasks succ drop)
    (default [] (d !! WAL_FILENAME) ++ write_tasks (recorded (finished new_tasks)) ++ []))
    as (d' & Hq & Hl & Ha).
  { unfold updated, with_lines. by rw lookup_insert_ne // lookup_insert_ne // lookup_insert_eq. }
  exists d'. split_and!; [by eapply quiet_update | |].
  - by unfold updated in Hl; rw state_of_insert in Hl.
  - unfold items_of, content. simpl. rw Ha. unfold updated. rw lookup_insert_ne // lookup_insert_eq.
    simpl. by rw archive_items_write ok_items_Ok.
Qed.

(** *** Which tasks are active *)
Definition last_with (u : RemoteUpid) ts : option TaskCacheItem :=
  find_by (λ t, bool_decide (upid t = u)) (reverse ts).
Definition running ts : list TaskCacheItem := base.filter (λ t, is_running t = true) ts.

(** The task a UPID stands for in the new active file. *)
Definition active_task d new_tasks (drop : gset RemoteUpid) (u : RemoteUpid) : option TaskCacheItem :=
  if bool_decide (u ∈ upid <$> finished new_tasks) then None
  else match last_with u (running new_tasks) with
       | Some t => Some t
       | None => last_with u (base.filter (λ t, upid t ∉ drop) (items_of d active_file))
       end.

Lemma last_with_upid u ts t : last_with u ts = Some t → upid t = u ∧ t ∈ ts.
Proof.
  intros [Ht E]%find_by_Some. apply bool_decide_eq_true in E. by rw elem_of_reverse in Ht.
Qed.

Lemma update_acc_lookup d new_tasks succ drop u :
  (update_acc d new_tasks succ drop).1 !! u = active_task d new_tasks drop u.
Proof.
  unfold update_acc. rw record_acc_active. unfold active_task. case_bool_decide; [done |].
  simpl. unfold active_after, last_with, running. rw !insert_task_fold.
  destruct (find_by _ _); [done |]. by destruct (find_by _ _).
Qed.

Lemma elem_of_update_active d new_tasks succ drop t :
  t ∈ update_active d new_tasks succ drop ↔ active_task d new_tasks drop (upid t) = Some t.
Proof.
  unfold update_active. rw elem_of_sort_by list_elem_of_fmap. split.
  - intros ([u x] & -> & Hx%elem_of_map_to_list). simpl in *. rw update_acc_lookup in Hx.
    assert (upid x = u) as ->; [| done]. unfold active_task in Hx. case_bool_decide; [done |].
    destruct (last_with u (running new_tasks)) eqn:E.
    + injection Hx as <-. by apply last_with_upid in E as [? _].
    + by apply last_with_upid in Hx as [? _].
  - intros Ht. exists (upid t, t). split; [done |]. apply elem_of_map_to_list.
    by rw update_acc_lookup.
Qed.
End after.
