(* ===== verification/TaskRotate.v ===== *)
(** * Rotation and compression of archive files

    Which archive files exist after [rotate], and that a compression that fails at any file
    operation leaves the tasks a reader sees unchanged. *)
From S2P Require Import Prelude RustStr Remotes Disk TaskArchive TaskCache TaskMerge TaskView TaskCrash.

(** ** Listings with both versions of a file *)
Section listing.
Context `{UpidEnv} `{TaskJson} `{SteadyReads}.
Implicit Types (d : dir) (f g : ArchiveFile) (fs : list ArchiveFile).

(** A file the program can have created. *)
Definition proper f : Prop :=
  path f = archive_path (af_starttime f) (compressed f) ∧ in_i64 (af_starttime f) = true.

Lemma proper_parse f : proper f → parse_archive_filename (path f) = Some f.
Proof. intros [E Hi]. rw E parse_archive_path // -E. by destruct f. Qed.

Lemma proper_eq f g :
  proper f → proper g → af_starttime f = af_starttime g → compressed f = compressed g → f = g.
Proof.
  intros [Ef _] [Eg _] Es Ec. destruct f, g; simpl in *. by subst.
Qed.

Lemma proper_set_compressed f b : in_i64 (af_starttime f) = true → proper (set_compressed f b).
Proof. by split. Qed.

Lemma listed_proper d f : canonical d → f ∈ listing_with_dupes d → proper f.
Proof.
  intros Hc Hf. split; [by apply Hc |].
  apply elem_of_listing_with_dupes in Hf as [_ Hf]. by apply parse_archive_Some in Hf as [_ ?].
Qed.

Lemma elem_of_listed d f : proper f → f ∈ listing_with_dupes d ↔ on_disk d f.
Proof. intros Hf. rw elem_of_listing_with_dupes. pose proof (proper_parse f Hf). naive_solver. Qed.

(** Of two versions of a file the compressed one is read. *)
Lemma elem_of_listing d f :
  canonical d →
  f ∈ listing d ↔
  f ∈ listing_with_dupes d
  ∧ (compressed f = true ∨ set_compressed f true ∉ listing_with_dupes d).
Proof.
  intros Hc.
  assert (∀ y z, y ∈ listing d → z ∈ listing_with_dupes d → af_starttime z = af_starttime y →
            z = y ∨ cmp_lt compare_files y z) as Hfirst.
  { intros y z. unfold listing, dedup_by_key. apply dedup_by_first.
    - intros a b Hab Hba. apply cmp_lt_gt in Hba; [| apply _]. unfold cmp_lt in Hab. congruence.
    - intros a b. by rw bool_decide_eq_true.
    - unfold cmp_lt, compare_files. intros a b c.
      destruct (Z.compare_spec (af_starttime b) (af_starttime a)); simpl;
        destruct (Z.compare_spec (af_starttime c) (af_starttime b)); simpl; try done; lia.
    - by apply canonical_strict. }
  split.
  - intros Hf. assert (f ∈ listing_with_dupes d) as Hf'.
    { eapply sublist_subseteq; [apply listing_sublist | done]. }
    split; [done |]. destruct (compressed f) eqn:E; [by left | right]. intros Hn.
    destruct (Hfirst f _ Hf Hn eq_refl) as [E' | Hlt].
    + rw -E' in E. done.
    + unfold cmp_lt, compare_files in Hlt. simpl in Hlt. rw Z.compare_refl E in Hlt. done.
  - intros [Hf Hcomp].
    destruct (dedup_by_covers (λ x y, bool_decide (af_starttime x = af_starttime y))
                (listing_with_dupes d) f) as (g & Hg & E); [| | done |].
    + intros a b c. rw !bool_decide_eq_true. congruence.
    + intros a. by rw bool_decide_eq_true.
    + apply bool_decide_eq_true in E. change (g ∈ listing d) in Hg.
      destruct (Hfirst g f Hg Hf E) as [-> | Hlt]; [done |].
      unfold cmp_lt, compare_files in Hlt. rw E Z.compare_refl in Hlt. simpl in Hlt.
      destruct (compressed f) eqn:Ef, (compressed g) eqn:Eg; try done.
      destruct Hcomp as [? | []]; [done |].
      assert (g = set_compressed f true) as <-; [| by eapply sublist_subseteq; [apply listing_sublist |]].
      assert (g ∈ listing_with_dupes d) as Hg' by (eapply sublist_subseteq; [apply listing_sublist | done]).
      pose proof (listed_proper d g Hc Hg'). pose proof (listed_proper d f Hc Hf) as [_ Hi].
      apply proper_eq; [done | by apply proper_set_compressed | by rw -E | done].
Qed.

(** A listing is determined by its elements. *)
Lemma listing_unique d fs :
  StronglySorted (λ f g, af_starttime g < af_starttime f)%Z fs →
  (∀ f, f ∈ fs ↔ f ∈ listing d) → listing d = fs.
Proof.
  intros Hs Hel. set (cmp := λ f g : ArchiveFile, (af_starttime g ?= af_starttime f)%Z).
  assert (CmpOrder cmp) as Hcmp.
  { apply (cmp_pullback af_starttime (cmp_rev Z.compare)), cmp_rev_order, _. }
  apply (strict_sorted_unique cmp).
  - eapply StronglySorted_impl, listing_sorted. intros f g ?. by apply Z.compare_lt_iff.
  - eapply StronglySorted_impl, Hs. intros f g ?. by apply Z.compare_lt_iff.
  - intros f. by rw Hel.
Qed.

Lemma listing_start_inj d f g :
  f ∈ listing d → g ∈ listing d → af_starttime f = af_starttime g → f = g.
Proof.
  pose proof (listing_sorted d) as Hs. revert Hs. generalize (listing d). intros fs Hs.
  induction Hs as [|h fs Hs IH Hh]; [by intros ?%not_elem_of_nil |].
  rw Forall_forall in Hh.
  intros [-> | Hf]%elem_of_cons [-> | Hg]%elem_of_cons E; [done | | | by apply IH].
  - specialize (Hh g Hg). lia.
  - specialize (Hh f Hf). lia.
Qed.
End listing.

(** ** Compression *)
Section compress.
Context `{UpidEnv} `{TaskJsonLaws} `{SteadyReads}.
Context (d : dir) (f : ArchiveFile).
Context (Hcan : canonical d) (Hf : f ∈ listing d) (Hu : compressed f = false).
Implicit Types (g : ArchiveFile).

Local Abbreviation nf := (set_compressed f true).

Definition compressed_added : dir := <[path nf := write_tasks (items_of d f)]> d.
Definition compressed_done : dir := delete (path f) compressed_added.

Lemma compress_listed : f ∈ listing_with_dupes d.
Proof. eapply sublist_subseteq; [apply listing_sublist | done]. Qed.
Lemma compress_proper : proper f.
Proof. apply (listed_proper d); [done | apply compress_listed]. Qed.
Lemma compress_proper_new : proper nf.
Proof. apply proper_set_compressed, compress_proper. Qed.
Lemma compress_new_missing : ¬ on_disk d nf.
Proof.
  rw -elem_of_listed; [apply compress_proper_new |].
  apply elem_of_listing in Hf as [_ [? | ?]]; [congruence | done | done].
Qed.
Lemma compress_path_ne : path nf ≠ path f.
Proof.
  destruct compress_proper as [-> _]. simpl. intros [_ E]%archive_path_inj. congruence.
Qed.

(** The new file takes the place of the old one. *)
Definition replaced g : ArchiveFile := if decide (g = f) then nf else g.

Lemma path_proper_inj g g' : proper g → proper g' → path g = path g' → g = g'.
Proof.
  intros Hg Hg' E. apply proper_parse in Hg, Hg'. rw E in Hg. congruence.
Qed.

Section after.
Context (d' : dir) (Hd' : d' = compressed_added ∨ d' = compressed_done).

Lemma after_disk g : proper g →
  on_disk d' g ↔ g = nf ∨ (on_disk d g ∧ (g ≠ f ∨ d' = compressed_added)).
Proof.
  intros Hg. unfold on_disk, compressed_done, compressed_added in *.
  pose proof compress_path_ne as Hne. pose proof compress_proper as Hpf.
  pose proof compress_proper_new as Hpn.
  destruct (decide (g = nf)) as [-> | Hgn].
  { split; [by left |]. intros _. destruct Hd' as [-> | ->].
    - by rw lookup_insert_eq.
    - by rw lookup_delete_ne // lookup_insert_eq. }
  assert (path nf ≠ path g) as Hp by (intros E; by apply Hgn, path_proper_inj).
  destruct (decide (g = f)) as [-> | Hgf].
  - destruct Hd' as [-> | ->].
    + rw lookup_insert_ne //. naive_solver.
    + rw lookup_delete_eq. split; [by intros [] |].
      intros [? | [_ [? | E]]]; [done | done |].
      apply (f_equal (lookup (path f))) in E. rw lookup_delete_eq lookup_insert_ne // in E.
      pose proof compress_listed as [[c Hc] _]%elem_of_listing_with_dupes. congruence.
  - assert (path f ≠ path g) as Hp' by (intros E; by apply Hgf, path_proper_inj).
    destruct Hd' as [-> | ->].
    + rw lookup_insert_ne //. naive_solver.
    + rw lookup_delete_ne // lookup_insert_ne //. naive_solver.
Qed.

Lemma after_canonical : canonical d'.
Proof.
  intros g Hg. apply elem_of_listing_with_dupes in Hg as [Hg Hp].
  destruct (decide (path g = path nf)) as [E | Hne].
  { pose proof (proper_parse _ compress_proper_new) as Hn. rw E in Hp.
    assert (g = nf) as -> by congruence. apply compress_proper_new. }
  apply Hcan. apply elem_of_listing_with_dupes. split; [| done].
  unfold on_disk, compressed_done, compressed_added in *. destruct Hd' as [-> | ->].
  - by rw lookup_insert_ne in Hg.
  - destruct (decide (path f = path g)) as [E | Hne']; [by rw E lookup_delete_eq in Hg; destruct Hg |].
    rw lookup_delete_ne // in Hg. by rw lookup_insert_ne in Hg.
Qed.

Lemma after_listed g : proper g → g ∈ listing_with_dupes d' ↔
  g = nf ∨ (g ∈ listing_with_dupes d ∧ (g ≠ f ∨ d' = compressed_added)).
Proof. intros Hg. rw !elem_of_listed //. by apply after_disk. Qed.

Lemma after_listing : listing d' = replaced <$> listing d.
Proof.
  apply listing_unique.
  { pose proof (listing_sorted d) as Hs. revert Hs. apply StronglySorted_fmap.
    intros g g'. unfold replaced. repeat case_decide; subst; done. }
  intros g. rw (elem_of_listing d'); [apply after_canonical |]. rw list_elem_of_fmap. split.
  - intros (g' & -> & Hg'). unfold replaced. case_decide as E.
    + rw after_listed; [apply compress_proper_new |]. split; [by left | by left].
    + pose proof Hg' as [Hl Ht]%elem_of_listing; [| done].
      pose proof (listed_proper d g' Hcan Hl) as Hp. rw after_listed //.
      split; [by right; split; [| left] |]. destruct Ht as [? | Ht]; [by left | right].
      rw after_listed; [apply proper_set_compressed, Hp |]. intros [En | [? _]]; [| done].
      apply E, (listing_start_inj d); [done | done |].
      by apply (f_equal af_starttime) in En.
  - intros [Hl Ht]. pose proof (listed_proper d' g after_canonical Hl) as Hp.
    apply after_listed in Hl as [-> | [Hl Hne]]; [| | done].
    { exists f. unfold replaced. by rw decide_True. }
    destruct (decide (g = f)) as [-> | Hgf].
    { exfalso. destruct Ht as [? | Ht]; [congruence |]. apply Ht, after_listed; [| by left].
      apply compress_proper_new. }
    exists g. unfold replaced. rw decide_False //. split; [done |].
    apply elem_of_listing; [done |]. split; [done |].
    destruct Ht as [? | Ht]; [by left | right]. intros Hin. apply Ht, after_listed.
    + apply proper_set_compressed, Hp.
    + right. split; [done |]. left. intros E%(f_equal compressed). simpl in E. congruence.
Qed.

Lemma after_items g : g ∈ listing d → items_of d' (replaced g) = items_of d g.
Proof.
  intros Hg. unfold replaced. case_decide as E.
  - subst g. assert (d' !! path nf = Some (write_tasks (items_of d f))) as En.
    { unfold compressed_done, compressed_added in Hd'.
      destruct Hd' as [-> | ->]; [by rw lookup_insert_eq |].
      rw lookup_delete_ne; [by intros E; apply compress_path_ne | by rw lookup_insert_eq]. }
    unfold items_of at 1, content. rw En. simpl. by rw archive_items_write ok_items_Ok.
  - assert (proper g) as Hp.
    { apply (listed_proper d); [done |]. by apply elem_of_listing in Hg as [? _]. }
    assert (path nf ≠ path g) as Hn.
    { intros Ep. apply path_proper_inj in Ep; [| apply compress_proper_new | done].
      apply compress_new_missing. rw Ep. by apply listing_parse in Hg as [? _]. }
    assert (path f ≠ path g) as Hn'.
    { intros Ep. apply path_proper_inj in Ep; [done | apply compress_proper | done]. }
    unfold items_of, content, compressed_done, compressed_added in *.
    destruct Hd' as [-> | ->]; rw ?(lookup_delete_ne _ _ _ Hn') lookup_insert_ne //.
Qed.

Lemma after_view : view d' = view d.
Proof.
  unfold view, archived. rw after_listing -list_fmap_compose.
  assert (journal_of d' = journal_of d) as ->.
  { unfold journal_of, compressed_done, compressed_added in *.
    assert (path nf ≠ WAL_FILENAME) as Hn by (apply archive_path_other; set_solver).
    assert (path f ≠ WAL_FILENAME) as Hn'.
    { destruct compress_proper as [-> _]. apply archive_path_other. set_solver. }
    destruct Hd' as [-> | ->]; rw ?(lookup_delete_ne _ _ _ Hn') lookup_insert_ne //. }
  f_equal. f_equal. apply list_fmap_ext. intros i g Hg%list_elem_of_lookup_2.
  by apply after_items.
Qed.
End after.

Lemma quiet_compress :
  quiet_run d (compress_archive_file f)
    (Ok (items_state (archive_items (content d f)))) compressed_done.
Proof.
  pose proof Hf as [Hd _]%listing_parse.
  eapply quiet_bind; [by apply quiet_file_iter |]. simpl.
  eapply quiet_bind; [apply quiet_writer |]. eapply quiet_bind; [apply quiet_commit |].
  eapply quiet_bind; [apply quiet_context |].
  - destruct Hd as [c Hc]. apply (quiet_remove _ _ c).
    rw lookup_insert_ne //. apply compress_path_ne.
  - apply quiet_ret.
Qed.

Lemma triple_compress :
  triple (λ d', d' = d) (compress_archive_file f)
    (λ _ d', d' = compressed_done) (λ d', d' = d ∨ d' = compressed_added).
Proof.
  eapply triple_bind; [apply triple_file_iter; by left |]. intros [items|].
  - apply triple_pre. intros d' [-> [? | [[= ->] _]]]; [done |].
    eapply triple_bind; [apply triple_writer; by left |]. intros [].
    eapply triple_bind; [apply triple_commit; by left |]. intros []. simpl.
    eapply triple_bind; [apply triple_context, triple_remove |].
    + intros d' ->. by right.
    + intros d' -> _. exact (eq_refl : (λ _ d', d' = compressed_done) () _).
    + intros []. by apply triple_ret.
  - apply triple_fail. intros d' [-> _]. by left.
Qed.
End compress.

(** ** Directories without duplicates *)
Section tidy.
Context `{UpidEnv} `{TaskJsonLaws} `{SteadyReads}.
Implicit Types (d : dir) (f g : ArchiveFile) (fs : list ArchiveFile).

Local Abbreviation descending := (StronglySorted (λ f g, af_starttime g < af_starttime f)%Z).

(** The archive files of [d] are exactly [fs], newest first, one per start time. *)
Record tidy d fs : Prop := {
  tidy_sorted : descending fs;
  tidy_proper f : f ∈ fs → proper f;
  tidy_disk f : f ∈ fs ↔ on_disk d f ∧ parse_archive_filename (path f) = Some f;
}.

Lemma tidy_canonical d fs : tidy d fs → canonical d.
Proof.
  intros Ht f Hf%elem_of_listing_with_dupes. by apply (tidy_disk _ _ Ht), (tidy_proper _ _ Ht) in Hf as [? _].
Qed.

Lemma tidy_with_dupes d fs : tidy d fs → listing_with_dupes d = fs.
Proof.
  intros Ht. apply (strict_sorted_unique compare_files).
  - by eapply canonical_strict, tidy_canonical.
  - eapply StronglySorted_impl, (tidy_sorted _ _ Ht). intros f g Hfg.
    unfold cmp_lt, compare_files. apply Z.compare_lt_iff in Hfg. by rw Hfg.
  - intros f. by rw elem_of_listing_with_dupes (tidy_disk _ _ Ht).
Qed.

Lemma dedup_key_id fs : descending fs → dedup_by_key af_starttime fs = fs.
Proof.
  unfold dedup_by_key. destruct 1 as [|f fs Hs Hf]; [done |]. simpl. f_equal.
  revert f Hf. induction Hs as [|g fs Hs IH Hg]; intros f Hf; simpl; [done |].
  apply Forall_cons in Hf as [Hfg Hf]. rw bool_decide_eq_false_2; [lia |]. by rw IH.
Qed.

Lemma tidy_listing d fs : tidy d fs → listing d = fs.
Proof.
  intros Ht. unfold listing. rw (tidy_with_dupes d fs Ht). apply dedup_key_id, (tidy_sorted _ _ Ht).
Qed.

Lemma tidy_path_inj d fs f g : tidy d fs → f ∈ fs → g ∈ fs → path f = path g → f = g.
Proof. intros Ht Hf Hg. apply (listing_path_inj d); by rw (tidy_listing d fs Ht). Qed.

Lemma tidy_same_files d d' fs :
  tidy d fs → (∀ f, parse_archive_filename (path f) = Some f → on_disk d' f ↔ on_disk d f) →
  tidy d' fs.
Proof.
  intros Ht Heq. split; [apply Ht | apply Ht |]. intros f. rw (tidy_disk _ _ Ht). naive_solver.
Qed.

Lemma tidy_insert_other d fs n c :
  tidy d fs → parse_archive_filename n = None → tidy (<[n := c]> d) fs.
Proof. intros Ht Hn. eapply tidy_same_files; [done |]. intros f Hf. by apply insert_other. Qed.

(** Removing the oldest file, and adding a newer one. *)
Lemma tidy_delete d fs f : tidy d (fs ++ [f]) → tidy (delete (path f) d) fs.
Proof.
  intros Ht. pose proof (tidy_sorted _ _ Ht) as Hs. apply StronglySorted_app in Hs as (Hlt & Hs & _).
  split; [done | intros g Hg; apply (tidy_proper _ _ Ht); set_solver |].
  intros g. split.
  - intros Hg. destruct (proj1 (tidy_disk _ _ Ht g)) as [Hd Hp]; [set_solver |].
    split; [| done]. unfold on_disk. rw lookup_delete_ne //. intros E.
    apply (tidy_path_inj d _ _ _ Ht) in E; [| set_solver | set_solver]. subst g.
    specialize (Hlt f f Hg (list_elem_of_here _ _)). lia.
  - intros [[c Hd] Hp]. apply lookup_delete_Some in Hd as [Hne Hd].
    assert (g ∈ fs ++ [f]) as Hg by (apply (tidy_disk _ _ Ht); split; [by exists c | done]).
    apply elem_of_app in Hg as [? | ->%list_elem_of_singleton]; done.
Qed.

Lemma tidy_insert_at d fs fs' f c :
  tidy d fs → proper f → descending fs' → (∀ g, g ∈ fs' ↔ g = f ∨ g ∈ fs) →
  tidy (<[path f := c]> d) fs'.
Proof.
  intros Ht Hf Hs Hel. split; [done | |].
  - intros g [-> | Hg]%Hel; [done | by apply (tidy_proper _ _ Ht)].
  - intros g. rw Hel. unfold on_disk. split.
    + intros [-> | Hg]; [rw lookup_insert_eq; split; [done | by apply proper_parse] |].
      apply (tidy_disk _ _ Ht) in Hg as [Hd Hp]. split; [| done].
      destruct (decide (path f = path g)) as [-> | Hne];
        [by rw lookup_insert_eq | by rw lookup_insert_ne].
    + intros [Hd Hp]. destruct (decide (path f = path g)) as [E | Hne].
      * left. apply proper_parse in Hf. congruence.
      * right. rw lookup_insert_ne // in Hd. by apply (tidy_disk _ _ Ht).
Qed.

Lemma tidy_insert d fs f c :
  tidy d fs → proper f → (∀ g, g ∈ fs → af_starttime g < af_starttime f)%Z →
  tidy (<[path f := c]> d) (f :: fs).
Proof.
  intros Ht Hf Hnew. apply (tidy_insert_at d fs); [done | done | | by intros g; rw elem_of_cons].
  constructor; [apply Ht | by apply Forall_forall].
Qed.

Lemma tidy_snoc d fs f c :
  tidy d fs → proper f → (∀ g, g ∈ fs → af_starttime f < af_starttime g)%Z →
  tidy (<[path f := c]> d) (fs ++ [f]).
Proof.
  intros Ht Hf Hold. apply (tidy_insert_at d fs); [done | done | | set_solver].
  apply StronglySorted_app. split_and!; [| apply Ht | by repeat constructor].
  intros g h Hg ->%list_elem_of_singleton. by apply Hold.
Qed.

Lemma tidy_items_delete d fs f :
  tidy d (fs ++ [f]) → items_of (delete (path f) d) <$> fs = items_of d <$> fs.
Proof.
  intros Ht. pose proof (tidy_sorted _ _ Ht) as Hs. apply StronglySorted_app in Hs as (Hlt & _ & _).
  apply list_fmap_ext. intros i g Hg%list_elem_of_lookup_2. unfold items_of, content.
  rw lookup_delete_ne //. intros E.
  apply (tidy_path_inj d _ _ _ Ht) in E; [| set_solver | set_solver]. subst g.
  specialize (Hlt f f Hg (list_elem_of_here _ _)). lia.
Qed.

(** *** Deleting the files beyond a limit *)
Lemma quiet_remove_oldest old : ∀ d fs,
  tidy d (fs ++ old) →
  ∃ d', quiet_run d (for_each (reverse old) (λ f, context "failed to remove" (fs_remove (path f))))
          (Ok ()) d'
        ∧ tidy d' fs ∧ items_of d' <$> fs = items_of d <$> fs
        ∧ (∀ n, parse_archive_filename n = None → d' !! n = d !! n).
Proof.
  induction old as [|f old IH] using rev_ind; intros d fs Ht.
  - exists d. rw app_nil_r in Ht. split; [apply quiet_ret | done].
  - rw app_assoc in Ht.
    assert (on_disk d f) as [c Hc].
    { apply (tidy_disk _ _ Ht). set_solver. }
    destruct (IH (delete (path f) d) fs) as (d' & Hq & Ht' & Hi & Ho).
    { by apply tidy_delete. }
    exists d'. rw reverse_app. simpl. split_and!; [| done | |].
    + eapply quiet_bind; [by apply quiet_context, (quiet_remove _ _ c) | done].
    + rw Hi. apply tidy_items_delete in Ht. rw !fmap_app in Ht.
      by apply app_inj_1 in Ht as [? _]; [| by rw !length_fmap].
    + intros n Hn. rw Ho // lookup_delete_ne //. intros <-.
      assert (f ∈ (fs ++ old) ++ [f]) as Hf by set_solver.
      apply (tidy_disk _ _ Ht) in Hf as [_ Hp]. congruence.
Qed.
(** *** Compressing the files that are due *)
Definition compress_path f : ArchiveFile := if compressed f then f else set_compressed f true.

Lemma done_not_added d f : on_disk d f → compressed f = false → proper f →
  compressed_done d f ≠ compressed_added d f.
Proof.
  intros [c Hc] Hu [Ep _] E. apply (f_equal (lookup (path f))) in E.
  unfold compressed_done, compressed_added in E. rw lookup_delete_eq lookup_insert_ne in E.
  - rw Ep. simpl. intros [_ E']%archive_path_inj. congruence.
  - congruence.
Qed.

Lemma tidy_compress d fs f :
  tidy d fs → f ∈ fs → compressed f = false →
  tidy (compressed_done d f) (replaced f <$> fs).
Proof.
  intros Ht Hf Hu. pose proof (tidy_canonical d fs Ht) as Hc.
  pose proof (tidy_listing d fs Ht) as El. rw -El in Hf.
  assert (compressed_done d f = compressed_added d f ∨ compressed_done d f = compressed_done d f)
    as Hor by by right.
  pose proof (after_listing d f Hc Hf Hu _ Hor) as Ea.
  pose proof (after_canonical d f Hc Hf _ Hor) as Hc'. rw -El -Ea.
  assert (∀ g, g ∈ listing (compressed_done d f) → g ∈ listing_with_dupes (compressed_done d f)) as Hsub.
  { intros g. apply sublist_subseteq, listing_sublist. }
  split; [apply listing_sorted | intros g Hg; by eapply listed_proper, Hsub |].
  intros g. rw -elem_of_listing_with_dupes. split; [apply Hsub |]. intros Hg.
  pose proof (listed_proper _ g Hc' Hg) as Hp. rw Ea.
  apply (after_listed d f Hc Hf Hu _ Hor) in Hg as [-> | [Hg Hne]]; [| | done].
  - apply list_elem_of_fmap. exists f. unfold replaced. by rw decide_True.
  - destruct Hne as [Hne | E].
    + apply list_elem_of_fmap. exists g. unfold replaced. rw decide_False // El.
      by rw -(tidy_with_dupes d fs Ht).
    + exfalso. revert E. apply done_not_added; [by apply listing_parse in Hf as [? _] | done |].
      by apply (compress_proper d).
Qed.

Lemma replaced_middle d fs1 f fs2 :
  tidy d (fs1 ++ f :: fs2) →
  replaced f <$> (fs1 ++ f :: fs2) = fs1 ++ set_compressed f true :: fs2.
Proof.
  intros Ht. pose proof (tidy_sorted _ _ Ht) as Hs.
  apply StronglySorted_NoDup in Hs; [| intros g Hg; lia].
  apply NoDup_app in Hs as (_ & Hn1 & Hn2). apply NoDup_cons in Hn2 as [Hn2 _].
  rw fmap_app fmap_cons. unfold replaced at 2. rw decide_True //.
  assert (∀ l : list ArchiveFile, f ∉ l → replaced f <$> l = l) as Hid.
  { induction l as [|g l IH]; intros Hl; simpl; [done |]. unfold replaced at 1.
    rw decide_False; [set_solver |]. f_equal. apply IH. set_solver. }
  rw !Hid //. intros Hf. apply (Hn1 f Hf). left.
Qed.

Lemma quiet_compress_loop fs2 : ∀ d fs1 corr,
  tidy d (fs1 ++ fs2) →
  ∃ d' corr', quiet_run d (fold_io compress_step corr fs2) (Ok corr') d'
    ∧ tidy d' (fs1 ++ (compress_path <$> fs2))
    ∧ items_of d' <$> (fs1 ++ (compress_path <$> fs2)) = items_of d <$> (fs1 ++ fs2)
    ∧ (∀ n, parse_archive_filename n = None → d' !! n = d !! n).
Proof.
  induction fs2 as [|f fs2 IH]; intros d fs1 corr Ht; simpl.
  { exists d, corr. split; [apply quiet_ret | done]. }
  unfold compress_step, compress_path at 1 3. destruct (compressed f) eqn:Hu.
  - rw cons_middle app_assoc in Ht. destruct (IH d (fs1 ++ [f]) corr Ht) as (d' & corr' & Hq & Ht' & Hi & Ho).
    rw -!app_assoc in Ht' Hi. exists d', corr'. split_and!; [| done.. ].
    eapply quiet_bind; [apply quiet_ret | exact Hq].
  - pose proof (tidy_canonical d _ Ht) as Hc. pose proof (tidy_listing d _ Ht) as El.
    assert (f ∈ listing d) as Hf by (rw El; set_solver).
    assert (compressed_done d f = compressed_added d f ∨ compressed_done d f = compressed_done d f)
      as Hor by by right.
    pose proof (tidy_compress d _ f Ht ltac:(set_solver) Hu) as Ht1.
    rw (replaced_middle d fs1 f fs2 Ht) cons_middle app_assoc in Ht1.
    destruct (IH _ _ (note_corrupted (items_state (archive_items (content d f))) f corr) Ht1)
      as (d' & corr' & Hq & Ht' & Hi & Ho).
    rw -!app_assoc in Ht' Hi. exists d', corr'. split_and!; [| done | |].
    + eapply quiet_bind; [| exact Hq]. eapply quiet_bind; [| apply quiet_ret].
      by apply quiet_context, quiet_compress.
    + rw Hi. simpl. rw -(replaced_middle d fs1 f fs2 Ht) -list_fmap_compose.
      apply list_fmap_ext. intros i g Hg%list_elem_of_lookup_2. simpl.
      apply (after_items d f Hc Hf Hu _ Hor). by rw El.
    + intros n Hn. rw Ho //. unfold compressed_done, compressed_added.
      assert (path f ≠ n) as Hn1.
      { intros <-. apply listing_parse in Hf as [_ Hp]. congruence. }
      assert (path (set_compressed f true) ≠ n) as Hn2.
      { intros <-. rw proper_parse in Hn; [| done]. by apply (compress_proper_new d). }
      by rw lookup_delete_ne // lookup_insert_ne.
Qed.
End tidy.

(** ** Rotation *)
Section rotate.
Context `{UpidEnv} `{TaskJsonLaws} `{SteadyReads}.
Implicit Types (d : dir) (f g : ArchiveFile) (fs : list ArchiveFile).

Lemma split_dupes_perm seen fs :
  (split_dupes seen fs).1 ++ (split_dupes seen fs).2 ≡ₚ fs.
Proof.
  revert seen. induction fs as [|f fs IH]; intros seen; simpl; [done |].
  case_decide; simpl; [rw -Permutation_middle |]; by f_equiv.
Qed.

Lemma split_dupes_after fs : ∀ f seen,
  StronglySorted (λ f g, af_starttime g ≤ af_starttime f)%Z (f :: fs) →
  af_starttime f ∈ seen → (∀ s, s ∈ seen → af_starttime f ≤ s)%Z →
  (split_dupes seen fs).1
  = dedup_after (λ x y, bool_decide (af_starttime x = af_starttime y)) f fs.
Proof.
  induction fs as [|g fs IH]; intros f seen [Hf Hs]%StronglySorted_cons Hin Hle; simpl; [done |].
  apply Forall_cons in Hf as [Hfg Hf]. case_decide as E.
  - rw bool_decide_eq_true_2; [specialize (Hle _ E); lia |]. simpl. apply IH; [| done | done].
    apply StronglySorted_cons in Hs as [_ Hs]. by apply StronglySorted_cons.
  - rw bool_decide_eq_false_2; [intros Ex; rw Ex in E; done |]. simpl. f_equal.
    apply IH; [done | set_solver |].
    intros s [Hs'%elem_of_singleton | Hs']%elem_of_union; [lia |]. specialize (Hle s Hs'). lia.
Qed.

Lemma split_dupes_listing d : (split_dupes ∅ (listing_with_dupes d)).1 = listing d.
Proof.
  unfold listing, dedup_by_key.
  assert (StronglySorted (λ f g, af_starttime g ≤ af_starttime f)%Z (listing_with_dupes d)) as Hs.
  { eapply StronglySorted_impl, sort_by_sorted, _. unfold cmp_le, compare_files. intros f g.
    destruct (Z.compare_spec (af_starttime g) (af_starttime f)); simpl; [lia | lia | done]. }
  destruct (listing_with_dupes d) as [|f fs]; [done |]. simpl.
  case_decide as E; [set_solver |]. simpl. f_equal.
  apply split_dupes_after; [done | set_solver |]. set_solver by lia.
Qed.

(** The duplicates [rotate] removes first. *)
Definition dupes d : list ArchiveFile := (split_dupes ∅ (listing_with_dupes d)).2.
Definition purge d : dir := foldl (λ d f, delete (path f) d) d (dupes d).

Lemma purge_lookup d fs n :
  foldl (λ d f, delete (path f) d) d fs !! n = if decide (n ∈ path <$> fs) then None else d !! n.
Proof.
  revert d. induction fs as [|f fs IH]; intros d; simpl; [done |]. rw IH.
  repeat case_decide; [done | set_solver | | ].
  - assert (n = path f) as -> by set_solver. by rw lookup_delete_eq.
  - rw lookup_delete_ne //. set_solver.
Qed.

Lemma quiet_purge fs : ∀ d,
  quiet_run d (for_each fs (λ f, _ ← attempt (fs_remove (path f)); mret ())) (Ok ())
    (foldl (λ d f, delete (path f) d) d fs).
Proof.
  induction fs as [|f fs IH]; intros d; simpl; [apply quiet_ret |].
  destruct (d !! path f) as [c|] eqn:E.
  - eapply quiet_bind; [| apply IH]. eapply quiet_bind; [by apply quiet_attempt, (quiet_remove _ _ c) |].
    apply quiet_ret.
  - eapply quiet_bind; [| apply IH]. eapply quiet_bind; [apply quiet_attempt |].
    + quiet_prim. rw E. apply quiet_fail.
    + by rw delete_id.
Qed.

Lemma tidy_purge d : canonical d → tidy (purge d) (listing d).
Proof.
  intros Hc. pose proof (split_dupes_perm ∅ (listing_with_dupes d)) as Hperm.
  fold (dupes d) in Hperm. rw split_dupes_listing in Hperm.
  assert (NoDup (listing d ++ dupes d)) as Hnd.
  { rw Hperm. pose proof (canonical_strict d Hc) as Hs.
    eapply StronglySorted_NoDup, Hs. intros f Hlt. unfold cmp_lt in Hlt.
    by rw (cmp_refl compare_files) in Hlt. }
  assert (∀ f, f ∈ listing_with_dupes d ↔ f ∈ listing d ∨ f ∈ dupes d) as Hel.
  { intros f. by rw -elem_of_app Hperm. }
  apply NoDup_app in Hnd as (_ & Hdisj & _).
  assert (∀ f g, f ∈ listing_with_dupes d → g ∈ listing_with_dupes d → path f = path g → f = g) as Hinj.
  { intros f g [_ Hf]%elem_of_listing_with_dupes [_ Hg]%elem_of_listing_with_dupes E. congruence. }
  split; [apply listing_sorted | |].
  - intros f Hf. apply (listed_proper d); [done |]. apply Hel. by left.
  - intros f. unfold on_disk, purge. rw purge_lookup. split.
    + intros Hf. pose proof (listing_parse d f Hf) as [Hd Hp]. rw decide_False //.
      intros (g & E & Hg)%list_elem_of_fmap. apply (Hdisj f Hf).
      by rw (Hinj f g); [apply Hel; by left | apply Hel; by right | done |].
    + intros [Hd Hp]. case_decide as Hn; [by destruct Hd |].
      assert (f ∈ listing_with_dupes d) as Hf by by apply elem_of_listing_with_dupes.
      apply Hel in Hf as [? | Hf]; [done |]. destruct Hn. by apply list_elem_of_fmap_2.
Qed.
(** *** The new file *)
Context (cache : TaskCache) (now : Z).
Context (Hnow : in_i64 now = true).

Definition rotation_due d : bool :=
  match listing d with
  | bound :: _ => (af_starttime bound <? now)%Z
                  && (i64 (rotate_after cache) <=? i64 (now - af_starttime bound))%Z
  | [] => true
  end.
Definition started_file : ArchiveFile :=
  {| path := archive_path now (uncompressed_files cache =? 0)%Z;
     compressed := (uncompressed_files cache =? 0)%Z; af_starttime := now |}.
Definition journaled d : dir :=
  match d !! WAL_FILENAME with Some c => journal_applied d c | None => d end.

(** The files after the start of a new one, and the directory then. *)
Definition rotated_files d : list ArchiveFile :=
  if rotation_due d then started_file :: listing d else listing d.
Definition rotated_dir d : dir :=
  if rotation_due d then journaled (<[path started_file := []]> (purge d)) else purge d.

Lemma fill_disk fs ts : ∀ d n,
  Forall (on_disk d) fs → is_Some (fill fs ts d !! n) ↔ is_Some (d !! n).
Proof.
  revert ts. induction fs as [|f fs IH]; intros ts d n Hd; simpl; [done |].
  apply Forall_cons in Hd as [Hf Hd]. rw IH.
  - eapply Forall_impl; [done |]. intros g. apply on_disk_fill_one.
  - destruct (slice f ts) as [|t ts']; simpl; [done |].
    destruct (decide (path f = n)) as [<- | Hne]; [rw lookup_insert_eq; naive_solver | by rw lookup_insert_ne].
Qed.

Lemma tidy_journaled d fs : tidy d fs → tidy (journaled d) fs.
Proof.
  intros Ht. unfold journaled. destruct (d !! WAL_FILENAME) as [c|]; [| done].
  unfold journal_applied, repaired.
  assert (tidy (<[WAL_FILENAME := []]> (fill (listing d) (journal_tasks c) d)) fs) as Ht'.
  { apply tidy_insert_other; [| done]. eapply tidy_same_files; [done |].
    intros f Hf. apply fill_disk, on_disk_listing. }
  destruct (oldest _); [by apply tidy_insert_other | done].
Qed.

Lemma quiet_journaled d : quiet_run d apply_journal (Ok ()) (journaled d).
Proof.
  unfold journaled. destruct (d !! WAL_FILENAME) eqn:E;
    [by apply quiet_apply_journal | by apply quiet_apply_journal_missing].
Qed.

Lemma quiet_new_file d comp :
  quiet_run d (new_file now comp)
    (Ok {| path := archive_path now comp; compressed := comp; af_starttime := now |})
    (<[archive_path now comp := []]> d).
Proof.
  eapply quiet_bind; [apply quiet_writer |].
  eapply quiet_bind; [apply quiet_commit |]. apply quiet_ret.
Qed.

Lemma tidy_rotated d : canonical d → tidy (rotated_dir d) (rotated_files d).
Proof.
  intros Hc. pose proof (tidy_purge d Hc) as Ht. unfold rotated_dir, rotated_files.
  destruct (rotation_due d) eqn:E; [| done].
  apply tidy_journaled, tidy_insert; [done | done |]. intros g Hg.
  unfold rotation_due in E. pose proof (listing_sorted d) as Hs.
  destruct (listing d) as [|bound fs]; [by apply not_elem_of_nil in Hg |].
  apply andb_true_iff in E as [E%Z.ltb_lt _].
  apply StronglySorted_cons in Hs as [Hb _]. rw Forall_forall in Hb. simpl.
  apply elem_of_cons in Hg as [-> | Hg%Hb]; lia.
Qed.

Lemma quiet_rotate_start d :
  quiet_run (purge d)
    (if rotation_due d then start_new_file cache now (listing d) else mret (listing d))
    (Ok (rotated_files d)) (rotated_dir d).
Proof.
  unfold rotated_files, rotated_dir. destruct (rotation_due d); [| apply quiet_ret].
  eapply quiet_bind; [apply quiet_new_file |].
  eapply quiet_bind; [apply quiet_journaled | apply quiet_ret].
Qed.

(** The files that are kept, and those of them that get compressed. *)
Definition kept_files d : list ArchiveFile := take (Z.to_nat (max_files cache)) (rotated_files d).
Definition final_files d : list ArchiveFile :=
  take (Z.to_nat (uncompressed_files cache)) (kept_files d)
    ++ (compress_path <$> drop (Z.to_nat (uncompressed_files cache)) (kept_files d)).

Lemma tidy_repaired d fs corr :
  tidy d fs → tidy (repaired corr d) fs ∧ items_of (repaired corr d) <$> fs = items_of d <$> fs.
Proof.
  intros Ht. unfold repaired. destruct (oldest corr); [| done].
  split; [by apply tidy_insert_other |].
  apply list_fmap_ext. intros i f Hf%list_elem_of_lookup_2. apply items_of_insert_other; [done |].
  by apply (tidy_disk _ _ Ht).
Qed.

Lemma quiet_rotate d :
  canonical d →
  ∃ d', quiet_run d (rotate cache now) (Ok (rotation_due d)) d'
        ∧ tidy d' (final_files d)
        ∧ items_of d' <$> final_files d = items_of (rotated_dir d) <$> kept_files d.
Proof.
  intros Hc. pose proof (tidy_rotated d Hc) as Ht.
  set (mf := Z.to_nat (max_files cache)). set (uf := Z.to_nat (uncompressed_files cache)).
  rw -(take_drop mf (rotated_files d)) in Ht.
  destruct (quiet_remove_oldest _ _ _ Ht) as (d2 & Hq2 & Ht2 & Hi2 & _).
  change (take mf (rotated_files d)) with (kept_files d) in Ht2, Hi2. rw -(take_drop uf (kept_files d)) in Ht2.
  destruct (quiet_compress_loop _ _ _ [] Ht2) as (d3 & corr & Hq3 & Ht3 & Hi3 & _).
  rw take_drop in Hi3. change (tidy d3 (final_files d)) in Ht3.
  change (items_of d3 <$> final_files d = items_of d2 <$> kept_files d) in Hi3.
  destruct (tidy_repaired d3 (final_files d) corr Ht3) as [Ht4 Hi4].
  exists (repaired corr d3). split_and!; [| done | by rw Hi4 Hi3 Hi2].
  eapply quiet_bind.
  { eapply quiet_bind; [apply quiet_read_dir | apply quiet_ret]. }
  fold (listing_with_dupes d). cbv zeta. rw split_dupes_listing. fold (dupes d).
  eapply quiet_bind; [apply quiet_purge |]. fold (purge d). fold (rotation_due d).
  eapply quiet_bind; [apply quiet_rotate_start |].
  eapply quiet_bind; [exact Hq2 |]. eapply quiet_bind; [exact Hq3 |].
  eapply quiet_bind; [| apply quiet_ret].
  destruct corr as [|f corr]; [apply quiet_ret |]. apply quiet_request_repair.
Qed.
End rotate.

(** ** The initial files *)
Lemma i64_sub_wrap now x : in_i64 (now - x) = true → i64 (now - i64 (u64 x)) = (now - x)%Z.
Proof.
  unfold in_i64, i64_min, i64_max, wrap_i, wrap_u. change (64 - 1)%Z with 63%Z.
  rw andb_true_iff !Z.leb_le. change (2 ^ 63)%Z with 9223372036854775808%Z.
  change (2 ^ 64)%Z with 18446744073709551616%Z. intros [Hl Hu].
  Z.div_mod_to_equations. lia.
Qed.

Section init.
Context `{UpidEnv} `{TaskJsonLaws} `{SteadyReads}.
Context (cache : TaskCache) (now : Z).
Context (Hpos : (0 < rotate_after cache)%Z) (Hnow : in_i64 now = true).
Context (Hmax : in_i64 (now - max_files cache * rotate_after cache) = true).
Implicit Types (d : dir) (i : Z).

Definition initial_file i : ArchiveFile :=
  {| path := archive_path (now - i * rotate_after cache) (uncompressed_files cache <=? i)%Z;
     compressed := (uncompressed_files cache <=? i)%Z;
     af_starttime := now - i * rotate_after cache |}.

Lemma initial_in_range i :
  (0 ≤ i < max_files cache)%Z → in_i64 (now - i * rotate_after cache) = true.
Proof.
  revert Hpos Hnow Hmax. unfold in_i64. rw !andb_true_iff !Z.leb_le. nia.
Qed.

Definition all_empty d (fs : list ArchiveFile) : Prop := ∀ f, f ∈ fs → d !! path f = Some [].

Lemma all_empty_insert d fs f :
  all_empty d fs → all_empty (<[path f := []]> d) (fs ++ [f]).
Proof.
  intros Hd g [Hg | ->%list_elem_of_singleton]%elem_of_app; [| by rw lookup_insert_eq].
  destruct (decide (path f = path g)) as [-> | Hne];
    [by rw lookup_insert_eq | rw lookup_insert_ne //; by apply Hd].
Qed.

Lemma seqZ_snoc j : (0 ≤ j)%Z → seqZ 0 (Z.succ j) = seqZ 0 j ++ [j].
Proof.
  intros Hj. replace (Z.succ j) with (j + 1)%Z by lia. by rw seqZ_app.
Qed.

Lemma quiet_init_loop n : ∀ d j,
  (0 ≤ j)%Z → (j + Z.of_nat n ≤ max_files cache)%Z →
  tidy d (initial_file <$> seqZ 0 j) → all_empty d (initial_file <$> seqZ 0 j) →
  ∃ d', quiet_run d (for_each (seqZ j (Z.of_nat n)) (λ i,
          _ ← new_file (i64 (now - i64 (u64 (i * rotate_after cache))))
                (uncompressed_files cache <=? i)%Z; mret ())) (Ok ()) d'
        ∧ tidy d' (initial_file <$> seqZ 0 (j + Z.of_nat n))
        ∧ all_empty d' (initial_file <$> seqZ 0 (j + Z.of_nat n)).
Proof.
  induction n as [|n IH]; intros d j Hj Hle Ht Hd.
  - exists d. rw Z.add_0_r. split; [apply quiet_ret | done].
  - rw (seqZ_cons j); [lia |]. replace (Z.pred (Z.of_nat (S n))) with (Z.of_nat n) by lia.
    replace (j + Z.of_nat (S n))%Z with (Z.succ j + Z.of_nat n)%Z by lia.
    assert (in_i64 (now - j * rotate_after cache) = true) as Hin by (apply initial_in_range; lia).
    destruct (IH (<[path (initial_file j) := []]> d) (Z.succ j)) as (d' & Hq & Ht' & Hd');
      [lia | lia | | |].
    { rw seqZ_snoc // fmap_app. apply tidy_snoc; [done | done |].
      intros g (k & -> & Hk%elem_of_seqZ)%list_elem_of_fmap. simpl. nia. }
    { rw seqZ_snoc // fmap_app. by apply all_empty_insert. }
    exists d'. split_and!; [| done | done].
    simpl. rw i64_sub_wrap //. eapply quiet_bind; [| exact Hq].
    eapply quiet_bind; [apply quiet_new_file | apply quiet_ret].
Qed.

Lemma quiet_init d :
  listing d = [] → (0 ≤ max_files cache)%Z →
  ∃ d', quiet_run d (init cache now) (Ok ()) d'
        ∧ tidy d' (initial_file <$> seqZ 0 (max_files cache))
        ∧ all_empty d' (initial_file <$> seqZ 0 (max_files cache)).
Proof.
  intros El Hm.
  assert (listing_with_dupes d = []) as Ed.
  { unfold listing, dedup_by_key in El. by destruct (listing_with_dupes d). }
  destruct (quiet_init_loop (Z.to_nat (max_files cache)) d 0) as (d' & Hq & Ht & Hd);
    [lia | lia | | by intros f ?%not_elem_of_nil |].
  { split; [constructor | by intros f ?%not_elem_of_nil |].
    intros f. by rw -elem_of_listing_with_dupes Ed. }
  rw Z.add_0_l Z2Nat.id // in Hq Ht Hd. exists d'. split_and!; [| done | done].
  eapply quiet_bind; [apply quiet_archive_files |]. rw El. exact Hq.
Qed.

Lemma tidy_empty_wf d fs : tidy d fs → all_empty d fs → archive_wf d.
Proof.
  intros Ht Hd.
  assert (∀ f, f ∈ listing d → items_of d f = []) as Hi.
  { intros f Hf. unfold items_of, content. rw Hd //. by rw -(tidy_listing d fs Ht). }
  split; [by eapply tidy_canonical | |].
  - intros f Hf. rw Hi //. constructor.
  - intros f t Hf. rw Hi //. by intros ?%not_elem_of_nil.
Qed.
End init.
