(* ===== verification/TaskExample.v ===== *)
(** * A concrete instance of the parameters of the task cache

    The classes [UpidEnv] and [TaskJson] stand for code of other crates.  This file has one
    concrete implementation of each with its laws, so that the operations of [TaskCache] run
    and the hypotheses of the theorems are seen to hold: UPIDs are split at [":"] as
    [UPID:node:...] and encoded values are decimal numerals. *)
From S2P Require Import Prelude RustStr Remotes Disk TaskArchive TaskCache.

Definition ex_safe_id (s : string) : bool :=
  negb (is_empty s) && negb (has_char ":"%char s) && negb (has_char "!"%char s)
    && negb (has_char "/"%char s).

Definition ex_parse_upid (s : string) : option NativeFields :=
  match split_once ":"%char s with
  | Some ("UPID", r) =>
      match split_once ":"%char r with
      | Some (node, _) =>
          Some {| nu_node := node; nu_pid := 0; nu_pstart := 0; nu_starttime := 0;
                  nu_worker_type := "task"; nu_worker_id := None; nu_auth_id := "root@pam" |}
      | None => None
      end
  | _ => None
  end.

Global Instance ex_upid_env : UpidEnv := {|
  safe_id := ex_safe_id;
  parse_pve_upid := ex_parse_upid;
  parse_pbs_upid := ex_parse_upid;
|}.

Global Instance ex_safe_id_laws : SafeIdLaws.
Proof.
  split; intros s; simpl; unfold ex_safe_id; intros Hs;
    repeat (apply andb_true_iff in Hs as [Hs ?]); by apply negb_true_iff.
Qed.

(** Values of a countable type as decimal numerals. *)
Definition encode_str {A} `{Countable A} (a : A) : string := show_int (Zpos (encode a)).
Definition decode_str {A} `{Countable A} (s : string) : option A :=
  match parse_int s with Some (Zpos p) => decode p | _ => None end.

Lemma decode_encode_str {A} `{Countable A} (a : A) : decode_str (encode_str a) = Some a.
Proof. unfold decode_str, encode_str. rw parse_int_show. apply decode_encode. Qed.

Global Instance NodeState_eq_dec : EqDecision NodeState.
Proof. solve_decision. Defined.
Global Instance NodeState_countable : Countable NodeState.
Proof. refine (inj_countable' cutoff Build_NodeState _). by intros []. Defined.
Global Instance RemoteState_eq_dec : EqDecision RemoteState.
Proof. solve_decision. Defined.
Global Instance RemoteState_countable : Countable RemoteState.
Proof. refine (inj_countable' node_state Build_RemoteState _). by intros []. Defined.
Global Instance State_eq_dec : EqDecision State.
Proof. solve_decision. Defined.
Global Instance State_countable : Countable State.
Proof.
  refine (inj_countable' (λ s, (remote_state s, tracked_tasks s))
            (λ p, Build_State p.1 p.2) _). by intros [].
Defined.

(** Brackets around an object, as in JSON. *)
Definition ex_to_json (t : TaskCacheItem) : string := ("{" ++ encode_str t ++ "}")%string.
Definition ex_from_json (s : string) : option TaskCacheItem :=
  r ← strip_prefix "{" s; n ← strip_suffix "}" r; decode_str n.

Global Instance ex_task_json : TaskJson := {|
  task_to_json := ex_to_json;
  task_from_json := ex_from_json;
  state_to_json s := [Text (encode_str s)];
  state_from_json f := match f with [Text s] => decode_str s | _ => None end;
|}.

Lemma app_snoc_cut (s p q : string) (c : ascii) :
  (s ++ String c "")%string = (p ++ q)%string → q ≠ ""%string → ∃ r, s = (p ++ r)%string.
Proof.
  revert p. induction s as [|a s IH]; intros [|b p] E Hq; simpl in *.
  - by exists ""%string.
  - injection E as -> E. destruct p; simpl in E; [by subst q | done].
  - by exists (String a s).
  - injection E as -> E. destruct (IH p E Hq) as [r ->]. by exists r.
Qed.

Global Instance ex_task_json_laws : TaskJsonLaws.
Proof.
  split; simpl.
  - intros t. unfold ex_from_json, ex_to_json. rw strip_prefix_app. simpl. rw strip_suffix_app.
    apply decode_encode_str.
  - intros t p q E Hq. unfold ex_from_json, ex_to_json in *.
    destruct (strip_prefix "{" p) as [r|] eqn:Er; simpl; [| done].
    destruct (strip_suffix "}" r) as [n|] eqn:En; simpl; [| done].
    exfalso. apply strip_suffix_Some in En. apply strip_prefix_Some in Er. rw Er in E.
    rw string_app_assoc in E. apply string_app_inj_l in E.
    destruct (app_snoc_cut _ _ _ _ E Hq) as [r' Er'].
    pose proof (show_int_no_char (Zpos (encode t)) "}"%char eq_refl) as Hn.
    unfold encode_str in Er'. rw Er' En !has_char_app in Hn. simpl in Hn.
    by rw orb_true_r in Hn.
  - intros s. apply decode_encode_str.
Qed.

(** Files are read to their end. *)
Global Instance ex_reads : Reads := {| short_read _ := None |}.
Global Instance ex_steady : SteadyReads.
Proof. by split. Qed.

(** ** Tasks and runs *)
Definition ex_upid (z : Z) : RemoteUpid :=
  {| ru_remote := "pve-remote"; ru_type := Pve; ru_upid := ("UPID:pve:" ++ show_int z)%string |}.
Definition ex_task (z : Z) (e : option Z) : TaskCacheItem :=
  {| upid := ex_upid z; starttime := z; status := (λ _, "OK") <$> e; endtime := e |}.
Definition ex_success : NodeFetchSuccessMap := set_node_success ∅ "pve-remote" "pve".
Definition ex_cache : TaskCache :=
  {| max_files := 3; uncompressed_files := 1; rotate_after := 100; journal_max_size := 10000 |}.

(** Run to completion on a fault-free disk, for examples. *)
Definition run {A} (m : IO A) (d : dir) : option A * dir :=
  let '(r, w) := m (quiet_world d) in
  (match r with Ok a => Some a | Err _ => None end, disk w).
