(* ===== verification/TaskProps.v ===== *)
(** * Properties of the task cache

    The theorems about server/src/remote_tasks/task_cache.rs and
    lib/pdm-api-types/src/remote_upid.rs, each with an instance at a concrete directory. *)
From S2P Require Import Prelude RustStr Remotes Disk TaskArchive TaskCache TaskMerge TaskView TaskCrash TaskUpdate TaskRotate TaskExample.

Local Open Scope Z_scope.

(** A directory with two archive files and a journal. *)
Definition ex_dir : dir :=
  <[archive_path 1000 false := write_tasks [ex_task 1200 (Some 1210)]]>
    (<[archive_path 500 true := write_tasks [ex_task 700 (Some 710)]]>
       (<[WAL_FILENAME := write_tasks [ex_task 800 (Some 810); ex_task 1300 (Some 1310)]]> ∅)).

Lemma ex_dir_wf : archive_wf ex_dir.
Proof. apply archive_wfb_spec. by vm_compute. Qed.
Lemma ex_dir_one_record ts :
  one_recordb (all_tasks ex_dir ++ ts) = true → one_record (all_tasks ex_dir ++ ts).
Proof. apply one_recordb_spec. Qed.

Definition targetsb (files : list ArchiveFile) (ts : list TaskCacheItem) : bool :=
  forallb (λ t, match target files t with Some _ => true | None => false end) ts.
Lemma targetsb_spec files ts t :
  targetsb files ts = true → t ∈ ts → is_Some (target files t).
Proof.
  unfold targetsb. rw List.forallb_forall. intros Ht Hin%list_elem_of_In.
  specialize (Ht t Hin). by destruct (target files t).
Qed.

Section props.
Context `{UpidEnv} `{TaskJsonLaws} `{SteadyReads}.
Implicit Types (d : dir) (t : TaskCacheItem) (ts : list TaskCacheItem) (cache : TaskCache).

(** C11: [apply_journal] is atomic for readers.  The archive must be well-formed, journal and
    archive must hold one record per task, and every journal task must have an archive file that
    takes it.  Then, whatever call of a file operation fails (or the process dies at), except
    for a read of a file that is already open ([SteadyReads]), the tasks [get_tasks] returns are
    the same as before; when it succeeds the journal is empty and all its tasks are in the
    archive.  A read that fails later does lose tasks ([journal_read_error_loses]). *)
Theorem apply_journal_crash_safe d :
  archive_wf d → one_record (all_tasks d) →
  (∀ t, t ∈ journal_of d → is_Some (target (listing d) t)) →
  triple (λ d', d' = d) apply_journal
    (λ _ d', archive_wf d' ∧ view d' = view d ∧ journal_of d' = [])
    (λ d', archive_wf d' ∧ view d' = view d).
Proof.
  intros Hwf H1' Ht. eapply triple_conseq; [by apply triple_apply_journal | done | |].
  - intros [] d' [[Hv _] Hj]. split; [apply Hv |]. split; [by apply same_view_view | by apply empty_journal].
  - intros d' [Hv _]. split; [apply Hv | by apply same_view_view].
Qed.

(** C10: [update] moves the fetch cutoffs only after the tasks are safe.  The archive must be
    well-formed, every line of the journal must be complete, journal, archive and update must
    hold one record per task, every task to store must have an archive file that takes it, and
    no read of an open file may fail ([SteadyReads]).  Then, whichever other file operation
    fails, no task a reader saw in journal and archive is lost, and the state file is the old
    one unless every finished task of the update (whose UPID parses) is visible to readers. *)
Theorem update_crash_safe d cache new_tasks succ drop :
  archive_wf d → journal_text d →
  one_record (all_tasks d ++ recorded (finished new_tasks)) →
  (∀ t, t ∈ journal_of d ++ recorded (finished new_tasks) → is_Some (target (listing d) t)) →
  triple (λ d', d' = d) (update cache new_tasks succ drop)
    (λ _ d', ∀ t, t ∈ view d ∨ t ∈ recorded (finished new_tasks) → t ∈ view d')
    (λ d', (∀ t, t ∈ view d → t ∈ view d')
           ∧ (d' !! STATE_FILENAME = d !! STATE_FILENAME
              ∨ ∀ t, t ∈ recorded (finished new_tasks) → t ∈ view d')).
Proof.
  intros Hwf Htext Hone Ht.
  assert (∀ t, t ∈ view d ↔ t ∈ all_tasks d) as Hv.
  { intros t. apply elem_of_view. eapply one_record_sub; [done |]. set_solver. }
  eapply triple_conseq; [by apply (triple_update d) | done | |].
  - intros [] d' Hg t. rw (grown_view d new_tasks Hone _ d' t Hg) Hv.
    intros [? | ?]; [by apply (gr_old _ _ _ _ Hg) | by apply (gr_new _ _ _ _ Hg)].
  - intros d' [Hg Hs]. split.
    + intros t. rw (grown_view d new_tasks Hone _ d' t Hg) Hv. apply (gr_old _ _ _ _ Hg).
    + destruct Hs as [? | [Hg' _]]; [by left | right]. intros t Hin.
      rw (grown_view d new_tasks Hone _ d' t Hg'). by apply (gr_new _ _ _ _ Hg').
Qed.

(** C32: [merge_tasks_into_archive] sorts every task into the newest archive file whose start is
    not after the task's: each file becomes the merge of its items with the tasks assigned to
    it, files that get no task and files that are no archive files are untouched. *)
Theorem merge_tasks_refines d ts :
  task_sorted ts →
  ∃ corr d', quiet_run d (merge_tasks_into_archive ts) (Ok corr) d'
    ∧ (∀ f, f ∈ listing d →
         d' !! path f = match assigned (listing d) f ts with
                        | [] => d !! path f
                        | mine => Some (write_tasks (merge_iter (items_of d f) mine))
                        end)
    ∧ (∀ n, n ∉ path <$> listing d → d' !! n = d !! n).
Proof.
  intros Hs. eexists _, _. split; [by apply quiet_merge_tasks |]. split.
  - intros f Hf. rw fill_lookup //; [apply listing_NoDup |].
    destruct (assigned (listing d) f ts) as [|t mine]; simpl; [done |]. by rw lookup_insert_eq.
  - intros n Hn. by apply fill_other.
Qed.
End props.

Lemma apply_journal_crash_safe_witness :
  triple (λ d', d' = ex_dir) apply_journal
    (λ _ d', archive_wf d' ∧ view d' = view ex_dir ∧ journal_of d' = [])
    (λ d', archive_wf d' ∧ view d' = view ex_dir).
Proof.
  apply (apply_journal_crash_safe ex_dir).
  - apply ex_dir_wf.
  - apply one_recordb_spec. by vm_compute.
  - intros t. apply targetsb_spec. by vm_compute.
Defined.

Lemma update_crash_safe_witness :
  let new_tasks := [ex_task 1400 None; ex_task 900 (Some 910); ex_task 1250 (Some 1500)] in
  triple (λ d', d' = ex_dir) (update ex_cache new_tasks ex_success ∅)
    (λ _ d', ∀ t, t ∈ view ex_dir ∨ t ∈ recorded (finished new_tasks) → t ∈ view d')
    (λ d', (∀ t, t ∈ view ex_dir → t ∈ view d')
           ∧ (d' !! STATE_FILENAME = ex_dir !! STATE_FILENAME
              ∨ ∀ t, t ∈ recorded (finished new_tasks) → t ∈ view d')).
Proof.
  intros new_tasks. apply (update_crash_safe ex_dir ex_cache new_tasks ex_success ∅).
  - apply ex_dir_wf.
  - by vm_compute.
  - apply one_recordb_spec. by vm_compute.
  - intros t. apply targetsb_spec. by vm_compute.
Defined.

Lemma merge_tasks_refines_witness :
  ∃ corr d', quiet_run ex_dir
      (merge_tasks_into_archive [ex_task 1100 (Some 1101); ex_task 600 (Some 601)]) (Ok corr) d'
    ∧ (∀ f, f ∈ listing ex_dir →
         d' !! path f
         = match assigned (listing ex_dir) f [ex_task 1100 (Some 1101); ex_task 600 (Some 601)] with
           | [] => ex_dir !! path f
           | mine => Some (write_tasks (merge_iter (items_of ex_dir f) mine))
           end)
    ∧ (∀ n, n ∉ path <$> listing ex_dir → d' !! n = ex_dir !! n).
Proof.
  apply (merge_tasks_refines ex_dir).
  repeat constructor; intros E; by vm_compute in E.
Defined.

(** *** Reads that fail after the file was opened *)

(** The read after call [n] fails after [k] lines. *)
Definition cut_reads (n k : nat) : Reads := {| short_read i := if (i =? n)%nat then Some k else None |}.

(** A read error in the journal is logged like a line that does not decode: the tasks behind it
    are not merged, the journal is truncated nevertheless, and no cutoff is lowered to fetch
    them again. *)
Theorem journal_read_error_loses :
  let t := ex_task 1300 (Some 1310) in
  let '(r, d') := run (@apply_journal ex_task_json (cut_reads 1 1)) ex_dir in
  r = Some () ∧ bool_decide (t ∈ view ex_dir) = true ∧ bool_decide (t ∈ view d') = false ∧
  bool_decide (d' !! STATE_FILENAME = ex_dir !! STATE_FILENAME) = true.
Proof. vm_compute. done. Qed.

(** A read error in an archive file drops its remaining tasks too, but there the cutoffs are
    lowered to the start of the file, so that they are fetched again. *)
Theorem archive_read_error_repaired :
  let t := ex_task 1200 (Some 1210) in
  let d := <[STATE_FILENAME := state_to_json (update_cutoff_timestamp default_state "pve-remote" "pve" (λ _, 1400))]> ex_dir in
  let '(r, d') := run (@apply_journal ex_task_json (cut_reads 4 0)) d in
  r = Some () ∧ bool_decide (t ∈ view d) = true ∧ bool_decide (t ∈ view d') = false ∧
  cutoff_timestamp (state_of d') "pve-remote" "pve" = Some 1000.
Proof. vm_compute. done. Qed.

(** ** The files [update] writes *)
Section update_props.
Context `{UpidEnv} `{TaskJsonLaws} `{SteadyReads}.
Implicit Types (d : dir) (t : TaskCacheItem) (ts : list TaskCacheItem) (cache : TaskCache).

(** after a successful [update] the fetch cutoff of a node never passes a task that is still
    running on it: for every task of the new active file whose node was fetched, the recorded
    cutoff is at most its start.  A node that was not fetched does not get a later cutoff. *)
Theorem update_cutoff_sound d cache new_tasks succ drop :
  journal_text d →
  ∃ d', quiet_run d (update cache new_tasks succ drop) (Ok ()) d'
    ∧ (∀ t, t ∈ items_of d' active_file → cutoff_le succ (state_of d') t)
    ∧ (∀ r n z, node_successful succ r n = false →
         cutoff_timestamp (state_of d') r n = Some z →
         ∃ z0, cutoff_timestamp (state_of d) r n = Some z0 ∧ z ≤ z0).
Proof.
  intros Ht. destruct (quiet_update_files cache d new_tasks succ drop Ht) as (d' & Hq & Hl & Ha).
  exists d'. split_and!; [done | |].
  - intros t. rw Ha. intros Hin. eapply cutoff_le_lowered; [done |]. by apply update_active_cutoff.
  - intros r n z Hs. pose proof (update_state_unsuccessful d new_tasks succ drop r n Hs) as E.
    destruct Hl as [_ Hl]. destruct (Hl r n) as [-> | [c ->]]; rw E.
    + intros Hz. exists z. split; [done | lia].
    + destruct (cutoff_timestamp (state_of d) r n) as [z0|]; simpl; [| done].
      intros [= <-]. exists z0. split; [done | lia].
Qed.

(** the active file after a successful [update] holds, newest first, exactly one record per
    running task: a UPID reported as finished is gone, a newly reported running task replaces
    the old record, and of the old records those of dropped tracked tasks are removed.  The
    dropped tasks are no longer tracked, all others are. *)
Theorem update_active_spec d cache new_tasks succ drop :
  journal_text d →
  ∃ d', quiet_run d (update cache new_tasks succ drop) (Ok ()) d'
    ∧ task_sorted (items_of d' active_file)
    ∧ (∀ t, t ∈ items_of d' active_file ↔ active_task d new_tasks drop (upid t) = Some t)
    ∧ tracked_tasks (state_of d') = tracked_tasks (state_of d) ∖ drop.
Proof.
  intros Ht. destruct (quiet_update_files cache d new_tasks succ drop Ht) as (d' & Hq & Hl & Ha).
  exists d'. rw Ha. split_and!; [done | apply sort_by_sorted, _ | |].
  - intros t. apply elem_of_update_active.
  - destruct Hl as [-> _]. apply update_state_tracked.
Qed.

(** [add_tracked_task] writes the active file before the state file: wherever it stops, a
    UPID that is tracked now was tracked before or has its record in the active file; when it
    succeeds the task is tracked and active. *)
Theorem add_tracked_task_safe d t :
  triple (λ d', d' = d) (add_tracked_task t)
    (λ _ d', upid t ∈ tracked_tasks (state_of d') ∧ t ∈ items_of d' active_file)
    (λ d', upid t ∈ tracked_tasks (state_of d') →
           upid t ∈ tracked_tasks (state_of d) ∨ t ∈ items_of d' active_file).
Proof.
  eapply triple_bind; [by apply triple_read_state; intros d' ->; left |]. intros s. simpl.
  eapply triple_bind; [apply triple_context, triple_get_active; by left |]. intros tasks. simpl.
  eapply triple_bind with (R := λ _ d', t ∈ items_of d' active_file).
  - apply triple_context. eapply triple_bind; [apply triple_writer; by left |]. intros [].
    eapply triple_conseq; [apply triple_context, (triple_commit d active_file _ (λ d', d' = d)) | done | |].
    + done.
    + intros [] d' ->. rw (items_of_active d). rw elem_of_sort_by. set_solver.
    + intros d' ->. by left.
  - intros []. apply triple_context, triple_replace; [by right |]. intros d' Hin.
    rw state_of_insert. split; [simpl; set_solver |].
    unfold items_of, content in *. by rw lookup_insert_ne.
Qed.

(** [request_repair] lowers every fetch cutoff to the start of the oldest corrupted file, so
    the next fetch covers every corrupted file's slice; it tracks the same tasks and touches no
    other file. *)
Theorem request_repair_spec d corr :
  corr ≠ [] →
  ∃ d' z, quiet_run d (request_repair corr) (Ok ()) d'
    ∧ (∃ f, f ∈ corr ∧ af_starttime f = z) ∧ (∀ f, f ∈ corr → z ≤ af_starttime f)
    ∧ (∀ r n, cutoff_timestamp (state_of d') r n
              = (λ c, Z.min c z) <$> cutoff_timestamp (state_of d) r n)
    ∧ tracked_tasks (state_of d') = tracked_tasks (state_of d)
    ∧ (∀ n, n ≠ STATE_FILENAME → d' !! n = d !! n).
Proof.
  intros Hne. destruct (oldest corr) as [z|] eqn:E; [| by unfold oldest in E; destruct corr].
  exists (repaired corr d), z. split_and!.
  - apply quiet_request_repair.
  - by apply oldest_in.
  - intros f. by apply oldest_le.
  - intros r n. unfold repaired. rw E state_of_insert. apply cutoff_lower.
  - unfold repaired. by rw E state_of_insert.
  - intros n Hn. unfold repaired. by rw E lookup_insert_ne.
Qed.
End update_props.

Lemma update_cutoff_sound_witness :
  let new_tasks := [ex_task 1400 None; ex_task 900 (Some 910)] in
  ∃ d', quiet_run ex_dir (update ex_cache new_tasks ex_success ∅) (Ok ()) d'
    ∧ (∀ t, t ∈ items_of d' active_file → cutoff_le ex_success (state_of d') t)
    ∧ (∀ r n z, node_successful ex_success r n = false →
         cutoff_timestamp (state_of d') r n = Some z →
         ∃ z0, cutoff_timestamp (state_of ex_dir) r n = Some z0 ∧ z ≤ z0).
Proof. intros new_tasks. apply (update_cutoff_sound ex_dir). by vm_compute. Defined.

Lemma update_active_spec_witness :
  let new_tasks := [ex_task 1400 None; ex_task 900 (Some 910)] in
  ∃ d', quiet_run ex_dir (update ex_cache new_tasks ex_success ∅) (Ok ()) d'
    ∧ task_sorted (items_of d' active_file)
    ∧ (∀ t, t ∈ items_of d' active_file ↔ active_task ex_dir new_tasks ∅ (upid t) = Some t)
    ∧ tracked_tasks (state_of d') = tracked_tasks (state_of ex_dir) ∖ ∅.
Proof. intros new_tasks. apply (update_active_spec ex_dir). by vm_compute. Defined.

Lemma add_tracked_task_safe_witness :
  let t := ex_task 1600 None in
  triple (λ d', d' = ex_dir) (add_tracked_task t)
    (λ _ d', upid t ∈ tracked_tasks (state_of d') ∧ t ∈ items_of d' active_file)
    (λ d', upid t ∈ tracked_tasks (state_of d') →
           upid t ∈ tracked_tasks (state_of ex_dir) ∨ t ∈ items_of d' active_file).
Proof. intros t. apply (add_tracked_task_safe ex_dir t). Defined.

Lemma request_repair_spec_witness :
  let corr := [started_file ex_cache 700; started_file ex_cache 500] in
  ∃ d' z, quiet_run ex_dir (request_repair corr) (Ok ()) d'
    ∧ (∃ f, f ∈ corr ∧ af_starttime f = z) ∧ (∀ f, f ∈ corr → z ≤ af_starttime f)
    ∧ (∀ r n, cutoff_timestamp (state_of d') r n
              = (λ c, Z.min c z) <$> cutoff_timestamp (state_of ex_dir) r n)
    ∧ tracked_tasks (state_of d') = tracked_tasks (state_of ex_dir)
    ∧ (∀ n, n ≠ STATE_FILENAME → d' !! n = ex_dir !! n).
Proof. intros corr. by apply (request_repair_spec ex_dir). Defined.

(** ** Archive files *)
Section archive_props.
Context `{UpidEnv} `{TaskJsonLaws} `{SteadyReads}.
Implicit Types (d : dir) (t : TaskCacheItem) (ts : list TaskCacheItem) (cache : TaskCache).

(** [rotate] succeeds on every directory whose archive files carry the program's names.
    It reports whether a new file was started, which it does when there is none or the newest
    one is old enough; afterwards the archive files are exactly the newest [max_files] ones,
    without duplicates, those beyond the first [uncompressed_files] compressed, and each holds
    the tasks it held after the journal was applied. *)
Theorem rotate_spec cache now d :
  in_i64 now = true → canonical d →
  ∃ d', quiet_run d (rotate cache now) (Ok (rotation_due cache now d)) d'
    ∧ listing_with_dupes d' = final_files cache now d
    ∧ (length (listing_with_dupes d') ≤ Z.to_nat (max_files cache))%nat
    ∧ Forall (λ f, compressed f = true)
        (drop (Z.to_nat (uncompressed_files cache)) (listing_with_dupes d'))
    ∧ items_of d' <$> listing d' = items_of (rotated_dir cache now d) <$> kept_files cache now d.
Proof.
  intros Hn Hc. destruct (quiet_rotate cache now Hn d Hc) as (d' & Hq & Ht & Hi).
  exists d'. rw (tidy_listing _ _ Ht) (tidy_with_dupes _ _ Ht). split_and!; [done | done | | | done].
  - unfold final_files. rw length_app length_fmap -length_app take_drop.
    unfold kept_files. rw length_take. lia.
  - unfold final_files. generalize (kept_files cache now d). intros fs.
    set (u := Z.to_nat (uncompressed_files cache)). apply Forall_forall. intros f Hf.
    assert (f ∈ compress_path <$> drop u fs) as (g & -> & _)%list_elem_of_fmap.
    { rw drop_app in Hf. rw (drop_ge (take u fs)) in Hf; [rw length_take; lia |].
      eapply sublist_subseteq; [apply sublist_drop | exact Hf]. }
    unfold compress_path. by destruct (compressed g) eqn:E.
Qed.

(** compressing an archive file does not change what readers see, at whatever file operation
    it stops: the compressed copy is complete before it appears, and while both versions exist
    the compressed one is read. *)
Theorem compress_crash_safe d f :
  canonical d → f ∈ listing d → compressed f = false →
  triple (λ d', d' = d) (compress_archive_file f)
    (λ _ d', view d' = view d ∧ ¬ on_disk d' f) (λ d', view d' = view d).
Proof.
  intros Hc Hf Hu. eapply triple_conseq; [apply (triple_compress d f) | done | |].
  - intros st d' ->. split; [apply (after_view d f); auto |].
    unfold on_disk, compressed_done. rw lookup_delete_eq. by intros [].
  - intros d' [-> | ->]; [done |]. apply (after_view d f); auto.
Qed.

(** [init] on a directory without archive files creates [max_files] empty ones, the [i]-th
    starting [i * rotate_after] seconds ago (the wrapping machine arithmetic never wraps on
    these inputs) and compressed from the [uncompressed_files]-th on; the result is a
    well-formed archive. *)
Theorem init_spec cache now d :
  0 < rotate_after cache → 0 ≤ max_files cache → in_i64 now = true →
  in_i64 (now - max_files cache * rotate_after cache) = true → listing d = [] →
  ∃ d', quiet_run d (init cache now) (Ok ()) d'
    ∧ listing_with_dupes d' = initial_file cache now <$> seqZ 0 (max_files cache)
    ∧ archived d' = [] ∧ archive_wf d'.
Proof.
  intros Hpos Hm Hn Hr El. destruct (quiet_init cache now Hpos Hn Hr d El Hm) as (d' & Hq & Ht & Hd).
  exists d'. split_and!; [done | by apply tidy_with_dupes | | by eapply tidy_empty_wf].
  unfold archived. rw (tidy_listing _ _ Ht). revert Hd.
  generalize (initial_file cache now <$> seqZ 0 (max_files cache)). intros fs Hd. clear -Hd.
  induction fs as [|f fs IH]; simpl; [done |]. rw IH; [intros g Hg; apply Hd; by right |].
  unfold items_of, content. rw Hd //. left.
Qed.
End archive_props.

Lemma rotate_spec_witness :
  ∃ d', quiet_run ex_dir (rotate ex_cache 1500) (Ok (rotation_due ex_cache 1500 ex_dir)) d'
    ∧ listing_with_dupes d' = final_files ex_cache 1500 ex_dir
    ∧ (length (listing_with_dupes d') ≤ Z.to_nat (max_files ex_cache))%nat
    ∧ Forall (λ f, compressed f = true)
        (drop (Z.to_nat (uncompressed_files ex_cache)) (listing_with_dupes d'))
    ∧ items_of d' <$> listing d'
      = items_of (rotated_dir ex_cache 1500 ex_dir) <$> kept_files ex_cache 1500 ex_dir.
Proof. apply (rotate_spec ex_cache 1500 ex_dir); [done |]. apply (wf_canonical _ ex_dir_wf). Defined.

Lemma compress_crash_safe_witness :
  let f := started_file ex_cache 1000 in
  triple (λ d', d' = ex_dir) (compress_archive_file f)
    (λ _ d', view d' = view ex_dir ∧ ¬ on_disk d' f) (λ d', view d' = view ex_dir).
Proof.
  intros f. apply (compress_crash_safe ex_dir f).
  - apply (wf_canonical _ ex_dir_wf).
  - assert (listing ex_dir = f :: tail (listing ex_dir)) as -> by by vm_compute. left.
  - done.
Defined.

Lemma init_spec_witness :
  ∃ d', quiet_run ∅ (init ex_cache 1000) (Ok ()) d'
    ∧ listing_with_dupes d' = initial_file ex_cache 1000 <$> seqZ 0 (max_files ex_cache)
    ∧ archived d' = [] ∧ archive_wf d'.
Proof. by apply (init_spec ex_cache 1000 ∅). Defined.

(** ** The merging iterator, names and UPIDs *)

(** Calling [next] until it returns [None]; [fuel] bounds the number of calls. *)
Fixpoint drain (fuel : nat) (l r : list TaskCacheItem) : option (list TaskCacheItem) :=
  match fuel with
  | O => None
  | S fuel =>
      match merge_next l r with
      | None => Some []
      | Some (x, (l', r')) => cons x <$> drain fuel l' r'
      end
  end.

Lemma drain_merge_iter fuel : ∀ l r,
  (length l + length r < fuel)%nat → drain fuel l r = Some (merge_iter l r).
Proof.
  induction fuel as [|fuel IH]; intros l r Hf; [lia |]. simpl. rw merge_next_iter.
  destruct (merge_next l r) as [[x [l' r']]|] eqn:E; [| done].
  apply merge_next_length in E. rw IH; [lia | done].
Qed.

(** [MergeTaskIterator] terminates within one call more than there are items, and on inputs
    sorted as it expects (newest first, no task twice) it yields a list sorted the same way that
    contains every item of the left input, every item of the right one that the left has no
    record of, and nothing else. *)
Theorem merge_iterator_spec l r :
  task_strict l → task_strict r →
  ∃ out, drain (S (length l + length r)) l r = Some out
    ∧ task_strict out
    ∧ (∀ t, t ∈ l → t ∈ out)
    ∧ (∀ t, t ∈ r → ∃ t', t' ∈ out ∧ starttime t' = starttime t
                          ∧ to_string (upid t') = to_string (upid t))
    ∧ (∀ t, t ∈ out → t ∈ l ∨ t ∈ r).
Proof.
  intros Hl Hr. exists (merge_iter l r). split_and!.
  - apply drain_merge_iter. lia.
  - by apply merge_iter_task_strict.
  - intros t. apply merge_iter_left.
  - intros t Ht. destruct (merge_iter_right l r t Ht) as (x & Hx & [-> | [_ E]]).
    + by exists t.
    + apply compare_tasks_eq in E as [Es Eu]. by exists x.
  - intros t. apply merge_iter_sub.
Qed.

Lemma merge_iterator_spec_witness :
  let l := [ex_task 30 (Some 40); ex_task 10 (Some 12)] in
  let r := [ex_task 30 (Some 41); ex_task 20 (Some 21)] in
  ∃ out, drain (S (length l + length r)) l r = Some out
    ∧ task_strict out
    ∧ (∀ t, t ∈ l → t ∈ out)
    ∧ (∀ t, t ∈ r → ∃ t', t' ∈ out ∧ starttime t' = starttime t
                          ∧ to_string (upid t') = to_string (upid t))
    ∧ (∀ t, t ∈ out → t ∈ l ∨ t ∈ r).
Proof. intros l r. apply (merge_iterator_spec l r); by repeat constructor. Defined.

(** archive file names round-trip: the name built for a start time and compression flag
    parses back to them, different pairs have different names, and neither the active file nor
    the state file nor the journal is taken for an archive file. *)
Theorem archive_name_roundtrip z c :
  in_i64 z = true →
  parse_archive_filename (archive_path z c)
    = Some {| path := archive_path z c; compressed := c; af_starttime := z |}
  ∧ (∀ z' c', archive_path z' c' = archive_path z c → z' = z ∧ c' = c)
  ∧ Forall (λ n, parse_archive_filename n = None) [ACTIVE_FILENAME; STATE_FILENAME; WAL_FILENAME].
Proof.
  intros Hz. split_and!; [by apply parse_archive_path | intros z' c'; apply archive_path_inj |].
  apply Forall_forall. intros n. apply parse_archive_other.
Qed.

Lemma archive_name_roundtrip_witness :
  parse_archive_filename (archive_path (-5) true)
    = Some {| path := archive_path (-5) true; compressed := true; af_starttime := -5 |}
  ∧ (∀ z' c', archive_path z' c' = archive_path (-5) true → z' = -5 ∧ c' = true)
  ∧ Forall (λ n, parse_archive_filename n = None) [ACTIVE_FILENAME; STATE_FILENAME; WAL_FILENAME].
Proof. by apply (archive_name_roundtrip (-5) true). Defined.

(** the printed form of a remote UPID with a safe remote id parses back to it, so printing
    (the tie breaker of the task order) identifies the task; and whatever [from_str] accepts
    has a safe remote id and prints to a string that parses to the same value. *)
Theorem remote_upid_roundtrip `{SafeIdLaws} u s v :
  safe_id (ru_remote u) = true → from_str s = Ok v →
  from_str (to_string u) = Ok u ∧ safe_id (ru_remote v) = true
  ∧ from_str (to_string v) = Ok v ∧ (to_string u = to_string v → u = v).
Proof.
  intros Hu Hs. pose proof (from_str_safe s v Hs) as Hv.
  split_and!; [by apply from_str_to_string | done | by apply from_str_to_string |].
  by apply to_string_inj.
Qed.

Lemma remote_upid_roundtrip_witness :
  let u := ex_upid 7 in
  from_str (to_string u) = Ok u ∧ safe_id (ru_remote (ex_upid 8)) = true
  ∧ from_str (to_string (ex_upid 8)) = Ok (ex_upid 8)
  ∧ (to_string u = to_string (ex_upid 8) → u = ex_upid 8).
Proof.
  intros u. apply (remote_upid_roundtrip u "pve-remote!UPID:pve:8" (ex_upid 8)); by vm_compute.
Defined.

(** ** Where the code does not do what it means to *)

(** Init, a fetch with a running task of time 100 and a finished one of time 200, the journal
    applied, the same fetch again (the cutoff stays at the running task), all tasks listed. *)
Definition ex_overlap : IO (list Z) :=
  _ ← init ex_cache 250;
  _ ← update ex_cache [ex_task 100 None; ex_task 200 (Some 220)] ex_success ∅;
  _ ← apply_journal;
  _ ← update ex_cache [ex_task 100 None; ex_task 200 (Some 220)] ex_success ∅;
  all ← get_tasks All;
  mret (starttime <$> all).

(** [GetTasks::All] hands [MergeTaskIterator] the active file followed by the archive files as
    one input, which is not sorted as soon as a running task is older than an archived one.  When
    the journal holds a task that is also in the archive, which every re-fetch behind a running
    task causes, the listing contains that task twice. *)
Theorem get_tasks_all_duplicates : (run ex_overlap ∅).1 = Some [200; 100; 200].
Proof. by vm_compute. Qed.

(** A fetch that fails while the journal line of its task is written, and the next fetch. *)
Definition ex_torn_world : world :=
  World (run (init ex_cache 250) ∅).2 0 (λ n, bool_decide (n = 8%nat)).
Definition ex_after_torn : option Z * list Z :=
  let w := (update ex_cache [ex_task 200 (Some 210)] ex_success ∅ ex_torn_world).2 in
  let d := (run (update ex_cache [ex_task 230 (Some 240)] ex_success ∅) (disk w)).2 in
  (cutoff_timestamp (state_of d) "pve-remote" "pve", starttime <$> view d).

(** a write error inside a journal line leaves the line unterminated; the next update appends
    to it, so its first task cannot be decoded: the task is lost although the update succeeds and
    moves the cutoff past it. *)
Theorem torn_journal_line_loses_task :
  is_ok (update ex_cache [ex_task 200 (Some 210)] ex_success ∅ ex_torn_world).1 = false
  ∧ ex_after_torn = (Some 230, []).
Proof. by vm_compute. Qed.
