(* ===== verification/JobState.v ===== *)
(** * The states of scheduled jobs

    server/src/jobstate.rs, and the job that rotates the logs in
    server/src/bin/proxmox-datacenter-api/tasks/logrotate.rs, which is the one that uses it.  The
    state of a job is a file, which the holder of the lock of the job replaces.

    Parameters are the states of tasks and their ids, whether a worker is active, the time, the
    locks, the JSON text and the calendar events ([JobEnv]); what they say may change with every
    call of a file operation, which the [tick] of the world counts.  The types and names of jobs
    have no slash. *)
From S2P Require Import Prelude RustStr Disk.

#[local] Open Scope string_scope.

Inductive JobState (T : Type) :=
| Created (time : Z)
| Started (upid : string)
| Finished (upid : string) (state : T) (updated : option Z).
Arguments Created {_} _.
Arguments Started {_} _.
Arguments Finished {_} _ _ _.

Class JobEnv := {
  TaskState : Type;
  ts_unknown : Z → TaskState;                     (* TaskState::Unknown { endtime } *)
  ts_endtime : TaskState → Z;
  ts_text : TaskState → string;
  upid_starttime : string → option Z;             (* UPID::from_str, and its starttime *)
  worker_is_active : string → nat → bool;         (* worker_is_active_local *)
  upid_read_status : string → nat → option TaskState;
  job_clock : nat → Z;                            (* epoch_i64 *)
  job_lock : string → nat → option error;         (* open_api_lockfile: the error, or the lock is held *)
  job_text : JobState TaskState → option file;
  job_parse : file → option (JobState TaskState);
  next_event : string → option (Z → result string (option Z));   (* CalendarEvent and compute_next_event *)
}.
Class JobLaws `{JobEnv} : Prop := {
  job_parse_text s f : job_text s = Some f → job_parse f = Some s;
}.

Section jobs.
Context `{JobEnv}.
Abbreviation state := (JobState TaskState).

(** [Job] holds the lock of its job until it is dropped. *)
Record Job := { jobtype : string; jobname : string; job_state : state }.

Definition job_bail {A} (msg : string) : IO A := fail (Error OtherIo [msg]).
Definition ticks : IO nat := λ w, (Ok (tick w), w).
Definition clock : IO Z := t ← ticks; mret (job_clock t).
Definition job_need {A} (o : option A) (msg : string) : IO A := match o with Some a => mret a | None => job_bail msg end.

Definition get_path (jobtype jobname : string) : string := jobtype ++ "-" ++ jobname ++ ".json".
Definition lock_path (jobtype jobname : string) : string := jobtype ++ "-" ++ jobname ++ ".lck".
Definition get_lock (jobtype jobname : string) : IO () := λ w,
  match job_lock (lock_path jobtype jobname) (tick w) with Some e => (Err e, w) | None => (Ok (), w) end.

Definition write_state (j : Job) : IO () :=
  serialized ← job_need (job_text (job_state j)) "serialize";
  fs_replace (get_path (jobtype j) (jobname j)) serialized.
Definition job_new (jobtype jobname : string) : IO Job :=
  _ ← get_lock jobtype jobname;
  time ← clock;
  mret {| jobtype := jobtype; jobname := jobname; job_state := Created time |}.
Definition set_job_state (s : state) (j : Job) : Job := {| jobtype := jobtype j; jobname := jobname j; job_state := s |}.

(** What the job is afterwards, and the outcome *)
Definition job_start (upid : string) (j : Job) : IO (Job * result error ()) :=
  match job_state j with
  | Started _ => mret (j, Err (Error OtherIo ["cannot start job that is started!"]))
  | _ => let j := set_job_state (Started upid) j in
         r ← attempt (write_state j);
         mret (j, r)
  end.
Definition job_finish (s : TaskState) (j : Job) : IO (Job * result error ()) :=
  match match job_state j with Created _ => None | Started upid => Some upid | Finished upid _ _ => Some upid end with
  | None => mret (j, Err (Error OtherIo ["cannot finish when not started"]))
  | Some upid => let j := set_job_state (Finished upid s None) j in
                 r ← attempt (write_state j);
                 mret (j, r)
  end.

(** [JobState::load] *)
Definition job_load (jobtype jobname : string) : IO state :=
  f ← file_read_optional_string (get_path jobtype jobname);
  match f with
  | Some f =>
      s ← job_need (job_parse f) "deserialize";
      match s with
      | Started upid =>
          starttime ← job_need (upid_starttime upid) "error parsing upid";
          t ← ticks;
          mret (if negb (worker_is_active upid t)
                then Finished upid (default (ts_unknown starttime) (upid_read_status upid t)) None
                else Started upid)
      | other => mret other
      end
  | None => now ← clock; mret (Created (now - 30))
  end.

Definition remove_state_file (jobtype jobname : string) : IO () :=
  let remove (name what : string) : IO () :=
    r ← attempt (fs_remove name);
    match r with
    | Err e => match kind e with NotFound => mret () | OtherIo => job_bail ("cannot remove " ++ what) end
    | Ok _ => mret ()
    end in
  _ ← get_lock jobtype jobname;
  _ ← remove (get_path jobtype jobname) "statefile";
  remove (lock_path jobtype jobname) "lockfile".
Definition create_state_file (jobtype jobname : string) : IO () :=
  j ← job_new jobtype jobname;
  write_state j.
Definition update_job_last_run_time (jobtype jobname : string) : IO () :=
  j ← attempt (job_new jobtype jobname);
  match j with
  | Err _ => mret ()
  | Ok j =>
      time ← clock;
      s ← job_load jobtype jobname;
      match s with
      | Created _ => write_state (set_job_state (Created time) j)
      | Started _ => mret ()
      | Finished upid s _ => write_state (set_job_state (Finished upid s (Some time)) j)
      end
  end.
Definition last_run_time (jobtype jobname : string) : IO Z :=
  s ← job_load jobtype jobname;
  match s with
  | Created time => mret time
  | Finished _ _ (Some time) => mret time
  | Started upid | Finished upid _ None => job_need (upid_starttime upid) "could not parse upid from state"
  end.

Record JobScheduleStatus := {
  next_run : option Z; last_run_state : option string; last_run_upid : option string; last_run_endtime : option Z;
}.
Definition compute_schedule_status (s : state) (schedule : option string) : result string JobScheduleStatus :=
  '(upid, endtime, st, last) ←
    match s with
    | Created time => Ok (None, None, None, time)
    | Started upid => start ← ok_or (upid_starttime upid) "unable to parse upid"; Ok (Some upid, None, None, start)
    | Finished upid st updated =>
        Ok (Some upid, Some (ts_endtime st), Some (ts_text st), default (ts_endtime st) updated)
    end;
  Ok {| next_run := match schedule ≫= next_event with
                    | Some event => match event last with Ok next => next | Err _ => None end
                    | None => None
                    end;
        last_run_state := st; last_run_upid := upid; last_run_endtime := endtime |}.

(** ** The rotation of the logs *)
Definition check_schedule (worker_type event_str id : string) : IO bool :=
  match next_event event_str with
  | None => mret false
  | Some event =>
      last ← attempt (last_run_time worker_type id);
      match last with
      | Err _ => mret false
      | Ok last =>
          match event last with
          | Ok (Some next) => now ← clock; mret (Z.leb next now)
          | Ok None | Err _ => mret false
          end
      end
  end.

(** [worker] is the id of the task that is started for the job, if one can be, and [body] what the
    rotation does, with the state of the task in the end.  The result says whether the task ran. *)
Definition task_body (body : world → TaskState * world) : IO TaskState := λ w, let '(s, w') := body w in (Ok s, w').
Definition schedule_task_log_rotate (worker : option string) (body : world → TaskState * world) : IO bool :=
  let worker_type := "logrotate" in
  let job_id := "access-log_and_task-archive" in
  due ← check_schedule worker_type "00:00" job_id;
  run ← (if (due : bool) then mret true
         else s ← attempt (job_load worker_type job_id);
              mret (match s with Ok (Created _) => true | _ => false end));
  if negb run then mret false
  else
    j ← attempt (job_new worker_type job_id);
    match j, worker with
    | Ok j, Some upid =>
        '(j, started) ← job_start upid j;
        match started with
        | Err _ => mret false
        | Ok _ => s ← task_body body; _ ← job_finish s j; mret true
        end
    | _, _ => mret false
    end.
End jobs.

(** ** What is recorded *)
Section recorded.
Context `{JobLaws}.
Abbreviation state := (JobState TaskState).

Definition job_at (d : dir) (jobtype jobname : string) : option state := d !! get_path jobtype jobname ≫= job_parse.
(** The file has the state of the job, and no other file has changed; or nothing has. *)
Definition recorded (j : Job) (o : result error ()) (d d' : dir) : Prop :=
  match o with
  | Ok _ => job_at d' (jobtype j) (jobname j) = Some (job_state j)
            ∧ ∀ p, p ≠ get_path (jobtype j) (jobname j) → d' !! p = d !! p
  | Err _ => d' = d
  end.

Lemma write_state_spec j w : let '(r, w') := write_state j w in recorded j r (disk w) (disk w') ∧ faults w' = faults w.
Proof.
  unfold write_state, job_need, job_bail, fail, fs_replace, syscall, get_disk, put_disk. unfold mbind, mret, IO_bind, IO_ret.
  destruct (job_text (job_state j)) as [f|] eqn:Ef; [| by split]. cbn. destruct (faults w (tick w)); [by split |]. cbn.
  split; [| done]. split.
  - unfold job_at. rw lookup_insert_eq. simpl. by apply job_parse_text.
  - intros p Hp. by rw lookup_insert_ne.
Qed.
Lemma write_state_ok j w f : faults w (tick w) = false → job_text (job_state j) = Some f →
  ∃ w', write_state j w = (Ok (), w') ∧ faults w' = faults w.
Proof. intros Hw Hf. unfold write_state, job_need, fs_replace, syscall, get_disk, put_disk, mbind, IO_bind. rw Hf /= Hw. by eexists. Qed.

Definition is_started (s : state) : bool := match s with Started _ => true | _ => false end.
Definition upid_of (s : state) : option string :=
  match s with Created _ => None | Started u | Finished u _ _ => Some u end.

Lemma job_start_spec upid j w :
  let '(r, w') := job_start upid j w in
  ∃ j' o, r = Ok (j', o) ∧
    if is_started (job_state j) then (∃ e, o = Err e) ∧ j' = j ∧ w' = w
    else j' = set_job_state (Started upid) j ∧ recorded j' o (disk w) (disk w').
Proof.
  unfold job_start. destruct (job_state j) as [t|u|u s t] eqn:Es; simpl.
  2:{ eexists _, _. split; [done |]. by split; [eexists |]. }
  all: unfold attempt, mbind, IO_bind; pose proof (write_state_spec (set_job_state (Started upid) j) w) as Hw;
    destruct (write_state _ w) as [r w']; eexists _, _; split; [done |]; split; [done | apply Hw].
Qed.
Lemma job_finish_spec s j w :
  let '(r, w') := job_finish s j w in
  ∃ j' o, r = Ok (j', o) ∧
    match upid_of (job_state j) with
    | None => (∃ e, o = Err e) ∧ j' = j ∧ w' = w
    | Some upid => j' = set_job_state (Finished upid s None) j ∧ recorded j' o (disk w) (disk w')
    end.
Proof.
  unfold job_finish. destruct (job_state j) as [t|u|u s' t] eqn:Es; simpl.
  1:{ eexists _, _. split; [done |]. by split; [eexists |]. }
  all: unfold attempt, mbind, IO_bind; pose proof (write_state_spec (set_job_state (Finished u s None) j) w) as Hw;
    destruct (write_state _ w) as [r w']; eexists _, _; split; [done |]; split; [done | apply Hw].
Qed.

(** *** Reading *)
Definition settle (s : state) (t : nat) : option state :=
  match s with
  | Started upid =>
      start ← upid_starttime upid;
      Some (if worker_is_active upid t then Started upid
            else Finished upid (default (ts_unknown start) (upid_read_status upid t)) None)
  | s => Some s
  end.
Lemma job_load_spec jt jn w :
  let '(r, w') := job_load jt jn w in
  disk w' = disk w ∧ faults w' = faults w ∧
  match r with
  | Ok s => match disk w !! get_path jt jn with
            | None => s = Created (job_clock (tick w') - 30)
            | Some f => ∃ s0, job_parse f = Some s0 ∧ settle s0 (tick w') = Some s
            end
  | Err _ => faults w (tick w) = true ∨ ∃ f, disk w !! get_path jt jn = Some f ∧ job_parse f ≫= (λ s, settle s (tick w')) = None
  end.
Proof.
  unfold job_load, file_read_optional_string, fs_open, attempt, syscall, get_disk, enoent, fail, clock, ticks, job_need, job_bail.
  unfold mbind, mret, IO_bind, IO_ret. destruct (faults w (tick w)) eqn:Ef; simpl; [split_and!; auto |].
  destruct (disk w !! get_path jt jn) as [f|] eqn:Ed; simpl; [| by split_and!].
  destruct (job_parse f) as [s|] eqn:Ep; simpl; [| split_and!; eauto; right; exists f; by rw Ep].
  destruct s as [t|u|u s t]; simpl; [split_and!; eauto | | split_and!; eauto].
  destruct (upid_starttime u) as [st|] eqn:Eu; simpl.
  - split_and!; [done | done |]. exists (Started u). split; [done |]. simpl. rw Eu. simpl. by destruct (worker_is_active u _).
  - split_and!; [done | done |]. right. exists f. rw Ep. simpl. by rw Eu.
Qed.

(** *** Runs without faults *)
Definition bump (w : world) : world := World (disk w) (S (tick w)) (faults w).
Definition no_faults (w : world) : Prop := ∀ t, faults w t = false.
(** What is loaded, if the file does not say that the job runs *)
Definition loaded (jt jn : string) (w : world) : result error state :=
  match disk w !! get_path jt jn with
  | None => Ok (Created (job_clock (S (tick w)) - 30))
  | Some f => match job_parse f with Some s => Ok s | None => Err (Error OtherIo ["deserialize"]) end
  end.
Lemma job_load_run jt jn w :
  no_faults w → (∀ u, job_at (disk w) jt jn ≠ Some (Started u)) → job_load jt jn w = (loaded jt jn w, bump w).
Proof.
  intros Hw Hs. unfold job_load, loaded, file_read_optional_string, fs_open, attempt, syscall, get_disk, enoent, fail, clock, ticks,
    job_need, job_bail, mbind, mret, IO_bind, IO_ret. rw (Hw (tick w)). cbn. unfold job_at in Hs.
  destruct (disk w !! get_path jt jn) as [f|] eqn:Ed; [| done]. cbn. simpl in Hs.
  destruct (job_parse f) as [[t|u|u s t]|] eqn:Ep; try done. by destruct (Hs u).
Qed.

(** When a job is due: at once if it has never run, else at the next event after it was started last,
    or after the time that was set since *)
Definition last_run (s : state) : option Z :=
  match s with
  | Created time => Some time
  | Started u => upid_starttime u
  | Finished u _ updated => match updated with Some t => Some t | None => upid_starttime u end
  end.
Definition past_event (schedule : string) (last now : Z) : bool :=
  match next_event schedule with
  | Some event => match event last with Ok (Some next) => Z.leb next now | _ => false end
  | None => false
  end.
Definition is_due (s : state) (schedule : string) (now : Z) : bool :=
  match s with
  | Created _ => true
  | _ => match last_run s with Some last => past_event schedule last now | None => false end
  end.

Lemma last_run_time_run jt jn w :
  no_faults w → (∀ u, job_at (disk w) jt jn ≠ Some (Started u)) →
  last_run_time jt jn w
  = (match loaded jt jn w with
     | Ok s => match last_run s with Some t => Ok t | None => Err (Error OtherIo ["could not parse upid from state"]) end
     | Err e => Err e
     end, bump w).
Proof.
  intros Hw Hs. unfold last_run_time, mbind, mret, IO_bind, IO_ret. rw (job_load_run _ _ _ Hw Hs).
  destruct (loaded jt jn w) as [[t|u|u s [t|]]|e]; try done; simpl; unfold job_need; by destruct (upid_starttime u).
Qed.
Lemma check_schedule_run jt schedule jn w :
  no_faults w → (∀ u, job_at (disk w) jt jn ≠ Some (Started u)) →
  ∃ w', check_schedule jt schedule jn w
        = (Ok match loaded jt jn w with
              | Ok s => match last_run s with
                        | Some last => past_event schedule last (job_clock (S (tick w)))
                        | None => false
                        end
              | Err _ => false
              end, w')
    ∧ disk w' = disk w ∧ faults w' = faults w ∧ (tick w ≤ tick w')%nat.
Proof.
  intros Hw Hs. unfold check_schedule, past_event. destruct (next_event schedule) as [event|].
  2:{ exists w. split; [| done]. destruct (loaded jt jn w) as [s|]; [by destruct (last_run s) | done]. }
  unfold attempt, mbind, mret, IO_bind, IO_ret. rw (last_run_time_run _ _ _ Hw Hs).
  exists (bump w). split; [| split_and!; [done | done | simpl; lia]]. destruct (loaded jt jn w) as [s|]; [| done].
  destruct (last_run s) as [t|]; [| done]. by destruct (event t) as [[next|]|].
Qed.

(** What the rotation does with the state of its job *)
Abbreviation at_rotation d := (job_at d "logrotate" "access-log_and_task-archive").
Definition rotation_due (w : world) : bool :=
  match loaded "logrotate" "access-log_and_task-archive" w with
  | Ok s => is_due s "00:00" (job_clock (S (tick w)))
  | Err _ => false
  end.

Lemma start_run upid j w : no_faults w → is_started (job_state j) = false → is_Some (job_text (Started upid)) →
  ∃ w', job_start upid j w = (Ok (set_job_state (Started upid) j, Ok ()), w') ∧ no_faults w'.
Proof.
  intros Hw Hj [f Hf]. destruct (write_state_ok (set_job_state (Started upid) j) w f (Hw _) Hf) as (w' & E & Ef).
  exists w'. unfold job_start, attempt, mbind, mret, IO_bind, IO_ret. split; [| intros t; by rw Ef].
  by destruct (job_state j); try discriminate Hj; rw E.
Qed.
Lemma finish_run u s j w : no_faults w → job_state j = Started u → is_Some (job_text (Finished u s None)) →
  let '(r, w') := job_finish s j w in
  (∃ j', r = Ok (j', Ok ())) ∧ job_at (disk w') (jobtype j) (jobname j) = Some (Finished u s None).
Proof.
  intros Hw Hj [f Hf]. destruct (write_state_ok (set_job_state (Finished u s None) j) w f (Hw _) Hf) as (w' & E & _).
  pose proof (write_state_spec (set_job_state (Finished u s None) j) w) as Hr. rw E in Hr. destruct Hr as [[Hr _] _].
  unfold job_finish, attempt, mbind, mret, IO_bind, IO_ret. rw Hj E. split; [by eexists | exact Hr].
Qed.
(** The decision, and what is left to do *)
Lemma io_run {A B} (m : IO A) (f : A → IO B) w a w1 : m w = (Ok a, w1) → (m ≫= f) w = f a w1.
Proof. unfold mbind, IO_bind. by intros ->. Qed.
Lemma rotation_decision w : no_faults w → (∀ u, at_rotation (disk w) ≠ Some (Started u)) →
  ∃ w1, disk w1 = disk w ∧ no_faults w1 ∧ ∀ worker body,
    schedule_task_log_rotate worker body w
    = (if rotation_due w
       then j ← attempt (job_new "logrotate" "access-log_and_task-archive");
            match j, worker with
            | Ok j, Some upid =>
                '(j, started) ← job_start upid j;
                match started with
                | Err _ => mret false
                | Ok _ => s ← task_body body; _ ← job_finish s j; mret true
                end
            | _, _ => mret false
            end
       else mret false) w1.
Proof.
  intros Hw Hs. destruct (check_schedule_run "logrotate" "00:00" "access-log_and_task-archive" w Hw Hs) as (w1 & Ec & Hd & Hf & _).
  assert (no_faults w1) as Hw1 by by intros t; rw Hf.
  assert (job_load "logrotate" "access-log_and_task-archive" w1
    = (loaded "logrotate" "access-log_and_task-archive" w1, bump w1)) as El.
  { apply job_load_run; [done |]. by rw Hd. }
  assert (match loaded "logrotate" "access-log_and_task-archive" w1 with Ok (Created _) => true | _ => false end
    = match loaded "logrotate" "access-log_and_task-archive" w with Ok (Created _) => true | _ => false end) as Ecr.
  { unfold loaded. rw Hd. by destruct (disk w !! _). }
  unfold rotation_due, is_due. destruct (loaded "logrotate" "access-log_and_task-archive" w) as [l|e] eqn:Hl.
  2:{ exists (bump w1). split; [done |]. split; [done |]. intros worker body. unfold schedule_task_log_rotate. cbv zeta.
      rw (io_run _ _ _ _ _ Ec) (io_run _ _ _ false (bump w1)); [| done].
      unfold attempt, mbind, IO_bind, mret, IO_ret. by rw El Ecr. }
  match type of Ec with _ = (Ok ?c, _) => destruct c eqn:E end.
  - exists w1. split; [done |]. split; [done |]. intros worker body. unfold schedule_task_log_rotate. cbv zeta.
    rw (io_run _ _ _ _ _ Ec) (io_run _ _ _ true w1); [done |]. by destruct l; try rw E.
  - exists (bump w1). split; [done |]. split; [done |]. intros worker body. unfold schedule_task_log_rotate. cbv zeta.
    rw (io_run _ _ _ _ _ Ec) (io_run _ _ _ (match l with Created _ => true | _ => false end) (bump w1)).
    { unfold attempt, mbind, IO_bind, mret, IO_ret. by rw El Ecr. }
    by destruct l; try rw E.
Qed.

Lemma job_load_recorded jt jn w s f :
  no_faults w → disk w !! get_path jt jn = Some f → job_parse f = Some s → is_Some (upid_of s ≫= upid_starttime) →
  ∃ s', job_load jt jn w = (Ok s', bump w) ∧ settle s (tick (bump w)) = Some s'.
Proof.
  intros Hw Hf Hp [start Hu]. unfold job_load, file_read_optional_string, fs_open, attempt, syscall, get_disk, ticks, job_need,
    mbind, mret, IO_bind, IO_ret. rw (Hw (tick w)). cbn. rw Hf Hp.
  destruct s as [t|u|u s t]; [done | | by eexists]. simpl in Hu. rw Hu. cbn. rw Hu. by destruct (worker_is_active u _); eexists.
Qed.

(** The state of a job says what became of its task.  Starting a job that does not run either records the task in the file of
    the job and changes no other file, or changes nothing and says so.  As long as nobody replaces that file, whoever reads it
    learns that the task runs while its worker is active, and how it ended, as far as that is known, when it is not.  Finishing
    the job records how the task ended, or changes nothing and says so. *)
Theorem job_recorded upid s j w :
  is_started (job_state j) = false → is_Some (upid_starttime upid) →
  let path := get_path (jobtype j) (jobname j) in
  let '(r, w1) := job_start upid j w in
  ∃ j1 o, r = Ok (j1, o) ∧
    match o with
    | Err _ => disk w1 = disk w
    | Ok _ => (∀ p, p ≠ path → disk w1 !! p = disk w !! p)
        ∧ (∀ w2, no_faults w2 → disk w2 !! path = disk w1 !! path →
             ∃ st, job_load (jobtype j) (jobname j) w2 = (Ok st, bump w2) ∧ settle (Started upid) (tick (bump w2)) = Some st)
        ∧ ∀ w2, let '(r2, w3) := job_finish s j1 w2 in
            ∃ j2 o2, r2 = Ok (j2, o2) ∧
              match o2 with
              | Err _ => disk w3 = disk w2
              | Ok _ => (∀ p, p ≠ path → disk w3 !! p = disk w2 !! p)
                  ∧ ∀ w4, no_faults w4 → disk w4 !! path = disk w3 !! path →
                      job_load (jobtype j) (jobname j) w4 = (Ok (Finished upid s None), bump w4)
              end
    end.
Proof.
  intros Hj Hu path. pose proof (job_start_spec upid j w) as Hstart. destruct (job_start upid j w) as [r w1].
  destruct Hstart as (j1 & o & -> & Hstart). rw Hj in Hstart. destruct Hstart as [-> Hrec]. exists (set_job_state (Started upid) j), o.
  split; [done |]. destruct o; [| exact Hrec]. destruct Hrec as [Hat Hothers]. split; [exact Hothers |]. split.
  - intros w2 Hw2 Hsame. unfold job_at in Hat. simpl in Hat. fold path in Hat. rw -Hsame in Hat.
    destruct (disk w2 !! path) as [f|] eqn:Hf; [| done]. by apply (job_load_recorded _ _ _ (Started upid) f).
  - intros w2. pose proof (job_finish_spec s (set_job_state (Started upid) j) w2) as Hfin.
    destruct (job_finish s _ w2) as [r2 w3]. destruct Hfin as (j2 & o2 & -> & -> & Hrec2). eexists _, o2. split; [done |].
    destruct o2; [| exact Hrec2]. destruct Hrec2 as [Hat2 Hothers2]. split; [exact Hothers2 |].
    intros w4 Hw4 Hsame. unfold job_at in Hat2. simpl in Hat2. fold path in Hat2. rw -Hsame in Hat2.
    destruct (disk w4 !! path) as [f|] eqn:Hf; [| done].
    destruct (job_load_recorded (jobtype j) (jobname j) w4 (Finished upid s None) f Hw4 Hf Hat2 Hu) as (st & -> & Hst).
    simpl in Hst. by injection Hst as <-.
Qed.

(** The rotation runs exactly when it is due: if its job has never run, or an event of its schedule has passed since it ran
    last.  Then its task is recorded as finished, with the state it ended in; otherwise no file changes. *)
Theorem rotation_runs_when_due upid body w :
  no_faults w → (∀ u, at_rotation (disk w) ≠ Some (Started u)) →
  (∀ t, job_lock (lock_path "logrotate" "access-log_and_task-archive") t = None) →
  is_Some (job_text (Started upid)) → (∀ s, is_Some (job_text (Finished upid s None))) →
  (∀ w, no_faults w → no_faults (body w).2) →
  let '(r, w') := schedule_task_log_rotate (Some upid) body w in
  r = Ok (rotation_due w) ∧
  if rotation_due w then ∃ w2, at_rotation (disk w') = Some (Finished upid (body w2).1 None) else disk w' = disk w.
Proof.
  intros Hw Hs Hlock Hst Hfin Hbody. destruct (rotation_decision w Hw Hs) as (w1 & Hd & Hw1 & Hrun). rw (Hrun (Some upid) body).
  destruct (rotation_due w); [| done]. set (j := {| jobtype := "logrotate"; jobname := "access-log_and_task-archive"; job_state := Created (job_clock (tick w1)) |}).
  rw (io_run _ _ w1 (Ok j) w1).
  { unfold attempt, job_new, get_lock, clock, ticks, mbind, IO_bind, mret, IO_ret. by rw Hlock. }
  destruct (start_run upid j w1 Hw1 eq_refl Hst) as (w2 & Hj & Hw2). rw (io_run _ _ _ _ _ Hj). cbn beta iota.
  specialize (Hbody w2 Hw2). unfold task_body, mbind, IO_bind. destruct (body w2) as [s w3] eqn:Eb. simpl in Hbody.
  pose proof (finish_run upid s (set_job_state (Started upid) j) w3 Hbody eq_refl (Hfin s)) as Hend.
  destruct (job_finish s _ w3) as [r w4]. destruct Hend as [(j' & ->) Hat]. split; [done |]. exists w2. by rw Eb.
Qed.
End recorded.

(** ** A concrete job

    Tasks end at the time that is their state, every task started at 50, and a job runs every hundred seconds. *)
Global Instance JobState_eq_dec {T} `{EqDecision T} : EqDecision (JobState T).
Proof. solve_decision. Defined.
Global Instance JobState_countable {T} `{Countable T} : Countable (JobState T).
Proof.
  refine (inj_countable'
    (λ s, match s with Created t => inl t | Started u => inr (inl u) | Finished u s t => inr (inr (u, s, t)) end)
    (λ x, match x with inl t => Created t | inr (inl u) => Started u | inr (inr (u, s, t)) => Finished u s t end) _). by intros [].
Defined.
#[local] Instance ex_job_env : JobEnv := {|
  TaskState := Z; ts_unknown := id; ts_endtime := id; ts_text := λ _, "OK"; upid_starttime := λ _, Some 50%Z;
  worker_is_active := λ _ t, bool_decide (t < 3)%nat; upid_read_status := λ _ _, Some 90%Z; job_clock := λ t, (100 + Z.of_nat t)%Z;
  job_lock := λ _ _, None; job_text := λ s, Some [Text (pos_string (encode s))];
  job_parse := λ f, match f with [Text s] => decode (string_pos s) | _ => None end;
  next_event := λ _, Some (λ last, Ok (Some (last + 100)%Z)) |}.
#[local] Instance ex_job_laws : JobLaws.
Proof. split. intros s f [= <-]. simpl. by rw string_pos_pos_string decode_encode. Qed.

Definition ex_rotate (w : world) : result error bool * world := schedule_task_log_rotate (Some "rotate") (λ w, (90%Z, w)) w.
(** The first time the rotation runs; just after that it is not due; while the first worker runs the job counts as running. *)
Lemma rotation_runs_when_due_witness :
  (ex_rotate (quiet_world ∅)).1 = Ok true ∧ job_at (disk (ex_rotate (quiet_world ∅)).2) "logrotate" "access-log_and_task-archive" = Some (Finished "rotate" 90%Z None)
  ∧ (ex_rotate (quiet_world (disk (ex_rotate (quiet_world ∅)).2))).1 = Ok false.
Proof.
  assert (rotation_due (quiet_world ∅) = true) as Hdue by (vm_compute; reflexivity).
  pose proof (rotation_runs_when_due "rotate" (λ w, (90%Z, w)) (quiet_world ∅) (λ _, eq_refl)) as Ht.
  fold (ex_rotate (quiet_world ∅)) in Ht. destruct (ex_rotate (quiet_world ∅)) as [r w'] eqn:Er.
  destruct Ht as [Hr Ht]; [intros u; vm_compute; discriminate | done | by eexists | by intros s; eexists | done |].
  rw Hdue in Hr Ht. destruct Ht as [w2 Ht]. split; [exact Hr |]. split; [exact Ht |].
  assert (w' = (ex_rotate (quiet_world ∅)).2) as -> by by rw Er. vm_compute. reflexivity.
Defined.
Lemma job_recorded_witness :
  ∃ st, job_load "rotate" "logs" (World (disk (job_start "upid" {| jobtype := "rotate"; jobname := "logs"; job_state := Created 1 |}
    (quiet_world ∅)).2) 5 (λ _, false)) = (Ok st, World (disk (job_start "upid" {| jobtype := "rotate"; jobname := "logs"; job_state := Created 1 |}
    (quiet_world ∅)).2) 6 (λ _, false)) ∧ st = Finished "upid" 90%Z None.
Proof.
  pose proof (job_recorded "upid" 90%Z {| jobtype := "rotate"; jobname := "logs"; job_state := Created 1 |} (quiet_world ∅) eq_refl
    ltac:(by eexists)) as Ht.
  destruct (job_start _ _ (quiet_world ∅)) as [r w1] eqn:Er. destruct Ht as (j1 & o & -> & Ht).
  assert (o = Ok ()) as ->. { apply (f_equal fst) in Er. vm_compute in Er. by injection Er as <-. }
  destruct Ht as (_ & Ht & _). destruct (Ht (World (disk w1) 5 (λ _, false)) (λ _, eq_refl) eq_refl) as (st & E & Hst).
  exists st. split; [exact E |]. vm_compute in Hst. congruence.
Defined.
