(* ===== verification/SubscriptionTypes.v ===== *)
(** * Subscription keys

    The types and the key helpers of lib/pdm-api-types/src/subscription.rs: levels, product
    types, the key pattern, socket counts and the choice of a key for a node.  The subscription
    status is proxmox-subscription's; the variants the program distinguishes are named.
    The second part has the summary state of a remote. *)
From S2P Require Import Prelude RustStr Remotes.

#[local] Open Scope string_scope.

(** ** Levels *)
Inductive SubscriptionLevel :=
| LevelNone | LevelUnknown | Community | Basic | Standard | Premium.

Global Instance SubscriptionLevel_eq_dec : EqDecision SubscriptionLevel.
Proof. solve_decision. Defined.

(** The derived order: by position. *)
Definition level_rank (l : SubscriptionLevel) : Z :=
  match l with
  | LevelNone => 0 | LevelUnknown => 1 | Community => 2
  | Basic => 3 | Standard => 4 | Premium => 5
  end.

(** [FromStr]: never fails *)
Definition level_from_str (s : string) : SubscriptionLevel :=
  match s with
  | "p" | "premium" | "Premium" => Premium
  | "s" | "standard" | "Standard" => Standard
  | "b" | "basic" | "Basic" => Basic
  | "c" | "community" | "Community" => Community
  | "" | "none" | "None" => LevelNone
  | _ => LevelUnknown
  end.

Definition show_level (l : SubscriptionLevel) : string :=
  match l with
  | LevelNone => "None" | LevelUnknown => "Unknown" | Community => "Community"
  | Basic => "Basic" | Standard => "Standard" | Premium => "Premium"
  end.

Fixpoint last_char (s : string) : option ascii :=
  match s with
  | EmptyString => None
  | String a EmptyString => Some a
  | String _ s' => last_char s'
  end.

(** [from_key]: the slice of the last byte panics ([None]) when that byte is inside a UTF-8
    sequence. *)
Definition level_from_key (key : option string) : option SubscriptionLevel :=
  match key with
  | None | Some "" => Some LevelNone
  | Some key =>
      let key_type := match split_once "-"%char key with Some (l, _) => l | None => "" end in
      match last_char key_type with
      | None => Some LevelUnknown
      | Some c => if is_continuation c then None else Some (level_from_str (String c ""))
      end
  end.

(** ** Products *)
Inductive ProductType := PPve | PPbs | PPmg | PPom.

Global Instance ProductType_eq_dec : EqDecision ProductType.
Proof. solve_decision. Defined.

Definition as_section_type (p : ProductType) : string :=
  match p with PPve => "pve" | PPbs => "pbs" | PPmg => "pmg" | PPom => "pom" end.

Definition product_from_key (key : string) : option ProductType :=
  match split_once "-"%char key with
  | None => None
  | Some (prefix, _) =>
      if starts_with "pve" prefix then Some PPve
      else if starts_with "pbs" prefix then Some PPbs
      else if starts_with "pmg" prefix then Some PPmg
      else if starts_with "pom" prefix then Some PPom
      else None
  end.

Definition matches_remote_type (p : ProductType) (t : RemoteType) : bool :=
  match p, t with
  | PPve, Pve | PPbs, Pbs => true
  | _, _ => false
  end.

(** ** The key pattern

    [PRODUCT_KEY_REGEX], [^(?:pve[0-9]+|pbs)[cbsp]-[0-9a-f]{10}$], and the lengths of
    [SUBSCRIPTION_KEY_SCHEMA]. *)
Definition is_level_char (c : ascii) : bool :=
  Ascii.eqb c "c" || Ascii.eqb c "b" || Ascii.eqb c "s" || Ascii.eqb c "p".
Definition is_hex_char (c : ascii) : bool := is_ascii_digit c || in_range "a" "f" c.

(** [[cbsp]-[0-9a-f]{10}$] *)
Definition key_tail (s : string) : bool :=
  match s with
  | String l (String d rest) =>
      is_level_char l && Ascii.eqb d "-" && (String.length rest =? 10)%nat
        && forall_char is_hex_char rest
  | _ => false
  end.
(** [[0-9]*] followed by the tail; digits and level letters do not overlap, so the match is
    deterministic. *)
Fixpoint digits_tail (s : string) : bool :=
  match s with
  | EmptyString => false
  | String c s' => if is_ascii_digit c then digits_tail s' else key_tail s
  end.
Definition product_key_regex (s : string) : bool :=
  match strip_prefix "pve" s with
  | Some (String c r) => is_ascii_digit c && digits_tail r
  | Some "" => false
  | None => match strip_prefix "pbs" s with Some r => key_tail r | None => false end
  end.
Definition subscription_key_schema (s : string) : bool :=
  (15 <=? String.length s)%nat && (String.length s <=? 18)%nat && product_key_regex s.

(** ** Socket counts *)
Definition socket_count_from_key (key : string) : option Z :=
  match split_once "-"%char key with
  | None => None
  | Some (prefix, _) =>
      match strip_prefix "pve" prefix with
      | None => None
      | Some after_pve => parse_u32 (take_while is_ascii_digit after_pve)
      end
  end.

Definition pick_best_pve_socket_key {K} (node_sockets : Z) (candidates : list (K * string))
    : option K :=
  fst <$> min_by_key snd
    (base.filter (λ p, node_sockets ≤ p.2)%Z
       (filter_map (λ c, (λ s, (c.1, s)) <$> socket_count_from_key c.2) candidates)).

(** ** Entries *)
Inductive SubscriptionStatus := New | Active | NotFoundStatus | OtherStatus (s : string).

Global Instance SubscriptionStatus_eq_dec : EqDecision SubscriptionStatus.
Proof. solve_decision. Defined.

Inductive SubscriptionKeySource := Manual | Adopted.

Global Instance SubscriptionKeySource_eq_dec : EqDecision SubscriptionKeySource.
Proof. solve_decision. Defined.

Record SubscriptionKeyEntry := {
  key : string;
  product_type : ProductType;
  level : SubscriptionLevel;
  source : SubscriptionKeySource;
  remote : option string;
  node : option string;
  pending_clear : bool;
  serverid : option string;
  sub_status : SubscriptionStatus;
  next_due_date : option string;
  product_name : option string;
  check_time : option Z;
}.

Global Instance SubscriptionKeyEntry_eq_dec : EqDecision SubscriptionKeyEntry.
Proof. solve_decision. Defined.

Record NodeSubscriptionInfo := {
  ni_status : SubscriptionStatus;
  ni_sockets : option Z;
  ni_key : option string;
  ni_level : SubscriptionLevel;
  ni_serverid : option string;
  ni_check_time : option Z;
  ni_next_due_date : option string;
}.

Record ServeridMismatch := { mm_key : string; expected : string; actual : string }.

(** [verify_serverid]: nothing to compare when one of the ids is missing *)
Definition verify_serverid (e : SubscriptionKeyEntry) (remote_serverid : option string)
    : option ServeridMismatch :=
  match serverid e, remote_serverid with
  | Some exp, Some act =>
      if String.eqb exp act then None
      else Some {| mm_key := key e; expected := exp; actual := act |}
  | _, _ => None
  end.

Record RemoteNodeStatus := {
  ns_remote : string;
  ns_ty : RemoteType;
  ns_node : string;
  ns_sockets : option Z;
  ns_status : SubscriptionStatus;
  ns_level : SubscriptionLevel;
  ns_assigned_key : option string;
  ns_current_key : option string;
  ns_pending_clear : bool;
  ns_check_time : option Z;
  ns_next_due_date : option string;
}.

Record ProposedAssignment := {
  pa_key : string;
  pa_remote : string;
  pa_node : string;
  pa_key_sockets : option Z;
  pa_node_sockets : option Z;
}.

Record AdoptedEntry := { ad_remote : string; ad_node : string; ad_key : string }.

(** ** Lemmas *)

(** *** Keys that match the pattern *)
Lemma key_tail_inv s :
  key_tail s = true →
  ∃ l rest, s = String l (String "-" rest) ∧ is_level_char l = true ∧ String.length rest = 10.
Proof.
  destruct s as [|l [|d rest]]; simpl; try done.
  rw !andb_true_iff. intros [[[Hl Hd] Hlen] _].
  apply Ascii.eqb_eq in Hd as ->. apply Nat.eqb_eq in Hlen. eauto.
Qed.

Lemma digits_tail_inv s :
  digits_tail s = true →
  ∃ ds l rest, s = ds ++ String l (String "-" rest) ∧ forall_char is_ascii_digit ds = true
               ∧ is_level_char l = true ∧ String.length rest = 10.
Proof.
  induction s as [|c s IH]; [done |]. cbn [digits_tail].
  destruct (is_ascii_digit c) eqn:Ed.
  - intros (ds & l & rest & -> & Hds & Hl & Hr)%IH. exists (String c ds), l, rest.
    simpl. by rw Ed.
  - intros (l & rest & E & Hl & Hr)%key_tail_inv. exists "", l, rest. by rw E.
Qed.

(** A valid key in full: prefix, level letter, dash and secret. *)
Lemma key_schema_inv s :
  subscription_key_schema s = true →
  ∃ ds l rest, is_level_char l = true ∧ String.length rest = 10
    ∧ forall_char is_ascii_digit ds = true
    ∧ ((s = "pve" ++ ds ++ String l (String "-" rest) ∧ (1 ≤ String.length ds ≤ 3)%nat)
       ∨ (s = "pbs" ++ String l (String "-" rest) ∧ ds = "")).
Proof.
  unfold subscription_key_schema, product_key_regex. rw !andb_true_iff !Nat.leb_le.
  intros [[Hlo Hhi] Hr]. destruct (strip_prefix "pve" s) as [r|] eqn:E.
  - apply strip_prefix_Some in E as ->. destruct r as [|c r]; [done |].
    apply andb_true_iff in Hr as [Hc (ds & l & rest & -> & Hds & Hl & Hlen)%digits_tail_inv].
    exists (String c ds), l, rest. simpl. rw Hc Hds. split_and!; [done | done | done |].
    left. split; [done |]. rw string_length_app in Hhi. simpl in Hhi. rw string_length_app in Hhi.
    simpl in Hhi. lia.
  - destruct (strip_prefix "pbs" s) as [r|] eqn:E'; [| done].
    apply strip_prefix_Some in E' as ->. apply key_tail_inv in Hr as (l & rest & -> & Hl & Hlen).
    exists "", l, rest. split_and!; [done | done | done |]. by right.
Qed.

Lemma digits_no_dash ds : forall_char is_ascii_digit ds = true → has_char "-" ds = false.
Proof. intros H. by apply (forall_char_has is_ascii_digit). Qed.

Lemma level_char_cases l : is_level_char l = true → l ∈ ["c"; "b"; "s"; "p"]%char.
Proof.
  unfold is_level_char. rw !orb_true_iff !Ascii.eqb_eq. set_solver.
Qed.

Lemma take_while_digits ds l :
  forall_char is_ascii_digit ds = true → is_level_char l = true →
  take_while is_ascii_digit (ds ++ String l "") = ds.
Proof.
  intros Hds Hl. induction ds as [|c ds IH]; simpl in *.
  - apply level_char_cases in Hl. rw !elem_of_cons elem_of_nil in Hl.
    destruct Hl as [-> | [-> | [-> | [-> | []]]]]; done.
  - apply andb_true_iff in Hds as [-> Hds]. by rw IH.
Qed.

Lemma key_schema_split s :
  subscription_key_schema s = true →
  ∃ ds l rest, is_level_char l = true ∧ forall_char is_ascii_digit ds = true
    ∧ ((split_once "-" s = Some ("pve" ++ ds ++ String l "", rest) ∧ (1 ≤ String.length ds ≤ 3)%nat)
       ∨ (split_once "-" s = Some ("pbs" ++ String l "", rest))).
Proof.
  intros (ds & l & rest & Hl & _ & Hds & Hs)%key_schema_inv. exists ds, l, rest.
  split_and!; [done | done |].
  assert (has_char "-" (String l "") = false) as Hdash.
  { apply level_char_cases in Hl. rw !elem_of_cons elem_of_nil in Hl.
    by destruct Hl as [-> | [-> | [-> | [-> | []]]]]. }
  destruct Hs as [[-> Hlen] | [-> ->]].
  - left. split; [| done].
    replace ("pve" ++ ds ++ String l (String "-" rest))
      with (("pve" ++ ds ++ String l "") ++ String "-" rest).
    + apply split_once_app. rw (has_char_app _ "pve") (has_char_app _ ds) (digits_no_dash ds Hds).
      exact Hdash.
    + by rw !string_app_assoc.
  - right. replace ("pbs" ++ String l (String "-" rest))
      with (("pbs" ++ String l "") ++ String "-" rest) by done.
    apply split_once_app. exact Hdash.
Qed.

Lemma last_char_snoc s c : last_char (s ++ String c "") = Some c.
Proof. induction s as [|a s IH]; [done |]. simpl. rw IH. by destruct s. Qed.

(** A valid key is a key of one of the two products that remotes have. *)
Lemma key_schema_product s :
  subscription_key_schema s = true →
  product_from_key s = Some PPve ∨ product_from_key s = Some PPbs.
Proof.
  intros (ds & l & rest & Hl & Hds & [[Hs _]|Hs])%key_schema_split; unfold product_from_key; rw Hs.
  - by left.
  - by right.
Qed.

(** *** Decimal digits *)
Definition digit_chars : list ascii := ["0"; "1"; "2"; "3"; "4"; "5"; "6"; "7"; "8"; "9"]%char.

Lemma is_ascii_digit_in c : is_ascii_digit c = true → c ∈ digit_chars.
Proof.
  intros Hc. apply (bool_decide_unpack (c ∈ digit_chars)).
  by destruct c as [[] [] [] [] [] [] [] []].
Qed.

Definition small_u32 (s : string) : bool :=
  match parse_u32 s with Some z => (0 <=? z)%Z && (z <=? 999)%Z | None => false end.

(** One to three digits are a number below 1000. *)
Lemma parse_u32_digits ds :
  forall_char is_ascii_digit ds = true → (1 ≤ String.length ds ≤ 3)%nat → small_u32 ds = true.
Proof.
  assert (Forall (λ a, small_u32 (String a "") = true
                 ∧ Forall (λ b, small_u32 (String a (String b "")) = true
                   ∧ Forall (λ c, small_u32 (String a (String b (String c ""))) = true) digit_chars)
                   digit_chars) digit_chars) as Hall.
  { apply (bool_decide_unpack _). by vm_compute. }
  rw Forall_forall in Hall. intros Hd Hl.
  destruct ds as [|a ds]; simpl in *; [lia |]. apply andb_true_iff in Hd as [Ha%is_ascii_digit_in Hd].
  destruct (Hall a Ha) as [H1 Hall2]. destruct ds as [|b ds]; [done |]. rw Forall_forall in Hall2.
  simpl in *. apply andb_true_iff in Hd as [Hb%is_ascii_digit_in Hd].
  destruct (Hall2 b Hb) as [H2 Hall3]. destruct ds as [|c ds]; [done |]. rw Forall_forall in Hall3.
  simpl in *. apply andb_true_iff in Hd as [Hc%is_ascii_digit_in Hd].
  destruct ds as [|e ds]; [by apply Hall3 | simpl in Hl; lia].
Qed.

(** *** Choosing a key *)
Lemma pick_best_spec {K} node_sockets (cands : list (K * string)) k :
  pick_best_pve_socket_key node_sockets cands = Some k →
  ∃ ks s, (k, ks) ∈ cands ∧ socket_count_from_key ks = Some s ∧ (node_sockets ≤ s)%Z
    ∧ ∀ k' ks' s', (k', ks') ∈ cands → socket_count_from_key ks' = Some s' →
        (node_sockets ≤ s')%Z → (s ≤ s')%Z.
Proof.
  unfold pick_best_pve_socket_key. destruct (min_by_key snd _) as [[k0 s]|] eqn:E; [| done].
  intros [= <-]. apply min_by_key_spec in E as [Hin Hmin].
  apply list_elem_of_filter in Hin as [Hs Hin]. simpl in Hs.
  apply elem_of_filter_map in Hin as ([k1 ks] & Hin & Hk). simpl in Hk.
  destruct (socket_count_from_key ks) as [s1|] eqn:Es; [| done]. injection Hk as -> ->.
  exists ks, s. split_and!; [done | done | done |]. intros k' ks' s' Hin' Es' Hs'.
  apply (Hmin (k', s')). apply list_elem_of_filter. split; [done |].
  apply elem_of_filter_map. exists (k', ks'). split; [done |]. simpl. by rw Es'.
Qed.

Lemma pick_best_None {K} node_sockets (cands : list (K * string)) k ks s :
  pick_best_pve_socket_key node_sockets cands = None →
  (k, ks) ∈ cands → socket_count_from_key ks = Some s → (s < node_sockets)%Z.
Proof.
  unfold pick_best_pve_socket_key. destruct (min_by_key snd _) as [[k0 s0]|] eqn:E; [done |].
  intros _ Hin Es. apply min_by_key_None in E. apply Z.nle_gt. intros Hle.
  eapply (not_elem_of_nil (k, s)). rw -E. apply list_elem_of_filter. split; [done |].
  apply elem_of_filter_map. exists (k, ks). split; [done |]. simpl. by rw Es.
Qed.

(** * The subscription state of a remote

    [map_node_subscription_list_to_state] of server/src/api/resources.rs: the levels of the
    nodes of a remote summarised in one state. *)

Inductive RemoteSubscriptionState := StateNone | StateUnknown | StateMixed | StateActive.

Definition node_level (info : option NodeSubscriptionInfo) : SubscriptionLevel :=
  match info with
  | Some i => match ni_status i with New | Active => ni_level i | _ => LevelNone end
  | None => LevelUnknown
  end.

(** [values()] of the hash map, in one of its orders *)
Definition node_levels (infos : gmap string (option NodeSubscriptionInfo)) : list SubscriptionLevel :=
  node_level ∘ snd <$> map_to_list infos.

Definition state_of_levels (levels : list SubscriptionLevel) : RemoteSubscriptionState :=
  let minimum := default LevelUnknown (min_by_key level_rank levels) in
  let mixed := existsb (λ l, negb (bool_decide (l = minimum))) levels in
  match minimum, mixed with
  | LevelNone, _ => StateNone
  | LevelUnknown, false => StateUnknown
  | LevelUnknown, true => StateActive
  | _, true => StateMixed
  | _, false => StateActive
  end.

Definition map_node_subscription_list_to_state (infos : gmap string (option NodeSubscriptionInfo))
    : RemoteSubscriptionState := state_of_levels (node_levels infos).

(** ** Lemmas *)
Lemma level_rank_inj l l' : level_rank l = level_rank l' → l = l'.
Proof. by destruct l, l'. Qed.

(** The documented meaning of a state, as a property of the set of levels. *)
Definition state_spec (P : SubscriptionLevel → Prop) (s : RemoteSubscriptionState) : Prop :=
  match s with
  | StateNone => P LevelNone
  | StateUnknown => ∀ l, P l → l = LevelUnknown
  | StateMixed => ¬ P LevelNone ∧ ¬ P LevelUnknown ∧ ∃ l l', P l ∧ P l' ∧ l ≠ l'
  | StateActive => ¬ P LevelNone
      ∧ ((P LevelUnknown ∧ ∃ l, P l ∧ l ≠ LevelUnknown)
         ∨ (∃ l, l ≠ LevelUnknown ∧ P l ∧ ∀ l', P l' → l' = l))
  end.

Lemma mixed_spec (levels : list SubscriptionLevel) m :
  existsb (λ l, negb (bool_decide (l = m))) levels = true ↔ ∃ l, l ∈ levels ∧ l ≠ m.
Proof.
  rw List.existsb_exists. split; intros (l & Hin & Hl); exists l.
  - by apply list_elem_of_In in Hin; apply negb_true_iff, bool_decide_eq_false in Hl.
  - by split; [apply list_elem_of_In | apply negb_true_iff, bool_decide_eq_false].
Qed.

Lemma state_of_levels_spec levels : state_spec (.∈ levels) (state_of_levels levels).
Proof.
  unfold state_of_levels. destruct (min_by_key level_rank levels) as [m|] eqn:Hm; simpl.
  2:{ apply min_by_key_None in Hm. subst levels. intros l Hl. by apply not_elem_of_nil in Hl. }
  apply min_by_key_spec in Hm as [Hin Hmin].
  assert (∀ l, l ∈ levels → (level_rank m ≤ level_rank l)%Z) as Hle by apply Hmin. clear Hmin.
  assert (m ≠ LevelNone → ¬ (LevelNone ∈ levels)) as Hnone.
  { intros Hne Hl%Hle. by destruct m. }
  assert (m ≠ LevelNone → m ≠ LevelUnknown → ¬ (LevelUnknown ∈ levels)) as Hunk.
  { intros Hn Hu Hl%Hle. by destruct m. }
  destruct (existsb _ levels) eqn:Hx.
  - apply mixed_spec in Hx as (l & Hl & Hne).
    destruct m; simpl; [done | | | | |]; (split; [by apply Hnone |]).
    + left. split; [done |]. by exists l.
    + split; [by apply Hunk |]. by exists l, Community.
    + split; [by apply Hunk |]. by exists l, Basic.
    + split; [by apply Hunk |]. by exists l, Standard.
    + split; [by apply Hunk |]. by exists l, Premium.
  - assert (∀ l, l ∈ levels → l = m) as Hall.
    { intros l Hl. destruct (decide (l = m)) as [|Hne]; [done |].
      assert (existsb (λ l, negb (bool_decide (l = m))) levels = true) as Ht; [| by rw Ht in Hx].
      apply mixed_spec. by exists l. }
    destruct m; simpl; [done | done | | | |]; (split; [by apply Hnone | right]); 
      (eexists; split_and!; [| exact Hin | exact Hall]; done).
Qed.

(** The state of a remote depends only on which levels its nodes have: none if a node has no
    valid subscription, unknown if no node could be asked, mixed if all levels are known and
    differ, active otherwise. *)
Theorem subscription_state_spec infos :
  state_spec (λ l, ∃ n i, infos !! n = Some i ∧ node_level i = l)
    (map_node_subscription_list_to_state infos).
Proof.
  unfold map_node_subscription_list_to_state.
  pose proof (state_of_levels_spec (node_levels infos)) as Hs.
  assert (∀ l, l ∈ node_levels infos ↔ ∃ n i, infos !! n = Some i ∧ node_level i = l) as Hl.
  { intros l. unfold node_levels. rw list_elem_of_fmap. split.
    - intros ([n i] & -> & Hin). apply elem_of_map_to_list in Hin. by exists n, i.
    - intros (n & i & Hi & <-). exists (n, i). split; [done |]. by apply elem_of_map_to_list. }
  destruct (state_of_levels (node_levels infos)); simpl in *; repeat setoid_rewrite <- Hl; done.
Qed.

(** A remote with an unreachable node counts as active although its other nodes have
    different levels. *)
Theorem unknown_hides_mixed :
  state_of_levels [LevelUnknown; Basic; Premium] = StateActive
  ∧ state_of_levels [Basic; Premium] = StateMixed.
Proof. done. Qed.
