(* ===== verification/KeyPool.v ===== *)
(** * The subscription key pool

    The handlers of server/src/api/subscriptions/mod.rs on the configuration file of
    lib/pdm-config/src/subscriptions.rs.  A handler that changes the pool has two phases: one
    without the configuration lock, which authorises the caller and asks the remotes, and a
    transaction under the lock.  Other handlers can run in between, so the phases are separate
    definitions: [.._pre] returns what the handler remembers and [.._body] is the transaction,
    a function of the pool it finds.  In a handler [interfere g] stands between the two.

    Code of other crates is in [KeyPoolEnv] (the section config format and container, the
    digest, the node name schema) and [env] (the caller's privileges, the configured remotes,
    the answers of the remotes), whose values can differ between the phases. *)
From S2P Require Import Prelude RustStr Remotes Disk SubscriptionTypes.

#[local] Open Scope string_scope.

(** ** Other crates *)
Class KeyPoolEnv := {
  config_data : Type;                              (* SectionConfigData<SubscriptionKeyEntry> *)
  sd_iter : config_data → list (string * SubscriptionKeyEntry);
  sd_get : config_data → string → option SubscriptionKeyEntry;
  sd_insert : config_data → string → SubscriptionKeyEntry → config_data;
  sd_remove : config_data → string → config_data;
  parse_keys : file → option config_data;          (* parse_section_config *)
  write_keys : config_data → option file;          (* write_section_config *)
  shadow_data : Type;                              (* SectionConfigData<SubscriptionKeyShadow> *)
  shadow_remove : shadow_data → string → shadow_data;
  parse_shadow : file → option shadow_data;
  write_shadow : shadow_data → option file;
  sha256 : file → string;
  node_schema : string → bool;                     (* NODE_SCHEMA.parse_simple_value(..).is_ok() *)
  default_status : SubscriptionStatus;             (* SubscriptionStatus::default() *)
  hash_json : list (string * string * SubscriptionStatus * option Z * bool) → string;
}.

(** What the handlers rely on: the container is a map listed without duplicates, and a written
    configuration reads back with the same entries. *)
Class KeyPoolLaws `{KeyPoolEnv} : Prop := {
  sd_iter_NoDup c : NoDup (fst <$> sd_iter c);
  sd_get_iter c k e : sd_get c k = Some e ↔ (k, e) ∈ sd_iter c;
  sd_get_insert c k e k' : sd_get (sd_insert c k e) k' = if decide (k = k') then Some e else sd_get c k';
  sd_get_remove c k k' : sd_get (sd_remove c k) k' = if decide (k = k') then None else sd_get c k';
  parse_write_keys c f : write_keys c = Some f → ∃ c', parse_keys f = Some c' ∧ ∀ k, sd_get c' k = sd_get c k;
}.

(** ** Errors and effects *)
Inductive api_error :=
| BadRequest (msg : string)
| Conflict (msg : string)
| NotFound404 (msg : string)
| Forbidden
| Unauthenticated
| ModifiedConfig          (* detect_modification *)
| Panic
| Internal (msg : string)
| IoError (e : error)
| ApplyFailed (ok total failed : Z) (shown : list string) (more : Z).

Definition API (A : Type) : Type := world → result api_error A * world.

Global Instance API_ret : MRet API := λ _ a w, (Ok a, w).
Global Instance API_bind : MBind API := λ _ _ f m w,
  match m w with
  | (Ok a, w') => f a w'
  | (Err e, w') => (Err e, w')
  end.
Definition throw {A} (e : api_error) : API A := λ w, (Err e, w).
Definition lift {A} (m : IO A) : API A := λ w,
  match m w with (Ok a, w') => (Ok a, w') | (Err e, w') => (Err (IoError e), w') end.
Definition of_result {A} (r : result api_error A) : API A :=
  match r with Ok a => mret a | Err e => throw e end.

(** What others do while a handler waits: it can change the files in any way. *)
Definition interfere (g : world → world) : API () := λ w, (Ok (), g w).

(** A call to a remote's API. *)
Inductive remote_call :=
| PveSet (r n k : string) | PbsSet (r k : string)
| PveDelete (r n : string) | PbsDelete (r : string)
| PveCheck (r n : string) | PbsCheck (r : string).

(** The surroundings of a handler at one moment. *)
Record env := Env {
  auth_id : option string;
  priv_audit : string → string → bool;   (* caller, remote *)
  priv_modify : string → string → bool;
  remotes_config : result error (list (string * RemoteType));
  live_info : string → result error (gmap string (option NodeSubscriptionInfo));
  perform : remote_call → result string ();
}.

Definition get_remote (l : list (string * RemoteType)) (r : string) : option RemoteType :=
  snd <$> find_by (λ p, String.eqb p.1 r) l.

Definition get_auth (E : env) : result api_error string := ok_or (auth_id E) Unauthenticated.
(** [check_privs(.., PRIV_RESOURCE_MODIFY, false)?] *)
Definition check_modify (E : env) (auth r : string) : result api_error () :=
  bail_if (negb (priv_modify E auth r)) Forbidden.
Definition get_remotes (E : env) : result api_error (list (string * RemoteType)) :=
  match remotes_config E with Ok l => Ok l | Err e => Err (IoError e) end.

(** ** The configuration files *)
Definition KEYS_CFG : string := "subscriptions/keys.cfg".
Definition KEYS_SHADOW : string := "subscriptions/keys.shadow".

(** [file_read_optional_string(..)?.unwrap_or_default()] *)
Definition read_optional (name : string) : IO file :=
  r ← attempt (fs_open name);
  match r with
  | Ok f => mret f
  | Err e => match kind e with NotFound => mret [] | OtherIo => fail e end
  end.

(** ** Keys *)
Definition redact_key (k : string) : string :=
  match split_once "-"%char k with
  | None => "<malformed-key>"
  | Some (prefix, secret) =>
      match chars secret with
      | [] => prefix ++ "-..."
      | [first] => prefix ++ "-" ++ first ++ "..."
      | first :: rest => prefix ++ "-" ++ first ++ "..." ++ default "" (last rest)
      end
  end.

Definition key_not_found (k : string) : api_error :=
  NotFound404 ("key '" ++ k ++ "' not found in pool").

(** The refusal of the orphan guards; [when] is "first" or "before rebinding". *)
Definition live_binding (k when : string) : api_error :=
  BadRequest ("key '" ++ k ++ "' is currently bound to a remote node with a live active subscription; run Clear Key on the Node Subscription Status panel " ++ when).

(** [SubscriptionLevel::from_key(Some(&key))] where a panic ends the handler *)
Definition derive_level (k : string) : result api_error SubscriptionLevel :=
  ok_or (level_from_key (Some k)) Panic.

(** [e.remote.as_deref() == Some(r) && e.node.as_deref() == Some(n)] *)
Definition bound_to (e : SubscriptionKeyEntry) (r n : string) : bool :=
  bool_decide (remote e = Some r) && bool_decide (node e = Some n).

(** [e.remote.as_deref().zip(e.node.as_deref())] *)
Definition binding (e : SubscriptionKeyEntry) : option (string * string) :=
  match remote e, node e with Some r, Some n => Some (r, n) | _, _ => None end.

Definition set_binding (e : SubscriptionKeyEntry) (b : option (string * string)) (pc : bool)
    : SubscriptionKeyEntry :=
  {| key := key e; product_type := product_type e; level := level e; source := source e;
     remote := fst <$> b; node := snd <$> b; pending_clear := pc; serverid := serverid e;
     sub_status := sub_status e; next_due_date := next_due_date e;
     product_name := product_name e; check_time := check_time e |}.
Definition set_level (e : SubscriptionKeyEntry) (l : SubscriptionLevel) : SubscriptionKeyEntry :=
  {| key := key e; product_type := product_type e; level := l; source := source e;
     remote := remote e; node := node e; pending_clear := pending_clear e;
     serverid := serverid e; sub_status := sub_status e; next_due_date := next_due_date e;
     product_name := product_name e; check_time := check_time e |}.
Definition set_pending (e : SubscriptionKeyEntry) (pc : bool) : SubscriptionKeyEntry :=
  {| key := key e; product_type := product_type e; level := level e; source := source e;
     remote := remote e; node := node e; pending_clear := pc; serverid := serverid e;
     sub_status := sub_status e; next_due_date := next_due_date e;
     product_name := product_name e; check_time := check_time e |}.

Section pool.
Context `{KeyPoolEnv}.
Implicit Types (c : config_data) (E : env).

Definition config : API (config_data * string) :=
  content ← lift (read_optional KEYS_CFG);
  match parse_keys content with
  | Some data => mret (data, sha256 content)
  | None => throw (Internal "parse_section_config")
  end.

Definition save_config (c : config_data) : API string :=
  match write_keys c with
  | None => throw (Internal "write_section_config")
  | Some raw => _ ← lift (fs_replace KEYS_CFG raw); mret (sha256 raw)
  end.

Definition shadow_config : API shadow_data :=
  content ← lift (read_optional KEYS_SHADOW);
  match parse_shadow content with
  | Some data => mret data
  | None => throw (Internal "parse_section_config")
  end.

Definition save_shadow (s : shadow_data) : API () :=
  match write_shadow s with
  | None => throw (Internal "write_section_config")
  | Some raw => lift (fs_replace KEYS_SHADOW raw)
  end.

(** [digest.detect_modification(expected)?] *)
Definition detect_modification (digest : string) (expected : option string)
    : result api_error () :=
  match expected with
  | None => Ok ()
  | Some d => bail_if (negb (String.eqb d digest)) ModifiedConfig
  end.

(** A transaction: lock, read, check the caller's digest, compute, save when there is something
    to save.  The body sees the digest of the configuration it got. *)
Definition locked {A} (expected : option string)
    (body : config_data → string → result api_error (A * option config_data))
    : API (A * option string) :=
  cd ← config;
  _ ← of_result (detect_modification cd.2 expected);
  r ← of_result (body cd.1 cd.2);
  match r.2 with
  | None => mret (r.1, None)
  | Some c' => d ← save_config c'; mret (r.1, Some d)
  end.

(** [config.iter().any(..)] and [config.iter().find(..)] on a binding *)
Definition target_bound (c : config_data) (r n : string) : bool :=
  existsb (λ p, bound_to p.2 r n) (sd_iter c).
Definition find_bound (c : config_data) (r n : string) : option (string * SubscriptionKeyEntry) :=
  find_by (λ p, bound_to p.2 r n) (sd_iter c).

(** ** Reading *)
Definition visible (E : env) (auth : string) (e : SubscriptionKeyEntry) : bool :=
  match remote e with Some r => priv_audit E auth r | None => true end.

Fixpoint with_levels (l : list SubscriptionKeyEntry) : result api_error (list SubscriptionKeyEntry) :=
  match l with
  | [] => Ok []
  | e :: l' => lv ← derive_level (key e); rest ← with_levels l'; Ok (set_level e lv :: rest)
  end.

Definition list_keys (E : env) : API (list SubscriptionKeyEntry * string) :=
  auth ← of_result (get_auth E);
  cd ← config;
  entries ← of_result (with_levels (base.filter (λ e, visible E auth e = true)
                                      (snd <$> sd_iter cd.1)));
  mret (entries, cd.2).

Definition get_key (E : env) (k : string) : API (SubscriptionKeyEntry * string) :=
  auth ← of_result (get_auth E);
  cd ← config;
  e ← of_result (ok_or (sd_get cd.1 k) (key_not_found k));
  _ ← of_result (bail_if (negb (visible E auth e)) (key_not_found k));
  lv ← of_result (derive_level (key e));
  mret (set_level e lv, cd.2).

(** ** Adding and removing keys *)
Definition new_entry (k : string) (p : ProductType) (lv : SubscriptionLevel)
    (src : SubscriptionKeySource) (b : option (string * string)) : SubscriptionKeyEntry :=
  {| key := k; product_type := p; level := lv; source := src; remote := fst <$> b;
     node := snd <$> b; pending_clear := false; serverid := None; sub_status := default_status;
     next_due_date := None; product_name := None; check_time := None |}.

Fixpoint collect_keys (seen : list string) (keys : list string)
    : result api_error (list SubscriptionKeyEntry * Z) :=
  match keys with
  | [] => Ok ([], 0%Z)
  | k :: keys' =>
      if bool_decide (k ∈ seen) then
        r ← collect_keys seen keys'; Ok (r.1, (r.2 + 1)%Z)
      else
        p ← ok_or (product_from_key k) (BadRequest ("unrecognised key format: " ++ redact_key k));
        lv ← derive_level k;
        r ← collect_keys (k :: seen) keys';
        Ok (new_entry k p lv Manual None :: r.1, r.2)
  end.

Fixpoint add_entries (c : config_data) (entries : list SubscriptionKeyEntry)
    : result api_error config_data :=
  match entries with
  | [] => Ok c
  | e :: entries' =>
      match sd_get c (key e) with
      | Some existing => Err (Conflict ("key '" ++ key existing ++ "' already exists in pool"))
      | None => add_entries (sd_insert c (key e) e) entries'
      end
  end.

Definition add_keys (g : world → world) (keys : list string) (digest : option string)
    : API (Z * Z * option string) :=
  _ ← of_result (bail_if (bool_decide (keys = [])) (BadRequest "no keys provided"));
  r ← of_result (collect_keys [] keys);
  _ ← interfere g;
  d ← locked digest (λ c _, c' ← add_entries c r.1; Ok ((), Some c'));
  mret (Z.of_nat (length r.1), r.2, d.2).

(** What the live query says about a binding: [Some] when the key is the active one there. *)
Definition check_synced_assignment_for_unassign (E : env) (k : string)
    (b : option (string * string)) : result api_error (option (string * string)) :=
  match b with
  | None => Ok None
  | Some (prev_remote, prev_node) =>
      rs ← get_remotes E;
      match get_remote rs prev_remote with
      | None => Ok None
      | Some _ =>
          match live_info E prev_remote with
          | Err _ => Ok None
          | Ok live =>
              let synced :=
                match live !! prev_node with
                | Some (Some info) =>
                    bool_decide (ni_status info = Active) && bool_decide (ni_key info = Some k)
                | _ => false
                end in
              Ok (if synced then Some (prev_remote, prev_node) else None)
          end
      end
  end.

(** What a handler remembers from before the lock. *)
Record pre_check := PreCheck {
  pre_digest : string;
  pre_had_binding : bool;
  synced_block : option (string * string);
}.

Definition still_synced (p : pre_check) (e : SubscriptionKeyEntry) : bool :=
  match synced_block p with Some (r, n) => bound_to e r n | None => false end.
Definition is_bound (e : SubscriptionKeyEntry) : bool :=
  match remote e with Some _ => true | None => false end.

(** The orphan guard of [delete_key] and [clear_assignment]. *)
Definition orphan_guard (p : pre_check) (digest : string) (e : SubscriptionKeyEntry) : bool :=
  still_synced p e
  || (negb (String.eqb digest (pre_digest p)) && is_bound e)
  || (negb (pre_had_binding p) && is_bound e).

Definition recheck_modify (E : env) (auth : string) (e : SubscriptionKeyEntry)
    : result api_error () :=
  match remote e with Some r => check_modify E auth r | None => Ok () end.

Definition delete_key_pre (E : env) (k : string) : API (string * pre_check) :=
  auth ← of_result (get_auth E);
  cd ← config;
  e ← of_result (ok_or (sd_get cd.1 k) (key_not_found k));
  _ ← of_result (recheck_modify E auth e);
  synced ← of_result (check_synced_assignment_for_unassign E k (binding e));
  mret (auth, PreCheck cd.2 (bool_decide (is_Some (binding e))) synced).

Definition delete_key_body (E : env) (auth k : string) (p : pre_check)
    (c : config_data) (digest : string) : result api_error (() * option config_data) :=
  e ← ok_or (sd_get c k) (key_not_found k);
  _ ← recheck_modify E auth e;
  _ ← bail_if (orphan_guard p digest e) (live_binding k "first");
  Ok ((), Some (sd_remove c k)).

(** The cached blob is dropped when the shadow can be read; a failure is logged. *)
Definition drop_shadow (k : string) : API () := λ w,
  let '(_, w') := (s ← shadow_config; save_shadow (shadow_remove s k)) w in (Ok (), w').

Definition delete_key_locked (E : env) (auth k : string) (p : pre_check)
    (digest : option string) : API (option string) :=
  r ← locked digest (delete_key_body E auth k p);
  _ ← drop_shadow k;
  mret r.2.

Definition delete_key (E1 E2 : env) (g : world → world) (k : string) (digest : option string)
    : API (option string) :=
  p ← delete_key_pre E1 k;
  _ ← interfere g;
  delete_key_locked E2 p.1 k p.2 digest.

(** ** Assigning keys *)

(** [r != remote || n != node] for a binding; [false] without one *)
Definition moves (b : option (string * string)) (r n : string) : bool :=
  match b with
  | Some (r', n') => negb (String.eqb r' r) || negb (String.eqb n' n)
  | None => false
  end.

Definition set_assignment_pre (E : env) (k r n : string) : API (string * pre_check) :=
  auth ← of_result (get_auth E);
  _ ← of_result (check_modify E auth r);
  cd ← config;
  let pre_binding := sd_get cd.1 k ≫= binding in
  let rebind_moves_binding := moves pre_binding r n in
  _ ← of_result
        (match pre_binding with
         | Some (prev_remote, _) =>
             if rebind_moves_binding then check_modify E auth prev_remote else Ok ()
         | None => Ok ()
         end);
  synced ← of_result (if rebind_moves_binding
                      then check_synced_assignment_for_unassign E k pre_binding else Ok None);
  mret (auth, PreCheck cd.2 (bool_decide (is_Some pre_binding)) synced).

(** The guard of [set_assignment]: it fires only when the stored binding moves. *)
Definition rebind_guard (p : pre_check) (digest : string) (e : SubscriptionKeyEntry)
    (r n : string) : bool :=
  let post_moves := moves (binding e) r n in
  (still_synced p e && post_moves)
  || (negb (String.eqb digest (pre_digest p)) && is_bound e && post_moves)
  || (negb (pre_had_binding p) && is_bound e && post_moves).

(** Another key bound to the target. *)
Definition other_bound (c : config_data) (k r n : string) : option SubscriptionKeyEntry :=
  snd <$> find_by (λ p, negb (String.eqb (key p.2) k) && bound_to p.2 r n) (sd_iter c).

Definition set_assignment_body (E : env) (auth k r n : string) (p : pre_check)
    (c : config_data) (digest : string) : result api_error (() * option config_data) :=
  e ← ok_or (sd_get c k) (key_not_found k);
  _ ← match remote e with
      | Some prev => if String.eqb prev r then Ok () else check_modify E auth prev
      | None => Ok ()
      end;
  _ ← bail_if (rebind_guard p digest e r n) (live_binding k "before rebinding");
  rs ← get_remotes E;
  ty ← ok_or (get_remote rs r) (NotFound404 ("remote '" ++ r ++ "' not found"));
  _ ← bail_if (negb (matches_remote_type (product_type e) ty))
        (BadRequest ("key type '" ++ as_section_type (product_type e)
                     ++ "' does not match remote type '" ++ show_remote_type ty ++ "'"));
  _ ← match other_bound c k r n with
      | Some other => Err (Conflict ("key '" ++ key other ++ "' is already assigned to "
                                     ++ r ++ "/" ++ n))
      | None => Ok ()
      end;
  Ok ((), Some (sd_insert c k
        (set_binding e (Some (r, n))
           (if moves (binding e) r n then false else pending_clear e)))).

Definition set_assignment (E1 E2 : env) (g : world → world) (k r n : string)
    (digest : option string) : API (option string) :=
  p ← set_assignment_pre E1 k r n;
  _ ← interfere g;
  res ← locked digest (set_assignment_body E2 p.1 k r n p.2);
  mret res.2.

Definition clear_assignment_pre (E : env) (k : string) : API (string * pre_check) :=
  auth ← of_result (get_auth E);
  cd ← config;
  _ ← of_result (match sd_get cd.1 k with
                 | Some e => recheck_modify E auth e
                 | None => Ok ()
                 end);
  let pre_binding := sd_get cd.1 k ≫= binding in
  synced ← of_result (check_synced_assignment_for_unassign E k pre_binding);
  mret (auth, PreCheck cd.2 (bool_decide (is_Some pre_binding)) synced).

Definition clear_assignment_body (E : env) (auth k : string) (p : pre_check)
    (c : config_data) (digest : string) : result api_error (() * option config_data) :=
  e ← ok_or (sd_get c k) (key_not_found k);
  _ ← recheck_modify E auth e;
  _ ← bail_if (orphan_guard p digest e) (live_binding k "first");
  Ok ((), Some (sd_insert c k (set_binding e None false))).

Definition clear_assignment (E1 E2 : env) (g : world → world) (k : string)
    (digest : option string) : API (option string) :=
  p ← clear_assignment_pre E1 k;
  _ ← interfere g;
  res ← locked digest (clear_assignment_body E2 p.1 k p.2);
  mret res.2.

(** ** Queueing and reverting a clear *)
Definition queue_clear_body (r n : string) (c : config_data) (_ : string)
    : result api_error (() * option config_data) :=
  ie ← ok_or (find_bound c r n)
         (BadRequest ("no pool-managed assignment on " ++ r ++ "/" ++ n
            ++ "; run Adopt Key first to import a foreign subscription into the pool"));
  _ ← bail_if (pending_clear ie.2) (BadRequest ("clear already queued for " ++ r ++ "/" ++ n));
  Ok ((), Some (sd_insert c ie.1 (set_pending ie.2 true))).

Definition queue_clear (E : env) (g : world → world) (r n : string) (digest : option string)
    : API (option string) :=
  auth ← of_result (get_auth E);
  _ ← of_result (check_modify E auth r);
  _ ← interfere g;
  res ← locked digest (queue_clear_body r n);
  mret res.2.

Definition revert_pending_clear_body (r n : string) (c : config_data) (_ : string)
    : result api_error (() * option config_data) :=
  ie ← ok_or (find_bound c r n) (BadRequest ("no pool-managed assignment on " ++ r ++ "/" ++ n));
  _ ← bail_if (negb (pending_clear ie.2))
        (BadRequest ("no pending clear queued on " ++ r ++ "/" ++ n));
  Ok ((), Some (sd_insert c ie.1 (set_pending ie.2 false))).

Definition revert_pending_clear (E : env) (g : world → world) (r n : string)
    (digest : option string) : API (option string) :=
  auth ← of_result (get_auth E);
  _ ← of_result (check_modify E auth r);
  _ ← interfere g;
  res ← locked digest (revert_pending_clear_body r n);
  mret res.2.

(** ** Adopting a live key *)
Definition adopt_key_pre (E : env) (r n : string) : API (string * string) :=
  auth ← of_result (get_auth E);
  _ ← of_result (check_modify E auth r);
  cd ← config;
  rs ← of_result (get_remotes E);
  _ ← of_result (ok_or (get_remote rs r) (NotFound404 ("remote '" ++ r ++ "' not found")));
  live ← of_result (match live_info E r with
                    | Ok live => Ok live
                    | Err _ => Err (BadRequest ("could not read subscription on " ++ r ++ "/" ++ n))
                    end);
  k ← of_result (ok_or (info ← mjoin (live !! n); ni_key info)
                   (NotFound404 ("no live subscription on " ++ r ++ "/" ++ n ++ " to adopt")));
  mret (cd.2, k).

Definition adopt_key_body (r n pre_dig k : string) (c : config_data) (digest : string)
    : result api_error (() * option config_data) :=
  _ ← bail_if (negb (String.eqb digest pre_dig))
        (Conflict ("pool config changed during live fetch; refresh and retry adopt of "
                   ++ r ++ "/" ++ n));
  _ ← bail_if (target_bound c r n) (BadRequest (r ++ "/" ++ n
        ++ " is already pool-managed; adopt only applies to foreign subscriptions"));
  match sd_get c k with
  | Some existing =>
      _ ← bail_if (is_bound existing || bool_decide (is_Some (node existing)))
            (Conflict ("key '" ++ redact_key k ++ "' is in the pool but bound elsewhere; resolve manually first"));
      Ok ((), Some (sd_insert c k (set_binding existing (Some (r, n)) (pending_clear existing))))
  | None =>
      _ ← bail_if (negb (subscription_key_schema k))
            (BadRequest ("key '" ++ redact_key k ++ "' rejected"));
      p ← ok_or (product_from_key k) (BadRequest ("unrecognised key prefix: " ++ redact_key k));
      lv ← derive_level k;
      Ok ((), Some (sd_insert c k (new_entry k p lv Adopted (Some (r, n)))))
  end.

Definition adopt_key (E : env) (g : world → world) (r n : string) (digest : option string)
    : API (option string) :=
  p ← adopt_key_pre E r n;
  _ ← interfere g;
  res ← locked digest (adopt_key_body r n p.1 p.2);
  mret res.2.
End pool.
