(* ===== verification/KeyPlan.v ===== *)
(** * Node status, proposals and bulk transactions of the key pool

    The parts of server/src/api/subscriptions/mod.rs that look at all nodes: the joined node
    status, the automatic assignment with its commit, and the adoption of every foreign key.

    A remote's answer is a hash map, whose order is unspecified; [map_to_list] is one such
    order, and the lists that depend on it are sorted or searched by (remote, node).
    The second part has the worker and the pending changes. *)
From S2P Require Import Prelude RustStr Remotes Disk SubscriptionTypes KeyPool.

#[local] Open Scope string_scope.

(** [RemoteIterator::any_privs] of server/src/api/remotes/mod.rs *)
Definition any_privs {A} (privs : string → bool) (l : list (string * A)) : list (string * A) :=
  base.filter (λ p, privs p.1 = true) l.

(** Lexicographic order of pairs of strings. *)
Definition pair_cmp (a b : string * string) : comparison :=
  then_with (String.compare a.1 b.1) (String.compare a.2 b.2).

(** One row of the node status; the columns of a missing answer. *)
Definition node_row (name : string) (ty : RemoteType) (node_name : string)
    (info : option NodeSubscriptionInfo) (assigned : option string) (pc : bool)
    : RemoteNodeStatus :=
  match info with
  | Some i =>
      {| ns_remote := name; ns_ty := ty; ns_node := node_name; ns_sockets := ni_sockets i;
         ns_status := ni_status i; ns_level := ni_level i; ns_assigned_key := assigned;
         ns_current_key := ni_key i; ns_pending_clear := pc; ns_check_time := ni_check_time i;
         ns_next_due_date := ni_next_due_date i |}
  | None =>
      {| ns_remote := name; ns_ty := ty; ns_node := node_name; ns_sockets := None;
         ns_status := NotFoundStatus; ns_level := LevelNone; ns_assigned_key := assigned;
         ns_current_key := None; ns_pending_clear := pc; ns_check_time := None;
         ns_next_due_date := None |}
  end.

(** Remotes that do not answer are left out. *)
Definition remote_rows (E : env)
    (row : string → RemoteType → string * option NodeSubscriptionInfo → RemoteNodeStatus)
    (l : list (string * RemoteType)) : list RemoteNodeStatus :=
  concat ((λ p, match live_info E p.1 with
                | Ok infos => row p.1 p.2 <$> map_to_list infos
                | Err _ => []
                end) <$> l).

Definition status_cmp (a b : RemoteNodeStatus) : comparison :=
  pair_cmp (ns_remote a, ns_node a) (ns_remote b, ns_node b).

Record AutoAssignProposal := {
  assignments : list ProposedAssignment;
  keys_digest : string;
  node_status_digest : string;
}.

Section plan.
Context `{KeyPoolEnv}.
Implicit Types (c : config_data) (E : env).

(** The answers of the audited remotes joined with the pool, sorted. *)
Definition join_status (E : env) (auth : string) (rs : list (string * RemoteType))
    (c : config_data) : list RemoteNodeStatus :=
  sort_by status_cmp
    (remote_rows E
       (λ name ty ni,
         match find_bound c name ni.1 with
         | Some (_, e) => node_row name ty ni.1 ni.2 (Some (key e)) (pending_clear e)
         | None => node_row name ty ni.1 ni.2 None false
         end)
       (any_privs (priv_audit E auth) rs)).

Definition collect_node_status (E : env) : API (list RemoteNodeStatus) :=
  auth ← of_result (get_auth E);
  rs ← of_result (get_remotes E);
  cd ← config;
  mret (join_status E auth rs cd.1).

Definition node_status (E : env) : API (list RemoteNodeStatus) := collect_node_status E.

(** The worker's variant without the audit filter and without the pool columns. *)
Definition collect_status_uncached (E : env) (rs : list (string * RemoteType))
    : list RemoteNodeStatus :=
  remote_rows E (λ name ty ni, node_row name ty ni.1 ni.2 None false) rs.

(** ** Automatic assignment *)
Definition hash_node_status (statuses : list RemoteNodeStatus) : string :=
  hash_json
    (sort_by (λ a b, pair_cmp a.1.1.1 b.1.1.1)
       ((λ n, (ns_remote n, ns_node n, ns_status n, ns_sockets n,
               bool_decide (is_Some (ns_assigned_key n)))) <$> statuses)).

Definition is_target (n : RemoteNodeStatus) : bool :=
  bool_decide (ns_assigned_key n = None) && negb (bool_decide (ns_status n = Active)).

(** The keys still free for a node. *)
Definition candidates (c : config_data) (taken : list string) (ty : RemoteType)
    : list (string * SubscriptionKeyEntry) :=
  base.filter (λ p, remote p.2 = None ∧ ¬ (p.1 ∈ taken)
                    ∧ matches_remote_type (product_type p.2) ty = true) (sd_iter c).

Definition best_key (c : config_data) (taken : list string) (n : RemoteNodeStatus)
    : option string :=
  let cands := candidates c taken (ns_ty n) in
  if bool_decide (ns_ty n = Pve) then
    pick_best_pve_socket_key (u32 (default 1%Z (ns_sockets n)))
      ((λ p, (p.1, key p.2)) <$> cands)
  else head (fst <$> cands).

Fixpoint propose (c : config_data) (taken : list string) (targets : list RemoteNodeStatus)
    : list ProposedAssignment :=
  match targets with
  | [] => []
  | n :: targets' =>
      match best_key c taken n with
      | Some k =>
          {| pa_key := k; pa_remote := ns_remote n; pa_node := ns_node n;
             pa_key_sockets := e ← sd_get c k; socket_count_from_key (key e);
             pa_node_sockets := ns_sockets n |} :: propose c (k :: taken) targets'
      | None => propose c taken targets'
      end
  end.

Definition compute_proposals (c : config_data) (node_statuses : list RemoteNodeStatus)
    : list ProposedAssignment :=
  propose c []
    (sort_by (λ a b, Z.compare (default 0%Z (ns_sockets b)) (default 0%Z (ns_sockets a)))
       (base.filter (λ n, is_target n = true) node_statuses)).

Definition auto_assign (E : env) : API AutoAssignProposal :=
  statuses ← collect_node_status E;
  cd ← config;
  mret {| assignments := compute_proposals cd.1 statuses; keys_digest := cd.2;
          node_status_digest := hash_node_status statuses |}.

(** One entry of a proposal; [None] when it is skipped. *)
Definition assign_proposed (E : env) (auth : string) (rs : list (string * RemoteType))
    (c : config_data) (p : ProposedAssignment) : option config_data :=
  if negb (priv_modify E auth (pa_remote p)) then None else
  if negb (node_schema (pa_node p)) then None else
  ty ← get_remote rs (pa_remote p);
  e ← sd_get c (pa_key p);
  if negb (matches_remote_type (product_type e) ty) then None else
  if bool_decide (is_Some (other_bound c (pa_key p) (pa_remote p) (pa_node p))) then None else
  match remote e with
  | None => Some (sd_insert c (pa_key p) (set_binding e (Some (pa_remote p, pa_node p)) false))
  | Some _ => None
  end.

Fixpoint assign_all (E : env) (auth : string) (rs : list (string * RemoteType))
    (c : config_data) (ps : list ProposedAssignment) : list ProposedAssignment * config_data :=
  match ps with
  | [] => ([], c)
  | p :: ps' =>
      match assign_proposed E auth rs c p with
      | Some c' => let r := assign_all E auth rs c' ps' in (p :: r.1, r.2)
      | None => assign_all E auth rs c ps'
      end
  end.

(** Save only when something was done. *)
Definition save_unless_empty {A} (r : list A * config_data) : list A * option config_data :=
  (r.1, match r.1 with [] => None | _ => Some r.2 end).

Definition bulk_assign_body (E : env) (auth : string) (prop : AutoAssignProposal)
    (c : config_data) (_ : string)
    : result api_error (list ProposedAssignment * option config_data) :=
  rs ← get_remotes E;
  Ok (save_unless_empty (assign_all E auth rs c (assignments prop))).

Definition bulk_assign (E1 E2 : env) (g : world → world) (prop : AutoAssignProposal)
    : API (list ProposedAssignment * option string) :=
  auth ← of_result (get_auth E1);
  statuses ← collect_node_status E1;
  _ ← of_result (bail_if (negb (String.eqb (hash_node_status statuses) (node_status_digest prop)))
        (Conflict "node status changed since proposal; refresh and try again"));
  _ ← interfere g;
  locked (Some (keys_digest prop)) (bulk_assign_body E2 auth prop).

(** ** Adopting every foreign key *)

(** One candidate: [None] when it is skipped, an error only for a panic. *)
Definition adopt_candidate (E : env) (auth : string) (c : config_data) (n : RemoteNodeStatus)
    : result api_error (option (AdoptedEntry * config_data)) :=
  match ns_current_key n with
  | None => Ok None
  | Some k =>
      let adopted e :=
        Ok (Some ({| ad_remote := ns_remote n; ad_node := ns_node n; ad_key := k |},
                  sd_insert c k e)) in
      if bool_decide (is_Some (ns_assigned_key n)) then Ok None else
      if negb (priv_modify E auth (ns_remote n)) then Ok None else
      if negb (node_schema (ns_node n)) then Ok None else
      if target_bound c (ns_remote n) (ns_node n) then Ok None else
      match sd_get c k with
      | Some existing =>
          if is_bound existing || bool_decide (is_Some (node existing)) then Ok None
          else adopted (set_binding existing (Some (ns_remote n, ns_node n))
                          (pending_clear existing))
      | None =>
          if negb (subscription_key_schema k) then Ok None else
          match product_from_key k with
          | None => Ok None
          | Some p =>
              lv ← derive_level k;
              adopted (new_entry k p lv Adopted (Some (ns_remote n, ns_node n)))
          end
      end
  end.

Fixpoint adopt_candidates (E : env) (auth : string) (c : config_data)
    (ns : list RemoteNodeStatus) : result api_error (list AdoptedEntry * config_data) :=
  match ns with
  | [] => Ok ([], c)
  | n :: ns' =>
      a ← adopt_candidate E auth c n;
      match a with
      | Some (a, c') => r ← adopt_candidates E auth c' ns'; Ok (a :: r.1, r.2)
      | None => adopt_candidates E auth c ns'
      end
  end.

Definition adopt_all_body (E : env) (auth : string) (ns : list RemoteNodeStatus)
    (c : config_data) (_ : string) : result api_error (list AdoptedEntry * option config_data) :=
  r ← adopt_candidates E auth c ns;
  Ok (save_unless_empty r).

Definition adopt_all (E1 E2 : env) (g : world → world) (digest : option string)
    : API (list AdoptedEntry * option string) :=
  auth ← of_result (get_auth E1);
  statuses ← collect_node_status E1;
  _ ← interfere g;
  locked digest (adopt_all_body E2 auth statuses).
End plan.

(** * Pending changes of the key pool

    Pushing keys to remotes, queued clears, the apply-pending worker and the discarding of
    pending changes (server/src/api/subscriptions/mod.rs).

    The worker talks to remotes and drops the cached state of a remote; [Worker] records both
    in the order they happen.  Other handlers run between its steps: the functions [before] and
    [between] say what they do to the files before an entry is looked at and between the call
    to the remote and the transaction that drops the binding. *)

#[local] Open Scope string_scope.

Inductive effect :=
| Call (c : remote_call)
| Invalidate (r : string).        (* invalidate_subscription_info_for_remote *)

Definition Worker (A : Type) : Type := world → result api_error A * list effect * world.

Global Instance Worker_ret : MRet Worker := λ _ a w, (Ok a, [], w).
Global Instance Worker_bind : MBind Worker := λ _ _ f m w,
  match m w with
  | (Ok a, t, w') => let '(r, t', w'') := f a w' in (r, (t ++ t')%list, w'')
  | (Err e, t, w') => (Err e, t, w')
  end.
Definition run_api {A} (m : API A) : Worker A := λ w, let '(r, w') := m w in (r, [], w').
(** An API program whose error is a value. *)
Definition try_api {A} (m : API A) : Worker (result api_error A) := λ w,
  let '(r, w') := m w in (Ok r, [], w').
Definition emit (ev : effect) : Worker () := λ w, (Ok (), [ev], w).
(** Call a remote. *)
Definition call (E : env) (c : remote_call) : Worker (result string ()) :=
  _ ← emit (Call c); mret (perform E c).

(** ** Calls to a node *)
Definition push_key_to_remote (E : env) (r k n : string) : Worker (result string ()) :=
  match product_from_key k with
  | None => mret (Err ("unrecognised key format: " ++ k))
  | Some PPve => call E (PveSet r n k)
  | Some PPbs => call E (PbsSet r k)
  | Some p => mret (Err ("PDM cannot push '" ++ as_section_type p ++ "' keys: no remote support yet"))
  end.

Definition delete_subscription_on_remote (E : env) (r : string) (p : ProductType) (n : string)
    : Worker (result string ()) :=
  match p with
  | PPve => call E (PveDelete r n)
  | PPbs => call E (PbsDelete r)
  | PPmg | PPom =>
      mret (Err ("PDM cannot clear '" ++ as_section_type p ++ "' keys: no remote support yet"))
  end.

Definition check_subscription_on_remote (E : env) (r : string) (p : ProductType) (n : string)
    : Worker (result string ()) :=
  match p with
  | PPve => call E (PveCheck r n)
  | PPbs => call E (PbsCheck r)
  | PPmg | PPom =>
      mret (Err ("PDM cannot check '" ++ as_section_type p ++ "' keys: no remote support yet"))
  end.

Definition product_of_remote (t : RemoteType) : ProductType :=
  match t with Pve => PPve | Pbs => PPbs end.

Definition check_subscription (E : env) (r n : string) : Worker () :=
  auth ← run_api (of_result (get_auth E));
  _ ← run_api (of_result (check_modify E auth r));
  rs ← run_api (of_result (get_remotes E));
  ty ← run_api (of_result (ok_or (get_remote rs r) (NotFound404 ("remote '" ++ r ++ "' not found"))));
  res ← check_subscription_on_remote E r (product_of_remote ty) n;
  match res with
  | Err err => run_api (throw (BadRequest ("check failed on " ++ r ++ "/" ++ n ++ ": " ++ err)))
  | Ok _ => emit (Invalidate r)
  end.

(** ** Pending entries *)
Inductive PendingOp := Push | Clear.

Record PendingEntry := {
  pe_key : string;
  pe_remote : string;
  pe_node : string;
  pe_op : PendingOp;
}.

Section apply.
Context `{KeyPoolEnv}.
Implicit Types (c : config_data) (E : env).

(** The closure of [compute_pending] on one entry of the pool. *)
Definition pending_of (E : env) (auth : string) (statuses : list RemoteNodeStatus)
    (e : SubscriptionKeyEntry) : option PendingEntry :=
  r ← remote e;
  n ← node e;
  let plan op := Some {| pe_key := key e; pe_remote := r; pe_node := n; pe_op := op |} in
  if negb (priv_modify E auth r) then None else
  if pending_clear e then plan Clear else
  match find_by (λ s, String.eqb (ns_remote s) r && String.eqb (ns_node s) n) statuses with
  | Some s => if bool_decide (ns_current_key s = Some (key e)) then None else plan Push
  | None => plan Push
  end.

Definition compute_pending (E : env) (auth : string) (statuses : list RemoteNodeStatus)
    : API (list PendingEntry) :=
  cd ← config;
  mret (filter_map (λ p, pending_of E auth statuses p.2) (sd_iter cd.1)).

Definition pool_assignment_still_valid (c : config_data) (p : PendingEntry) : bool :=
  match sd_get c (pe_key p) with
  | Some stored => bound_to stored (pe_remote p) (pe_node p)
  | None => false
  end.

(** [apply_pending]: [true] when a worker is spawned *)
Definition apply_pending (E : env) (digest : option string) : API bool :=
  auth ← of_result (get_auth E);
  cd ← config;
  _ ← of_result (detect_modification cd.2 digest);
  statuses ← collect_node_status E;
  pending ← compute_pending E auth statuses;
  mret (negb (bool_decide (length pending = 0))).

(** ** The worker *)
Inductive outcome := Skipped | Failed (what : string) | Succeeded.

(** The transaction that drops a cleared binding. *)
Definition drop_binding_body (p : PendingEntry) (c : config_data) (_ : string)
    : result api_error (() * option config_data) :=
  Ok ((), Some (match sd_get c (pe_key p) with
                | Some stored =>
                    if bound_to stored (pe_remote p) (pe_node p)
                    then sd_insert c (pe_key p) (set_binding stored None false) else c
                | None => c
                end)).

Definition op_consistent (op : PendingOp) (current_pending_clear : bool) : bool :=
  match op with Push => negb current_pending_clear | Clear => current_pending_clear end.

Definition at_node (p : PendingEntry) : string := pe_remote p ++ "/" ++ pe_node p.

Definition apply_push (E : env) (rs : list (string * RemoteType)) (p : PendingEntry)
    : Worker outcome :=
  match get_remote rs (pe_remote p) with
  | None => mret (Failed (at_node p ++ ": remote vanished"))
  | Some _ =>
      res ← push_key_to_remote E (pe_remote p) (pe_key p) (pe_node p);
      match res with
      | Err err => mret (Failed ("push to " ++ at_node p ++ ": " ++ err))
      | Ok _ => _ ← emit (Invalidate (pe_remote p)); mret Succeeded
      end
  end.

Definition apply_clear (E : env) (between : PendingEntry → world → world)
    (rs : list (string * RemoteType)) (p : PendingEntry) : Worker outcome :=
  match product_from_key (pe_key p) with
  | None => mret (Failed ("clear on " ++ at_node p ++ ": unrecognised key format"))
  | Some ty =>
      res ← match get_remote rs (pe_remote p) with
            | Some _ => delete_subscription_on_remote E (pe_remote p) ty (pe_node p)
            | None => mret (Ok ())
            end;
      match res with
      | Err err => mret (Failed ("clear on " ++ at_node p ++ ": " ++ err))
      | Ok _ =>
          _ ← run_api (interfere (between p));
          r ← try_api (locked None (drop_binding_body p));
          match r with
          | Err _ => mret (Failed ("clear on " ++ at_node p ++ ": pool update failed"))
          | Ok _ => _ ← emit (Invalidate (pe_remote p)); mret Succeeded
          end
      end
  end.

Definition apply_entry (E : env) (before between : PendingEntry → world → world)
    (rs : list (string * RemoteType)) (p : PendingEntry) : Worker outcome :=
  _ ← run_api (interfere (before p));
  cd ← run_api config;
  let current_pending_clear := default false (pending_clear <$> sd_get cd.1 (pe_key p)) in
  if negb (pool_assignment_still_valid cd.1 p) then mret Skipped else
  if negb (op_consistent (pe_op p) current_pending_clear) then mret Skipped else
  match pe_op p with
  | Push => apply_push E rs p
  | Clear => apply_clear E between rs p
  end.

(** Counts the successes and collects the failures in order. *)
Fixpoint apply_entries (E : env) (before between : PendingEntry → world → world)
    (rs : list (string * RemoteType)) (pending : list PendingEntry) (ok : Z)
    (failures : list string) : Worker (Z * list string) :=
  match pending with
  | [] => mret (ok, failures)
  | p :: pending' =>
      o ← apply_entry E before between rs p;
      match o with
      | Skipped => apply_entries E before between rs pending' ok failures
      | Failed what => apply_entries E before between rs pending' ok (failures ++ [what])%list
      | Succeeded => apply_entries E before between rs pending' (ok + 1)%Z failures
      end
  end.

Definition run_apply_pending (E : env) (before between : PendingEntry → world → world)
    (auth : string) : Worker () :=
  rs ← run_api (of_result (get_remotes E));
  pending ← run_api (compute_pending E auth (collect_status_uncached E rs));
  if bool_decide (length pending = 0) then mret () else
  r ← apply_entries E before between rs pending 0%Z [];
  if bool_decide (length r.2 = 0) then mret ()
  else run_api (throw (ApplyFailed r.1 (Z.of_nat (length pending)) (Z.of_nat (length r.2))
                         (take 5 r.2) (Z.of_nat (length r.2 - 5)))).

(** ** Discarding pending changes *)
Definition discard_entry (c : config_data) (p : PendingEntry) : option config_data :=
  stored ← sd_get c (pe_key p);
  if bound_to stored (pe_remote p) (pe_node p) then
    Some (sd_insert c (pe_key p)
            (match pe_op p with
             | Clear => set_pending stored false
             | Push => set_binding stored None false
             end))
  else None.

Fixpoint discard_all (c : config_data) (pending : list PendingEntry) : Z * config_data :=
  match pending with
  | [] => (0%Z, c)
  | p :: pending' =>
      match discard_entry c p with
      | Some c' => let r := discard_all c' pending' in ((r.1 + 1)%Z, r.2)
      | None => discard_all c pending'
      end
  end.

Definition clear_pending_body (pending : list PendingEntry) (c : config_data) (_ : string)
    : result api_error (Z * option config_data) :=
  let r := discard_all c pending in
  Ok (r.1, if (0 <? r.1)%Z then Some r.2 else None).

Definition clear_pending (E : env) (g : world → world) (digest : option string)
    : API (Z * option string) :=
  auth ← of_result (get_auth E);
  cd ← config;
  _ ← of_result (detect_modification cd.2 digest);
  statuses ← collect_node_status E;
  pending ← compute_pending E auth statuses;
  if bool_decide (length pending = 0) then mret (0%Z, None) else
  _ ← interfere g;
  locked digest (clear_pending_body pending).
End apply.
