(* ===== verification/KeyInv.v ===== *)
(** * Running the key pool handlers

    Inversion rules for the handlers' monads and the meaning of a transaction on the pool's
    file, for every fault schedule.
    The second part has the invariant of the pool, the third shows that the transactions keep it. *)
From S2P Require Import Prelude RustStr Remotes Disk SubscriptionTypes KeyPool KeyPlan.

(** ** Results *)
Lemma ok_bind_inv {E A B} (m : result E A) (f : A → result E B) b :
  (m ≫= f) = Ok b → ∃ a, m = Ok a ∧ f a = Ok b.
Proof. destruct m as [a|e]; [eauto | done]. Qed.
Lemma Ok_inj {E A} (a b : A) : Ok (E:=E) a = Ok b → a = b.
Proof. by intros [= ->]. Qed.
Lemma ok_or_inv {E A} (o : option A) (e : E) a : ok_or o e = Ok a → o = Some a.
Proof. destruct o; naive_solver. Qed.
Lemma bail_if_inv {E} b (e : E) u : bail_if b e = Ok u → b = false.
Proof. by destruct b. Qed.

Lemma forallb_Forall_true {A} (f : A → bool) l :
  forallb f l = true ↔ Forall (λ x, f x = true) l.
Proof. induction l; simpl; [done |]. by rw andb_true_iff Forall_cons IHl. Qed.

(** Takes a successful run of a result program apart, up to its first [match]. *)
Ltac ok_inv H :=
  let a := fresh "a" in let Ha := fresh "Ha" in
  lazymatch type of H with
  | _ ≫= _ = Ok _ =>
      apply ok_bind_inv in H as (a & Ha & H);
      try (apply ok_or_inv in Ha); try (apply bail_if_inv in Ha); ok_inv H
  | Ok _ = Ok _ => simplify_eq/=
  | _ => idtac
  end.

(** ** Handlers *)
Lemma api_bind_inv {A B} (m : API A) (f : A → API B) w r w' :
  (m ≫= f) w = (r, w') →
  (∃ a w1, m w = (Ok a, w1) ∧ f a w1 = (r, w')) ∨ (∃ e, m w = (Err e, w') ∧ r = Err e).
Proof.
  unfold mbind, API_bind. destruct (m w) as [[a|e] w1] eqn:E; [| naive_solver].
  intros H. left. by exists a, w1.
Qed.
Lemma api_bind_ok {A B} (m : API A) (f : A → API B) w b w' :
  (m ≫= f) w = (Ok b, w') → ∃ a w1, m w = (Ok a, w1) ∧ f a w1 = (Ok b, w').
Proof. intros [H|(e & _ & ?)]%api_bind_inv; [done | done]. Qed.
Lemma of_result_inv {A} (x : result api_error A) w r w' :
  of_result x w = (r, w') → w' = w ∧ r = x.
Proof. destruct x; by intros [= <- <-]. Qed.
Lemma of_result_bind {A B} (a : A) (f : A → API B) w : (of_result (Ok a) ≫= f) w = f a w.
Proof. done. Qed.

(** [reads m]: the program never changes the disk. *)
Definition reads {A} (m : API A) : Prop := ∀ w, disk (m w).2 = disk w.

Lemma reads_bind {A B} (m : API A) (f : A → API B) :
  reads m → (∀ a, reads (f a)) → reads (m ≫= f).
Proof.
  intros Hm Hf w. specialize (Hm w). unfold mbind, API_bind.
  destruct (m w) as [[a|e] w1]; simpl in *; [by rw Hf | done].
Qed.
Lemma reads_ret {A} (a : A) : reads (mret a).
Proof. done. Qed.
Lemma reads_of_result {A} (x : result api_error A) : reads (of_result x).
Proof. by destruct x. Qed.
Lemma reads_throw {A} e : reads (throw (A:=A) e).
Proof. done. Qed.

(** The content of the configuration file; a missing file is empty. *)
Definition pool_content (d : dir) : file := default [] (d !! KEYS_CFG).

Lemma read_optional_spec name w r w' :
  read_optional name w = (r, w') →
  disk w' = disk w ∧ faults w' = faults w ∧ ∀ f, r = Ok f → f = default [] (disk w !! name).
Proof.
  unfold read_optional, attempt, fs_open, syscall, get_disk, enoent, fail, mbind, IO_bind, mret, IO_ret.
  simpl. destruct (faults w (tick w)); simpl; [naive_solver |].
  destruct (disk w !! name); naive_solver.
Qed.

Lemma read_optional_quiet name w :
  quiet w → ∃ w', read_optional name w = (Ok (default [] (disk w !! name)), w')
                  ∧ disk w' = disk w ∧ quiet w'.
Proof.
  intros Hq. unfold read_optional, attempt, fs_open, syscall, get_disk, enoent, fail, mbind, IO_bind, mret, IO_ret.
  simpl. rw (Hq (tick w)). simpl. destruct (disk w !! name); simpl; eauto.
Qed.

Section run.
Context `{KeyPoolEnv}.

Definition pool (d : dir) : option config_data := parse_keys (pool_content d).

Lemma config_spec w r w' :
  config w = (r, w') →
  disk w' = disk w ∧ ∀ cd, r = Ok cd → pool (disk w) = Some cd.1 ∧ cd.2 = sha256 (pool_content (disk w)).
Proof.
  unfold config, lift. intros [(f & w1 & Hf & Hr)|(e & He & ->)]%api_bind_inv.
  - destruct (read_optional KEYS_CFG w) as [[f'|e'] w1'] eqn:E; [| done]. injection Hf as -> ->.
    apply read_optional_spec in E as (Hd & _ & Hf'). specialize (Hf' f eq_refl).
    fold (pool_content (disk w)) in Hf'. subst f. unfold pool.
    destruct (parse_keys (pool_content (disk w))); injection Hr as <- <-; naive_solver.
  - destruct (read_optional KEYS_CFG w) as [[f'|e'] w1'] eqn:E; [done |]. injection He as <- ->.
    apply read_optional_spec in E as (Hd & _ & _). naive_solver.
Qed.

Lemma config_quiet w c :
  quiet w → pool (disk w) = Some c →
  ∃ w', config w = (Ok (c, sha256 (pool_content (disk w))), w') ∧ disk w' = disk w ∧ quiet w'.
Proof.
  intros Hq Hc. destruct (read_optional_quiet KEYS_CFG w Hq) as (w' & Hr & Hd & Hq').
  exists w'. unfold config, lift, mbind, API_bind. rw Hr. fold (pool_content (disk w)).
  unfold pool in Hc. by rw Hc.
Qed.

Lemma reads_config : reads config.
Proof. intros w. destruct (config w) as [r w'] eqn:E. simpl. by apply config_spec in E as [-> _]. Qed.

Lemma save_config_spec c w r w' :
  save_config c w = (r, w') →
  match r with
  | Ok dg => ∃ raw, write_keys c = Some raw ∧ dg = sha256 raw ∧ disk w' = <[KEYS_CFG := raw]> (disk w)
  | Err _ => disk w' = disk w
  end.
Proof.
  unfold save_config. destruct (write_keys c) as [raw|]; [| intros [= <- <-]; done].
  unfold lift, fs_replace, syscall, get_disk, put_disk, mbind, API_bind, IO_bind, mret, API_ret.
  simpl. destruct (faults w (tick w)); intros [= <- <-]; [done |]. by exists raw.
Qed.

Lemma save_config_quiet c w raw :
  quiet w → write_keys c = Some raw →
  ∃ w', save_config c w = (Ok (sha256 raw), w') ∧ disk w' = <[KEYS_CFG := raw]> (disk w) ∧ quiet w'.
Proof.
  intros Hq Hw. unfold save_config. rw Hw.
  unfold lift, fs_replace, syscall, get_disk, put_disk, mbind, API_bind, IO_bind, mret, API_ret.
  simpl. rw (Hq (tick w)). simpl. eexists. by split_and!.
Qed.

(** What a transaction does to the disk. *)
Definition committed {A} (expected : option string)
    (body : config_data → string → result api_error (A * option config_data))
    (d : dir) (r : A * option string) (d' : dir) : Prop :=
  ∃ c, pool d = Some c
    ∧ detect_modification (sha256 (pool_content d)) expected = Ok ()
    ∧ match r.2 with
      | None => d' = d ∧ body c (sha256 (pool_content d)) = Ok (r.1, None)
      | Some dg => ∃ c' raw, body c (sha256 (pool_content d)) = Ok (r.1, Some c')
                   ∧ write_keys c' = Some raw ∧ dg = sha256 raw ∧ d' = <[KEYS_CFG := raw]> d
      end.

(** A transaction commits or leaves the disk alone. *)
Lemma locked_spec {A} expected
    (body : config_data → string → result api_error (A * option config_data)) w r w' :
  locked expected body w = (r, w') →
  match r with
  | Ok a => committed expected body (disk w) a (disk w')
  | Err _ => disk w' = disk w
  end.
Proof.
  unfold locked. intros [(cd & w1 & Hc & Hr)|(e & He & ->)]%api_bind_inv;
    [| by apply config_spec in He as [-> _]].
  apply config_spec in Hc as [Hd1 Hcd]. destruct (Hcd cd eq_refl) as [Hpool Hdig].
  apply api_bind_inv in Hr as [([] & w2 & [-> Hm]%of_result_inv & Hr)|(e & [-> _]%of_result_inv & ->)];
    [| done].
  apply api_bind_inv in Hr as [([a o] & w3 & [-> Hb]%of_result_inv & Hr)|(e & [-> _]%of_result_inv & ->)];
    [| done].
  rw Hdig in Hm Hb. simpl in Hr. destruct o as [c'|].
  - apply api_bind_inv in Hr as [(dg & w4 & (raw & Hraw & -> & Hd)%save_config_spec & [= <- <-])|(e & He & ->)].
    + exists cd.1. split_and!; [done | done |]. simpl. exists c', raw. by rw Hd Hd1.
    + apply save_config_spec in He. by rw He Hd1.
  - injection Hr as <- <-. exists cd.1. split_and!; [done | done |]. simpl. by rw Hd1.
Qed.

(** Without faults a transaction whose body succeeds commits. *)
Lemma locked_quiet {A} expected
    (body : config_data → string → result api_error (A * option config_data)) w c a c' raw :
  quiet w → pool (disk w) = Some c →
  detect_modification (sha256 (pool_content (disk w))) expected = Ok () →
  body c (sha256 (pool_content (disk w))) = Ok (a, Some c') → write_keys c' = Some raw →
  ∃ w', locked expected body w = (Ok (a, Some (sha256 raw)), w')
        ∧ disk w' = <[KEYS_CFG := raw]> (disk w) ∧ quiet w'.
Proof.
  intros Hq Hc Hm Hb Hw. destruct (config_quiet w c Hq Hc) as (w1 & Hr1 & Hd1 & Hq1).
  destruct (save_config_quiet c' w1 raw Hq1 Hw) as (w2 & Hr2 & Hd2 & Hq2).
  exists w2. rw Hd2 Hd1. split_and!; [| done | done].
  unfold locked. unfold mbind at 1, API_bind at 1. rw Hr1. simpl. rw Hm. simpl.
  unfold mbind at 1, API_bind at 1. simpl. rw Hb. simpl.
  unfold mbind, API_bind. simpl. by rw Hr2.
Qed.

(** Without faults a transaction that saves nothing returns its value. *)
Lemma locked_quiet_none {A} expected
    (body : config_data → string → result api_error (A * option config_data)) w c a :
  quiet w → pool (disk w) = Some c →
  detect_modification (sha256 (pool_content (disk w))) expected = Ok () →
  body c (sha256 (pool_content (disk w))) = Ok (a, None) →
  ∃ w', locked expected body w = (Ok (a, None), w') ∧ disk w' = disk w ∧ quiet w'.
Proof.
  intros Hq Hc Hm Hb. destruct (config_quiet w c Hq Hc) as (w1 & Hr1 & Hd1 & Hq1).
  exists w1. rw Hd1. split_and!; [| done | done].
  unfold locked. unfold mbind at 1, API_bind at 1. rw Hr1. simpl. rw Hm. simpl.
  unfold mbind, API_bind. simpl. by rw Hb.
Qed.
End run.

(** * The invariant of the key pool

    [entry_wf] says what an entry looks like, [pool_wf] adds that no node has two keys.  Both
    only look at the entries, not at their order, so they respect [pool_equiv].  Every
    transaction of the handlers is a [PoolTransaction]: it keeps [pool_wf]. *)

Section inv.
Context `{KeyPoolEnv}.
Implicit Types (c : config_data) (e : SubscriptionKeyEntry).

(** An entry is stored under its own, valid key and has that key's product; it has both halves
    of a binding or none, a bound node has a valid name, and only a bound entry has a queued
    clear. *)
Record entry_wf (k : string) (e : SubscriptionKeyEntry) : Prop := {
  wf_key : key e = k;
  wf_schema : subscription_key_schema k = true;
  wf_product : product_from_key k = Some (product_type e);
  wf_both : is_Some (remote e) ↔ is_Some (node e);
  wf_node n : node e = Some n → node_schema n = true;
  wf_pending : pending_clear e = true → is_Some (remote e);
}.

Record pool_wf (c : config_data) : Prop := {
  wf_entry k e : sd_get c k = Some e → entry_wf k e;
  wf_unique k1 e1 k2 e2 b :
    sd_get c k1 = Some e1 → sd_get c k2 = Some e2 →
    binding e1 = Some b → binding e2 = Some b → k1 = k2;
}.

(** Two pools with the same entries. *)
Definition pool_equiv (c c' : config_data) : Prop := ∀ k, sd_get c k = sd_get c' k.

Global Instance pool_equiv_equivalence : Equivalence pool_equiv.
Proof.
  split; [done | by intros c c' Hc k | ]. intros c1 c2 c3 H12 H23 k. by rw (H12 k) (H23 k).
Qed.

Global Instance pool_wf_proper : Proper (pool_equiv ==> iff) pool_wf.
Proof.
  assert (∀ c c', pool_equiv c c' → pool_wf c → pool_wf c') as Himpl.
  { intros c c' Hc [He Hu]. split; [intros k e; rw -(Hc k); apply He |].
    intros k1 e1 k2 e2 b. rw -(Hc k1) -(Hc k2). apply Hu. }
  intros c c' Hc. split; [by apply Himpl | apply Himpl; by symmetry].
Qed.

(** The file holds a well-formed pool. *)
Definition disk_wf (d : dir) : Prop := ∃ c, pool d = Some c ∧ pool_wf c.
(** The initial pool. *)
Definition pool_empty (c : config_data) : Prop := ∀ k, sd_get c k = None.

Lemma pool_empty_wf c : pool_empty c → pool_wf c.
Proof. intros He. split; [intros k e | intros k1 e1 k2 e2 b]; by rw He. Qed.

Context `{!KeyPoolLaws}.

Global Instance sd_insert_proper : Proper (pool_equiv ==> eq ==> eq ==> pool_equiv) sd_insert.
Proof. intros c c' Hc k _ <- e _ <- k'. rw !sd_get_insert (Hc k') //. Qed.
Global Instance sd_remove_proper : Proper (pool_equiv ==> eq ==> pool_equiv) sd_remove.
Proof. intros c c' Hc k _ <- k'. rw !sd_get_remove (Hc k') //. Qed.

(** ** Bindings *)
Lemma bound_to_binding e r n : bound_to e r n = true ↔ binding e = Some (r, n).
Proof.
  unfold bound_to, binding. rw andb_true_iff !bool_decide_eq_true.
  destruct (remote e), (node e); naive_solver.
Qed.
Lemma bound_to_binding_false e r n : bound_to e r n = false ↔ binding e ≠ Some (r, n).
Proof. rw -bound_to_binding. destruct (bound_to e r n); naive_solver. Qed.

Lemma binding_remote e r n : binding e = Some (r, n) → remote e = Some r ∧ node e = Some n.
Proof. unfold binding. destruct (remote e), (node e); naive_solver. Qed.
Lemma binding_set e b pc : binding (set_binding e b pc) = b.
Proof. by destruct b as [[r n]|]. Qed.
Lemma binding_set_pending e pc : binding (set_pending e pc) = binding e.
Proof. done. Qed.
Lemma binding_None e k : entry_wf k e → binding e = None ↔ remote e = None.
Proof.
  intros [_ _ _ Hb _ _]. unfold binding. destruct (remote e), (node e); naive_solver.
Qed.

Lemma find_bound_Some c r n k e :
  find_bound c r n = Some (k, e) → sd_get c k = Some e ∧ binding e = Some (r, n).
Proof.
  intros [Hin Hb]%find_by_Some. split; [by apply sd_get_iter | by apply bound_to_binding].
Qed.

Lemma find_bound_None c r n k e :
  find_bound c r n = None → sd_get c k = Some e → binding e ≠ Some (r, n).
Proof.
  intros Hf Hg%sd_get_iter. apply bound_to_binding_false.
  by apply (find_by_None (λ p, bound_to p.2 r n) (sd_iter c) (k, e)).
Qed.

Lemma target_bound_false c r n k e :
  target_bound c r n = false → sd_get c k = Some e → binding e ≠ Some (r, n).
Proof.
  unfold target_bound. intros Hf Hg%sd_get_iter Hb%bound_to_binding.
  assert (existsb (λ p, bound_to p.2 r n) (sd_iter c) = true) as Ht; [| by rw Ht in Hf].
  apply List.existsb_exists. exists (k, e). split; [by apply list_elem_of_In | done].
Qed.

Lemma other_bound_None c k r n k' e' :
  pool_wf c → other_bound c k r n = None → sd_get c k' = Some e' → k' ≠ k →
  binding e' ≠ Some (r, n).
Proof.
  intros Hwf Ho Hg Hne. apply bound_to_binding_false. unfold other_bound in Ho.
  apply fmap_None in Ho. pose proof (wf_key _ _ (wf_entry _ Hwf _ _ Hg)) as Hk.
  apply sd_get_iter in Hg.
  pose proof (find_by_None _ _ (k', e') Ho Hg) as Hf. simpl in Hf.
  apply andb_false_iff in Hf as [Hf|Hf]; [| done].
  apply negb_false_iff, String.eqb_eq in Hf. congruence.
Qed.

(** ** Changing one entry *)
Lemma pool_wf_insert c k e :
  pool_wf c → entry_wf k e →
  (∀ k' e' b, k' ≠ k → sd_get c k' = Some e' → binding e = Some b → binding e' ≠ Some b) →
  pool_wf (sd_insert c k e).
Proof.
  intros Hwf He Hu. split.
  - intros k' e'. rw sd_get_insert. case_decide as Hk; [| by apply (wf_entry _ Hwf)].
    intros [= <-]. by subst k'.
  - intros k1 e1 k2 e2 b. rw !sd_get_insert. intros H1 H2 Hb1 Hb2.
    repeat case_decide; simplify_eq; [done | | | by apply (wf_unique _ Hwf k1 e1 k2 e2 b)].
    + exfalso. by apply (Hu k1 e1 b).
    + exfalso. by apply (Hu k2 e2 b).
Qed.

Lemma pool_wf_remove c k : pool_wf c → pool_wf (sd_remove c k).
Proof.
  intros Hwf. split.
  - intros k' e'. rw sd_get_remove. case_decide; [done | by apply (wf_entry _ Hwf)].
  - intros k1 e1 k2 e2 b. rw !sd_get_remove. repeat case_decide; try done. apply (wf_unique _ Hwf).
Qed.

(** Rewriting an entry without touching its binding. *)
Lemma pool_wf_same_binding c k e e' :
  pool_wf c → sd_get c k = Some e → entry_wf k e' → binding e' = binding e →
  pool_wf (sd_insert c k e').
Proof.
  intros Hwf Hg He' Hb. apply pool_wf_insert; [done | done |].
  intros k2 e2 b Hne Hg2 Hb' Hb2. apply Hne. symmetry.
  apply (wf_unique _ Hwf k e k2 e2 b); [done | done | by rw -Hb | done].
Qed.

Lemma entry_wf_set_pending k e pc :
  entry_wf k e → (pc = true → is_Some (remote e)) → entry_wf k (set_pending e pc).
Proof. intros [] ?. by constructor. Qed.

Lemma entry_wf_unbind k e : entry_wf k e → entry_wf k (set_binding e None false).
Proof. intros []. by constructor. Qed.

Lemma entry_wf_bind k e r n pc :
  entry_wf k e → node_schema n = true → entry_wf k (set_binding e (Some (r, n)) pc).
Proof.
  intros [] Hn. constructor; simpl; try done. by intros n' [= <-].
Qed.

Lemma entry_wf_new k p lv src b :
  subscription_key_schema k = true → product_from_key k = Some p →
  (∀ r n, b = Some (r, n) → node_schema n = true) → entry_wf k (new_entry k p lv src b).
Proof.
  intros Hk Hp Hn. constructor; simpl; try done.
  - by destruct b.
  - intros n Hb. destruct b as [[r n']|]; [| done]. injection Hb as ->. by apply (Hn r).
Qed.

Lemma pool_wf_unbind c k e :
  pool_wf c → sd_get c k = Some e → pool_wf (sd_insert c k (set_binding e None false)).
Proof.
  intros Hwf Hg. apply pool_wf_insert; [done | by apply entry_wf_unbind, (wf_entry _ Hwf) |].
  intros k' e' b _ _. by rw binding_set.
Qed.

Lemma pool_wf_bind c k e r n pc :
  pool_wf c → entry_wf k e → node_schema n = true →
  (∀ k' e', k' ≠ k → sd_get c k' = Some e' → binding e' ≠ Some (r, n)) →
  pool_wf (sd_insert c k (set_binding e (Some (r, n)) pc)).
Proof.
  intros Hwf He Hn Hu. apply pool_wf_insert; [done | by apply entry_wf_bind |].
  intros k' e' b Hne Hg. rw binding_set. intros [= <-]. by apply (Hu k' e').
Qed.

(** ** Transactions *)
Class PoolTransaction {A}
    (body : config_data → string → result api_error (A * option config_data)) : Prop :=
  transaction_wf c digest a c' : body c digest = Ok (a, Some c') → pool_wf c → pool_wf c'.

(** A committed transaction leaves a well-formed pool on the disk, whatever calls fail. *)
Lemma locked_wf {A} expected
    (body : config_data → string → result api_error (A * option config_data))
    `{!PoolTransaction body} w r w' :
  locked expected body w = (r, w') → disk_wf (disk w) → disk_wf (disk w').
Proof.
  intros Hl (c & Hc & Hwf). apply locked_spec in Hl. destruct r as [[a o]|e].
  - destruct Hl as (c0 & Hc0 & _ & Hm). rw Hc in Hc0. injection Hc0 as <-. simpl in Hm. destruct o as [dg|].
    + destruct Hm as (c' & raw & Hb & Hw & _ & ->).
      destruct (parse_write_keys c' raw Hw) as (c'' & Hp & Heq).
      exists c''. unfold pool, pool_content. rw lookup_insert_eq. split; [done |].
      apply (pool_wf_proper c'' c' Heq), (transaction_wf (body:=body) _ _ _ _ Hb Hwf).
    + destruct Hm as [-> _]. by exists c.
  - rw Hl. by exists c.
Qed.
End inv.

(** * The transactions of the key pool keep its invariant

    One [PoolTransaction] instance per handler. *)

Section trans.
Context `{KeyPoolLaws}.
Implicit Types (c : config_data) (e : SubscriptionKeyEntry).

Lemma collect_keys_wf keys seen r :
  Forall (λ k, subscription_key_schema k = true) keys → collect_keys seen keys = Ok r →
  Forall (λ e, entry_wf (key e) e ∧ remote e = None) r.1.
Proof.
  revert seen r. induction keys as [|k keys IH]; intros seen r Hk Hr; simpl in Hr; ok_inv Hr; [done |].
  apply Forall_cons in Hk as [Hk Hks]. case_bool_decide; ok_inv Hr.
  - by apply (IH seen).
  - constructor; [| by apply (IH (k :: seen))]. split; [| done]. by apply entry_wf_new.
Qed.

Lemma add_entries_wf entries c c' :
  Forall (λ e, entry_wf (key e) e ∧ remote e = None) entries →
  add_entries c entries = Ok c' → pool_wf c → pool_wf c'.
Proof.
  revert c. induction entries as [|e es IH]; intros c Hes Hr Hwf; simpl in Hr; ok_inv Hr; [done |].
  apply Forall_cons in Hes as [[He Hn] Hes]. destruct (sd_get c (key e)); [done |].
  apply (IH _ Hes Hr), pool_wf_insert; [done | done |].
  intros k' e' b _ _ Hb. apply (binding_None _ _ He) in Hn. by rw Hn in Hb.
Qed.

Global Instance add_keys_trans entries :
  Forall (λ e, entry_wf (key e) e ∧ remote e = None) entries →
  PoolTransaction (λ c _, c' ← add_entries c entries; Ok ((), Some c')).
Proof. intros Hes c dg [] c' Hr Hwf. ok_inv Hr. by eapply add_entries_wf. Qed.

Global Instance delete_key_trans E auth k p : PoolTransaction (delete_key_body E auth k p).
Proof. intros c dg [] c' Hr Hwf. unfold delete_key_body in Hr. ok_inv Hr. by apply pool_wf_remove. Qed.

Global Instance clear_assignment_trans E auth k p : PoolTransaction (clear_assignment_body E auth k p).
Proof. intros c dg [] c' Hr Hwf. unfold clear_assignment_body in Hr. ok_inv Hr. by apply pool_wf_unbind. Qed.

Global Instance set_assignment_trans E auth k r n p :
  node_schema n = true → PoolTransaction (set_assignment_body E auth k r n p).
Proof.
  intros Hn c dg [] c' Hr Hwf. unfold set_assignment_body in Hr. ok_inv Hr.
  apply pool_wf_bind; [done | by apply (wf_entry _ Hwf) | done |].
  intros k' e' Hne Hg. apply (other_bound_None c k r n k' e'); [done | by destruct (other_bound c k r n) | done | done].
Qed.

Global Instance queue_clear_trans r n : PoolTransaction (queue_clear_body r n).
Proof.
  intros c dg [] c' Hr Hwf. unfold queue_clear_body in Hr. ok_inv Hr. destruct a as [k e].
  apply find_bound_Some in Ha as [Hg Hb]. apply (pool_wf_same_binding c k e); [done | done | | done].
  apply entry_wf_set_pending; [by apply (wf_entry _ Hwf) |]. apply binding_remote in Hb as [Hb _]. by rw Hb.
Qed.

Global Instance revert_pending_clear_trans r n : PoolTransaction (revert_pending_clear_body r n).
Proof.
  intros c dg [] c' Hr Hwf. unfold revert_pending_clear_body in Hr. ok_inv Hr. destruct a as [k e].
  apply find_bound_Some in Ha as [Hg Hb]. apply (pool_wf_same_binding c k e); [done | done | | done].
  by apply entry_wf_set_pending; [apply (wf_entry _ Hwf) |].
Qed.

Global Instance adopt_key_trans r n dg0 k :
  node_schema n = true → PoolTransaction (adopt_key_body r n dg0 k).
Proof.
  intros Hn c dg [] c' Hr Hwf. unfold adopt_key_body in Hr. ok_inv Hr.
  destruct (sd_get c k) as [e|] eqn:Hg; ok_inv Hr.
  - apply pool_wf_bind; [done | by apply (wf_entry _ Hwf) | done |].
    intros k' e' _. by apply target_bound_false.
  - apply pool_wf_insert; [done | apply entry_wf_new; [by destruct (subscription_key_schema k) | done |] |].
    + naive_solver.
    + intros k' e' b _ Hg' [= <-]. by apply (target_bound_false c r n k').
Qed.

Lemma assign_proposed_wf E auth rs c p c' :
  assign_proposed E auth rs c p = Some c' → pool_wf c → pool_wf c'.
Proof.
  unfold assign_proposed. intros Hr Hwf. destruct (priv_modify _ _ _); [| done]. simpl in Hr.
  destruct (node_schema _) eqn:Hn; [| done]. simpl in Hr.
  apply bind_Some in Hr as (ty & _ & Hr). apply bind_Some in Hr as (e & Hg & Hr).
  destruct (matches_remote_type _ _); [| done]. simpl in Hr.
  case_bool_decide as Ho; [done |]. destruct (remote e); [done |]. injection Hr as <-.
  apply pool_wf_bind; [done | by apply (wf_entry _ Hwf) | done |].
  intros k' e' Hne Hg'. apply (other_bound_None c (pa_key p) _ _ k' e'); [done | | done | done].
  by apply eq_None_not_Some.
Qed.

Lemma assign_all_wf E auth rs ps c : pool_wf c → pool_wf (assign_all E auth rs c ps).2.
Proof.
  revert c. induction ps as [|p ps IH]; intros c Hwf; simpl; [done |].
  destruct (assign_proposed E auth rs c p) eqn:Hp; simpl; [| by apply IH].
  apply IH. by eapply assign_proposed_wf.
Qed.

Lemma save_unless_empty_Some {A} (r : list A * config_data) a c' :
  save_unless_empty r = (a, Some c') → a = r.1 ∧ c' = r.2.
Proof. unfold save_unless_empty. destruct r.1; naive_solver. Qed.

Global Instance bulk_assign_trans E auth prop : PoolTransaction (bulk_assign_body E auth prop).
Proof.
  intros c dg a c' Hr Hwf. unfold bulk_assign_body in Hr.
  apply ok_bind_inv in Hr as (rs & _ & [_ ->]%Ok_inj%save_unless_empty_Some). by apply assign_all_wf.
Qed.

Lemma adopt_candidate_wf E auth c n a c' :
  adopt_candidate E auth c n = Ok (Some (a, c')) → pool_wf c → pool_wf c'.
Proof.
  unfold adopt_candidate. intros Hr Hwf. destruct (ns_current_key n) as [k|]; [| done].
  case_bool_decide; [done |]. destruct (priv_modify _ _ _); [| done]. simpl in Hr.
  destruct (node_schema _) eqn:Hn; [| done]. simpl in Hr.
  destruct (target_bound _ _ _) eqn:Ht; [done |].
  destruct (sd_get c k) as [e|] eqn:Hg.
  - destruct (is_bound e || _); [done |]. injection Hr as <- <-.
    apply pool_wf_bind; [done | by apply (wf_entry _ Hwf) | done |].
    intros k' e' _. by apply target_bound_false.
  - destruct (subscription_key_schema k) eqn:Hk; [| done]. simpl in Hr.
    destruct (product_from_key k) as [pt|] eqn:Hp; [| done]. ok_inv Hr.
    apply pool_wf_insert; [done | apply entry_wf_new; naive_solver |].
    intros k' e' b _ Hg' [= <-]. by apply (target_bound_false c _ _ k').
Qed.

Lemma adopt_candidates_wf E auth ns c r :
  adopt_candidates E auth c ns = Ok r → pool_wf c → pool_wf r.2.
Proof.
  revert c r. induction ns as [|n ns IH]; intros c r Hr Hwf; simpl in Hr; ok_inv Hr; [done |].
  destruct a as [[a c1]|]; ok_inv Hr; [| by apply (IH c)].
  apply (IH c1); [done |]. by eapply adopt_candidate_wf.
Qed.

Global Instance adopt_all_trans E auth ns : PoolTransaction (adopt_all_body E auth ns).
Proof.
  intros c dg a c' Hr Hwf. unfold adopt_all_body in Hr.
  apply ok_bind_inv in Hr as (r & Hr & [_ ->]%Ok_inj%save_unless_empty_Some). by eapply adopt_candidates_wf.
Qed.

Global Instance drop_binding_trans p : PoolTransaction (drop_binding_body p).
Proof.
  intros c dg [] c' Hr Hwf. unfold drop_binding_body in Hr. ok_inv Hr.
  destruct (sd_get c (pe_key p)) as [e|] eqn:Hg; [| done].
  destruct (bound_to _ _ _); [by apply pool_wf_unbind | done].
Qed.

Lemma discard_entry_wf c p c' : discard_entry c p = Some c' → pool_wf c → pool_wf c'.
Proof.
  unfold discard_entry. intros (e & Hg & Hr)%bind_Some Hwf. destruct (bound_to _ _ _); [| done].
  injection Hr as <-. destruct (pe_op p); [by apply pool_wf_unbind |].
  apply (pool_wf_same_binding c _ e); [done | done | | done].
  by apply entry_wf_set_pending; [apply (wf_entry _ Hwf) |].
Qed.

Lemma discard_all_wf ps c : pool_wf c → pool_wf (discard_all c ps).2.
Proof.
  revert c. induction ps as [|p ps IH]; intros c Hwf; simpl; [done |].
  destruct (discard_entry c p) eqn:Hp; simpl; [| by apply IH].
  apply IH. by eapply discard_entry_wf.
Qed.

Global Instance clear_pending_trans ps : PoolTransaction (clear_pending_body ps).
Proof.
  intros c dg a c' Hr Hwf. unfold clear_pending_body in Hr. ok_inv Hr.
  destruct (0 <? _)%Z; [| done]. simplify_eq. by apply discard_all_wf.
Qed.
End trans.
