(* ===== verification/KeyRouter.v ===== *)
(** * The key pool as a state machine

    The router of server/src/api/subscriptions/mod.rs: [request] lists the calls that change
    the pool, [valid_request] is the parameter check of their API schemas and [handle] runs
    one.  [reachable] interleaves calls: the first phase of a handler reads the files of one
    reachable moment, its transaction those of another.
    The other parts have the steps of the worker, the first phases of the handlers with the orphan
    guards, and relations between pools. *)
From S2P Require Import Prelude RustStr Remotes Disk SubscriptionTypes KeyPool KeyPlan KeyInv.

Inductive request :=
| AddKeys (keys : list string) (digest : option string)
| DeleteKey (k : string) (digest : option string)
| SetAssignment (k r n : string) (digest : option string)
| ClearAssignment (k : string) (digest : option string)
| QueueClear (r n : string) (digest : option string)
| RevertPendingClear (r n : string) (digest : option string)
| AdoptKey (r n : string) (digest : option string)
| AdoptAll (digest : option string)
| BulkAssign (prop : AutoAssignProposal)
| ClearPending (digest : option string).

Section router.
Context `{KeyPoolEnv}.

Definition valid_request (q : request) : bool :=
  match q with
  | AddKeys keys _ => forallb subscription_key_schema keys
  | SetAssignment k _ n _ => subscription_key_schema k && node_schema n
  | DeleteKey k _ | ClearAssignment k _ => subscription_key_schema k
  | QueueClear _ n _ | RevertPendingClear _ n _ | AdoptKey _ n _ => node_schema n
  | AdoptAll _ | BulkAssign _ | ClearPending _ => true
  end.

(** [E1] and [E2] are the surroundings of the two phases and [g] is what happens between. *)
Definition handle (E1 E2 : env) (g : world → world) (q : request) : API () :=
  match q with
  | AddKeys keys digest => _ ← add_keys g keys digest; mret ()
  | DeleteKey k digest => _ ← delete_key E1 E2 g k digest; mret ()
  | SetAssignment k r n digest => _ ← set_assignment E1 E2 g k r n digest; mret ()
  | ClearAssignment k digest => _ ← clear_assignment E1 E2 g k digest; mret ()
  | QueueClear r n digest => _ ← queue_clear E1 g r n digest; mret ()
  | RevertPendingClear r n digest => _ ← revert_pending_clear E1 g r n digest; mret ()
  | AdoptKey r n digest => _ ← adopt_key E1 g r n digest; mret ()
  | AdoptAll digest => _ ← adopt_all E1 E2 g digest; mret ()
  | BulkAssign prop => _ ← bulk_assign E1 E2 g prop; mret ()
  | ClearPending digest => _ ← clear_pending E1 g digest; mret ()
  end.

Inductive reachable : world → Prop :=
| reach_init w c : pool (disk w) = Some c → pool_empty c → reachable w
| reach_handle E1 E2 q w w2 r w' :
    reachable w → reachable w2 → valid_request q = true →
    handle E1 E2 (λ _, w2) q w = (r, w') → reachable w'
| reach_worker E auth w before between r t w' :
    reachable w → (∀ p, reachable (before p)) → (∀ p, reachable (between p)) →
    run_apply_pending E (λ p _, before p) (λ p _, between p) auth w = (r, t, w') →
    reachable w'.

(** ** Programs that keep the pool well-formed *)
Definition keeps_pool {A} (m : API A) : Prop :=
  ∀ w r w', m w = (r, w') → disk_wf (disk w) → disk_wf (disk w').

Lemma reads_keeps_pool {A} (m : API A) : reads m → keeps_pool m.
Proof. intros Hm w r w' Hr. specialize (Hm w). rw Hr in Hm. simpl in Hm. by rw Hm. Qed.

Lemma keeps_pool_bind {A B} (m : API A) (f : A → API B) :
  keeps_pool m → (∀ a, keeps_pool (f a)) → keeps_pool (m ≫= f).
Proof.
  intros Hm Hf w r w' [(a & w1 & Ha & Hr)|(e & He & _)]%api_bind_inv Hwf.
  - by eapply Hf, Hm.
  - by eapply Hm.
Qed.

Lemma keeps_pool_of_result {A B} (x : result api_error A) (f : A → API B) :
  (∀ a, x = Ok a → keeps_pool (f a)) → keeps_pool (of_result x ≫= f).
Proof.
  intros Hf w r w' [(a & w1 & [-> Ha]%of_result_inv & Hr)|(e & [-> _]%of_result_inv & _)]%api_bind_inv;
    [by eapply Hf | done].
Qed.

Lemma keeps_pool_interfere g : (∀ w, disk_wf (disk (g w))) → keeps_pool (interfere g).
Proof. intros Hg w r w' [= <- <-] _. apply Hg. Qed.

Context `{!KeyPoolLaws}.

Lemma keeps_pool_locked {A} expected
    (body : config_data → string → result api_error (A * option config_data))
    `{!PoolTransaction body} : keeps_pool (locked expected body).
Proof. intros w r w'. by apply (locked_wf expected body). Qed.

Lemma save_shadow_pool s w r w' : save_shadow s w = (r, w') → pool_content (disk w') = pool_content (disk w).
Proof.
  unfold save_shadow. destruct (write_shadow s) as [raw|]; [| by intros [= <- <-]].
  unfold lift, fs_replace, syscall, get_disk, put_disk, mbind, IO_bind. simpl.
  destruct (faults w (tick w)); intros [= <- <-]; [done |]. unfold pool_content. simpl.
  by rw lookup_insert_ne.
Qed.

Lemma drop_shadow_pool k w r w' : drop_shadow k w = (r, w') → pool_content (disk w') = pool_content (disk w).
Proof.
  unfold drop_shadow. destruct ((s ← shadow_config; save_shadow (shadow_remove s k)) w) as [r1 w1] eqn:E.
  intros [= <- <-]. unfold shadow_config, lift in E.
  assert (∀ f w2, read_optional KEYS_SHADOW w = (f, w2) → disk w2 = disk w) as Hread.
  { intros f w2 [Hd _]%read_optional_spec. done. }
  unfold mbind, API_bind in E. destruct (read_optional KEYS_SHADOW w) as [[f|e] w2] eqn:Er.
  - destruct (parse_shadow f).
    + apply save_shadow_pool in E. by rw E (Hread _ _ eq_refl).
    + injection E as <- <-. by rw (Hread _ _ eq_refl).
  - injection E as <- <-. by rw (Hread _ _ eq_refl).
Qed.

Lemma keeps_pool_drop_shadow k : keeps_pool (drop_shadow k).
Proof.
  intros w r w' Hd%drop_shadow_pool (c & Hc & Hwf). exists c. split; [| done].
  unfold pool. by rw Hd.
Qed.
End router.

(** Splits a handler into its calls and finishes those that only read. *)
Ltac reads_tac :=
  repeat first
    [ apply reads_of_result | apply reads_ret | apply reads_throw | apply reads_config
    | apply reads_bind; [| intros] | case_match ].
Ltac keeps_step :=
  first
    [ apply reads_keeps_pool; solve [reads_tac]
    | apply keeps_pool_interfere; by intros
    | apply keeps_pool_locked;
      first [by apply _ | by apply set_assignment_trans | by apply adopt_key_trans]
    | apply keeps_pool_drop_shadow
    | by apply reads_keeps_pool ].
Ltac keeps_tac := repeat first [keeps_step | apply keeps_pool_bind; [keeps_step | intros]].

Section reach.
Context `{KeyPoolLaws}.

Lemma reads_collect_node_status E : reads (collect_node_status E).
Proof. unfold collect_node_status. reads_tac. Qed.
Lemma reads_compute_pending E auth ns : reads (compute_pending E auth ns).
Proof. unfold compute_pending. reads_tac. Qed.

Lemma handle_wf E1 E2 g q :
  valid_request q = true → (∀ w, disk_wf (disk (g w))) → keeps_pool (handle E1 E2 g q).
Proof.
  intros Hq Hg. pose proof (reads_collect_node_status E1) as Hns.
  pose proof (λ a l, reads_compute_pending E1 a l) as Hcp.
  destruct q; simpl in *; (apply keeps_pool_bind; [| intros; apply reads_keeps_pool, reads_ret]).
  - unfold add_keys. apply keeps_pool_bind; [keeps_step | intros _].
    apply keeps_pool_of_result. intros [es dup] Hes%collect_keys_wf; [| by apply forallb_Forall_true].
    apply keeps_pool_bind; [keeps_step | intros _].
    apply keeps_pool_bind; [apply keeps_pool_locked; by apply add_keys_trans | intros; keeps_step].
  - unfold delete_key, delete_key_pre, delete_key_locked. keeps_tac.
  - apply andb_true_iff in Hq as [_ Hn]. unfold set_assignment, set_assignment_pre. keeps_tac.
  - unfold clear_assignment, clear_assignment_pre. keeps_tac.
  - unfold queue_clear. keeps_tac.
  - unfold revert_pending_clear. keeps_tac.
  - unfold adopt_key, adopt_key_pre. keeps_tac.
  - unfold adopt_all. keeps_tac.
  - unfold bulk_assign. keeps_tac.
  - unfold clear_pending. keeps_tac. case_bool_decide; keeps_tac.
Qed.
End reach.

(** * The apply-pending worker

    Rules for the worker's monad and what one step of the worker does; that the worker keeps
    the pool well-formed. *)

Lemma worker_bind_inv {A B} (m : Worker A) (f : A → Worker B) w r t w' :
  (m ≫= f) w = (r, t, w') →
  (∃ a t1 w1 t2, m w = (Ok a, t1, w1) ∧ f a w1 = (r, t2, w') ∧ t = (t1 ++ t2)%list)
  ∨ (∃ e, m w = (Err e, t, w') ∧ r = Err e).
Proof.
  unfold mbind, Worker_bind. destruct (m w) as [[[a|e] t1] w1] eqn:E; [| naive_solver].
  destruct (f a w1) as [[r2 t2] w2] eqn:Ef. intros [= <- <- <-]. left. by exists a, t1, w1, t2.
Qed.

Lemma run_api_inv {A} (m : API A) w r t w' : run_api m w = (r, t, w') → m w = (r, w') ∧ t = [].
Proof. unfold run_api. destruct (m w). by intros [= -> <- ->]. Qed.
Lemma try_api_inv {A} (m : API A) w r t w' :
  try_api m w = (r, t, w') → ∃ x, r = Ok x ∧ m w = (x, w') ∧ t = [].
Proof. unfold try_api. destruct (m w). intros [= <- <- <-]. eauto. Qed.

Section keeps.
Context `{KeyPoolLaws}.

Definition worker_keeps {A} (m : Worker A) : Prop :=
  ∀ w r t w', m w = (r, t, w') → disk_wf (disk w) → disk_wf (disk w').

Lemma worker_keeps_bind {A B} (m : Worker A) (f : A → Worker B) :
  worker_keeps m → (∀ a, worker_keeps (f a)) → worker_keeps (m ≫= f).
Proof.
  intros Hm Hf w r t w' [(a & t1 & w1 & t2 & Ha & Hr & _)|(e & He & _)]%worker_bind_inv Hwf.
  - by eapply Hf, Hm.
  - by eapply Hm.
Qed.
Lemma worker_keeps_ret {A} (a : A) : worker_keeps (mret a).
Proof. by intros w r t w' [= <- <- <-]. Qed.
Lemma worker_keeps_api {A} (m : API A) : keeps_pool m → worker_keeps (run_api m).
Proof. intros Hm w r t w' [Hr _]%run_api_inv. by eapply Hm. Qed.
Lemma worker_keeps_try {A} (m : API A) : keeps_pool m → worker_keeps (try_api m).
Proof. intros Hm w r t w' (x & _ & Hr & _)%try_api_inv. by eapply Hm. Qed.
Lemma worker_keeps_emit ev : worker_keeps (emit ev).
Proof. by intros w r t w' [= <- <- <-]. Qed.
Lemma worker_keeps_call E c : worker_keeps (call E c).
Proof.
  apply worker_keeps_bind; [apply worker_keeps_emit | intros; apply worker_keeps_ret].
Qed.

Ltac worker_tac :=
  repeat first
    [ apply worker_keeps_ret | apply worker_keeps_emit | apply worker_keeps_call
    | apply worker_keeps_api; solve [keeps_tac] | apply worker_keeps_try; solve [keeps_tac]
    | apply worker_keeps_bind; [| intros] | case_match ].

Lemma apply_entry_wf E before between rs p :
  (∀ w, disk_wf (disk (before p w))) → (∀ w, disk_wf (disk (between p w))) →
  worker_keeps (apply_entry E before between rs p).
Proof.
  intros Hb Hm. unfold apply_entry, apply_push, apply_clear, push_key_to_remote, delete_subscription_on_remote.
  worker_tac.
Qed.

Lemma apply_entries_wf E before between rs ps ok fs :
  (∀ p w, disk_wf (disk (before p w))) → (∀ p w, disk_wf (disk (between p w))) →
  worker_keeps (apply_entries E before between rs ps ok fs).
Proof.
  intros Hb Hm. revert ok fs. induction ps as [|p ps IH]; intros ok fs; simpl; [worker_tac |].
  apply worker_keeps_bind; [by apply apply_entry_wf |]. intros []; apply IH.
Qed.

Lemma run_apply_pending_wf E before between auth :
  (∀ p w, disk_wf (disk (before p w))) → (∀ p w, disk_wf (disk (between p w))) →
  worker_keeps (run_apply_pending E before between auth).
Proof.
  intros Hb Hm. unfold run_apply_pending.
  apply worker_keeps_bind; [worker_tac | intros rs].
  apply worker_keeps_bind; [apply worker_keeps_api, reads_keeps_pool, reads_compute_pending | intros ps].
  case_bool_decide; [worker_tac |].
  apply worker_keeps_bind; [by apply apply_entries_wf |]. intros []. worker_tac.
Qed.

(** Every reachable world has a well-formed pool. *)
Lemma reachable_disk_wf w : reachable w → disk_wf (disk w).
Proof.
  induction 1 as [w c Hc He | E1 E2 q w w2 r w' _ IH _ IH2 Hq Hr
                 | E auth w before between r t w' _ IH _ IHb _ IHm Hr].
  - exists c. split; [done | by apply pool_empty_wf].
  - by eapply (handle_wf E1 E2 (λ _, w2) q Hq).
  - by eapply (run_apply_pending_wf E (λ p _, before p) (λ p _, between p) auth).
Qed.
End keeps.

(** * The first phases of the handlers and the orphan guards

    What a handler knows after its first phase, and that the guards under the lock, with the
    digest of the first phase, are enough to know that a binding that is about to be released
    was not live. *)

(** A remote answered that [k] is the active key of its node [n]. *)
Definition live_on (E : env) (k r n : string) : Prop :=
  ∃ rs ty live info, remotes_config E = Ok rs ∧ get_remote rs r = Some ty
    ∧ live_info E r = Ok live ∧ live !! n = Some (Some info)
    ∧ ni_status info = Active ∧ ni_key info = Some k.

Lemma get_remotes_inv E rs : get_remotes E = Ok rs → remotes_config E = Ok rs.
Proof. unfold get_remotes. destruct (remotes_config E); naive_solver. Qed.

Lemma check_synced_spec E k b s :
  check_synced_assignment_for_unassign E k b = Ok s →
  match b with
  | None => s = None
  | Some (r, n) => s = Some (r, n) ∨ (s = None ∧ ¬ live_on E k r n)
  end.
Proof.
  unfold check_synced_assignment_for_unassign. destruct b as [[r n]|]; [| by intros [= <-]].
  intros (rs & Hrs%get_remotes_inv & Hs)%ok_bind_inv. destruct (get_remote rs r) as [ty|] eqn:Hty.
  2:{ injection Hs as <-. right. split; [done |]. intros (? & ? & ? & ? & ? & ? & _). congruence. }
  destruct (live_info E r) as [live|] eqn:Hl.
  2:{ injection Hs as <-. right. split; [done |]. intros (? & ? & ? & ? & _ & _ & ? & _). congruence. }
  destruct (match live !! n with Some (Some info) => _ | _ => _ end) eqn:Hm;
    injection Hs as <-; [by left | right]. split; [done |].
  intros (? & ? & live' & info & _ & _ & Hl' & Hn & Ha & Hk).
  assert (live' = live) as -> by congruence. rw Hn in Hm.
  by rw Ha Hk !bool_decide_true in Hm.
Qed.

Section guards.
Context `{KeyPoolLaws}.
Implicit Types (c : config_data) (e : SubscriptionKeyEntry).

(** What the first phase of a handler on key [k] found on disk [d]; [checked] is the binding it
    asked the remote about. *)
Record pre_found (E : env) (k : string) (d : dir) (checked : option (string * string) → Prop)
    (p : pre_check) : Prop := {
  found_digest : pre_digest p = sha256 (pool_content d);
  found_binding : ∃ c, pool d = Some c
    ∧ pre_had_binding p = bool_decide (is_Some (sd_get c k ≫= binding))
    ∧ (checked (sd_get c k ≫= binding) →
       check_synced_assignment_for_unassign E k (sd_get c k ≫= binding) = Ok (synced_block p));
}.

Lemma reads_delete_key_pre E k : reads (delete_key_pre E k).
Proof. unfold delete_key_pre. reads_tac. Qed.
Lemma reads_clear_assignment_pre E k : reads (clear_assignment_pre E k).
Proof. unfold clear_assignment_pre. reads_tac. Qed.
Lemma reads_set_assignment_pre E k r n : reads (set_assignment_pre E k r n).
Proof. unfold set_assignment_pre. reads_tac. Qed.
Lemma reads_adopt_key_pre E r n : reads (adopt_key_pre E r n).
Proof. unfold adopt_key_pre. reads_tac. Qed.

Lemma delete_key_pre_spec E k w a p w1 :
  delete_key_pre E k w = (Ok (a, p), w1) →
  auth_id E = Some a ∧ pre_found E k (disk w) (λ _, True) p.
Proof.
  unfold delete_key_pre. intros (a' & w2 & [-> Ha]%of_result_inv & Hr)%api_bind_ok.
  apply api_bind_ok in Hr as (cd & w3 & [Hd Hcd]%config_spec & Hr).
  destruct (Hcd cd eq_refl) as [Hc Hdig].
  apply api_bind_ok in Hr as (e & w4 & [-> He]%of_result_inv & Hr).
  symmetry in He. apply ok_or_inv in He.
  apply api_bind_ok in Hr as (u & w5 & [-> _]%of_result_inv & Hr).
  apply api_bind_ok in Hr as (s & w6 & [-> Hs]%of_result_inv & Hr).
  injection Hr as <- <- <-. symmetry in Ha. apply ok_or_inv in Ha. split; [done |].
  constructor; [done |]. exists cd.1. rw He. simpl. by split_and!.
Qed.

Lemma clear_assignment_pre_spec E k w a p w1 :
  clear_assignment_pre E k w = (Ok (a, p), w1) →
  auth_id E = Some a ∧ pre_found E k (disk w) (λ _, True) p.
Proof.
  unfold clear_assignment_pre. intros (a' & w2 & [-> Ha]%of_result_inv & Hr)%api_bind_ok.
  apply api_bind_ok in Hr as (cd & w3 & [Hd Hcd]%config_spec & Hr).
  destruct (Hcd cd eq_refl) as [Hc Hdig].
  apply api_bind_ok in Hr as (u & w5 & [-> _]%of_result_inv & Hr).
  apply api_bind_ok in Hr as (s & w6 & [-> Hs]%of_result_inv & Hr).
  injection Hr as <- <- <-. symmetry in Ha. apply ok_or_inv in Ha. split; [done |].
  constructor; [done |]. exists cd.1. by split_and!.
Qed.

Lemma set_assignment_pre_spec E k r n w a p w1 :
  set_assignment_pre E k r n w = (Ok (a, p), w1) →
  auth_id E = Some a ∧ priv_modify E a r = true
  ∧ pre_found E k (disk w) (λ b, moves b r n = true) p.
Proof.
  unfold set_assignment_pre. intros (a' & w2 & [-> Ha]%of_result_inv & Hr)%api_bind_ok.
  apply api_bind_ok in Hr as (u & w4 & [-> Hm]%of_result_inv & Hr).
  apply api_bind_ok in Hr as (cd & w3 & [Hd Hcd]%config_spec & Hr).
  destruct (Hcd cd eq_refl) as [Hc Hdig].
  apply api_bind_ok in Hr as (u' & w5 & [-> _]%of_result_inv & Hr).
  apply api_bind_ok in Hr as (s & w6 & [-> Hs]%of_result_inv & Hr).
  injection Hr as <- <- <-. symmetry in Ha, Hm. apply ok_or_inv in Ha.
  apply bail_if_inv, negb_false_iff in Hm. split_and!; [done | done |].
  constructor; [done |]. exists cd.1. split_and!; [done | done |]. simpl. intros Hmv. by rw Hmv in Hs.
Qed.

Lemma adopt_key_pre_spec E r n w dg k w1 :
  adopt_key_pre E r n w = (Ok (dg, k), w1) →
  ∃ a, auth_id E = Some a ∧ priv_modify E a r = true ∧ dg = sha256 (pool_content (disk w)).
Proof.
  unfold adopt_key_pre. intros (a & w2 & [-> Ha]%of_result_inv & Hr)%api_bind_ok.
  apply api_bind_ok in Hr as (u & w4 & [-> Hm]%of_result_inv & Hr).
  apply api_bind_ok in Hr as (cd & w3 & [Hd Hcd]%config_spec & Hr).
  destruct (Hcd cd eq_refl) as [Hc Hdig].
  repeat (apply api_bind_ok in Hr as (? & ? & _ & Hr)). injection Hr as <- <- _.
  symmetry in Ha, Hm. apply ok_or_inv in Ha. apply bail_if_inv, negb_false_iff in Hm. eauto.
Qed.

(** ** The guards *)

(** No collision of the digest on the two contents a handler saw. *)
Definition no_collision (d d2 : dir) : Prop :=
  sha256 (pool_content d) = sha256 (pool_content d2) → pool_content d = pool_content d2.

Lemma is_bound_binding e r n : binding e = Some (r, n) → is_bound e = true.
Proof. intros [Hr _]%binding_remote. unfold is_bound. by rw Hr. Qed.

(** A binding found under the lock with an unchanged digest is the one the first phase asked
    about; when it is not blocked it was not live. *)
Lemma guard_sound E k d d2 checked p c e r n :
  pre_found E k d checked p → no_collision d d2 → pool d2 = Some c → sd_get c k = Some e →
  binding e = Some (r, n) → checked (Some (r, n)) →
  still_synced p e = false → sha256 (pool_content d2) = pre_digest p → ¬ live_on E k r n.
Proof.
  intros [Hdig (c0 & Hc0 & _ & Hs)] Hnc Hc He Hb Hck Hst Heq. rw Hdig in Heq.
  symmetry in Heq. apply Hnc in Heq. unfold pool in *. rw Heq in Hc0.
  assert (c0 = c) as -> by congruence. rw He in Hs. simpl in Hs. rw Hb in Hs.
  specialize (Hs Hck). apply check_synced_spec in Hs as [Hs|[_ Hs]]; [| done].
  unfold still_synced in Hst. rw Hs in Hst. by apply bound_to_binding_false in Hst.
Qed.

Lemma orphan_guard_sound E k d d2 p c e r n :
  pre_found E k d (λ _, True) p → no_collision d d2 → pool d2 = Some c → sd_get c k = Some e →
  binding e = Some (r, n) → orphan_guard p (sha256 (pool_content d2)) e = false →
  ¬ live_on E k r n.
Proof.
  intros Hpre Hnc Hc He Hb Hg. unfold orphan_guard in Hg. rw (is_bound_binding e r n Hb) in Hg.
  rw !andb_true_r in Hg. apply orb_false_iff in Hg as [[Hst Hd]%orb_false_iff _].
  apply negb_false_iff, String.eqb_eq in Hd. by eapply guard_sound.
Qed.

Lemma rebind_guard_sound E k d d2 p c e r n r' n' :
  pre_found E k d (λ b, moves b r' n' = true) p → no_collision d d2 → pool d2 = Some c →
  sd_get c k = Some e → binding e = Some (r, n) → moves (binding e) r' n' = true →
  rebind_guard p (sha256 (pool_content d2)) e r' n' = false → ¬ live_on E k r n.
Proof.
  intros Hpre Hnc Hc He Hb Hm Hg. unfold rebind_guard in Hg. rw (is_bound_binding e r n Hb) Hm in Hg.
  rw !andb_true_r in Hg. apply orb_false_iff in Hg as [[Hst Hd]%orb_false_iff _].
  apply negb_false_iff, String.eqb_eq in Hd. eapply guard_sound; try done. by rw -Hb.
Qed.

Lemma moves_false b r n : moves (Some b) r n = false → b = (r, n).
Proof.
  destruct b as [r' n']. simpl. intros [H1 H2]%orb_false_iff.
  apply negb_false_iff, String.eqb_eq in H1, H2. by subst.
Qed.
End guards.

(** * Handlers and relations between pools

    A relation [R] between the pool before and after a transaction is lifted to whole handlers:
    [late R w2 m] says that [m] leaves the disk alone or relates the pool of [w2], the world at
    the time of its transaction, to the pool it leaves. *)

Section rel.
Context `{KeyPoolLaws}.
Implicit Types (c : config_data) (R : relation config_data).

Class PoolRel R : Prop := {
  rel_refl c : R c c;
  rel_trans c1 c2 c3 : R c1 c2 → R c2 c3 → R c1 c3;
  rel_equiv c c1 c2 : pool_equiv c1 c2 → R c c2 → R c c1;
}.

(** The transaction relates the pool of disk [d] to its result. *)
Definition within R (d : dir) {A}
    (body : config_data → string → result api_error (A * option config_data)) : Prop :=
  ∀ c a c', pool d = Some c → body c (sha256 (pool_content d)) = Ok (a, Some c') → R c c'.

Definition changes R (d d' : dir) : Prop :=
  ∀ c c', pool d = Some c → pool d' = Some c' → R c c'.

Definition late R (w2 : world) {A} (m : API A) : Prop :=
  ∀ w r w', m w = (r, w') → disk w' = disk w ∨ changes R (disk w2) (disk w').

Context R `{!PoolRel R}.

Lemma changes_refl d : changes R d d.
Proof. intros c c' Hc Hc'. rw Hc in Hc'. injection Hc' as <-. apply rel_refl. Qed.

Lemma locked_changes {A} expected
    (body : config_data → string → result api_error (A * option config_data)) w r w' :
  within R (disk w) body → locked expected body w = (r, w') → changes R (disk w) (disk w').
Proof.
  intros HA Hl%locked_spec. destruct r as [[a o]|e]; [| rw Hl; apply changes_refl].
  destruct Hl as (c & Hc & _ & Hm). simpl in Hm. destruct o as [dg|].
  - destruct Hm as (c1 & raw & Hb & Hw & _ & ->). intros c0 c0' Hc0 Hc0'. simplify_eq.
    destruct (parse_write_keys c1 raw Hw) as (c2 & Hp & Heq).
    unfold pool, pool_content in Hc0'. rw lookup_insert_eq in Hc0'. simpl in Hc0'. simplify_eq.
    eapply rel_equiv; [exact Heq |]. by eapply HA.
  - destruct Hm as [-> _]. apply changes_refl.
Qed.

Lemma late_pre_at w2 {A B} (m : API A) (f : A → API B) w r w' :
  reads m → (∀ a w1, m w = (Ok a, w1) → late R w2 (f a)) → (m ≫= f) w = (r, w') →
  disk w' = disk w ∨ changes R (disk w2) (disk w').
Proof.
  intros Hm Hf [(a & w1 & Ha & Hr)|(e & He & _)]%api_bind_inv.
  - destruct (Hf a w1 Ha w1 r w' Hr) as [Hd|Hd]; [| by right]. left.
    specialize (Hm w). rw Ha in Hm. simpl in Hm. by rw Hd Hm.
  - left. specialize (Hm w). by rw He in Hm.
Qed.

Lemma late_pre w2 {A B} (m : API A) (f : A → API B) :
  reads m → (∀ w a w1, m w = (Ok a, w1) → late R w2 (f a)) → late R w2 (m ≫= f).
Proof. intros Hm Hf w r w'. apply late_pre_at; [done |]. intros a w1. apply Hf. Qed.

Lemma late_of_result w2 {A B} (x : result api_error A) (f : A → API B) :
  (∀ a, x = Ok a → late R w2 (f a)) → late R w2 (of_result x ≫= f).
Proof.
  intros Hf. apply late_pre; [apply reads_of_result |].
  intros w a w1 [_ Ha]%of_result_inv. by apply Hf.
Qed.

Lemma late_reads w2 {A} (m : API A) : reads m → late R w2 m.
Proof. intros Hm w r w' Hr. left. specialize (Hm w). by rw Hr in Hm. Qed.

(** The transaction, followed by calls that do not touch the pool's file. *)
Lemma late_locked w2 {A B} expected
    (body : config_data → string → result api_error (A * option config_data))
    (f : A * option string → API B) :
  within R (disk w2) body → (∀ a w, pool_content (disk (f a w).2) = pool_content (disk w)) →
  late R w2 (_ ← interfere (λ _, w2); r ← locked expected body; f r).
Proof.
  intros HA Hf w r w' Hr. right. unfold interfere, mbind, API_bind in Hr.
  destruct (locked expected body w2) as [[a|e] w3] eqn:E.
  - apply locked_changes in E; [| done]. intros c c' Hc Hc'.
    specialize (Hf a w3). rw Hr in Hf. simpl in Hf. apply E; [done |].
    unfold pool in *. by rw -Hf.
  - injection Hr as <- <-. by apply locked_changes in E.
Qed.

Lemma late_locked_end w2 {A} expected
    (body : config_data → string → result api_error (A * option config_data)) :
  within R (disk w2) body → late R w2 (_ ← interfere (λ _, w2); locked expected body).
Proof.
  intros HA w r w' Hr. right. unfold interfere, mbind, API_bind in Hr.
  by apply locked_changes in Hr.
Qed.

Lemma late_delete_key w2 E auth k p digest :
  within R (disk w2) (delete_key_body E auth k p) →
  late R w2 (_ ← interfere (λ _, w2); delete_key_locked E auth k p digest).
Proof.
  intros HA. unfold delete_key_locked. apply late_locked; [done |].
  intros r w0. simpl. unfold mbind, API_bind.
  destruct (drop_shadow k w0) as [[[]|e] w4] eqn:Ed; by apply drop_shadow_pool in Ed.
Qed.

Lemma late_end_inv {A B} (m : API A) (b : B) w r w' :
  (_ ← m; mret b) w = (r, w') → ∃ r1, m w = (r1, w').
Proof. intros [(a & w1 & Ha & [= <- <-])|(e & He & _)]%api_bind_inv; eauto. Qed.

Lemma late_end w2 {A B} (m : API A) (b : B) : late R w2 m → late R w2 (_ ← m; mret b).
Proof.
  intros Hm w r w' [(a & w1 & Ha & [= <- <-])|(e & He & _)]%api_bind_inv; by eapply Hm.
Qed.
End rel.
