(* ===== verification/KeyAuth.v ===== *)
(** * Who may change the key pool

    [authorised P c c']: an entry that differs between the pools [c] and [c'] was bound only to
    a remote in [P] and is bound only to a remote in [P].  Every transaction is authorised for
    the remotes its caller may modify. *)
From S2P Require Import Prelude RustStr Remotes Disk SubscriptionTypes KeyPool KeyPlan KeyInv KeyRouter.

Section auth.
Context `{KeyPoolLaws}.
Implicit Types (c : config_data) (e : SubscriptionKeyEntry) (P : string → Prop).

Definition authorised P c c' : Prop :=
  ∀ k r, sd_get c k ≠ sd_get c' k →
    (∃ e, (sd_get c k = Some e ∨ sd_get c' k = Some e) ∧ remote e = Some r) → P r.

Lemma authorised_refl P c : authorised P c c.
Proof. intros k r. done. Qed.

Lemma authorised_trans P c1 c2 c3 : authorised P c1 c2 → authorised P c2 c3 → authorised P c1 c3.
Proof.
  intros H12 H23 k r Hne (e & He & Hr).
  destruct (decide (sd_get c1 k = sd_get c2 k)) as [E12|N12].
  - apply (H23 k r); [congruence |]. exists e. split; [| done]. rw E12 in He. done.
  - destruct (decide (sd_get c2 k = sd_get c3 k)) as [E23|N23].
    + apply (H12 k r); [done |]. exists e. split; [| done]. rw -E23 in He. done.
    + destruct He as [He|He].
      * apply (H12 k r); [done |]. exists e. eauto.
      * apply (H23 k r); [done |]. exists e. eauto.
Qed.

Lemma authorised_equiv P c c1 c2 : pool_equiv c1 c2 → authorised P c c2 → authorised P c c1.
Proof. intros Heq Ha k r. rw (Heq k). apply Ha. Qed.

Global Instance authorised_rel P : PoolRel (authorised P).
Proof.
  split; [apply authorised_refl | intros c1 c2 c3; apply authorised_trans |].
  intros c c1 c2. apply authorised_equiv.
Qed.

Lemma authorised_mono P (Q : string → Prop) c c' :
  (∀ r, P r → Q r) → authorised P c c' → authorised Q c c'.
Proof. intros HPQ Ha k r Hne He. apply HPQ. by apply (Ha k r). Qed.

(** Changing one entry. *)
Lemma authorised_insert P c k e' :
  (∀ e r, sd_get c k = Some e → remote e = Some r → P r) → (∀ r, remote e' = Some r → P r) →
  authorised P c (sd_insert c k e').
Proof.
  intros Hold Hnew k' r. rw sd_get_insert. case_decide as Hk; [| done]. subst k'.
  intros _ (e & [He|[= <-]] & Hr); [by apply (Hold e) | by apply Hnew].
Qed.

Lemma authorised_remove P c k :
  (∀ e r, sd_get c k = Some e → remote e = Some r → P r) → authorised P c (sd_remove c k).
Proof.
  intros Hold k' r. rw sd_get_remove. case_decide as Hk; [| done]. subst k'.
  intros _ (e & [He|?] & Hr); [by apply (Hold e) | done].
Qed.

Definition may_modify (E : env) (auth r : string) : Prop := priv_modify E auth r = true.

Lemma check_modify_inv E auth r u : check_modify E auth r = Ok u → may_modify E auth r.
Proof. intros Hp%bail_if_inv. by apply negb_false_iff. Qed.

Lemma recheck_modify_inv E auth e u r :
  recheck_modify E auth e = Ok u → remote e = Some r → may_modify E auth r.
Proof. unfold recheck_modify. intros Hr He. rw He in Hr. by eapply check_modify_inv. Qed.

(** ** The transactions *)
Class Authorised P {A}
    (body : config_data → string → result api_error (A * option config_data)) : Prop :=
  body_authorised c digest a c' : body c digest = Ok (a, Some c') → authorised P c c'.

Lemma add_entries_authorised P entries c c' :
  Forall (λ e, remote e = None) entries → add_entries c entries = Ok c' → authorised P c c'.
Proof.
  revert c. induction entries as [|e es IH]; intros c Hes Hr; simpl in Hr; ok_inv Hr;
    [apply authorised_refl |].
  apply Forall_cons in Hes as [He Hes]. destruct (sd_get c (key e)) eqn:Hg; [done |].
  eapply authorised_trans; [| by apply IH]. apply authorised_insert; [by rw Hg | by rw He].
Qed.

Lemma collect_keys_unbound keys seen r :
  collect_keys seen keys = Ok r → Forall (λ e, remote e = None) r.1.
Proof.
  revert seen r. induction keys as [|k keys IH]; intros seen r Hr; simpl in Hr; ok_inv Hr; [done |].
  case_bool_decide; ok_inv Hr; [by apply (IH seen) |]. constructor; [done |]. by apply (IH (k :: seen)).
Qed.

Global Instance delete_key_authorised E auth k p :
  Authorised (may_modify E auth) (delete_key_body E auth k p).
Proof.
  intros c dg [] c' Hr. unfold delete_key_body in Hr. ok_inv Hr.
  apply authorised_remove. intros e r Hg He. simplify_eq. by eapply recheck_modify_inv.
Qed.

Global Instance clear_assignment_authorised E auth k p :
  Authorised (may_modify E auth) (clear_assignment_body E auth k p).
Proof.
  intros c dg [] c' Hr. unfold clear_assignment_body in Hr. ok_inv Hr.
  apply authorised_insert; [| done]. intros e r Hg He. simplify_eq. by eapply recheck_modify_inv.
Qed.

Lemma set_assignment_authorised P E auth k r n p :
  P r → (∀ r', may_modify E auth r' → P r') → Authorised P (set_assignment_body E auth k r n p).
Proof.
  intros Hr HP c dg [] c' Hb. unfold set_assignment_body in Hb. ok_inv Hb.
  apply authorised_insert; [| by intros r' [= <-]]. intros e r' Hg He.
  rw Hg in Ha. injection Ha as <-. rw He in Ha0.
  destruct (String.eqb_spec r' r) as [->|Hne]; [done |]. by eapply HP, check_modify_inv.
Qed.

Lemma found_authorised P c r n k e e' :
  P r → find_bound c r n = Some (k, e) → remote e' = remote e → authorised P c (sd_insert c k e').
Proof.
  intros HP [Hg [Hrem _]%binding_remote]%find_bound_Some He'. rw Hrem in He'.
  apply authorised_insert; intros *; simplify_eq; [| by rw He'; intros [= <-]].
  rw Hg. by intros [= <-] [= <-]%(transitivity (eq_sym Hrem)).
Qed.

Lemma queue_clear_authorised P r n : P r → Authorised P (queue_clear_body r n).
Proof.
  intros HP c dg [] c' Hb. unfold queue_clear_body in Hb. ok_inv Hb. destruct a as [k e].
  by apply (found_authorised P c r n k e).
Qed.

Lemma revert_pending_clear_authorised P r n : P r → Authorised P (revert_pending_clear_body r n).
Proof.
  intros HP c dg [] c' Hb. unfold revert_pending_clear_body in Hb. ok_inv Hb. destruct a as [k e].
  by apply (found_authorised P c r n k e).
Qed.

(** Binding a free entry to a remote in [P]. *)
Lemma bind_authorised P c k (r n : string) e' :
  P r → (∀ e, sd_get c k = Some e → remote e = None) → remote e' = Some r →
  authorised P c (sd_insert c k e').
Proof.
  intros HP Hfree He'. apply authorised_insert.
  - intros e r' Hg Hr. by rw (Hfree e Hg) in Hr.
  - intros r' Hr. by simplify_eq.
Qed.

Lemma is_bound_false e : is_bound e = false → remote e = None.
Proof. unfold is_bound. by destruct (remote e). Qed.

Lemma adopt_key_authorised P r n dg0 k : P r → Authorised P (adopt_key_body r n dg0 k).
Proof.
  intros HP c dg [] c' Hb. unfold adopt_key_body in Hb. ok_inv Hb.
  destruct (sd_get c k) as [e|] eqn:Hg; ok_inv Hb; apply (bind_authorised P c k r n); try done.
  - intros e' He'. simplify_eq. apply orb_false_iff in Ha1 as [Hf _]. by apply is_bound_false.
  - by rw Hg.
Qed.

Lemma assign_proposed_authorised E auth rs c p c' :
  assign_proposed E auth rs c p = Some c' → authorised (may_modify E auth) c c'.
Proof.
  unfold assign_proposed. intros Hr. destruct (priv_modify _ _ _) eqn:HP; [| done]. simpl in Hr.
  destruct (node_schema _); [| done]. simpl in Hr.
  apply bind_Some in Hr as (ty & _ & Hr). apply bind_Some in Hr as (e & Hg & Hr).
  destruct (matches_remote_type _ _); [| done]. simpl in Hr.
  case_bool_decide; [done |]. destruct (remote e) eqn:He; [done |]. injection Hr as <-.
  apply (bind_authorised _ c _ (pa_remote p) (pa_node p)); [done | | done].
  intros e' He'. by simplify_eq.
Qed.

Lemma assign_all_authorised E auth rs ps c :
  authorised (may_modify E auth) c (assign_all E auth rs c ps).2.
Proof.
  revert c. induction ps as [|p ps IH]; intros c; simpl; [apply authorised_refl |].
  destruct (assign_proposed E auth rs c p) as [c1|] eqn:Hp; simpl; [| apply IH].
  apply (authorised_trans _ _ c1); [by eapply assign_proposed_authorised | apply IH].
Qed.

Global Instance bulk_assign_authorised E auth prop :
  Authorised (may_modify E auth) (bulk_assign_body E auth prop).
Proof.
  intros c dg a c' Hr. unfold bulk_assign_body in Hr.
  apply ok_bind_inv in Hr as (rs & _ & [_ ->]%Ok_inj%save_unless_empty_Some). apply assign_all_authorised.
Qed.

Lemma adopt_candidate_authorised E auth c n a c' :
  adopt_candidate E auth c n = Ok (Some (a, c')) → authorised (may_modify E auth) c c'.
Proof.
  unfold adopt_candidate. intros Hr. destruct (ns_current_key n) as [k|]; [| done].
  case_bool_decide; [done |]. destruct (priv_modify _ _ _) eqn:HP; [| done]. simpl in Hr.
  destruct (node_schema _); [| done]. simpl in Hr. destruct (target_bound _ _ _); [done |].
  destruct (sd_get c k) as [e|] eqn:Hg.
  - destruct (is_bound e || _) eqn:Hb; [done |]. injection Hr as <- <-.
    apply (bind_authorised _ c k (ns_remote n) (ns_node n)); [done | | done].
    intros e' He'. simplify_eq. apply orb_false_iff in Hb as [Hb _]. by apply is_bound_false.
  - destruct (subscription_key_schema k); [| done]. simpl in Hr.
    destruct (product_from_key k); [| done]. ok_inv Hr.
    apply (bind_authorised _ c k (ns_remote n) (ns_node n)); [done | by rw Hg | done].
Qed.

Lemma adopt_candidates_authorised E auth ns c r :
  adopt_candidates E auth c ns = Ok r → authorised (may_modify E auth) c r.2.
Proof.
  revert c r. induction ns as [|n ns IH]; intros c r Hr; simpl in Hr; ok_inv Hr;
    [apply authorised_refl |].
  destruct a as [[a c1]|]; ok_inv Hr; [| by apply IH].
  apply (authorised_trans _ _ c1); [by eapply adopt_candidate_authorised | by apply IH].
Qed.

Global Instance adopt_all_authorised E auth ns :
  Authorised (may_modify E auth) (adopt_all_body E auth ns).
Proof.
  intros c dg a c' Hr. unfold adopt_all_body in Hr.
  apply ok_bind_inv in Hr as (r & Hr & [_ ->]%Ok_inj%save_unless_empty_Some).
  by eapply adopt_candidates_authorised.
Qed.

(** The entries of a plan are on remotes the caller may modify. *)
Lemma pending_of_remote E auth ns e p :
  pending_of E auth ns e = Some p →
  may_modify E auth (pe_remote p) ∧ pe_key p = key e
  ∧ binding e = Some (pe_remote p, pe_node p).
Proof.
  unfold pending_of. intros (r & Hr & (n & Hn & Hp)%bind_Some)%bind_Some.
  unfold binding. rw Hr Hn. unfold may_modify.
  destruct (priv_modify E auth r) eqn:HP; [| done]. simpl in Hp. cases.
Qed.

Lemma discard_entry_authorised P c p c' :
  P (pe_remote p) → discard_entry c p = Some c' → authorised P c c'.
Proof.
  unfold discard_entry. intros HP (e & Hg & Hr)%bind_Some.
  destruct (bound_to _ _ _) eqn:Hb; [| done]. injection Hr as <-.
  apply bound_to_binding, binding_remote in Hb as [Hrem _].
  apply authorised_insert; [intros e' r Hg' Hr; by simplify_eq |].
  intros r. destruct (pe_op p); simpl; [done |]. intros Hr. by simplify_eq.
Qed.

Lemma clear_pending_authorised P ps :
  Forall (λ p, P (pe_remote p)) ps → Authorised P (clear_pending_body ps).
Proof.
  intros Hps c dg a c' Hr. unfold clear_pending_body in Hr. injection Hr as _ Hr.
  destruct (0 <? _)%Z; [| done]. injection Hr as <-. clear dg a.
  revert c. induction Hps as [|p ps Hp Hps IH]; intros c; simpl; [apply authorised_refl |].
  destruct (discard_entry c p) as [c1|] eqn:Hd; simpl; [| apply IH].
  apply (authorised_trans _ _ c1); [by eapply discard_entry_authorised | apply IH].
Qed.

Lemma drop_binding_authorised P p : P (pe_remote p) → Authorised P (drop_binding_body p).
Proof.
  intros HP c dg [] c' Hr. unfold drop_binding_body in Hr. injection Hr as <-.
  destruct (sd_get c (pe_key p)) as [e|] eqn:Hg; [| apply authorised_refl].
  destruct (bound_to _ _ _) eqn:Hb; [| apply authorised_refl].
  apply bound_to_binding, binding_remote in Hb as [Hrem _].
  apply authorised_insert; [| done]. intros e' r Hg' Hr. by simplify_eq.
Qed.

Lemma get_auth_inv E a auth : get_auth E = Ok a → auth_id E = Some auth → a = auth.
Proof. unfold get_auth. intros Ha%ok_or_inv. congruence. Qed.

Lemma body_weaken P (Q : string → Prop) {A}
    (body : config_data → string → result api_error (A * option config_data)) :
  (∀ r, P r → Q r) → Authorised P body → Authorised Q body.
Proof. intros HPQ HA c dg a c' Hb. eapply authorised_mono; [exact HPQ | by eapply HA]. Qed.

Lemma authorised_within P d {A}
    (body : config_data → string → result api_error (A * option config_data)) :
  Authorised P body → within (authorised P) d body.
Proof. intros HA c a c' _ Hb. by eapply HA. Qed.

Lemma compute_pending_remotes E auth ns w ps w1 :
  compute_pending E auth ns w = (Ok ps, w1) → Forall (λ p, may_modify E auth (pe_remote p)) ps.
Proof.
  unfold compute_pending. intros (cd & w2 & _ & [= <- _])%api_bind_ok. apply Forall_forall.
  intros p ([k e] & _ & Hp)%elem_of_filter_map. by apply pending_of_remote in Hp as [Hp _].
Qed.

(** A call changes only entries on remotes that its caller may modify. *)
Lemma handle_late E1 E2 w2 q auth :
  auth_id E1 = Some auth →
  late (authorised (λ r, may_modify E1 auth r ∨ may_modify E2 auth r)) w2
    (handle E1 E2 (λ _, w2) q).
Proof.
  intros Hauth. set (P := λ r, may_modify E1 auth r ∨ may_modify E2 auth r).
  assert (∀ r, may_modify E2 auth r → P r) as HP2 by (intros r Hr; by right).
  assert (∀ a, get_auth E1 = Ok a → a = auth) as Hget by (intros a Ha; by eapply get_auth_inv).
  assert (∀ a, auth_id E1 = Some a → a = auth) as Hsame by (intros a Ha; congruence).
  destruct q; simpl; apply late_end.
  - apply late_of_result. intros _ _. apply late_of_result. intros [es dup] Hes%collect_keys_unbound.
    apply (late_locked (authorised P)); [| done]. intros c [] c' _ Hb. ok_inv Hb. by eapply add_entries_authorised.
  - apply late_pre; [apply reads_delete_key_pre |].
    intros w [a p] w1 [->%Hsame _]%delete_key_pre_spec. apply (late_delete_key (authorised P)), authorised_within.
    by eapply body_weaken; [| apply delete_key_authorised].
  - apply late_pre; [apply reads_set_assignment_pre |].
    intros w [a p] w1 (->%Hsame & Hm & _)%set_assignment_pre_spec.
    apply (late_locked (authorised P)); [| done]. apply authorised_within.
    apply set_assignment_authorised; [by left | done].
  - apply late_pre; [apply reads_clear_assignment_pre |].
    intros w [a p] w1 [->%Hsame _]%clear_assignment_pre_spec.
    apply (late_locked (authorised P)); [| done]. apply authorised_within.
    by eapply body_weaken; [| apply clear_assignment_authorised].
  - apply late_of_result. intros a ->%Hget. apply late_of_result. intros [] Hm%check_modify_inv.
    apply (late_locked (authorised P)); [| done]. apply authorised_within.
    apply queue_clear_authorised. by left.
  - apply late_of_result. intros a ->%Hget. apply late_of_result. intros [] Hm%check_modify_inv.
    apply (late_locked (authorised P)); [| done]. apply authorised_within.
    apply revert_pending_clear_authorised. by left.
  - apply late_pre; [apply reads_adopt_key_pre |].
    intros w [dg0 k] w1 (a & ->%Hsame & Hm & _)%adopt_key_pre_spec.
    apply (late_locked (authorised P)); [| done]. apply authorised_within.
    apply adopt_key_authorised. by left.
  - apply late_of_result. intros a ->%Hget.
    apply late_pre; [apply reads_collect_node_status | intros _ ns _ _].
    apply (late_locked_end (authorised P)), authorised_within. by eapply body_weaken; [| apply adopt_all_authorised].
  - apply late_of_result. intros a ->%Hget.
    apply late_pre; [apply reads_collect_node_status | intros _ ns _ _].
    apply late_of_result. intros [] _.
    apply (late_locked_end (authorised P)), authorised_within. by eapply body_weaken; [| apply bulk_assign_authorised].
  - apply late_of_result. intros a ->%Hget. apply late_pre; [apply reads_config | intros _ cd _ _].
    apply late_of_result. intros [] _.
    apply late_pre; [apply reads_collect_node_status | intros _ ns _ _].
    apply late_pre; [apply reads_compute_pending | intros w ps w1 Hps%compute_pending_remotes].
    case_bool_decide; [apply late_reads, reads_ret |].
    apply (late_locked_end (authorised P)), authorised_within, clear_pending_authorised. eapply Forall_impl; [exact Hps |]. by left.
Qed.
End auth.
