(* ===== verification/KeyOrphan.v ===== *)
(** * No call orphans a live subscription

    A pool releases a binding when an entry is no longer bound to its node.  [releases_within Q]
    says that only bindings with [Q] are released; it holds of every transaction for bindings
    that the remote did not report as live. *)
From S2P Require Import Prelude RustStr Remotes Disk SubscriptionTypes KeyPool KeyPlan KeyInv KeyRouter.

Section orphan.
Context `{KeyPoolLaws}.
Implicit Types (c : config_data) (e : SubscriptionKeyEntry) (Q : string → string → string → Prop).

Definition bound_in c (k r n : string) : Prop := (sd_get c k ≫= binding) = Some (r, n).

Global Instance bound_in_dec c k r n : Decision (bound_in c k r n).
Proof. unfold bound_in. apply _. Defined.

Definition releases_within Q c c' : Prop :=
  ∀ k r n, bound_in c k r n → ¬ bound_in c' k r n → Q k r n.

Global Instance releases_rel Q : PoolRel (releases_within Q).
Proof.
  split.
  - by intros c k r n.
  - intros c1 c2 c3 H12 H23 k r n H1 H3.
    destruct (decide (bound_in c2 k r n)) as [H2|H2]; [by apply H23 | by apply H12].
  - intros c c1 c2 Heq Hr k r n. unfold bound_in. rw (Heq k). apply Hr.
Qed.

(** Changing one entry releases at most its old binding. *)
Lemma releases_insert Q c k e' :
  (∀ e r n, sd_get c k = Some e → binding e = Some (r, n) → binding e' ≠ Some (r, n) → Q k r n) →
  releases_within Q c (sd_insert c k e').
Proof.
  intros HQ k' r n. unfold bound_in. rw sd_get_insert. case_decide as Hk; [| done]. subst k'.
  intros (e & He & Hb)%bind_Some Hn. by apply (HQ e r n).
Qed.

Lemma releases_remove Q c k :
  (∀ e r n, sd_get c k = Some e → binding e = Some (r, n) → Q k r n) →
  releases_within Q c (sd_remove c k).
Proof.
  intros HQ k' r n. unfold bound_in. rw sd_get_remove. case_decide as Hk; [| done]. subst k'.
  intros (e & He & Hb)%bind_Some _. by apply (HQ e r n).
Qed.

(** An entry that is free, or keeps its binding, releases nothing. *)
Lemma releases_free Q c k e' :
  (∀ e, sd_get c k = Some e → remote e = None ∨ binding e' = binding e) →
  releases_within Q c (sd_insert c k e').
Proof.
  intros Hf. apply releases_insert. intros e r n Hg Hb Hn.
  destruct (Hf e Hg) as [Hr|Hr]; [| by rw Hr in Hn].
  apply binding_remote in Hb as [Hb _]. by rw Hr in Hb.
Qed.

(** ** Transactions that release nothing *)
Lemma add_entries_releases Q es c c' : add_entries c es = Ok c' → releases_within Q c c'.
Proof.
  revert c. induction es as [|e es IH]; intros c Hr; simpl in Hr; ok_inv Hr; [apply rel_refl |].
  destruct (sd_get c (key e)) eqn:Hg; [done |].
  eapply rel_trans; [| by apply IH]. apply releases_free. by rw Hg.
Qed.

Lemma queue_clear_releases Q d r n : within (releases_within Q) d (queue_clear_body r n).
Proof.
  intros c [] c' _ Hb. unfold queue_clear_body in Hb. ok_inv Hb. destruct a as [k e].
  apply find_bound_Some in Ha as [Hg _]. apply releases_free. simpl. intros e0 He0. simplify_eq. by right.
Qed.
Lemma revert_releases Q d r n : within (releases_within Q) d (revert_pending_clear_body r n).
Proof.
  intros c [] c' _ Hb. unfold revert_pending_clear_body in Hb. ok_inv Hb. destruct a as [k e].
  apply find_bound_Some in Ha as [Hg _]. apply releases_free. simpl. intros e0 He0. simplify_eq. by right.
Qed.

Lemma adopt_key_releases Q d r n dg0 k : within (releases_within Q) d (adopt_key_body r n dg0 k).
Proof.
  intros c [] c' _ Hb. unfold adopt_key_body in Hb. ok_inv Hb.
  destruct (sd_get c k) as [e|] eqn:Hg; ok_inv Hb; apply releases_free; rw Hg; [| done].
  intros e' [= <-]. left. apply orb_false_iff in Ha1 as [Hf _]. unfold is_bound in Hf.
  by destruct (remote e).
Qed.

Lemma assign_all_releases Q E auth rs ps c :
  releases_within Q c (assign_all E auth rs c ps).2.
Proof.
  revert c. induction ps as [|p ps IH]; intros c; simpl; [apply rel_refl |].
  destruct (assign_proposed E auth rs c p) as [c1|] eqn:Hp; simpl; [| apply IH].
  eapply rel_trans; [| apply IH]. unfold assign_proposed in Hp.
  destruct (priv_modify _ _ _); [| done]. destruct (node_schema _); [| done]. simpl in Hp.
  apply bind_Some in Hp as (ty & _ & Hp). apply bind_Some in Hp as (e & Hg & Hp).
  destruct (matches_remote_type _ _); [| done]. simpl in Hp.
  case_bool_decide; [done |]. destruct (remote e) eqn:He; [done |]. injection Hp as <-.
  apply releases_free. intros e' He'. simplify_eq. by left.
Qed.

Lemma adopt_candidates_releases Q E auth ns c r :
  adopt_candidates E auth c ns = Ok r → releases_within Q c r.2.
Proof.
  revert c r. induction ns as [|n ns IH]; intros c r Hr; simpl in Hr; ok_inv Hr; [apply rel_refl |].
  destruct a as [[a c1]|]; ok_inv Hr; [| by apply IH].
  eapply rel_trans; [| by apply IH]. clear IH. unfold adopt_candidate in Ha.
  destruct (ns_current_key n) as [k|]; [| done]. case_bool_decide; [done |].
  destruct (priv_modify _ _ _); [| done]. destruct (node_schema _); [| done]. simpl in Ha.
  destruct (target_bound _ _ _); [done |]. destruct (sd_get c k) as [e|] eqn:Hg.
  - destruct (is_bound e || _) eqn:Hf; [done |]. injection Ha as _ <-. apply releases_free.
    intros e' He'. simplify_eq. left. apply orb_false_iff in Hf as [Hf _]. unfold is_bound in Hf.
    by destruct (remote e).
  - destruct (subscription_key_schema k); [| done]. destruct (product_from_key k); [| done].
    simpl in Ha. ok_inv Ha. apply releases_free. by rw Hg.
Qed.

(** ** Transactions that release a binding *)
Lemma delete_key_releases E1 E auth k p d d2 :
  pre_found E1 k d (λ _, True) p → no_collision d d2 →
  within (releases_within (λ k r n, ¬ live_on E1 k r n)) d2 (delete_key_body E auth k p).
Proof.
  intros Hp Hnc c [] c' Hc Hb. unfold delete_key_body in Hb. ok_inv Hb.
  apply releases_remove. intros e r n He Hbi. simplify_eq. by eapply orphan_guard_sound.
Qed.

Lemma clear_assignment_releases E1 E auth k p d d2 :
  pre_found E1 k d (λ _, True) p → no_collision d d2 →
  within (releases_within (λ k r n, ¬ live_on E1 k r n)) d2 (clear_assignment_body E auth k p).
Proof.
  intros Hp Hnc c [] c' Hc Hb. unfold clear_assignment_body in Hb. ok_inv Hb.
  apply releases_insert. intros e r n He Hbi _. simplify_eq. by eapply orphan_guard_sound.
Qed.

Lemma set_assignment_releases E1 E auth k r' n' p d d2 :
  pre_found E1 k d (λ b, moves b r' n' = true) p → no_collision d d2 →
  within (releases_within (λ k r n, ¬ live_on E1 k r n)) d2 (set_assignment_body E auth k r' n' p).
Proof.
  intros Hp Hnc c [] c' Hc Hb. unfold set_assignment_body in Hb. ok_inv Hb.
  apply releases_insert. intros e r n He Hbi Hn. rw He in Ha. injection Ha as <-.
  rw binding_set in Hn. destruct (moves (binding e) r' n') eqn:Hm; [by eapply rebind_guard_sound |].
  exfalso. apply Hn. rw Hbi in Hm. by apply moves_false in Hm as [= -> ->].
Qed.

(** ** Discarding pending changes *)

(** A row of the node status for a node of an audited remote that answered. *)
Lemma remote_rows_spec E row l s :
  s ∈ remote_rows E row l ↔
  ∃ r ty infos n info, (r, ty) ∈ l ∧ live_info E r = Ok infos ∧ infos !! n = Some info
    ∧ s = row r ty (n, info).
Proof.
  unfold remote_rows. rw elem_of_concat_fmap. split.
  - intros ([r ty] & Hin & Hs). simpl in Hs. destruct (live_info E r) as [infos|] eqn:Hl; [| by apply not_elem_of_nil in Hs].
    apply list_elem_of_fmap in Hs as ([n info] & -> & Hi). apply elem_of_map_to_list in Hi.
    by exists r, ty, infos, n, info.
  - intros (r & ty & infos & n & info & Hin & Hl & Hi & ->). exists (r, ty). split; [done |].
    simpl. rw Hl. apply list_elem_of_fmap. exists (n, info). split; [done |].
    by apply elem_of_map_to_list.
Qed.

Lemma node_row_fields name ty n info a pc :
  ns_remote (node_row name ty n info a pc) = name ∧ ns_node (node_row name ty n info a pc) = n
  ∧ ns_current_key (node_row name ty n info a pc) = (info ≫= ni_key)
  ∧ ns_assigned_key (node_row name ty n info a pc) = a ∧ ns_ty (node_row name ty n info a pc) = ty.
Proof. by destruct info. Qed.

(** The rows of [collect_node_status]. *)
Lemma collect_node_status_spec E w ns w1 :
  collect_node_status E w = (Ok ns, w1) →
  ∃ auth rs c, auth_id E = Some auth ∧ remotes_config E = Ok rs ∧ pool (disk w) = Some c
    ∧ ∀ s, s ∈ ns ↔ ∃ r ty infos n info, (r, ty) ∈ rs ∧ priv_audit E auth r = true
        ∧ live_info E r = Ok infos ∧ infos !! n = Some info
        ∧ s = match find_bound c r n with
              | Some (_, e) => node_row r ty n info (Some (key e)) (pending_clear e)
              | None => node_row r ty n info None false
              end.
Proof.
  unfold collect_node_status. intros (a & w2 & [-> Ha]%of_result_inv & Hr)%api_bind_ok.
  apply api_bind_ok in Hr as (rs & w3 & [-> Hrs]%of_result_inv & Hr).
  apply api_bind_ok in Hr as (cd & w4 & [Hd Hcd]%config_spec & Hr).
  destruct (Hcd cd eq_refl) as [Hc _]. injection Hr as <- _.
  symmetry in Ha, Hrs. apply ok_or_inv in Ha. apply get_remotes_inv in Hrs.
  exists a, rs, cd.1. split_and!; [done | done | done |]. intros s.
  unfold join_status. rw elem_of_sort_by remote_rows_spec.
  unfold any_privs. setoid_rewrite list_elem_of_filter. naive_solver.
Qed.

(** A key planned to be pushed is not live on its node. *)
Lemma pending_push_not_live E auth ns w w1 e p :
  collect_node_status E w = (Ok ns, w1) → auth_id E = Some auth →
  (∀ r, priv_modify E auth r = true → priv_audit E auth r = true) →
  pending_of E auth ns e = Some p → pe_op p = Push →
  ¬ live_on E (pe_key p) (pe_remote p) (pe_node p).
Proof.
  intros (a & rs & c & Ha & Hrs & Hc & Hns)%collect_node_status_spec Hauth Hpriv Hp Hop Hlive.
  assert (a = auth) as -> by congruence.
  unfold pending_of in Hp. apply bind_Some in Hp as (r & Hr & Hp). apply bind_Some in Hp as (n & Hn & Hp).
  destruct (priv_modify E auth r) eqn:Hm; [| done]. simpl in Hp. apply Hpriv in Hm.
  destruct (pending_clear e); [by injection Hp as <- |].
  assert (pe_key p = key e ∧ pe_remote p = r ∧ pe_node p = n) as (Ek & Er & En) by cases.
  rw Ek Er En in Hlive.
  destruct Hlive as (rs' & ty & live & info & Hrs' & Hty & Hl & Hi & _ & Hk).
  assert (rs' = rs) as -> by congruence.
  unfold get_remote in Hty. apply fmap_Some in Hty as ([r0 ty0] & [Hin Heq]%find_by_Some & ->).
  simpl in Heq. apply String.eqb_eq in Heq as ->.
  destruct (find_by _ ns) as [s|] eqn:Hf.
  - apply find_by_Some in Hf as [Hs [Hsr Hsn]%andb_true_iff]. apply String.eqb_eq in Hsr, Hsn.
    apply Hns in Hs as (r1 & ty1 & infos & n1 & info1 & _ & _ & Hl1 & Hi1 & Hs).
    assert (ns_remote s = r1 ∧ ns_node s = n1 ∧ ns_current_key s = (info1 ≫= ni_key)) as (E1 & E2 & E3).
    { destruct (find_bound c r1 n1) as [[? ?]|]; subst s; by destruct info1. }
    assert (r1 = r) as -> by congruence. assert (n1 = n) as -> by congruence.
    assert (infos = live) as -> by congruence.
    rw Hi1 in Hi. injection Hi as ->. simpl in E3. rw Hk in E3.
    rw E3 bool_decide_true in Hp; done.
  - eassert (_ ∈ ns) as Hin'.
    { apply Hns. exists r, ty0, live, n, (Some info). split_and!; [done | done | done | done | reflexivity]. }
    apply (find_by_None _ _ _ Hf) in Hin'. revert Hin'.
    destruct (find_bound c r n) as [[? ?]|]; simpl; by rw !String.eqb_refl.
Qed.

Lemma discard_entry_releases Q c p c' :
  (pe_op p = Push → Q (pe_key p) (pe_remote p) (pe_node p)) →
  discard_entry c p = Some c' → releases_within Q c c'.
Proof.
  unfold discard_entry. intros HQ (e & Hg & Hr)%bind_Some.
  destruct (bound_to _ _ _) eqn:Hb; [| done]. injection Hr as <-. apply bound_to_binding in Hb.
  apply releases_insert. intros e' r n He' Hb' Hn. rw Hg in He'. injection He' as <-.
  rw Hb in Hb'. injection Hb' as <- <-. destruct (pe_op p); [by apply HQ |]. done.
Qed.

Lemma clear_pending_releases Q d ps :
  Forall (λ p, pe_op p = Push → Q (pe_key p) (pe_remote p) (pe_node p)) ps →
  within (releases_within Q) d (clear_pending_body ps).
Proof.
  intros Hps c a c' _ Hr. unfold clear_pending_body in Hr. injection Hr as _ Hr.
  destruct (0 <? _)%Z; [| done]. injection Hr as <-. clear a.
  revert c. induction Hps as [|p ps Hp Hps IH]; intros c; simpl; [apply rel_refl |].
  destruct (discard_entry c p) as [c1|] eqn:Hd; simpl; [| apply IH].
  eapply rel_trans; [by eapply discard_entry_releases | apply IH].
Qed.

(** ** Whole handlers *)

Abbreviation safe E1 := (releases_within (λ k r n, ¬ live_on E1 k r n)).

Lemma clear_pending_late E1 w2 auth digest :
  auth_id E1 = Some auth →
  (∀ r, priv_modify E1 auth r = true → priv_audit E1 auth r = true) →
  late (safe E1) w2 (clear_pending E1 (λ _, w2) digest).
Proof.
  intros Hauth Hpriv. unfold clear_pending. apply late_of_result. intros a Ha%ok_or_inv.
  assert (a = auth) as -> by congruence.
  apply late_pre; [apply reads_config | intros _ cd _ _]. apply late_of_result. intros [] _.
  apply late_pre; [apply reads_collect_node_status | intros w ns w1 Hns].
  apply late_pre; [apply reads_compute_pending |]. intros w3 ps w4 Hps.
  case_bool_decide; [apply late_reads, reads_ret |].
  apply (late_locked_end (safe E1)), clear_pending_releases.
  unfold compute_pending in Hps. apply api_bind_ok in Hps as (cd' & w5 & _ & [= <- _]).
  apply Forall_forall. intros p ([k e] & _ & Hp)%elem_of_filter_map Hop. by eapply pending_push_not_live.
Qed.

Lemma handle_safe E1 E2 w2 q auth w r w' :
  auth_id E1 = Some auth →
  (∀ r, priv_modify E1 auth r = true → priv_audit E1 auth r = true) →
  no_collision (disk w) (disk w2) →
  handle E1 E2 (λ _, w2) q w = (r, w') →
  disk w' = disk w ∨ changes (safe E1) (disk w2) (disk w').
Proof.
  intros Hauth Hpriv Hnc Hr.
  destruct q; simpl in Hr; apply late_end_inv in Hr as [r1 Hr]; revert Hr.
  - apply late_of_result. intros _ _. apply late_of_result. intros [es dup] _.
    apply (late_locked (safe E1)); [| done]. intros c [] c' _ Hb. ok_inv Hb. by eapply add_entries_releases.
  - apply late_pre_at; [apply reads_delete_key_pre |]. intros [a p] w1 [_ Hp]%delete_key_pre_spec.
    apply (late_delete_key (safe E1)). by eapply delete_key_releases.
  - apply late_pre_at; [apply reads_set_assignment_pre |].
    intros [a p] w1 (_ & _ & Hp)%set_assignment_pre_spec.
    apply (late_locked (safe E1)); [by eapply set_assignment_releases | done].
  - apply late_pre_at; [apply reads_clear_assignment_pre |].
    intros [a p] w1 [_ Hp]%clear_assignment_pre_spec.
    apply (late_locked (safe E1)); [by eapply clear_assignment_releases | done].
  - apply late_of_result. intros a _. apply late_of_result. intros [] _.
    apply (late_locked (safe E1)); [apply queue_clear_releases | done].
  - apply late_of_result. intros a _. apply late_of_result. intros [] _.
    apply (late_locked (safe E1)); [apply revert_releases | done].
  - apply late_pre; [apply reads_adopt_key_pre | intros w0 [dg0 k] w1 _].
    apply (late_locked (safe E1)); [apply adopt_key_releases | done].
  - apply late_of_result. intros a _. apply late_pre; [apply reads_collect_node_status | intros _ ns _ _].
    apply (late_locked_end (safe E1)). intros c x c' _ Hb. unfold adopt_all_body in Hb.
    apply ok_bind_inv in Hb as (y & Hy & [_ ->]%Ok_inj%save_unless_empty_Some).
    by eapply adopt_candidates_releases.
  - apply late_of_result. intros a _. apply late_pre; [apply reads_collect_node_status | intros _ ns _ _].
    apply late_of_result. intros [] _.
    apply (late_locked_end (safe E1)). intros c x c' _ Hb. unfold bulk_assign_body in Hb.
    apply ok_bind_inv in Hb as (y & _ & [_ ->]%Ok_inj%save_unless_empty_Some). apply assign_all_releases.
  - by eapply clear_pending_late.
Qed.
End orphan.
