(* ===== verification/KeyProposals.v ===== *)
(** * Automatic assignment

    [greedy] specifies the plan: nodes in order, each with the smallest key that covers it
    among the keys that are free and not given to an earlier node.  [compute_proposals]
    implements it, and a plan that nothing outdates is committed in full.
    The second part shows that a preview commits. *)
From S2P Require Import Prelude RustStr Remotes Disk SubscriptionTypes KeyPool KeyPlan KeyInv KeyRouter KeyOrphan.

Section proposals.
Context `{KeyPoolLaws}.
Implicit Types (c : config_data) (e : SubscriptionKeyEntry) (n : RemoteNodeStatus).

Definition node_sockets n : Z := u32 (default 1%Z (ns_sockets n)).

(** Key [k] can be given to node [n]. *)
Definition usable c (taken : list string) n (k : string) : Prop :=
  ∃ e, sd_get c k = Some e ∧ remote e = None ∧ ¬ (k ∈ taken)
    ∧ matches_remote_type (product_type e) (ns_ty n) = true
    ∧ (ns_ty n = Pve → ∃ s, socket_count_from_key (key e) = Some s ∧ (node_sockets n ≤ s)%Z).

(** No other usable key has fewer sockets. *)
Definition smallest c (taken : list string) n (k : string) : Prop :=
  ns_ty n = Pve → ∀ k' e e' s s', usable c taken n k' → sd_get c k = Some e → sd_get c k' = Some e' →
    socket_count_from_key (key e) = Some s → socket_count_from_key (key e') = Some s' → (s ≤ s')%Z.

Definition proposal_for c n (k : string) : ProposedAssignment :=
  {| pa_key := k; pa_remote := ns_remote n; pa_node := ns_node n;
     pa_key_sockets := e ← sd_get c k; socket_count_from_key (key e);
     pa_node_sockets := ns_sockets n |}.

Inductive greedy c : list string → list RemoteNodeStatus → list ProposedAssignment → Prop :=
| greedy_nil taken : greedy c taken [] []
| greedy_take taken n ns k ps :
    usable c taken n k → smallest c taken n k → greedy c (k :: taken) ns ps →
    greedy c taken (n :: ns) (proposal_for c n k :: ps)
| greedy_skip taken n ns ps :
    (∀ k, ¬ usable c taken n k) → greedy c taken ns ps → greedy c taken (n :: ns) ps.

(** ** The choice for one node *)
Lemma elem_of_candidates c taken ty k e :
  (k, e) ∈ candidates c taken ty ↔
  sd_get c k = Some e ∧ remote e = None ∧ ¬ (k ∈ taken) ∧ matches_remote_type (product_type e) ty = true.
Proof. unfold candidates. rw list_elem_of_filter -sd_get_iter. simpl. naive_solver. Qed.

Lemma best_key_Some c taken n k :
  best_key c taken n = Some k → usable c taken n k ∧ smallest c taken n k.
Proof.
  unfold best_key. case_bool_decide as Hty.
  - intros (ks & s & Hin & Hs & Hle & Hmin)%pick_best_spec.
    apply list_elem_of_fmap in Hin as ([k0 e] & [= -> ->] & Hin).
    apply elem_of_candidates in Hin as (Hg & Hr & Ht & Hm). split; [by exists e; eauto 10 |].
    intros _ k' e1 e' s1 s' (e2 & Hg2 & Hr2 & Ht2 & Hm2 & Hc2) Hg1 Hg' Hs1 Hs'.
    rw Hg in Hg1. injection Hg1 as <-. rw Hs in Hs1. injection Hs1 as <-.
    rw Hg2 in Hg'. injection Hg' as <-. destruct (Hc2 Hty) as (s2 & Hs2 & Hle2).
    rw Hs2 in Hs'. injection Hs' as <-. apply (Hmin k' (key e2) s2); [| done | done].
    apply list_elem_of_fmap. exists (k', e2). split; [done |]. by apply elem_of_candidates.
  - intros Hh. destruct (candidates c taken (ns_ty n)) as [|[k0 e] l] eqn:Hc; [done |].
    injection Hh as ->.
    assert ((k, e) ∈ candidates c taken (ns_ty n)) as Hin by (rw Hc; apply list_elem_of_here).
    apply elem_of_candidates in Hin as (Hg & Hr & Ht & Hm). split; [| by intros Hp].
    by exists e; split_and!.
Qed.

Lemma best_key_None c taken n k : best_key c taken n = None → ¬ usable c taken n k.
Proof.
  unfold best_key. intros Hb (e & Hg & Hr & Ht & Hm & Hs).
  assert ((k, e) ∈ candidates c taken (ns_ty n)) as Hin by by apply elem_of_candidates.
  case_bool_decide as Hty.
  - destruct (Hs Hty) as (s & Hs' & Hle).
    assert ((k, key e) ∈ ((λ p, (p.1, key p.2)) <$> candidates c taken (ns_ty n))) as Hin'.
    { apply list_elem_of_fmap. by exists (k, e). }
    pose proof (pick_best_None _ _ _ _ _ Hb Hin' Hs'). unfold node_sockets in Hle. lia.
  - destruct (candidates c taken (ns_ty n)); [by apply not_elem_of_nil in Hin | done].
Qed.

Lemma propose_greedy c taken ns : greedy c taken ns (propose c taken ns).
Proof.
  revert taken. induction ns as [|n ns IH]; intros taken; simpl; [constructor |].
  destruct (best_key c taken n) as [k|] eqn:Hb.
  - apply best_key_Some in Hb as [Hu Hs]. by apply greedy_take.
  - apply greedy_skip; [| done]. intros k. by apply best_key_None.
Qed.

(** ** What a greedy plan is *)
Lemma greedy_keys c taken ns ps :
  greedy c taken ns ps → NoDup (pa_key <$> ps) ∧ ∀ p, p ∈ ps → pa_key p ∉ taken.
Proof.
  induction 1 as [taken|taken n ns k ps Hu Hs Hg [Hnd Hni]|taken n ns ps Hu Hg IH];
    [split; [constructor | intros p Hp; by apply not_elem_of_nil in Hp] | | done].
  split.
  - simpl. constructor; [| done]. intros (p & Hk & Hp)%list_elem_of_fmap.
    apply (Hni p Hp). rw -Hk. apply list_elem_of_here.
  - intros p [->|Hp]%elem_of_cons; [by destruct Hu as (e & _ & _ & Ht & _) |].
    intros Hin. apply (Hni p Hp). by right.
Qed.

Lemma greedy_sound c taken ns ps p :
  greedy c taken ns ps → p ∈ ps →
  ∃ n, n ∈ ns ∧ p = proposal_for c n (pa_key p) ∧ usable c taken n (pa_key p).
Proof.
  induction 1 as [taken|taken n ns k ps Hu Hs Hg IH|taken n ns ps Hu Hg IH].
  - intros Hp. by apply not_elem_of_nil in Hp.
  - intros [->|Hp]%elem_of_cons; [exists n; split_and!; [apply list_elem_of_here | done | done] |].
    destruct (IH Hp) as (n' & Hn & Hpf & (e & ? & ? & Ht & ? & ?)).
    exists n'. split_and!; [by right | done |]. exists e. split_and!; try done.
    intros Hin. apply Ht. by right.
  - intros Hp. destruct (IH Hp) as (n' & Hn & ?). exists n'. split; [by right | done].
Qed.

(** A node without a key could not have had one: every key that fits is given away. *)
Lemma greedy_maximal c taken ns ps n k :
  greedy c taken ns ps → n ∈ ns → usable c taken n k →
  k ∈ (pa_key <$> ps) ∨ ∃ k', proposal_for c n k' ∈ ps.
Proof.
  induction 1 as [taken|taken m ns k0 ps Hu Hs Hg IH|taken m ns ps Hu Hg IH].
  - intros Hn. by apply not_elem_of_nil in Hn.
  - intros [->|Hn]%elem_of_cons Hk; [right; exists k0; apply list_elem_of_here |].
    destruct (decide (k = k0)) as [->|Hne]; [left; apply list_elem_of_here |].
    destruct Hk as (e & ? & ? & Ht & ? & ?).
    destruct IH as [Hin|[k' Hin]]; [done | | by left; right | right; exists k'; by right].
    exists e. split_and!; try done. by intros [->|?]%elem_of_cons.
  - intros [->|Hn]%elem_of_cons Hk; [by apply Hu in Hk | by apply IH].
Qed.

(** The nodes of a plan are nodes in order, without repetitions if the nodes had none. *)
Lemma greedy_nodes c taken ns ps :
  greedy c taken ns ps →
  ((λ p, (pa_remote p, pa_node p)) <$> ps) `sublist_of` ((λ n, (ns_remote n, ns_node n)) <$> ns).
Proof. induction 1; simpl; [done | by constructor | by constructor]. Qed.

Lemma socket_order : CmpOrder (λ a b, Z.compare (default 0%Z (ns_sockets b)) (default 0%Z (ns_sockets a))).
Proof.
  apply (cmp_pullback (λ n, default 0%Z (ns_sockets n)) (cmp_rev Z.compare)), cmp_rev_order, _.
Qed.

Lemma compute_proposals_greedy c ns :
  ∃ targets, targets ≡ₚ base.filter (λ n, is_target n = true) ns
    ∧ StronglySorted (λ a b, default 0 (ns_sockets b) ≤ default 0 (ns_sockets a))%Z targets
    ∧ greedy c [] targets (compute_proposals c ns).
Proof.
  eexists. split_and!; [| | apply propose_greedy]; [apply sort_by_perm |].
  pose proof socket_order. eapply StronglySorted_impl; [| by apply sort_by_sorted].
  intros a b Hc. unfold cmp_le in Hc. by apply Z.compare_le_iff in Hc.
Qed.

(** ** Committing a plan *)
Definition accepted (E : env) (auth : string) (p : ProposedAssignment) : Prop :=
  priv_modify E auth (pa_remote p) = true ∧ node_schema (pa_node p) = true.
Global Instance accepted_dec E auth p : Decision (accepted E auth p).
Proof. unfold accepted. apply _. Defined.

Abbreviation target p := (pa_remote p, pa_node p).

(** A proposal that still fits the pool. *)
Definition fits (rs : list (string * RemoteType)) c (p : ProposedAssignment) : Prop :=
  (∃ ty e, get_remote rs (pa_remote p) = Some ty ∧ sd_get c (pa_key p) = Some e
     ∧ remote e = None ∧ matches_remote_type (product_type e) ty = true)
  ∧ ∀ k e, sd_get c k = Some e → binding e ≠ Some (target p).

Lemma other_bound_free c (k r n : string) :
  (∀ k' e, sd_get c k' = Some e → binding e ≠ Some (r, n)) → other_bound c k r n = None.
Proof.
  intros Hf. unfold other_bound. destruct (find_by _ _) as [[k' e]|] eqn:E; [| done].
  apply find_by_Some in E as [Hin [_ Hb]%andb_true_iff]. simpl in Hb.
  exfalso. apply (Hf k' e); [by apply sd_get_iter | by apply bound_to_binding].
Qed.

Lemma assign_fits E auth rs c p :
  fits rs c p →
  (accepted E auth p ∧ ∃ e, sd_get c (pa_key p) = Some e
     ∧ assign_proposed E auth rs c p
       = Some (sd_insert c (pa_key p) (set_binding e (Some (target p)) false)))
  ∨ (¬ accepted E auth p ∧ assign_proposed E auth rs c p = None).
Proof.
  intros [(ty & e & Hty & He & Hr & Hm) Hf]. unfold accepted, assign_proposed.
  destruct (priv_modify _ _ _); [| right; naive_solver].
  destruct (node_schema _); [| right; naive_solver]. left. split; [done |]. exists e. split; [done |].
  simpl. rw Hty. simpl. rw He. simpl. rw Hm. simpl.
  rw (other_bound_free c _ _ _ Hf). simpl. by rw Hr.
Qed.

(** Giving one proposal its key keeps another one fitting. *)
Lemma fits_insert rs c p q e :
  fits rs c q → pa_key p ≠ pa_key q → target p ≠ target q →
  fits rs (sd_insert c (pa_key p) (set_binding e (Some (target p)) false)) q.
Proof.
  intros [(ty & e0 & Hty & He & Hr & Hm) Hf] Hk Ht. split.
  - exists ty, e0. rw sd_get_insert. case_decide; [done |]. by split_and!.
  - intros k e1. rw sd_get_insert. case_decide; [| apply Hf]. intros [= <-]. rw binding_set. congruence.
Qed.

Lemma assign_all_plan E auth rs ps c :
  NoDup (pa_key <$> ps) → NoDup ((λ p, target p) <$> ps) → (∀ p, p ∈ ps → fits rs c p) →
  (assign_all E auth rs c ps).1 = base.filter (accepted E auth) ps
  ∧ (∀ p, p ∈ ps → accepted E auth p →
       bound_in (assign_all E auth rs c ps).2 (pa_key p) (pa_remote p) (pa_node p))
  ∧ (∀ k, ¬ (k ∈ (pa_key <$> ps)) → sd_get (assign_all E auth rs c ps).2 k = sd_get c k).
Proof.
  revert c. induction ps as [|p ps IH]; intros c Hk Hn Hf; simpl.
  { split_and!; [done | intros p Hp; by apply not_elem_of_nil in Hp | done]. }
  apply NoDup_cons in Hk as [Hpk Hk]. apply NoDup_cons in Hn as [Hpn Hn].
  assert (∀ q, q ∈ ps → pa_key p ≠ pa_key q ∧ target p ≠ target q) as Hne.
  { intros q Hq. split; intros Heq; [apply Hpk; rw Heq | apply Hpn; rw Heq];
      apply list_elem_of_fmap; by exists q. }
  destruct (assign_fits E auth rs c p (Hf p (list_elem_of_here _ _))) as [(Ha & e & He & Hp)|[Ha Hp]];
    rw Hp; simpl; rw filter_cons; case_decide as Ha'; try done.
  - destruct (IH (sd_insert c (pa_key p) (set_binding e (Some (target p)) false)) Hk Hn) as (H1 & H2 & H3).
    { intros q Hq. destruct (Hne q Hq). apply fits_insert; [apply Hf; by right | done | done]. }
    split_and!; [by rw H1 | |].
    + intros q [->|Hq]%elem_of_cons Haq; [| by apply H2]. unfold bound_in. rw H3; [done |].
      rw sd_get_insert decide_True; [done |]. apply binding_set.
    + intros k Hnk. rw H3; [intros Hin; apply Hnk; by right |]. rw sd_get_insert.
      case_decide; [| done]. subst k. exfalso. apply Hnk, list_elem_of_here.
  - destruct (IH c Hk Hn) as (H1 & H2 & H3); [intros q Hq; apply Hf; by right |].
    split_and!; [done | |].
    + intros q [->|Hq]%elem_of_cons Haq; [done | by apply H2].
    + intros k Hnk. apply H3. intros Hin. apply Hnk. by right.
Qed.
End proposals.

(** * From preview to commit

    A plan of [auto_assign] that nothing outdates fits the pool, so [bulk_assign] applies all
    of it that the caller may modify. *)

Section commit.
Context `{KeyPoolLaws}.
Implicit Types (c : config_data) (e : SubscriptionKeyEntry).

Abbreviation place s := (ns_remote s, ns_node s).

Lemma NoDup_keys_eq {A} (l : list (string * A)) k a b :
  NoDup l.*1 → (k, a) ∈ l → (k, b) ∈ l → a = b.
Proof.
  induction l as [|[k' x] l IH]; intros Hnd Ha Hb; [by apply not_elem_of_nil in Ha |].
  apply NoDup_cons in Hnd as [Hk Hnd]. simpl in Hk.
  assert (∀ y, (k', y) ∈ l → False) as Hno.
  { intros y Hy. apply Hk, list_elem_of_fmap. by exists (k', y). }
  apply elem_of_cons in Ha as [Ha|Ha]; apply elem_of_cons in Hb as [Hb|Hb]; simplify_eq;
    [done | by apply Hno in Hb | by apply Hno in Ha | by apply IH].
Qed.

(** The rows of different nodes are different. *)
Lemma remote_rows_NoDup E row l :
  NoDup l.*1 → (∀ r ty n i, place (row r ty (n, i)) = (r, n)) →
  NoDup ((λ s, place s) <$> remote_rows E row l).
Proof.
  intros Hnd Hrow. induction l as [|[r ty] l IH]; [constructor |].
  apply NoDup_cons in Hnd as [Hr Hnd]. unfold remote_rows in *. simpl. rw fmap_app.
  apply NoDup_app. split_and!; [| | by apply IH].
  - destruct (live_info E r) as [infos|]; [| constructor].
    rw -list_fmap_compose. rw (list_fmap_ext _ (λ ni, (r, ni.1))).
    { intros i [n info] _. apply Hrow. }
    rw (list_fmap_compose fst (pair r)). apply NoDup_fmap_2; [apply _ | apply NoDup_fst_map_to_list].
  - intros x Hx (s & -> & Hs)%list_elem_of_fmap.
    apply (proj1 (remote_rows_spec E row l s)) in Hs as (r' & ty' & infos & n & i & Hin & _ & _ & ->).
    rw Hrow in Hx. apply Hr. apply list_elem_of_fmap in Hx as (s' & Heq & Hs').
    destruct (live_info E r); [| by apply not_elem_of_nil in Hs'].
    apply list_elem_of_fmap in Hs' as ([n' i'] & -> & _). rw Hrow in Heq. injection Heq as -> ->.
    apply list_elem_of_fmap. by exists (r, ty').
Qed.

Lemma join_row_place c r ty (n : string) (i : option NodeSubscriptionInfo) :
  place (match find_bound c r n with
         | Some (_, e) => node_row r ty n i (Some (key e)) (pending_clear e)
         | None => node_row r ty n i None false
         end) = (r, n).
Proof. by destruct (find_bound c r n) as [[? ?]|], i. Qed.

Lemma join_status_NoDup E auth rs c :
  NoDup rs.*1 → NoDup ((λ s, place s) <$> join_status E auth rs c).
Proof.
  intros Hnd. unfold join_status. rw sort_by_perm. apply remote_rows_NoDup.
  - unfold any_privs. eapply sublist_NoDup; [exact Hnd |].
    apply fmap_sublist, sublist_filter.
  - intros r ty n i. apply join_row_place.
Qed.

(** A target row: its remote is configured with the row's type and no key is bound to it. *)
Lemma join_status_target E auth rs c s :
  NoDup rs.*1 → s ∈ join_status E auth rs c → is_target s = true →
  get_remote rs (ns_remote s) = Some (ns_ty s)
  ∧ ∀ k e, sd_get c k = Some e → binding e ≠ Some (place s).
Proof.
  intros Hnd Hs Ht. unfold join_status in Hs. apply elem_of_sort_by in Hs.
  apply remote_rows_spec in Hs as (r & ty & infos & n & i & Hin & _ & _ & Hs). simpl in Hs.
  unfold any_privs in Hin. apply list_elem_of_filter in Hin as [_ Hin].
  unfold is_target in Ht. apply andb_true_iff in Ht as [Ha _]. apply bool_decide_eq_true in Ha.
  destruct (find_bound c r n) as [[k0 e0]|] eqn:Hf.
  { subst s. by destruct i. }
  assert (ns_remote s = r ∧ ns_node s = n ∧ ns_ty s = ty) as (-> & -> & ->) by (subst s; by destruct i).
  split; [| intros k e; by apply find_bound_None].
  unfold get_remote. destruct (find_by _ rs) as [[r' ty']|] eqn:Hg.
  - apply find_by_Some in Hg as [Hin' Heq]. simpl in Heq. apply String.eqb_eq in Heq as ->.
    simpl. f_equal. by apply (NoDup_keys_eq rs r).
  - apply (find_by_None _ _ _ Hg) in Hin. simpl in Hin. by rw String.eqb_refl in Hin.
Qed.

Lemma proposals_fit E auth rs c :
  NoDup rs.*1 →
  let ps := compute_proposals c (join_status E auth rs c) in
  NoDup (pa_key <$> ps) ∧ NoDup ((λ p, (pa_remote p, pa_node p)) <$> ps) ∧ ∀ p, p ∈ ps → fits rs c p.
Proof.
  intros Hnd. destruct (compute_proposals_greedy c (join_status E auth rs c)) as (ts & Hp & _ & Hg).
  simpl. split_and!; [by apply greedy_keys in Hg as [Hk _] | |].
  - eapply sublist_NoDup; [| by eapply greedy_nodes]. rw Hp.
    eapply sublist_NoDup; [by apply join_status_NoDup | apply fmap_sublist, sublist_filter].
  - intros p (n & Hn & Hpf & (e & He & Hr & _ & Hm & _))%(greedy_sound _ _ _ _ _ Hg).
    rw Hp in Hn. apply list_elem_of_filter in Hn as [Ht Hn].
    destruct (join_status_target E auth rs c n Hnd Hn Ht) as [Hty Hf].
    split; [| rw Hpf; exact Hf]. exists (ns_ty n), e. rw Hpf. by split_and!.
Qed.

Lemma collect_node_status_quiet E auth rs w c :
  quiet w → auth_id E = Some auth → remotes_config E = Ok rs → pool (disk w) = Some c →
  ∃ w', collect_node_status E w = (Ok (join_status E auth rs c), w') ∧ disk w' = disk w ∧ quiet w'.
Proof.
  intros Hq Ha Hrs Hc. destruct (config_quiet w c Hq Hc) as (w' & Hw & Hd & Hq').
  exists w'. split_and!; [| done | done]. unfold collect_node_status, get_auth, get_remotes.
  rw Ha Hrs. simpl. unfold mbind, API_bind. simpl. by rw Hw.
Qed.

Lemma auto_assign_quiet E auth rs w c :
  quiet w → auth_id E = Some auth → remotes_config E = Ok rs → pool (disk w) = Some c →
  ∃ w', auto_assign E w
        = (Ok {| assignments := compute_proposals c (join_status E auth rs c);
                 keys_digest := sha256 (pool_content (disk w));
                 node_status_digest := hash_node_status (join_status E auth rs c) |}, w')
        ∧ disk w' = disk w ∧ quiet w'.
Proof.
  intros Hq Ha Hrs Hc.
  destruct (collect_node_status_quiet E auth rs w c Hq Ha Hrs Hc) as (w1 & H1 & Hd1 & Hq1).
  rw -Hd1 in Hc. destruct (config_quiet w1 c Hq1 Hc) as (w2 & H2 & Hd2 & Hq2).
  exists w2. rw -Hd1. split_and!; [| by rw Hd2 | done].
  unfold auto_assign, mbind, API_bind. rw H1. by rw H2.
Qed.

(** The commit of a plan made from the same disk. *)
Lemma bulk_assign_quiet E auth rs w c prop :
  quiet w → auth_id E = Some auth → remotes_config E = Ok rs → pool (disk w) = Some c →
  NoDup rs.*1 → (∀ c', is_Some (write_keys c')) →
  prop = {| assignments := compute_proposals c (join_status E auth rs c);
            keys_digest := sha256 (pool_content (disk w));
            node_status_digest := hash_node_status (join_status E auth rs c) |} →
  ∃ d w' c', bulk_assign E E (λ w, w) prop w
             = (Ok (base.filter (accepted E auth) (assignments prop), d), w')
    ∧ pool (disk w') = Some c'
    ∧ (∀ p, p ∈ assignments prop → accepted E auth p →
         bound_in c' (pa_key p) (pa_remote p) (pa_node p))
    ∧ (∀ k, ¬ (k ∈ (pa_key <$> assignments prop)) → sd_get c' k = sd_get c k).
Proof.
  intros Hq Ha Hrs Hc Hnd Hwr Hprop.
  destruct (proposals_fit E auth rs c Hnd) as (Hk & Hn & Hf).
  destruct (assign_all_plan E auth rs _ c Hk Hn Hf) as (H1 & H2 & H3).
  destruct (collect_node_status_quiet E auth rs w c Hq Ha Hrs Hc) as (w1 & Hw1 & Hd1 & Hq1).
  assert (bulk_assign E E (λ w, w) prop w
          = locked (Some (keys_digest prop)) (bulk_assign_body E auth prop) w1) as Hrun.
  { unfold bulk_assign, get_auth. rw Ha. unfold of_result, mbind, API_bind. simpl. rw Hw1.
    rw Hprop /= String.eqb_refl. done. }
  rw Hrun. rw -Hd1 in Hc. subst prop. simpl in *.
  assert (detect_modification (sha256 (pool_content (disk w1))) (Some (sha256 (pool_content (disk w)))) = Ok ()) as Hdet.
  { unfold detect_modification. rw Hd1 String.eqb_refl. done. }
  set (prop := {| assignments := _ |}). set (r := assign_all _ _ _ _ _) in *.
  assert (bulk_assign_body E auth prop c (sha256 (pool_content (disk w1))) = Ok (save_unless_empty r)) as Hbody.
  { unfold bulk_assign_body, get_remotes. by rw Hrs. }
  unfold save_unless_empty in Hbody. rw H1 in Hbody. destruct (base.filter (accepted E auth) _) as [|a l] eqn:Hfl.
  - destruct (locked_quiet_none (Some (keys_digest prop)) _ w1 c _ Hq1 Hc Hdet Hbody) as (w' & Hw' & Hd' & _).
    exists None, w', c. split_and!; [done | by rw Hd' | | done].
    intros p Hp Hap. exfalso. apply (not_elem_of_nil p). rw -Hfl. by apply list_elem_of_filter.
  - destruct (Hwr r.2) as [raw Hraw].
    destruct (locked_quiet (Some (keys_digest prop)) _ w1 c _ _ _ Hq1 Hc Hdet Hbody Hraw) as (w' & Hw' & Hd' & _).
    destruct (parse_write_keys _ _ Hraw) as (c' & Hc' & Heq).
    exists (Some (sha256 raw)), w', c'. split_and!; [done | | |].
    + unfold pool, pool_content. by rw Hd' lookup_insert_eq.
    + intros p Hp Hap. unfold bound_in. rw Heq. by apply H2.
    + intros k Hnk. rw Heq. by apply H3.
Qed.
End commit.
