(* ===== verification/KeyDrain.v ===== *)
(** * What the apply-pending worker does

    Every call of the worker to a remote is for an entry that, at that moment, the pool has
    bound to that node with the matching pending flag; when nobody interferes the worker calls
    every planned node once, whichever calls fail, and releases exactly the cleared keys. *)
From S2P Require Import Prelude RustStr Remotes Disk SubscriptionTypes KeyPool KeyPlan KeyInv KeyRouter KeyAuth KeyOrphan KeyProposals.

(** The calls in a trace. *)
Definition calls (t : list effect) : list remote_call :=
  filter_map (λ ev, match ev with Call c => Some c | Invalidate _ => None end) t.

Lemma calls_app t t' : calls (t ++ t') = (calls t ++ calls t')%list.
Proof. apply filter_map_app. Qed.

(** The call for an entry of the plan. *)
Definition planned_call (p : PendingEntry) : option remote_call :=
  let '(r, n, k) := (pe_remote p, pe_node p, pe_key p) in
  match pe_op p, product_from_key k with
  | Push, Some PPve => Some (PveSet r n k)
  | Push, Some PPbs => Some (PbsSet r k)
  | Clear, Some PPve => Some (PveDelete r n)
  | Clear, Some PPbs => Some (PbsDelete r)
  | _, _ => None
  end.

(** The call is made when the remote is still configured. *)
Definition planned (rs : list (string * RemoteType)) (p : PendingEntry) : option remote_call :=
  match get_remote rs (pe_remote p) with Some _ => planned_call p | None => None end.

Definition is_clear (op : PendingOp) : bool := match op with Push => false | Clear => true end.

(** An entry succeeds when its call does; a clear on a remote that is gone needs none. *)
Definition succeeds (E : env) (rs : list (string * RemoteType)) (p : PendingEntry) : bool :=
  match planned rs p with Some c => is_ok (perform E c) | None => is_clear (pe_op p) end.

Lemma push_run E r k n w :
  push_key_to_remote E r k n w
  = match product_from_key k with
    | Some PPve => (Ok (perform E (PveSet r n k)), [Call (PveSet r n k)], w)
    | Some PPbs => (Ok (perform E (PbsSet r k)), [Call (PbsSet r k)], w)
    | _ => (Ok (match product_from_key k with
                | None => Err ("unrecognised key format: " ++ k)
                | Some p => Err ("PDM cannot push '" ++ as_section_type p ++ "' keys: no remote support yet")
                end), [], w)
    end%string.
Proof. unfold push_key_to_remote. by destruct (product_from_key k) as [[]|]. Qed.

Lemma delete_run E r p n w :
  delete_subscription_on_remote E r p n w
  = match p with
    | PPve => (Ok (perform E (PveDelete r n)), [Call (PveDelete r n)], w)
    | PPbs => (Ok (perform E (PbsDelete r)), [Call (PbsDelete r)], w)
    | _ => (Ok (Err ("PDM cannot clear '" ++ as_section_type p ++ "' keys: no remote support yet")), [], w)
    end%string.
Proof. by destruct p. Qed.

Lemma worker_bind_ok {A B} (m : Worker A) (f : A → Worker B) w a t1 w1 r t2 w2 :
  m w = (Ok a, t1, w1) → f a w1 = (r, t2, w2) → (m ≫= f) w = (r, (t1 ++ t2)%list, w2).
Proof. intros Hm Hf. unfold mbind, Worker_bind. by rw Hm Hf. Qed.

(** Pushing an entry. *)
Lemma apply_push_run E rs p w :
  pe_op p = Push →
  ∃ o t, apply_push E rs p w = (Ok o, t, w) ∧ calls t = option_list (planned rs p)
    ∧ if succeeds E rs p then o = Succeeded else ∃ what, o = Failed what.
Proof.
  intros Hop. unfold apply_push, succeeds, planned, planned_call. rw Hop. simpl.
  destruct (get_remote rs (pe_remote p)) as [ty|]; [| by eexists _, _; split_and!; eauto].
  unfold mbind, Worker_bind. rw push_run.
  destruct (product_from_key (pe_key p)) as [[]|];
    try (destruct (perform E _) as [[]|err]);
    (eexists _, _; split_and!; [reflexivity | reflexivity | simpl; eauto]).
Qed.

Section drain.
Context `{KeyPoolLaws}.
Implicit Types (c : config_data) (e : SubscriptionKeyEntry).

(** The call of a clear, before the transaction. *)
Lemma clear_call_run E rs p ty w :
  pe_op p = Clear → product_from_key (pe_key p) = Some ty →
  ∃ res t, (match get_remote rs (pe_remote p) with
            | Some _ => delete_subscription_on_remote E (pe_remote p) ty (pe_node p)
            | None => mret (Ok ())
            end : Worker (result string ())) w = (Ok res, t, w)
    ∧ calls t = option_list (planned rs p)
    ∧ (ty = PPve ∨ ty = PPbs → is_ok res = succeeds E rs p).
Proof.
  intros Hop Hp. unfold succeeds, planned, planned_call. rw Hop Hp.
  destruct (get_remote rs (pe_remote p)) as [rt|]; [| by eexists _, _; split_and!].
  rw delete_run. destruct ty; eexists _, _; split_and!; naive_solver.
Qed.

Lemma apply_clear_calls E between rs p w r t w' :
  pe_op p = Clear → apply_clear E between rs p w = (r, t, w') →
  calls t = [] ∨ calls t = option_list (planned rs p).
Proof.
  intros Hop. unfold apply_clear. destruct (product_from_key (pe_key p)) as [ty|] eqn:Hp;
    [| intros [= _ <- _]; by left].
  destruct (clear_call_run E rs p ty w Hop Hp) as (res & t1 & Hc & Ht & _).
  intros [(x & t2 & w1 & t3 & Hx & Hr & ->)|(er & Her & _)]%worker_bind_inv; [| by rw Hc in Her].
  rw Hc in Hx. injection Hx as <- <- <-. right. rw calls_app Ht.
  assert (calls t3 = []) as ->; [| by rw app_nil_r].
  destruct res as [[]|err]; [| by injection Hr as _ <- _].
  apply worker_bind_inv in Hr as [(? & ? & ? & ? & [_ ->]%run_api_inv & Hr & ->)|(? & [_ ->]%run_api_inv & _)];
    [| done].
  apply worker_bind_inv in Hr as [(y & ? & ? & ? & (z & _ & _ & ->)%try_api_inv & Hr & ->)|(? & (z & _ & _ & ->)%try_api_inv & _)];
    [| done].
  destruct y; by injection Hr as _ <- _.
Qed.

(** ** Every call is justified *)
Lemma apply_entry_calls E before between rs p w r t w' cl :
  apply_entry E (λ p _, before p) between rs p w = (r, t, w') → cl ∈ calls t →
  planned rs p = Some cl
  ∧ ∃ c e, pool (disk (before p)) = Some c ∧ sd_get c (pe_key p) = Some e
      ∧ binding e = Some (pe_remote p, pe_node p) ∧ pending_clear e = is_clear (pe_op p).
Proof.
  unfold apply_entry. intros Hr Hcl.
  apply worker_bind_inv in Hr as [(u & t1 & w1 & t2 & [Hi ->]%run_api_inv & Hr & ->)|(er & [_ ->]%run_api_inv & _)];
    [| by apply not_elem_of_nil in Hcl].
  injection Hi as <- <-. simpl in Hcl.
  apply worker_bind_inv in Hr as [(cd & t1 & w2 & t3 & [[_ Hcd]%config_spec ->]%run_api_inv & Hr & ->)|(er & [_ ->]%run_api_inv & _)];
    [| by apply not_elem_of_nil in Hcl].
  destruct (Hcd cd eq_refl) as [Hc _]. simpl in Hcl.
  unfold pool_assignment_still_valid in Hr. destruct (sd_get cd.1 (pe_key p)) as [e|] eqn:He; simpl in Hr;
    [| injection Hr as _ <- _; by apply not_elem_of_nil in Hcl].
  destruct (bound_to e _ _) eqn:Hb; simpl in Hr; [| injection Hr as _ <- _; by apply not_elem_of_nil in Hcl].
  apply bound_to_binding in Hb.
  destruct (op_consistent (pe_op p) (pending_clear e)) eqn:Hop; simpl in Hr;
    [| injection Hr as _ <- _; by apply not_elem_of_nil in Hcl].
  assert (pending_clear e = is_clear (pe_op p)) as Hpc by (destruct (pe_op p), (pending_clear e); done).
  split; [| by exists cd.1, e].
  destruct (pe_op p) eqn:Ho.
  - destruct (apply_push_run E rs p w2 Ho) as (o & t & Hrun & Ht & _). rw Hrun in Hr. injection Hr as _ <- _.
    rw Ht in Hcl. destruct (planned rs p); set_solver.
  - apply apply_clear_calls in Hr; [| done].
    destruct Hr as [Ht|Ht]; rw Ht in Hcl; [by apply not_elem_of_nil in Hcl | destruct (planned rs p); set_solver].
Qed.

Lemma apply_entries_calls E before between rs ps ok fs w r t w' cl :
  apply_entries E (λ p _, before p) between rs ps ok fs w = (r, t, w') → cl ∈ calls t →
  ∃ p, p ∈ ps ∧ planned rs p = Some cl
  ∧ ∃ c e, pool (disk (before p)) = Some c ∧ sd_get c (pe_key p) = Some e
      ∧ binding e = Some (pe_remote p, pe_node p) ∧ pending_clear e = is_clear (pe_op p).
Proof.
  revert ok fs w r t w'. induction ps as [|p ps IH]; intros ok fs w r t w' Hr Hcl; simpl in Hr.
  { injection Hr as _ <- _. by apply not_elem_of_nil in Hcl. }
  apply worker_bind_inv in Hr as [(o & t1 & w1 & t2 & Ho & Hr & ->)|(er & He & _)].
  - rw calls_app in Hcl. apply elem_of_app in Hcl as [Hcl|Hcl].
    + exists p. split; [apply list_elem_of_here | by eapply apply_entry_calls].
    + destruct o; apply IH in Hr as (q & Hq & ?); try done; exists q; (split; [by right | done]).
  - exists p. split; [apply list_elem_of_here | by eapply apply_entry_calls].
Qed.

(** ** Nothing is left out *)

(** The pool after an entry of the plan. *)
Definition after (E : env) (rs : list (string * RemoteType)) c (p : PendingEntry) : config_data :=
  if is_clear (pe_op p) && succeeds E rs p then
    match sd_get c (pe_key p) with
    | Some e => sd_insert c (pe_key p) (set_binding e None false)
    | None => c
    end
  else c.

(** The entry of the pool a plan was made from. *)
Definition planned_from c (p : PendingEntry) : Prop :=
  ∃ e, sd_get c (pe_key p) = Some e ∧ binding e = Some (pe_remote p, pe_node p)
    ∧ pending_clear e = is_clear (pe_op p).

Definition expected_outcome (E : env) rs (p : PendingEntry) (o : outcome) : Prop :=
  if succeeds E rs p then o = Succeeded else ∃ what, o = Failed what.

Abbreviation alone := (λ (_ : PendingEntry) (w : world), w).

Lemma drop_binding_quiet w c e p :
  quiet w → pool (disk w) = Some c → (∀ c', is_Some (write_keys c')) →
  sd_get c (pe_key p) = Some e → binding e = Some (pe_remote p, pe_node p) →
  ∃ d w' c', locked None (drop_binding_body p) w = (Ok ((), d), w') ∧ quiet w'
    ∧ pool (disk w') = Some c' ∧ pool_equiv c' (sd_insert c (pe_key p) (set_binding e None false)).
Proof.
  intros Hq Hc Hwr He Hb. set (c1 := sd_insert c (pe_key p) (set_binding e None false)).
  assert (drop_binding_body p c (sha256 (pool_content (disk w))) = Ok ((), Some c1)) as Hbody.
  { unfold drop_binding_body. rw He. apply bound_to_binding in Hb. by rw Hb. }
  destruct (Hwr c1) as [raw Hraw].
  destruct (locked_quiet None (drop_binding_body p) w c _ _ _ Hq Hc eq_refl Hbody Hraw) as (w' & Hw' & Hd' & Hq').
  destruct (parse_write_keys _ _ Hraw) as (c' & Hc' & Heq).
  exists (Some (sha256 raw)), w', c'. split_and!; [done | done | | done].
  unfold pool, pool_content. by rw Hd' lookup_insert_eq.
Qed.

Lemma apply_clear_quiet E rs p w c e :
  quiet w → pool (disk w) = Some c → (∀ c', is_Some (write_keys c')) →
  sd_get c (pe_key p) = Some e → binding e = Some (pe_remote p, pe_node p) →
  pe_op p = Clear → subscription_key_schema (pe_key p) = true →
  ∃ o t w' c', apply_clear E alone rs p w = (Ok o, t, w') ∧ quiet w' ∧ pool (disk w') = Some c'
    ∧ pool_equiv c' (after E rs c p) ∧ calls t = option_list (planned rs p)
    ∧ expected_outcome E rs p o.
Proof.
  intros Hq Hc Hwr He Hb Hop Hk%key_schema_product. unfold apply_clear, after, expected_outcome.
  assert (∃ ty, product_from_key (pe_key p) = Some ty ∧ (ty = PPve ∨ ty = PPbs)) as (ty & Hty & Hty')
    by naive_solver.
  rw Hty Hop He. destruct (clear_call_run E rs p ty w Hop Hty) as (res & t1 & Hrun & Ht & Hs).
  specialize (Hs Hty'). rw -Hs. destruct res as [[]|err]; simpl.
  - destruct (drop_binding_quiet w c e p Hq Hc Hwr He Hb) as (d & w' & c' & Hl & Hq' & Hc' & Heq).
    exists Succeeded, (t1 ++ [Invalidate (pe_remote p)])%list, w', c'. split_and!; try done.
    + eapply worker_bind_ok; [exact Hrun |]. simpl. unfold mbind, Worker_bind, run_api, try_api, interfere.
      rw Hl. done.
    + rw calls_app Ht. apply app_nil_r.
  - exists (Failed ("clear on " ++ at_node p ++ ": " ++ err)), t1, w, c. split_and!; try done; [| by eauto].
    rw -(app_nil_r t1). by eapply worker_bind_ok; [exact Hrun |].
Qed.

Lemma apply_entry_quiet E rs p w c :
  quiet w → pool (disk w) = Some c → pool_wf c → (∀ c', is_Some (write_keys c')) →
  planned_from c p →
  ∃ o t w' c', apply_entry E alone alone rs p w = (Ok o, t, w') ∧ quiet w' ∧ pool (disk w') = Some c'
    ∧ pool_equiv c' (after E rs c p) ∧ calls t = option_list (planned rs p)
    ∧ expected_outcome E rs p o.
Proof.
  intros Hq Hc Hwf Hwr (e & He & Hb & Hpc).
  destruct (config_quiet w c Hq Hc) as (w1 & Hw1 & Hd1 & Hq1).
  assert (apply_entry E alone alone rs p w
          = (match pe_op p with Push => apply_push E rs p | Clear => apply_clear E alone rs p end) w1) as Hrun.
  { unfold apply_entry, mbind, Worker_bind, run_api, interfere. simpl. rw Hw1. simpl.
    unfold pool_assignment_still_valid. rw He. apply bound_to_binding in Hb. rw Hb. simpl. rw Hpc.
    destruct (pe_op p); simpl;
      [by destruct (apply_push E rs p w1) as [[? ?] ?]
      | by destruct (apply_clear E alone rs p w1) as [[? ?] ?]]. }
  rw Hrun. rw -Hd1 in Hc. destruct (pe_op p) eqn:Hop.
  - destruct (apply_push_run E rs p w1 Hop) as (o & t & Ho & Ht & Hs).
    exists o, t, w1, c. split_and!; try done. unfold after. by rw Hop.
  - apply (apply_clear_quiet E rs p w1 c e); try done. by apply (wf_schema _ _ (wf_entry _ Hwf _ _ He)).
Qed.

Lemma after_wf E rs c p : pool_wf c → pool_wf (after E rs c p).
Proof.
  intros Hwf. unfold after. destruct (_ && _); [| done].
  destruct (sd_get c (pe_key p)) eqn:He; [by apply pool_wf_unbind | done].
Qed.

Lemma after_other E rs c p k : k ≠ pe_key p → sd_get (after E rs c p) k = sd_get c k.
Proof.
  intros Hk. unfold after. destruct (_ && _); [| done].
  destruct (sd_get c (pe_key p)) eqn:He; [| done]. rw sd_get_insert. by case_decide.
Qed.

Global Instance after_proper E rs : Proper (pool_equiv ==> eq ==> pool_equiv) (after E rs).
Proof.
  intros c c' Hc p _ <-. unfold after. destruct (_ && _); [| done]. rw (Hc (pe_key p)).
  destruct (sd_get c' (pe_key p)); [| done]. by apply sd_insert_proper.
Qed.

Abbreviation drained E rs := (foldl (after E rs)).

Lemma drained_proper E rs ps c c' : pool_equiv c c' → pool_equiv (drained E rs c ps) (drained E rs c' ps).
Proof. revert c c'. induction ps as [|p ps IH]; intros c c' Hc; [done |]. by apply IH, after_proper. Qed.

Lemma drained_other E rs ps c k : ¬ (k ∈ (pe_key <$> ps)) → sd_get (drained E rs c ps) k = sd_get c k.
Proof.
  revert c. induction ps as [|p ps IH]; intros c Hk; [done |]. simpl in *. rw IH; [set_solver |].
  apply after_other. set_solver.
Qed.

Lemma drained_get E rs ps c p :
  NoDup (pe_key <$> ps) → p ∈ ps →
  sd_get (drained E rs c ps) (pe_key p) = sd_get (after E rs c p) (pe_key p).
Proof.
  revert c. induction ps as [|q ps IH]; intros c Hnd Hp; [by apply not_elem_of_nil in Hp |].
  apply NoDup_cons in Hnd as [Hq Hnd]. simpl. apply elem_of_cons in Hp as [->|Hp].
  - by apply drained_other.
  - rw (IH _ Hnd Hp). assert (pe_key p ≠ pe_key q) as Hne.
    { intros Heq. apply Hq. rw -Heq. apply list_elem_of_fmap. by exists p. }
    unfold after at 1 3. destruct (is_clear (pe_op p) && _); [| by apply after_other].
    rw (after_other E rs c q (pe_key p) Hne).
    destruct (sd_get c (pe_key p)); [by rw !sd_get_insert !decide_True | by apply after_other].
Qed.

Lemma planned_from_after E rs c p q :
  planned_from c p → pe_key q ≠ pe_key p → planned_from (after E rs c q) p.
Proof. intros (e & He & Hp) Hne. exists e. by rw after_other. Qed.

Lemma planned_from_equiv c c' p : pool_equiv c c' → planned_from c p → planned_from c' p.
Proof. intros Hc (e & He & Hp). exists e. by rw -(Hc (pe_key p)). Qed.

Definition count_ok (E : env) rs (ps : list PendingEntry) : nat :=
  length (base.filter (λ p, succeeds E rs p = true) ps).

Lemma apply_entries_quiet E rs ps ok fs w c :
  quiet w → pool (disk w) = Some c → pool_wf c → (∀ c', is_Some (write_keys c')) →
  NoDup (pe_key <$> ps) → (∀ p, p ∈ ps → planned_from c p) →
  ∃ fs' t w' c',
    apply_entries E alone alone rs ps ok fs w
    = (Ok ((ok + Z.of_nat (count_ok E rs ps))%Z, (fs ++ fs')%list), t, w')
    ∧ quiet w' ∧ pool (disk w') = Some c' ∧ pool_equiv c' (drained E rs c ps)
    ∧ calls t = filter_map (planned rs) ps
    ∧ (length fs' + count_ok E rs ps)%nat = length ps.
Proof.
  revert ok fs w c. induction ps as [|p ps IH]; intros ok fs w c Hq Hc Hwf Hwr Hnd Hpl.
  { exists [], [], w, c. rw app_nil_r Z.add_0_r. by split_and!. }
  apply NoDup_cons in Hnd as [Hp Hnd].
  destruct (apply_entry_quiet E rs p w c Hq Hc Hwf Hwr (Hpl p (list_elem_of_here _ _)))
    as (o & t1 & w1 & c1 & Hrun & Hq1 & Hc1 & Heq1 & Ht1 & Ho).
  assert (pool_wf c1) as Hwf1 by (apply (pool_wf_proper _ _ Heq1); by apply after_wf).
  assert (∀ q, q ∈ ps → planned_from c1 q) as Hpl1.
  { intros q Hqp. apply (planned_from_equiv (after E rs c p)); [by symmetry |].
    apply planned_from_after; [apply Hpl; by right |]. intros Heq. apply Hp. rw Heq.
    apply list_elem_of_fmap. by exists q. }
  unfold expected_outcome in Ho. simpl. unfold count_ok. rw filter_cons.
  assert (calls t1 ++ filter_map (planned rs) ps
          = match planned rs p with Some y => y :: filter_map (planned rs) ps | None => filter_map (planned rs) ps end)%list
    as Hcalls by (rw Ht1; by destruct (planned rs p)).
  assert (∀ c', pool_equiv c' (drained E rs c1 ps) → pool_equiv c' (drained E rs (after E rs c p) ps)) as Hdr.
  { intros c' Hc'. transitivity (drained E rs c1 ps); [done | by apply drained_proper]. }
  destruct (succeeds E rs p) eqn:Hs.
  - subst o. destruct (IH (ok + 1)%Z fs w1 c1 Hq1 Hc1 Hwf1 Hwr Hnd Hpl1)
      as (fs' & t & w' & c' & Hr & Hq' & Hc' & Heq & Ht & Hlen).
    exists fs', (t1 ++ t)%list, w', c'. case_decide; [| done]. split_and!; try done.
    + eapply worker_bind_ok; [exact Hrun |]. simpl. rw Hr. unfold count_ok. simpl.
      do 3 f_equal. apply pair_equal_spec. split; [lia | done].
    + by apply Hdr.
    + by rw calls_app Ht.
    + unfold count_ok in Hlen. simpl. lia.
  - destruct Ho as [what ->].
    destruct (IH ok (fs ++ [what])%list w1 c1 Hq1 Hc1 Hwf1 Hwr Hnd Hpl1)
      as (fs' & t & w' & c' & Hr & Hq' & Hc' & Heq & Ht & Hlen).
    exists (what :: fs'), (t1 ++ t)%list, w', c'. case_decide; [done |]. split_and!; try done.
    + eapply worker_bind_ok; [exact Hrun |]. simpl. by rw Hr -app_assoc.
    + by apply Hdr.
    + by rw calls_app Ht.
    + unfold count_ok in Hlen. simpl. lia.
Qed.

(** ** The plan *)
Definition plan (E : env) (auth : string) (ns : list RemoteNodeStatus) c : list PendingEntry :=
  filter_map (λ p, pending_of E auth ns p.2) (sd_iter c).

Lemma pending_of_planned E auth ns e p :
  pending_of E auth ns e = Some p → pending_clear e = is_clear (pe_op p).
Proof.
  unfold pending_of. intros (r & Hr & (n & Hn & Hp)%bind_Some)%bind_Some.
  destruct (priv_modify E auth r); [| done]. simpl in Hp. cases.
Qed.

Lemma plan_spec E auth ns c :
  pool_wf c → NoDup (pe_key <$> plan E auth ns c) ∧ ∀ p, p ∈ plan E auth ns c → planned_from c p.
Proof.
  intros Hwf. unfold plan.
  assert (∀ k e p, (k, e) ∈ sd_iter c → pending_of E auth ns e = Some p →
                   pe_key p = k ∧ planned_from c p) as Hone.
  { intros k e p Hin Hp. apply sd_get_iter in Hin.
    pose proof (wf_key _ _ (wf_entry _ Hwf _ _ Hin)) as Hk.
    pose proof (pending_of_remote _ _ _ _ _ Hp) as (_ & Hpk & Hb). split; [congruence |].
    exists e. rw Hpk Hk. split_and!; [done | done | by eapply pending_of_planned]. }
  split; [| intros p ([k e] & Hin & Hp)%elem_of_filter_map; by apply (Hone k e p)].
  pose proof (sd_iter_NoDup c) as Hnd. revert Hnd Hone. generalize (sd_iter c) as l.
  induction l as [|[k e] l IH]; intros Hnd Hone; simpl; [constructor |].
  apply NoDup_cons in Hnd as [Hk Hnd].
  assert (NoDup (pe_key <$> filter_map (λ p, pending_of E auth ns p.2) l)) as Hrest.
  { apply IH; [done |]. intros k' e' p Hin. apply Hone. by right. }
  destruct (pending_of _ _ _ e) as [p|] eqn:Hp; [| done]. simpl. constructor; [| done].
  intros (q & Hq & ([k' e'] & Hin & Hq')%elem_of_filter_map)%list_elem_of_fmap.
  destruct (Hone k e p (list_elem_of_here _ _) Hp) as [Hpk _].
  destruct (Hone k' e' q (list_elem_of_further _ _ _ Hin) Hq') as [Hqk _].
  apply Hk, list_elem_of_fmap. exists (k', e'). split; [simpl; congruence | done].
Qed.

(** The whole run, alone and without faults. *)
Lemma run_apply_pending_quiet E auth rs w c :
  quiet w → pool (disk w) = Some c → pool_wf c → (∀ c', is_Some (write_keys c')) →
  remotes_config E = Ok rs →
  ∃ r t w' c', run_apply_pending E alone alone auth w = (r, t, w')
    ∧ pool (disk w') = Some c' ∧ pool_equiv c' (drained E rs c (plan E auth (collect_status_uncached E rs) c))
    ∧ calls t = filter_map (planned rs) (plan E auth (collect_status_uncached E rs) c)
    ∧ let total := length (plan E auth (collect_status_uncached E rs) c) in let good := count_ok E rs (plan E auth (collect_status_uncached E rs) c) in
      if decide (good = total) then r = Ok ()
      else ∃ shown, r = Err (ApplyFailed (Z.of_nat good) (Z.of_nat total) (Z.of_nat (total - good))
                               shown (Z.of_nat (total - good - 5)))
           ∧ length shown = min 5 (total - good).
Proof.
  intros Hq Hc Hwf Hwr Hrs. destruct (config_quiet w c Hq Hc) as (w1 & Hw1 & Hd1 & Hq1).
  rw -Hd1 in Hc. destruct (plan_spec E auth (collect_status_uncached E rs) c Hwf) as [Hnd Hpl].
  destruct (apply_entries_quiet E rs (plan E auth (collect_status_uncached E rs) c) 0%Z [] w1 c Hq1 Hc Hwf Hwr Hnd Hpl)
    as (fs & t & w' & c' & Hr & Hq' & Hc' & Heq & Ht & Hlen).
  set (ps := plan E auth (collect_status_uncached E rs) c) in *.
  assert (run_apply_pending E alone alone auth w
    = (if bool_decide (length ps = 0) then mret () else
        r ← apply_entries E alone alone rs ps 0%Z [];
        if bool_decide (length r.2 = 0) then mret ()
        else run_api (throw (ApplyFailed r.1 (Z.of_nat (length ps)) (Z.of_nat (length r.2))
                               (take 5 r.2) (Z.of_nat (length r.2 - 5))))) w1) as Hrun.
  { unfold run_apply_pending, get_remotes. rw Hrs. unfold compute_pending.
    unfold mbind, Worker_bind, API_bind, run_api. simpl. rw Hw1. simpl. fold (plan E auth (collect_status_uncached E rs) c). fold ps.
    case_bool_decide; [done |]. by destruct (apply_entries _ _ _ _ _ _ _ w1) as [[[x|x] ?] ?]; [case_bool_decide |]. }
  rw Hrun. case_bool_decide as Hz.
  - apply nil_length_inv in Hz. rw Hz. exists (Ok ()), [], w1, c. by split_and!.
  - unfold mbind, Worker_bind. rw Hr. simpl.
    case_bool_decide as Hf; eexists _, _, w', c'; (split_and!; [reflexivity | done | done | by rw app_nil_r |]).
    + case_decide; [done | lia].
    + case_decide; [lia |]. exists (take 5 fs). rw length_take.
      assert (length fs = length ps - count_ok E rs ps) as Hfs by lia. rw Hfs.
      by split.
Qed.
End drain.
