(* ===== verification/KeyFacts.v ===== *)
(** * Single handlers of the key pool

    Adding keys, listing them, queueing and reverting a clear, adopting a key and discarding
    pending changes: lemmas for their behaviour when nothing fails. *)
From S2P Require Import Prelude RustStr Remotes Disk SubscriptionTypes KeyPool KeyPlan KeyInv KeyRouter KeyAuth KeyOrphan KeyProposals KeyDrain.

#[local] Open Scope string_scope.

(** ** Valid keys *)
Lemma valid_key_level k :
  subscription_key_schema k = true → ∃ lv, level_from_key (Some k) = Some lv ∧ (2 ≤ level_rank lv)%Z.
Proof.
  intros Hk. pose proof Hk as (ds & l & rest & Hl & Hds & Hs)%key_schema_split.
  destruct k as [|a k]; [done |]. unfold level_from_key.
  assert (∃ p, split_once "-" (String a k) = Some (p ++ String l "", rest)) as [p Hp].
  { destruct Hs as [[Hs _]|Hs]; rw Hs; [exists ("pve" ++ ds); by rw string_app_assoc | by exists "pbs"]. }
  rw Hp last_char_snoc. apply level_char_cases in Hl. rw !elem_of_cons elem_of_nil in Hl.
  destruct Hl as [-> | [-> | [-> | [-> | []]]]]; simpl; eexists; (split; [reflexivity | done]).
Qed.

Lemma valid_key_sockets k :
  subscription_key_schema k = true → product_from_key k = Some PPve →
  ∃ s, socket_count_from_key k = Some s ∧ (0 ≤ s ≤ 999)%Z.
Proof.
  intros (ds & l & rest & Hl & Hds & [[Hs Hlen]|Hs])%key_schema_split;
    unfold product_from_key, socket_count_from_key; rw Hs; [| done]. intros _.
  rw strip_prefix_app take_while_digits //.
  pose proof (parse_u32_digits ds Hds Hlen) as Hsm. unfold small_u32 in Hsm.
  destruct (parse_u32 ds) as [z|]; [| done]. exists z. split; [done |]. lia.
Qed.

Section facts.
Context `{KeyPoolLaws}.
Implicit Types (c : config_data) (e : SubscriptionKeyEntry).

(** ** Listing *)
Lemma with_levels_ok l :
  Forall (λ e, subscription_key_schema (key e) = true) l →
  ∃ l', with_levels l = Ok l' ∧ key <$> l' = key <$> l ∧ binding <$> l' = binding <$> l
        ∧ Forall (λ e, (2 ≤ level_rank (level e))%Z) l'.
Proof.
  induction 1 as [|e l He Hl (l' & Hl' & Hk & Hb & Hlv)]; [by exists [] |].
  destruct (valid_key_level (key e) He) as (lv & Hv & Hr).
  exists (set_level e lv :: l'). rw !fmap_cons Hk Hb. split_and!; [| done | done | by constructor].
  simpl. unfold derive_level. rw Hv. simpl. by rw Hl'.
Qed.

Lemma list_keys_quiet E auth w c :
  quiet w → auth_id E = Some auth → pool (disk w) = Some c → pool_wf c →
  ∃ l w', list_keys E w = (Ok (l, sha256 (pool_content (disk w))), w') ∧ disk w' = disk w
    ∧ key <$> l = key <$> base.filter (λ e, visible E auth e = true) (snd <$> sd_iter c)
    ∧ Forall (λ e, (2 ≤ level_rank (level e))%Z) l.
Proof.
  intros Hq Ha Hc Hwf. destruct (config_quiet w c Hq Hc) as (w1 & Hw1 & Hd1 & Hq1).
  set (es := base.filter (λ e, visible E auth e = true) (snd <$> sd_iter c)).
  destruct (with_levels_ok es) as (l & Hl & Hk & _ & Hlv).
  { apply Forall_forall. intros e [_ He]%list_elem_of_filter.
    apply list_elem_of_fmap in He as ([k e'] & -> & Hin). apply sd_get_iter in Hin.
    pose proof (wf_entry _ Hwf _ _ Hin) as He. simpl. rw (wf_key _ _ He). by apply (wf_schema _ _ He). }
  exists l, w1. split_and!; [| done | done | done].
  unfold list_keys, get_auth. rw Ha. unfold mbind, API_bind, of_result. simpl. rw Hw1. simpl.
  fold es. by rw Hl.
Qed.

(** ** Adding keys *)
Record collected (seen keys : list string) (es : list SubscriptionKeyEntry) (dup : Z) : Prop := {
  col_count : (Z.of_nat (length es) + dup)%Z = Z.of_nat (length keys);
  col_fresh : NoDup (key <$> es) ∧ ∀ k, k ∈ (key <$> es) ↔ k ∈ keys ∧ ¬ (k ∈ seen);
  col_new : Forall (λ e, binding e = None ∧ source e = Manual ∧ pending_clear e = false
                         ∧ product_from_key (key e) = Some (product_type e)) es;
}.

Lemma collect_keys_ok keys seen :
  Forall (λ k, subscription_key_schema k = true) keys →
  ∃ es dup, collect_keys seen keys = Ok (es, dup) ∧ collected seen keys es dup.
Proof.
  intros Hks. revert seen. induction Hks as [|k keys Hk Hks IH]; intros seen.
  { exists [], 0%Z. split; [done |]. constructor; [done | | done]. split; [constructor | intros k; simpl; rw elem_of_nil; tauto]. }
  simpl. case_bool_decide as Hin.
  - destruct (IH seen) as (es & dup & Hc & [Hn [Hnd Hf] Hnew]). rw Hc.
    exists es, (dup + 1)%Z. split; [done |]. constructor; [simpl; lia | | done].
    split; [done |]. intros k'. rw Hf elem_of_cons. clear -Hin. naive_solver.
  - destruct (IH (k :: seen)) as (es & dup & Hc & [Hn [Hnd Hf] Hnew]).
    destruct (valid_key_level k Hk) as (lv & Hlv & _).
    assert (∃ p, product_from_key k = Some p) as [p Hp].
    { destruct (key_schema_product k Hk); eauto. }
    rw Hp. simpl. unfold derive_level. rw Hlv. simpl. rw Hc. simpl.
    eexists _, _. split; [reflexivity |]. constructor; [simpl; lia | | by constructor].
    simpl. split; [constructor; [rw Hf elem_of_cons; tauto | done] |].
    intros k'. rw !elem_of_cons Hf elem_of_cons. clear -Hin.
    destruct (decide (k' = k)) as [->|Hne]; tauto.
Qed.

Lemma add_entries_ok es c :
  NoDup (key <$> es) → (∀ k, k ∈ (key <$> es) → sd_get c k = None) →
  ∃ c', add_entries c es = Ok c'
    ∧ (∀ e, e ∈ es → sd_get c' (key e) = Some e)
    ∧ (∀ k, ¬ (k ∈ (key <$> es)) → sd_get c' k = sd_get c k).
Proof.
  revert c. induction es as [|e es IH]; intros c Hnd Hf; simpl in *.
  { exists c. split_and!; [done | intros e He; by apply not_elem_of_nil in He | done]. }
  apply NoDup_cons in Hnd as [He Hnd]. rw (Hf (key e)); [by left |].
  destruct (IH (sd_insert c (key e) e) Hnd) as (c' & Hc' & H1 & H2).
  { intros k Hk. rw sd_get_insert. case_decide; [by subst | apply Hf; by right]. }
  exists c'. split_and!; [done | |].
  - intros e' [->|Hin]%elem_of_cons; [| by apply H1].
    rw H2; [done |]. rw sd_get_insert. by case_decide.
  - intros k Hk. rw elem_of_cons in Hk. rw H2; [tauto |]. rw sd_get_insert.
    case_decide; [subst; tauto | done].
Qed.

Lemma add_entries_err es c k :
  NoDup (key <$> es) → k ∈ (key <$> es) → is_Some (sd_get c k) →
  ∃ msg, add_entries c es = Err (Conflict msg).
Proof.
  revert c. induction es as [|e es IH]; intros c Hnd Hk Hg; simpl in *; [by apply not_elem_of_nil in Hk |].
  apply NoDup_cons in Hnd as [He Hnd]. destruct (sd_get c (key e)) as [e0|] eqn:Hg0; [eauto |].
  apply elem_of_cons in Hk as [->|Hk]; [by rw Hg0 in Hg; destruct Hg |].
  apply IH; [done | done |]. rw sd_get_insert. by case_decide.
Qed.

Lemma locked_quiet_err {A} expected
    (body : config_data → string → result api_error (A * option config_data)) w c er :
  quiet w → pool (disk w) = Some c →
  detect_modification (sha256 (pool_content (disk w))) expected = Ok () →
  body c (sha256 (pool_content (disk w))) = Err er →
  ∃ w', locked expected body w = (Err er, w') ∧ disk w' = disk w ∧ quiet w'.
Proof.
  intros Hq Hc Hm Hb. destruct (config_quiet w c Hq Hc) as (w1 & Hr1 & Hd1 & Hq1).
  exists w1. rw Hd1. split_and!; [| done | done].
  unfold locked. unfold mbind at 1, API_bind at 1. rw Hr1. simpl. rw Hm. simpl.
  unfold mbind, API_bind. simpl. by rw Hb.
Qed.

(** A committed transaction, read back. *)
Lemma locked_quiet_pool {A} expected
    (body : config_data → string → result api_error (A * option config_data)) w c a c1 :
  quiet w → pool (disk w) = Some c → (∀ c', is_Some (write_keys c')) →
  detect_modification (sha256 (pool_content (disk w))) expected = Ok () →
  body c (sha256 (pool_content (disk w))) = Ok (a, Some c1) →
  ∃ d w' c', locked expected body w = (Ok (a, Some d), w') ∧ quiet w'
    ∧ pool (disk w') = Some c' ∧ pool_equiv c' c1 ∧ d = sha256 (pool_content (disk w')).
Proof.
  intros Hq Hc Hwr Hm Hb. destruct (Hwr c1) as [raw Hraw].
  destruct (locked_quiet expected body w c a c1 raw Hq Hc Hm Hb Hraw) as (w' & Hw' & Hd' & Hq').
  destruct (parse_write_keys _ _ Hraw) as (c' & Hc' & Heq).
  exists (sha256 raw), w', c'. unfold pool, pool_content. rw Hd' lookup_insert_eq. by split_and!.
Qed.

(** ** Queueing and reverting *)
Lemma find_bound_unique c k e r n :
  pool_wf c → sd_get c k = Some e → binding e = Some (r, n) → find_bound c r n = Some (k, e).
Proof.
  intros Hwf Hg Hb. destruct (find_bound c r n) as [[k' e']|] eqn:Hf.
  - apply find_bound_Some in Hf as [Hg' Hb'].
    assert (k' = k) as -> by by apply (wf_unique _ Hwf k' e' k e (r, n)).
    rw Hg in Hg'. by injection Hg' as <-.
  - by apply (find_bound_None c r n k e) in Hf.
Qed.

Lemma queue_clear_quiet E auth w c r n k e digest :
  quiet w → auth_id E = Some auth → priv_modify E auth r = true → pool (disk w) = Some c →
  pool_wf c → (∀ c', is_Some (write_keys c')) →
  detect_modification (sha256 (pool_content (disk w))) digest = Ok () →
  sd_get c k = Some e → binding e = Some (r, n) → pending_clear e = false →
  ∃ d w' c', queue_clear E (λ w, w) r n digest w = (Ok (Some d), w') ∧ quiet w'
    ∧ pool (disk w') = Some c' ∧ pool_equiv c' (sd_insert c k (set_pending e true))
    ∧ d = sha256 (pool_content (disk w')).
Proof.
  intros Hq Ha Hp Hc Hwf Hwr Hdet Hg Hb Hpc.
  assert (queue_clear_body r n c (sha256 (pool_content (disk w)))
          = Ok ((), Some (sd_insert c k (set_pending e true)))) as Hbody.
  { unfold queue_clear_body. rw (find_bound_unique c k e r n Hwf Hg Hb). simpl. by rw Hpc. }
  destruct (locked_quiet_pool digest _ w c _ _ Hq Hc Hwr Hdet Hbody) as (d & w' & c' & Hl & Hrest).
  exists d, w', c'. split; [| done]. unfold queue_clear, get_auth, check_modify. rw Ha. simpl.
  unfold mbind, API_bind. simpl. rw Hp. simpl. by rw Hl.
Qed.

Lemma revert_quiet E auth w c r n k e digest :
  quiet w → auth_id E = Some auth → priv_modify E auth r = true → pool (disk w) = Some c →
  pool_wf c → (∀ c', is_Some (write_keys c')) →
  detect_modification (sha256 (pool_content (disk w))) digest = Ok () →
  sd_get c k = Some e → binding e = Some (r, n) → pending_clear e = true →
  ∃ d w' c', revert_pending_clear E (λ w, w) r n digest w = (Ok (Some d), w') ∧ quiet w'
    ∧ pool (disk w') = Some c' ∧ pool_equiv c' (sd_insert c k (set_pending e false)).
Proof.
  intros Hq Ha Hp Hc Hwf Hwr Hdet Hg Hb Hpc.
  assert (revert_pending_clear_body r n c (sha256 (pool_content (disk w)))
          = Ok ((), Some (sd_insert c k (set_pending e false)))) as Hbody.
  { unfold revert_pending_clear_body. rw (find_bound_unique c k e r n Hwf Hg Hb). simpl. by rw Hpc. }
  destruct (locked_quiet_pool digest _ w c _ _ Hq Hc Hwr Hdet Hbody) as (d & w' & c' & Hl & Hq' & Hc' & Heq & _).
  exists d, w', c'. split; [| done]. unfold revert_pending_clear, get_auth, check_modify. rw Ha. simpl.
  unfold mbind, API_bind. simpl. rw Hp. simpl. by rw Hl.
Qed.

Lemma set_pending_back e : pending_clear e = false → set_pending (set_pending e true) false = e.
Proof. destruct e. simpl. by intros ->. Qed.

(** ** Discarding *)
Definition discarded c (p : PendingEntry) : option SubscriptionKeyEntry :=
  e ← sd_get c (pe_key p);
  Some (if is_clear (pe_op p) then set_pending e false else set_binding e None false).

Lemma discard_all_plan ps c :
  NoDup (pe_key <$> ps) → (∀ p, p ∈ ps → planned_from c p) →
  (discard_all c ps).1 = Z.of_nat (length ps)
  ∧ (∀ p, p ∈ ps → sd_get (discard_all c ps).2 (pe_key p) = discarded c p)
  ∧ (∀ k, ¬ (k ∈ (pe_key <$> ps)) → sd_get (discard_all c ps).2 k = sd_get c k).
Proof.
  revert c. induction ps as [|p ps IH]; intros c Hnd Hpl; simpl.
  { split_and!; [done | intros p Hp; by apply not_elem_of_nil in Hp | done]. }
  apply NoDup_cons in Hnd as [Hp Hnd].
  destruct (Hpl p (list_elem_of_here _ _)) as (e & He & Hb & Hpc).
  assert (∃ e', discard_entry c p = Some (sd_insert c (pe_key p) e') ∧ discarded c p = Some e') as (e' & Hd & Hd').
  { unfold discard_entry, discarded. apply bound_to_binding in Hb. rw He. simpl. rw Hb.
    by destruct (pe_op p); eexists. }
  rw Hd. simpl.
  assert (∀ q, q ∈ ps → pe_key q ≠ pe_key p) as Hne.
  { intros q Hq Heq. apply Hp. rw -Heq. apply list_elem_of_fmap. by exists q. }
  destruct (IH (sd_insert c (pe_key p) e') Hnd) as (H1 & H2 & H3).
  { intros q Hq. destruct (Hpl q (list_elem_of_further _ _ _ Hq)) as (eq & Heq & Hrest). exists eq.
    rw sd_get_insert. case_decide as Hk; [by destruct (Hne q Hq) | done]. }
  split_and!; [rw H1; lia | |].
  - intros q [->|Hq]%elem_of_cons.
    + rw H3; [done |]. rw sd_get_insert. by case_decide.
    + rw (H2 q Hq). unfold discarded. rw sd_get_insert. case_decide as Hk; [by destruct (Hne q Hq) | done].
  - intros k Hk. rw elem_of_cons in Hk. rw H3; [tauto |]. rw sd_get_insert.
    case_decide; [subst; tauto | done].
Qed.

Lemma clear_pending_quiet E auth rs w c digest :
  quiet w → auth_id E = Some auth → remotes_config E = Ok rs → pool (disk w) = Some c →
  pool_wf c → (∀ c', is_Some (write_keys c')) →
  detect_modification (sha256 (pool_content (disk w))) digest = Ok () →
  let ps := plan E auth (join_status E auth rs c) c in
  ∃ d w' c', clear_pending E (λ w, w) digest w = (Ok (Z.of_nat (length ps), d), w')
    ∧ pool (disk w') = Some c'
    ∧ (∀ p, p ∈ ps → sd_get c' (pe_key p) = discarded c p)
    ∧ (∀ k, ¬ (k ∈ (pe_key <$> ps)) → sd_get c' k = sd_get c k).
Proof.
  intros Hq Ha Hrs Hc Hwf Hwr Hdet. simpl. set (ps := plan E auth (join_status E auth rs c) c).
  destruct (config_quiet w c Hq Hc) as (w1 & Hw1 & Hd1 & Hq1). rw -Hd1 in Hc. rw -Hd1 in Hdet.
  destruct (collect_node_status_quiet E auth rs w1 c Hq1 Ha Hrs Hc) as (w2 & Hw2 & Hd2 & Hq2).
  rw -Hd2 in Hc. rw -Hd2 in Hdet. destruct (config_quiet w2 c Hq2 Hc) as (w3 & Hw3 & Hd3 & Hq3).
  rw -Hd3 in Hc. rw -Hd3 in Hdet.
  assert (clear_pending E (λ w, w) digest w
          = (if bool_decide (length ps = 0) then mret (0%Z, None)
             else locked digest (clear_pending_body ps)) w3) as Hrun.
  { unfold clear_pending, get_auth. rw Ha. unfold mbind, API_bind, of_result. simpl. rw Hw1.
    simpl. rw -Hd1 -Hd2 -Hd3 Hdet. simpl. rw Hw2. unfold compute_pending, mbind, API_bind. rw Hw3. simpl.
    fold (plan E auth (join_status E auth rs c) c). fold ps. by case_bool_decide. }
  destruct (plan_spec E auth (join_status E auth rs c) c Hwf) as [Hnd Hpl].
  destruct (discard_all_plan ps c Hnd Hpl) as (H1 & H2 & H3). rw Hrun. case_bool_decide as Hz.
  - apply nil_length_inv in Hz. rw Hz. exists None, w3, c.
    split_and!; [done | done | intros p Hp; by apply not_elem_of_nil in Hp | done].
  - assert (clear_pending_body ps c (sha256 (pool_content (disk w3)))
            = Ok (Z.of_nat (length ps), Some (discard_all c ps).2)) as Hbody.
    { unfold clear_pending_body. rw H1. destruct (Z.ltb_spec 0 (Z.of_nat (length ps))); [done | lia]. }
    destruct (locked_quiet_pool digest _ w3 c _ _ Hq3 Hc Hwr Hdet Hbody) as (d & w' & c' & Hl & _ & Hc' & Heq & _).
    exists (Some d), w', c'. split_and!; [done | done | |].
    + intros p Hp. rw (Heq (pe_key p)). by apply H2.
    + intros k Hk. rw (Heq k). by apply H3.
Qed.
End facts.
