(* ===== verification/KeyProps.v ===== *)
(** * Properties of the subscription key pool

    The theorems about server/src/api/subscriptions/mod.rs and
    lib/pdm-api-types/src/subscription.rs, each with an instance at a concrete pool.

    First an instance of the parts of other crates the key pool uses: the container is a finite map,
    a configuration file holds one line with the map's code number in binary, and the digest of
    a file is its line. *)
From S2P Require Import Prelude RustStr Remotes Disk SubscriptionTypes KeyPool KeyPlan KeyInv KeyRouter KeyAuth KeyOrphan KeyProposals KeyDrain KeyFacts.

#[local] Open Scope string_scope.

(** ** Code numbers *)
Global Instance SubscriptionLevel_countable : Countable SubscriptionLevel.
Proof.
  refine (inj_countable' level_rank
    (λ z, if (z =? 0)%Z then LevelNone else if (z =? 1)%Z then LevelUnknown
          else if (z =? 2)%Z then Community else if (z =? 3)%Z then Basic
          else if (z =? 4)%Z then Standard else Premium) _). by intros [].
Defined.
Global Instance ProductType_countable : Countable ProductType.
Proof.
  refine (inj_countable' (λ p, match p with PPve => (true, true) | PPbs => (true, false)
                                          | PPmg => (false, true) | PPom => (false, false) end)
    (λ b, match b with (true, true) => PPve | (true, false) => PPbs
                     | (false, true) => PPmg | (false, false) => PPom end) _). by intros [].
Defined.
Global Instance SubscriptionKeySource_countable : Countable SubscriptionKeySource.
Proof.
  refine (inj_countable' (λ s, match s with Manual => true | Adopted => false end)
    (λ b : bool, if b then Manual else Adopted) _). by intros [].
Defined.
Global Instance SubscriptionStatus_countable : Countable SubscriptionStatus.
Proof.
  refine (inj_countable' (λ s, match s with New => inl 0%nat | Active => inl 1%nat
                                          | NotFoundStatus => inl 2%nat | OtherStatus s => inr s end)
    (λ x, match x with inl 0 => New | inl 1 => Active | inl _ => NotFoundStatus
                     | inr s => OtherStatus s end) _). by intros [].
Defined.
Global Instance SubscriptionKeyEntry_countable : Countable SubscriptionKeyEntry.
Proof.
  refine (inj_countable'
    (λ e, (key e, product_type e, level e, source e, (remote e, node e, pending_clear e, serverid e),
           (sub_status e, next_due_date e, product_name e, check_time e)))
    (λ '(k, p, l, s, (r, n, pc, si), (st, nd, pn, ct)),
       {| key := k; product_type := p; level := l; source := s; remote := r; node := n;
          pending_clear := pc; serverid := si; sub_status := st; next_due_date := nd;
          product_name := pn; check_time := ct |}) _). by intros [].
Defined.

(** ** The instance *)
Definition ex_pool : Type := gmap string SubscriptionKeyEntry.
Definition ex_write (c : ex_pool) : file := [Text (pos_string (encode c))].
Definition ex_parse (f : file) : option ex_pool :=
  match f with
  | [] => Some ∅
  | [Text s] => decode (string_pos s)
  | _ => None
  end.
Definition ex_sha (f : file) : string := match f with [Text s] => s | _ => "-" end.

(** [NODE_SCHEMA] for the example: host name characters *)
Definition ex_node (n : string) : bool :=
  negb (is_empty n)
  && forall_char (λ c, is_ascii_digit c || in_range "a" "z" c || Ascii.eqb c "-") n.

Global Instance ex_key_env : KeyPoolEnv := {
  config_data := ex_pool;
  sd_iter := map_to_list;
  sd_get c k := c !! k;
  sd_insert c k e := <[k := e]> c;
  sd_remove c k := delete k c;
  parse_keys := ex_parse;
  write_keys c := Some (ex_write c);
  shadow_data := ();
  shadow_remove s _ := s;
  parse_shadow _ := Some ();
  write_shadow _ := Some [];
  sha256 := ex_sha;
  node_schema := ex_node;
  default_status := NotFoundStatus;
  hash_json l := pos_string (encode l);
}.

Global Instance ex_key_laws : KeyPoolLaws.
Proof.
  split; simpl.
  - intros c. apply NoDup_fst_map_to_list.
  - intros c k e. by rw elem_of_map_to_list.
  - intros c k e k'. case_decide; [subst; by rw lookup_insert_eq | by rw lookup_insert_ne].
  - intros c k k'. case_decide; [subst; by rw lookup_delete_eq | by rw lookup_delete_ne].
  - intros c f [= <-]. exists c. split; [| done]. unfold ex_parse, ex_write.
    by rw string_pos_pos_string decode_encode.
Qed.

Lemma ex_writes (c : config_data) : is_Some (write_keys c).
Proof. simpl. eauto. Qed.

(** ** Surroundings: a PVE remote with two nodes and a PBS remote *)
Definition ex_info (st : SubscriptionStatus) (s : option Z) (k : option string) : NodeSubscriptionInfo :=
  {| ni_status := st; ni_sockets := s; ni_key := k; ni_level := LevelNone; ni_serverid := None;
     ni_check_time := None; ni_next_due_date := None |}.

Definition k1 : string := "pve2p-0123456789".
Definition k2 : string := "pve8b-00000000aa".
Definition k3 : string := "pbsc-0123456789".

Definition ex_remotes : list (string * RemoteType) := [("pve", Pve); ("pbs", Pbs)].

Definition ex_live (live : gmap string (gmap string (option NodeSubscriptionInfo))) (r : string) :
    result error (gmap string (option NodeSubscriptionInfo)) :=
  match live !! r with Some m => Ok m | None => Err (Error OtherIo []) end.

Definition ex_env (live : gmap string (gmap string (option NodeSubscriptionInfo))) : env :=
  {| auth_id := Some "root@pam"; priv_audit := λ _ _, true; priv_modify := λ _ _, true;
     remotes_config := Ok ex_remotes; live_info := ex_live live; perform := λ _, Ok () |}.

(** Nobody has a subscription. *)
Definition ex_idle : env :=
  ex_env {[ "pve" := {[ "a" := Some (ex_info NotFoundStatus (Some 2%Z) None);
                        "b" := Some (ex_info NotFoundStatus (Some 4%Z) None) ]};
            "pbs" := {[ "localhost" := Some (ex_info NotFoundStatus None None) ]} ]}.

Definition ex_disk (c : ex_pool) : dir := {[ KEYS_CFG := ex_write c ]}.
Definition ex_world (c : ex_pool) : world := quiet_world (ex_disk c).
Definition ex_entry (k : string) (p : ProductType) (b : option (string * string)) (pc : bool)
    : SubscriptionKeyEntry :=
  set_pending (new_entry k p Premium Manual b) pc.

Lemma pool_ex_disk c : pool (ex_disk c) = Some c.
Proof.
  unfold pool, pool_content, ex_disk. rw lookup_singleton_eq. simpl. unfold ex_parse, ex_write.
  by rw string_pos_pos_string decode_encode.
Qed.

(** A check of the invariant that computes. *)
Definition entry_ok (k : string) (e : SubscriptionKeyEntry) : bool :=
  String.eqb (key e) k && subscription_key_schema k
  && bool_decide (product_from_key k = Some (product_type e))
  && bool_decide (is_Some (remote e) ↔ is_Some (node e))
  && match node e with Some n => ex_node n | None => true end
  && (negb (pending_clear e) || bool_decide (is_Some (remote e))).

Definition pool_ok (c : ex_pool) : bool :=
  forallb (λ p, entry_ok p.1 p.2) (map_to_list c)
  && bool_decide (NoDup (filter_map (λ p, binding p.2) (map_to_list c))).

Lemma entry_ok_wf k e : entry_ok k e = true → entry_wf k e.
Proof.
  unfold entry_ok. rw !andb_true_iff !bool_decide_eq_true String.eqb_eq.
  intros (((((Hk & Hs) & Hp) & Hb) & Hn) & Hpc). constructor; try done.
  - unfold subscription_key_schema. by rw !andb_true_iff.
  - intros n Hne. by rw Hne in Hn.
  - intros Ht. rw Ht in Hpc. by apply bool_decide_eq_true in Hpc.
Qed.

Lemma filter_map_inj {A B} (f : A → option B) l x y b :
  NoDup (filter_map f l) → x ∈ l → y ∈ l → f x = Some b → f y = Some b → x = y.
Proof.
  induction l as [|z l IH]; intros Hnd Hx Hy Hfx Hfy; [by apply not_elem_of_nil in Hx |].
  simpl in Hnd.
  assert (∀ u, u ∈ l → f u = Some b → b ∈ filter_map f l) as Hin.
  { intros u Hu Hfu. apply elem_of_filter_map. by exists u. }
  apply elem_of_cons in Hx as [Hx|Hx]; apply elem_of_cons in Hy as [Hy|Hy]; subst; [done | | |].
  - rw Hfx in Hnd. apply NoDup_cons in Hnd as [Hnin _]. by destruct Hnin; apply (Hin y).
  - rw Hfy in Hnd. apply NoDup_cons in Hnd as [Hnin _]. by destruct Hnin; apply (Hin x).
  - apply IH; try done. by destruct (f z); [apply NoDup_cons in Hnd as [_ Hnd] |].
Qed.

Lemma pool_ok_wf c : pool_ok c = true → pool_wf c.
Proof.
  unfold pool_ok. rw andb_true_iff bool_decide_eq_true forallb_Forall_true Forall_forall.
  intros [He Hnd]. split.
  - intros k e Hg. simpl in Hg. apply elem_of_map_to_list in Hg. apply entry_ok_wf, (He (k, e) Hg).
  - intros ka e1 kb e2 b H1 H2 Hb1 Hb2. simpl in *. apply elem_of_map_to_list in H1, H2.
    by pose proof (filter_map_inj _ _ (ka, e1) (kb, e2) b Hnd H1 H2 Hb1 Hb2) as [= -> _].
Qed.

Lemma disk_wf_ex c : pool_ok c = true → disk_wf (ex_disk c).
Proof. intros Hc%pool_ok_wf. exists c. split; [apply pool_ex_disk | done]. Qed.

Section props.
Context `{KeyPoolLaws}.
Implicit Types (c : config_data) (e : SubscriptionKeyEntry).

(** C2: The pool file is well-formed in every reachable world.  Whatever calls run, in whatever
    order, however their two phases interleave with each other and with the worker, and
    whatever file operations fail: every entry is stored under its own valid key with that
    key's product, has a whole binding or none, names a valid node, has a queued clear only
    when bound, and no two keys are bound to one node. *)
Theorem reachable_pool_wf w :
  reachable w → ∃ c, pool (disk w) = Some c ∧ pool_wf c.
Proof. apply reachable_disk_wf. Qed.

(** C3: No call orphans a live subscription.  When a call releases the binding of a key, the
    remote did not report that key as the node's active key, even if other calls changed the
    pool between the query and the transaction; the digest may not collide on the two contents
    the call saw, and a caller who may modify a remote may audit it. *)
Theorem calls_never_orphan E1 E2 w w2 q auth r w' c c' k rem nod :
  auth_id E1 = Some auth →
  (∀ x, priv_modify E1 auth x = true → priv_audit E1 auth x = true) →
  no_collision (disk w) (disk w2) →
  handle E1 E2 (λ _, w2) q w = (r, w') → disk w' ≠ disk w →
  pool (disk w2) = Some c → pool (disk w') = Some c' →
  bound_in c k rem nod → ¬ bound_in c' k rem nod → ¬ live_on E1 k rem nod.
Proof.
  intros Ha Hpriv Hnc Hr Hd Hc Hc' Hb Hb'.
  destruct (handle_safe E1 E2 w2 q auth w r w' Ha Hpriv Hnc Hr) as [Heq|Hch]; [done |].
  by apply (Hch c c' Hc Hc').
Qed.

(** C13: A call changes only entries on remotes its caller may modify: an entry that differs
    afterwards was bound to such a remote or free, and is bound to such a remote or free. *)
Theorem calls_authorised E1 E2 w w2 q auth r w' c c' k e rem :
  auth_id E1 = Some auth → handle E1 E2 (λ _, w2) q w = (r, w') → disk w' ≠ disk w →
  pool (disk w2) = Some c → pool (disk w') = Some c' → sd_get c k ≠ sd_get c' k →
  sd_get c k = Some e ∨ sd_get c' k = Some e → remote e = Some rem →
  priv_modify E1 auth rem = true ∨ priv_modify E2 auth rem = true.
Proof.
  intros Ha Hr Hd Hc Hc' Hne He Hrem.
  destruct (handle_late E1 E2 w2 q auth Ha w r w' Hr) as [Heq|Hch]; [done |].
  apply (Hch c c' Hc Hc' k rem Hne). by exists e.
Qed.

(** C14: Every call of the worker to a remote is justified at that moment: it is the call planned
    for an entry on a configured remote which the worker's user may modify, and the pool, as
    others left it just before, still has that key bound to that node with the flag that asks
    for this call. *)
Theorem worker_calls_justified E before between auth rs w r t w' cl :
  remotes_config E = Ok rs →
  run_apply_pending E (λ p _, before p) between auth w = (r, t, w') → cl ∈ calls t →
  ∃ p c e, planned rs p = Some cl ∧ priv_modify E auth (pe_remote p) = true
    ∧ pool (disk (before p)) = Some c ∧ sd_get c (pe_key p) = Some e
    ∧ binding e = Some (pe_remote p, pe_node p) ∧ pending_clear e = is_clear (pe_op p).
Proof.
  intros Hrs Hr Hcl. unfold run_apply_pending, get_remotes in Hr. rw Hrs in Hr.
  apply worker_bind_inv in Hr as [(rs' & t1 & w1 & t2 & [[-> [= ->]]%of_result_inv ->]%run_api_inv & Hr & ->)|(x & [_ ->]%run_api_inv & _)];
    [| by apply not_elem_of_nil in Hcl].
  apply worker_bind_inv in Hr as [(ps & t1 & w2 & t3 & [Hps ->]%run_api_inv & Hr & ->)|(x & [_ ->]%run_api_inv & _)];
    [| by apply not_elem_of_nil in Hcl].
  simpl in Hcl. case_bool_decide; [injection Hr as _ <- _; by apply not_elem_of_nil in Hcl |].
  assert (∃ r0 t0 w0, apply_entries E (λ p _, before p) between rs ps 0%Z [] w2 = (r0, t0, w0) ∧ cl ∈ calls t0)
    as (r0 & t0 & w0 & Hr0 & Hcl0).
  { apply worker_bind_inv in Hr as [(a & t4 & w4 & t5 & Ha & Hr & ->)|(x & Hx & _)]; [| eauto].
    exists (Ok a), t4, w4. split; [done |]. rw calls_app in Hcl. apply elem_of_app in Hcl as [?|Hcl]; [done |].
    case_bool_decide; injection Hr as _ <- _; by apply not_elem_of_nil in Hcl. }
  destruct (apply_entries_calls _ _ _ _ _ _ _ _ _ _ _ _ Hr0 Hcl0) as (p & Hp & Hpl & c & e & Hrest).
  exists p, c, e. split_and!; try apply Hrest; [done |].
  apply compute_pending_remotes in Hps. rw Forall_forall in Hps. by apply Hps.
Qed.

(** No clear of the plan is for a node that runs another key, according to the status the plan was made from. *)
Definition clears_own_keys (statuses : list RemoteNodeStatus) (ps : list PendingEntry) : Prop :=
  ∀ p s, p ∈ ps → is_clear (pe_op p) = true → s ∈ statuses → ns_remote s = pe_remote p → ns_node s = pe_node p →
    match ns_current_key s with Some k => k = pe_key p | None => True end.

(** The worker drains its plan.  Alone, without file errors, and when no node with a queued clear runs a different key, it
    makes the calls planned for the pending entries, each once and in order, whichever of them fail; it then has released the
    keys whose clear succeeded and changed nothing else, and it reports how many entries succeeded, with at most five of the
    failures.  (For a node that runs a different key the worker is meant to abort, which it does not; that case is
    [queued_clear_deletes_foreign_key] below.) *)
Theorem worker_drains_plan E auth rs w c :
  quiet w → pool (disk w) = Some c → pool_wf c → (∀ c', is_Some (write_keys c')) →
  remotes_config E = Ok rs →
  let ps := plan E auth (collect_status_uncached E rs) c in
  clears_own_keys (collect_status_uncached E rs) ps →
  ∃ r t w' c', run_apply_pending E (λ _ w, w) (λ _ w, w) auth w = (r, t, w')
    ∧ calls t = filter_map (planned rs) ps ∧ pool (disk w') = Some c'
    ∧ (∀ p, p ∈ ps → sd_get c' (pe_key p) = sd_get (after E rs c p) (pe_key p))
    ∧ (∀ k, ¬ (k ∈ (pe_key <$> ps)) → sd_get c' k = sd_get c k)
    ∧ (if decide (count_ok E rs ps = length ps) then r = Ok ()
       else ∃ shown, r = Err (ApplyFailed (Z.of_nat (count_ok E rs ps)) (Z.of_nat (length ps))
                                (Z.of_nat (length ps - count_ok E rs ps)) shown
                                (Z.of_nat (length ps - count_ok E rs ps - 5)))
            ∧ length shown = min 5 (length ps - count_ok E rs ps)).
Proof.
  intros Hq Hc Hwf Hwr Hrs ps _.
  destruct (run_apply_pending_quiet E auth rs w c Hq Hc Hwf Hwr Hrs)
    as (r & t & w' & c' & Hr & Hc' & Heq & Ht & Hres).
  destruct (plan_spec E auth (collect_status_uncached E rs) c Hwf) as [Hnd _].
  exists r, t, w', c'. split_and!; [done | done | done | | | done].
  - intros p Hp. rw (Heq (pe_key p)). by apply drained_get.
  - intros k Hk. rw (Heq k). by apply drained_other.
Qed.

(** C33: The automatic assignment is the greedy plan: it goes through the nodes without a key and
    without an active subscription from the largest to the smallest socket count and gives
    each the smallest free key that covers it, each key once, and it leaves a node out only
    when every key that fits is taken. *)
Theorem proposals_are_greedy c ns :
  let ps := compute_proposals c ns in
  ∃ targets, targets ≡ₚ base.filter (λ n, is_target n = true) ns
    ∧ StronglySorted (λ a b, default 0 (ns_sockets b) ≤ default 0 (ns_sockets a))%Z targets
    ∧ greedy c [] targets ps ∧ NoDup (pa_key <$> ps)
    ∧ ∀ n k, n ∈ targets → usable c [] n k →
        k ∈ (pa_key <$> ps) ∨ ∃ k', proposal_for c n k' ∈ ps.
Proof.
  simpl. destruct (compute_proposals_greedy c ns) as (ts & Hp & Hs & Hg).
  exists ts. split_and!; [done | done | done | by apply greedy_keys in Hg as [Hk _] |].
  intros n k. by apply greedy_maximal.
Qed.

(** A preview that nothing outdates is committed in full: when the remotes answer the same
    and the pool is the same, [bulk_assign] applies exactly the proposals of [auto_assign] on
    remotes the caller may modify (with valid node names) and changes no other key. *)
Theorem preview_commits E auth rs w c prop w1 :
  quiet w → auth_id E = Some auth → remotes_config E = Ok rs → NoDup rs.*1 →
  pool (disk w) = Some c → (∀ c', is_Some (write_keys c')) →
  auto_assign E w = (Ok prop, w1) →
  ∃ d w' c', bulk_assign E E (λ w, w) prop w1
             = (Ok (base.filter (accepted E auth) (assignments prop), d), w')
    ∧ pool (disk w') = Some c'
    ∧ (∀ p, p ∈ assignments prop → accepted E auth p →
         bound_in c' (pa_key p) (pa_remote p) (pa_node p))
    ∧ (∀ k, ¬ (k ∈ (pa_key <$> assignments prop)) → sd_get c' k = sd_get c k).
Proof.
  intros Hq Ha Hrs Hnd Hc Hwr Hauto.
  destruct (auto_assign_quiet E auth rs w c Hq Ha Hrs Hc) as (w1' & Hrun & Hd & Hq').
  rw Hrun in Hauto. injection Hauto as Hprop <-. rw -Hd in Hc. rw -Hd in Hprop.
  by apply (bulk_assign_quiet E auth rs w1' c prop).
Qed.

(** Adding keys is all or nothing.  With valid keys, if one of them is in the pool already the
    call fails with a conflict and the disk is unchanged; otherwise every key is in the pool
    afterwards as a free manual entry, the others are unchanged, and the counts of added and
    repeated keys add up. *)
Theorem add_keys_all_or_nothing w c keys digest :
  quiet w → pool (disk w) = Some c → (∀ c', is_Some (write_keys c')) → keys ≠ [] →
  Forall (λ k, subscription_key_schema k = true) keys →
  detect_modification (sha256 (pool_content (disk w))) digest = Ok () →
  (∃ k msg w', k ∈ keys ∧ is_Some (sd_get c k)
     ∧ add_keys (λ w, w) keys digest w = (Err (Conflict msg), w') ∧ disk w' = disk w)
  ∨ (∃ added dup d w' c', (∀ k, k ∈ keys → sd_get c k = None)
     ∧ add_keys (λ w, w) keys digest w = (Ok (added, dup, Some d), w')
     ∧ (added + dup)%Z = Z.of_nat (length keys) ∧ pool (disk w') = Some c'
     ∧ (∀ k, k ∈ keys → ∃ e, sd_get c' k = Some e ∧ key e = k ∧ binding e = None
          ∧ source e = Manual ∧ pending_clear e = false
          ∧ product_from_key k = Some (product_type e))
     ∧ (∀ k, ¬ (k ∈ keys) → sd_get c' k = sd_get c k)).
Proof.
  intros Hq Hc Hwr Hne Hks Hdet.
  destruct (collect_keys_ok keys [] Hks) as (es & dup & Hcol & [Hcnt [Hnd Hf] Hnew]).
  assert (∀ k, k ∈ (key <$> es) ↔ k ∈ keys) as Hkeys.
  { intros k. rw Hf elem_of_nil. tauto. }
  set (body := λ c (_ : string), c' ← add_entries c es; Ok ((), Some c')).
  assert (add_keys (λ w, w) keys digest w
          = (d ← locked digest body; mret (Z.of_nat (length es), dup, d.2)) w) as Hrun.
  { unfold add_keys. rw bool_decide_false // Hcol. done. }
  rw Hrun. destruct (decide (Exists (λ k, is_Some (sd_get c k)) keys)) as [Hex|Hex].
  - apply Exists_exists in Hex as (k & Hk & Hg). left.
    destruct (add_entries_err es c k Hnd) as [msg Hmsg]; [by apply Hkeys | done |].
    assert (body c (sha256 (pool_content (disk w))) = Err (Conflict msg)) as Hb by (unfold body; by rw Hmsg).
    destruct (locked_quiet_err digest body w c _ Hq Hc Hdet Hb) as (w' & Hl & Hd & _).
    exists k, msg, w'. split_and!; [done | done | | done]. unfold mbind, API_bind. by rw Hl.
  - right. assert (∀ k, k ∈ keys → sd_get c k = None) as Hfree.
    { intros k Hk. apply eq_None_not_Some. intros Hs. apply Hex, Exists_exists. by exists k. }
    destruct (add_entries_ok es c Hnd) as (c1 & Hc1 & Hin & Hout); [intros k Hk; by apply Hfree, Hkeys |].
    assert (body c (sha256 (pool_content (disk w))) = Ok ((), Some c1)) as Hb by (unfold body; by rw Hc1).
    destruct (locked_quiet_pool digest body w c _ _ Hq Hc Hwr Hdet Hb) as (d & w' & c' & Hl & _ & Hc' & Heq & _).
    exists (Z.of_nat (length es)), dup, d, w', c'. split_and!; [done | | done | done | |].
    + unfold mbind, API_bind. by rw Hl.
    + intros k Hk. apply Hkeys, list_elem_of_fmap in Hk as (e & -> & He). exists e.
      rw (Heq (key e)) (Hin e He). rw Forall_forall in Hnew. by destruct (Hnew e He) as (? & ? & ? & ?).
    + intros k Hk. rw (Heq k). apply Hout. by rw Hkeys.
Qed.

(** Queueing a clear and reverting it, with the digest the first call returned, restores the
    pool. *)
Theorem queue_revert_roundtrip E auth w c r n k e digest :
  quiet w → auth_id E = Some auth → priv_modify E auth r = true → pool (disk w) = Some c →
  pool_wf c → (∀ c', is_Some (write_keys c')) →
  detect_modification (sha256 (pool_content (disk w))) digest = Ok () →
  sd_get c k = Some e → binding e = Some (r, n) → pending_clear e = false →
  ∃ d1 w1 c1 d2 w2 c2,
    queue_clear E (λ w, w) r n digest w = (Ok d1, w1) ∧ pool (disk w1) = Some c1
    ∧ sd_get c1 k = Some (set_pending e true)
    ∧ revert_pending_clear E (λ w, w) r n d1 w1 = (Ok d2, w2) ∧ pool (disk w2) = Some c2
    ∧ pool_equiv c2 c.
Proof.
  intros Hq Ha Hp Hc Hwf Hwr Hdet Hg Hb Hpc.
  destruct (queue_clear_quiet E auth w c r n k e digest Hq Ha Hp Hc Hwf Hwr Hdet Hg Hb Hpc)
    as (d1 & w1 & c1 & H1 & Hq1 & Hc1 & Heq1 & ->).
  assert (pool_wf c1) as Hwf1.
  { apply (pool_wf_proper _ _ Heq1), (pool_wf_same_binding c k e); [done | done | | done].
    apply entry_wf_set_pending; [by apply (wf_entry _ Hwf) |].
    apply binding_remote in Hb as [Hb _]. by rw Hb. }
  assert (sd_get c1 k = Some (set_pending e true)) as Hg1.
  { rw (Heq1 k) sd_get_insert. by case_decide. }
  set (d1 := sha256 (pool_content (disk w1))).
  assert (detect_modification (sha256 (pool_content (disk w1))) (Some d1) = Ok ()) as Hdet1.
  { unfold detect_modification, d1. by rw String.eqb_refl. }
  destruct (revert_quiet E auth w1 c1 r n k _ (Some d1) Hq1 Ha Hp Hc1 Hwf1 Hwr Hdet1 Hg1 Hb eq_refl)
    as (d2 & w2 & c2 & H2 & _ & Hc2 & Heq2).
  exists (Some d1), w1, c1, (Some d2), w2, c2. split_and!; try done.
  intros k'. rw (Heq2 k') sd_get_insert (set_pending_back e Hpc). case_decide as Hk; [by subst |].
  rw (Heq1 k') sd_get_insert. by case_decide.
Qed.

(** A successful adoption binds the key that the remote reported for the node.  The node had no
    key in the pool, the key was free or unknown (and then valid, stored as adopted), no other
    entry changes, and the pool is the one from before the query. *)
Theorem adopt_key_sound E w w2 r n digest d w' :
  adopt_key E (λ _, w2) r n digest w = (Ok d, w') →
  ∃ k c c' e' live info, live_info E r = Ok live ∧ live !! n = Some (Some info) ∧ ni_key info = Some k
    ∧ sha256 (pool_content (disk w2)) = sha256 (pool_content (disk w))
    ∧ pool (disk w2) = Some c ∧ pool (disk w') = Some c'
    ∧ (∀ k' e, sd_get c k' = Some e → binding e ≠ Some (r, n))
    ∧ sd_get c' k = Some e' ∧ binding e' = Some (r, n)
    ∧ (∀ k', k' ≠ k → sd_get c' k' = sd_get c k')
    ∧ match sd_get c k with
      | Some e => remote e = None ∧ node e = None ∧ source e' = source e
      | None => subscription_key_schema k = true ∧ source e' = Adopted
      end.
Proof.
  unfold adopt_key. intros ([dg k] & w1 & Hpre & Hr)%api_bind_ok.
  pose proof (adopt_key_pre_spec _ _ _ _ _ _ _ Hpre) as (a & _ & _ & ->).
  assert (∃ live info, live_info E r = Ok live ∧ live !! n = Some (Some info) ∧ ni_key info = Some k)
    as (live & info & Hl & Hi & Hk).
  { unfold adopt_key_pre in Hpre. repeat (apply api_bind_ok in Hpre as (? & ? & ? & Hpre)).
    injection Hpre as _ -> _. destruct (live_info E r) as [live|]; [| done].
    repeat match goal with H : of_result _ _ = _ |- _ => apply of_result_inv in H as [? ?] end. simplify_eq.
    match goal with H : Ok k = ok_or _ _ |- _ => symmetry in H; apply ok_or_inv in H;
      apply bind_Some in H as (info & Hj & Hk) end.
    destruct (live !! n) as [[i|]|] eqn:Hi; simplify_eq/=. by exists live, info. }
  apply api_bind_ok in Hr as ([] & w3 & [= <-] & Hr).
  apply api_bind_ok in Hr as ([[] o] & w4 & Hloc & [= _ <-]). apply locked_spec in Hloc.
  destruct Hloc as (c & Hc & _ & Hm). simpl in Hm. destruct o as [dg|].
  - destruct Hm as (c1 & raw & Hb & Hw & _ & Hd). destruct (parse_write_keys c1 raw Hw) as (c' & Hp & Heq).
    unfold adopt_key_body in Hb. ok_inv Hb. apply negb_false_iff, String.eqb_eq in Ha.
    exists k, c, c'.
    assert (pool (disk w4) = Some c') as Hc' by (unfold pool, pool_content; by rw Hd lookup_insert_eq).
    assert (∀ k' e, sd_get c k' = Some e → binding e ≠ Some (r, n)) as Hfree by (intros k' e; by apply target_bound_false).
    destruct (sd_get c k) as [e|] eqn:Hg; ok_inv Hb.
    + apply orb_false_iff in Ha1 as [Hf Hn]. apply bool_decide_eq_false, eq_None_not_Some in Hn.
      exists (set_binding e (Some (r, n)) (pending_clear e)), live, info. split_and!; try done.
      * rw (Heq k) sd_get_insert. by case_decide.
      * intros k' Hne. rw (Heq k') sd_get_insert. by case_decide.
      * unfold is_bound in Hf. by destruct (remote e).
    + apply negb_false_iff in Ha1.
      eexists (new_entry k _ _ Adopted (Some (r, n))), live, info. split_and!; try done.
      * rw (Heq k) sd_get_insert. by case_decide.
      * intros k' Hne. rw (Heq k') sd_get_insert. by case_decide.
  - destruct Hm as [_ Hb]. unfold adopt_key_body in Hb. ok_inv Hb. destruct (sd_get c k); ok_inv Hb.
Qed.

(** Discarding pending changes counts and undoes exactly the pending entries: a queued clear
    loses its flag and keeps its binding, a key that has not reached its node becomes free, and
    every other entry stays. *)
Theorem clear_pending_discards E auth rs w c digest :
  quiet w → auth_id E = Some auth → remotes_config E = Ok rs → pool (disk w) = Some c →
  pool_wf c → (∀ c', is_Some (write_keys c')) →
  detect_modification (sha256 (pool_content (disk w))) digest = Ok () →
  let ps := plan E auth (join_status E auth rs c) c in
  ∃ d w' c', clear_pending E (λ w, w) digest w = (Ok (Z.of_nat (length ps), d), w')
    ∧ pool (disk w') = Some c'
    ∧ (∀ p, p ∈ ps → sd_get c' (pe_key p) = discarded c p)
    ∧ (∀ k, ¬ (k ∈ (pe_key <$> ps)) → sd_get c' k = sd_get c k).
Proof. apply clear_pending_quiet. Qed.

(** Listing a well-formed pool never panics: it returns exactly the entries on remotes the
    caller may audit and the free ones, each with a proper level derived from its key. *)
Theorem list_keys_total E auth w c :
  quiet w → auth_id E = Some auth → pool (disk w) = Some c → pool_wf c →
  ∃ l w', list_keys E w = (Ok (l, sha256 (pool_content (disk w))), w') ∧ disk w' = disk w
    ∧ key <$> l = key <$> base.filter (λ e, visible E auth e = true) (snd <$> sd_iter c)
    ∧ Forall (λ e, (2 ≤ level_rank (level e))%Z) l.
Proof. apply list_keys_quiet. Qed.
End props.

(** A key that matches the key schema is a PVE or PBS key with a level from community to
    premium, deriving its level does not panic, and a PVE key has a socket count below 1000
    while a PBS key has none. *)
Theorem valid_key_facts k :
  subscription_key_schema k = true →
  (∃ lv, level_from_key (Some k) = Some lv ∧ (2 ≤ level_rank lv)%Z)
  ∧ ((product_from_key k = Some PPve ∧ ∃ s, socket_count_from_key k = Some s ∧ (0 ≤ s ≤ 999)%Z)
     ∨ (product_from_key k = Some PPbs ∧ socket_count_from_key k = None)).
Proof.
  intros Hk. split; [by apply valid_key_level |].
  destruct (key_schema_product k Hk) as [Hp|Hp]; [left; split; [done | by apply valid_key_sockets] |].
  right. split; [done |]. pose proof Hk as (ds & l & rest & Hl & Hds & [[Hs _]|Hs])%key_schema_split.
  - unfold product_from_key in Hp. by rw Hs in Hp.
  - unfold socket_count_from_key. by rw Hs.
Qed.

(** A redacted key tells only the prefix and the first and last character of the secret: keys
    that agree on those are redacted alike. *)
Theorem redact_key_hides p s1 s2 :
  has_char "-" p = false → (2 ≤ length (chars s1))%nat → (2 ≤ length (chars s2))%nat →
  head (chars s1) = head (chars s2) → last (chars s1) = last (chars s2) →
  redact_key (p ++ "-" ++ s1) = redact_key (p ++ "-" ++ s2).
Proof.
  intros Hp H1 H2 Hh Hl. unfold redact_key. rw !(split_once_app "-"%char p) //.
  destruct (chars s1) as [|a [|b l1]], (chars s2) as [|a' [|b' l2]]; simpl in H1, H2; try lia.
  injection Hh as ->. by assert (last (b :: l1) = last (b' :: l2)) as -> by exact Hl.
Qed.

(** ** Where the code differs from its documentation *)

Definition bound_k1 (pc : bool) : ex_pool := {[ k1 := ex_entry k1 PPve (Some ("pve", "a")) pc ]}.

(** Node pve/a runs [k2], which is not the key of the pool's entry. *)
Definition ex_foreign : env :=
  ex_env {[ "pve" := {[ "a" := Some (ex_info Active (Some 2%Z) (Some k2)) ]} ]}.

(** A queued clear deletes whatever subscription the node has.  The pool's key for pve/a is
    [k1], its clear is queued, and the node runs the different key [k2]: the worker deletes the
    node's subscription and reports success. *)
Theorem queued_clear_deletes_foreign_key :
  live_on ex_foreign k2 "pve" "a"
  ∧ ∃ w', run_apply_pending ex_foreign (λ _ w, w) (λ _ w, w) "root@pam" (ex_world (bound_k1 true))
          = (Ok (), [Call (PveDelete "pve" "a"); Invalidate "pve"], w').
Proof.
  split.
  - eexists _, Pve, _, _. split_and!; try done; by vm_compute.
  - set (x := run_apply_pending _ _ _ _ _). exists x.2.
    assert (x.1 = (Ok (), [Call (PveDelete "pve" "a"); Invalidate "pve"])) as Hx by by vm_compute.
    rw -Hx. apply surjective_pairing.
Qed.

(** The PBS remote reports a PVE key. *)
Definition ex_mismatch : env :=
  ex_env {[ "pbs" := {[ "localhost" := Some (ex_info Active None (Some k1)) ]} ]}.

Definition adopted_as (e : SubscriptionKeyEntry) : bool :=
  bool_decide (binding e = Some ("pbs", "localhost")) && bool_decide (product_type e = PPve).

(** Adoption does not compare the key's product with the remote's type: a PVE key reported by a
    PBS remote is bound to it, a binding that [set_assignment] refuses. *)
Theorem adopt_ignores_product :
  (∃ d w' c' e, adopt_key ex_mismatch (λ w, w) "pbs" "localhost" None (ex_world ∅) = (Ok d, w')
     ∧ pool (disk w') = Some c' ∧ sd_get c' k1 = Some e ∧ binding e = Some ("pbs", "localhost")
     ∧ product_type e = PPve ∧ matches_remote_type (product_type e) Pbs = false)
  ∧ ∃ msg w', set_assignment ex_mismatch ex_mismatch (λ w, w) k1 "pbs" "localhost" None
                (ex_world {[ k1 := ex_entry k1 PPve None false ]}) = (Err (BadRequest msg), w').
Proof.
  split.
  - set (x := adopt_key _ _ _ _ _ _). destruct x as [[d|er] w'] eqn:Hx; unfold x in Hx.
    + assert (∃ c' e, pool (disk w') = Some c' ∧ sd_get c' k1 = Some e ∧ adopted_as e = true) as (c' & e & Hc & He & Ha).
      { apply (f_equal (λ y, pool (disk y.2) ≫= λ c', sd_get c' k1)) in Hx. simpl in Hx.
        assert (adopted_as <$> (pool (disk w') ≫= λ c', sd_get c' k1) = Some true) as Hy.
        { unfold pool. simpl. rw -Hx. by vm_compute. }
        apply fmap_Some in Hy as (e & (c' & Hc & He)%bind_Some & Ha). exists c', e. exact (conj Hc (conj He (eq_sym Ha))). }
      unfold adopted_as in Ha. apply andb_true_iff in Ha as [Hb%bool_decide_eq_true Hp%bool_decide_eq_true].
      exists d, w', c', e. rw Hp. exact (conj eq_refl (conj Hc (conj He (conj Hb (conj eq_refl eq_refl))))).
    + apply (f_equal (λ y, is_ok y.1)) in Hx. by vm_compute in Hx.
  - set (x := set_assignment _ _ _ _ _ _ _ _). destruct x as [r w'] eqn:Hx; unfold x in Hx.
    apply (f_equal fst) in Hx. simpl in Hx. rw -Hx. eexists _, w'. by vm_compute.
Qed.

(** Deriving the level of a key whose type part ends inside a multi-byte character panics. *)
Theorem level_from_key_panics : level_from_key (Some "pvé-0123456789") = None.
Proof. reflexivity. Qed.

(** A node status with another remote type. *)
Definition with_type (ty : RemoteType) (n : RemoteNodeStatus) : RemoteNodeStatus :=
  {| ns_remote := ns_remote n; ns_ty := ty; ns_node := ns_node n; ns_sockets := ns_sockets n;
     ns_status := ns_status n; ns_level := ns_level n; ns_assigned_key := ns_assigned_key n;
     ns_current_key := ns_current_key n; ns_pending_clear := ns_pending_clear n;
     ns_check_time := ns_check_time n; ns_next_due_date := ns_next_due_date n |}.

(** The node status hash ignores the remote type, which the proposals depend on: two statuses
    that differ only in it have the same hash and different proposals. *)
Theorem node_status_hash_ignores_type :
  (∀ ty ns, hash_node_status (with_type ty <$> ns) = hash_node_status ns)
  ∧ ∃ (c : ex_pool) ns, compute_proposals c (with_type Pbs <$> ns) ≠ compute_proposals c ns.
Proof.
  split.
  - intros ty ns. unfold hash_node_status. f_equal. f_equal. rw -list_fmap_compose. done.
  - exists {[ k1 := ex_entry k1 PPve None false ]}, [node_row "pve" Pve "a" None None false].
    by vm_compute.
Qed.

(** ** Instances *)
Definition ex_pool1 : ex_pool := bound_k1 false.
Definition ex_pool2 : ex_pool :=
  <[k2 := ex_entry k2 PPve None false]> (<[k3 := ex_entry k3 PPbs (Some ("pbs", "localhost")) true]> ex_pool1).

Lemma reachable_pool_wf_witness :
  ∃ w c, reachable w ∧ pool (disk w) = Some c ∧ size c = 3 ∧ pool_wf c.
Proof.
  set (q := AddKeys [k1; k2; k3; k1] None).
  set (w := (handle ex_idle ex_idle (λ _, ex_world ∅) q (ex_world ∅)).2).
  assert (reachable (ex_world ∅)) as H0.
  { eapply reach_init; [apply pool_ex_disk | intros k; apply lookup_empty]. }
  assert (reachable w) as Hw.
  { apply (reach_handle ex_idle ex_idle q (ex_world ∅) (ex_world ∅)
             (handle ex_idle ex_idle (λ _, ex_world ∅) q (ex_world ∅)).1); [done | done | by vm_compute |].
    apply surjective_pairing. }
  destruct (reachable_pool_wf w Hw) as (c & Hc & Hwf). exists w, c. split_and!; [done | done | | done].
  assert (size <$> pool (disk w) = Some 3) as Hs by by vm_compute.
  rw Hc in Hs. by injection Hs.
Defined.

Lemma calls_never_orphan_witness : ¬ live_on ex_idle k1 "pve" "a".
Proof.
  set (w := ex_world ex_pool1).
  set (x := handle ex_idle ex_idle (λ _, w) (ClearAssignment k1 None) w).
  eapply (calls_never_orphan (H:=ex_key_env) ex_idle ex_idle w w (ClearAssignment k1 None) "root@pam" x.1 x.2
            ex_pool1 {[ k1 := ex_entry k1 PPve None false ]}).
  - reflexivity.
  - intros x' _. reflexivity.
  - intros _. reflexivity.
  - apply surjective_pairing.
  - intros Hd. apply (f_equal (λ d : dir, d !! KEYS_CFG)) in Hd. by vm_compute in Hd.
  - apply pool_ex_disk.
  - vm_compute. reflexivity.
  - vm_compute. reflexivity.
  - intros Hb. vm_compute in Hb. discriminate Hb.
Defined.

Lemma calls_authorised_witness :
  priv_modify ex_idle "root@pam" "pve" = true ∨ priv_modify ex_idle "root@pam" "pve" = true.
Proof.
  set (w := ex_world ex_pool1).
  set (x := handle ex_idle ex_idle (λ _, w) (QueueClear "pve" "a" None) w).
  apply (calls_authorised (H:=ex_key_env) ex_idle ex_idle w w (QueueClear "pve" "a" None) "root@pam" x.1 x.2
           ex_pool1 (bound_k1 true) k1 (ex_entry k1 PPve (Some ("pve", "a")) true)).
  - reflexivity.
  - apply surjective_pairing.
  - intros Hd. apply (f_equal (λ d : dir, d !! KEYS_CFG)) in Hd. by vm_compute in Hd.
  - apply pool_ex_disk.
  - vm_compute. reflexivity.
  - intros Hb. vm_compute in Hb. discriminate Hb.
  - right. vm_compute. reflexivity.
  - vm_compute. reflexivity.
Defined.

Lemma worker_calls_justified_witness :
  ∃ p c e, planned ex_remotes p = Some (PveSet "pve" "a" k1)
    ∧ priv_modify ex_idle "root@pam" (pe_remote p) = true
    ∧ pool (disk (ex_world ex_pool1)) = Some c ∧ sd_get c (pe_key p) = Some e
    ∧ binding e = Some (pe_remote p, pe_node p) ∧ pending_clear e = is_clear (pe_op p).
Proof.
  set (w := ex_world ex_pool1).
  set (x := run_apply_pending ex_idle (λ _ _, w) (λ _ w, w) "root@pam" w).
  apply (worker_calls_justified (H:=ex_key_env) ex_idle (λ _, w) (λ _ w, w) "root@pam" ex_remotes w x.1.1 x.1.2 x.2).
  - reflexivity.
  - unfold x. by destruct (run_apply_pending _ _ _ _ _) as [[? ?] ?].
  - assert (calls x.1.2 = [PveSet "pve" "a" k1]) as -> by (vm_compute; reflexivity). apply list_elem_of_here.
Defined.

Definition ex_statuses : list RemoteNodeStatus := collect_status_uncached ex_idle ex_remotes.
Lemma ex_own_keys : clears_own_keys ex_statuses (plan ex_idle "root@pam" ex_statuses ex_pool2).
Proof.
  intros p s _ _ Hs _ _. assert (Forall (λ s, ns_current_key s = None) ex_statuses) as Hf by (vm_compute; repeat constructor).
  by rw (proj1 (Forall_forall _ _) Hf s Hs).
Qed.
Lemma worker_drains_plan_witness :
  ∃ r t w' c', run_apply_pending ex_idle (λ _ w, w) (λ _ w, w) "root@pam" (ex_world ex_pool2) = (r, t, w')
    ∧ calls t = [PveSet "pve" "a" k1; PbsDelete "pbs"] ∧ pool (disk w') = Some c' ∧ r = Ok ().
Proof.
  destruct (worker_drains_plan (H:=ex_key_env) ex_idle "root@pam" ex_remotes (ex_world ex_pool2) ex_pool2)
    as (r & t & w' & c' & Hr & Ht & Hc & _ & _ & Hres).
  - intros i. reflexivity.
  - apply pool_ex_disk.
  - apply pool_ok_wf. by vm_compute.
  - apply ex_writes.
  - reflexivity.
  - apply ex_own_keys.
  - exists r, t, w', c'. split_and!; [done | | done |]; [by rw Ht; vm_compute |].
    vm_compute in Hres. done.
Defined.

Lemma proposals_are_greedy_witness :
  NoDup (pa_key <$> compute_proposals (H:=ex_key_env) ex_pool2
           [node_row "pve" Pve "b" (Some (ex_info NotFoundStatus (Some 4%Z) None)) None false]).
Proof. by destruct (proposals_are_greedy (H:=ex_key_env) ex_pool2 [node_row "pve" Pve "b" (Some (ex_info NotFoundStatus (Some 4%Z) None)) None false])
  as (ts & _ & _ & _ & Hnd & _). Defined.

Lemma preview_commits_witness :
  ∃ w1 w' d (prop : AutoAssignProposal), length (assignments prop) = 1
    ∧ bulk_assign ex_idle ex_idle (λ w, w) prop w1
      = (Ok (base.filter (accepted ex_idle "root@pam") (assignments prop), d), w').
Proof.
  set (w := ex_world ex_pool2).
  destruct (auto_assign ex_idle w) as [[prop|er] w1] eqn:Hx.
  2:{ apply (f_equal (λ y, is_ok y.1)) in Hx. vm_compute in Hx. discriminate Hx. }
  destruct (preview_commits (H:=ex_key_env) ex_idle "root@pam" ex_remotes w ex_pool2 prop w1) as (d & w' & c' & Hb & _).
  - intros i. reflexivity.
  - reflexivity.
  - reflexivity.
  - apply (bool_decide_unpack _). by vm_compute.
  - apply pool_ex_disk.
  - apply ex_writes.
  - exact Hx.
  - exists w1, w', d, prop. split; [| exact Hb].
    apply (f_equal (λ y, match y.1 with Ok p => length (assignments p) | Err _ => 0 end)) in Hx.
    rw -[length _]Hx. vm_compute. reflexivity.
Defined.

Lemma add_keys_all_or_nothing_witness :
  ∃ added dup d w', add_keys (λ w, w) [k1; k2; k1] None (ex_world ∅) = (Ok (added, dup, Some d), w')
    ∧ (added + dup)%Z = 3%Z.
Proof.
  destruct (add_keys_all_or_nothing (H:=ex_key_env) (ex_world ∅) ∅ [k1; k2; k1] None)
    as [(k & msg & w' & Hk & Hg & _)|(added & dup & d & w' & c' & _ & Hr & Hs & _)].
  - intros i. reflexivity.
  - apply pool_ex_disk.
  - apply ex_writes.
  - discriminate.
  - apply forallb_Forall_true. vm_compute. reflexivity.
  - reflexivity.
  - simpl in Hg. rw lookup_empty in Hg. by destruct Hg.
  - exists added, dup, d, w'. exact (conj Hr Hs).
Defined.

Lemma queue_revert_roundtrip_witness :
  ∃ d1 w1 d2 w2, queue_clear ex_idle (λ w, w) "pve" "a" None (ex_world ex_pool1) = (Ok d1, w1)
    ∧ revert_pending_clear ex_idle (λ w, w) "pve" "a" d1 w1 = (Ok d2, w2).
Proof.
  destruct (queue_revert_roundtrip (H:=ex_key_env) ex_idle "root@pam" (ex_world ex_pool1) ex_pool1 "pve" "a" k1
              (ex_entry k1 PPve (Some ("pve", "a")) false) None)
    as (d1 & w1 & c1 & d2 & w2 & c2 & H1 & _ & _ & H2 & _).
  - intros i. reflexivity.
  - reflexivity.
  - reflexivity.
  - apply pool_ex_disk.
  - apply pool_ok_wf. vm_compute. reflexivity.
  - apply ex_writes.
  - reflexivity.
  - vm_compute. reflexivity.
  - reflexivity.
  - reflexivity.
  - exists d1, w1, d2, w2. exact (conj H1 H2).
Defined.

(** Node pve/b runs a key the pool does not know. *)
Definition ex_unmanaged : env :=
  ex_env {[ "pve" := {[ "b" := Some (ex_info Active (Some 4%Z) (Some k2)) ]} ]}.

Lemma adopt_key_sound_witness :
  ∃ c', pool (disk (adopt_key ex_unmanaged (λ _, ex_world ex_pool1) "pve" "b" None (ex_world ex_pool1)).2) = Some c'
    ∧ bound_in (H:=ex_key_env) c' k2 "pve" "b".
Proof.
  set (w := ex_world ex_pool1).
  destruct (adopt_key ex_unmanaged (λ _, w) "pve" "b" None w) as [[d|er] w'] eqn:Hx.
  2:{ apply (f_equal (λ y, is_ok y.1)) in Hx. vm_compute in Hx. discriminate Hx. }
  destruct (adopt_key_sound (H:=ex_key_env) ex_unmanaged w w "pve" "b" None d w' Hx)
    as (k & c & c' & e' & live & info & Hl & Hi & Hk & _ & _ & Hc' & _ & He & Hb & _).
  exists c'. split; [exact Hc' |].
  assert (k = k2) as ->.
  { vm_compute in Hl. injection Hl as <-. vm_compute in Hi. injection Hi as <-. vm_compute in Hk.
    injection Hk as <-. reflexivity. }
  unfold bound_in. rw He. exact Hb.
Defined.

Lemma clear_pending_discards_witness :
  ∃ d w', clear_pending ex_idle (λ w, w) None (ex_world ex_pool2) = (Ok (2%Z, d), w').
Proof.
  destruct (clear_pending_discards (H:=ex_key_env) ex_idle "root@pam" ex_remotes (ex_world ex_pool2) ex_pool2 None)
    as (d & w' & c' & Hr & _).
  - intros i. reflexivity.
  - reflexivity.
  - reflexivity.
  - apply pool_ex_disk.
  - apply pool_ok_wf. vm_compute. reflexivity.
  - apply ex_writes.
  - reflexivity.
  - exists d, w'. etransitivity; [exact Hr |]. f_equal.
Defined.

Lemma list_keys_total_witness :
  ∃ l d w', list_keys ex_idle (ex_world ex_pool2) = (Ok (l, d), w')
    ∧ Forall (λ e, (2 ≤ level_rank (level e))%Z) l.
Proof.
  destruct (list_keys_total (H:=ex_key_env) ex_idle "root@pam" (ex_world ex_pool2) ex_pool2)
    as (l & w' & Hr & _ & _ & Hl).
  - intros i. reflexivity.
  - reflexivity.
  - apply pool_ex_disk.
  - apply pool_ok_wf. vm_compute. reflexivity.
  - eexists l, _, w'. exact (conj Hr Hl).
Defined.

Lemma valid_key_facts_witness : ∃ lv, level_from_key (Some k1) = Some lv ∧ (2 ≤ level_rank lv)%Z.
Proof. apply (valid_key_facts k1). vm_compute. reflexivity. Defined.

Lemma redact_key_hides_witness : redact_key "pve2p-0123456789" = redact_key "pve2p-0aaaaaaaa9".
Proof. apply (redact_key_hides "pve2p" "0123456789" "0aaaaaaaa9"); try reflexivity; simpl; lia. Defined.
