(* ===== verification/ApiCache.v ===== *)
(** * The API cache

    server/src/namespaced_cache.rs with the namespaces of server/src/api_cache.rs, and the
    cached subscription state of server/src/api/resources.rs.  A cache entry is a file
    [<namespace>/<key>.json] with a timestamp and a value; a namespace is locked for each
    operation, so operations run one after the other.  The blocking and the async interface call
    the same functions.

    The identifier pattern and serde_json are parameters.  A value can lose parts when it is
    written (fields that are skipped); [stored] is what reads back. *)
From S2P Require Import Prelude RustStr Disk.

#[local] Open Scope string_scope.

Inductive CacheError :=
| CIo (e : error)
| CSerde
| InvalidKey (k : string)
| InvalidNamespace (n : string).

Record CacheEntry (V : Type) := { timestamp : Z; value : V }.
Arguments timestamp {_} _.
Arguments value {_} _.

Class CacheEnv (V : Type) := {
  safe_id : string → bool;                       (* SAFE_ID_REGEX.is_match *)
  entry_from_str : file → option (CacheEntry V); (* serde_json::from_str *)
  entry_to_vec : CacheEntry V → option file;     (* serde_json::to_vec *)
  stored : V → V;
}.

(** Identifiers have no slash, and an entry reads back as it was written. *)
Class CacheLaws (V : Type) `{CacheEnv V} : Prop := {
  safe_id_slash s : safe_id s = true → has_char "/" s = false;
  entry_round e f :
    entry_to_vec e = Some f →
    entry_from_str f = Some {| timestamp := timestamp e; value := stored (value e) |};
}.

(** ** Errors and effects *)
Definition Cached (A : Type) : Type := world → result CacheError A * world.

Global Instance Cached_ret : MRet Cached := λ _ a w, (Ok a, w).
Global Instance Cached_bind : MBind Cached := λ _ _ f m w,
  match m w with
  | (Ok a, w') => f a w'
  | (Err e, w') => (Err e, w')
  end.
Definition cfail {A} (e : CacheError) : Cached A := λ w, (Err e, w).
Definition cio {A} (m : IO A) : Cached A := λ w,
  match m w with (Ok a, w') => (Ok a, w') | (Err e, w') => (Err (CIo e), w') end.
(** A [match] on a result instead of [?]. *)
Definition catch {A} (m : Cached A) : Cached (result CacheError A) := λ w,
  let '(r, w') := m w in (Ok r, w').

(** ** Paths, relative to the base directory *)
Definition get_path (namespace k : string) : string := namespace ++ "/" ++ k ++ ".json".
Definition get_lockfile (namespace : string) : string := "." ++ namespace ++ ".lock".

Section cache.
Context {V : Type} `{CacheEnv V}.

Definition ensure_valid_key (k : string) : Cached () :=
  if safe_id k then mret () else cfail (InvalidKey k).
Definition ensure_valid_namespace (n : string) : Cached () :=
  if safe_id n then mret () else cfail (InvalidNamespace n).

(** [write] and [read]: check the name and lock the namespace for what follows. *)
Definition with_namespace {A} (namespace : string) (m : Cached A) : Cached A :=
  _ ← ensure_valid_namespace namespace;
  _ ← cio syscall; (* open_file_locked *)
  m.

Definition is_expired (e : CacheEntry V) (now max_age : Z) : bool :=
  if (max_age =? 0)%Z then true
  else let diff := i64 (now - timestamp e) in (max_age <=? diff)%Z || (diff <? 0)%Z.

Definition get_from_path (now : Z) (path : string) (max_age : option Z)
    : Cached (option (CacheEntry V)) :=
  content ← cio (file_read_optional_string path);
  match content with
  | None => mret None
  | Some content =>
      match entry_from_str content with
      | None => cfail CSerde
      | Some val =>
          match max_age with
          | Some max_age => if is_expired val now max_age then mret None else mret (Some val)
          | None => mret (Some val)
          end
      end
  end.

Definition get_impl (now : Z) (namespace k : string) (max_age : option Z) : Cached (option V) :=
  _ ← ensure_valid_key k;
  if bool_decide (max_age = Some 0%Z) then mret None
  else
    e ← get_from_path now (get_path namespace k) max_age;
    mret (value <$> e).

Definition set_at_path (path : string) (v : V) (ts : Z) : Cached () :=
  _ ← cio syscall; (* create_path *)
  match entry_to_vec {| timestamp := ts; value := v |} with
  | None => cfail CSerde
  | Some data => cio (fs_replace path data)
  end.

Definition set_impl (namespace k : string) (v : V) (ts : Z) : Cached () :=
  _ ← ensure_valid_key k;
  set_at_path (get_path namespace k) v ts.

Definition set_if_newer_impl (namespace k : string) (v : V) (ts : Z) : Cached (option V) :=
  _ ← ensure_valid_key k;
  let path := get_path namespace k in
  r ← catch (get_from_path 0%Z path None);
  let set := (_ ← set_at_path path v ts; mret None) : Cached (option V) in
  match r with
  | Ok (Some existing) => if (ts <? timestamp existing)%Z then mret (Some (value existing)) else set
  | Ok None | Err CSerde => set
  | Err err => cfail err
  end.

Definition remove_impl (namespace k : string) : Cached () :=
  _ ← ensure_valid_key k;
  r ← catch (cio (fs_remove (get_path namespace k)));
  match r with
  | Ok _ => mret ()
  | Err (CIo e) => match kind e with NotFound => mret () | OtherIo => cfail (CIo e) end
  | Err e => cfail e
  end.

(** ** Namespaces *)
Definition GLOBAL_NAMESPACE : string := "global".

(** ** The cached subscription state of a remote *)
Definition format_remote_namespace (remote : string) : string := "remote-" ++ remote.
Definition SUBSCRIPTION_STATE_CACHE_KEY : string := "subscription-state".

Definition REMOTE_RESOURCES_CACHE_KEY : string := "resources".

(** What the code does for the subscription state and, in the same words, for the resources of a
    remote; [key] is the cache key.  Reading errors are logged and count as a miss; a lock error
    is returned. *)
Definition get_cached_value (key : string) (now : Z) (remote : string) (max_age : Z) : Cached (option V) :=
  with_namespace (format_remote_namespace remote)
    (r ← catch (get_impl now (format_remote_namespace remote) key (Some (i64 max_age)));
     mret (match r with Ok v => v | Err _ => None end)).
Definition update_cached_value (key remote : string) (v : V) (now : Z) : Cached (option V) :=
  with_namespace (format_remote_namespace remote) (set_if_newer_impl (format_remote_namespace remote) key v now).

Definition get_cached_subscription_info := get_cached_value SUBSCRIPTION_STATE_CACHE_KEY.
Definition update_cached_subscription_info := update_cached_value SUBSCRIPTION_STATE_CACHE_KEY.
Definition get_cached_resources := get_cached_value REMOTE_RESOURCES_CACHE_KEY.
Definition update_cached_resources := update_cached_value REMOTE_RESOURCES_CACHE_KEY.

(** Errors are logged. *)
Definition invalidate_subscription_info_for_remote (remote : string) : Cached () :=
  _ ← catch (with_namespace (format_remote_namespace remote)
               (remove_impl (format_remote_namespace remote) SUBSCRIPTION_STATE_CACHE_KEY));
  mret ().

(** [fetch] is the answer of the remote, [now] and [now'] are the times before and after it. *)
Definition get_value_for_remote (key : string) (now now' : Z) (fetch : result error V)
    (remote : string) (max_age : Z) : Cached V :=
  c ← get_cached_value key now remote max_age;
  match c with
  | Some v => mret v
  | None =>
      v ← cio (λ w, (fetch, w));
      existing ← update_cached_value key remote v now';
      mret (default v existing)
  end.
Definition get_subscription_info_for_remote := get_value_for_remote SUBSCRIPTION_STATE_CACHE_KEY.
Definition get_resources_for_remote := get_value_for_remote REMOTE_RESOURCES_CACHE_KEY.

(** The cache is updated but not read; what it held does not matter. *)
Definition fetch_complete_subscription_info_for_remote (now' : Z) (fetch : result error V) (remote : string)
    : Cached V :=
  v ← cio (λ w, (fetch, w));
  _ ← update_cached_subscription_info remote v now';
  mret v.

(** ** What a reader sees *)
Definition cached (d : dir) (namespace k : string) : option (CacheEntry V) :=
  d !! get_path namespace k ≫= entry_from_str.

Context `{!CacheLaws V}.

Lemma get_path_inj n k n' k' :
  safe_id n = true → safe_id n' = true → get_path n k = get_path n' k' → n = n' ∧ k = k'.
Proof.
  intros Hn%safe_id_slash Hn'%safe_id_slash Heq. unfold get_path in Heq.
  assert (split_once "/" (n ++ String "/" (k ++ ".json")) = split_once "/" (n' ++ String "/" (k' ++ ".json")))
    as Hs by by f_equal.
  rw !split_once_app // in Hs. injection Hs as -> Hk. split; [done |].
  assert (strip_suffix ".json" (k ++ ".json") = strip_suffix ".json" (k' ++ ".json")) as Hk' by by rw Hk.
  rw !strip_suffix_app in Hk'. by injection Hk'.
Qed.

(** A lock file is no entry. *)
Lemma get_path_lockfile n k n' : safe_id n' = true → get_path n k ≠ get_lockfile n'.
Proof.
  intros Hn%safe_id_slash Heq. assert (has_char "/" (get_path n k) = false) as Hf.
  { rw Heq. unfold get_lockfile. rw (has_char_app _ ".") (has_char_app _ n') Hn. done. }
  unfold get_path in Hf. rw (has_char_app _ n) (has_char_app _ "/") orb_true_r in Hf. done.
Qed.

(** *** Inversion *)
Lemma cached_bind_inv {A B} (m : Cached A) (f : A → Cached B) w r w' :
  (m ≫= f) w = (r, w') →
  (∃ a w1, m w = (Ok a, w1) ∧ f a w1 = (r, w')) ∨ (∃ e, m w = (Err e, w') ∧ r = Err e).
Proof.
  unfold mbind, Cached_bind. destruct (m w) as [[a|e] w1] eqn:E; [| naive_solver].
  intros Hr. left. by exists a, w1.
Qed.

Lemma syscall_inv w r w' : cio syscall w = (r, w') → disk w' = disk w.
Proof. unfold cio, syscall. destruct (faults w (tick w)); by intros [= <- <-]. Qed.

Lemma read_inv path w r w' :
  cio (file_read_optional_string path) w = (r, w') →
  disk w' = disk w ∧ ∀ c, r = Ok c → c = disk w !! path.
Proof.
  unfold cio, file_read_optional_string, attempt, fs_open, syscall, get_disk, enoent, fail, mbind, IO_bind, mret, IO_ret.
  simpl. destruct (faults w (tick w)); simpl; [intros [= <- <-]; split; done |].
  destruct (disk w !! path); intros [= <- <-]; naive_solver.
Qed.

Lemma valid_key_inv k w r w' :
  ensure_valid_key k w = (r, w') →
  w' = w ∧ (r = Ok () ∧ safe_id k = true ∨ r = Err (InvalidKey k) ∧ safe_id k = false).
Proof. unfold ensure_valid_key. destruct (safe_id k); intros [= <- <-]; auto. Qed.

(** A read returns what is there, or fails and says why. *)
Lemma get_from_path_inv now path max_age w r w' :
  get_from_path now path max_age w = (r, w') →
  disk w' = disk w
  ∧ match r with
    | Ok None => disk w !! path = None
        ∨ ∃ e a, disk w !! path ≫= entry_from_str = Some e ∧ max_age = Some a ∧ is_expired e now a = true
    | Ok (Some e) => disk w !! path ≫= entry_from_str = Some e
        ∧ ∀ a, max_age = Some a → is_expired e now a = false
    | Err CSerde => is_Some (disk w !! path) ∧ disk w !! path ≫= entry_from_str = None
    | Err (CIo _) => True
    | Err _ => False
    end.
Proof.
  unfold get_from_path. intros [(c & w1 & Hc & Hr)|(e & He & ->)]%cached_bind_inv.
  - apply read_inv in Hc as [Hd Hc]. specialize (Hc c eq_refl). subst c.
    destruct (disk w !! path) as [f|] eqn:Hf; simpl in *; [| injection Hr as <- <-; by auto].
    destruct (entry_from_str f) as [val|] eqn:Hv; [| injection Hr as <- <-; by eauto].
    destruct max_age as [a|]; [destruct (is_expired val now a) eqn:Hx |];
      injection Hr as <- <-; (split; [done |]); [right; by exists val, a | split; naive_solver | done].
  - unfold cio in He. destruct (file_read_optional_string path w) as [[c|er] w1] eqn:E; [done |].
    injection He as <- <-. split; [| done].
    assert (cio (file_read_optional_string path) w = (Err (CIo er), w1)) as Hc by (unfold cio; by rw E).
    by apply read_inv in Hc as [? _].
Qed.

(** A write replaces one file or changes nothing. *)
Lemma set_at_path_inv path v ts w r w' :
  set_at_path path v ts w = (r, w') →
  match r with
  | Ok _ => ∃ data, entry_to_vec {| timestamp := ts; value := v |} = Some data
              ∧ disk w' = <[path := data]> (disk w)
  | Err _ => disk w' = disk w
  end.
Proof.
  unfold set_at_path. intros [(u & w1 & Hu%syscall_inv & Hr)|(e & He%syscall_inv & ->)]%cached_bind_inv; [| done].
  destruct (entry_to_vec _) as [data|] eqn:Hd; [| injection Hr as <- <-; done].
  unfold cio, fs_replace, syscall, get_disk, put_disk, mbind, IO_bind in Hr. simpl in Hr.
  destruct (faults w1 (tick w1)); injection Hr as <- <-; [done |]. exists data. split; [done |]. simpl. by rw Hu.
Qed.

(** The value a read with maximum age [age] returns. *)
Definition fresh_value (e : CacheEntry V) (now : Z) (age : option Z) : option V :=
  match age with
  | Some a => if is_expired e now a then None else Some (value e)
  | None => Some (value e)
  end.

Lemma get_impl_inv now n k age w r w' e :
  get_impl now n k age w = (r, w') →
  disk w' = disk w
  ∧ (safe_id k = true → cached (disk w) n k = Some e →
     match r with Ok x => x = fresh_value e now age | Err er => ∃ io, er = CIo io end).
Proof.
  unfold get_impl. intros [(u & w3 & [-> Hk]%valid_key_inv & Hget)|(er & [-> Hk]%valid_key_inv & ->)]%cached_bind_inv.
  2:{ split; [done |]. intros Hs _. destruct Hk as [[[=] _]|[[= ->] Hs']]. congruence. }
  case_bool_decide as Ha.
  { injection Hget as <- <-. split; [done |]. intros _ _. by subst age. }
  apply cached_bind_inv in Hget as [(o & w4 & [Hd He]%get_from_path_inv & [= <- <-])|(er & [Hd He]%get_from_path_inv & ->)];
    (split; [done |]); intros _ Hc; unfold cached in Hc.
  - destruct o as [e'|]; simpl.
    + destruct He as [He Hx]. rw Hc in He. injection He as <-. unfold fresh_value.
      destruct age as [a|]; [by rw (Hx a) | done].
    + destruct He as [He|(e' & a & He & -> & Hx)]; [by rw He in Hc |].
      rw Hc in He. injection He as <-. simpl. by rw Hx.
  - destruct er; [eauto | | done | done]. destruct He as [_ He]. by rw Hc in He.
Qed.

Definition updated (d d' : dir) (n k : string) (e : CacheEntry V) : Prop :=
  cached d' n k = Some e
  ∧ ∀ n' k', safe_id n' = true → (n', k') ≠ (n, k) → cached d' n' k' = cached d n' k'.

Lemma updated_insert d n k v ts data :
  safe_id n = true → entry_to_vec {| timestamp := ts; value := v |} = Some data →
  updated d (<[get_path n k := data]> d) n k {| timestamp := ts; value := stored v |}.
Proof.
  intros Hn Hd. apply entry_round in Hd. split; unfold cached; [by rw lookup_insert_eq |].
  intros n' k' Hn' Hne. rw lookup_insert_ne; [| done].
  intros Heq. apply Hne. by apply get_path_inj in Heq as [-> ->].
Qed.

Lemma with_namespace_inv {A} n (m : Cached A) w r w' :
  with_namespace n m w = (r, w') →
  (disk w' = disk w ∧ ∃ e, r = Err e) ∨ (safe_id n = true ∧ ∃ w1, disk w1 = disk w ∧ m w1 = (r, w')).
Proof.
  unfold with_namespace, ensure_valid_namespace. destruct (safe_id n).
  - intros [(u & w1 & [= _ <-] & Hr)|(e & [=] & _)]%cached_bind_inv.
    apply cached_bind_inv in Hr as [(u' & w1 & Hu%syscall_inv & Hr)|(e & He%syscall_inv & ->)]; [| eauto].
    right. split; [done |]. by exists w1.
  - intros [(u & w1 & [=] & Hr)|(e & [= _ <-] & ->)]%cached_bind_inv. eauto.
Qed.

Lemma set_impl_inv n k v ts w r w' :
  safe_id n = true → set_impl n k v ts w = (r, w') →
  match r with
  | Ok _ => safe_id k = true
      ∧ updated (disk w) (disk w') n k {| timestamp := ts; value := stored v |}
  | Err _ => disk w' = disk w
  end.
Proof.
  intros Hn. unfold set_impl.
  intros [(u & w3 & [-> Hk]%valid_key_inv & Hs)|(er & [-> Hk]%valid_key_inv & ->)]%cached_bind_inv; [| done].
  apply set_at_path_inv in Hs. destruct r; [| done]. destruct Hs as (data & Hd & ->).
  split; [by destruct Hk as [[_ ?]|[? _]] |]. by apply updated_insert.
Qed.

Lemma set_if_newer_inv n k v ts w r w' :
  safe_id n = true → set_if_newer_impl n k v ts w = (r, w') →
  match r with
  | Ok None => (∀ e, cached (disk w) n k = Some e → (timestamp e ≤ ts)%Z)
      ∧ updated (disk w) (disk w') n k {| timestamp := ts; value := stored v |}
  | Ok (Some x) => disk w' = disk w
      ∧ ∃ e, cached (disk w) n k = Some e ∧ (ts < timestamp e)%Z ∧ x = value e
  | Err _ => disk w' = disk w
  end.
Proof.
  intros Hn. unfold set_if_newer_impl.
  intros [(u & w1 & [-> Hk]%valid_key_inv & Hr)|(er & [-> Hk]%valid_key_inv & ->)]%cached_bind_inv; [| done].
  apply cached_bind_inv in Hr as [(x & w2 & Hx & Hr)|(er & Her & _)].
  2:{ unfold catch in Her. by destruct (get_from_path _ _ _ w). }
  unfold catch in Hx. destruct (get_from_path 0%Z (get_path n k) None w) as [x' w2'] eqn:Hg.
  injection Hx as -> ->. apply get_from_path_inv in Hg as [Hd Hg].
  assert (∀ r0, (_ ← set_at_path (get_path n k) v ts; mret (None : option V)) w2 = (r0, w') →
    match r0 with
    | Ok None => updated (disk w) (disk w') n k {| timestamp := ts; value := stored v |}
    | Ok (Some x) => False
    | Err _ => disk w' = disk w
    end) as Hset.
  { intros r0 [(u' & w3 & Hs%set_at_path_inv & [= <- <-])|(er & Hs%set_at_path_inv & ->)]%cached_bind_inv;
      [| by rw Hs Hd]. destruct Hs as (data & Hdat & ->). rw Hd. by apply updated_insert. }
  destruct x as [[e|]|er].
  - destruct Hg as [He _]. destruct (Z.ltb_spec ts (timestamp e)) as [Hlt|Hge].
    + injection Hr as <- <-. split; [done |]. by exists e.
    + specialize (Hset r Hr). destruct r as [[x|]|]; [done | | done]. split; [| done].
      intros e'. unfold cached. rw He. by intros [= <-].
  - specialize (Hset r Hr). destruct r as [[x|]|]; [done | | done]. split; [| done].
    intros e'. unfold cached. destruct Hg as [Hg|(? & ? & _ & [=] & _)]. by rw Hg.
  - destruct er; try (injection Hr as <- <-; exact Hd).
    specialize (Hset r Hr). destruct r as [[x|]|]; [done | | done]. split; [| done].
    intros e'. unfold cached. destruct Hg as [_ Hg]. by rw Hg.
Qed.

(** *** Whole queries *)
Abbreviation state_of d r :=
  (cached d (format_remote_namespace r) SUBSCRIPTION_STATE_CACHE_KEY).

Lemma get_impl_disk now n k age w r w' : get_impl now n k age w = (r, w') → disk w' = disk w.
Proof.
  unfold get_impl. intros [(u & w1 & [-> _]%valid_key_inv & Hr)|(er & [-> _]%valid_key_inv & _)]%cached_bind_inv;
    [| done]. case_bool_decide; [by injection Hr as _ <- |].
  apply cached_bind_inv in Hr as [(o & w2 & [Hd _]%get_from_path_inv & [= _ <-])|(er & [Hd _]%get_from_path_inv & _)];
    done.
Qed.

Lemma get_impl_some now n k age w x w' :
  get_impl now n k age w = (Ok (Some x), w') →
  disk w' = disk w ∧ ∃ e, cached (disk w) n k = Some e ∧ fresh_value e now age = Some x.
Proof.
  intros Hr. pose proof Hr as Hr'. unfold get_impl in Hr.
  apply cached_bind_inv in Hr as [(u & w1 & [-> Hk]%valid_key_inv & Hr)|(er & _ & [=])].
  case_bool_decide; [done |].
  apply cached_bind_inv in Hr as [(o & w2 & [Hd He]%get_from_path_inv & Hr)|(er & _ & [=])].
  destruct o as [e|]; [| done]. injection Hr as <- <-. split; [done |]. destruct He as [He Hx].
  exists e. split; [done |]. unfold fresh_value. destruct age as [a|]; [by rw (Hx a) | done].
Qed.

Lemma get_cached_inv key now remote max_age w r w' :
  get_cached_value key now remote max_age w = (r, w') →
  disk w' = disk w
  ∧ ∀ x, r = Ok (Some x) →
      ∃ e, cached (disk w) (format_remote_namespace remote) key = Some e ∧ fresh_value e now (Some (i64 max_age)) = Some x.
Proof.
  unfold get_cached_value.
  intros [[Hd [e ->]]|(_ & w1 & Hd1 & Hr)]%with_namespace_inv; [done |].
  apply cached_bind_inv in Hr as [(y & w2 & Hy & [= <- <-])|(er & Her & ->)];
    [| unfold catch in Her; by destruct (get_impl _ _ _ _ w1)].
  unfold catch in Hy. destruct (get_impl _ _ _ _ w1) as [y' w2'] eqn:Hg. injection Hy as -> ->.
  pose proof (get_impl_disk _ _ _ _ _ _ _ Hg) as Hd2.
  rw Hd2 Hd1. split; [done |]. intros x Hx. destruct y as [y|]; [| done]. injection Hx as ->.
  apply get_impl_some in Hg as [_ He]. by rw Hd1 in He.
Qed.

(** Where an answer came from: a fresh entry of the cache, the remote, or an entry that is newer
    than the query of the remote *)
Definition answer_source (key : string) (now now' : Z) (fetch : result error V) (remote : string) (max_age : Z)
    (d d' : dir) (v : V) : Prop :=
  (∃ e, cached d (format_remote_namespace remote) key = Some e ∧ is_expired e now (i64 max_age) = false
        ∧ v = value e ∧ d' = d)
  ∨ (∃ x, fetch = Ok x
      ∧ ((v = x ∧ updated d d' (format_remote_namespace remote) key {| timestamp := now'; value := stored x |})
         ∨ (∃ e, cached d (format_remote_namespace remote) key = Some e ∧ (now' < timestamp e)%Z ∧ v = value e
                 ∧ d' = d))).

Lemma get_value_inv key now now' fetch remote max_age w v w' :
  get_value_for_remote key now now' fetch remote max_age w = (Ok v, w') →
  answer_source key now now' fetch remote max_age (disk w) (disk w') v.
Proof.
  unfold get_value_for_remote.
  intros [(c & w1 & [Hd1 Hc]%get_cached_inv & Hr)|(e & _ & [=])]%cached_bind_inv.
  destruct c as [x|].
  - left. injection Hr as <- <-. destruct (Hc x eq_refl) as (e & He & Hf). exists e.
    unfold fresh_value in Hf. destruct (is_expired e now (i64 max_age)); [done |]. by injection Hf as <-.
  - right. apply cached_bind_inv in Hr as [(x & w2 & Hx & Hr)|(e & _ & [=])].
    unfold cio in Hx. destruct fetch as [x'|]; [| done]. injection Hx as -> <-. exists x. split; [done |].
    apply cached_bind_inv in Hr as [(o & w3 & Ho & [= <- <-])|(e & _ & [=])].
    unfold update_cached_value in Ho.
    apply with_namespace_inv in Ho as [[_ [e [=]]]|(Hs & w4 & Hd4 & Ho)].
    apply set_if_newer_inv in Ho; [| done]. rw Hd4 Hd1 in Ho. destruct o as [y|].
    + right. destruct Ho as [Hd (e & He & Hlt & ->)]. by exists e.
    + left. by destruct Ho as [_ Hu].
Qed.
End cache.

(** ** Properties *)
Section props.
Context {V : Type} `{CacheLaws V}.

(** C39: A value that was set is read back.  Whatever file operations fail, a successful [set] of a
    key is the only change a reader of any valid namespace can see, and a later read of that
    key returns the value unless it has expired, or fails with an I/O error; it never returns
    another value and never finds the file undecodable.  A failed [set] changes nothing. *)
Theorem cache_set_get n k v ts now age w r w1 r' w2 :
  safe_id n = true → set_impl n k v ts w = (r, w1) → get_impl now n k age w1 = (r', w2) →
  disk w2 = disk w1
  ∧ match r with
    | Err _ => disk w1 = disk w
    | Ok _ =>
        updated (disk w) (disk w1) n k {| timestamp := ts; value := stored v |}
        ∧ match r' with
          | Ok x => x = fresh_value {| timestamp := ts; value := stored v |} now age
          | Err e => ∃ io, e = CIo io
          end
    end.
Proof.
  intros Hn Hset Hget. apply set_impl_inv in Hset; [| done].
  pose proof (get_impl_inv _ _ _ _ _ _ _ {| timestamp := ts; value := stored v |} Hget) as [Hd Hg].
  split; [done |]. destruct r; [| done]. destruct Hset as [Hk Hu]. split; [done |].
  apply Hg; [done | apply Hu].
Qed.

(** [set_if_newer] never replaces a newer entry.  Whatever fails, it either stores the value,
    and then the entry it replaced was not newer, or returns the strictly newer entry it found,
    or fails; in the last two cases nothing changes. *)
Theorem set_if_newer_monotone n k v ts w r w' :
  safe_id n = true → set_if_newer_impl n k v ts w = (r, w') →
  match r with
  | Ok None => (∀ e, cached (disk w) n k = Some e → (timestamp e ≤ ts)%Z)
      ∧ updated (disk w) (disk w') n k {| timestamp := ts; value := stored v |}
  | Ok (Some x) => disk w' = disk w
      ∧ ∃ e, cached (disk w) n k = Some e ∧ (ts < timestamp e)%Z ∧ x = value e
  | Err _ => disk w' = disk w
  end.
Proof. apply set_if_newer_inv. Qed.

Abbreviation state_of d r :=
  (cached d (format_remote_namespace r) SUBSCRIPTION_STATE_CACHE_KEY).

(** The subscription state of a remote comes from the cache only while the entry is fresh,
    otherwise from the remote: an answer is a cached entry younger than [max_age], or what the
    remote just said (which is then cached with the time of the query), or an entry with a later
    timestamp than that query. *)
Theorem subscription_info_sources now now' fetch remote max_age w v w' :
  get_subscription_info_for_remote now now' fetch remote max_age w = (Ok v, w') →
  (∃ e, state_of (disk w) remote = Some e ∧ is_expired e now (i64 max_age) = false
        ∧ v = value e ∧ disk w' = disk w)
  ∨ (∃ x, fetch = Ok x
      ∧ ((v = x ∧ updated (disk w) (disk w') (format_remote_namespace remote)
                    SUBSCRIPTION_STATE_CACHE_KEY {| timestamp := now'; value := stored x |})
         ∨ (∃ e, state_of (disk w) remote = Some e ∧ (now' < timestamp e)%Z ∧ v = value e
                 ∧ disk w' = disk w))).
Proof. apply get_value_inv. Qed.

(** The same for the resources of a remote. *)
Theorem resources_sources now now' fetch remote max_age w v w' :
  get_resources_for_remote now now' fetch remote max_age w = (Ok v, w') →
  answer_source REMOTE_RESOURCES_CACHE_KEY now now' fetch remote max_age (disk w) (disk w') v.
Proof. apply get_value_inv. Qed.

(** After the clock was set back, a forced query returns the stale cache.  An entry with a
    timestamp in the future counts as expired, but even with maximum age 0 the answer of the
    remote is discarded and the old entry is returned, until the clock has caught up. *)
Theorem future_entry_hides_answer now now' remote w e x a :
  quiet w → safe_id (format_remote_namespace remote) = true →
  safe_id SUBSCRIPTION_STATE_CACHE_KEY = true →
  state_of (disk w) remote = Some e → (now' < timestamp e)%Z → in_i64 (now' - timestamp e) = true →
  is_expired e now' a = true
  ∧ ∃ w', get_subscription_info_for_remote now now' (Ok x) remote 0 w = (Ok (value e), w')
          ∧ disk w' = disk w.
Proof.
  intros Hq Hn Hk He Hlt Hin. split.
  { unfold is_expired. destruct (a =? 0)%Z; [done |]. apply orb_true_iff. right. apply Z.ltb_lt.
    unfold in_i64, i64_min, i64_max in Hin. unfold wrap_i.
    apply andb_true_iff in Hin as [H1%Z.leb_le H2%Z.leb_le].
    rw Z.mod_small; [change (2 ^ (64 - 1))%Z with (2 ^ 63)%Z; change (2 ^ 64)%Z with (2 * 2 ^ 63)%Z; lia | lia]. }
  unfold cached in He. apply bind_Some in He as (f & Hf & He).
  eexists. unfold get_subscription_info_for_remote, get_value_for_remote, get_cached_value,
    update_cached_value, with_namespace, ensure_valid_namespace, get_impl,
    set_if_newer_impl, ensure_valid_key, get_from_path, file_read_optional_string, attempt,
    fs_open, syscall, get_disk, cio, catch, mbind, Cached_bind, IO_bind, mret, Cached_ret, IO_ret.
  rw Hn Hk. simpl. repeat (rw !(Hq _); simpl).
  rw Hf. simpl. rw He. destruct (Z.ltb_spec now' (timestamp e)); [| lia]. done.
Qed.
End props.

(** ** Instances: values are strings, a file holds the timestamp and the value *)
Global Instance ex_cache_env : CacheEnv string := {
  safe_id s := negb (has_char "/" s) && negb (is_empty s);
  entry_from_str f :=
    match f with
    | [Text t; Text v] => t ← parse_int t; Some {| timestamp := t; value := v |}
    | _ => None
    end;
  entry_to_vec e := Some [Text (show_int (timestamp e)); Text (value e)];
  stored v := v;
}.
Global Instance ex_cache_laws : CacheLaws string.
Proof.
  split; simpl.
  - intros s [Hs _]%andb_true_iff. by apply negb_true_iff.
  - intros e f [= <-]. by rw parse_int_show.
Qed.

Definition ex_cached (ts : Z) (v : string) : world :=
  quiet_world {[ get_path "remote-a" "subscription-state" := [Text (show_int ts); Text v] ]}.

Lemma cache_set_get_witness :
  cached (disk (set_impl "remote-a" "k" "new" 10 (ex_cached 5 "old")).2) "remote-a" "k"
  = Some {| timestamp := 10%Z; value := "new" |}.
Proof.
  pose proof (cache_set_get "remote-a" "k" "new" 10 12 (Some 60%Z) (ex_cached 5 "old")
    (set_impl "remote-a" "k" "new" 10 (ex_cached 5 "old")).1
    (set_impl "remote-a" "k" "new" 10 (ex_cached 5 "old")).2
    (get_impl 12 "remote-a" "k" (Some 60%Z) (set_impl "remote-a" "k" "new" 10 (ex_cached 5 "old")).2).1
    (get_impl 12 "remote-a" "k" (Some 60%Z) (set_impl "remote-a" "k" "new" 10 (ex_cached 5 "old")).2).2
    eq_refl (surjective_pairing _) (surjective_pairing _)) as [_ Hs].
  apply Hs.
Defined.

Lemma set_if_newer_monotone_witness :
  ∃ e, cached (disk (ex_cached 5 "old")) "remote-a" "subscription-state" = Some e
       ∧ (3 < timestamp e)%Z ∧ value e = "old".
Proof.
  pose proof (set_if_newer_monotone "remote-a" "subscription-state" "new" 3 (ex_cached 5 "old")
    (set_if_newer_impl "remote-a" "subscription-state" "new" 3 (ex_cached 5 "old")).1
    (set_if_newer_impl "remote-a" "subscription-state" "new" 3 (ex_cached 5 "old")).2
    eq_refl (surjective_pairing _)) as [_ (e & He & Hlt & Hv)].
  exists e. split_and!; [exact He | exact Hlt | exact (eq_sym Hv)].
Defined.

Lemma subscription_info_sources_witness :
  ∃ w', get_subscription_info_for_remote 10 11 (Ok "new") "a" 0 (ex_cached 5 "old") = (Ok "new", w')
    ∧ updated (disk (ex_cached 5 "old")) (disk w') "remote-a" "subscription-state"
        {| timestamp := 11%Z; value := "new" |}.
Proof.
  destruct (get_subscription_info_for_remote 10 11 (Ok "new") "a" 0 (ex_cached 5 "old")) as [r w'] eqn:Hr.
  assert (r = Ok "new") as -> by (apply (f_equal fst) in Hr; vm_compute in Hr; by rw -Hr).
  exists w'. split; [done |].
  destruct (subscription_info_sources 10 11 (Ok "new") "a" 0 (ex_cached 5 "old") "new" w' Hr)
    as [(e & He & Hx & _)|(x & [= <-] & [[_ Hu]|(e & He & Hlt & Hv & _)])].
  - by vm_compute in Hx.
  - exact Hu.
  - vm_compute in He. injection He as <-. by vm_compute in Hlt.
Defined.

Lemma future_entry_hides_answer_witness :
  ∃ w', get_subscription_info_for_remote 10 11 (Ok "new") "a" 0 (ex_cached 5000 "old") = (Ok "old", w').
Proof.
  destruct (future_entry_hides_answer 10 11 "a" (ex_cached 5000 "old")
              {| timestamp := 5000%Z; value := "old" |} "new" 60) as [_ (w' & Hr & _)].
  - intros i. reflexivity.
  - reflexivity.
  - reflexivity.
  - vm_compute. reflexivity.
  - reflexivity.
  - reflexivity.
  - exists w'. exact Hr.
Defined.
