(* ===== verification/RemoteCache.v ===== *)
(** * Back-off of unreachable hosts

    server/src/remote_cache/back_off.rs: how long a host that cannot be reached is left alone.
    Times are [i64] seconds; the arithmetic of the release build wraps.  The invariant
    [back_off_wf] keeps the doubling count small enough for the power of two to fit.
    The second part has the cache of reachable hosts. *)
From S2P Require Import Prelude RustStr Remotes.

#[local] Open Scope Z_scope.

Definition BACK_OFF_BASE_TIME_S : Z := 10.
Definition BACK_OFF_MAX_TIME_S : Z := 3 * 60.
Definition BACK_OFF_MIN_TIME_S : Z := 10 * 60.

Record BackOffState := {
  back_off_doubling_count : Z;   (* u32 *)
  last_error : string;
  first_fail_time : Z;           (* i64 *)
  next_try : Z;                  (* i64 *)
}.

(** [BackOffState::new] *)
Definition back_off_new (time : Z) (error : string) : BackOffState := {|
  back_off_doubling_count := 0;
  last_error := error;
  first_fail_time := time;
  next_try := time;
|}.

(** [i64::saturating_sub] *)
Definition saturating_sub (a b : Z) : Z := Z.max i64_min (Z.min i64_max (a - b)).

(** [self.next_try.saturating_sub(current_time).max(0) as u64] *)
Definition time_to_next_try (s : BackOffState) (current_time : Z) : Z :=
  Z.max (saturating_sub (next_try s) current_time) 0.

(** [retried]: the new state and the time of the next attempt, if it was moved. *)
Definition retried (s : BackOffState) (time : Z) (error : string) : BackOffState * option Z :=
  let s := {| back_off_doubling_count := back_off_doubling_count s;
              last_error := error;
              first_fail_time := first_fail_time s;
              next_try := next_try s |} in
  if 0 <? time_to_next_try s time then (s, None)
  else if (back_off_doubling_count s =? 0) && (i64 (time - first_fail_time s) <? BACK_OFF_MIN_TIME_S)
  then (s, None)
  else
    let back_off_time :=
      Z.min (i64 (BACK_OFF_BASE_TIME_S * i64 (2 ^ back_off_doubling_count s))) BACK_OFF_MAX_TIME_S in
    let count :=
      if back_off_time <? BACK_OFF_MAX_TIME_S then u32 (back_off_doubling_count s + 1)
      else back_off_doubling_count s in
    let next := i64 (time + back_off_time) in
    ({| back_off_doubling_count := count;
        last_error := error;
        first_fail_time := first_fail_time s;
        next_try := next |}, Some next).

(** The failed attempts of one outage, oldest first. *)
Definition attempts (s : BackOffState) (l : list (Z * string)) : BackOffState :=
  foldl (λ s '(t, e), (retried s t e).1) s l.

(** ** Reference: the waiting time after the [n]-th counted failure *)
Definition nominal_wait (n : Z) : Z := Z.min (10 * 2 ^ n) 180.

(** Seconds of a sane clock: sums of a few of them fit an [i64]. *)
Definition clock (t : Z) : Prop := 0 ≤ t < 2 ^ 62.

Record back_off_wf (s : BackOffState) : Prop := {
  wf_count : 0 ≤ back_off_doubling_count s ≤ 5;
  wf_first : clock (first_fail_time s);
}.

(** ** Lemmas *)

Lemma count_cases n : 0 ≤ n ≤ 5 → n = 0 ∨ n = 1 ∨ n = 2 ∨ n = 3 ∨ n = 4 ∨ n = 5.
Proof. lia. Qed.

Lemma nominal_wait_bounds n : 0 ≤ n ≤ 5 → 10 ≤ nominal_wait n ≤ 180.
Proof. intros [-> | [-> | [-> | [-> | [-> | ->]]]]]%count_cases; vm_compute; split; discriminate. Qed.

Lemma back_off_time_nominal n : 0 ≤ n ≤ 5 →
  Z.min (i64 (BACK_OFF_BASE_TIME_S * i64 (2 ^ n))) BACK_OFF_MAX_TIME_S = nominal_wait n.
Proof. by intros [-> | [-> | [-> | [-> | [-> | ->]]]]]%count_cases. Qed.

Lemma next_count n : 0 ≤ n ≤ 5 →
  (if nominal_wait n <? BACK_OFF_MAX_TIME_S then u32 (n + 1) else n) = Z.min (n + 1) 5.
Proof. by intros [-> | [-> | [-> | [-> | [-> | ->]]]]]%count_cases. Qed.

Lemma time_to_next_try_clock s t : clock t → - 2 ^ 62 ≤ next_try s ≤ 2 ^ 62 + 180 →
  time_to_next_try s t = Z.max (next_try s - t) 0.
Proof. unfold clock, time_to_next_try, saturating_sub, i64_min, i64_max. lia. Qed.

(** One failed attempt, with the arithmetic unwrapped: inside the back-off, or before the
    minimum outage, only the error is replaced; otherwise the next wait starts. *)
Lemma retried_spec s t e : back_off_wf s → clock t → - 2 ^ 62 ≤ next_try s ≤ 2 ^ 62 + 180 →
  retried s t e =
    let n := back_off_doubling_count s in
    if decide (t < next_try s ∨ n = 0 ∧ t - first_fail_time s < 600)
    then ({| back_off_doubling_count := n; last_error := e;
             first_fail_time := first_fail_time s; next_try := next_try s |}, None)
    else ({| back_off_doubling_count := Z.min (n + 1) 5; last_error := e;
             first_fail_time := first_fail_time s; next_try := t + nominal_wait n |},
          Some (t + nominal_wait n)).
Proof.
  intros [Hn Hf] Ht Hnext. unfold retried. simpl. rw time_to_next_try_clock //=.
  rw back_off_time_nominal // next_count // (i64_id (t - _)); [unfold clock in *; lia |].
  pose proof (nominal_wait_bounds _ Hn). rw (i64_id (t + _)); [unfold clock in *; lia |].
  unfold BACK_OFF_MIN_TIME_S.
  destruct (Z.ltb_spec 0 (Z.max (next_try s - t) 0)); simpl; [rw decide_True //; lia |].
  destruct (Z.eqb_spec (back_off_doubling_count s) 0) as [E | E]; simpl; [| rw decide_False //; lia].
  destruct (Z.ltb_spec (t - first_fail_time s) (10 * 60)); [rw decide_True // | rw decide_False //]; lia.
Qed.

(** How many of the attempts moved the next try, i.e. counted as a failure after the minimum. *)
Fixpoint moves (s : BackOffState) (l : list (Z * string)) : nat :=
  match l with
  | [] => 0
  | (t, e) :: l' =>
      let '(s', r) := retried s t e in
      (match r with Some _ => 1 | None => 0 end + moves s' l')%nat
  end.

Lemma nominal_wait_cap n : 0 ≤ n → nominal_wait (Z.min n 5) = nominal_wait n.
Proof.
  intros Hn. destruct (Z.le_gt_cases n 5); [by rw Z.min_l |].
  rw Z.min_r; [lia |]. unfold nominal_wait. change (2 ^ 5) with 32.
  pose proof (Z.pow_le_mono_r 2 5 n). lia.
Qed.

(** The state after some attempts, the latest of which was not after [m]. *)
Record outage (t0 : Z) (n : nat) (m : Z) (s : BackOffState) : Prop := {
  outage_first : first_fail_time s = t0;
  outage_count : back_off_doubling_count s = Z.min (Z.of_nat n) 5;
  outage_next : t0 ≤ next_try s ≤ m + 180;
  outage_early : n = 0%nat → next_try s = t0;
}.

Lemma retried_outage t0 n m s t e : clock t0 → clock t → clock m → t0 ≤ m → t ≤ m →
  outage t0 n m s →
  outage t0 (n + match (retried s t e).2 with Some _ => 1 | None => 0 end) m (retried s t e).1.
Proof.
  intros H0 Ht Hm H0m Htm [Hf Hc Hn He].
  assert (back_off_wf s) as Hwf by (split; [lia | by rw Hf]).
  rw retried_spec //; [unfold clock in *; lia |]. cbn zeta.
  pose proof (nominal_wait_bounds _ (wf_count _ Hwf)).
  destruct (decide _) as [| Hd]; simpl.
  - split; simpl; [done | lia | lia |]. intros ?. apply He. lia.
  - split; simpl; [done | lia | | lia]. unfold clock in *. lia.
Qed.

Lemma attempts_outage t0 n m s l : clock t0 → clock m → t0 ≤ m →
  Forall (λ p : Z * string, clock p.1 ∧ p.1 ≤ m) l → outage t0 n m s →
  outage t0 (n + moves s l) m (attempts s l).
Proof.
  intros H0 Hm H0m Hl. revert n s.
  induction Hl as [|[t e] l [Ht Htm] Hl IH]; intros n s Hs; simpl; [by rw Nat.add_0_r |].
  pose proof (retried_outage t0 n m s t e H0 Ht Hm H0m Htm Hs) as Hs'.
  destruct (retried s t e) as [s' r]; simpl in *. rw Nat.add_assoc. by apply IH.
Qed.

Lemma new_outage t e m : t ≤ m → outage t 0 m (back_off_new t e).
Proof. intros Ht. split; simpl; [done | done | lia | done]. Qed.

(** Attempts within the first ten minutes never move the next try. *)
Lemma early_moves t0 m s l : clock t0 → clock m → t0 ≤ m → m < t0 + 600 →
  Forall (λ p : Z * string, clock p.1 ∧ p.1 ≤ m) l → outage t0 0 m s → moves s l = 0%nat.
Proof.
  intros H0 Hm H0m Hearly Hl. revert s.
  induction Hl as [|[t e] l [Ht Htm] Hl IH]; intros s Hs; simpl; [done |].
  pose proof (retried_outage t0 0 m s t e H0 Ht Hm H0m Htm Hs) as Hs'.
  destruct Hs as [Hf Hc Hn He]. simpl in *.
  assert (retried s t e = ((retried s t e).1, None)) as E.
  { rw retried_spec //; [split; [lia | by rw Hf] | unfold clock in *; lia |].
    cbn zeta. rw decide_True //. lia. }
  rw E. rw E /= in Hs'. by apply IH.
Qed.

(** * The remote mapping cache

    server/src/remote_cache/mod.rs: for every remote the hosts it is configured with, their node
    names and their back-off state, plus the canary remote that is exempt from the back-off when
    no remote can be reached; and config_update of
    server/src/bin/proxmox-datacenter-api/tasks/remote_node_mapping.rs, which follows changes of
    the configuration.  The clock ([epoch_i64()]) is the argument [now].  The order in which a
    [HashMap] is iterated is that of [map_to_list]; no theorem depends on it. *)

#[local] Open Scope string_scope.

(** ** Hosts *)
Inductive ConnectionState := Reachable | Unreachable (err : string).

Record HostInfo := {
  hostname : string;
  node_name : option string;
  back_off : option BackOffState;
}.

Definition HostInfo_new (h : string) : HostInfo :=
  {| hostname := h; node_name := None; back_off := None |}.

Definition set_back_off (b : option BackOffState) (i : HostInfo) : HostInfo :=
  {| hostname := hostname i; node_name := node_name i; back_off := b |}.

Definition HostInfo_set_reachable (now : Z) (c : ConnectionState) (i : HostInfo)
    : HostInfo * option Z :=
  match c with
  | Reachable => (set_back_off None i, None)
  | Unreachable err =>
      match back_off i with
      | Some b => let '(b', r) := retried b now err in (set_back_off (Some b') i, r)
      | None => (set_back_off (Some (back_off_new now err)) i, None)
      end
  end.

Definition HostInfo_is_reachable (i : HostInfo) : bool := bool_decide (back_off i = None).

(** ** Remotes *)
Record RemoteMapping := {
  ty : RemoteType;
  hosts : gmap string HostInfo;
  node_to_host : gmap string string;
}.

Definition RemoteMapping_new (t : RemoteType) : RemoteMapping :=
  {| ty := t; hosts := ∅; node_to_host := ∅ |}.

Definition set_hosts (f : gmap string HostInfo → gmap string HostInfo) (m : RemoteMapping)
    : RemoteMapping :=
  {| ty := ty m; hosts := f (hosts m); node_to_host := node_to_host m |}.

(** [RemoteMapping::set_node_name] *)
Definition RemoteMapping_set_node_name (h : string) (name : option string) (m : RemoteMapping)
    : RemoteMapping :=
  match hosts m !! h with
  | None => m
  | Some info =>
      let n2h := match node_name info with
                 | Some old => delete old (node_to_host m)
                 | None => node_to_host m
                 end in
      {| ty := ty m;
         hosts := <[h := {| hostname := hostname info; node_name := name;
                            back_off := back_off info |}]> (hosts m);
         node_to_host := match name with Some new => <[new := h]> n2h | None => n2h end |}
  end.

(** [self.hosts.values()] *)
Definition host_list (m : RemoteMapping) : list HostInfo := (map_to_list (hosts m)).*2.

Definition RemoteMapping_is_reachable (m : RemoteMapping) : bool :=
  match host_list m with
  | [] => true
  | l => existsb HostInfo_is_reachable l
  end.

Definition reset_back_off (now : Z) : RemoteMapping → RemoteMapping :=
  set_hosts (fmap (λ i, (HostInfo_set_reachable now Reachable i).1)).

(** ** The cache *)
Record RemoteMappingCache := {
  remotes : gmap string RemoteMapping;
  canary_remote : option string;
}.

Definition cache_default : RemoteMappingCache := {| remotes := ∅; canary_remote := None |}.

Definition set_canary (o : option string) (c : RemoteMappingCache) : RemoteMappingCache :=
  {| remotes := remotes c; canary_remote := o |}.
Definition set_remotes (f : gmap string RemoteMapping → gmap string RemoteMapping)
    (c : RemoteMappingCache) : RemoteMappingCache :=
  {| remotes := f (remotes c); canary_remote := canary_remote c |}.

Definition node_name_to_hostname (c : RemoteMappingCache) (r n : string) : option string :=
  m ← remotes c !! r; node_to_host m !! n.

Definition info_by_node_name (c : RemoteMappingCache) (r n : string) : option HostInfo :=
  m ← remotes c !! r; h ← node_to_host m !! n; hosts m !! h.

Definition info_by_hostname (c : RemoteMappingCache) (r h : string) : option HostInfo :=
  m ← remotes c !! r; hosts m !! h.

(** Assigning through the reference of [info_by_hostname_mut] *)
Definition update_host (r h : string) (i : HostInfo) : RemoteMappingCache → RemoteMappingCache :=
  set_remotes (alter (set_hosts <[h := i]>) r).

(** [canary_is_needed]: forgets a canary that is no longer a remote. *)
Definition canary_is_needed (c : RemoteMappingCache) : bool * RemoteMappingCache :=
  let all_unreachable := forallb (negb ∘ RemoteMapping_is_reachable) (map_to_list (remotes c)).*2 in
  match canary_remote c with
  | Some canary =>
      if bool_decide (is_Some (remotes c !! canary)) then (false, c)
      else (all_unreachable, set_canary None c)
  | None => (all_unreachable, c)
  end.

Definition reset_all_back_off_states (now : Z) (c : RemoteMappingCache) : RemoteMappingCache :=
  {| remotes := reset_back_off now <$> remotes c; canary_remote := None |}.

Definition set_or_reset_canary (now : Z) (r : string) (unreachable : bool) (c : RemoteMappingCache)
    : RemoteMappingCache :=
  let c :=
    if unreachable then
      let '(needed, c') := canary_is_needed c in
      if needed then set_canary (Some r) c' else c'
    else c in
  if negb unreachable && bool_decide (is_Some (canary_remote c))
  then reset_all_back_off_states now c
  else c.

Definition is_unreachable (s : ConnectionState) : bool :=
  match s with Unreachable _ => true | Reachable => false end.

Definition mark_host_reachable (now : Z) (r h : string) (s : ConnectionState)
    (c : RemoteMappingCache) : RemoteMappingCache :=
  match info_by_hostname c r h with
  | Some info =>
      set_or_reset_canary now r (is_unreachable s)
        (update_host r h (HostInfo_set_reachable now s info).1 c)
  | None => c
  end.

Definition mark_node_reachable (now : Z) (r n : string) (s : ConnectionState)
    (c : RemoteMappingCache) : RemoteMappingCache :=
  match node_name_to_hostname c r n with
  | Some h =>
      match info_by_hostname c r h with
      | Some info =>
          set_or_reset_canary now r (is_unreachable s)
            (update_host r h (HostInfo_set_reachable now s info).1 c)
      | None => c
      end
  | None => c
  end.

Definition set_node_name (r h : string) (name : option string)
    : RemoteMappingCache → RemoteMappingCache :=
  set_remotes (alter (RemoteMapping_set_node_name h name) r).

Definition host_is_reachable (c : RemoteMappingCache) (r h : string) : bool :=
  match info_by_hostname c r h with
  | Some info => HostInfo_is_reachable info
  | None => true
  end.

Definition is_canary (c : RemoteMappingCache) (r : string) : bool :=
  bool_decide (canary_remote c = Some r).

Definition host_time_to_next_try (c : RemoteMappingCache) (r h : string) (now : Z)
    : option (Z * string) :=
  if is_canary c r then None
  else
    info ← info_by_hostname c r h; b ← back_off info;
    Some (time_to_next_try b now, last_error b).

(** The loop over the hosts of [remote_time_to_next_try]: [None] is its early return. *)
Fixpoint least_wait (now : Z) (l : list HostInfo) (time : Z) (err : string)
    : option (Z * string) :=
  match l with
  | [] => Some (time, err)
  | info :: l' =>
      match back_off info with
      | Some b =>
          let node_time := time_to_next_try b now in
          if (node_time <? time)%Z then least_wait now l' node_time (last_error b)
          else least_wait now l' time err
      | None => None
      end
  end.

Definition remote_time_to_next_try (c : RemoteMappingCache) (r : string) (now : Z)
    : option (Z * string) :=
  if is_canary c r then None
  else
    match remotes c !! r with
    | Some m =>
        match least_wait now (host_list m) u64_max "" with
        | Some (time, err) => if (time =? u64_max)%Z then None else Some (time, err)
        | None => None
        end
    | None => None
    end.

(** ** Following the configuration

    What [config_update] reads of a remote: its type and the host names of its nodes. *)
Record remote_nodes := { rn_ty : RemoteType; rn_hosts : list string }.

(** The names to forget, of the hosts that are pruned *)
Definition pruned_names (m : RemoteMapping) (keep : list string) : list string :=
  filter_map (λ '(h, i), if bool_decide (h ∈ keep) then None else node_name i)
    (map_to_list (hosts m)).

Definition insert_missing (hs : gmap string HostInfo) (h : string) : gmap string HostInfo :=
  match hs !! h with Some _ => hs | None => <[h := HostInfo_new h]> hs end.

Definition prune_entry (rem : remote_nodes) (o : option RemoteMapping) : RemoteMapping :=
  let entry := default (RemoteMapping_new (rn_ty rem)) o in
  let entry := if decide (ty entry = rn_ty rem) then entry else RemoteMapping_new (rn_ty rem) in
  let kept := filter (λ p : string * HostInfo, p.1 ∈ rn_hosts rem) (hosts entry) in
  {| ty := ty entry;
     hosts := foldl insert_missing kept (rn_hosts rem);
     node_to_host := foldl (λ m n, delete n m) (node_to_host entry)
                       (pruned_names entry (rn_hosts rem)) |}.

Definition prune_remote_nodes (c : RemoteMappingCache) (name : string) (rem : remote_nodes)
    : RemoteMappingCache :=
  set_remotes (λ m, <[name := prune_entry rem (m !! name)]> m) c.

Definition config_update (config : list (string * remote_nodes)) (c : RemoteMappingCache)
    : RemoteMappingCache :=
  foldl (λ c '(name, rem), prune_remote_nodes c name rem)
    (set_remotes (filter (λ p : string * RemoteMapping, p.1 ∈ config.*1)) c) config.

(** ** Runs *)
Inductive cache_op :=
| MarkHost (now : Z) (r h : string) (s : ConnectionState)
| MarkNode (now : Z) (r n : string) (s : ConnectionState)
| SetNodeName (r h : string) (name : option string)
| ConfigUpdate (config : list (string * remote_nodes)).

Definition run_op (c : RemoteMappingCache) (op : cache_op) : RemoteMappingCache :=
  match op with
  | MarkHost now r h s => mark_host_reachable now r h s c
  | MarkNode now r n s => mark_node_reachable now r n s c
  | SetNodeName r h name => set_node_name r h name c
  | ConfigUpdate config => config_update config c
  end.
Definition run_ops : RemoteMappingCache → list cache_op → RemoteMappingCache := foldl run_op.

(** ** Well-formedness *)
Record host_wf (h : string) (i : HostInfo) : Prop := {
  host_wf_name : hostname i = h;
  host_wf_count : ∀ b, back_off i = Some b → (0 ≤ back_off_doubling_count b ≤ 5)%Z;
}.

Record mapping_wf (m : RemoteMapping) : Prop := {
  mapping_wf_hosts : map_Forall host_wf (hosts m);
  mapping_wf_names : ∀ n h, node_to_host m !! n = Some h →
    ∃ i, hosts m !! h = Some i ∧ node_name i = Some n;
}.

Definition cache_wf (c : RemoteMappingCache) : Prop := map_Forall (λ _, mapping_wf) (remotes c).

Lemma retried_count b t e : (0 ≤ back_off_doubling_count b ≤ 5)%Z →
  (0 ≤ back_off_doubling_count (retried b t e).1 ≤ 5)%Z.
Proof.
  intros Hb. unfold retried. simpl. case_match; [done |]. case_match; [done |]. simpl.
  rw back_off_time_nominal // next_count //. lia.
Qed.

Lemma set_reachable_wf now s h i : host_wf h i → host_wf h (HostInfo_set_reachable now s i).1.
Proof.
  intros [Hn Hb]. unfold HostInfo_set_reachable. destruct s as [|err]; [by split |].
  destruct (back_off i) as [b|] eqn:E.
  - destruct (retried b now err) as [b' r] eqn:Er. split; simpl; [done |].
    intros ? [= <-]. replace b' with (retried b now err).1 by (by rw Er). by apply retried_count, Hb.
  - split; simpl; [done |]. intros ? [= <-]. simpl. lia.
Qed.

Lemma set_reachable_name now s i : node_name (HostInfo_set_reachable now s i).1 = node_name i.
Proof. unfold HostInfo_set_reachable. repeat case_match; simplify_eq/=; done. Qed.

(** Replacing a host by one with the same node name *)
Lemma mapping_wf_insert h i i' m : mapping_wf m → hosts m !! h = Some i → host_wf h i' →
  node_name i' = node_name i → mapping_wf (set_hosts <[h := i']> m).
Proof.
  intros [Hh Hn] Hi Hi' E. split; simpl; [by apply map_Forall_insert_2 |].
  intros n h' (j & Hj & Ej)%Hn. destruct (decide (h' = h)) as [-> | Hne].
  - exists i'. rw lookup_insert_eq. split; [done | congruence].
  - exists j. by rw lookup_insert_ne.
Qed.

Lemma mapping_wf_fmap f m : mapping_wf m →
  (∀ h i, host_wf h i → host_wf h (f i)) → (∀ i, node_name (f i) = node_name i) →
  mapping_wf (set_hosts (fmap f) m).
Proof.
  intros [Hh Hn] Hf E. split; simpl.
  - intros h i. rw lookup_fmap fmap_Some. intros (j & Hj & ->). by apply Hf, Hh.
  - intros n h (j & Hj & Ej)%Hn. exists (f j). by rw lookup_fmap Hj E.
Qed.

Lemma set_node_name_wf h name m : mapping_wf m → mapping_wf (RemoteMapping_set_node_name h name m).
Proof.
  intros Hwf. unfold RemoteMapping_set_node_name. destruct (hosts m !! h) as [i|] eqn:Hi; [| done].
  destruct Hwf as [Hh Hn]. split; simpl.
  { apply map_Forall_insert_2; [| done]. destruct (Hh _ _ Hi). by split. }
  set (n2h := match node_name i with Some old => _ | None => _ end).
  assert (∀ n h', n2h !! n = Some h' → h' ≠ h ∧ ∃ j, hosts m !! h' = Some j ∧ node_name j = Some n) as Hn2h.
  { intros n h' Hl. subst n2h. destruct (node_name i) as [old|] eqn:Ho.
    - apply lookup_delete_Some in Hl as [Hne Hl]. destruct (Hn _ _ Hl) as (j & Hj & Ej).
      split; [| by eauto]. intros ->. congruence.
    - destruct (Hn _ _ Hl) as (j & Hj & Ej). split; [| by eauto]. intros ->. congruence. }
  intros n h' Hl.
  assert (name = Some n ∧ h' = h ∨ n2h !! n = Some h') as [[-> ->] | Hl'].
  { destruct name as [new|]; [| by right].
    apply lookup_insert_Some in Hl as [[-> ->] | [_ ?]]; [by left | by right]. }
  - rw lookup_insert_eq. by eexists.
  - destruct (Hn2h _ _ Hl') as (Hne & j & Hj & Ej). exists j. by rw lookup_insert_ne.
Qed.

Lemma insert_missing_foldl hs l h :
  foldl insert_missing hs l !! h =
    match hs !! h with
    | Some i => Some i
    | None => if bool_decide (h ∈ l) then Some (HostInfo_new h) else None
    end.
Proof.
  revert hs. induction l as [|x l IH]; intros hs; cbn [foldl].
  { destruct (hs !! h); [done |]. rw bool_decide_eq_false_2 //. by intros ?%not_elem_of_nil. }
  rw IH. unfold insert_missing. destruct (hs !! x) as [i|] eqn:Hx.
  - destruct (hs !! h) eqn:Hh; [done |]. assert (h ≠ x) by congruence.
    repeat case_bool_decide; set_solver.
  - destruct (decide (h = x)) as [-> | Hne].
    + rw lookup_insert_eq Hx. rw bool_decide_eq_true_2 //. set_solver.
    + rw lookup_insert_ne //. destruct (hs !! h); [done |]. repeat case_bool_decide; set_solver.
Qed.

Lemma foldl_delete_lookup {A} (m : gmap string A) l n :
  foldl (λ m n, delete n m) m l !! n = if bool_decide (n ∈ l) then None else m !! n.
Proof.
  revert m. induction l as [|x l IH]; intros m; cbn [foldl].
  { rw bool_decide_eq_false_2 //. by intros ?%not_elem_of_nil. }
  rw IH. destruct (decide (n = x)) as [-> | Hne].
  - rw lookup_delete_eq (bool_decide_eq_true_2 (_ ∈ _ :: _)); [set_solver |]. by case_bool_decide.
  - rw lookup_delete_ne //. repeat case_bool_decide; set_solver.
Qed.

Lemma RemoteMapping_new_wf t : mapping_wf (RemoteMapping_new t).
Proof. split; simpl; [apply map_Forall_empty | by intros n h]. Qed.

Lemma prune_entry_wf rem o : (∀ m, o = Some m → mapping_wf m) → mapping_wf (prune_entry rem o).
Proof.
  intros Ho. unfold prune_entry. set (e0 := default _ o).
  assert (mapping_wf e0) as H0 by (subst e0; destruct o; [by apply Ho | apply RemoteMapping_new_wf]).
  set (e := if decide _ then e0 else _).
  assert (mapping_wf e) as [Hh Hn] by (subst e; case_decide; [done | apply RemoteMapping_new_wf]).
  clearbody e. split; simpl.
  - intros h i. rw insert_missing_foldl. destruct (filter _ (hosts e) !! h) as [j|] eqn:Hf.
    + intros [= <-]. apply map_lookup_filter_Some in Hf as [Hj _]. by apply Hh.
    + case_bool_decide; [| done]. intros [= <-]. by split.
  - intros n h. rw foldl_delete_lookup. case_bool_decide as Hp; [done |].
    intros (i & Hi & Ei)%Hn. exists i. split; [| done]. rw insert_missing_foldl.
    assert (h ∈ rn_hosts rem) as Hk.
    { destruct (decide (h ∈ rn_hosts rem)) as [| Hk]; [done |]. exfalso. apply Hp.
      apply elem_of_filter_map. exists (h, i). split; [by apply elem_of_map_to_list |].
      by rw bool_decide_eq_false_2. }
    by rw (map_lookup_filter_Some_2 _ _ _ i).
Qed.

Lemma config_update_wf config c : cache_wf c → cache_wf (config_update config c).
Proof.
  intros Hc. unfold config_update.
  set (c0 := set_remotes _ c). assert (cache_wf c0) as H0.
  { intros r m [Hm _]%map_lookup_filter_Some. by eapply Hc. }
  clearbody c0. revert c0 H0.
  induction config as [|[name rem] l IH]; intros c0 H0; simpl; [done |]. apply IH.
  intros r m. simpl. rw lookup_insert_Some. intros [[<- <-] | [_ Hm]]; [| by eapply H0].
  apply prune_entry_wf. intros m' Hm'. by eapply H0.
Qed.

Lemma update_host_wf r h i i' c : cache_wf c → info_by_hostname c r h = Some i → host_wf h i' →
  node_name i' = node_name i → cache_wf (update_host r h i' c).
Proof.
  intros Hc (m & Hm & Hi)%bind_Some Hi' E r' m'. simpl. rw lookup_alter_Some.
  intros [(<- & m0 & Hm0 & ->) | [_ Hm']]; [| by eapply Hc].
  simplify_eq. eapply mapping_wf_insert; [by eapply Hc | done | done | done].
Qed.

Lemma set_or_reset_canary_wf now r u c : cache_wf c → cache_wf (set_or_reset_canary now r u c).
Proof.
  intros Hc. unfold set_or_reset_canary. set (c1 := if u then _ else c).
  assert (remotes c1 = remotes c) as E.
  { subst c1. unfold canary_is_needed. by repeat case_match; simplify_eq/=. }
  case_match; [| by unfold cache_wf; rw E].
  intros r' m'. simpl. rw E lookup_fmap fmap_Some. intros (m & Hm & ->).
  apply mapping_wf_fmap; [by eapply Hc | intros; by apply set_reachable_wf | done].
Qed.

Lemma info_host_wf c r h i : cache_wf c → info_by_hostname c r h = Some i → host_wf h i.
Proof. intros Hc (m & Hm & Hi)%bind_Some. eapply mapping_wf_hosts; [by eapply Hc | done]. Qed.

Lemma run_op_wf c op : cache_wf c → cache_wf (run_op c op).
Proof.
  intros Hc. destruct op as [now r h s | now r n s | r h name | config]; simpl.
  - unfold mark_host_reachable. destruct (info_by_hostname c r h) as [i|] eqn:Hi; [| done].
    eapply set_or_reset_canary_wf, update_host_wf; [done | done | | by apply set_reachable_name].
    by eapply set_reachable_wf, info_host_wf.
  - unfold mark_node_reachable. destruct (node_name_to_hostname c r n) as [h|]; [| done].
    destruct (info_by_hostname c r h) as [i|] eqn:Hi; [| done].
    eapply set_or_reset_canary_wf, update_host_wf; [done | done | | by apply set_reachable_name].
    by eapply set_reachable_wf, info_host_wf.
  - intros r' m'. simpl. rw lookup_alter_Some.
    intros [(<- & m & Hm & ->) | [_ Hm]]; [| by eapply Hc]. by eapply set_node_name_wf, Hc.
  - by apply config_update_wf.
Qed.

Lemma run_ops_wf c ops : cache_wf c → cache_wf (run_ops c ops).
Proof. revert c. induction ops as [|op ops IH]; intros c Hc; simpl; [done |]. by apply IH, run_op_wf. Qed.

(** ** The canary *)

(** Requests to the remote are let through now: the remote is not in back-off, and neither is
    one of the hosts known for it. *)
Definition can_try (c : RemoteMappingCache) (r : string) : Prop :=
  ∃ m, remotes c !! r = Some m ∧ (∀ now, remote_time_to_next_try c r now = None) ∧
    (hosts m = ∅ ∨ ∃ h i, hosts m !! h = Some i ∧ ∀ now, host_time_to_next_try c r h now = None).

(** When no remote is reachable, one of them is the canary. *)
Definition canary_ok (c : RemoteMappingCache) : Prop :=
  (∀ r m, remotes c !! r = Some m → RemoteMapping_is_reachable m = false) →
  ∃ r, canary_remote c = Some r ∧ is_Some (remotes c !! r).

Lemma elem_of_host_list i m : i ∈ host_list m ↔ ∃ h, hosts m !! h = Some i.
Proof.
  unfold host_list. rw list_elem_of_fmap. split.
  - intros ([h j] & -> & Hj). exists h. by apply elem_of_map_to_list.
  - intros [h Hh]. exists (h, i). split; [done |]. by apply elem_of_map_to_list.
Qed.

Lemma host_list_nil m : host_list m = [] → hosts m = ∅.
Proof. unfold host_list. intros ->%fmap_nil_inv%map_to_list_empty_iff. done. Qed.

Lemma is_reachable_spec m : RemoteMapping_is_reachable m = true ↔
  hosts m = ∅ ∨ ∃ h i, hosts m !! h = Some i ∧ back_off i = None.
Proof.
  unfold RemoteMapping_is_reachable. destruct (host_list m) as [|j l] eqn:E.
  { split; [| done]. intros _. left. by apply host_list_nil. }
  rw -E existsb_exists. split.
  - intros (i & [h Hh]%list_elem_of_In%elem_of_host_list & Hi%bool_decide_eq_true). right. eauto.
  - intros [H0 | (h & i & Hh & Hi)].
    + unfold host_list in E. by rw H0 map_to_list_empty in E.
    + exists i. split; [apply list_elem_of_In, elem_of_host_list; eauto |].
      by apply bool_decide_eq_true.
Qed.

Lemma least_wait_reachable now l time err i :
  i ∈ l → back_off i = None → least_wait now l time err = None.
Proof.
  intros Hi Hb. revert time err. induction l as [|j l IH]; intros time err; [by apply not_elem_of_nil in Hi |].
  simpl. apply elem_of_cons in Hi as [<- | Hi]; [by rw Hb |].
  destruct (back_off j); [| done]. case_match; by apply IH.
Qed.

Lemma reachable_can_try c r m :
  remotes c !! r = Some m → RemoteMapping_is_reachable m = true → can_try c r.
Proof.
  intros Hm [H0 | (h & i & Hh & Hi)]%is_reachable_spec; exists m; (split; [done |]).
  - split; [| by left]. intros now. unfold remote_time_to_next_try. case_match; [done |].
    rw Hm. unfold host_list. by rw H0 map_to_list_empty.
  - split.
    + intros now. unfold remote_time_to_next_try. case_match; [done |].
      rw Hm (least_wait_reachable now _ _ _ i) //. apply elem_of_host_list. eauto.
    + right. exists h, i. split; [done |]. intros now. unfold host_time_to_next_try.
      case_match; [done |]. unfold info_by_hostname. by rw Hm /= Hh /= Hi.
Qed.

Lemma canary_can_try c r : canary_remote c = Some r → is_Some (remotes c !! r) → can_try c r.
Proof.
  intros Hc [m Hm]. exists m. split; [done |].
  assert (is_canary c r = true) as E by by apply bool_decide_eq_true.
  split; [intros now; unfold remote_time_to_next_try; by rw E |].
  destruct (decide (hosts m = ∅)) as [| (h & i & Hh)%map_choose]; [by left | right].
  exists h, i. split; [done |]. intros now. unfold host_time_to_next_try. by rw E.
Qed.

Lemma canary_ok_can_try c : canary_ok c → remotes c ≠ ∅ → ∃ r, can_try c r.
Proof.
  intros Hok Hne.
  destruct (decide (map_Forall (λ _ m, RemoteMapping_is_reachable m = false) (remotes c))) as [Hall | Hex].
  - destruct Hok as (r & Hr & Hm); [done |]. exists r. by apply canary_can_try.
  - apply map_not_Forall in Hex as (r & m & Hm & Hr); [| apply _].
    exists r. apply (reachable_can_try c r m Hm). by apply not_false_iff_true.
Qed.

(** The canary is looked for whenever a host becomes unreachable. *)
Lemma canary_needed_ok r c : is_Some (remotes c !! r) →
  canary_ok (let '(needed, c') := canary_is_needed c in if needed then set_canary (Some r) c' else c').
Proof.
  intros Hr. unfold canary_is_needed. set (all := forallb _ _).
  assert (all = true ∨ ¬ ∀ r m, remotes c !! r = Some m → RemoteMapping_is_reachable m = false) as Hall.
  { destruct all eqn:E; [by left | right]. intros H. apply not_true_iff_false in E. apply E.
    apply forallb_forall. intros m ([r' m'] & -> & Hm)%list_elem_of_In%list_elem_of_fmap.
    simpl. apply elem_of_map_to_list in Hm. by rw (H _ _ Hm). }
  clearbody all. destruct (canary_remote c) as [canary|] eqn:Ec; [case_bool_decide as Hcan |].
  - intros _. by exists canary.
  - destruct all; simpl; [intros _; by exists r | intros ?; by destruct Hall].
  - destruct all; simpl; [intros _; by exists r | intros ?; by destruct Hall].
Qed.

(** After a mark of a known host the canary is as it should be. *)
Lemma set_or_reset_ok now r u c : is_Some (remotes c !! r) →
  (u = false → ∃ m, remotes c !! r = Some m ∧ RemoteMapping_is_reachable m = true) →
  canary_ok (set_or_reset_canary now r u c).
Proof.
  intros Hr Hu. unfold set_or_reset_canary. destruct u; cbn [negb andb]; [by apply canary_needed_ok |].
  destruct (Hu eq_refl) as (m & Hm & Hreach). case_bool_decide; intros Hall; exfalso.
  - assert (RemoteMapping_is_reachable (reset_back_off now m) = false) as E.
    { apply (Hall r). simpl. by rw lookup_fmap Hm. }
    apply not_true_iff_false in E. apply E, is_reachable_spec. simpl.
    apply is_reachable_spec in Hreach as [-> | (h & i & Hh & Hi)]; [left; apply fmap_empty | right].
    exists h. eexists. by rw lookup_fmap Hh.
  - specialize (Hall r m Hm). congruence.
Qed.

Lemma mark_update_ok now r h i s c : info_by_hostname c r h = Some i →
  canary_ok (set_or_reset_canary now r (is_unreachable s)
    (update_host r h (HostInfo_set_reachable now s i).1 c)).
Proof.
  intros (m & Hm & Hi)%bind_Some.
  assert (remotes (update_host r h (HostInfo_set_reachable now s i).1 c) !! r =
    Some (set_hosts <[h := (HostInfo_set_reachable now s i).1]> m)) as E.
  { simpl. by rw lookup_alter_eq Hm. }
  apply set_or_reset_ok; rw E; [done |]. intros Hs. eexists. split; [done |].
  apply is_reachable_spec. right. exists h. eexists. simpl. rw lookup_insert_eq.
  split; [done |]. by destruct s.
Qed.

Lemma remotes_set_or_reset now r u c r' :
  is_Some (remotes (set_or_reset_canary now r u c) !! r') ↔ is_Some (remotes c !! r').
Proof.
  unfold set_or_reset_canary. set (c1 := if u then _ else c).
  assert (remotes c1 = remotes c) as E.
  { subst c1. unfold canary_is_needed. by repeat case_match; simplify_eq/=. }
  case_match; simpl; [| by rw E]. by rw lookup_fmap fmap_is_Some E.
Qed.

(** Marks and renames neither add nor remove remotes. *)
Lemma run_op_remotes c op r : (∀ config, op ≠ ConfigUpdate config) →
  is_Some (remotes (run_op c op) !! r) ↔ is_Some (remotes c !! r).
Proof.
  intros Hop. destruct op as [now r' h s | now r' n s | r' h name | config]; simpl; [| | | by destruct (Hop config)].
  - unfold mark_host_reachable. case_match; [| done]. rw remotes_set_or_reset /=. apply lookup_alter_is_Some.
  - unfold mark_node_reachable. repeat case_match; try done. rw remotes_set_or_reset /=. apply lookup_alter_is_Some.
  - apply lookup_alter_is_Some.
Qed.

Lemma set_node_name_reachable h name m :
  RemoteMapping_is_reachable (RemoteMapping_set_node_name h name m) = RemoteMapping_is_reachable m.
Proof.
  apply eq_bool_prop_intro. unfold RemoteMapping_set_node_name.
  destruct (hosts m !! h) as [i|] eqn:Hi; [| done].
  rw !Is_true_true !is_reachable_spec /=. split.
  - intros [E | (h' & j & Hj & Ej)]; [by apply insert_non_empty in E |]. right.
    apply lookup_insert_Some in Hj as [[<- <-] | [_ Hj]]; [by eauto | by eauto].
  - intros [E | (h' & j & Hj & Ej)]; [by rw E lookup_empty in Hi |]. right.
    destruct (decide (h' = h)) as [-> | Hne].
    + exists h. eexists. rw lookup_insert_eq. split; [done |]. simpl. congruence.
    + exists h', j. by rw lookup_insert_ne.
Qed.

Lemma run_op_canary_ok c op : (∀ config, op ≠ ConfigUpdate config) → canary_ok c → canary_ok (run_op c op).
Proof.
  intros Hop Hc. destruct op as [now r h s | now r n s | r h name | config]; simpl; [| | | by destruct (Hop config)].
  - unfold mark_host_reachable. destruct (info_by_hostname c r h) eqn:Hi; [| done]. by apply mark_update_ok.
  - unfold mark_node_reachable. destruct (node_name_to_hostname c r n) as [h|]; [| done].
    destruct (info_by_hostname c r h) eqn:Hi; [| done]. by apply mark_update_ok.
  - intros Hall. destruct Hc as (r' & Hr' & Hm).
    + intros r' m Hm. destruct (decide (r = r')) as [-> | Hne].
      * rw -(set_node_name_reachable h name). apply (Hall r'). simpl. by rw lookup_alter_eq Hm.
      * apply (Hall r'). simpl. by rw lookup_alter_ne.
    + exists r'. split; [done |]. by apply lookup_alter_is_Some.
Qed.

Lemma run_ops_canary_ok c ops : (∀ config, ConfigUpdate config ∉ ops) →
  canary_ok c → canary_ok (run_ops c ops) ∧
  ∀ r, is_Some (remotes (run_ops c ops) !! r) ↔ is_Some (remotes c !! r).
Proof.
  revert c. induction ops as [|op ops IH]; intros c Hops Hc; [by split |].
  assert (∀ config, op ≠ ConfigUpdate config) as Hop.
  { intros config ->. apply (Hops config). apply list_elem_of_here. }
  destruct (IH (run_op c op)) as [Hok Hr].
  - intros config H. apply (Hops config). by apply list_elem_of_further.
  - by apply run_op_canary_ok.
  - split; [done |]. intros r. unfold run_ops. simpl. rw (Hr r). by apply run_op_remotes.
Qed.
