(* ===== verification/MultiClient.v ===== *)
(** * Fail-over between the nodes of a remote

    [MultiClient] of server/src/connection.rs: the shared position in the list of nodes, the
    iterator over the clients to try and the request loop of the macro [try_request].  Tasks
    share the position, so other tasks can advance it between any two steps; they can also
    change the remote mapping cache.  A [moment] of the environment says what happens around
    one round of the loop: what others do, the clock, the answer to the request.
    The second part has the order in which clients are tried. *)
From S2P Require Import Prelude RustStr Remotes RemoteCache.

#[local] Open Scope Z_scope.

Section multi_client.
Context {Client : Type}.

Record MultiClientEntry := Entry { entry_client : Client; entry_hostname : string }.

(** ** The shared position *)
Record MultiClientState := {
  current : Z;     (* usize, not modulo the client count *)
  state_remote : string;
  entries : list MultiClientEntry;
}.

Definition set_current (z : Z) (st : MultiClientState) : MultiClientState :=
  {| current := z; state_remote := state_remote st; entries := entries st |}.

Definition entry_count (st : MultiClientState) : Z := Z.of_nat (length (entries st)).

(** [next] *)
Definition move_next (st : MultiClientState) : MultiClientState :=
  set_current (u64 (current st + 1)) st.

(** [get_at]; [None] is the panic on an empty list. *)
Definition get_at (st : MultiClientState) (at_ : Z) : option MultiClientEntry :=
  entries st !! Z.to_nat (at_ `mod` entry_count st).
Definition get_entry (st : MultiClientState) : option MultiClientEntry := get_at st (current st).

Fixpoint skip_loop (rounds : nat) (reachable : string → bool) (st : MultiClientState)
    : MultiClientState :=
  match rounds with
  | O => st
  | S rounds' =>
      match get_entry st with
      | Some e => if reachable (entry_hostname e) then st
                  else skip_loop rounds' reachable (move_next st)
      | None => st
      end
  end.
(** [skip_unreachable]; [reachable] is [cache.host_is_reachable(&self.remote, ..)]. *)
Definition skip_unreachable (reachable : string → bool) (st : MultiClientState)
    : MultiClientState := skip_loop (length (entries st)) reachable st.

(** [MultiClientState::new] *)
Definition state_new (c : RemoteMappingCache) (remote : string) (l : list MultiClientEntry)
    : MultiClientState :=
  skip_unreachable (host_is_reachable c remote)
    {| current := 0; state_remote := remote; entries := l |}.

Definition tried_clients (st : MultiClientState) (start : Z) : Z := u64 (current st - start).
Definition tried_all_since (st : MultiClientState) (start : Z) : bool :=
  entry_count st <=? tried_clients st start.

(** ** The iterator of [try_clients]: the variables its closure captures *)
Record TryIter := {
  start_current : option (Z * Z);
  unreachable_clients : list Z;
  try_unreachable : option (list Z);
}.
Definition try_clients : TryIter :=
  {| start_current := None; unreachable_clients := []; try_unreachable := None |}.

(** Where the client comes from: the shared position, or the clients skipped before. *)
Inductive pick := Current (at_ : Z) | Remembered (at_ : Z).
Definition pick_at (p : pick) : Z := match p with Current z | Remembered z => z end.

(** [while at != new_current { unreachable_clients.push(at); at = at.wrapping_add(1) }];
    [None] when [fuel] is not enough. *)
Fixpoint remember (fuel : nat) (at_ new_current : Z) (acc : list Z) : option (list Z) :=
  if at_ =? new_current then Some acc
  else match fuel with
       | O => None
       | S fuel' => remember fuel' (u64 (at_ + 1)) new_current (acc ++ [at_])
       end.

Definition pop_unreachable (l : list Z) (it : TryIter) : option pick * TryIter :=
  let it' rest := {| start_current := start_current it;
                     unreachable_clients := unreachable_clients it;
                     try_unreachable := Some rest |} in
  match l with
  | at_ :: rest => (Some (Remembered at_), it' rest)
  | [] => (None, it' [])
  end.

(** One call of the closure.  [None] when the inner loop does not end within the number of
    clients; [fuse] keeps the end of the iterator. *)
Definition try_next (reachable : string → bool) (it : TryIter) (st : MultiClientState)
    : option (option pick * TryIter * MultiClientState) :=
  match try_unreachable it with
  | Some l => let '(p, it') := pop_unreachable l it in Some (p, it', st)
  | None =>
      match start_current it with
      | None =>
          Some (Some (Current (current st)),
                {| start_current := Some (current st, current st);
                   unreachable_clients := unreachable_clients it;
                   try_unreachable := None |}, st)
      | Some (start, cur) =>
          let st := if current st =? cur then skip_unreachable reachable (move_next st) else st in
          if tried_all_since st start then
            let '(p, it') := pop_unreachable (unreachable_clients it)
              {| start_current := Some (start, cur); unreachable_clients := [];
                 try_unreachable := None |} in
            Some (p, it', st)
          else
            match remember (length (entries st)) (u64 (cur + 1)) (current st) (unreachable_clients it) with
            | Some l =>
                Some (Some (Current (current st)),
                      {| start_current := Some (start, current st);
                         unreachable_clients := l; try_unreachable := None |}, st)
            | None => None
            end
      end
  end.

(** [TryClient]: the client with its host and the reachability it was labelled with. *)
Record TryClient := { tc_client : Client; tc_hostname : string; tc_reachable : bool }.

(** [try_client_for_entry] for the shared position, [TryClient::unreachable] otherwise *)
Definition try_client (c : RemoteMappingCache) (st : MultiClientState) (p : pick)
    : option TryClient :=
  e ← get_at st (pick_at p);
  Some {| tc_client := entry_client e; tc_hostname := entry_hostname e;
          tc_reachable := match p with
                          | Current _ => host_is_reachable c (state_remote st) (entry_hostname e)
                          | Remembered _ => false
                          end |}.
End multi_client.
Arguments MultiClientEntry : clear implicits.
Arguments MultiClientState : clear implicits.
Arguments TryClient : clear implicits.

(** * The order in which a request tries the nodes

    Facts on the iterator of [try_clients] when other tasks share the position: it ends, the
    positions it has picked or remembered are always an interval that starts at the position
    of its first pick, and no position is picked twice. *)

#[local] Open Scope Z_scope.

Section iter.
Context {Client : Type}.
Implicit Types st : MultiClientState Client.

(** What happens before one call of the iterator: other tasks advance the position by
    [advanced], and the cache says which hosts are reachable. *)
Record iter_env := { advanced : Z; reach : string → bool }.

Definition advance_by (k : Z) st : MultiClientState Client := set_current (u64 (current st + k)) st.

(** Exhaust the iterator: the picks in order, [None] when [fuel] calls are not enough. *)
Fixpoint drive (fuel : nat) (envs : nat → iter_env) (i : nat) (it : TryIter) st
    : option (list pick) :=
  match fuel with
  | O => None
  | S fuel' =>
      match try_next (reach (envs i)) it (advance_by (advanced (envs i)) st) with
      | Some (Some p, it', st') =>
          match drive fuel' envs (S i) it' st' with
          | Some l => Some (p :: l)
          | None => None
          end
      | Some (None, _, _) => Some []
      | None => None
      end
  end.

(** ** The loops *)
Lemma skip_loop_spec rounds r st : 0 ≤ current st → current st + Z.of_nat rounds < 2 ^ 64 →
  entries (skip_loop rounds r st) = entries st ∧
  state_remote (skip_loop rounds r st) = state_remote st ∧
  current st ≤ current (skip_loop rounds r st) ≤ current st + Z.of_nat rounds.
Proof.
  revert st. induction rounds as [|n IH]; intros st H0 Hlim; simpl; [split_and!; [done | done | lia | lia] |].
  destruct (get_entry st) as [e|]; [| split_and!; [done | done | lia | lia]].
  destruct (r (entry_hostname e)); [split_and!; [done | done | lia | lia] |].
  destruct (IH (move_next st)) as (-> & -> & H); simpl in *; rw ?u64_id; try lia; try done.
  rw u64_id in H; [lia |]. split_and!; [done | done | lia | lia].
Qed.

Lemma remember_spec fuel at_ new acc : 0 ≤ at_ → at_ ≤ new < 2 ^ 64 → new - at_ ≤ Z.of_nat fuel →
  remember fuel at_ new acc = Some (acc ++ seqZ at_ (new - at_)).
Proof.
  revert at_ acc. induction fuel as [|fuel IH]; intros at_ acc H0 Hle Hf; simpl.
  - assert (at_ = new) as -> by lia. by rw Z.eqb_refl Z.sub_diag app_nil_r.
  - destruct (Z.eqb_spec at_ new) as [-> | Hne]; [by rw Z.sub_diag app_nil_r |].
    rw u64_id; [lia |]. rw IH; [lia | lia | lia |].
    rw -app_assoc. do 2 f_equal. rw (seqZ_cons at_); [lia |]. simpl. do 2 f_equal; lia.
Qed.

(** ** The invariant

    [ps] are the positions picked so far, [s] is the first of them. *)
Inductive iter_inv (n s : Z) (ps : list Z) (it : TryIter) (cur_st : Z) : Prop :=
| inv_main cur :
    try_unreachable it = None → start_current it = Some (s, cur) →
    s ≤ cur ≤ cur_st → cur - s < n →
    ps ++ unreachable_clients it ≡ₚ seqZ s (cur - s + 1) →
    iter_inv n s ps it cur_st
| inv_last l k :
    try_unreachable it = Some l → 0 < k ≤ n →
    ps ++ l ≡ₚ seqZ s k →
    iter_inv n s ps it cur_st.

Lemma iter_inv_mono n s ps it z z' : z ≤ z' → iter_inv n s ps it z → iter_inv n s ps it z'.
Proof. intros Hz [cur ? ? ? ? ?|]; [eapply inv_main | eapply inv_last]; try done. lia. Qed.

Lemma iter_inv_length n s ps it z : iter_inv n s ps it z → Z.of_nat (length ps) ≤ n.
Proof.
  intros [cur _ _ Hc Hn Hp | l k _ Hk Hp]; apply Permutation_length in Hp;
    rw length_app length_seqZ in Hp; lia.
Qed.

(** When the iterator has ended nothing remembered is left. *)
Definition exhausted (n s : Z) (ps : list Z) : Prop :=
  0 < Z.of_nat (length ps) ≤ n ∧ ps ≡ₚ seqZ s (Z.of_nat (length ps)).

Lemma try_next_first r st :
  try_next r try_clients st =
    Some (Some (Current (current st)),
          {| start_current := Some (current st, current st);
             unreachable_clients := []; try_unreachable := None |}, st).
Proof. done. Qed.

Lemma first_inv n z : 0 < n →
  iter_inv n z [z] {| start_current := Some (z, z); unreachable_clients := []; try_unreachable := None |} z.
Proof.
  intros Hn. apply (inv_main _ _ _ _ _ z); simpl; [done | done | lia | lia |].
  replace (z - z + 1) with 1 by lia. rw (seqZ_cons z); [lia |]. done.
Qed.

Lemma pop_inv n s ps l k it z : 0 < k ≤ n → ps ++ l ≡ₚ seqZ s k →
  match pop_unreachable l it with
  | (Some p, it') => iter_inv n s (ps ++ [pick_at p]) it' z
  | (None, it') => exhausted n s ps ∧ try_unreachable it' = Some []
  end.
Proof.
  intros Hk Hp. destruct l as [|a l]; simpl.
  - rw app_nil_r in Hp. split; [| done].
    pose proof (Permutation_length Hp) as Hl. rw length_seqZ in Hl. split; [lia |].
    by rw Hl Z2Nat.id; [lia |].
  - apply (inv_last _ _ _ _ _ l k); [done | done |]. by rw -app_assoc.
Qed.

(** One call keeps the invariant; the position moves by at most the number of clients. *)
Lemma try_next_inv r s ps it st : let n := entry_count st in
  0 < n → 0 ≤ s → iter_inv n s ps it (current st) → current st + n + 1 < 2 ^ 64 →
  match try_next r it st with
  | Some (o, it', st') =>
      entries st' = entries st ∧ state_remote st' = state_remote st ∧
      current st ≤ current st' ≤ current st + n + 1 ∧
      match o with
      | Some p => iter_inv n s (ps ++ [pick_at p]) it' (current st')
      | None => exhausted n s ps
      end
  | None => False
  end.
Proof.
  intros n Hn Hs Hinv Hlim. unfold try_next. destruct Hinv as [cur Ht Hst Hc Hcn Hp | l k Ht Hk Hp]; rw Ht.
  2:{ pose proof (pop_inv n s ps l k it (current st) Hk Hp).
      destruct (pop_unreachable l it) as [[p|] it']; split_and!; try done; try lia. naive_solver. }
  rw Hst. set (st1 := if current st =? cur then _ else st).
  assert (entries st1 = entries st ∧ state_remote st1 = state_remote st ∧
    cur < current st1 ∧ current st ≤ current st1 ≤ current st + n + 1) as (He & Hr & Hlt & Hle).
  { subst st1. destruct (Z.eqb_spec (current st) cur) as [<- |]; [| split_and!; [done | done | lia | lia | lia]].
    destruct (skip_loop_spec (length (entries st)) r (move_next st)) as (H1 & H2 & H3); simpl in *;
      rw ?u64_id; try (unfold n, entry_count in *; lia).
    rw u64_id in H3; [lia |]. unfold n, entry_count in *.
    split_and!; [by rw H1 | by rw H2 | | |]; unfold skip_unreachable; simpl; lia. }
  clearbody st1. unfold tried_all_since, tried_clients.
  rw u64_id; [lia |]. assert (entry_count st1 = n) as -> by (unfold n, entry_count; by rw He).
  destruct (Z.leb_spec n (current st1 - s)).
  - pose proof (pop_inv n s ps (unreachable_clients it) (cur - s + 1)
      {| start_current := Some (s, cur); unreachable_clients := []; try_unreachable := None |}
      (current st1) ltac:(lia) Hp).
    destruct (pop_unreachable _ _) as [[p|] it']; split_and!; try done; try lia. naive_solver.
  - rw u64_id; [lia |]. rw remember_spec; [lia | lia | rw He; unfold n, entry_count in *; lia |].
    split_and!; [done | done | lia | lia |].
    apply (inv_main _ _ _ _ _ (current st1)); simpl; [done | done | lia | lia |].
    replace (current st1 - s + 1) with ((cur - s + 1) + (current st1 - cur)) by lia.
    rw seqZ_app; [lia | lia |]. rw -Hp. replace (s + (cur - s + 1)) with (cur + 1) by lia.
    replace (current st1 - cur) with ((current st1 - (cur + 1)) + 1) by lia.
    rw (seqZ_app (cur + 1)); [lia | lia |].
    replace (cur + 1 + (current st1 - (cur + 1))) with (current st1) by lia.
    rw (seqZ_cons (current st1) 1); [lia |]. simpl. solve_Permutation.
Qed.

Lemma drive_inv fuel envs i A s ps it st : let n := entry_count st in
  0 < n → 0 ≤ s → iter_inv n s ps it (current st) → 0 ≤ current st →
  (∀ j, 0 ≤ advanced (envs j) ≤ A) → n - Z.of_nat (length ps) < Z.of_nat fuel →
  current st + Z.of_nat fuel * (A + n + 1) < 2 ^ 64 →
  ∃ picks, drive fuel envs i it st = Some picks ∧ exhausted n s (ps ++ (pick_at <$> picks)).
Proof.
  cbv zeta. revert i ps it st.
  induction fuel as [|fuel IH]; intros i ps it st Hn Hs Hinv H0 HA Hf Hlim.
  { apply iter_inv_length in Hinv. lia. }
  simpl. pose proof (HA i) as HAi. set (st1 := advance_by (advanced (envs i)) st).
  assert (current st1 = current st + advanced (envs i)) as E1 by (simpl; rw u64_id; nia).
  pose proof (try_next_inv (reach (envs i)) s ps it st1) as H. cbv zeta in H.
  destruct (try_next _ _ _) as [[[[p|] it'] st']|].
  - destruct H as (He & Hr & Hc & Hinv'); [done | done | | |].
    { eapply iter_inv_mono; [| exact Hinv]. lia. }
    { rw E1. change (entry_count st1) with (entry_count st). nia. }
    assert (entry_count st' = entry_count st) as En by (unfold entry_count; by rw He).
    change (entry_count st1) with (entry_count st) in *.
    destruct (IH (S i) (ps ++ [pick_at p]) it' st') as (picks & -> & Hex); rw ?En; try done.
    + lia.
    + rw length_app /=. lia.
    + rw Nat2Z.inj_succ in Hlim. nia.
    + exists (p :: picks). split; [done |]. rw En -app_assoc /= in Hex. done.
  - destruct H as (_ & _ & _ & Hex); [done | done | | |].
    { eapply iter_inv_mono; [| exact Hinv]. lia. }
    { rw E1. change (entry_count st1) with (entry_count st). nia. }
    exists []. split; [done |]. by rw app_nil_r.
  - exfalso. apply H; [done | done | |].
    { eapply iter_inv_mono; [| exact Hinv]. lia. }
    { rw E1. change (entry_count st1) with (entry_count st). nia. }
Qed.

(** ** Without interference and with all hosts reachable every client is tried in order *)
Definition calm : nat → iter_env := λ _, {| advanced := 0; reach := λ _, true |}.

Lemma drive_calm fuel i s c st : let n := entry_count st in
  0 ≤ s ≤ c → current st = c → c - s < n → s + n < 2 ^ 64 → s + n - 1 - c < Z.of_nat fuel →
  drive fuel calm i
    {| start_current := Some (s, c); unreachable_clients := []; try_unreachable := None |} st
  = Some (Current <$> seqZ (c + 1) (s + n - 1 - c)).
Proof.
  cbv zeta. revert i c st. induction fuel as [|fuel IH]; intros i c st Hsc Hc Hn Hlim Hf; [lia |].
  simpl. unfold try_next. simpl. rw Z.add_0_r u64_id; [lia |]. rw Hc Z.eqb_refl.
  unfold skip_unreachable. simpl.
  assert (∀ k, skip_loop (length (entries st)) (λ _, true) (set_current k st) = set_current k st) as Hskip.
  { intros k. destruct (length (entries st)) as [|m]; simpl; [done |]. by destruct (get_entry _). }
  unfold move_next, advance_by. simpl. rw Z.add_0_r (u64_id (current st)); [lia |].
  rw Hc (u64_id (c + 1)); [lia |].
  change (set_current (c + 1) (set_current c st)) with (set_current (c + 1) st). rw Hskip.
  unfold tried_all_since, tried_clients. simpl. rw u64_id; [lia |].
  change (entry_count (set_current (c + 1) st)) with (entry_count st).
  destruct (Z.leb_spec (entry_count st) (c + 1 - s)).
  - simpl. replace (s + entry_count st - 1 - c) with 0 by lia. done.
  - destruct (length (entries st)) as [|m] eqn:El; [unfold entry_count in *; lia |].
    simpl. rw Z.eqb_refl.
    pose proof (IH (S i) (c + 1) (set_current (c + 1) st)) as E.
    change (entry_count (set_current (c + 1) st)) with (entry_count st) in E.
    rw E; [lia | done | lia | lia | lia |].
    rw (seqZ_cons (c + 1) (s + _ - 1 - c)); [lia |]. simpl. do 4 f_equal; lia.
Qed.
End iter.
