(* ===== verification/TryRequest.v ===== *)
(** * The request loop

    The macro [try_request] of server/src/connection.rs, which sends a request to the nodes of a
    remote until one gives a definite answer.  [ms] gives the [moment] of every round.

    The loop ends within one round more than there are nodes; requests that are not idempotent
    go on to another node only when the connection failed or timed out; and without
    interference the answer is that of the first node in the rotation that has a definite one. *)
From S2P Require Import Prelude RustStr Remotes RemoteCache MultiClient.

#[local] Open Scope Z_scope.

(** [proxmox_client::Error], as far as the loop distinguishes it *)
Inductive client_error :=
| Connect (msg : string)      (* the request did not reach the server *)
| ClientFailed (msg : string) (* [Error::Client]: failed after connecting *)
| Other (msg : string)
| Anyhow (msg : string).

Section request.
Context {Client Response : Type}.
(** [err.to_string()] *)
Context (show_error : client_error → string).

(** What one request comes to; [None] when it times out. *)
Definition outcome : Type := option (result client_error Response).

Record moment := {
  others_advance : Z;
  before_next : RemoteMappingCache → RemoteMappingCache;
  before_check : RemoteMappingCache → RemoteMappingCache;
  during_request : RemoteMappingCache → RemoteMappingCache;
  check_time : Z;
  mark_time : Z;
  saved : bool;                (* taking the cache lock and writing the cache succeed *)
  reply : Client → outcome;
}.

(** The variables of the loop, the shared state and the requests sent so far. *)
Record request_loop := {
  lp_state : MultiClientState Client;
  lp_iter : TryIter;
  lp_cache : RemoteMappingCache;
  lp_last_err : option client_error;
  lp_timed_out : bool;
  lp_connect_retry : option (Client * string);
  lp_first : bool;
  lp_sent : list (Client * outcome);
}.

(** [if let Ok(mut cache) = write() { cache.mark_host_reachable(..); let _ = cache.save(); }] *)
Definition mark_saved (m : moment) (r h : string) (s : ConnectionState) (c : RemoteMappingCache)
    : RemoteMappingCache :=
  if saved m then mark_host_reachable (mark_time m) r h s c else c.

(** [if let Some((back_off_time, _)) = .. { if back_off_time > 0 {..} }] *)
Definition backing_off (o : option (Z * string)) : bool :=
  match o with Some (t, _) => 0 <? t | None => false end.

Inductive round :=
| LoopEnd (lp : request_loop)
| Continue (lp : request_loop)
| Return (r : result client_error Response) (lp : request_loop).

(** How an answer is treated: [Some] when the loop returns it. *)
Definition definite (idempotent : bool) (o : outcome) : option (result client_error Response) :=
  match o with
  | Some (Err (Connect _)) => None
  | Some (Err (ClientFailed e)) => if idempotent then None else Some (Err (ClientFailed e))
  | Some r => Some r
  | None => None
  end.

(** The round after the iterator gave the client [tc]. *)
Definition attempt_client (idempotent : bool) (m : moment) (tc : TryClient Client) (lp : request_loop)
    : round :=
  let r := state_remote (lp_state lp) in
  let c := before_check m (lp_cache lp) in
  if backing_off (host_time_to_next_try c r (tc_hostname tc) (check_time m)) then
    Continue {| lp_state := lp_state lp; lp_iter := lp_iter lp; lp_cache := c;
                lp_last_err := lp_last_err lp; lp_timed_out := lp_timed_out lp;
                lp_connect_retry := lp_connect_retry lp; lp_first := lp_first lp;
                lp_sent := lp_sent lp |}
  else
    let o := reply m (tc_client tc) in
    let c := during_request m c in
    let sent := lp_sent lp ++ [(tc_client tc, o)] in
    match definite idempotent o with
    | Some res =>
        let surfaced := match o with Some (Err (ClientFailed _)) => true | _ => false end in
        Return res
          {| lp_state := lp_state lp; lp_iter := lp_iter lp;
             lp_cache := if negb (tc_reachable tc) && negb surfaced
                         then mark_saved m r (tc_hostname tc) Reachable c else c;
             lp_last_err := None; lp_timed_out := false;
             lp_connect_retry := lp_connect_retry lp; lp_first := lp_first lp; lp_sent := sent |}
    | None =>
        let last_err := match o with Some (Err e) => Some e | _ => None end in
        let timed_out := match o with None => true | _ => false end in
        let err := if timed_out then Some "request timed out" else show_error <$> last_err in
        Continue
          {| lp_state := lp_state lp; lp_iter := lp_iter lp;
             lp_cache := match err with
                         | Some e => mark_saved m r (tc_hostname tc) (Unreachable e) c
                         | None => c
                         end;
             lp_last_err := last_err; lp_timed_out := timed_out;
             lp_connect_retry := match o with
                                 | Some (Err (Connect _)) =>
                                     if lp_first lp then Some (tc_client tc, tc_hostname tc)
                                     else lp_connect_retry lp
                                 | _ => lp_connect_retry lp
                                 end;
             lp_first := false; lp_sent := sent |}
    end.

(** One round of the [for] loop; [None] when the iterator gets stuck. *)
Definition try_round (idempotent : bool) (m : moment) (lp : request_loop) : option round :=
  let c := before_next m (lp_cache lp) in
  let st := advance_by (others_advance m) (lp_state lp) in
  let with_iter it st :=
    {| lp_state := st; lp_iter := it; lp_cache := c; lp_last_err := lp_last_err lp;
       lp_timed_out := lp_timed_out lp; lp_connect_retry := lp_connect_retry lp;
       lp_first := lp_first lp; lp_sent := lp_sent lp |} in
  match try_next (host_is_reachable c (state_remote st)) (lp_iter lp) st with
  | None => None
  | Some (None, it, st) => Some (LoopEnd (with_iter it st))
  | Some (Some p, it, st) =>
      match try_client c st p with
      | Some tc => Some (attempt_client idempotent m tc (with_iter it st))
      | None => None
      end
  end.

Fixpoint try_loop (fuel : nat) (idempotent : bool) (ms : nat → moment) (i : nat) (lp : request_loop)
    : option (option (result client_error Response) * nat * request_loop) :=
  match fuel with
  | O => None
  | S fuel' =>
      match try_round idempotent (ms i) lp with
      | None => None
      | Some (LoopEnd lp') => Some (None, S i, lp')
      | Some (Return r lp') => Some (Some r, S i, lp')
      | Some (Continue lp') => try_loop fuel' idempotent ms (S i) lp'
      end
  end.

(** What follows the loop: the retry of the first endpoint and the error to report. *)
Definition after_loop (m : moment) (lp : request_loop)
    : result client_error Response * request_loop :=
  let gives_up lp : result client_error Response * request_loop :=
    (Err match lp_last_err lp with
         | Some e => e
         | None => if lp_timed_out lp then Other "failed to perform API request: timed out"
                   else Other "failed to perform API request: unknown error"
         end, lp) in
  match lp_connect_retry lp with
  | None => gives_up lp
  | Some (client, hostname) =>
      let o := reply m client in
      let c := during_request m (lp_cache lp) in
      let with_cache c :=
        {| lp_state := lp_state lp; lp_iter := lp_iter lp; lp_cache := c;
           lp_last_err := lp_last_err lp; lp_timed_out := lp_timed_out lp;
           lp_connect_retry := lp_connect_retry lp; lp_first := lp_first lp;
           lp_sent := lp_sent lp ++ [(client, o)] |} in
      match o with
      | Some (Ok a) =>
          (Ok a, with_cache (mark_saved m (state_remote (lp_state lp)) hostname Reachable c))
      | Some (Err e) => (Err e, with_cache c)
      | None => gives_up (with_cache c)
      end
  end.

Definition start_loop (st : MultiClientState Client) (c : RemoteMappingCache) : request_loop := {|
  lp_state := st; lp_iter := try_clients; lp_cache := c; lp_last_err := None;
  lp_timed_out := false; lp_connect_retry := None; lp_first := true; lp_sent := [];
|}.

(** [try_request!]: [params] is the serialized argument. *)
Definition try_request {P} (fuel : nat) (idempotent : bool) (params : result string P)
    (now : Z) (ms : nat → moment) (st : MultiClientState Client) (c : RemoteMappingCache)
    : option (result client_error Response * request_loop) :=
  let lp := start_loop st c in
  let go :=
    match params with
    | Err e => Some (Err (Anyhow e), lp)
    | Ok _ =>
        match try_loop fuel idempotent ms 0 lp with
        | Some (Some r, _, lp') => Some (r, lp')
        | Some (None, i, lp') => Some (after_loop (ms i) lp')
        | None => None
        end
    end in
  match remote_time_to_next_try c (state_remote st) now with
  | Some (back_off_time, last_error) =>
      if 0 <? back_off_time then Some (Err (Connect last_error), lp) else go
  | None => go
  end.
End request.
Arguments moment : clear implicits.
Arguments request_loop : clear implicits.
Arguments outcome : clear implicits.

Section facts.
Context {Client Response : Type} (show_error : client_error → string).
Abbreviation moment := (moment Client Response).
Abbreviation request_loop := (request_loop Client Response).
Abbreviation try_round := (try_round show_error).
Abbreviation try_loop := (try_loop show_error).
Abbreviation try_request := (try_request show_error).

(** ** The loop ends *)
Definition loop_inv (n : Z) (ps : list Z) (lp : request_loop) : Prop :=
  entry_count (lp_state lp) = n ∧ 0 ≤ current (lp_state lp) ∧
  (lp_iter lp = try_clients ∧ ps = [] ∨
   ∃ s, 0 ≤ s ∧ iter_inv n s ps (lp_iter lp) (current (lp_state lp))).

Lemma attempt_client_shape idem (m : moment) tc (lp : request_loop) :
  match attempt_client show_error idem m tc lp with
  | LoopEnd _ => False
  | Continue lp' | Return _ lp' =>
      lp_state lp' = lp_state lp ∧ lp_iter lp' = lp_iter lp ∧
      (length (lp_sent lp') ≤ S (length (lp_sent lp)))%nat
  end.
Proof.
  unfold attempt_client. destruct (backing_off _); [simpl; split_and!; try done; lia |].
  destruct (definite _ _); simpl; rw length_app /=; split_and!; try done; lia.
Qed.

Lemma get_at_total (st : MultiClientState Client) z : 0 < entry_count st → is_Some (get_at st z).
Proof.
  unfold entry_count. intros Hn. apply lookup_lt_is_Some.
  pose proof (Z.mod_pos_bound z (entry_count st) Hn). unfold entry_count in *. lia.
Qed.

Lemma try_round_inv idem (m : moment) A n ps (lp : request_loop) :
  0 < n → loop_inv n ps lp → 0 ≤ others_advance m ≤ A → current (lp_state lp) + A + n + 1 < 2 ^ 64 →
  match try_round idem m lp with
  | None => False
  | Some (LoopEnd lp') => (length (lp_sent lp') = length (lp_sent lp))%nat
  | Some (Return _ lp') => (length (lp_sent lp') ≤ S (length (lp_sent lp)))%nat
  | Some (Continue lp') =>
      (∃ p, loop_inv n (ps ++ [p]) lp') ∧
      current (lp_state lp') ≤ current (lp_state lp) + A + n + 1 ∧
      (length (lp_sent lp') ≤ S (length (lp_sent lp)))%nat
  end.
Proof.
  intros Hn (En & H0 & Hit) HA Hlim. unfold TryRequest.try_round.
  set (st := advance_by (others_advance m) (lp_state lp)).
  assert (current st = current (lp_state lp) + others_advance m) as Ec by (simpl; rw u64_id; lia).
  assert (entry_count st = n) as En' by done.
  set (r := host_is_reachable _ _).
  assert (match try_next r (lp_iter lp) st with
    | Some (o, it', st') => entry_count st' = n ∧ current st ≤ current st' ≤ current st + n + 1 ∧
        match o with Some p => ∃ s, 0 ≤ s ∧ iter_inv n s (ps ++ [pick_at p]) it' (current st') | None => True end
    | None => False end) as Hnext.
  { destruct Hit as [[-> ->] | (s & Hs & Hinv)].
    - rw try_next_first. split_and!; [done | lia | lia |]. exists (current st). split; [lia |]. by apply first_inv.
    - pose proof (try_next_inv r s ps (lp_iter lp) st) as H. cbv zeta in H. rw En' in H.
      assert (iter_inv n s ps (lp_iter lp) (current st)) as Hinv'.
      { eapply iter_inv_mono; [| exact Hinv]. lia. }
      specialize (H Hn Hs Hinv' ltac:(lia)). destruct (try_next _ _ _) as [[[o it'] st']|]; [| done].
      destruct H as (He & _ & Hc & Ho). split_and!; [unfold entry_count in *; by rw He | lia | lia |].
      destruct o; [by eauto | done]. }
  destruct (try_next r (lp_iter lp) st) as [[[[p|] it'] st']|]; [| done | done].
  destruct Hnext as (En'' & Hc & Hinv). unfold try_client.
  destruct (get_at_total st' (pick_at p) ltac:(lia)) as [e ->]. simpl.
  match goal with |- context [attempt_client _ _ _ ?tc ?l] => pose proof (attempt_client_shape idem m tc l) as Hs end.
  destruct (attempt_client _ _ _ _ _); simpl in Hs; [done | | naive_solver].
  destruct Hs as (Es & Ei & Hl). split_and!; [exists (pick_at p) | rw Es; lia | done].
  split_and!; [by rw Es | rw Es; lia | right]. by rw Ei Es.
Qed.

Lemma loop_inv_length n ps (lp : request_loop) : 0 < n → loop_inv n ps lp → Z.of_nat (length ps) ≤ n.
Proof. intros Hn (_ & _ & [[_ ->] | (s & _ & H)]); [simpl; lia | by eapply iter_inv_length]. Qed.

Lemma try_loop_ends fuel idem (ms : nat → moment) A i n ps (lp : request_loop) :
  0 < n → loop_inv n ps lp → (∀ j, 0 ≤ others_advance (ms j) ≤ A) →
  n - Z.of_nat (length ps) < Z.of_nat fuel →
  current (lp_state lp) + Z.of_nat fuel * (A + n + 1) < 2 ^ 64 →
  (length (lp_sent lp) ≤ length ps)%nat →
  ∃ o i' lp', try_loop fuel idem ms i lp = Some (o, i', lp') ∧ Z.of_nat (length (lp_sent lp')) ≤ n + 1 ∧
    (o = None → Z.of_nat (length (lp_sent lp')) ≤ n).
Proof.
  intros Hn. revert i ps lp. induction fuel as [|fuel IH]; intros i ps lp Hinv HA Hf Hlim Hsent.
  { apply loop_inv_length in Hinv; [lia | done]. }
  simpl. pose proof (HA i) as HAi.
  pose proof (try_round_inv idem (ms i) A n ps lp Hn Hinv HAi ltac:(rw Nat2Z.inj_succ in Hlim; nia)) as H.
  pose proof (loop_inv_length n ps lp Hn Hinv).
  destruct (try_round idem (ms i) lp) as [[lp' | lp' | r lp']|]; [| | | done].
  - eexists None, _, lp'. split; [done |]. lia.
  - destruct H as ([p Hp] & Hc & Hl). apply (IH _ (ps ++ [p])); try done.
    + rw length_app /=. lia.
    + rw Nat2Z.inj_succ in Hlim. nia.
    + rw length_app /=. lia.
  - eexists (Some r), _, lp'. split; [done |]. split; [lia | done].
Qed.

Lemma after_loop_sent (m : moment) (lp : request_loop) :
  (length (lp_sent (after_loop m lp).2) ≤ S (length (lp_sent lp)))%nat.
Proof.
  unfold after_loop. destruct (lp_connect_retry lp) as [[cl h]|]; [| simpl; lia].
  repeat case_match; simpl; rw length_app /=; lia.
Qed.

(** ** Requests that are not idempotent *)
Definition connect_failed (p : Client * outcome Response) : Prop :=
  ∃ e, p.2 = Some (Err (Connect e)).

(** The requests sent, when a loop that does not see time-outs goes on or returns. *)
Lemma attempt_client_once (m : moment) tc (lp : request_loop) :
  (∀ cl, reply m cl ≠ None) → Forall connect_failed (lp_sent lp) →
  match attempt_client show_error false m tc lp with
  | LoopEnd _ => False
  | Continue lp' => Forall connect_failed (lp_sent lp')
  | Return r lp' => ∃ cl, lp_sent lp' = lp_sent lp ++ [(cl, Some r)]
  end.
Proof.
  intros Hm Hs. unfold attempt_client. destruct (backing_off _); [done |].
  specialize (Hm (tc_client tc)).
  destruct (reply m (tc_client tc)) as [[a | [e | e | e | e]]|]; [| | | | | done]; simpl; try by eexists.
  apply Forall_app. split; [done |]. constructor; [by eexists | constructor].
Qed.

Lemma try_round_once (m : moment) (lp : request_loop) :
  (∀ cl, reply m cl ≠ None) → Forall connect_failed (lp_sent lp) →
  match try_round false m lp with
  | None => True
  | Some (LoopEnd lp' | Continue lp') => Forall connect_failed (lp_sent lp')
  | Some (Return r lp') =>
      ∃ pre cl, lp_sent lp' = pre ++ [(cl, Some r)] ∧ Forall connect_failed pre
  end.
Proof.
  intros Hm Hs. unfold TryRequest.try_round. destruct (try_next _ _ _) as [[[[p|] it] st]|]; [| done | done].
  destruct (try_client _ _ _) as [tc|]; [| done].
  match goal with |- context [attempt_client _ _ _ _ ?l] => pose proof (attempt_client_once m tc l Hm Hs) as H end.
  destruct (attempt_client _ _ _ _ _); [done | done |]. destruct H as [cl ->]. eauto.
Qed.

Lemma try_loop_once fuel (ms : nat → moment) i (lp : request_loop) :
  (∀ j cl, reply (ms j) cl ≠ None) → Forall connect_failed (lp_sent lp) →
  match try_loop fuel false ms i lp with
  | None => True
  | Some (None, _, lp') => Forall connect_failed (lp_sent lp')
  | Some (Some r, _, lp') =>
      ∃ pre cl, lp_sent lp' = pre ++ [(cl, Some r)] ∧ Forall connect_failed pre
  end.
Proof.
  intros Hm. revert i lp. induction fuel as [|fuel IH]; intros i lp Hs; simpl; [done |].
  pose proof (try_round_once (ms i) lp (Hm i) Hs) as H.
  destruct (try_round false (ms i) lp) as [[lp' | lp' | r lp']|]; [done | by apply IH | done | done].
Qed.

Lemma after_loop_once (m : moment) (lp : request_loop) :
  (∀ cl, reply m cl ≠ None) →
  lp_sent (after_loop m lp).2 = lp_sent lp ∨
  ∃ cl, lp_sent (after_loop m lp).2 = lp_sent lp ++ [(cl, Some (after_loop m lp).1)].
Proof.
  intros Hm. unfold after_loop. destruct (lp_connect_retry lp) as [[cl h]|]; [right | by left].
  exists cl. specialize (Hm cl). by destruct (reply m cl) as [[a | e]|].
Qed.

(** ** Fail-over without interference *)
Record calm_moment (f : Client → outcome Response) (m : moment) : Prop := {
  calm_advance : others_advance m = 0;
  calm_next c : before_next m c = c;
  calm_check c : before_check m c = c;
  calm_during c : during_request m c = c;
  calm_reply cl : reply m cl = f cl;
}.

Lemma reachable_not_backing_off c r h now :
  host_is_reachable c r h = true → backing_off (host_time_to_next_try c r h now) = false.
Proof.
  unfold host_is_reachable, host_time_to_next_try. case_match; [| by case_match].
  intros Hr%bool_decide_eq_true. case_match; [done |]. simpl. by rw Hr.
Qed.

Lemma info_set_or_reset now r c r' h :
  info_by_hostname (set_or_reset_canary now r true c) r' h = info_by_hostname c r' h.
Proof.
  unfold set_or_reset_canary, canary_is_needed. simpl.
  by repeat case_match; simplify_eq/=.
Qed.

(** Marking a host leaves what is known of the other hosts. *)
Lemma mark_unreachable_other now r h e c h' : h' ≠ h →
  host_is_reachable (mark_host_reachable now r h (Unreachable e) c) r h' = host_is_reachable c r h'.
Proof.
  intros Hne. unfold mark_host_reachable. destruct (info_by_hostname c r h) as [i|] eqn:Hi; [| done].
  apply bind_Some in Hi as (m & Hm & Hi). unfold host_is_reachable.
  rw info_set_or_reset. unfold info_by_hostname. simpl. by rw lookup_alter_eq Hm /= lookup_insert_ne.
Qed.

Lemma mark_saved_other (m : moment) r h e c h' : h' ≠ h →
  host_is_reachable (mark_saved m r h (Unreachable e) c) r h' = host_is_reachable c r h'.
Proof. intros Hne. unfold mark_saved. destruct (saved m); [by apply mark_unreachable_other | done]. Qed.

Lemma get_at_distinct (st : MultiClientState Client) s j j' e e' :
  NoDup (entry_hostname <$> entries st) → 0 ≤ j < entry_count st → 0 ≤ j' < entry_count st → j ≠ j' →
  get_at st (s + j) = Some e → get_at st (s + j') = Some e' → entry_hostname e ≠ entry_hostname e'.
Proof.
  intros Hnd Hj Hj' Hne He He' E. unfold get_at in *. set (n := entry_count st) in *.
  pose proof (Z.mod_pos_bound (s + j) n ltac:(lia)). pose proof (Z.mod_pos_bound (s + j') n ltac:(lia)).
  assert (Z.to_nat ((s + j) `mod` n) = Z.to_nat ((s + j') `mod` n)) as En.
  { eapply NoDup_lookup; [exact Hnd | |]; rw list_lookup_fmap; [by rw He | by rw He' /= E]. }
  apply (f_equal Z.of_nat) in En. rw !Z2Nat.id in En; [lia | lia |].
  pose proof (Z.div_mod (s + j) n ltac:(lia)). pose proof (Z.div_mod (s + j') n ltac:(lia)).
  assert (j - j' = n * ((s + j) / n - (s + j') / n)) as Eq by (rw Z.mul_sub_distr_l; lia).
  set (q := _ / n - _) in Eq. clearbody q n. assert (q = 0) as -> by nia. lia.
Qed.

(** The loop after the client at offset [j] from the start [s] was tried in vain. *)
Record at_offset (st0 : MultiClientState Client) (s j : Z) (lp : request_loop) : Prop := {
  off_iter : lp_iter lp =
    {| start_current := Some (s, s + j); unreachable_clients := []; try_unreachable := None |};
  off_current : current (lp_state lp) = s + j;
  off_entries : entries (lp_state lp) = entries st0;
  off_remote : state_remote (lp_state lp) = state_remote st0;
}.

(** The cache lists the hosts from offset [j] on as reachable. *)
Definition fresh_from (st0 : MultiClientState Client) (s j : Z) (c : RemoteMappingCache) : Prop :=
  ∀ j' e, j ≤ j' < entry_count st0 → get_at st0 (s + j') = Some e →
    host_is_reachable c (state_remote st0) (entry_hostname e) = true.

Lemma get_at_entries (st st0 : MultiClientState Client) z : entries st = entries st0 → get_at st z = get_at st0 z.
Proof. intros E. unfold get_at, entry_count. by rw E. Qed.

Lemma skip_reachable r (st : MultiClientState Client) e :
  get_entry st = Some e → r (entry_hostname e) = true → skip_unreachable r st = st.
Proof.
  intros He Hr. unfold skip_unreachable. destruct (length (entries st)) as [|n]; simpl; [done |].
  by rw He Hr.
Qed.

(** In a calm round the next node is taken. *)
Lemma try_next_calm r (st : MultiClientState Client) s j e : let n := entry_count st in
  0 ≤ s → 0 ≤ j → j + 1 < n → s + n < 2 ^ 64 → current st = s + j →
  get_at st (s + (j + 1)) = Some e → r (entry_hostname e) = true →
  try_next r {| start_current := Some (s, s + j); unreachable_clients := []; try_unreachable := None |} st =
    Some (Some (Current (s + (j + 1))),
          {| start_current := Some (s, s + (j + 1)); unreachable_clients := []; try_unreachable := None |},
          set_current (s + (j + 1)) st).
Proof.
  intros n Hs Hj Hjn Hlim Hc He Hr. unfold try_next. cbn [try_unreachable start_current unreachable_clients].
  rw Hc Z.eqb_refl. unfold move_next. rw Hc u64_id; [lia |].
  replace (s + j + 1) with (s + (j + 1)) by lia.
  rw (skip_reachable r (set_current (s + (j + 1)) st) e); [done | done |].
  unfold tried_all_since, tried_clients. cbn [current set_current]. rw u64_id; [lia |].
  change (entry_count (set_current _ st)) with n.
  destruct (Z.leb_spec n (s + (j + 1) - s)); [lia |].
  cbn [entries set_current]. destruct (length (entries st)); simpl; by rw Z.eqb_refl.
Qed.

Lemma attempt_reachable idem f (m : moment) tc (lp : request_loop) : calm_moment f m →
  host_is_reachable (lp_cache lp) (state_remote (lp_state lp)) (tc_hostname tc) = true →
  match definite idem (f (tc_client tc)) with
  | Some a => ∃ lp', attempt_client show_error idem m tc lp = Return a lp' ∧
      lp_sent lp' = lp_sent lp ++ [(tc_client tc, f (tc_client tc))]
  | None => ∃ lp' e, attempt_client show_error idem m tc lp = Continue lp' ∧
      lp_state lp' = lp_state lp ∧ lp_iter lp' = lp_iter lp ∧
      lp_sent lp' = lp_sent lp ++ [(tc_client tc, f (tc_client tc))] ∧
      lp_cache lp' = mark_saved m (state_remote (lp_state lp)) (tc_hostname tc) (Unreachable e) (lp_cache lp)
  end.
Proof.
  intros Hm Hr. unfold attempt_client.
  rw (calm_check _ _ Hm) (calm_during _ _ Hm) (calm_reply _ _ Hm) reachable_not_backing_off //.
  destruct (definite idem (f (tc_client tc))) as [a|] eqn:Ed; [by eexists |].
  destruct (f (tc_client tc)) as [[a | [e | e | e | e]]|]; simpl in Ed; try done.
  - eexists _, _. by split_and!.
  - eexists _, _. by split_and!.
  - eexists _, _. by split_and!.
Qed.

Lemma fresh_from_marked (m : moment) st0 s j c e x : NoDup (entry_hostname <$> entries st0) →
  0 ≤ j < entry_count st0 → get_at st0 (s + j) = Some e → fresh_from st0 s j c →
  fresh_from st0 s (j + 1) (mark_saved m (state_remote st0) (entry_hostname e) (Unreachable x) c).
Proof.
  intros Hnd Hj He Hf j' e' Hj' He'. rw mark_saved_other; [| apply (Hf j'); [lia | done]].
  intros E. by eapply (get_at_distinct st0 s j' j e' e); [done | lia | lia | lia | done | done |].
Qed.

(** The loop goes on node by node to the first one with a definite answer. *)
Lemma try_loop_failover idem f (ms : nat → moment) st0 s k a e fuel i j (lp : request_loop) :
  (∀ i, calm_moment f (ms i)) → NoDup (entry_hostname <$> entries st0) → 0 ≤ s →
  s + entry_count st0 < 2 ^ 64 → k < entry_count st0 →
  get_at st0 (s + k) = Some e → definite idem (f (entry_client e)) = Some a →
  (∀ j' e', 0 ≤ j' < k → get_at st0 (s + j') = Some e' → definite idem (f (entry_client e')) = None) →
  at_offset st0 s j lp → 0 ≤ j < k → fresh_from st0 s (j + 1) (lp_cache lp) → k - j ≤ Z.of_nat fuel →
  ∃ i' lp', try_loop fuel idem ms i lp = Some (Some a, i', lp') ∧
    lp_sent lp' = lp_sent lp ++
      ((λ e, (entry_client e, f (entry_client e))) <$>
        filter_map (get_at st0) (seqZ (s + (j + 1)) (k - j))).
Proof.
  intros Hms Hnd Hs Hlim Hk He Hd Hbefore. revert i j lp.
  induction fuel as [|fuel IH]; intros i j lp Hoff Hj Hfresh Hf; [lia |].
  destruct Hoff as [Hit Hcur Hent Hrem].
  assert (entry_count (lp_state lp) = entry_count st0) as Hcount by (unfold entry_count; by rw Hent).
  destruct (get_at_total st0 (s + (j + 1)) ltac:(lia)) as [e1 He1].
  pose proof (get_at_entries _ st0 (s + (j + 1)) Hent) as Hat. rw He1 in Hat.
  assert (host_is_reachable (lp_cache lp) (state_remote st0) (entry_hostname e1) = true) as Hr1.
  { apply (Hfresh (j + 1)); [lia | done]. }
  assert (advance_by 0 (lp_state lp) = lp_state lp) as Hadv.
  { unfold advance_by. rw Z.add_0_r u64_id; [lia |]. by destruct (lp_state lp). }
  simpl. unfold TryRequest.try_round. destruct (Hms i) as [Ha Hn0 _ _ _].
  rw Ha Hn0 Hadv Hrem Hit (try_next_calm _ (lp_state lp) s j e1); try done; try lia.
  unfold try_client. cbn [pick_at].
  rw (get_at_entries _ st0 _ (eq_trans (eq_refl : entries (set_current _ (lp_state lp)) = entries (lp_state lp)) Hent)) He1 /=.
  match goal with |- context [attempt_client _ _ _ ?tc ?l] =>
    pose proof (attempt_reachable idem f (ms i) tc l (Hms i)) as Hatt end.
  cbn [tc_client tc_hostname lp_cache lp_state lp_sent lp_iter state_remote set_current] in Hatt.
  specialize (Hatt ltac:(by rw Hrem)).
  rw (seqZ_cons (s + (j + 1))); [lia |]. cbn [filter_map]. rw He1.
  destruct (decide (j + 1 = k)) as [<- | Hjk].
  - rw He in He1. injection He1 as <-. rw Hd in Hatt. destruct Hatt as (lp' & -> & Hsent).
    eexists _, lp'. split; [done |]. rw Hsent. by replace (Z.pred (j + 1 - j)) with 0 by lia.
  - rw (Hbefore (j + 1) e1 ltac:(lia) He1) in Hatt. destruct Hatt as (lp' & x & -> & Est & Eit & Hsent & Hcache).
    destruct (IH (S i) (j + 1) lp') as (i' & lp'' & -> & Hsent'').
    + split; [by rw Eit | by rw Est | by rw Est | by rw Est].
    + lia.
    + rw Hcache Hrem. eapply fresh_from_marked; [done | lia | done | done].
    + lia.
    + eexists _, lp''. split; [done |]. rw Hsent'' Hsent -app_assoc.
      replace (Z.succ (s + (j + 1))) with (s + (j + 1 + 1)) by lia.
      by replace (Z.pred (k - j)) with (k - (j + 1)) by lia.
Qed.
End facts.
