(* ===== verification/RemotesConfig.v ===== *)
(** * The configuration of remotes

    lib/pdm-config/src/remotes.rs: remotes.cfg lists the remotes, remotes.shadow keeps their
    secrets; and the handlers of server/src/api/remotes/mod.rs that change the configuration.
    A token ["-"] in remotes.cfg says that the secret is in the shadow file.  The container and
    the format of the section config library are parameters ([SectionData]).
    The second part shows that saving keeps the secrets. *)
From S2P Require Import Prelude RustStr Remotes Disk ApiCache.

#[local] Open Scope string_scope.

(** [SectionConfigData<T>] with its parser and printer *)
Class SectionData (T : Type) := {
  sec_data : Type;
  sec_list : sec_data → list (string * T);
  sec_get : sec_data → string → option T;
  sec_insert : sec_data → string → T → sec_data;
  sec_remove : sec_data → string → sec_data;
  sec_parse : file → option sec_data;
  sec_write : sec_data → option file;
}.
Arguments sec_data T {_}.

Class SectionLaws (T : Type) `{SectionData T} : Prop := {
  sec_list_NoDup (c : sec_data T) : NoDup (sec_list c).*1;
  sec_get_list (c : sec_data T) k e : sec_get c k = Some e ↔ (k, e) ∈ sec_list c;
  sec_get_insert (c : sec_data T) k e k' :
    sec_get (sec_insert c k e) k' = if decide (k = k') then Some e else sec_get c k';
  sec_get_remove (c : sec_data T) k k' :
    sec_get (sec_remove c k) k' = if decide (k = k') then None else sec_get c k';
  sec_parse_write (c : sec_data T) f :
    sec_write c = Some f → ∃ c', sec_parse f = Some c' ∧ ∀ k, sec_get c' k = sec_get c k;
}.

Record NodeUrl := { node_hostname : string; fingerprint : option string }.
Record Remote := {
  remote_ty : RemoteType;
  remote_id : string;
  remote_urls : list NodeUrl;      (* nodes *)
  authid : string;
  token : string;
  web_url : option string;
}.
Record RemoteShadow := {
  shadow_ty : RemoteType;
  shadow_id : string;
  shadow_token : string;
}.

Global Instance NodeUrl_eq_dec : EqDecision NodeUrl.
Proof. solve_decision. Defined.
Global Instance Remote_eq_dec : EqDecision Remote.
Proof. solve_decision. Defined.

Definition set_token (t : string) (r : Remote) : Remote :=
  {| remote_ty := remote_ty r; remote_id := remote_id r; remote_urls := remote_urls r;
     authid := authid r; token := t; web_url := web_url r |}.

Definition REMOTES_CFG_FILENAME : string := "remotes.cfg".
Definition REMOTES_SHADOW_FILENAME : string := "remotes.shadow".

Section config.
Context `{SectionData Remote, SectionData RemoteShadow}.
(** SHA-256 of the file *)
Context (digest_of : file → string).

Definition parse_error {A} (name : string) : IO A := fail (Error OtherIo ["unable to parse " ++ name]).

Definition read_section {T} `{SectionData T} (name : string) : IO (sec_data T * file) :=
  o ← file_read_optional_string name;
  let content := default [] o in
  match sec_parse content with
  | Some data => mret (data, content)
  | None => parse_error name
  end.

Definition write_section {T} `{SectionData T} (name : string) (c : sec_data T) : IO () :=
  match sec_write c with
  | Some raw => fs_replace name raw
  | None => parse_error name
  end.

(** [RemoteConfig::config] *)
Definition config : IO (sec_data Remote * string) :=
  p ← read_section (T := Remote) REMOTES_CFG_FILENAME;
  mret (p.1, digest_of p.2).

(** The entries that are not yet shadowed *)
Definition new_shadow_entries (c : sec_data Remote) : list RemoteShadow :=
  filter_map (λ p, if String.eqb (token p.2) "-" then None
                   else Some {| shadow_ty := remote_ty p.2; shadow_id := remote_id p.2;
                                shadow_token := token p.2 |}) (sec_list c).

Definition remove_leftover (ids : list string) (s : sec_data RemoteShadow) : sec_data RemoteShadow :=
  foldl (λ s id, if bool_decide (id ∈ ids) then s else sec_remove s id) s (sec_list s).*1.

Definition hide_token (c : sec_data Remote) (e : RemoteShadow) : sec_data Remote :=
  match sec_get c (shadow_id e) with
  | Some r => sec_insert c (shadow_id e) (set_token "-" r)
  | None => c
  end.

Definition save_config (c : sec_data Remote) : IO () :=
  p ← read_section (T := RemoteShadow) REMOTES_SHADOW_FILENAME;
  let new := new_shadow_entries c in
  let shadow := remove_leftover (sec_list c).*1 p.1 in
  let c' := foldl hide_token c new in
  let shadow' := foldl (λ s e, sec_insert s (shadow_id e) e) shadow new in
  _ ← write_section REMOTES_SHADOW_FILENAME shadow';
  write_section REMOTES_CFG_FILENAME c'.

Definition get_secret_token (r : Remote) : IO string :=
  if negb (String.eqb (token r) "-") then mret (token r)
  else
    p ← read_section (T := RemoteShadow) REMOTES_SHADOW_FILENAME;
    match sec_get p.1 (remote_id r) with
    | Some s => mret (shadow_token s)
    | None => fail (Error OtherIo ["No shadow entry found for remote " ++ remote_id r])
    end.

(** ** The handlers, under the configuration lock *)
Inductive DeletableProperty := WebUrl.
Record RemoteUpdater := {
  up_nodes : option (list NodeUrl);
  up_authid : option string;
  up_token : option string;
  up_web_url : option string;
}.

(** [update_remote] on the entry *)
Definition apply_updater (u : RemoteUpdater) (del : option (list DeletableProperty)) (r : Remote)
    : Remote :=
  let url := match del with Some (_ :: _) => None | _ => web_url r end in
  {| remote_ty := remote_ty r;
     remote_id := remote_id r;
     remote_urls := default (remote_urls r) (up_nodes u);
     authid := default (authid r) (up_authid u);
     token := default (token r) (up_token u);
     web_url := match up_web_url u with Some v => Some v | None => url end |}.

Definition update_remote (id : string) (u : RemoteUpdater) (del : option (list DeletableProperty))
    (digest : option string) : IO () :=
  p ← config;
  match digest with
  | Some d => if String.eqb d p.2 then mret () else fail (Error OtherIo ["detected modified configuration"])
  | None => mret ()
  end ≫= λ _,
  match sec_get p.1 id with
  | None => fail (Error OtherIo ["no such remote " ++ id])
  | Some r => save_config (sec_insert p.1 id (apply_updater u del r))
  end.

(** [add_remote]; [created] is the token a remote creates when the caller asks for one. *)
Definition add_remote (entry : Remote) (created : option (result error (string * string))) : IO () :=
  p ← config;
  match sec_get p.1 (remote_id entry) with
  | Some _ => fail (Error OtherIo ["entry " ++ remote_id entry ++ " already exists"])
  | None =>
      match created with
      | Some (Err e) => fail e
      | Some (Ok (a, t)) =>
          save_config (sec_insert p.1 (remote_id entry)
            {| remote_ty := remote_ty entry; remote_id := remote_id entry;
               remote_urls := remote_urls entry; authid := a; token := t; web_url := web_url entry |})
      | None => save_config (sec_insert p.1 (remote_id entry) entry)
      end
  end.

(** [remove_remote]; [deleted] is the outcome of deleting the token on the remote, when the
    caller asks for it.  The clean-up of the Ceph registry afterwards is best effort. *)
Definition remove_remote (id : string) (deleted : option (result error ())) : IO () :=
  p ← config;
  match deleted, sec_get p.1 id with
  | Some _, None => fail (Error OtherIo ["no such remote " ++ id])
  | Some (Err e), Some _ => fail e
  | _, None => fail (Error OtherIo ["no such entry " ++ id])
  | _, Some _ => save_config (sec_remove p.1 id)
  end.

(** [remote_config]: the entry with its token masked *)
Definition remote_config (id : string) : IO Remote :=
  p ← config;
  match sec_get p.1 id with
  | None => fail (Error OtherIo ["no such remote " ++ id])
  | Some r => mret (set_token "" r)
  end.

(** [list_remotes]: [privs] are the caller's privileges on [/resource/{id}]. *)
Definition list_remotes (top_level_allowed : bool) (privs : string → Z) : IO (list Remote * string) :=
  p ← config;
  mret (filter_map (λ '(id, r), if top_level_allowed || negb (privs id =? 0)%Z
                                then Some (set_token "" r) else None) (sec_list p.1), p.2).
End config.

(** * Secrets of remotes

    What [save_config] does to the two files, and that it never loses the secret of a remote it
    keeps, whatever file operation fails. *)

#[local] Open Scope string_scope.

Section secrets.
Context `{SectionLaws Remote, SectionLaws RemoteShadow}.

(** Sections are named by the id of the entry. *)
Definition keyed (c : sec_data Remote) : Prop := ∀ k r, sec_get c k = Some r → remote_id r = k.

Definition section_on {T} `{SectionData T} (name : string) (d : dir) : option (sec_data T) :=
  sec_parse (default [] (d !! name)).

(** The secret [get_secret_token] finds for an entry *)
Definition secret_on (d : dir) (r : Remote) : option string :=
  if String.eqb (token r) "-"
  then s ← section_on (T := RemoteShadow) REMOTES_SHADOW_FILENAME d;
       shadow_token <$> sec_get s (remote_id r)
  else Some (token r).

(** ** The two new files *)
Lemma remove_leftover_get ids (s : sec_data RemoteShadow) k :
  sec_get (remove_leftover ids s) k = if bool_decide (k ∈ ids) then sec_get s k else None.
Proof.
  assert (∀ l s, sec_get (foldl (λ s id, if bool_decide (id ∈ ids) then s else sec_remove s id) s l) k =
    if bool_decide (k ∈ l ∧ k ∉ ids) then None else sec_get s k) as Hfold.
  { induction l as [|x l IH]; intros s0; cbn [foldl].
    { rw bool_decide_eq_false_2 //. by intros [?%not_elem_of_nil _]. }
    rw IH. case_bool_decide as Hl; [rw bool_decide_eq_true_2 //; set_solver |].
    destruct (decide (x ∈ ids)) as [Hx | Hx].
    - rw bool_decide_eq_true_2 // bool_decide_eq_false_2 //. set_solver.
    - rw bool_decide_eq_false_2 // sec_get_remove. case_decide as E.
      + subst. rw bool_decide_eq_true_2 //. set_solver.
      + rw bool_decide_eq_false_2 //. set_solver. }
  unfold remove_leftover. rw Hfold. destruct (decide (k ∈ ids)) as [Hk | Hk].
  - rw (bool_decide_eq_true_2 (k ∈ ids)) // bool_decide_eq_false_2 //. set_solver.
  - rw (bool_decide_eq_false_2 (k ∈ ids)) //. case_bool_decide as Hl; [done |].
    destruct (sec_get s k) as [e|] eqn:E; [| done]. exfalso. apply Hl. split; [| done].
    apply sec_get_list in E. by apply (list_elem_of_fmap_2 fst) in E.
Qed.

Definition shadow_entry (r : Remote) : RemoteShadow :=
  {| shadow_ty := remote_ty r; shadow_id := remote_id r; shadow_token := token r |}.

Lemma elem_of_new_entries (c : sec_data Remote) e :
  e ∈ new_shadow_entries c ↔ ∃ k r, sec_get c k = Some r ∧ token r ≠ "-" ∧ e = shadow_entry r.
Proof.
  unfold new_shadow_entries. rw elem_of_filter_map. split.
  - intros ([k r] & Hk & Hr). simpl in Hr. destruct (String.eqb_spec (token r) "-"); [done |].
    exists k, r. split_and!; [by apply sec_get_list | done |]. by injection Hr as <-.
  - intros (k & r & Hk & Ht & ->). exists (k, r). split; [by apply sec_get_list |]. simpl.
    by destruct (String.eqb_spec (token r) "-").
Qed.

(** The folds over the new entries, on one key *)
Lemma hide_tokens_get (c : sec_data Remote) l k :
  sec_get (foldl hide_token c l) k =
    if bool_decide (k ∈ shadow_id <$> l) then set_token "-" <$> sec_get c k else sec_get c k.
Proof.
  revert c. induction l as [|e l IH]; intros c; cbn [foldl].
  { rw bool_decide_eq_false_2 //. by intros ?%not_elem_of_nil. }
  assert (sec_get (hide_token c e) k = if decide (shadow_id e = k) then set_token "-" <$> sec_get c k
    else sec_get c k) as Hk.
  { unfold hide_token. destruct (decide (shadow_id e = k)) as [<- | E].
    - destruct (sec_get c (shadow_id e)) as [r|] eqn:Hr; [| by rw Hr]. by rw sec_get_insert decide_True.
    - destruct (sec_get c (shadow_id e)) as [r|] eqn:Hr; [| done]. by rw sec_get_insert decide_False. }
  rw IH Hk fmap_cons. destruct (decide (shadow_id e = k)) as [<- | E].
  - rw (bool_decide_eq_true_2 (_ ∈ _ :: _)); [set_solver |].
    case_bool_decide; [| done]. by destruct (sec_get c (shadow_id e)).
  - repeat case_bool_decide; set_solver.
Qed.

Lemma insert_entries_get (s : sec_data RemoteShadow) l k :
  (∀ e e', e ∈ l → e' ∈ l → shadow_id e = shadow_id e' → e = e') →
  (∀ e, e ∈ l → shadow_id e = k → sec_get (foldl (λ s e, sec_insert s (shadow_id e) e) s l) k = Some e) ∧
  (k ∉ shadow_id <$> l → sec_get (foldl (λ s e, sec_insert s (shadow_id e) e) s l) k = sec_get s k).
Proof.
  revert s. induction l as [|x l IH]; intros s Huniq; simpl.
  { split; [by intros e ?%not_elem_of_nil | done]. }
  destruct (IH (sec_insert s (shadow_id x) x)) as [IH1 IH2].
  { intros e e' He He'. apply Huniq; by apply list_elem_of_further. }
  split.
  - intros e He Ek. destruct (decide (k ∈ shadow_id <$> l)) as [Hl | Hl].
    + apply list_elem_of_fmap in Hl as (e' & -> & He').
      assert (e = e') as -> by (apply Huniq; [done | by apply list_elem_of_further | done]).
      by apply IH1.
    + apply elem_of_cons in He as [-> | He]; [| exfalso; apply Hl; rw -Ek; by apply list_elem_of_fmap_2].
      rw IH2 // sec_get_insert decide_True //.
  - intros Hk. rw IH2; [set_solver |]. rw sec_get_insert decide_False //. set_solver.
Qed.

Lemma new_entry_ids (c : sec_data Remote) k : keyed c →
  k ∈ shadow_id <$> new_shadow_entries c ↔ ∃ r, sec_get c k = Some r ∧ token r ≠ "-".
Proof.
  intros Hc. rw list_elem_of_fmap. split.
  - intros (e & -> & (k' & r & Hr & Ht & ->)%elem_of_new_entries). simpl. rw (Hc _ _ Hr). eauto.
  - intros (r & Hr & Ht). exists (shadow_entry r). split; [by rw /= (Hc _ _ Hr) |].
    apply elem_of_new_entries. eauto.
Qed.

(** remotes.cfg as it is written holds no secret; remotes.shadow holds all of them. *)
Lemma saved_config_get (c : sec_data Remote) k : keyed c →
  sec_get (foldl hide_token c (new_shadow_entries c)) k = set_token "-" <$> sec_get c k.
Proof.
  intros Hc. rw hide_tokens_get. case_bool_decide as Hk; [done |].
  destruct (sec_get c k) as [r|] eqn:Hr; [| done]. simpl.
  destruct (decide (token r = "-")) as [Et | Et].
  - unfold set_token. rw -Et. by destruct r.
  - exfalso. apply Hk, new_entry_ids; eauto.
Qed.

Lemma saved_shadow_get (c : sec_data Remote) (s : sec_data RemoteShadow) k r :
  keyed c → sec_get c k = Some r →
  sec_get (foldl (λ s e, sec_insert s (shadow_id e) e) (remove_leftover (sec_list c).*1 s)
             (new_shadow_entries c)) k =
    if String.eqb (token r) "-" then sec_get s k else Some (shadow_entry r).
Proof.
  intros Hc Hr.
  destruct (insert_entries_get (remove_leftover (sec_list c).*1 s) (new_shadow_entries c) k) as [Hin Hout].
  { intros e e' (k1 & r1 & Hr1 & _ & ->)%elem_of_new_entries (k2 & r2 & Hr2 & _ & ->)%elem_of_new_entries E.
    simpl in E. assert (k1 = k2) as <- by by rw -(Hc _ _ Hr1) -(Hc _ _ Hr2). congruence. }
  destruct (String.eqb_spec (token r) "-") as [Et | Et].
  - rw Hout; [intros (r' & Hr' & Ht')%new_entry_ids; [congruence | done] |].
    rw remove_leftover_get bool_decide_eq_true_2 //. apply sec_get_list in Hr.
    by apply (list_elem_of_fmap_2 fst) in Hr.
  - apply Hin; [apply elem_of_new_entries; eauto | simpl; by apply Hc].
Qed.

(** ** Running [save_config] *)
Lemma triple_read_section {T} `{SectionData T} name d0 :
  triple (λ d, d = d0) (read_section (T := T) name)
    (λ p d, d = d0 ∧ section_on (T := T) name d = Some p.1) (λ d, d = d0).
Proof.
  intros w Hd. unfold read_section, file_read_optional_string, attempt, fs_open, syscall, get_disk,
    enoent, fail, mbind, IO_bind, mret, IO_ret, section_on.
  simpl. destruct (faults w (tick w)); simpl; [done |].
  destruct (disk w !! name) as [f|] eqn:Hf; simpl.
  - destruct (sec_parse f) eqn:Hp; simpl; [| done]. split; [done |]. by rw Hf.
  - destruct (sec_parse []) eqn:Hp; simpl; [| done]. split; [done |]. by rw Hf.
Qed.

Lemma triple_write_section {T} `{SectionLaws T} name (c : sec_data T) d0 (E : dir → Prop) :
  E d0 →
  triple (λ d, d = d0) (write_section name c)
    (λ _ d, ∃ f c', d = <[name := f]> d0 ∧ sec_parse f = Some c' ∧ ∀ k, sec_get c' k = sec_get c k) E.
Proof.
  intros HE. unfold write_section. destruct (sec_write c) as [f|] eqn:Hw.
  - apply triple_replace; [by intros ? -> |]. intros d ->.
    destruct (sec_parse_write _ _ Hw) as (c' & Hp & Hget). by exists f, c'.
  - apply triple_fail. by intros ? ->.
Qed.

(** The state between the two writes. *)
Definition shadow_written (c : sec_data Remote) (d0 d1 : dir) : Prop :=
  ∃ s f s', section_on (T := RemoteShadow) REMOTES_SHADOW_FILENAME d0 = Some s ∧
    d1 = <[REMOTES_SHADOW_FILENAME := f]> d0 ∧ sec_parse f = Some s' ∧
    ∀ k, sec_get s' k =
      sec_get (foldl (λ s e, sec_insert s (shadow_id e) e) (remove_leftover (sec_list c).*1 s)
                 (new_shadow_entries c)) k.

Definition config_written (c : sec_data Remote) (d1 d2 : dir) : Prop :=
  ∃ f c', d2 = <[REMOTES_CFG_FILENAME := f]> d1 ∧ sec_parse f = Some c' ∧
    ∀ k, sec_get c' k = sec_get (foldl hide_token c (new_shadow_entries c)) k.

Lemma triple_save_config c d0 :
  triple (λ d, d = d0) (save_config c)
    (λ _ d2, ∃ d1, shadow_written c d0 d1 ∧ config_written c d1 d2)
    (λ d, d = d0 ∨ shadow_written c d0 d).
Proof.
  unfold save_config. eapply triple_bind.
  { eapply triple_conseq; [exact (triple_read_section _ d0) | done | | ]; [intros p d Hd; exact Hd | by left]. }
  intros [s f0]. cbn [fst]. intros w (Hd & Hs). subst d0.
  refine ((_ : triple (λ d, d = disk w) _
    (λ _ d2, ∃ d1, shadow_written c (disk w) d1 ∧ config_written c d1 d2)
    (λ d, d = disk w ∨ shadow_written c (disk w) d)) w eq_refl).
  eapply (triple_bind _ _ _ (λ _ d1, shadow_written c (disk w) d1)).
  - eapply triple_conseq; [apply (triple_write_section _ _ (disk w) (λ d, d = disk w)); done | done | |].
    + intros _ d1 (f & s' & -> & Hp & Hget). exists s, f, s'. by split_and!.
    + by left.
  - intros _ w1 Hw1.
    pose proof (triple_write_section REMOTES_CFG_FILENAME (foldl hide_token c (new_shadow_entries c))
      (disk w1) (λ d, d = disk w1) eq_refl w1 eq_refl) as Hw.
    destruct (write_section _ _ w1) as [[u|e] w2]; [| rw Hw; by right].
    exists (disk w1). split; [done |]. destruct Hw as (f & c' & -> & Hp & Hget). by exists f, c'.
Qed.

(** The secret of an entry that is kept is in the new shadow file. *)
Lemma shadow_written_secret c d0 d1 k r x : keyed c → shadow_written c d0 d1 →
  sec_get c k = Some r → secret_on d0 r = Some x →
  secret_on d1 r = Some x ∧ secret_on d1 (set_token "-" r) = Some x ∧
  ∀ r0, remote_id r0 = k → token r0 = "-" → secret_on d1 r0 = Some x.
Proof.
  intros Hc (s & f & s' & Hs & -> & Hp & Hget) Hr Hx.
  assert (∀ r0, remote_id r0 = k → token r0 = "-" →
    secret_on (<[REMOTES_SHADOW_FILENAME := f]> d0) r0 = Some x) as Hall.
  { intros r0 Hid Ht. unfold secret_on, section_on. rw Ht /= lookup_insert_eq /= Hp /= Hid Hget.
    rw (saved_shadow_get c s k r) //. unfold secret_on in Hx.
    destruct (String.eqb (token r) "-"); [| by injection Hx as <-].
    rw Hs /= (Hc _ _ Hr) in Hx. done. }
  split_and!; [| apply Hall; [exact (Hc _ _ Hr) | done] | done].
  unfold secret_on in *. destruct (String.eqb_spec (token r) "-") as [Et |]; [| done].
  specialize (Hall r (Hc _ _ Hr) Et). by rw Et /= in Hall.
Qed.

Lemma config_written_secret c d1 d2 r : config_written c d1 d2 → secret_on d2 r = secret_on d1 r.
Proof. intros (f & c' & -> & _). unfold secret_on, section_on. by rw lookup_insert_ne. Qed.

(** [get_secret_token] returns the secret on disk. *)
Lemma get_secret_token_spec r d0 :
  triple (λ d, d = d0) (get_secret_token r) (λ x d, d = d0 ∧ secret_on d0 r = Some x) (λ d, d = d0).
Proof.
  unfold get_secret_token, secret_on. destruct (String.eqb (token r) "-"); simpl.
  - eapply triple_bind; [apply (triple_read_section (T := RemoteShadow)) |].
    intros [s f] w (Hd & Hs). simpl in *. subst d0. rw Hs /=. by destruct (sec_get s (remote_id r)).
  - apply triple_ret. by intros d ->.
Qed.
End secrets.
