(* ===== verification/Connection.v ===== *)
(** * Connections to remotes

    The part of server/src/connection.rs that builds clients for a remote and keeps them for
    reuse.  The HTTP client of proxmox_client, its TLS options and the URI parser are parameters
    ([ClientEnv]); [epoch] is the time of the cache, [SystemTime::now()]. *)
From S2P Require Import Prelude RustStr Remotes Disk ApiCache RemoteCache MultiClient RemotesConfig.

#[local] Open Scope string_scope.

(** [proxmox_client::Token] *)
Record Token := {
  tok_userid : string;
  tok_value : string;
  tok_prefix : string;
  tok_perl_compat : bool;
}.

(** What [Client::login] comes to *)
Inductive login_result :=
| LoggedIn
| SecondFactor
| ApiError (code : Z) (msg : string)
| AuthenticationError (msg : string)
| OtherLoginError (msg : string).

Class ClientEnv := {
  HttpClient : Type;
  TlsOptions : Type;
  tls_default : TlsOptions;
  parse_fingerprint : string → result error TlsOptions;
  parse_authority : string → result error (string * option Z);    (* host, port *)
  with_options : string → TlsOptions → result error HttpClient;   (* uri.parse() and the client *)
  set_pve_compatibility : bool → HttpClient → HttpClient;
  set_authentication : Token → HttpClient → HttpClient;
  is_token : string → bool;                                       (* Authid::is_token *)
}.

Record ConnectInfo := {
  prefix : string;
  perl_compat : bool;
  pve_compat : bool;
  info_default_port : Z;
}.

(** [ConnectInfo::for_remote] *)
Definition for_remote (r : Remote) : ConnectInfo :=
  let '(p, perl, pve) := match remote_ty r with
                         | Pve => ("PVEAPIToken", true, true)
                         | Pbs => ("PBSAPIToken", false, false)
                         end in
  {| prefix := p; perl_compat := perl; pve_compat := pve;
     info_default_port := default_port (remote_ty r) |}.

Section connect.
Context `{ClientEnv} `{SectionData RemoteShadow}.

Definition prepare_connect_client_to_node (n : NodeUrl) (port : Z) (pve : bool)
    : result error HttpClient :=
  options ← match fingerprint n with
            | Some fp => parse_fingerprint fp
            | None => Ok tls_default
            end;
  host_port ← parse_authority (node_hostname n);
  client ← with_options ("https://" ++ host_port.1 ++ ":" ++ show_int (default port host_port.2)) options;
  mret (set_pve_compatibility pve client).

Definition no_endpoint (target : option string) : error :=
  Error OtherIo [match target with
                 | Some e => e ++ " not configured for remote"
                 | None => "no nodes configured for remote"
                 end].

Definition prepare_connect_client (r : Remote) (target_endpoint : option string)
    : result error (HttpClient * ConnectInfo) :=
  node ← ok_or (find_by (λ n, match target_endpoint with
                              | Some t => String.eqb t (node_hostname n)
                              | None => true
                              end) (remote_urls r)) (no_endpoint target_endpoint);
  let info := for_remote r in
  client ← prepare_connect_client_to_node node (info_default_port info) (pve_compat info);
  mret (client, info).

Definition lift_result {A} (x : result error A) : IO A :=
  match x with Ok a => mret a | Err e => fail e end.

Definition auth_token (r : Remote) (info : ConnectInfo) (secret : string) : Token :=
  {| tok_userid := authid r; tok_value := secret; tok_prefix := prefix info;
     tok_perl_compat := perl_compat info |}.

Definition connect (r : Remote) (target_endpoint : option string) : IO HttpClient :=
  p ← lift_result (prepare_connect_client r target_endpoint);
  secret ← get_secret_token r;
  mret (set_authentication (auth_token r p.2 secret) p.1).

(** The loop of [prepare_connect_multi_client] *)
Fixpoint prepare_entries (info : ConnectInfo) (l : list NodeUrl)
    : result error (list (MultiClientEntry HttpClient)) :=
  match l with
  | [] => mret []
  | n :: l' =>
      client ← prepare_connect_client_to_node n (info_default_port info) (pve_compat info);
      rest ← prepare_entries info l';
      mret (Entry client (node_hostname n) :: rest)
  end.

(** [cache] is the remote mapping cache that [MultiClientState::new] reads. *)
Definition prepare_connect_multi_client (cache : RemoteMappingCache) (r : Remote)
    : result error (MultiClientState HttpClient * ConnectInfo) :=
  _ ← bail_if (bool_decide (remote_urls r = [])) (no_endpoint None);
  let info := for_remote r in
  clients ← prepare_entries info (remote_urls r);
  mret (state_new cache (remote_id r) clients, info).

Definition for_each_client (f : HttpClient → HttpClient) (st : MultiClientState HttpClient)
    : MultiClientState HttpClient :=
  {| current := current st; state_remote := state_remote st;
     entries := (λ e, Entry (f (entry_client e)) (entry_hostname e)) <$> entries st |}.

Definition multi_connect (cache : RemoteMappingCache) (r : Remote)
    : IO (MultiClientState HttpClient) :=
  p ← lift_result (prepare_connect_multi_client cache r);
  secret ← get_secret_token r;
  mret (for_each_client (set_authentication (auth_token r p.2 secret)) p.1).

(** [connect_or_login]; [login] is what the remote answers to user and password. *)
Definition connect_or_login (login : HttpClient → string → string → login_result)
    (r : Remote) (target_endpoint : option string) : IO HttpClient :=
  if is_token (authid r) then connect r target_endpoint
  else
    p ← lift_result (prepare_connect_client r target_endpoint);
    match login p.1 (authid r) (token r) with
    | SecondFactor => fail (Error OtherIo ["two factor auth not supported"])
    | LoggedIn => mret p.1
    | ApiError code msg =>
        fail (Error OtherIo [if (code =? 401)%Z then "authentication failed" else msg])
    | AuthenticationError _ => fail (Error OtherIo ["authentication failed"])
    | OtherLoginError msg => fail (Error OtherIo [msg])
    end.

(** ** The cache of clients *)
Record ClientEntry := {
  last_used : Z;
  cached_client : MultiClientState HttpClient;
  cached_remote : Remote;
}.
Abbreviation ConnectionCache := (gmap string ClientEntry).

Definition STALE_TIMEOUT : Z := 30.

Definition cleanup_cycle (epoch : Z) (c : ConnectionCache) : ConnectionCache :=
  filter (λ p : string * ClientEntry, (epoch - STALE_TIMEOUT ≤ last_used p.2)%Z) c.

(** The client to use, and the cache afterwards. *)
Definition make_pve_client (epoch : Z) (map : RemoteMappingCache) (r : Remote) (c : ConnectionCache)
    : IO (MultiClientState HttpClient * ConnectionCache) :=
  let connect_new :=
    client ← multi_connect map r;
    mret (client, <[remote_id r := {| last_used := epoch; cached_client := client;
                                      cached_remote := r |}]> c) in
  match c !! remote_id r with
  | Some e =>
      if decide (cached_remote e = r)
      then mret (cached_client e,
                 <[remote_id r := {| last_used := epoch; cached_client := cached_client e;
                                     cached_remote := cached_remote e |}]> c)
      else connect_new
  | None => connect_new
  end.

(** [make_pve_client_with_node]: straight to the node when its host is known and reachable. *)
Definition make_pve_client_with_node (epoch : Z) (map : RemoteMappingCache) (r : Remote) (node : string)
    (c : ConnectionCache) : IO ((HttpClient + MultiClientState HttpClient) * ConnectionCache) :=
  match info_by_node_name map (remote_id r) node with
  | Some info =>
      if HostInfo_is_reachable info then
        client ← connect r (Some (hostname info)); mret (inl client, c)
      else
        p ← make_pve_client epoch map r c; mret (inr p.1, p.2)
  | None => p ← make_pve_client epoch map r c; mret (inr p.1, p.2)
  end.

(** ** Facts *)

(** A client that [multi_connect] builds for a remote, with some secret. *)
Definition built_for (r : Remote) (secret : string) (client : MultiClientState HttpClient) : Prop :=
  ∃ map st info, prepare_connect_multi_client map r = Ok (st, info) ∧
    client = for_each_client (set_authentication (auth_token r info secret)) st.

(** Every cached client was built for the remote it is kept with. *)
Definition connections_wf (c : ConnectionCache) : Prop :=
  ∀ id e, c !! id = Some e →
    remote_id (cached_remote e) = id ∧ ∃ secret, built_for (cached_remote e) secret (cached_client e).

Lemma cleanup_cycle_wf epoch c : connections_wf c → connections_wf (cleanup_cycle epoch c).
Proof. intros Hc id e [He _]%map_lookup_filter_Some. by apply Hc. Qed.

Lemma multi_connect_built map r w client w' :
  multi_connect map r w = (Ok client, w') → ∃ secret, built_for r secret client.
Proof.
  unfold multi_connect, mbind, IO_bind, lift_result.
  destruct (prepare_connect_multi_client map r) as [[st info]|] eqn:E; simpl; [| done].
  destruct (get_secret_token r w) as [[secret|] w1]; [| done].
  intros [= <- _]. exists secret, map, st, info. done.
Qed.

Lemma insert_built c r e : connections_wf c → cached_remote e = r →
  (∃ secret, built_for r secret (cached_client e)) → connections_wf (<[remote_id r := e]> c).
Proof.
  intros Hc <- Hb id e' [[<- <-] | [_ He]]%lookup_insert_Some; [by split | by apply Hc].
Qed.

Lemma make_pve_client_wf epoch map r c w client c' w' : connections_wf c →
  make_pve_client epoch map r c w = (Ok (client, c'), w') →
  connections_wf c' ∧ (∃ secret, built_for r secret client) ∧
  ∃ e, c' !! remote_id r = Some e ∧ cached_client e = client ∧ last_used e = epoch.
Proof.
  intros Hc. unfold make_pve_client.
  assert (∀ w', (p ← multi_connect map r;
      mret (p, <[remote_id r := {| last_used := epoch; cached_client := p; cached_remote := r |}]> c)) w
      = (Ok (client, c'), w') →
    connections_wf c' ∧ (∃ secret, built_for r secret client) ∧
    ∃ e, c' !! remote_id r = Some e ∧ cached_client e = client ∧ last_used e = epoch) as Hnew.
  { intros w0. unfold mbind at 1, IO_bind at 1. destruct (multi_connect map r w) as [[cl|] w1] eqn:E; [| done].
    intros [= <- <- <-]. apply multi_connect_built in E. split_and!; [by apply insert_built | done |].
    rw lookup_insert_eq. eauto. }
  destruct (c !! remote_id r) as [e|] eqn:He; [| apply Hnew]. case_decide as E; [| apply Hnew].
  intros [= <- <- <-]. destruct (Hc _ _ He) as [_ Hb]. rw E in Hb.
  split_and!; [by apply insert_built | done |]. rw lookup_insert_eq. eauto.
Qed.

(** While the configured entry looks the same the client is not built anew, whatever secret the
    shadow file holds by now. *)
Lemma make_pve_client_cached epoch map r c e w : c !! remote_id r = Some e → cached_remote e = r →
  ∃ c', make_pve_client epoch map r c w = (Ok (cached_client e, c'), w).
Proof. intros He <-. unfold make_pve_client. rw He decide_True //. by eexists. Qed.
End connect.
