(* ===== verification/Search.v ===== *)
(** * Search terms

    lib/pdm-search/src/lib.rs.  A closure passed to [matches] may change what it captures, so
    [matches] threads a state; [matches_with] is the case of a pure predicate. *)
From S2P Require Import Prelude RustStr.

#[local] Open Scope string_scope.

(** ** Text *)
Definition byte (n : N) : ascii := Ascii.ascii_of_N n.
Definition utf8 (l : list N) : string := String.string_of_list_ascii (byte <$> l).

(** The characters of the Unicode property White_Space, as UTF-8 *)
Definition whitespace : list string :=
  [" "; utf8 [9]; utf8 [10]; utf8 [11]; utf8 [12]; utf8 [13];
   utf8 [194; 133]; utf8 [194; 160]; utf8 [225; 154; 128];
   utf8 [226; 128; 128]; utf8 [226; 128; 129]; utf8 [226; 128; 130]; utf8 [226; 128; 131];
   utf8 [226; 128; 132]; utf8 [226; 128; 133]; utf8 [226; 128; 134]; utf8 [226; 128; 135];
   utf8 [226; 128; 136]; utf8 [226; 128; 137]; utf8 [226; 128; 138];
   utf8 [226; 128; 168]; utf8 [226; 128; 169]; utf8 [226; 128; 175]; utf8 [226; 129; 159];
   utf8 [227; 128; 128]]%N.

(** The number of bytes after the first of a white space character [s] starts with *)
Definition leading_space (s : string) : option nat :=
  (λ w, pred (String.length w)) <$> find_by (λ w, starts_with w s) whitespace.

Definition flush (cur : string) (l : list string) : list string :=
  if is_empty cur then l else cur :: l.

(** [str::split_whitespace]: [skip] bytes belong to a white space character already seen. *)
Fixpoint split_ws (skip : nat) (cur s : string) : list string :=
  match s with
  | EmptyString => flush cur []
  | String a s' =>
      match skip with
      | S k => split_ws k cur s'
      | O => match leading_space s with
             | Some k => flush cur (split_ws k "" s')
             | None => split_ws 0 (cur ++ String a "") s'
             end
      end
  end.
Definition split_whitespace (s : string) : list string := split_ws 0 "" s.

(** ** Terms *)
Record SearchTerm := {
  optional : bool;
  value : string;
  category : option string;
}.

Global Instance SearchTerm_eq_dec : EqDecision SearchTerm.
Proof. solve_decision. Defined.

(** [SearchTerm::new] and the builder methods *)
Definition term_new (v : string) : SearchTerm := {| optional := false; value := v; category := None |}.
Definition with_category (c : option string) (t : SearchTerm) : SearchTerm :=
  {| optional := optional t; value := value t; category := c |}.
Definition with_optional (b : bool) (t : SearchTerm) : SearchTerm :=
  {| optional := b; value := value t; category := category t |}.

(** [From<S: AsRef<str>> for SearchTerm] *)
Definition term_from (term : string) : SearchTerm :=
  let '(opt, term) :=
    match strip_prefix "+" term with
    | Some rest => if is_empty rest then (true, term) else (false, rest)
    | None => (true, term)
    end in
  let '(term, cat) :=
    match split_once ":"%char term with
    | Some (c, new_term) => if is_empty c || is_empty new_term then (term, None) else (new_term, Some c)
    | None => (term, None)
    end in
  with_category cat (with_optional opt (term_new term)).

(** [Display for SearchTerm] *)
Definition term_display (t : SearchTerm) : string :=
  (if optional t then "" else "+")
  ++ match category t with Some c => c ++ ":" | None => "" end
  ++ value t.

(** ** Searches *)
Record Search := { required_terms : list SearchTerm; optional_terms : list SearchTerm }.

(** [FromIterator]: the partition by [optional] *)
Definition from_iter (l : list SearchTerm) : Search :=
  {| required_terms := List.filter (λ t, negb (optional t)) l;
     optional_terms := List.filter optional l |}.
Definition search_from (s : string) : Search := from_iter (term_from <$> split_whitespace s).
Definition search_new : Search := from_iter [].

Definition search_is_empty (s : Search) : bool :=
  bool_decide (required_terms s = []) && bool_decide (optional_terms s = []).

Section matches.
Context {S : Type} (f : S → SearchTerm → S * bool).

(** [iter().map(&mut matches).any(|f| !f)] *)
Fixpoint any_false (st : S) (l : list SearchTerm) : S * bool :=
  match l with
  | [] => (st, false)
  | t :: l' => let '(st', b) := f st t in if b then any_false st' l' else (st', true)
  end.
(** [iter().map(&mut matches).all(|f| !f)] *)
Fixpoint all_false (st : S) (l : list SearchTerm) : S * bool :=
  match l with
  | [] => (st, true)
  | t :: l' => let '(st', b) := f st t in if b then (st', false) else all_false st' l'
  end.

Definition matches (s : Search) (st : S) : S * bool :=
  if search_is_empty s then (st, true)
  else
    let '(st, failed) := any_false st (required_terms s) in
    if failed then (st, false)
    else if bool_decide (optional_terms s = []) then (st, true)
    else
      let '(st, none) := all_false st (optional_terms s) in
      (st, negb none).
End matches.

Definition matches_with (p : SearchTerm → bool) (s : Search) : bool :=
  (matches (λ _ t, ((), p t)) s ()).2.

Definition add_term (t : SearchTerm) (s : Search) : Search :=
  if optional t then {| required_terms := required_terms s; optional_terms := optional_terms s ++ [t] |}
  else {| required_terms := required_terms s ++ [t]; optional_terms := optional_terms s |}.

(** The terms in the order [Display] prints them *)
Definition terms (s : Search) : list SearchTerm := (required_terms s ++ optional_terms s)%list.
Definition search_display (s : Search) : string :=
  String.concat " " (term_display <$> terms s).

(** ** Lemmas *)

(** A search matches when all required terms do and, if there are optional terms, one of them. *)
Definition matches_spec (p : SearchTerm → bool) (s : Search) : bool :=
  forallb p (required_terms s)
  && (bool_decide (optional_terms s = []) || existsb p (optional_terms s)).

Lemma any_false_pure p l : any_false (λ _ t, ((), p t)) () l = ((), negb (forallb p l)).
Proof. induction l as [|t l IH]; simpl; [done |]. by destruct (p t). Qed.

Lemma all_false_pure p l : all_false (λ _ t, ((), p t)) () l = ((), negb (existsb p l)).
Proof. induction l as [|t l IH]; simpl; [done |]. by destruct (p t). Qed.

Lemma matches_with_spec p s : matches_with p s = matches_spec p s.
Proof.
  unfold matches_with, matches, matches_spec, search_is_empty. rw any_false_pure all_false_pure.
  destruct s as [req opt]; simpl. destruct (forallb p req) eqn:Hr; destruct opt as [|t opt]; destruct req as [|u req]; simpl in *;
    try done; by rw negb_involutive.
Qed.

(** A predicate that holds more often matches more often. *)
Lemma matches_spec_mono p q s :
  (∀ t, t ∈ terms s → p t = true → q t = true) → matches_spec p s = true → matches_spec q s = true.
Proof.
  intros Hpq [Hr Ho]%andb_true_iff. apply andb_true_iff. split.
  - apply forallb_forall. intros t Ht. apply Hpq.
    + apply elem_of_app. left. by apply list_elem_of_In.
    + by apply (proj1 (forallb_forall _ _) Hr).
  - apply orb_true_iff in Ho as [Ho | (t & Ht & Hp)%existsb_exists]; apply orb_true_iff; [by left | right].
    apply existsb_exists. exists t. split; [done |]. apply Hpq; [| done].
    apply elem_of_app. right. by apply list_elem_of_In.
Qed.

Lemma matches_spec_ext p q s :
  (∀ t, t ∈ terms s → p t = q t) → matches_spec p s = matches_spec q s.
Proof.
  intros Hpq. apply eq_bool_prop_intro. split; intros H%Is_true_true; apply Is_true_true;
    (eapply matches_spec_mono; [| exact H]); intros t Ht; by rw (Hpq t Ht).
Qed.

(** ** Printing and parsing *)
Lemma is_empty_spec s : is_empty s = true ↔ s = "".
Proof. apply String.eqb_eq. Qed.

(** Printing a parsed term gives the text back. *)
Lemma term_display_from s : term_display (term_from s) = s.
Proof.
  assert (∀ opt t, term_display
      (let '(term, cat) := match split_once ":"%char t with
         | Some (c, n) => if is_empty c || is_empty n then (t, None) else (n, Some c)
         | None => (t, None) end in
       with_category cat (with_optional opt (term_new term))) = (if opt then "" else "+") ++ t) as Hcat.
  { intros opt t. destruct (split_once ":"%char t) as [[c n]|] eqn:E; [| done].
    apply split_once_Some in E as [-> _].
    destruct (is_empty c || is_empty n); [done |]. unfold term_display. simpl.
    by rw !string_app_assoc. }
  unfold term_from. destruct (strip_prefix "+" s) as [rest|] eqn:E; [| apply Hcat].
  destruct (is_empty rest); [apply Hcat |]. rw Hcat. by apply strip_prefix_Some in E as ->.
Qed.

(** No white space starts at any byte of [s]. *)
Fixpoint clean (s : string) : bool :=
  match s with
  | EmptyString => true
  | String _ s' => bool_decide (leading_space s = None) && clean s'
  end.

Lemma leading_space_None s :
  leading_space s = None ↔ ∀ w, w ∈ whitespace → starts_with w s = false.
Proof.
  unfold leading_space. rw fmap_None. split.
  - intros H w Hw. by apply (find_by_None _ _ w H).
  - intros H. destruct (find_by _ _) as [w|] eqn:E; [| done].
    apply find_by_Some in E as [Hw Hs]. rw (H w Hw) in Hs. done.
Qed.

Lemma starts_with_app w s t : starts_with w s = true → starts_with w (s ++ t) = true.
Proof.
  unfold starts_with. destruct (strip_prefix w s) as [r|] eqn:E; [| done]. intros _.
  apply strip_prefix_Some in E as ->. by rw string_app_assoc strip_prefix_app.
Qed.

Lemma leading_space_prefix s t : leading_space (s ++ t) = None → leading_space s = None.
Proof.
  rw !leading_space_None. intros H w Hw. destruct (starts_with w s) eqn:E; [| done].
  specialize (H w Hw). by rw (starts_with_app w s t E) in H.
Qed.

(** White space is a blank or a sequence without blanks, so a blank ends what precedes it. *)
Lemma whitespace_blank w : w ∈ whitespace → w = " " ∨ has_char " "%char w = false.
Proof. intros Hw. assert (Forall (λ w, w = " " ∨ has_char " "%char w = false) whitespace) as H.
  { unfold whitespace. repeat (apply Forall_cons; split; [by (left; reflexivity) || (right; reflexivity) |]). constructor. }
  by apply (proj1 (Forall_forall _ _) H).
Qed.

Lemma starts_with_blank w a s t : w ∈ whitespace →
  starts_with w (String a s ++ String " " t) = true → starts_with w (String a s) = true.
Proof.
  intros [-> | Hw]%whitespace_blank.
  - unfold starts_with. cbn [strip_prefix String.append]. by destruct (Ascii.eqb " " a).
  - generalize (String a s). clear a s. unfold starts_with.
    induction w as [|c w IH]; intros s; [by destruct s |]. simpl in Hw.
    apply orb_false_iff in Hw as [Hc Hw]. destruct s as [|b s]; cbn [strip_prefix String.append].
    + by rw Hc.
    + destruct (Ascii.eqb c b); [by apply IH | done].
Qed.

Lemma leading_space_blank a s t :
  leading_space (String a s) = None → leading_space (String a s ++ String " " t) = None.
Proof.
  intros H. apply leading_space_None. intros w Hw.
  pose proof (proj1 (leading_space_None _) H w Hw) as Hs.
  destruct (starts_with w (String a s ++ String " " t)) eqn:E; [| done].
  apply starts_with_blank in E; [| done]. congruence.
Qed.

(** Clean text is taken into the current word as it is. *)
Lemma split_ws_clean s cur r : clean s = true → (r = "" ∨ ∃ t, r = String " " t) →
  split_ws 0 cur (s ++ r) = split_ws 0 (cur ++ s) r.
Proof.
  intros Hs Hr. revert cur. induction s as [|a s IH]; intros cur; [by rw string_app_nil_r |].
  cbn [clean] in Hs. apply andb_true_iff in Hs as [Ha%bool_decide_eq_true Hs].
  cbn [String.append split_ws]. assert (leading_space (String a (s ++ r)) = None) as ->.
  { destruct Hr as [-> | [t ->]]; [by rw string_app_nil_r | by apply (leading_space_blank a s t)]. }
  rw (IH Hs). by rw string_app_assoc.
Qed.

Lemma leading_blank t : leading_space (String " " t) = Some 0%nat.
Proof. done. Qed.

Lemma split_ws_words l : Forall (λ w, w ≠ "" ∧ clean w = true) l →
  split_whitespace (String.concat " " l) = l.
Proof.
  unfold split_whitespace. induction 1 as [|w l [Hne Hw] Hl IH]; [done |].
  assert (flush w = cons w) as Hf.
  { unfold flush. destruct (is_empty w) eqn:E; [by apply is_empty_spec in E | done]. }
  destruct l as [|w' l].
  - simpl. rw -(string_app_nil_r w) split_ws_clean; [done | by left |]. simpl. by rw Hf string_app_nil_r.
  - change (String.concat " " (w :: w' :: l)) with (w ++ String " " (String.concat " " (w' :: l))).
    rw split_ws_clean; [done | right; by eexists |]. cbn [String.append split_ws]. rw leading_blank Hf.
    by rw IH.
Qed.

(** *** The words of a text *)
Definition word (w : string) : Prop := w ≠ "" ∧ clean w = true.

(** No white space starts within the current word [cur], which the text [s] follows. *)
Definition open_word (cur s : string) : Prop :=
  ∀ p u, cur = p ++ u → u ≠ "" → leading_space (u ++ s) = None.

Lemma open_word_clean cur s : open_word cur s → clean cur = true.
Proof.
  induction cur as [|a cur IH]; [done |]. intros H. cbn [clean]. apply andb_true_iff. split.
  - apply bool_decide_eq_true. apply (leading_space_prefix _ s), (H ""); done.
  - apply IH. intros p u -> Hu. by apply (H (String a p)).
Qed.

Lemma snoc_suffix p u cur a : p ++ u = cur ++ String a "" → u ≠ "" →
  ∃ u', u = u' ++ String a "" ∧ cur = p ++ u'.
Proof.
  revert cur. induction p as [|b p IH]; intros cur; simpl; [by intros -> _; exists cur |].
  destruct cur as [|c cur]; simpl.
  - intros [= -> E] Hu. by destruct p.
  - intros [= -> E] Hu. destruct (IH cur E Hu) as (u' & -> & ->). by exists u'.
Qed.

Lemma open_word_snoc cur a s : open_word cur (String a s) → leading_space (String a s) = None →
  open_word (cur ++ String a "") s.
Proof.
  intros Hcur Ha p u E Hu. symmetry in E. apply snoc_suffix in E as (u' & -> & ->); [| done].
  rw string_app_assoc. destruct u' as [|b u']; [done | by apply (Hcur p)].
Qed.

Lemma flush_words cur s l : open_word cur s → Forall word l → Forall word (flush cur l).
Proof.
  intros Hcur Hl. unfold flush. destruct (is_empty cur) eqn:E; [done |]. constructor; [| done].
  split; [intros ->; done | by apply open_word_clean in Hcur].
Qed.

Lemma split_ws_word skip cur s : open_word cur s → (skip ≠ 0%nat → cur = "") →
  Forall word (split_ws skip cur s).
Proof.
  assert (∀ s, open_word "" s) as Hnil.
  { intros s' p u E Hu. by destruct p, u. }
  revert skip cur. induction s as [|a s IH]; intros skip cur Hcur Hskip; cbn [split_ws].
  { by apply (flush_words cur ""). }
  destruct skip as [|k].
  - destruct (leading_space (String a s)) as [k|] eqn:E.
    + apply (flush_words cur (String a s)); [done |]. by apply IH.
    + apply IH; [by apply open_word_snoc | done].
  - rw (Hskip ltac:(done)). by apply IH.
Qed.

Lemma split_whitespace_words s : Forall word (split_whitespace s).
Proof. apply split_ws_word; [| done]. intros p u E Hu. by destruct p, u. Qed.

Lemma elem_of_list_filter (p : SearchTerm → bool) t l : t ∈ List.filter p l ↔ t ∈ l ∧ p t = true.
Proof. by rw !list_elem_of_In filter_In. Qed.

Lemma filter_idem_eq (p q : SearchTerm → bool) l :
  (∀ t, p t = true → q t = true) → List.filter q (List.filter p l) = List.filter p l.
Proof.
  intros H. induction l as [|t l IH]; simpl; [done |]. destruct (p t) eqn:E; simpl; [| done].
  by rw (H t E) IH.
Qed.
Lemma filter_disjoint (p q : SearchTerm → bool) l :
  (∀ t, p t = true → q t = false) → List.filter q (List.filter p l) = [].
Proof.
  intros H. induction l as [|t l IH]; simpl; [done |]. destruct (p t) eqn:E; simpl; [| done].
  by rw (H t E).
Qed.

Lemma from_iter_terms l : from_iter (terms (from_iter l)) = from_iter l.
Proof.
  unfold from_iter, terms. simpl. rw !List.filter_app.
  rw !(filter_idem_eq (λ t, negb (optional t)) (λ t, negb (optional t))) // !(filter_idem_eq optional optional) //.
  rw (filter_disjoint optional) ?(filter_disjoint (λ t, negb (optional t)) optional).
  - intros t. by destruct (optional t).
  - intros t. by destruct (optional t).
  - by rw app_nil_r.
Qed.

(** Every term of a parsed text prints to one word of it. *)
Lemma search_from_words s t : t ∈ terms (search_from s) → word (term_display t) ∧ term_from (term_display t) = t.
Proof.
  intros Ht. assert (t ∈ term_from <$> split_whitespace s) as (w & -> & Hw)%list_elem_of_fmap.
  { apply elem_of_app in Ht as [Ht | Ht]; by apply elem_of_list_filter in Ht as [? _]. }
  rw term_display_from. split; [| done].
  by apply (proj1 (Forall_forall _ _) (split_whitespace_words s)).
Qed.
