(* ===== verification/Resources.v ===== *)
(** * Resources

    The resource types of lib/pdm-api-types/src/resource.rs and the functions of
    server/src/api/resources.rs that build them from the answers of remotes, up to
    [fetch_remote_resource] and [fetch_remote_subscription_info]: how the answers of a remote
    become the resources and the subscription state that are cached.  The answers of the product
    clients are parameters.  An [f64] is a [spec_float] of binary64, the Standard Library's
    executable IEEE arithmetic. *)
From Stdlib Require Import SpecFloat.
From S2P Require Import Prelude RustStr Remotes SubscriptionTypes.

#[local] Open Scope string_scope.

(** ** [f64] *)
Definition f64 : Type := spec_float.
Definition f64_add : f64 → f64 → f64 := SFadd 53 1024.
Definition f64_mul : f64 → f64 → f64 := SFmul 53 1024.
Definition f64_div : f64 → f64 → f64 := SFdiv 53 1024.
Definition f64_gt (a b : f64) : bool := SFltb b a.
Definition f64_zero : f64 := S754_zero false.
(** [n as f64]: rounded to nearest *)
Definition f64_of_Z (n : Z) : f64 := binary_normalize 53 1024 n 0 false.
(** [0.80] is 7205759403792794 * 2^-53 *)
Definition PBS_DATASTORE_HIGH_USAGE_THRESHOLD : f64 := S754_finite false 7205759403792794 (-53).

Global Instance f64_eq_dec : EqDecision f64.
Proof. solve_decision. Defined.

(** ** Types *)
Inductive ResourceType := TypeStorage | TypeQemu | TypeLxc | TypeNetwork | TypeDatastore | TypeNode.
Global Instance ResourceType_eq_dec : EqDecision ResourceType.
Proof. solve_decision. Defined.

Definition resource_type_str (t : ResourceType) : string :=
  match t with
  | TypeStorage => "storage" | TypeQemu => "qemu" | TypeLxc => "lxc"
  | TypeNetwork => "network" | TypeDatastore => "datastore" | TypeNode => "node"
  end.
Definition parse_resource_type (s : string) : option ResourceType :=
  if String.eqb s "storage" then Some TypeStorage
  else if String.eqb s "qemu" then Some TypeQemu
  else if String.eqb s "lxc" then Some TypeLxc
  else if String.eqb s "network" then Some TypeNetwork
  else if String.eqb s "datastore" then Some TypeDatastore
  else if String.eqb s "node" then Some TypeNode
  else None.

Inductive SdnStatus := SdnAvailable | SdnError | SdnPending | SdnUnknown.
Definition parse_sdn_status (s : string) : SdnStatus :=
  if String.eqb s "ok" || String.eqb s "available" then SdnAvailable
  else if String.eqb s "pending" then SdnPending
  else if String.eqb s "error" then SdnError
  else SdnUnknown.
Definition sdn_status_str (s : SdnStatus) : string :=
  match s with
  | SdnAvailable => "available" | SdnError => "error"
  | SdnPending => "pending" | SdnUnknown => "unknown"
  end.

(** QEMU and LXC guests have the same fields. *)
Record GuestResource := {
  g_cpu : f64; g_maxcpu : f64; g_disk : Z; g_maxdisk : Z; g_id : string;
  g_maxmem : Z; g_mem : Z; g_name : string; g_node : string; g_pool : string;
  g_status : string; g_tags : list string; g_template : bool; g_uptime : Z; g_vmid : Z;
}.
Record PveNodeResource := {
  pn_cgroup_mode : Z; pn_cpu : f64; pn_maxcpu : f64; pn_id : string; pn_maxmem : Z; pn_mem : Z;
  pn_node : string; pn_uptime : Z; pn_status : string; pn_level : string;
}.
Record PveStorageResource := {
  st_disk : Z; st_maxdisk : Z; st_id : string; st_storage : string; st_node : string;
  st_status : string; st_shared : bool;
}.
Record NetworkZoneResource := {
  zone_id : string; zone_node : string; zone_network : string; zone_status : SdnStatus;
  zone_type : string; zone_legacy : bool;
}.
Record NetworkFabricResource := {
  fab_id : string; fab_node : string; fab_network : string; fab_status : SdnStatus;
  fab_protocol : string;
}.
Inductive PveNetworkResource :=
| Fabric (f : NetworkFabricResource)
| Zone (z : NetworkZoneResource).
Record PbsNodeResource := {
  bn_cpu : f64; bn_maxcpu : f64; bn_id : string; bn_mem : Z; bn_maxmem : Z;
  bn_name : string; bn_uptime : Z;
}.
Record PbsDatastoreResource := {
  ds_id : string; ds_maxdisk : Z; ds_disk : Z; ds_name : string; ds_usage : f64;
  ds_maintenance : option string; ds_backing_device : option string; ds_backend_type : option string;
}.

Inductive Resource :=
| PveStorage (r : PveStorageResource)
| PveQemu (r : GuestResource)
| PveLxc (r : GuestResource)
| PveNode (r : PveNodeResource)
| PveNetwork (r : PveNetworkResource)
| PbsNode (r : PbsNodeResource)
| PbsDatastore (r : PbsDatastoreResource).

(** *** [PveNetworkResource] *)
Definition network_id (r : PveNetworkResource) : string :=
  match r with Zone z => zone_id z | Fabric f => fab_id f end.
Definition network_name (r : PveNetworkResource) : string :=
  match r with Zone z => zone_network z | Fabric f => fab_network f end.
Definition network_node (r : PveNetworkResource) : string :=
  match r with Zone z => zone_node z | Fabric f => fab_node f end.
Definition network_status (r : PveNetworkResource) : string :=
  sdn_status_str match r with Zone z => zone_status z | Fabric f => fab_status f end.
(** [network_type().as_str()] *)
Definition network_type_str (r : PveNetworkResource) : string :=
  match r with Zone _ => "zone" | Fabric _ => "fabric" end.

(** *** [Resource] *)
Definition resource_id (r : Resource) : string :=
  match r with
  | PveStorage r => "storage/" ++ st_node r ++ "/" ++ st_storage r
  | PveQemu r => "qemu/" ++ show_int (g_vmid r)
  | PveLxc r => "lxc/" ++ show_int (g_vmid r)
  | PveNode r => "node/" ++ pn_node r
  | PveNetwork r =>
      match r with
      | Zone z =>
          if zone_legacy z then "sdn/" ++ network_node r ++ "/" ++ network_name r
          else "network/" ++ network_node r ++ "/" ++ network_type_str r ++ "/" ++ network_name r
      | Fabric _ => "network/" ++ network_node r ++ "/" ++ network_type_str r ++ "/" ++ network_name r
      end
  | PbsNode r => "node/" ++ bn_name r
  | PbsDatastore r => ds_name r
  end.

Definition global_id (r : Resource) : string :=
  match r with
  | PveStorage r => st_id r
  | PveQemu r | PveLxc r => g_id r
  | PveNode r => pn_id r
  | PveNetwork r => network_id r
  | PbsNode r => bn_id r
  | PbsDatastore r => ds_id r
  end.

Definition resource_name (r : Resource) : string :=
  match r with
  | PveStorage r => st_storage r
  | PveQemu r | PveLxc r => g_name r
  | PveNode r => pn_node r
  | PveNetwork r => network_name r
  | PbsNode r => bn_name r
  | PbsDatastore r => ds_name r
  end.

Definition resource_type (r : Resource) : ResourceType :=
  match r with
  | PveStorage _ => TypeStorage
  | PveQemu _ => TypeQemu
  | PveLxc _ => TypeLxc
  | PveNetwork _ => TypeNetwork
  | PveNode _ | PbsNode _ => TypeNode
  | PbsDatastore _ => TypeDatastore
  end.

Definition resource_status (r : Resource) : string :=
  match r with
  | PveStorage r => st_status r
  | PveQemu r | PveLxc r => g_status r
  | PveNode r => pn_status r
  | PveNetwork r => network_status r
  | PbsNode r => if (0 <? bn_uptime r)%Z then "online" else "offline"
  | PbsDatastore r => match ds_maintenance r with None => "online" | Some _ => "under-maintenance" end
  end.

Definition properties (r : Resource) : string :=
  String.concat ","
    match r with
    | PbsDatastore r =>
        (match ds_backend_type r with Some b => [b] | None => [] end
         ++ match ds_backing_device r with Some _ => ["removable"] | None => [] end
         ++ (if f64_gt (ds_usage r) PBS_DATASTORE_HIGH_USAGE_THRESHOLD then ["high-usage"] else []))%list
    | _ => []
    end.

(** ** Building resources from the answers of remotes

    [ClusterResource] of pve_api_types, as far as it is used *)
Inductive ClusterResourceType := CrNode | CrLxc | CrQemu | CrStorage | CrSdn | CrNetwork | CrOther.
Inductive ClusterResourceNetworkType := NetFabric | NetZone | NetUnknown (s : string).
Record ClusterResource := {
  cr_ty : ClusterResourceType; cr_id : string;
  cr_cgroup_mode : option Z; cr_cpu : option f64; cr_maxcpu : option f64;
  cr_disk : option Z; cr_maxdisk : option Z; cr_mem : option Z; cr_maxmem : option Z (* i64 *);
  cr_name : option string; cr_node : option string; cr_pool : option string;
  cr_status : option string; cr_level : option string; cr_tags : option string;
  cr_template : option bool; cr_uptime : option Z (* i64 *); cr_vmid : option Z;
  cr_storage : option string; cr_shared : option bool; cr_sdn : option string;
  cr_zone_type : option string; cr_network : option string;
  cr_network_type : option ClusterResourceNetworkType; cr_protocol : option string;
}.

Abbreviation or_zero o := (default 0%Z o).
Abbreviation or_empty o := (default "" o).
Abbreviation or_f64 o := (default f64_zero o).

(** [tags.split(&[';', ',', ' ']).filter(non empty)] *)
Fixpoint split_tags (cur s : string) : list string :=
  match s with
  | EmptyString => if is_empty cur then [] else [cur]
  | String a s' =>
      if Ascii.eqb a ";" || Ascii.eqb a "," || Ascii.eqb a " "
      then if is_empty cur then split_tags "" s' else cur :: split_tags "" s'
      else split_tags (cur ++ String a "") s'
  end.

Definition map_pve_node (remote : string) (r : ClusterResource) : option PveNodeResource :=
  match cr_ty r with
  | CrNode => Some {|
      pn_cgroup_mode := or_zero (cr_cgroup_mode r); pn_cpu := or_f64 (cr_cpu r);
      pn_maxcpu := or_f64 (cr_maxcpu r);
      pn_id := "remote/" ++ remote ++ "/node/" ++ or_empty (cr_node r);
      pn_mem := or_zero (cr_mem r); pn_maxmem := u64 (or_zero (cr_maxmem r));
      pn_node := or_empty (cr_node r); pn_uptime := u64 (or_zero (cr_uptime r));
      pn_status := or_empty (cr_status r); pn_level := or_empty (cr_level r) |}
  | _ => None
  end.

(** The fields that [map_pve_lxc] and [map_pve_qemu] fill the same way *)
Definition map_guest (remote : string) (r : ClusterResource) : GuestResource := {|
  g_cpu := or_f64 (cr_cpu r); g_maxcpu := or_f64 (cr_maxcpu r);
  g_disk := or_zero (cr_disk r); g_maxdisk := or_zero (cr_maxdisk r);
  g_id := "remote/" ++ remote ++ "/guest/" ++ show_int (or_zero (cr_vmid r));
  g_mem := or_zero (cr_mem r); g_maxmem := u64 (or_zero (cr_maxmem r));
  g_name := or_empty (cr_name r); g_node := or_empty (cr_node r); g_pool := or_empty (cr_pool r);
  g_status := or_empty (cr_status r);
  g_tags := match cr_tags r with Some t => split_tags "" t | None => [] end;
  g_template := default false (cr_template r); g_uptime := u64 (or_zero (cr_uptime r));
  g_vmid := or_zero (cr_vmid r);
|}.
Definition map_pve_lxc (remote : string) (r : ClusterResource) : option GuestResource :=
  match cr_ty r with CrLxc => Some (map_guest remote r) | _ => None end.
Definition map_pve_qemu (remote : string) (r : ClusterResource) : option GuestResource :=
  match cr_ty r with CrQemu => Some (map_guest remote r) | _ => None end.

Definition map_pve_storage (remote : string) (r : ClusterResource) : option PveStorageResource :=
  match cr_ty r with
  | CrStorage => Some {|
      st_disk := or_zero (cr_disk r); st_maxdisk := or_zero (cr_maxdisk r);
      st_id := "remote/" ++ remote ++ "/" ++ cr_id r; st_storage := or_empty (cr_storage r);
      st_node := or_empty (cr_node r); st_status := or_empty (cr_status r);
      st_shared := default false (cr_shared r) |}
  | _ => None
  end.

Definition map_pve_sdn (remote : string) (r : ClusterResource) : option PveNetworkResource :=
  match cr_ty r with
  | CrSdn => Some (Zone {|
      zone_id := "remote/" ++ remote ++ "/sdn/" ++ cr_id r; zone_network := or_empty (cr_sdn r);
      zone_node := or_empty (cr_node r); zone_type := or_empty (cr_zone_type r);
      zone_status := parse_sdn_status (or_empty (cr_status r)); zone_legacy := true |})
  | _ => None
  end.

Definition map_pve_network (remote : string) (r : ClusterResource) : option PveNetworkResource :=
  match cr_ty r with
  | CrNetwork =>
      let id := "remote/" ++ remote ++ "/" ++ cr_id r in
      let status := parse_sdn_status (or_empty (cr_status r)) in
      match cr_network_type r with
      | Some NetFabric => Some (Fabric {|
          fab_id := id; fab_network := or_empty (cr_network r); fab_node := or_empty (cr_node r);
          fab_status := status; fab_protocol := or_empty (cr_protocol r) |})
      | Some NetZone => Some (Zone {|
          zone_id := id; zone_network := or_empty (cr_network r); zone_node := or_empty (cr_node r);
          zone_status := status; zone_type := or_empty (cr_zone_type r); zone_legacy := false |})
      | Some (NetUnknown _) | None => None
      end
  | _ => None
  end.

Definition map_pve_resource (remote : string) (r : ClusterResource) : option Resource :=
  match cr_ty r with
  | CrNode => PveNode <$> map_pve_node remote r
  | CrLxc => PveLxc <$> map_pve_lxc remote r
  | CrQemu => PveQemu <$> map_pve_qemu remote r
  | CrStorage => PveStorage <$> map_pve_storage remote r
  | CrSdn => PveNetwork <$> map_pve_sdn remote r
  | CrNetwork => PveNetwork <$> map_pve_network remote r
  | CrOther => None
  end.

(** [NodeStatus], [DataStoreStatusListItem] and [DataStoreConfig] of pbs_api_types *)
Record PbsNodeStatus := {
  ns_cpu : f64; ns_cpus : Z; ns_mem_used : Z; ns_mem_total : Z; ns_uptime : Z;
}.
Record DataStoreStatusListItem := { dss_store : string; dss_total : option Z; dss_used : option Z }.
Inductive backend_parse := BackendS3 | BackendOther | BackendInvalid.
Record DataStoreConfig := {
  dsc_maintenance_mode : option string; dsc_backing_device : option string; dsc_backend : option string;
}.

Definition map_pbs_node_status (remote : string) (s : PbsNodeStatus) : Resource :=
  PbsNode {| bn_cpu := ns_cpu s; bn_maxcpu := f64_of_Z (ns_cpus s);
             bn_id := "remote/" ++ remote ++ "/node/localhost"; bn_name := "localhost";
             bn_mem := ns_mem_used s; bn_maxmem := ns_mem_total s; bn_uptime := ns_uptime s |}.

(** [parse_backend] is [parse::<DatastoreBackendConfig>()] with the type it finds. *)
Definition map_pbs_datastore_status (parse_backend : string → backend_parse) (remote : string)
    (s : DataStoreStatusListItem) (stores : gmap string DataStoreConfig) : Resource :=
  let maxdisk := or_zero (dss_total s) in
  let disk := or_zero (dss_used s) in
  let usage := if (0 <? maxdisk)%Z then f64_div (f64_of_Z disk) (f64_of_Z maxdisk) else f64_zero in
  let id := "remote/" ++ remote ++ "/datastore/" ++ dss_store s in
  match stores !! dss_store s with
  | Some c => PbsDatastore {|
      ds_id := id; ds_name := dss_store s; ds_maxdisk := maxdisk; ds_disk := disk; ds_usage := usage;
      ds_maintenance := dsc_maintenance_mode c; ds_backing_device := dsc_backing_device c;
      ds_backend_type := b ← dsc_backend c;
                         match parse_backend b with
                         | BackendS3 => Some "s3"
                         | BackendOther => None
                         | BackendInvalid => Some "unknown"
                         end |}
  | None => PbsDatastore {|
      ds_id := id; ds_name := dss_store s; ds_maxdisk := maxdisk; ds_disk := disk; ds_usage := usage;
      ds_maintenance := None; ds_backing_device := None; ds_backend_type := None |}
  end.

(** ** Lemmas *)
Lemma parse_resource_type_str t : parse_resource_type (resource_type_str t) = Some t.
Proof. by destruct t. Qed.
Lemma parse_resource_type_inv s t : parse_resource_type s = Some t → s = resource_type_str t.
Proof.
  unfold parse_resource_type.
  repeat match goal with |- (if String.eqb ?a ?b then _ else _) = _ → _ =>
    destruct (String.eqb_spec a b) as [-> |]; [by intros [= <-] |] end.
  by intros [=].
Qed.

(** ** What is fetched from a remote *)

(** The requests that the two functions make; an answer can be an error. *)
Record pve_answers := {
  pa_cluster_resources : result string (list ClusterResource);
  pa_list_nodes : result string (list string);
}.
Record pbs_answers := {
  ba_node_status : result string PbsNodeStatus;
  ba_list_datastores : result string (list (string * DataStoreConfig));
  ba_datastore_usage : result string (list DataStoreStatusListItem);
}.

Section resources.
Context (parse_backend : string → backend_parse).

Definition fetch_pve_resources (remote : string) (a : pve_answers) : result string (list Resource) :=
  l ← pa_cluster_resources a;
  mret (filter_map (map_pve_resource remote) l).
Definition fetch_pbs_resources (remote : string) (a : pbs_answers) : result string (list Resource) :=
  status ← ba_node_status a;
  datastores ← ba_list_datastores a;
  let datastore_map : gmap string DataStoreConfig := foldl (λ m p, <[p.1 := p.2]> m) ∅ datastores in
  usage ← ba_datastore_usage a;
  mret (map_pbs_node_status remote status
        :: ((λ u, map_pbs_datastore_status parse_backend remote u datastore_map) <$> usage)).

(** The client of a remote can fail to be built. *)
Definition fetch_remote_resource (remote : string) (ty : RemoteType)
    (pve : result string pve_answers) (pbs : result string pbs_answers) : result string (list Resource) :=
  match ty with
  | Pve => a ← pve; fetch_pve_resources remote a
  | Pbs => a ← pbs; fetch_pbs_resources remote a
  end.
End resources.

(** ** Subscriptions *)

(** [NodeSubscriptionInfo] of pve_api_types and [SubscriptionInfo] of proxmox_subscription *)
Record PveSubscription := {
  ps_status : string; ps_sockets : option Z; ps_key : option string; ps_serverid : option string;
  ps_level : option string; ps_checktime : option Z; ps_nextduedate : option string;
}.
Record PbsSubscription := {
  bs_status : SubscriptionStatus; bs_key : option string; bs_serverid : option string;
  bs_checktime : option Z; bs_nextduedate : option string;
}.

Section subscriptions.
(** [status_of] converts a status through its JSON form and defaults if that fails. *)
Context (status_of : string → SubscriptionStatus).
(** [get_subscription] and the socket count in [node_status]; [None] if the request fails *)
Context (get_subscription : string → option PveSubscription) (hw_sockets : string → option Z).

Definition pve_subscription_info (node : string) : option NodeSubscriptionInfo :=
  (λ info, {|
    ni_status := status_of (ps_status info);
    ni_sockets := match ps_sockets info with Some n => Some n | None => hw_sockets node end;
    ni_key := ps_key info;
    ni_level := match ps_level info with Some l => level_from_str l | None => LevelNone end;
    ni_serverid := ps_serverid info;
    ni_check_time := ps_checktime info;
    ni_next_due_date := ps_nextduedate info |}) <$> get_subscription node.

Definition fetch_pve_subscriptions (nodes : result string (list string))
    : result string (gmap string (option NodeSubscriptionInfo)) :=
  nodes ← nodes;
  mret (foldl (λ list node, <[node := pve_subscription_info node]> list) ∅ nodes).

(** The level of a key can panic ([level_from_key]). *)
Definition fetch_pbs_subscription (answer : option PbsSubscription)
    : result string (gmap string (option NodeSubscriptionInfo)) :=
  match answer with
  | None => Ok {[ "localhost" := None ]}
  | Some info =>
      level ← ok_or (level_from_key (bs_key info)) "panicked";
      mret {[ "localhost" := Some {|
        ni_status := bs_status info; ni_sockets := None; ni_key := bs_key info; ni_level := level;
        ni_serverid := bs_serverid info; ni_check_time := bs_checktime info;
        ni_next_due_date := bs_nextduedate info |} ]}
  end.
Definition fetch_remote_subscription_info (ty : RemoteType)
    (nodes : result string (list string)) (pbs : result string (option PbsSubscription))
    : result string (gmap string (option NodeSubscriptionInfo)) :=
  match ty with
  | Pve => fetch_pve_subscriptions nodes
  | Pbs => answer ← pbs; fetch_pbs_subscription answer
  end.

(** ** Facts *)
Lemma fetch_pve_subscriptions_lookup nodes infos node :
  fetch_pve_subscriptions (Ok nodes) = Ok infos →
  infos !! node = if decide (node ∈ nodes) then Some (pve_subscription_info node) else None.
Proof.
  intros [= <-]. induction nodes as [|n nodes IH] using rev_ind; simpl; [done |].
  rw foldl_snoc. destruct (decide (n = node)) as [-> | Hne].
  - rw lookup_insert_eq decide_True; [| done]. apply elem_of_app. right. by left.
  - rw lookup_insert_ne // IH. apply decide_ext. set_solver.
Qed.
End subscriptions.

(** Every resource of a remote has an id under the remote and is of the product of the remote. *)
Definition product_of (r : Resource) : RemoteType :=
  match r with PbsNode _ | PbsDatastore _ => Pbs | _ => Pve end.

Definition belongs (remote : string) (ty : RemoteType) (r : Resource) : Prop :=
  product_of r = ty ∧ ∃ rest, global_id r = "remote/" ++ remote ++ "/" ++ rest.

Lemma map_pve_resource_belongs remote c r : map_pve_resource remote c = Some r → belongs remote Pve r.
Proof.
  unfold map_pve_resource, map_pve_node, map_pve_lxc, map_pve_qemu, map_pve_storage, map_pve_sdn, map_pve_network.
  destruct (cr_ty c); simpl; repeat case_match; intros; simplify_eq/=; (split; [done | by eexists]).
Qed.

Theorem fetched_resources_belong parse_backend remote ty pve pbs l r :
  fetch_remote_resource parse_backend remote ty pve pbs = Ok l → r ∈ l → belongs remote ty r.
Proof.
  destruct ty; simpl.
  - destruct pve as [a|]; [| done]. unfold fetch_pve_resources. simpl. destruct (pa_cluster_resources a); [| done].
    intros [= <-] (c & _ & Hc)%elem_of_filter_map. by apply map_pve_resource_belongs in Hc.
  - destruct pbs as [a|]; [| done]. unfold fetch_pbs_resources. simpl. destruct (ba_node_status a); [| done]. simpl.
    destruct (ba_list_datastores a); [| done]. simpl. destruct (ba_datastore_usage a); [| done].
    intros [= <-] [-> | (u & -> & _)%list_elem_of_fmap]%elem_of_cons; [split; [done | by eexists] |].
    unfold map_pbs_datastore_status. case_match; (split; [done | by eexists]).
Qed.
