(* ===== verification/Views.v ===== *)
(** * Views

    A view selects resources by include and exclude rules: the rules of
    lib/pdm-api-types/src/views.rs with their text form, and their evaluation in
    server/src/views/mod.rs.  The identifier pattern and the remote id schema belong to
    proxmox_schema and are parameters ([RuleEnv]). *)
From S2P Require Import Prelude RustStr Remotes Resources.

#[local] Open Scope string_scope.

Class RuleEnv := {
  rule_safe_id : string → bool;              (* PROXMOX_SAFE_ID_REGEX *)
  rule_global_id : string → bool;            (* GLOBAL_RESOURCE_ID_REGEX *)
  remote_id_schema : string → bool;          (* REMOTE_ID_SCHEMA.parse_simple_value(..).is_ok() *)
}.

(** ** Rules *)
Inductive StringMatcher := Exact (s : string).
Definition matcher_matches (m : StringMatcher) (value : string) : bool :=
  match m with Exact s => String.eqb value s end.

(** [EnumMatcher<ResourceType>] *)
Record EnumMatcher := EnumExact { enum_value : ResourceType }.
Definition enum_matches (m : EnumMatcher) (value : ResourceType) : bool :=
  bool_decide (enum_value m = value).

Inductive FilterRule :=
| RuleType (m : EnumMatcher)
| RulePool (m : StringMatcher)
| RuleId (m : StringMatcher)
| RuleTag (m : StringMatcher)
| RuleRemote (m : StringMatcher).

Global Instance StringMatcher_eq_dec : EqDecision StringMatcher.
Proof. solve_decision. Defined.
Global Instance EnumMatcher_eq_dec : EqDecision EnumMatcher.
Proof. solve_decision. Defined.
Global Instance FilterRule_eq_dec : EqDecision FilterRule.
Proof. solve_decision. Defined.

Section rules.
Context `{RuleEnv}.

Definition parse_filter_rule (s : string) : result string FilterRule :=
  match split_once "="%char s with
  | Some (k, v) =>
      if String.eqb k "resource-type" then
        match parse_resource_type v with
        | Some t => Ok (RuleType (EnumExact t))
        | None => Err "invalid resource type"
        end
      else if String.eqb k "resource-pool" then
        if rule_safe_id v then Ok (RulePool (Exact v)) else Err ("invalid resource-pool value: " ++ v)
      else if String.eqb k "resource-id" then
        if rule_global_id v then Ok (RuleId (Exact v)) else Err ("invalid resource-id value: " ++ v)
      else if String.eqb k "tag" then
        if rule_safe_id v then Ok (RuleTag (Exact v)) else Err ("invalid tag value: " ++ v)
      else if String.eqb k "remote" then
        if rule_safe_id v || remote_id_schema v then Ok (RuleRemote (Exact v))
        else Err "invalid remote id"
      else Err ("invalid type: " ++ k)
  | None => Err ("invalid filter rule: " ++ s)
  end.

(** [FromStr for FilterRule] *)
Definition filter_rule_from_str (s : string) : result string FilterRule :=
  match strip_prefix "exact:" s with
  | Some s' => parse_filter_rule s'
  | None => parse_filter_rule s
  end.

(** [Display for FilterRule] *)
Definition filter_rule_display (r : FilterRule) : string :=
  match r with
  | RuleType (EnumExact t) => "exact:resource-type=" ++ resource_type_str t
  | RuleId (Exact v) => "exact:resource-id=" ++ v
  | RuleTag (Exact v) => "exact:tag=" ++ v
  | RuleRemote (Exact v) => "exact:remote=" ++ v
  | RulePool (Exact v) => "exact:resource-pool=" ++ v
  end.

Definition verify_filter_rule (s : string) : result string () :=
  match filter_rule_from_str s with Ok _ => Ok () | Err e => Err e end.
End rules.

Record ViewConfig := {
  view_id : string;
  include_all : option bool;
  include : list FilterRule;
  exclude : list FilterRule;
  layout : string;
}.

(** ** Evaluation *)
Record ResourceData := {
  rd_type : ResourceType;
  rd_tags : option (list string);
  rd_pool : option string;
  rd_id : string;
}.

(** [From<&Resource> for ResourceData] *)
Definition resource_data (r : Resource) : ResourceData :=
  match r with
  | PveQemu g | PveLxc g =>
      {| rd_type := resource_type r; rd_tags := Some (g_tags g); rd_pool := Some (g_pool g);
         rd_id := global_id r |}
  | PveNode _ | PveNetwork _ | PbsNode _ | PbsDatastore _ | PveStorage _ =>
      {| rd_type := resource_type r; rd_tags := None; rd_pool := None; rd_id := global_id r |}
  end.

Definition rule_matches (remote : string) (d : ResourceData) (rule : FilterRule) : bool :=
  match rule with
  | RuleType m => enum_matches m (rd_type d)
  | RulePool m => match rd_pool d with Some p => matcher_matches m p | None => false end
  | RuleId m => matcher_matches m (rd_id d)
  | RuleTag m => match rd_tags d with Some l => existsb (matcher_matches m) l | None => false end
  | RuleRemote m => matcher_matches m remote
  end.
Definition check_rules (rules : list FilterRule) (remote : string) (d : ResourceData) : bool :=
  existsb (rule_matches remote d) rules.

Definition matches_remote_rule (remote : string) (rule : FilterRule) : bool :=
  match rule with RuleRemote m => matcher_matches m remote | _ => false end.

Definition includes_all (v : ViewConfig) : bool := default false (include_all v).

Definition check_if_included (v : ViewConfig) (remote : string) (d : ResourceData) : bool :=
  includes_all v || check_rules (include v) remote d.
Definition check_if_excluded (v : ViewConfig) (remote : string) (d : ResourceData) : bool :=
  check_rules (exclude v) remote d.

Definition resource_matches (v : ViewConfig) (remote : string) (r : Resource) : bool :=
  check_if_included v remote (resource_data r) && negb (check_if_excluded v remote (resource_data r)).

(** The loop over the include rules of [can_skip_remote] *)
Fixpoint no_include_matches (remote : string) (l : list FilterRule) : bool :=
  match l with
  | [] => true
  | RuleRemote m :: l' => if matcher_matches m remote then false else no_include_matches remote l'
  | _ :: _ => false
  end.
Definition can_skip_remote (v : ViewConfig) (remote : string) : bool :=
  if existsb (matches_remote_rule remote) (exclude v) then true
  else if includes_all v then false
  else no_include_matches remote (include v).

Definition is_remote_explicitly_included (v : ViewConfig) (remote : string) : bool :=
  (includes_all v || existsb (matches_remote_rule remote) (include v))
  && negb (existsb (matches_remote_rule remote) (exclude v)).

Definition node_resource_data (remote node : string) : ResourceData :=
  {| rd_type := TypeNode; rd_tags := None; rd_pool := None;
     rd_id := "remote/" ++ remote ++ "/node/" ++ node |}.
Definition is_node_included (v : ViewConfig) (remote node : string) : bool :=
  check_if_included v remote (node_resource_data remote node)
  && negb (check_if_excluded v remote (node_resource_data remote node)).

(** [get_view] and [get_optional_view]; [views] is the content of the configuration. *)
Definition get_view (views : result string (gmap string ViewConfig)) (id : string)
    : result string ViewConfig :=
  c ← views; ok_or (c !! id) ("unknown view: " ++ id).
Definition get_optional_view (views : result string (gmap string ViewConfig)) (id : option string)
    : result string (option ViewConfig) :=
  match id with
  | None => Ok None
  | Some id => v ← get_view views id; Ok (Some v)
  end.

(** ** Lemmas *)
Lemma matches_remote_rule_matches remote d rule :
  matches_remote_rule remote rule = true → rule_matches remote d rule = true.
Proof. by destruct rule. Qed.


Lemma no_include_matches_spec remote l : no_include_matches remote l = true →
  (∀ d, check_rules l remote d = false) ∧ existsb (matches_remote_rule remote) l = false.
Proof.
  induction l as [|rule l IH]; simpl; [done |]. destruct rule as [m|m|m|m|m]; try done.
  simpl. destruct (matcher_matches m remote); [done |]. simpl. apply IH.
Qed.

(** A remote that can be skipped has no resource in the view and is not included itself. *)
Lemma can_skip_remote_sound v remote : can_skip_remote v remote = true →
  (∀ d, check_if_included v remote d && negb (check_if_excluded v remote d) = false) ∧
  is_remote_explicitly_included v remote = false.
Proof.
  unfold can_skip_remote, check_if_included, check_if_excluded, is_remote_explicitly_included.
  destruct (existsb (matches_remote_rule remote) (exclude v)) eqn:Hx.
  - intros _. split; [| by rw andb_false_r]. intros d.
    assert (check_rules (exclude v) remote d = true) as ->; [| by rw andb_false_r].
    eapply existsb_mono; [| exact Hx]. apply matches_remote_rule_matches.
  - destruct (includes_all v); [done |]. intros [Hr Hn]%no_include_matches_spec.
    split; [intros d; by rw Hr | by rw Hn].
Qed.
