(* ===== verification/ResourceList.v ===== *)
(** * Listing and searching resources

    The search over the resources of all remotes in server/src/api/resources.rs:
    [get_resources_impl] with the categories of search terms.  [LowerEnv] has what the search
    uses of Unicode tables ([str::to_lowercase]) and of proxmox_schema ([parse_boolean]);
    [list_env] is the state of the system a call sees. *)
From S2P Require Import Prelude RustStr Remotes Search Resources Views.

#[local] Open Scope string_scope.

Class LowerEnv := {
  to_lowercase : string → string;
  parse_boolean : string → option bool;
}.
(** Lower-case ASCII letters stay as they are, and no text becomes empty. *)
Class LowerLaws `{LowerEnv} : Prop := {
  lower_ascii s : forall_char (in_range "a" "z") s = true → to_lowercase s = s;
  lower_nonempty s : s ≠ "" → to_lowercase s ≠ "";
}.

(** ** Categories *)
Inductive MatchCategory :=
| CatType | CatNetworkType | CatName | CatId | CatStatus | CatTemplate
| CatRemote | CatRemoteType | CatProperty | CatView.

Definition parse_category (s : string) : option MatchCategory :=
  if String.eqb s "type" then Some CatType
  else if String.eqb s "network-type" then Some CatNetworkType
  else if String.eqb s "name" then Some CatName
  else if String.eqb s "id" then Some CatId
  else if String.eqb s "status" then Some CatStatus
  else if String.eqb s "template" then Some CatTemplate
  else if String.eqb s "remote" then Some CatRemote
  else if String.eqb s "remote-type" then Some CatRemoteType
  else if String.eqb s "property" then Some CatProperty
  else if String.eqb s "view" then Some CatView
  else None.

(** [str::contains] for a text, [str::split(",")] *)
Fixpoint contains (needle s : string) : bool :=
  starts_with needle s || match s with EmptyString => false | String _ s' => contains needle s' end.
Fixpoint split_commas (cur s : string) : list string :=
  match s with
  | EmptyString => [cur]
  | String a s' => if Ascii.eqb a "," then cur :: split_commas "" s'
                   else split_commas (cur ++ String a "") s'
  end.

Section search.
Context `{LowerEnv}.

Definition category_matches (c : MatchCategory) (value search_term : string) : bool :=
  match c with
  | CatType | CatStatus | CatNetworkType => starts_with (to_lowercase search_term) (to_lowercase value)
  | CatName | CatId | CatRemote => contains (to_lowercase search_term) (to_lowercase value)
  | CatTemplate =>
      match parse_boolean value, parse_boolean search_term with
      | Some a, Some b => Bool.eqb a b
      | _, _ => false
      end
  | CatRemoteType =>
      match parse_remote_type value, parse_remote_type search_term with
      | Some a, Some b => bool_decide (a = b)
      | _, _ => false
      end
  | CatProperty => existsb (λ p, String.eqb p (to_lowercase search_term)) (split_commas "" (to_lowercase value))
  | CatView => true
  end.

(** [term.category.as_deref().map(|c| c.parse::<MatchCategory>())] *)
Definition term_category (t : SearchTerm) : option (option MatchCategory) :=
  parse_category <$> category t.

Definition show_bool (b : bool) : string := if b then "true" else "false".

(** [None] when the term cannot be decided for a resource. *)
Definition resource_matches_search_term (remote_name : string) (r : Resource) (t : SearchTerm)
    : option bool :=
  match term_category t with
  | Some (Some c) =>
      match c with
      | CatType => Some (category_matches c (resource_type_str (resource_type r)) (Search.value t))
      | CatName => Some (category_matches c (resource_name r) (Search.value t))
      | CatId => Some (category_matches c (resource_id r) (Search.value t))
      | CatStatus => Some (category_matches c (resource_status r) (Search.value t))
      | CatProperty => Some (category_matches c (properties r) (Search.value t))
      | CatTemplate => Some match r with
                            | PveQemu g | PveLxc g => category_matches c (show_bool (g_template g)) (Search.value t)
                            | _ => false
                            end
      | CatRemote => Some (category_matches c remote_name (Search.value t))
      | CatRemoteType => None
      | CatNetworkType => Some match r with
                               | PveNetwork n => category_matches c (network_type_str n) (Search.value t)
                               | _ => false
                               end
      | CatView => None
      end
  | Some None => Some false
  | None => Some (category_matches CatName (resource_name r) (Search.value t)
                  || category_matches CatId (resource_id r) (Search.value t))
  end.

Definition remote_matches_search_term (remote_name : string) (ty : RemoteType) (online : option bool)
    (t : SearchTerm) : bool :=
  match term_category t with
  | Some (Some c) =>
      match c with
      | CatType => category_matches c "remote" (Search.value t)
      | CatName | CatRemote | CatId => category_matches c remote_name (Search.value t)
      | CatStatus => match online with
                     | Some true => category_matches c "online" (Search.value t)
                     | Some false => category_matches c "offline" (Search.value t)
                     | None => true
                     end
      | CatProperty | CatTemplate | CatNetworkType => false
      | CatRemoteType => category_matches c (show_remote_type ty) (Search.value t)
      | CatView => true
      end
  | Some None => false
  | None => category_matches CatName remote_name (Search.value t)
            || category_matches CatType "remote" (Search.value t)
  end.

Definition remote_type_matches_search_term (ty : RemoteType) (t : SearchTerm) : bool :=
  match term_category t with
  | Some (Some CatRemoteType) => category_matches CatRemoteType (show_remote_type ty) (Search.value t)
  | Some (Some _) => true
  | Some None => false
  | None => true
  end.

(** ** [is_remotes_only]: the counters its closure changes *)
Record remotes_only_state := { ro_required : bool; ro_matches : Z; ro_terms : Z }.

Definition is_type_remote (t : SearchTerm) : bool :=
  match term_category t with
  | Some (Some CatType) => category_matches CatType "remote" (Search.value t)
  | _ => false
  end.

Definition remotes_only_step (st : remotes_only_state) (t : SearchTerm) : remotes_only_state * bool :=
  let terms := if optional t then (ro_terms st + 1)%Z else ro_terms st in
  let '(req, m) :=
    if is_type_remote t
    then if optional t then (ro_required st, (ro_matches st + 1)%Z) else (true, ro_matches st)
    else (ro_required st, ro_matches st) in
  ({| ro_required := req; ro_matches := m; ro_terms := terms |}, negb (optional t)).

Definition is_remotes_only (filters : Search) : bool :=
  let '(st, _) := matches remotes_only_step filters
                    {| ro_required := false; ro_matches := 0; ro_terms := 0 |} in
  ro_required st || (0 <? ro_matches st)%Z && (ro_matches st =? ro_terms st)%Z.

(** ** The listing *)

(** What the caller may do; [None] stands for an internal call without a caller. *)
Record caller := {
  may_view : string → bool;         (* Resource.Audit on /view/{id} *)
  may_any : bool;                   (* Resource.Audit somewhere below /resource *)
  may_remote : string → bool;       (* Resource.Audit on /resource/{remote} *)
}.

Record list_env := {
  le_views : result string (gmap string ViewConfig);
  le_remotes : result string (list (string * RemoteType));
  le_fetch : string → result string (list Resource);   (* get_resources_for_remote *)
}.

Record RemoteWithResources := {
  remote_name : string;
  rwr_ty : RemoteType;
  resources : list Resource;
  rwr_error : option string;
}.

Inductive list_error := Denied | ListFailed (msg : string).

Definition lift_list {A} (r : result string A) : result list_error A :=
  match r with Ok a => Ok a | Err e => Err (ListFailed e) end.

(** The closure that looks for a view in the search terms *)
Definition find_view (st : option string) (t : SearchTerm) : option string * bool :=
  (if bool_decide (category t = Some "view") then Some (Search.value t) else st, true).

Definition retain_resource (filters : Search) (ty : option ResourceType) (name : string) (r : Resource)
    : bool :=
  match ty with
  | Some ty => bool_decide (resource_type r = ty)
  | None => true
  end
  && matches_with (λ t, default true (resource_matches_search_term name r t)) filters.

(** The task spawned for a remote *)
Definition gather (E : list_env) (filters : Search) (remotes_only : bool) (ty : option ResourceType)
    (name : string) (rty : RemoteType) : RemoteWithResources :=
  let '(found, err) := match le_fetch E name with
                       | Ok l => (l, None)
                       | Err e => ([], Some e)
                       end in
  {| remote_name := name; rwr_ty := rty; rwr_error := err;
     resources :=
       if remotes_only then []
       else if bool_decide (is_Some ty) || negb (search_is_empty filters)
            then List.filter (retain_resource filters ty name) found
            else found |}.

(** The checks at the start of the loop over the remotes *)
Definition considered (who : option caller) (view : option ViewConfig) (filters : Search)
    (remotes_only : bool) (name : string) (rty : RemoteType) : bool :=
  match view, who with
  | Some v, _ => negb (can_skip_remote v name)
  | None, Some c => may_remote c name
  | None, None => true
  end
  && matches_with (remote_type_matches_search_term rty) filters
  && (negb remotes_only || matches_with (remote_matches_search_term name rty None) filters).

(** Is the remote listed once its resources are known? *)
Definition listed (filters : Search) (r : RemoteWithResources) : bool :=
  search_is_empty filters || negb (bool_decide (resources r = []))
  || matches_with (remote_matches_search_term (remote_name r) (rwr_ty r)
                     (Some (bool_decide (rwr_error r = None)))) filters.

(** [retain_mut] with a view *)
Definition apply_view (v : ViewConfig) (r : RemoteWithResources) : option RemoteWithResources :=
  let kept := List.filter (resource_matches v (remote_name r)) (resources r) in
  let r' := {| remote_name := remote_name r; rwr_ty := rwr_ty r; resources := kept;
               rwr_error := rwr_error r |} in
  if negb (bool_decide (kept = []))
     || bool_decide (is_Some (rwr_error r)) && is_remote_explicitly_included v (remote_name r)
  then Some r' else None.

Definition get_resources_impl (E : list_env) (who : option caller) (search : option string)
    (ty : option ResourceType) (view : option string) : result list_error (list RemoteWithResources) :=
  _ ← match who with
      | None => Ok ()
      | Some c => bail_if (negb match view with Some v => may_view c v | None => may_any c end) Denied
      end;
  config ← lift_list (le_remotes E);
  let filters := match search with Some s => search_from s | None => search_new end in
  view ← lift_list (get_optional_view (le_views E) view);
  from_search ← lift_list (get_optional_view (le_views E) (matches find_view filters None).1);
  let view := match view with Some v => Some v | None => from_search end in
  let remotes_only := is_remotes_only filters in
  let gathered :=
    filter_map (λ '(name, rty), if considered who view filters remotes_only name rty
                                then Some (gather E filters remotes_only ty name rty) else None) config in
  let remote_resources := List.filter (listed filters) gathered in
  mret match view with
       | Some v => filter_map (apply_view v) remote_resources
       | None => remote_resources
       end.
End search.
