(* ===== verification/ResourceListFacts.v ===== *)
(** * The resource listing against a reference

    [reference_remote] lists a remote without the shortcuts of [get_resources_impl]: it asks
    every remote the caller may see, decides every search term for every resource and applies
    the view to the result. *)
From S2P Require Import Prelude RustStr Remotes Search Resources Views ResourceList.

#[local] Open Scope string_scope.

Section facts.
Context `{LowerLaws}.

(** ** The reference *)

(** Does a resource of a remote of type [rty] match a term?  The term on the type of the remote
    is decided by the remote. *)
Definition term_holds (name : string) (rty : RemoteType) (r : Resource) (t : SearchTerm) : bool :=
  match term_category t with
  | Some (Some CatRemoteType) => remote_type_matches_search_term rty t
  | Some (Some CatView) => true
  | _ => default false (resource_matches_search_term name r t)
  end.
Definition of_type (ty : option ResourceType) (r : Resource) : bool :=
  match ty with Some ty => bool_decide (resource_type r = ty) | None => true end.
Definition resource_found (filters : Search) (ty : option ResourceType) (name : string)
    (rty : RemoteType) (r : Resource) : bool :=
  of_type ty r && matches_spec (term_holds name rty r) filters.

Definition reference_remote (E : list_env) (who : option caller) (view : option ViewConfig)
    (filters : Search) (ty : option ResourceType) (name : string) (rty : RemoteType)
    : option RemoteWithResources :=
  let '(found, err) := match le_fetch E name with Ok l => (l, None) | Err e => ([], Some e) end in
  let r := {| remote_name := name; rwr_ty := rty; rwr_error := err;
              resources := List.filter (resource_found filters ty name rty) found |} in
  if match view, who with None, Some c => may_remote c name | _, _ => true end && listed filters r
  then match view with Some v => apply_view v r | None => Some r end
  else None.

(** The optional terms ask for the type of the remote all of them or none of them. *)
Definition is_remote_type_term (t : SearchTerm) : bool :=
  match term_category t with Some (Some CatRemoteType) => true | _ => false end.
Definition separable (filters : Search) : bool :=
  forallb is_remote_type_term (optional_terms filters)
  || forallb (λ t, negb (is_remote_type_term t)) (optional_terms filters).

(** ** Terms *)
Lemma term_holds_split name rty r t :
  term_holds name rty r t
  = remote_type_matches_search_term rty t && default true (resource_matches_search_term name r t).
Proof.
  unfold term_holds, remote_type_matches_search_term, resource_matches_search_term.
  destruct (term_category t) as [[[]|]|]; simpl; by rw ?andb_true_r.
Qed.

Lemma undecided_terms name r t :
  is_remote_type_term t = true → default true (resource_matches_search_term name r t) = true.
Proof.
  unfold is_remote_type_term, resource_matches_search_term. by destruct (term_category t) as [[[]|]|].
Qed.
Lemma typed_terms name rty r t : is_remote_type_term t = false →
  default true (resource_matches_search_term name r t) = true → remote_type_matches_search_term rty t = true.
Proof.
  unfold is_remote_type_term, resource_matches_search_term, remote_type_matches_search_term.
  by destruct (term_category t) as [[[]|]|].
Qed.

Lemma remote_matches_type name rty b t :
  remote_matches_search_term name rty b t = true → remote_type_matches_search_term rty t = true.
Proof.
  unfold remote_matches_search_term, remote_type_matches_search_term.
  by destruct (term_category t) as [[[]|]|].
Qed.
Lemma remote_matches_online name rty b t :
  remote_matches_search_term name rty (Some b) t = true → remote_matches_search_term name rty None t = true.
Proof.
  unfold remote_matches_search_term. by destruct (term_category t) as [[[]|]|].
Qed.

(** Deciding the two kinds of terms one after the other is deciding them together. *)
Lemma matches_split (p q : SearchTerm → bool) s :
  (∀ t, t ∈ optional_terms s → p t = true) ∨ (∀ t, t ∈ optional_terms s → q t = true → p t = true) →
  matches_spec p s && matches_spec q s = matches_spec (λ t, p t && q t) s.
Proof.
  intros Hs. apply eq_bool_prop_intro. rw !Is_true_true andb_true_iff. split.
  - intros [Hp Hq]. unfold matches_spec in *. apply andb_true_iff in Hp as [Hpr Hpo], Hq as [Hqr Hqo].
    apply andb_true_iff. split.
    + apply forallb_forall. intros t Ht. apply andb_true_iff.
      by split; [apply (proj1 (forallb_forall _ _) Hpr) | apply (proj1 (forallb_forall _ _) Hqr)].
    + apply orb_true_iff in Hqo as [Hqo | (t & Ht & Hq)%existsb_exists]; apply orb_true_iff; [by left | right].
      apply existsb_exists. exists t. split; [done |]. rw Hq andb_true_r.
      destruct Hs as [Hs | Hs]; apply Hs; by try apply list_elem_of_In.
  - intros Hpq. split; (eapply matches_spec_mono; [| exact Hpq]); simpl;
      intros t _ [? ?]%andb_true_iff; done.
Qed.

Lemma separable_split filters name rty r : separable filters = true →
  matches_spec (remote_type_matches_search_term rty) filters
  && matches_spec (λ t, default true (resource_matches_search_term name r t)) filters
  = matches_spec (term_holds name rty r) filters.
Proof.
  intros Hsep. rw (matches_spec_ext (term_holds name rty r) _ filters (λ t _, term_holds_split name rty r t)).
  apply orb_true_iff in Hsep as [Hall | Hnone].
  - rw andb_comm. rw matches_split.
    + left. intros t Ht%list_elem_of_In. by apply undecided_terms, (proj1 (forallb_forall _ _) Hall).
    + apply matches_spec_ext. intros t _. apply andb_comm.
  - apply matches_split. right. intros t Ht%list_elem_of_In. apply typed_terms.
    by apply negb_true_iff, (proj1 (forallb_forall _ _) Hnone).
Qed.

(** ** Searches for remotes only *)
Definition search_wf (s : Search) : Prop :=
  Forall (λ t, optional t = false) (required_terms s) ∧ Forall (λ t, optional t = true) (optional_terms s).

Lemma from_iter_wf l : search_wf (from_iter l).
Proof.
  split; apply Forall_forall; intros t [_ Ht]%elem_of_list_filter; [by apply negb_true_iff | done].
Qed.

Lemma remotes_only_required st l : Forall (λ t, optional t = false) l →
  any_false remotes_only_step st l
  = ({| ro_required := ro_required st || existsb is_type_remote l; ro_matches := ro_matches st;
        ro_terms := ro_terms st |}, false).
Proof.
  intros Hl. revert st. induction Hl as [|t l Ht Hl IH]; intros st; simpl.
  { rw orb_false_r. by destruct st. }
  unfold remotes_only_step at 1. rw Ht. destruct (is_type_remote t); simpl; rw IH; simpl; [| done].
  by rw orb_true_r.
Qed.

Definition count_terms (p : SearchTerm → bool) (l : list SearchTerm) : Z := Z.of_nat (length (List.filter p l)).

Lemma remotes_only_optional st l : Forall (λ t, optional t = true) l →
  all_false remotes_only_step st l
  = ({| ro_required := ro_required st; ro_matches := ro_matches st + count_terms is_type_remote l;
        ro_terms := ro_terms st + Z.of_nat (length l) |}, true).
Proof.
  intros Hl. revert st. unfold count_terms. induction Hl as [|t l Ht Hl IH]; intros st.
  { simpl. rw !Z.add_0_r. by destruct st. }
  cbn [all_false List.filter length]. unfold remotes_only_step at 1. rw Ht.
  destruct (is_type_remote t); cbn [negb]; rw IH; cbn [ro_required ro_matches ro_terms length]; do 2 f_equal; lia.
Qed.

Lemma count_terms_all p l :
  (count_terms p l =? Z.of_nat (length l))%Z = forallb p l.
Proof.
  unfold count_terms. induction l as [|t l IH]; [done |]. cbn [List.filter forallb length].
  pose proof (List.filter_length_le p l).
  destruct (p t); cbn [length andb]; [rw -IH; apply eq_bool_prop_intro; rw !Is_true_true !Z.eqb_eq; lia |].
  apply Z.eqb_neq. lia.
Qed.

(** A required term asks for remotes, or there are optional terms and all of them do. *)
Definition remotes_only_spec (s : Search) : bool :=
  existsb is_type_remote (required_terms s)
  || negb (bool_decide (optional_terms s = [])) && forallb is_type_remote (optional_terms s).

Lemma is_remotes_only_spec s : search_wf s → is_remotes_only s = remotes_only_spec s.
Proof.
  intros [Hr Ho]. unfold is_remotes_only, matches, remotes_only_spec.
  destruct (search_is_empty s) eqn:Hemp.
  { unfold search_is_empty in Hemp. apply andb_true_iff in Hemp as [->%bool_decide_eq_true ->%bool_decide_eq_true]. done. }
  rw remotes_only_required //. cbn [ro_required ro_matches ro_terms orb].
  destruct (optional_terms s) as [|t l] eqn:Eo.
  { rw bool_decide_eq_true_2 //. }
  rw bool_decide_eq_false_2 // remotes_only_optional //. cbn [ro_required ro_matches ro_terms negb andb].
  rw !Z.add_0_l count_terms_all. destruct (forallb is_type_remote (t :: l)) eqn:E; [| by rw !andb_false_r].
  f_equal. rw andb_true_r. apply Z.ltb_lt.
  rw -count_terms_all in E. apply Z.eqb_eq in E. rw E. simpl. lia.
Qed.

(** *** No resource is a remote *)
Lemma starts_with_char a p s : starts_with (String a p) s = true → ∃ s', s = String a s'.
Proof.
  unfold starts_with. destruct s as [|b s]; simpl; [done |]. destruct (Ascii.eqb_spec a b) as [-> |]; [| done]. eauto.
Qed.

Lemma type_remote_char t : is_type_remote t = true → Search.value t ≠ "" →
  ∃ p, to_lowercase (Search.value t) = String "r" p.
Proof.
  unfold is_type_remote. destruct (term_category t) as [[[]|]|]; try done. simpl.
  rw (lower_ascii "remote") //. intros Hs Hv%lower_nonempty.
  destruct (to_lowercase (Search.value t)) as [|a p]; [done |].
  pose proof (starts_with_char _ _ _ Hs) as [s' [= -> _]]. by exists p.
Qed.

Lemma type_remote_no_resource name rty r t : is_type_remote t = true → Search.value t ≠ "" →
  term_holds name rty r t = false.
Proof.
  intros Ht Hv. destruct (type_remote_char t Ht Hv) as [p Hp]. revert Ht.
  unfold is_type_remote, term_holds, resource_matches_search_term.
  destruct (term_category t) as [[[]|]|]; try done. intros _. simpl.
  destruct (starts_with _ _) eqn:E; [| done]. rw Hp lower_ascii in E.
  - by destruct (resource_type r).
  - apply starts_with_char in E as [s' E]. by destruct (resource_type r).
Qed.

(** A term of a text has a value if it has a category. *)
Lemma term_from_value s : category (term_from s) ≠ None → Search.value (term_from s) ≠ "".
Proof.
  unfold term_from. destruct (match strip_prefix "+" s with Some _ => _ | None => _ end) as [opt t].
  destruct (split_once ":"%char t) as [[c n]|]; simpl; [| done].
  destruct (is_empty c || is_empty n) eqn:E; simpl; [done |]. intros _ ->.
  apply orb_false_iff in E as [_ E]. done.
Qed.

Definition valued (s : Search) : Prop :=
  ∀ t, t ∈ terms s → category t ≠ None → Search.value t ≠ "".
Lemma search_from_valued s : valued (search_from s).
Proof. intros t Ht%search_from_words Hc. destruct Ht as [_ E]. rw -E. apply term_from_value. by rw E. Qed.

Lemma type_remote_category t : is_type_remote t = true → category t ≠ None.
Proof. unfold is_type_remote, term_category. by destruct (category t). Qed.

Lemma remotes_only_no_resource name rty r s : search_wf s → valued s → is_remotes_only s = true →
  matches_spec (term_holds name rty r) s = false.
Proof.
  intros Hwf Hval. rw (is_remotes_only_spec s Hwf). unfold remotes_only_spec, matches_spec.
  assert (∀ t, t ∈ terms s → is_type_remote t = true → term_holds name rty r t = false) as Hno.
  { intros t Ht Hrem. apply type_remote_no_resource; [done |]. by apply Hval, type_remote_category. }
  intros [(t & Ht & Hrem)%existsb_exists | [Hne%negb_true_iff Hall]%andb_true_iff]%orb_true_iff.
  - apply andb_false_iff. left. apply not_true_is_false. intros Hf.
    pose proof (proj1 (forallb_forall _ _) Hf t Ht) as Hh. rw Hno in Hh; [| done | done].
    apply elem_of_app. left. by apply list_elem_of_In.
  - apply andb_false_iff. right. rw Hne. cbn [orb]. apply not_true_is_false. intros (t & Ht & Hh)%existsb_exists.
    rw Hno in Hh; [| by apply (proj1 (forallb_forall _ _) Hall) | done].
    apply elem_of_app. right. by apply list_elem_of_In.
Qed.

(** ** The listing is the reference *)
Definition list_remote (E : list_env) (who : option caller) (view : option ViewConfig) (filters : Search)
    (ty : option ResourceType) (name : string) (rty : RemoteType) : option RemoteWithResources :=
  let ro := is_remotes_only filters in
  if considered who view filters ro name rty
  then let r := gather E filters ro ty name rty in
       if listed filters r then match view with Some v => apply_view v r | None => Some r end else None
  else None.

Definition fetched (E : list_env) (name : string) : list Resource :=
  match le_fetch E name with Ok l => l | Err _ => [] end.
Definition fetch_error (E : list_env) (name : string) : option string :=
  match le_fetch E name with Ok _ => None | Err e => Some e end.

(** What a remote contributes when its resources are [l] *)
Definition finish (E : list_env) (view : option ViewConfig) (filters : Search) (name : string)
    (rty : RemoteType) (l : list Resource) : option RemoteWithResources :=
  let r := {| remote_name := name; rwr_ty := rty; rwr_error := fetch_error E name; resources := l |} in
  if listed filters r then match view with Some v => apply_view v r | None => Some r end else None.

Lemma list_remote_finish E who view filters ty name rty :
  list_remote E who view filters ty name rty
  = if considered who view filters (is_remotes_only filters) name rty
    then finish E view filters name rty (resources (gather E filters (is_remotes_only filters) ty name rty))
    else None.
Proof. unfold list_remote, finish, gather, fetch_error. by destruct (le_fetch E name). Qed.

Lemma reference_remote_finish E who view filters ty name rty :
  reference_remote E who view filters ty name rty
  = if match view, who with None, Some c => may_remote c name | _, _ => true end
    then finish E view filters name rty (List.filter (resource_found filters ty name rty) (fetched E name))
    else None.
Proof.
  unfold reference_remote, finish, fetched, fetch_error. by destruct (le_fetch E name), (match view with Some _ => _ | None => _ end).
Qed.

Lemma matches_spec_empty p s : search_is_empty s = true → matches_spec p s = true.
Proof.
  unfold search_is_empty, matches_spec. by intros [->%bool_decide_eq_true ->%bool_decide_eq_true]%andb_true_iff.
Qed.

Lemma finish_unlisted E view filters name rty p : matches_spec p filters = false →
  (∀ b t, remote_matches_search_term name rty (Some b) t = true → p t = true) →
  finish E view filters name rty [] = None.
Proof.
  intros Hp Hmono. unfold finish, listed. simpl. rw matches_with_spec.
  destruct (search_is_empty filters) eqn:He; [by rw (matches_spec_empty _ _ He) in Hp |].
  cbn [negb orb bool_decide].
  destruct (matches_spec (remote_matches_search_term _ _ _) _) eqn:Em; [| done].
  assert (matches_spec p filters = true); [| congruence].
  eapply matches_spec_mono; [| exact Em]. intros t _. apply Hmono.
Qed.

Lemma finish_skipped E v filters name rty l : can_skip_remote v name = true →
  finish E (Some v) filters name rty l = None.
Proof.
  intros [Hnone Hrem]%can_skip_remote_sound. unfold finish, apply_view. simpl.
  destruct (listed _ _); [| done]. rw filter_none.
  { intros r. apply Hnone. }
  rw bool_decide_eq_true_2 // Hrem. by rw andb_false_r.
Qed.

Lemma gather_found E filters ty name rty : search_wf filters → valued filters → separable filters = true →
  matches_spec (remote_type_matches_search_term rty) filters = true →
  resources (gather E filters (is_remotes_only filters) ty name rty)
  = List.filter (resource_found filters ty name rty) (fetched E name).
Proof.
  intros Hwf Hval Hsep Hrt.
  assert (∀ r, retain_resource filters ty name r = resource_found filters ty name rty r) as Hr.
  { intros r. unfold retain_resource, resource_found. rw matches_with_spec -separable_split // Hrt. done. }
  transitivity (if is_remotes_only filters then []
    else if bool_decide (is_Some ty) || negb (search_is_empty filters)
         then List.filter (retain_resource filters ty name) (fetched E name) else fetched E name).
  { unfold gather, fetched. by destruct (le_fetch E name). }
  destruct (is_remotes_only filters) eqn:Ero.
  - rw filter_none //. intros r. unfold resource_found.
    rw remotes_only_no_resource //. apply andb_false_r.
  - destruct (bool_decide (is_Some ty) || negb (search_is_empty filters)) eqn:Ef; [by apply filter_eq |].
    apply orb_false_iff in Ef as [Hty He%negb_false_iff]. rw filter_all //. intros r. unfold resource_found, of_type.
    rw matches_spec_empty //. destruct ty; [| done]. apply bool_decide_eq_false in Hty. by destruct Hty.
Qed.

Lemma type_mismatch_no_resource E filters ty name rty : 
  matches_spec (remote_type_matches_search_term rty) filters = false →
  List.filter (resource_found filters ty name rty) (fetched E name) = [].
Proof.
  intros Hrt. apply filter_none. intros r. unfold resource_found. apply andb_false_iff. right.
  destruct (matches_spec (term_holds name rty r) filters) eqn:E'; [| done].
  assert (matches_spec (remote_type_matches_search_term rty) filters = true); [| congruence].
  eapply matches_spec_mono; [| exact E']. intros t _. rw term_holds_split. by intros [? _]%andb_true_iff.
Qed.

Lemma list_remote_reference E who view filters ty name rty :
  search_wf filters → valued filters → separable filters = true →
  list_remote E who view filters ty name rty = reference_remote E who view filters ty name rty.
Proof.
  intros Hwf Hval Hsep. rw list_remote_finish reference_remote_finish. unfold considered. rw !matches_with_spec.
  destruct (matches_spec (remote_type_matches_search_term rty) filters) eqn:Hrt.
  - rw gather_found // andb_true_r.
    destruct (negb (is_remotes_only filters) || _) eqn:Ero.
    + rw andb_true_r. destruct view as [v|]; [| done].
      destruct (can_skip_remote v name) eqn:Es; simpl; [by rw finish_skipped | done].
    + rw andb_false_r. apply orb_false_iff in Ero as [Ero%negb_false_iff Hm].
      destruct (match view with Some _ => _ | None => _ end); [| done].
      rw filter_none.
      { intros r. unfold resource_found. rw remotes_only_no_resource //. apply andb_false_r. }
      rw (finish_unlisted _ _ _ _ _ _ Hm) //. intros b t. apply remote_matches_online.
  - rw andb_false_r. simpl. destruct (match view with Some _ => _ | None => _ end); [| done].
    rw type_mismatch_no_resource // (finish_unlisted _ _ _ _ _ _ Hrt) //. intros b t. apply remote_matches_type.
Qed.

(** ** The view of a search: the last required one, or the first optional term *)
Definition term_view (t : SearchTerm) : option string :=
  if bool_decide (category t = Some "view") then Some (Search.value t) else None.
Definition search_view (s : Search) : option string :=
  match optional_terms s with
  | t :: _ => match term_view t with Some v => Some v | None => last (omap term_view (required_terms s)) end
  | [] => last (omap term_view (required_terms s))
  end.

Lemma find_view_required st l : any_false find_view st l
  = (match last (omap term_view l) with Some v => Some v | None => st end, false).
Proof.
  revert st. induction l as [|t l IH]; intros st; [done |].
  change (any_false find_view st (t :: l))
    with (any_false find_view (if bool_decide (category t = Some "view") then Some (Search.value t) else st) l).
  rw IH. cbn [omap list_omap]. unfold term_view at 2. case_bool_decide; [| done].
  rw last_cons. by destruct (last (omap term_view l)).
Qed.

Lemma find_view_spec s : (matches find_view s None).1 = search_view s.
Proof.
  unfold matches, search_view. destruct (search_is_empty s) eqn:He.
  { unfold search_is_empty in He. by apply andb_true_iff in He as [->%bool_decide_eq_true ->%bool_decide_eq_true]. }
  rw find_view_required. destruct (optional_terms s) as [|t l]; simpl.
  { by destruct (last _). }
  destruct (term_view t) as [v|] eqn:E; revert E; unfold term_view at 1; case_bool_decide; try done.
  intros _. by destruct (last _).
Qed.

Lemma search_view_none s : Forall (λ t, category t ≠ Some "view") (terms s) → search_view s = None.
Proof.
  intros [Hr Ho]%Forall_app. unfold search_view.
  assert (omap term_view (required_terms s) = []) as ->.
  { induction Hr as [|t l Ht Hl IH]; [done |]. cbn [omap list_omap]. assert (term_view t = None) as ->; [| done].
    unfold term_view. by rw bool_decide_eq_false_2. }
  destruct Ho as [|t l Ht Hl]; simpl; [done |]. unfold term_view. by rw bool_decide_eq_false_2.
Qed.

(** [get_resources_impl] lists each remote on its own. *)
Definition search_of (search : option string) : Search :=
  match search with Some s => search_from s | None => search_new end.
Definition view_of (E : list_env) (search view : option string) : result list_error (option ViewConfig) :=
  v ← lift_list (get_optional_view (le_views E) view);
  from_search ← lift_list (get_optional_view (le_views E) (matches find_view (search_of search) None).1);
  mret match v with Some v => Some v | None => from_search end.
Definition authorised (who : option caller) (view : option string) : result list_error () :=
  match who with
  | None => Ok ()
  | Some c => bail_if (negb match view with Some v => may_view c v | None => may_any c end) Denied
  end.

Lemma get_resources_per_remote E who search ty view :
  get_resources_impl E who search ty view
  = (_ ← authorised who view;
     config ← lift_list (le_remotes E);
     v ← view_of E search view;
     mret (filter_map (λ '(name, rty), list_remote E who v (search_of search) ty name rty) config)).
Proof.
  unfold get_resources_impl, view_of. fold (authorised who view) (search_of search).
  destruct (authorised who view); [| done]. simpl. destruct (lift_list (le_remotes E)) as [config|]; [| done]. simpl.
  destruct (lift_list (get_optional_view _ view)) as [v|]; [| done]. simpl.
  destruct (lift_list (get_optional_view _ _)) as [v'|]; [| done]. simpl. f_equal.
  set (w := match v with Some v => Some v | None => v' end).
  transitivity (filter_map (λ r, match w with Some v => apply_view v r | None => Some r end)
    (List.filter (listed (search_of search)) (filter_map (λ '(name, rty),
       if considered who w (search_of search) (is_remotes_only (search_of search)) name rty
       then Some (gather E (search_of search) (is_remotes_only (search_of search)) ty name rty) else None) config))).
  { destruct w; [done |]. generalize (List.filter (listed (search_of search))). intros f. rw filter_map_omap.
    induction (f _) as [|x l IH]; simpl; by rw -?IH. }
  apply filter_map_filter. intros [name rty]. unfold list_remote. by destruct (considered _ _ _ _ _ _).
Qed.

Lemma search_of_wf search : search_wf (search_of search) ∧ valued (search_of search).
Proof.
  destruct search as [s|]; simpl.
  - split; [apply from_iter_wf | apply search_from_valued].
  - split; [apply from_iter_wf | intros t Ht; by apply not_elem_of_nil in Ht].
Qed.
End facts.
