(* ===== verification/ResourceProps.v ===== *)
(** * Search, views and the resource listing: theorems *)
From S2P Require Import Prelude RustStr Remotes Search Resources Views ResourceList ResourceListFacts.

#[local] Open Scope string_scope.

(** ** A concrete environment *)
Fixpoint ascii_lower (s : string) : string :=
  match s with
  | EmptyString => EmptyString
  | String c s' =>
      String (if in_range "A" "Z" c then Ascii.ascii_of_N (Ascii.N_of_ascii c + 32) else c) (ascii_lower s')
  end.
Global Instance ex_lower : LowerEnv := {|
  to_lowercase := ascii_lower;
  parse_boolean s := if String.eqb s "true" then Some true
                     else if String.eqb s "false" then Some false else None |}.
Lemma in_range_disjoint c : in_range "a" "z" c = true → in_range "A" "Z" c = false.
Proof. destruct c as [[] [] [] [] [] [] [] []]; done. Qed.
Global Instance ex_lower_laws : LowerLaws.
Proof.
  split; [| by intros []]. intros s. change (to_lowercase s) with (ascii_lower s).
  induction s as [|c s IH]; [done |]. cbn [forall_char].
  intros [Hc Hs]%andb_true_iff. simpl. by rw (in_range_disjoint c Hc) IH.
Qed.
Global Instance ex_rules : RuleEnv := {|
  rule_safe_id s := negb (is_empty s); rule_global_id s := starts_with "remote/" s;
  remote_id_schema s := negb (is_empty s) |}.

Definition ex_guest (remote : string) (vmid : Z) (name : string) : Resource :=
  PveQemu {| g_cpu := f64_zero; g_maxcpu := f64_zero; g_disk := 0; g_maxdisk := 0;
             g_id := "remote/" ++ remote ++ "/guest/" ++ show_int vmid; g_maxmem := 0; g_mem := 0;
             g_name := name; g_node := "n1"; g_pool := ""; g_status := "running"; g_tags := ["web"];
             g_template := false; g_uptime := 0; g_vmid := vmid |}.
Definition ex_view : ViewConfig := {|
  view_id := "all"; include_all := Some true; include := []; exclude := []; layout := "" |}.
Definition ex_env : list_env := {|
  le_views := Ok {[ "all" := ex_view ]};
  le_remotes := Ok [("alpha", Pve); ("beta", Pbs); ("gone", Pve)];
  le_fetch name := if String.eqb name "alpha"
                   then Ok [ex_guest "alpha" 100 "web"; ex_guest "alpha" 101 "db"]
                   else if String.eqb name "beta" then Ok [] else Err "timeout" |}.
(** A caller who may see the remote [beta] and no view *)
Definition ex_caller : caller := {|
  may_view _ := false; may_any := true; may_remote name := String.eqb name "beta" |}.

(** ** Search terms *)

(** Printing a parsed search and parsing it again gives the same search: the same required
    and optional terms in the same order, with their categories, for every input text. *)
Theorem search_display_roundtrip (s : string) :
  search_from (search_display (search_from s)) = search_from s.
Proof.
  unfold search_from at 1. unfold search_display. rw split_ws_words.
  - apply Forall_forall. intros w (t & -> & Ht)%list_elem_of_fmap. by apply (search_from_words s).
  - assert (∀ l : list SearchTerm, (∀ t, t ∈ l → term_from (term_display t) = t) → term_from <$> (term_display <$> l) = l) as Hl.
    { intros l Hl. rw -list_fmap_compose -{2}(list_fmap_id l). by apply list_fmap_ext; intros ? t Ht%list_elem_of_lookup_2; apply Hl. }
    rw Hl; [by intros t Ht; apply (search_from_words s) |]. apply from_iter_terms.
Qed.

(** ** Views *)

(** The text form of a filter rule parses back to the rule: every rule that can be written in
    a configuration survives being read, printed and read again. *)
Theorem filter_rule_roundtrip `{RuleEnv} (s : string) (r : FilterRule) :
  filter_rule_from_str s = Ok r → filter_rule_from_str (filter_rule_display r) = Ok r.
Proof.
  unfold filter_rule_from_str at 1. intros Hp.
  assert (∃ s', parse_filter_rule s' = Ok r) as (s' & Hs').
  { destruct (strip_prefix "exact:" s); eauto. }
  clear Hp. revert Hs'. unfold parse_filter_rule. destruct (split_once _ _) as [[k v]|] eqn:E; [| done].
  repeat match goal with |- (if String.eqb k ?x then _ else _) = _ → _ => destruct (String.eqb k x); [|] end; [| | | | | done].
  - destruct (parse_resource_type v) as [t|]; [| done]. intros [= <-]. by destruct t.
  - destruct (rule_safe_id v) eqn:Hv; [| done]. intros [= <-]. cbn. by rw Hv.
  - destruct (rule_global_id v) eqn:Hv; [| done]. intros [= <-]. cbn. by rw Hv.
  - destruct (rule_safe_id v) eqn:Hv; [| done]. intros [= <-]. cbn. by rw Hv.
  - destruct (rule_safe_id v || remote_id_schema v) eqn:Hv; [| done]. intros [= <-]. cbn. by rw Hv.
Qed.

Lemma filter_rule_roundtrip_witness :
  filter_rule_from_str "resource-id=remote/a/node/b" = Ok (RuleId (Exact "remote/a/node/b")) ∧
  filter_rule_from_str (filter_rule_display (RuleId (Exact "remote/a/node/b"))) = Ok (RuleId (Exact "remote/a/node/b")).
Proof.
  split; [vm_compute; reflexivity |].
  apply (filter_rule_roundtrip "resource-id=remote/a/node/b"). vm_compute. reflexivity.
Defined.

(** The questions a view answers without the resources agree with the decision on each
    resource.  A remote that [can_skip_remote] names has no resource in the view and is not
    explicitly included, and [is_node_included] decides for a node of a PVE remote what
    [resource_matches] decides for the resource built from it. *)
Theorem view_shortcuts_sound (v : ViewConfig) (remote : string) :
  (can_skip_remote v remote = true →
   (∀ r, resource_matches v remote r = false) ∧ is_remote_explicitly_included v remote = false) ∧
  (∀ cr node, cr_node cr = Some node →
   (λ n, resource_matches v remote (PveNode n)) <$> map_pve_node remote cr
   = match cr_ty cr with CrNode => Some (is_node_included v remote node) | _ => None end).
Proof.
  split.
  - intros [Hr He]%can_skip_remote_sound. split; [| done]. intros r. apply Hr.
  - intros cr node Hn. unfold map_pve_node. rw Hn. by destruct (cr_ty cr).
Qed.

(** A view of the resources of the remote [alpha] skips the remote [beta]. *)
Definition ex_view_alpha : ViewConfig := {|
  view_id := "alpha"; include_all := None; include := [RuleRemote (Exact "alpha")]; exclude := [];
  layout := "" |}.

Lemma view_shortcuts_sound_witness :
  can_skip_remote ex_view_alpha "beta" = true ∧
  resource_matches ex_view_alpha "beta" (ex_guest "beta" 100 "web") = false.
Proof.
  split; [vm_compute; reflexivity |].
  apply (proj1 (view_shortcuts_sound ex_view_alpha "beta")). vm_compute. reflexivity.
Defined.

(** ** The listing *)

(** C4: The resource listing is the plain one: with the shortcuts of the code (remotes left out by
    the view, by their type or because the search asks for remotes only) the result, errors and
    order included, is that of asking every remote the caller may see, deciding every search
    term on every resource and applying the view, provided that the optional terms ask for the
    type of the remote all of them or none of them. *)
Theorem get_resources_reference `{LowerLaws} (E : list_env) (who : option caller)
    (search : option string) (ty : option ResourceType) (view : option string) :
  separable (search_of search) = true →
  get_resources_impl E who search ty view
  = (_ ← authorised who view;
     config ← lift_list (le_remotes E);
     v ← view_of E search view;
     mret (filter_map (λ '(name, rty), reference_remote E who v (search_of search) ty name rty) config)).
Proof.
  intros Hsep. rw get_resources_per_remote. destruct (search_of_wf search) as [Hwf Hval].
  destruct (authorised who view); [| done]. destruct (lift_list _) as [config|]; [| done]. simpl.
  destruct (view_of E search view) as [v|]; [| done]. simpl. f_equal.
  induction config as [|[name rty] l IH]; simpl; [done |]. by rw list_remote_reference // IH.
Qed.

Lemma get_resources_reference_witness :
  get_resources_impl ex_env None (Some "+type:qemu web") None None
  = (_ ← authorised None None;
     config ← lift_list (le_remotes ex_env);
     v ← view_of ex_env (Some "+type:qemu web") None;
     mret (filter_map (λ '(name, rty),
             reference_remote ex_env None v (search_of (Some "+type:qemu web")) None name rty) config)).
Proof. apply get_resources_reference. vm_compute. reflexivity. Defined.

(** What a listing may contain for a caller *)
Definition within_view (v : ViewConfig) (l : list RemoteWithResources) : Prop :=
  ∀ r, r ∈ l →
    (∀ res, res ∈ resources r → resource_matches v (remote_name r) res = true) ∧
    (resources r = [] → is_remote_explicitly_included v (remote_name r) = true).
Definition within_remotes (c : caller) (l : list RemoteWithResources) : Prop :=
  ∀ r, r ∈ l → may_remote c (remote_name r) = true.


Section listing.
Context `{LowerEnv}.

Lemma list_remote_view E who v filters ty name rty r :
  list_remote E who (Some v) filters ty name rty = Some r →
  (∀ res, res ∈ resources r → resource_matches v (remote_name r) res = true) ∧
  (resources r = [] → is_remote_explicitly_included v (remote_name r) = true).
Proof.
  unfold list_remote. destruct (considered _ _ _ _ _ _); [| done]. simpl. destruct (listed _ _); [| done].
  unfold apply_view. case_match eqn:Ek; [| done]. intros [= <-]. simpl. split.
  - intros res Hres. apply list_elem_of_In, filter_In in Hres as [_ Hm]. done.
  - intros Hnil. rw Hnil in Ek. simpl in Ek. by apply andb_true_iff in Ek as [_ ?].
Qed.

Lemma list_remote_caller E c filters ty name rty r :
  list_remote E (Some c) None filters ty name rty = Some r → may_remote c (remote_name r) = true.
Proof.
  unfold list_remote, considered. destruct (may_remote c name) eqn:Hc; [| done]. simpl.
  case_match; [| done]. case_match; [| done]. intros [= <-]. unfold gather. by destruct (le_fetch E name).
Qed.

Lemma view_of_param E search id v :
  view_of E search (Some id) = Ok v → ∃ views v', le_views E = Ok views ∧ views !! id = Some v' ∧ v = Some v'.
Proof.
  unfold view_of. simpl. unfold get_view. destruct (le_views E) as [views|]; [| done]. simpl.
  destruct (views !! id) as [v'|] eqn:Ev; [| done]. simpl. destruct (lift_list _); [| done]. intros [= <-]. eauto.
Qed.

Lemma view_of_none E search : Forall (λ t, category t ≠ Some "view") (terms (search_of search)) →
  view_of E search None = Ok None.
Proof. intros Hs. unfold view_of. by rw find_view_spec search_view_none. Qed.
End listing.

(** C31: A listing is confined to what its caller may see.  With a view, the caller holds the
    privilege on that view and every resource listed belongs to it; without one, and without a
    [view:] term in the search, the caller holds the privilege on every remote listed. *)
Theorem listing_authorised `{LowerEnv} (E : list_env) (c : caller) (search : option string)
    (ty : option ResourceType) (view : option string) (l : list RemoteWithResources) :
  get_resources_impl E (Some c) search ty view = Ok l →
  match view with
  | Some id => may_view c id = true ∧
      ∃ views v, le_views E = Ok views ∧ views !! id = Some v ∧ within_view v l
  | None => may_any c = true ∧
      (Forall (λ t, category t ≠ Some "view") (terms (search_of search)) → within_remotes c l)
  end.
Proof.
  rw get_resources_per_remote. unfold authorised, bail_if.
  destruct view as [id|].
  - destruct (may_view c id); [| done]. simpl. destruct (lift_list _) as [config|]; [| done]. simpl.
    destruct (view_of E search (Some id)) as [v|] eqn:Hv; [| done]. intros [= <-]. split; [done |].
    apply view_of_param in Hv as (views & v' & ? & ? & ->). exists views, v'. split_and!; try done.
    intros r ([name rty] & _ & Hr)%elem_of_filter_map. by eapply list_remote_view.
  - destruct (may_any c); [| done]. simpl. destruct (lift_list _) as [config|]; [| done]. simpl.
    destruct (view_of E search None) as [v|] eqn:Hv; [| done]. intros [= <-]. split; [done |]. intros Hs.
    rw view_of_none // in Hv. injection Hv as <-.
    intros r ([name rty] & _ & Hr)%elem_of_filter_map. by eapply list_remote_caller.
Qed.

Lemma listing_authorised_witness :
  match get_resources_impl ex_env (Some ex_caller) (Some "type:remote") None None with
  | Ok l => remote_name <$> l = ["beta"] ∧ within_remotes ex_caller l
  | Err _ => False
  end.
Proof.
  destruct (get_resources_impl ex_env (Some ex_caller) (Some "type:remote") None None) as [l|] eqn:E.
  - split; [vm_compute in E; injection E as <-; reflexivity |].
    apply (listing_authorised ex_env ex_caller (Some "type:remote") None None l E).
    vm_compute. repeat constructor. discriminate.
  - vm_compute in E. discriminate.
Defined.

(** The term [view:all] in a search replaces the checks on the caller: a caller without the
    privilege on the view and without it on the remote gets the resources of the remote. *)
Theorem view_term_bypasses_privileges :
  may_view ex_caller "all" = false ∧ may_remote ex_caller "alpha" = false ∧
  get_resources_impl ex_env (Some ex_caller) None None (Some "all") = Err Denied ∧
  match get_resources_impl ex_env (Some ex_caller) (Some "view:all") None None with
  | Ok (r :: _) => remote_name r = "alpha" ∧ resources r = [ex_guest "alpha" 100 "web"; ex_guest "alpha" 101 "db"]
  | _ => False
  end.
Proof. vm_compute. done. Qed.

(** An optional term on the type of the remote makes every other optional term hold: the
    search for guests named [web] or remotes of type [pbs] also returns the guest [db]. *)
Theorem optional_remote_type_matches_all :
  separable (search_from "web remote-type:pbs") = false ∧
  match get_resources_impl ex_env None (Some "web remote-type:pbs") None None with
  | Ok (r :: _) => remote_name r = "alpha" ∧ rwr_ty r = Pve ∧
      resources r = [ex_guest "alpha" 100 "web"; ex_guest "alpha" 101 "db"]
  | _ => False
  end.
Proof. vm_compute. done. Qed.
