(* ===== verification/Fetcher.v ===== *)
(** * Parallel requests to remotes

    server/src/parallel_fetcher.rs: a task per remote and a task per node of a remote, whose
    number two semaphores bound.  The tasks interleave at their await points: [advance] is one
    such step of the task of a remote (with the node tasks it has spawned) and [fetch_step] one
    step of the whole system.  The requests, [list_nodes] and the function passed by the caller,
    are parameters; a call that panics is [None].  The duration of a call is not modelled. *)
From stdpp Require Import relations.
From S2P Require Import Prelude RustStr Remotes.

#[local] Open Scope nat_scope.

Definition DEFAULT_MAX_CONNECTIONS : nat := 20.
Definition DEFAULT_MAX_CONNECTIONS_PER_REMOTE : nat := 5.

Record NodeResponse (T : Type) := { node_name : string; data : result string T }.
Arguments node_name {_} _.
Arguments data {_} _.
Arguments Build_NodeResponse {_} _ _.

(** [RemoteResponse<MultipleNodesResponse<T>>]; [do_for_all_remotes] returns one node response
    for a remote, which is a list of one here. *)
Record RemoteResponse (T : Type) := {
  rr_name : string;
  rr_type : RemoteType;
  rr_nodes : result string (list (NodeResponse T));
}.
Arguments rr_name {_} _.
Arguments rr_type {_} _.
Arguments rr_nodes {_} _.
Arguments Build_RemoteResponse {_} _ _ _.

(** ** The builder *)
Record ParallelFetcherBuilder := {
  b_max_connections : option nat;
  b_max_connections_per_remote : option nat;
}.
Record ParallelFetcher := { max_connections : nat; max_connections_per_remote : nat }.

Definition builder : ParallelFetcherBuilder :=
  {| b_max_connections := None; b_max_connections_per_remote := None |}.
Definition set_max_connections (limit : nat) (b : ParallelFetcherBuilder) : ParallelFetcherBuilder :=
  {| b_max_connections := Some limit; b_max_connections_per_remote := b_max_connections_per_remote b |}.
Definition set_max_connections_per_remote (limit : nat) (b : ParallelFetcherBuilder)
    : ParallelFetcherBuilder :=
  {| b_max_connections := b_max_connections b; b_max_connections_per_remote := Some limit |}.
Definition build (b : ParallelFetcherBuilder) : ParallelFetcher :=
  {| max_connections := default DEFAULT_MAX_CONNECTIONS (b_max_connections b);
     max_connections_per_remote :=
       default DEFAULT_MAX_CONNECTIONS_PER_REMOTE (b_max_connections_per_remote b) |}.

(** ** The task of a remote *)
Inductive mode := AllNodes | SingleNode.   (* do_for_all_remote_nodes, do_for_all_remotes *)

Inductive phase (T : Type) :=
| Waiting                                  (* for the first permit of the total semaphore *)
| Listing                                  (* the nodes of a PVE remote, with the permit *)
| Nodes (permit : bool)                    (* is a total permit held for the next node? *)
        (todo : list string)               (* nodes that are not spawned yet *)
        (per_remote : nat)                 (* free permits of the semaphore of the remote *)
        (running : list string)            (* spawned tasks; each holds a permit of both *)
        (finished : list (NodeResponse T))
| Calling                                  (* fetch_node in the task itself, with the permit *)
| Returned (r : RemoteResponse T)
| Panicked.
Arguments Waiting {_}.
Arguments Listing {_}.
Arguments Nodes {_} _ _ _ _ _.
Arguments Calling {_}.
Arguments Returned {_} _.
Arguments Panicked {_}.

Inductive action :=
| Acquire          (* the first permit *)
| Listed           (* list_nodes returns *)
| AcquireNode      (* a total permit for the next node *)
| Spawn            (* the permit of the remote, then the task *)
| Finish (k : nat) (* the k-th running node task ends *)
| Return           (* all node tasks joined *)
| Called.          (* the call in the task itself ends *)

Section fetcher.
Context {T : Type} (m : mode) (F : ParallelFetcher).
Context (list_nodes : string → result string (list string)).
Context (call : string → RemoteType → string → option (result string T)).

(** [fetch_node]: the response, unless the function panics *)
Definition fetch_node (remote : string) (ty : RemoteType) (node : string) : option (NodeResponse T) :=
  Build_NodeResponse node <$> call remote ty node.

(** One step of the task of a remote.  [avail] is the number of free total permits. *)
Definition advance (id : string) (ty : RemoteType) (avail : nat) (p : phase T) (a : action)
    : option (nat * phase T) :=
  match a, p with
  | Acquire, Waiting =>
      match avail with
      | O => None
      | S k => Some (k, match m, ty with AllNodes, Pve => Listing | _, _ => Calling end)
      end
  | Listed, Listing =>
      match list_nodes id with
      | Err e => Some (S avail, Returned {| rr_name := id; rr_type := ty; rr_nodes := Err e |})
      | Ok nodes => Some (avail, Nodes true nodes (max_connections_per_remote F) [] [])
      end
  | AcquireNode, Nodes false (n :: todo) per running fin =>
      match avail with O => None | S k => Some (k, Nodes true (n :: todo) per running fin) end
  | Spawn, Nodes true (n :: todo) (S per) running fin =>
      Some (avail, Nodes false todo per (running ++ [n]) fin)
  | Finish k, Nodes permit todo per running fin =>
      match running !! k with
      | None => None
      | Some n =>
          let fin := match fetch_node id ty n with Some r => fin ++ [r] | None => fin end in
          Some (S avail, Nodes permit todo (S per) (delete k running) fin)
      end
  | Return, Nodes permit [] _ [] fin =>
      Some (if permit then S avail else avail,
            Returned {| rr_name := id; rr_type := ty; rr_nodes := Ok fin |})
  | Called, Calling =>
      Some (S avail,
            match fetch_node id ty "localhost" with
            | Some r => Returned {| rr_name := id; rr_type := ty; rr_nodes := Ok [r] |}
            | None => Panicked
            end)
  | _, _ => None
  end.

(** ** The system *)
Record fetch_state := FetchState {
  free : nat;                                        (* total_connections_semaphore *)
  procs : list ((string * RemoteType) * phase T);
}.

Definition start (remotes : list (string * RemoteType)) : fetch_state :=
  FetchState (max_connections F) ((λ r, (r, Waiting)) <$> remotes).

Definition fetch_step (i : nat) (a : action) (st : fetch_state) : option fetch_state :=
  match procs st !! i with
  | None => None
  | Some ((id, ty), p) =>
      match advance id ty (free st) p a with
      | None => None
      | Some (k, p') => Some (FetchState k (<[i := ((id, ty), p')]> (procs st)))
      end
  end.
Definition steps_to (st st' : fetch_state) : Prop := ∃ i a, fetch_step i a st = Some st'.

Definition returned_of (p : phase T) : option (RemoteResponse T) :=
  match p with Returned r => Some r | _ => None end.
Definition returned (st : fetch_state) : list (RemoteResponse T) :=
  filter_map (λ p, returned_of p.2) (procs st).
Definition ended (p : phase T) : bool :=
  match p with Returned _ | Panicked => true | _ => false end.
Definition all_ended (st : fetch_state) : bool := forallb (λ p, ended p.2) (procs st).

(** Requests in flight: [list_nodes] and the function *)
Definition in_flight (p : phase T) : nat :=
  match p with
  | Listing | Calling => 1
  | Nodes _ _ _ running _ => length running
  | _ => 0
  end.
Definition total_in_flight (st : fetch_state) : nat := sum_list_with (λ p, in_flight p.2) (procs st).
End fetcher.
Arguments fetch_state : clear implicits.
Arguments FetchState {_} _ _.
Arguments free {_} _.
Arguments procs {_} _.

(** The responses in the order they are joined, sorted by the name of the remote *)
Definition compare_responses {T} (a b : RemoteResponse T) : comparison :=
  String.compare (rr_name a) (rr_name b).
Definition FetcherResponse {T} (joined : list (RemoteResponse T)) : list (RemoteResponse T) :=
  sort_by compare_responses joined.

Definition get_remote_response {T} (responses : list (RemoteResponse T)) (remote : string)
    : option (RemoteResponse T) :=
  match binary_search_by (λ probe, String.compare (rr_name probe) remote) responses with
  | Ok i => responses !! i
  | Err _ => None
  end.
