(* ===== verification/FetcherProps.v ===== *)
(** * The parallel fetcher: theorems

    Permits, progress, termination and results. *)
From stdpp Require Import relations.
From Stdlib Require Import Sorted.
From S2P Require Import Prelude RustStr Remotes Fetcher.

#[local] Open Scope nat_scope.

Section facts.
Context {T : Type} (m : mode) (F : ParallelFetcher).
Context (list_nodes : string → result string (list string)).
Context (call : string → RemoteType → string → option (result string T)).
Implicit Types (p : phase T) (st : fetch_state T).

Abbreviation advance := (advance m F list_nodes call).
Abbreviation fetch_step := (fetch_step m F list_nodes call).
Abbreviation steps_to := (steps_to m F list_nodes call).
Abbreviation fetch_node := (fetch_node call).

(** ** Permits *)
Definition held p : nat :=
  match p with
  | Listing | Calling => 1
  | Nodes permit _ _ running _ => (if permit then 1 else 0) + length running
  | _ => 0
  end.
Definition total_held st : nat := sum_list_with (λ q, held q.2) (procs st).

(** The semaphore of a remote has a free permit per task that is not running. *)
Definition remote_permits p : Prop :=
  match p with
  | Nodes _ _ per running _ => per + length running = max_connections_per_remote F
  | _ => True
  end.

Lemma length_delete_S {A} (l : list A) k x : l !! k = Some x → S (length (delete k l)) = length l.
Proof. intros Hk. pose proof (length_delete l k (ltac:(eauto) : is_Some (l !! k))). apply lookup_lt_Some in Hk. lia. Qed.

Lemma advance_permits id ty avail p a avail' p' :
  advance id ty avail p a = Some (avail', p') → avail' + held p' = avail + held p.
Proof.
  intros H. destruct a, p; try done; simpl in *; cases; simpl; rw ?length_app /=; try lia.
  all: match goal with Hk : _ !! _ = Some _ |- _ => apply length_delete_S in Hk end; try lia.
Qed.

(** ** Results *)
Definition by_nodes (ty : RemoteType) : bool := match m, ty with AllNodes, Pve => true | _, _ => false end.

(** The response of a remote: the responses of its nodes in some order, those of panicking calls
    left out, or the error of the listing; for a single call the response of that call. *)
Definition expected (id : string) (ty : RemoteType) (r : RemoteResponse T) : Prop :=
  rr_name r = id ∧ rr_type r = ty ∧
  if by_nodes ty
  then match list_nodes id with
       | Err e => rr_nodes r = Err e
       | Ok nodes => ∃ l, rr_nodes r = Ok l ∧ l ≡ₚ filter_map (fetch_node id ty) nodes
       end
  else ∃ x, fetch_node id ty "localhost" = Some x ∧ rr_nodes r = Ok [x].

Definition progress_ok (id : string) (ty : RemoteType) p : Prop :=
  match p with
  | Waiting => True
  | Listing => by_nodes ty = true
  | Nodes _ todo per running fin =>
      by_nodes ty = true ∧ per + length running = max_connections_per_remote F ∧
      ∃ nodes dn, list_nodes id = Ok nodes ∧ dn ++ running ++ todo ≡ₚ nodes
                  ∧ fin = filter_map (fetch_node id ty) dn
  | Calling => by_nodes ty = false
  | Returned r => expected id ty r
  | Panicked => by_nodes ty = false ∧ call id ty "localhost" = None
  end.

Lemma delete_perm {A} (l : list A) k x : l !! k = Some x → l ≡ₚ x :: delete k l.
Proof. apply delete_Permutation. Qed.

Lemma advance_finish id ty avail permit todo per running fin k avail' p' :
  progress_ok id ty (Nodes permit todo per running fin) →
  advance id ty avail (Nodes permit todo per running fin) (Finish k) = Some (avail', p') →
  progress_ok id ty p'.
Proof.
  intros (Hm & Hper & nodes & dn & Hn & Hperm & ->). cbn. destruct (running !! k) as [n|] eqn:Hk; [| done].
  intros [= <- <-]. split; [done |]. split; [pose proof (length_delete_S _ _ _ Hk); lia |].
  exists nodes, (dn ++ [n]). split_and!; [done | |].
  - transitivity (dn ++ (n :: delete k running) ++ todo); [by rw -app_assoc |].
    by rw -(delete_perm _ _ _ Hk).
  - rw filter_map_app. simpl. destruct (Fetcher.fetch_node call id ty n); [done |]. by rw app_nil_r.
Qed.

Lemma advance_progress id ty avail p a avail' p' :
  progress_ok id ty p → advance id ty avail p a = Some (avail', p') → progress_ok id ty p'.
Proof.
  intros Hp Ha. destruct a as [| | | |k| |]; destruct p as [| |permit todo per running fin| | |];
    try done; [| | | | by eapply advance_finish | |].
  - simpl in Ha. destruct avail; [done |]. injection Ha as <- <-. unfold progress_ok, by_nodes.
    by destruct m, ty.
  - simpl in *. destruct (list_nodes id) as [nodes|e] eqn:E; injection Ha as <- <-.
    + split; [done |]. split; [simpl; lia |]. exists nodes, []. done.
    + unfold progress_ok, expected. by rw Hp E.
  - simpl in Ha. destruct permit, todo as [|n todo], avail; try done. injection Ha as <- <-. done.
  - simpl in Ha. destruct permit, todo as [|n todo], per as [|per]; try done. injection Ha as <- <-.
    destruct Hp as (Hm & Hper & nodes & dn & Hn & Hperm & ->). split; [done |].
    split; [rw length_app; simpl; lia |]. exists nodes, dn. split_and!; try done.
    by rw -Hperm -(app_assoc running).
  - simpl in Ha. destruct todo, running; try done. injection Ha as <- <-.
    destruct Hp as (Hm & Hper & nodes & dn & Hn & Hperm & ->). unfold progress_ok, expected. rw Hm Hn.
    split_and!; [done.. |]. eexists. split; [done |]. apply filter_map_perm. by rw -Hperm !app_nil_r.
  - simpl in *. injection Ha as <- <-. destruct (Fetcher.fetch_node call id ty "localhost") as [r|] eqn:E; simpl.
    + unfold expected. rw Hp. eauto.
    + split; [done |]. unfold Fetcher.fetch_node in E. by apply fmap_None in E.
Qed.

(** ** The invariant of the system *)
Record fetch_inv (remotes : list (string * RemoteType)) st : Prop := {
  inv_remotes : fst <$> procs st = remotes;
  inv_permits : free st + total_held st = max_connections F;
  inv_progress id ty p : ((id, ty), p) ∈ procs st → progress_ok id ty p;
}.

Lemma start_inv remotes : fetch_inv remotes (start F remotes).
Proof.
  split.
  - unfold start. simpl. rw -list_fmap_compose. apply list_fmap_id.
  - unfold total_held, start. simpl. rw sum_zero; [| lia].
    by intros x (r & -> & _)%list_elem_of_fmap.
  - intros id ty p (r & [= <- ->] & _)%list_elem_of_fmap. done.
Qed.

Lemma step_inv remotes st st' : fetch_inv remotes st → steps_to st st' → fetch_inv remotes st'.
Proof.
  intros [Hr Hp Hi] (i & a & Hs). unfold Fetcher.fetch_step in Hs.
  destruct (procs st !! i) as [[[id ty] p]|] eqn:Hl; [| done].
  destruct (advance id ty (free st) p a) as [[k p']|] eqn:Ha; [| done]. injection Hs as <-. split; simpl.
  - rw list_fmap_insert Hr. apply list_insert_id. by rw -Hr list_lookup_fmap Hl.
  - apply advance_permits in Ha. unfold total_held in *. simpl.
    pose proof (sum_insert (λ q, held q.2) _ _ _ (id, ty, p') Hl). simpl in *. lia.
  - intros id' ty' q [j Hj]%list_elem_of_lookup. destruct (decide (i = j)) as [<- | Hne].
    + rw list_lookup_insert_eq in Hj; [by eapply lookup_lt_Some |]. injection Hj as -> -> ->.
      eapply advance_progress; [| exact Ha]. apply Hi. by eapply list_elem_of_lookup_2.
    + rw list_lookup_insert_ne // in Hj. apply Hi. by eapply list_elem_of_lookup_2.
Qed.

Lemma reachable_inv remotes st : rtc steps_to (start F remotes) st → fetch_inv remotes st.
Proof.
  intros Hst. assert (fetch_inv remotes (start F remotes)) as H0 by apply start_inv. revert H0.
  induction Hst as [|x y z Hxy Hyz IH]; [done |]. intros Hx. by eapply IH, step_inv.
Qed.

Lemma in_flight_held p : in_flight p ≤ held p.
Proof. destruct p as [| |[]| | |]; simpl; lia. Qed.

Lemma in_flight_bound remotes st : fetch_inv remotes st → total_in_flight st ≤ max_connections F.
Proof.
  intros [_ Hp _]. unfold total_in_flight, total_held in *.
  pose proof (sum_le (λ q : string * RemoteType * phase T, in_flight q.2) (λ q, held q.2) (procs st) (λ q, in_flight_held q.2)).
  simpl in *. lia.
Qed.

(** ** Progress: a system whose tasks have not all ended can step. *)
Definition can_advance (avail : nat) (q : string * RemoteType * phase T) : Prop :=
  ∃ a r, advance q.1.1 q.1.2 avail q.2 a = Some r.

(** A task that holds a permit can step on its own. *)
Lemma holder_advances avail id ty p : max_connections_per_remote F ≠ 0 →
  progress_ok id ty p → held p ≠ 0 → can_advance avail ((id, ty), p).
Proof.
  intros Hmax Hok Hheld. destruct p as [| |permit todo per running fin| | |]; try done.
  - exists Listed. simpl. destruct (list_nodes id); eauto.
  - destruct running as [|n running].
    + destruct permit; [| done]. destruct todo as [|n todo].
      * exists Return. simpl. eauto.
      * destruct Hok as (_ & Hper & _). simpl in Hper. destruct per as [|per]; [lia |].
        exists Spawn. simpl. eauto.
    + exists (Finish 0). simpl. eauto.
  - exists Called. simpl. eauto.
Qed.

(** With a free permit every task that has not ended can step. *)
Lemma free_advances avail id ty p : max_connections_per_remote F ≠ 0 →
  progress_ok id ty p → ended p = false → can_advance (S avail) ((id, ty), p).
Proof.
  intros Hmax Hok Hend. destruct (decide (held p = 0)) as [Hz | Hnz]; [| by apply holder_advances].
  destruct p as [| |permit todo per running fin| | |]; try done.
  - exists Acquire. simpl. eauto.
  - destruct running; [| by destruct permit]. destruct permit; [done |]. destruct todo as [|n todo].
    + exists Return. simpl. eauto.
    + exists AcquireNode. simpl. eauto.
Qed.

Lemma advance_step st i id ty p : procs st !! i = Some ((id, ty), p) →
  can_advance (free st) ((id, ty), p) → ∃ st', steps_to st st'.
Proof.
  intros Hi (a & [k p'] & Ha). eexists _, i, a. unfold Fetcher.fetch_step. rw Hi. simpl in Ha. by rw Ha.
Qed.

Lemma not_ended st : all_ended st = false → ∃ i id ty p, procs st !! i = Some ((id, ty), p) ∧ ended p = false.
Proof.
  unfold all_ended. intros Hf. destruct (existsb (λ q, negb (ended q.2)) (procs st)) eqn:E.
  - apply existsb_exists in E as ([[id ty] p] & Hin & He%negb_true_iff).
    apply list_elem_of_In, list_elem_of_lookup in Hin as [i Hi]. by exists i, id, ty, p.
  - assert (forallb (λ q, ended q.2) (procs st) = true); [| congruence]. apply forallb_forall. intros q Hq.
    destruct (ended q.2) eqn:Eq; [done |]. assert (existsb (λ q, negb (ended q.2)) (procs st) = true); [| congruence].
    apply existsb_exists. exists q. by rw Eq.
Qed.

Lemma fetch_progress remotes st : max_connections F ≠ 0 → max_connections_per_remote F ≠ 0 →
  fetch_inv remotes st → all_ended st = false → ∃ st', steps_to st st'.
Proof.
  intros H1 H2 [_ Hp Hi] (i & id & ty & p & Hl & He)%not_ended.
  destruct (free st) as [|k] eqn:Ef.
  - (* all permits are held, so some task holds one *)
    destruct (decide (Exists (λ q, held q.2 ≠ 0) (procs st))) as [Hex | Hno].
    + apply Exists_exists in Hex as ([[id' ty'] q] & Hin & Hh).
      pose proof (Hi _ _ _ Hin) as Hok. apply list_elem_of_lookup in Hin as [j Hj].
      eapply advance_step; [exact Hj |]. by apply holder_advances.
    + exfalso. unfold total_held in Hp. rw sum_zero in Hp; [| lia]. intros q Hq.
      apply not_Exists_Forall in Hno; [| apply _]. rw Forall_forall in Hno. specialize (Hno q Hq).
      simpl in Hno. lia.
  - eapply advance_step; [exact Hl |]. rw Ef. apply free_advances; [done | | done].
    apply Hi. by eapply list_elem_of_lookup_2.
Qed.

(** ** Termination: every step lowers the number of steps left *)
Definition steps_left (id : string) p : nat :=
  let listing := match list_nodes id with Ok nodes => 3 * length nodes + 2 | Err _ => 1 end in
  match p with
  | Waiting => 2 + listing
  | Listing => listing
  | Nodes permit todo _ running _ => 3 * length todo + length running + (if permit then 0 else 1) + 1
  | Calling => 1
  | Returned _ | Panicked => 0
  end.
Definition total_left st : nat := sum_list_with (λ q, steps_left q.1.1 q.2) (procs st).

Lemma advance_left id ty avail p a r : advance id ty avail p a = Some r →
  steps_left id r.2 < steps_left id p.
Proof.
  intros H. destruct a, p; try done; simpl in *; cases; simpl; rw ?length_app /=; try lia.
  all: repeat match goal with Hk : list_nodes _ = _ |- _ => rw Hk end; simpl; try lia.
  all: match goal with Hk : _ !! _ = Some _ |- _ => apply length_delete_S in Hk end; lia.
Qed.

Lemma step_left st st' : steps_to st st' → total_left st' < total_left st.
Proof.
  intros (i & a & Hs). unfold Fetcher.fetch_step in Hs.
  destruct (procs st !! i) as [[[id ty] p]|] eqn:Hl; [| done].
  destruct (advance id ty (free st) p a) as [[k p']|] eqn:Ha; [| done]. injection Hs as <-.
  apply advance_left in Ha. unfold total_left. simpl in *.
  pose proof (sum_insert (λ q, steps_left q.1.1 q.2) _ _ _ (id, ty, p') Hl). simpl in *. lia.
Qed.

Lemma nsteps_left n st st' : nsteps steps_to n st st' → n + total_left st' ≤ total_left st.
Proof.
  induction 1 as [|n x y z Hxy Hyz IH]; [done |]. apply step_left in Hxy. lia.
Qed.

(** Every run can be continued to the end. *)
Lemma fetch_finishes remotes st : max_connections F ≠ 0 → max_connections_per_remote F ≠ 0 →
  fetch_inv remotes st → ∃ st', rtc steps_to st st' ∧ all_ended st' = true.
Proof.
  intros H1 H2. remember (total_left st) as n eqn:Hn. revert st Hn.
  induction n as [n IH] using lt_wf_ind. intros st -> Hi.
  destruct (all_ended st) eqn:He; [by exists st |].
  destruct (fetch_progress remotes st H1 H2 Hi He) as [st1 Hs].
  destruct (IH _ (step_left _ _ Hs) st1) as (st' & Hr & He'); [done | by eapply step_inv |].
  exists st'. split; [by eapply rtc_l | done].
Qed.
End facts.

(** ** Responses by name *)
Section responses.
Context {T : Type}.
Implicit Types (l : list (RemoteResponse T)).

Global Instance compare_responses_order : CmpOrder (@compare_responses T).
Proof. unfold compare_responses. apply (cmp_pullback rr_name), _. Qed.

Lemma responses_sorted l i j x y : NoDup (rr_name <$> l) → i < j →
  FetcherResponse l !! i = Some x → FetcherResponse l !! j = Some y → cmp_lt compare_responses x y.
Proof.
  intros Hnd Hij. unfold FetcherResponse.
  pose proof (sort_by_sorted compare_responses l) as Hs. pose proof (sort_by_perm compare_responses l) as Hp.
  revert Hs Hp. generalize (sort_by compare_responses l). intros l' Hs Hp Hx Hy.
  rw -Hp in Hnd. pose proof (StronglySorted_lookup _ _ i j x y Hs Hij Hx Hy) as Hle.
  unfold cmp_le, cmp_lt, compare_responses in *.
  destruct (String.compare (rr_name x) (rr_name y)) eqn:E; [| done | done].
  apply string_compare_eq in E. exfalso.
  enough (i = j) by lia. eapply (NoDup_lookup _ _ _ (rr_name x) Hnd); rw list_lookup_fmap.
  - by rw Hx.
  - rw Hy. simpl. by rw E.
Qed.

Lemma get_remote_response_name l id r : get_remote_response l id = Some r → rr_name r = id.
Proof.
  unfold get_remote_response. destruct (binary_search_by _ _) as [i|] eqn:Hi; [| done].
  apply binary_search_sound in Hi as (x & Hx & Ex). rw Hx. intros [= ->]. by apply string_compare_eq.
Qed.

Lemma get_remote_response_spec l r : NoDup (rr_name <$> l) →
  get_remote_response (FetcherResponse l) (rr_name r) = Some r ↔ r ∈ l.
Proof.
  intros Hnd. pose proof (sort_by_perm compare_responses l) as Hp. unfold get_remote_response. split.
  - destruct (binary_search_by _ _) as [i|]; [| done]. intros Hi. rw -Hp. by eapply list_elem_of_lookup_2.
  - rw -{1}Hp. intros [i Hi]%list_elem_of_lookup.
    rw (binary_search_unique _ _ i r); [.. | done].
    + intros k m x y Hkm Hx Hy Hgt. apply cmp_lt_gt in Hgt; [| apply _]. apply cmp_lt_gt; [apply _ |].
      apply (cmp_lt_trans String.compare _ (rr_name x)); [done |]. by eapply (responses_sorted l).
    + done.
    + apply (cmp_refl String.compare).
    + intros j y Hj Hy. by eapply (responses_sorted l).
    + intros j y Hj Hy. apply cmp_lt_gt; [apply _ |]. by eapply (responses_sorted l).
Qed.
End responses.

Lemma returned_elem {T} (st : fetch_state T) r :
  r ∈ returned st ↔ ∃ id ty, ((id, ty), Returned r) ∈ procs st.
Proof.
  unfold returned. split.
  - induction (procs st) as [|[[id ty] p] l IH]; simpl; [by intros ?%not_elem_of_nil |].
    destruct p; simpl; try (intros (id' & ty' & ?)%IH; exists id', ty'; by right).
    intros [-> | (id' & ty' & ?)%IH]%elem_of_cons; [exists id, ty; by left | exists id', ty'; by right].
  - intros (id & ty & Hin). induction (procs st) as [|q l IH]; [by apply not_elem_of_nil in Hin |].
    apply elem_of_cons in Hin as [<- | Hin]; simpl; [by left |].
    destruct (returned_of q.2); [right; by apply IH | by apply IH].
Qed.

Section theorems.
Context {T : Type} (m : mode) (F : ParallelFetcher).
Context (list_nodes : string → result string (list string)).
Context (call : string → RemoteType → string → option (result string T)).

(** Every name the responses carry is that of a remote, once. *)
Lemma returned_NoDup remotes (st : fetch_state T) :
  NoDup (fst <$> remotes) → fetch_inv m F list_nodes call remotes st → NoDup (rr_name <$> returned st).
Proof.
  intros Hnd [<- _ Hp]. unfold returned. revert Hnd Hp. clear. rw -list_fmap_compose.
  induction (procs st) as [|[[id ty] p] l IH]; intros Hnd Hp; [constructor |].
  cbn in Hnd. apply NoDup_cons in Hnd as [Hid Hnd].
  assert (NoDup (rr_name <$> filter_map (λ q, returned_of q.2) l)) as Hl.
  { apply IH; [done |]. intros id' ty' q Hq. apply Hp. by right. }
  destruct p as [| | | |r|]; try done. cbn. constructor; [| done].
  destruct (Hp id ty (Returned r)) as [-> _]; [left |]. intros (r' & Er & Hin)%list_elem_of_fmap.
  apply Hid. apply list_elem_of_fmap.
  assert (∃ id' ty', ((id', ty'), Returned r') ∈ l) as (id' & ty' & Hr').
  { apply (returned_elem (FetchState 0 l)). done. }
  exists ((id', ty'), Returned r'). split; [| done]. simpl. rw Er.
  destruct (Hp id' ty' (Returned r')) as [-> _]; [by right | done].
Qed.

(** What was joined is what the remotes answered, and no remote is missing unless its call panicked. *)
Lemma joined_expected remotes (st : fetch_state T) joined r :
  fetch_inv m F list_nodes call remotes st → joined ≡ₚ returned st → r ∈ joined →
  ∃ id ty, (id, ty) ∈ remotes ∧ expected m list_nodes call id ty r.
Proof.
  intros Hinv Hj Hr. rw Hj in Hr. apply returned_elem in Hr as (id & ty & Hr). exists id, ty.
  split; [| exact (inv_progress _ _ _ _ _ _ Hinv _ _ _ Hr)].
  rw -(inv_remotes _ _ _ _ _ _ Hinv). apply list_elem_of_fmap. by exists ((id, ty), Returned r).
Qed.

Lemma joined_complete remotes (st : fetch_state T) joined id ty :
  fetch_inv m F list_nodes call remotes st → all_ended st = true → joined ≡ₚ returned st →
  (id, ty) ∈ remotes →
  (∃ r, r ∈ joined ∧ expected m list_nodes call id ty r)
  ∨ (by_nodes m ty = false ∧ call id ty "localhost" = None).
Proof.
  intros Hinv Hend Hj Hin. rw -(inv_remotes _ _ _ _ _ _ Hinv) in Hin.
  apply list_elem_of_fmap in Hin as ([q p] & Eq & Hp). simpl in Eq. subst q.
  pose proof (inv_progress _ _ _ _ _ _ Hinv id ty p Hp) as Hok.
  assert (ended p = true) as Hpe.
  { by apply (proj1 (forallb_forall _ _) Hend (id, ty, p)), list_elem_of_In. }
  destruct p as [| | | |r|]; try done; [left | by right].
  exists r. split; [| exact Hok]. rw Hj. apply returned_elem. eauto.
Qed.

(** Looking up a remote in the responses of a run that has ended *)
Lemma response_expected remotes (st : fetch_state T) joined id ty :
  NoDup (fst <$> remotes) → fetch_inv m F list_nodes call remotes st → all_ended st = true →
  joined ≡ₚ returned st → (id, ty) ∈ remotes →
  match get_remote_response (FetcherResponse joined) id with
  | Some r => expected m list_nodes call id ty r
  | None => by_nodes m ty = false ∧ call id ty "localhost" = None
  end.
Proof.
  intros Hnd Hinv Hend Hj Hin.
  assert (NoDup (rr_name <$> joined)) as Hndj.
  { rw Hj. by eapply returned_NoDup. }
  destruct (get_remote_response (FetcherResponse joined) id) as [r|] eqn:Er.
  + assert (rr_name r = id) as En by by apply get_remote_response_name in Er.
    rw -En in Er. apply get_remote_response_spec in Er; [| done].
    destruct (joined_expected _ _ _ _ Hinv Hj Er) as (id' & ty' & Hin' & Hx).
    assert (id' = id) as -> by (destruct Hx; congruence).
    assert (((id, ty') : string * RemoteType) = (id, ty)) as [= ->] by by eapply (NoDup_key fst).
    done.
  + destruct (joined_complete _ _ _ _ _ Hinv Hend Hj Hin) as [(r & Hr & [En _])|]; [| done].
    apply get_remote_response_spec in Hr; [| done]. by rw En Er in Hr.
Qed.

(** C35: Whatever the interleaving of the tasks, no more than [max_connections] requests are in
    flight at once, and no more than [max_connections_per_remote] node requests to one remote
    (one where a remote is asked by a single request). *)
Theorem fetcher_bounds (remotes : list (string * RemoteType)) (st : fetch_state T) :
  rtc (steps_to m F list_nodes call) (start F remotes) st →
  total_in_flight st ≤ max_connections F ∧
  (∀ id ty p, ((id, ty), p) ∈ procs st → in_flight p ≤ max 1 (max_connections_per_remote F)).
Proof.
  intros Hinv%reachable_inv. split; [by eapply in_flight_bound |]. intros id ty p Hin.
  pose proof (inv_progress _ _ _ _ _ _ Hinv id ty p Hin) as Hp.
  destruct p; simpl in *; lia.
Qed.

(** C5: The fetcher completes.  If both limits are positive, no reachable state is stuck before all
    tasks have ended, every run is finite (at most [total_left] steps), and at the end, in
    whatever order the tasks were joined, looking up a remote by its name gives the expected
    response: the error of listing its nodes, or the responses of exactly its nodes; only a
    remote whose single call panicked has none. *)
Theorem fetcher_completes (remotes : list (string * RemoteType)) (st : fetch_state T) :
  max_connections F ≠ 0 → max_connections_per_remote F ≠ 0 → NoDup (fst <$> remotes) →
  rtc (steps_to m F list_nodes call) (start F remotes) st →
  (all_ended st = false → ∃ st', steps_to m F list_nodes call st st') ∧
  (∀ n st', nsteps (steps_to m F list_nodes call) n st st' → n ≤ total_left list_nodes st) ∧
  (∃ st', rtc (steps_to m F list_nodes call) st st' ∧ all_ended st' = true) ∧
  (all_ended st = true → ∀ joined, joined ≡ₚ returned st → ∀ id ty, (id, ty) ∈ remotes →
     match get_remote_response (FetcherResponse joined) id with
     | Some r => expected m list_nodes call id ty r
     | None => by_nodes m ty = false ∧ call id ty "localhost" = None
     end).
Proof.
  intros H1 H2 Hnd Hinv%reachable_inv. split_and!.
  - by apply (fetch_progress _ _ _ _ remotes).
  - intros n st' Hn%nsteps_left. lia.
  - by apply (fetch_finishes _ _ _ _ remotes).
  - intros Hend joined Hj id ty Hin. by eapply response_expected.
Qed.
End theorems.

(** ** A concrete run *)
Fixpoint run_actions {T} m F list_nodes (call : string → RemoteType → string → option (result string T))
    (l : list (nat * action)) (st : fetch_state T) : option (fetch_state T) :=
  match l with
  | [] => Some st
  | (i, a) :: l' => st ← fetch_step m F list_nodes call i a st; run_actions m F list_nodes call l' st
  end.
Lemma run_actions_rtc {T} m F list_nodes (call : string → RemoteType → string → option (result string T)) l st st' :
  run_actions m F list_nodes call l st = Some st' → rtc (steps_to m F list_nodes call) st st'.
Proof.
  revert st. induction l as [|[i a] l IH]; intros st; simpl; [by intros [= ->] |].
  intros (st1 & Hs & Hr)%bind_Some. eapply rtc_l; [by exists i, a | by apply IH].
Qed.

Definition ex_fetcher : ParallelFetcher := build (set_max_connections_per_remote 1 (set_max_connections 2 builder)).
Definition ex_nodes (remote : string) : result string (list string) :=
  if String.eqb remote "a" then Ok ["n1"; "n2"] else Err "no route to host".
Definition ex_call (remote : string) (ty : RemoteType) (node : string) : option (result string nat) :=
  if String.eqb node "n2" then Some (Err "timeout") else Some (Ok 42).
Definition ex_targets : list (string * RemoteType) := [("a", Pve); ("b", Pbs); ("c", Pve)].

(** The first node of [a] is asked while [b] answers; then the second one, and [c] is asked last. *)
Definition ex_actions : list (nat * action) :=
  [(0, Acquire); (0, Listed); (1, Acquire); (0, Spawn); (1, Called); (0, AcquireNode); (0, Finish 0);
   (0, Spawn); (2, Acquire); (0, Finish 0); (0, Return); (2, Listed)].
Definition ex_final : fetch_state nat :=
  default (start ex_fetcher ex_targets)
    (run_actions AllNodes ex_fetcher ex_nodes ex_call ex_actions (start ex_fetcher ex_targets)).
Lemma ex_final_reachable : rtc (steps_to AllNodes ex_fetcher ex_nodes ex_call) (start ex_fetcher ex_targets) ex_final.
Proof. apply (run_actions_rtc _ _ _ _ ex_actions). vm_compute. reflexivity. Qed.

Lemma fetcher_bounds_witness :
  total_in_flight ex_final ≤ max_connections ex_fetcher ∧
  (∀ id ty p, ((id, ty), p) ∈ procs ex_final → in_flight p ≤ max 1 (max_connections_per_remote ex_fetcher)).
Proof. apply (fetcher_bounds AllNodes ex_fetcher ex_nodes ex_call ex_targets). apply ex_final_reachable. Defined.

Lemma fetcher_completes_witness :
  (∀ joined, joined ≡ₚ returned ex_final → ∀ id ty, (id, ty) ∈ ex_targets →
     match get_remote_response (FetcherResponse joined) id with
     | Some r => expected AllNodes ex_nodes ex_call id ty r
     | None => by_nodes AllNodes ty = false ∧ ex_call id ty "localhost" = None
     end) ∧ rr_name <$> FetcherResponse (returned ex_final) = ["a"; "b"; "c"].
Proof.
  split; [| vm_compute; reflexivity].
  apply (fetcher_completes AllNodes ex_fetcher ex_nodes ex_call ex_targets ex_final).
  - vm_compute. discriminate.
  - vm_compute. discriminate.
  - apply (bool_decide_unpack _). vm_compute. exact I.
  - apply ex_final_reachable.
  - vm_compute. reflexivity.
Defined.
