(* ===== verification/TaskRefresh.v ===== *)
(** * Refreshing the task cache

    server/src/remote_tasks/refresh_task.rs with the limits of server/src/remote_tasks/mod.rs:
    a timer tick rotates the archive, applies the journal, polls the tracked tasks, fetches the
    task lists of remotes with the parallel fetcher and updates the cache.
    [refresh_env] is what a tick sees of the outside: clocks, the configured remotes, the answers
    of the remotes, the outcome of the fetcher, and what other writers of the cache do while the
    tick waits for the remotes ([meanwhile]). *)
From S2P Require Import Prelude RustStr Remotes Disk TaskArchive TaskCache Fetcher.

#[local] Open Scope Z_scope.

(** ** Constants; a [Duration] and an [Instant] are in nanoseconds *)
Definition from_secs (s : Z) : Z := s * 1000000000.
Definition TASK_FETCH_INTERVAL : Z := from_secs 600.
Definition POLL_ACTIVE_INTERVAL : Z := from_secs 30.
Definition CHECK_ROTATE_INTERVAL : Z := from_secs 3600.
Definition APPLY_JOURNAL_INTERVAL : Z := from_secs 3600.
Definition CONNECTIONS_PER_PVE_REMOTE : nat := 5.
Definition MAX_CONNECTIONS : nat := 20.
Definition MAX_TASKS_TO_FETCH : Z := 5000.
Definition JOURNAL_MAX_SIZE : Z := 5 * 1024 * 1024.
Definition ROTATE_AFTER : Z := 24 * 3600.
Definition KEEP_OLD_FILES : Z := 7.
Definition NUMBER_OF_UNCOMPRESSED_FILES : Z := 2.

(** [get_cache] *)
Definition the_cache : TaskCache := {|
  max_files := KEEP_OLD_FILES; uncompressed_files := NUMBER_OF_UNCOMPRESSED_FILES;
  rotate_after := ROTATE_AFTER; journal_max_size := JOURNAL_MAX_SIZE |}.

(** ** [TaskState] *)
Record TaskState := {
  last_rotate_check : Z;
  last_fetch : Z;
  last_journal_apply : Z;
  last_active_poll : Z;
}.
Definition reset_rotate_check (now : Z) (s : TaskState) : TaskState :=
  {| last_rotate_check := now; last_fetch := last_fetch s;
     last_journal_apply := last_journal_apply s; last_active_poll := last_active_poll s |}.
Definition reset_fetch (now : Z) (s : TaskState) : TaskState :=
  {| last_rotate_check := last_rotate_check s; last_fetch := now;
     last_journal_apply := last_journal_apply s; last_active_poll := last_active_poll s |}.
Definition reset_journal_apply (now : Z) (s : TaskState) : TaskState :=
  {| last_rotate_check := last_rotate_check s; last_fetch := last_fetch s;
     last_journal_apply := now; last_active_poll := last_active_poll s |}.
Definition reset_active_poll (now : Z) (s : TaskState) : TaskState :=
  {| last_rotate_check := last_rotate_check s; last_fetch := last_fetch s;
     last_journal_apply := last_journal_apply s; last_active_poll := now |}.

(** [Instant::duration_since] saturates at zero. *)
Definition duration_since (now earlier : Z) : Z := Z.max 0 (now - earlier).
Definition is_due_for_rotate_check (now : Z) (s : TaskState) : bool :=
  CHECK_ROTATE_INTERVAL <? duration_since now (last_rotate_check s).
Definition is_due_for_fetch (now : Z) (s : TaskState) : bool :=
  TASK_FETCH_INTERVAL <? duration_since now (last_fetch s).
Definition is_due_for_journal_apply (now : Z) (s : TaskState) : bool :=
  APPLY_JOURNAL_INTERVAL <? duration_since now (last_journal_apply s).
Definition is_due_for_active_poll (now : Z) (s : TaskState) : bool :=
  POLL_ACTIVE_INTERVAL <? duration_since now (last_active_poll s).

(** [Default for TaskState] *)
Definition default_task_state (now : Z) : TaskState := {|
  last_rotate_check := now - CHECK_ROTATE_INTERVAL;
  last_fetch := now - TASK_FETCH_INTERVAL;
  last_journal_apply := now - APPLY_JOURNAL_INTERVAL;
  last_active_poll := now - POLL_ACTIVE_INTERVAL |}.

(** [rem_euclid] of a positive interval *)
Definition align_timestamp (now interval : Z) : Z := now - now `mod` interval.

(** ** The outside *)

(** [ListTasksResponse] of pve_api_types and [TaskListItem] of pbs_api_types *)
Record ListedTask := {
  lt_upid : string; lt_starttime : Z; lt_endtime : option Z; lt_status : option string;
}.

Abbreviation node_tasks := (list TaskCacheItem).
Record refresh_env := {
  instant : nat → Z;                         (* the k-th call of Instant::now() *)
  rotate_epoch : Z;                          (* epoch_i64() when the rotation is checked *)
  fetch_epoch : string → string → Z;         (* epoch_i64() when a node is asked *)
  remotes_config : result error (list (string * RemoteType));
  (* the tasks of a node since a time, at most [limit] *)
  get_task_list : string → RemoteType → string → Z → Z → result string (list ListedTask);
  (* the exit status in the status of a task; [None] is a panic *)
  get_task_status : RemoteUpid → option (result string (option string));
  (* what [do_for_all_remote_nodes] returns for these remotes and this function *)
  run_fetcher : list (string * RemoteType) →
    (string → RemoteType → string → option (result string node_tasks)) →
    list (RemoteResponse node_tasks);
  meanwhile : IO ();
}.

Inductive PollResult := Running | Finished | RequestError | RemoteGone.
Global Instance PollResult_eq_dec : EqDecision PollResult.
Proof. solve_decision. Defined.

(** [map_pve_task] and [map_pbs_task] *)
Definition map_task (ty : RemoteType) (remote : string) (t : ListedTask) : TaskCacheItem := {|
  upid := new_upid remote ty (lt_upid t);
  starttime := lt_starttime t; endtime := lt_endtime t; status := lt_status t |}.

(** The limits [fetch_remotes] sets *)
Definition task_fetcher : ParallelFetcher :=
  build (set_max_connections_per_remote CONNECTIONS_PER_PVE_REMOTE
           (set_max_connections MAX_CONNECTIONS builder)).

Section refresh.
Context (E : refresh_env).

(** The time since which the tasks of a node are asked for; the subtraction cannot overflow for
    the time of day. *)
Definition fetch_since (context : State) (remote node : string) : Z :=
  match cutoff_timestamp context remote node with
  | Some c => c
  | None => fetch_epoch E remote node - KEEP_OLD_FILES * ROTATE_AFTER
  end.
Definition fetch_tasks_from_single_node (context : State) (remote : string) (ty : RemoteType)
    (node : string) : result string node_tasks :=
  match get_task_list E remote ty node (fetch_since context remote node) MAX_TASKS_TO_FETCH with
  | Ok l => Ok (map_task ty remote <$> l)
  | Err e => Err e
  end.

(** The loops over the responses in [fetch_remotes] *)
Definition collect_node (remote : string) (acc : node_tasks * NodeFetchSuccessMap)
    (r : NodeResponse node_tasks) : node_tasks * NodeFetchSuccessMap :=
  match data r with
  | Ok l => (acc.1 ++ l, set_node_success acc.2 remote (node_name r))
  | Err _ => acc
  end.
Definition collect_remote (acc : node_tasks * NodeFetchSuccessMap) (r : RemoteResponse node_tasks)
    : node_tasks * NodeFetchSuccessMap :=
  match rr_nodes r with
  | Ok nodes => foldl (collect_node (rr_name r)) acc nodes
  | Err _ => acc
  end.
Definition fetch_remotes (remotes : list (string * RemoteType)) (cache_state : State)
    : node_tasks * NodeFetchSuccessMap :=
  foldl collect_remote ([], ∅)
    (run_fetcher E remotes (λ r ty n, Some (fetch_tasks_from_single_node cache_state r ty n))).

Definition finished_remotes (poll_results : gmap RemoteUpid PollResult) : list string :=
  filter_map (λ p, if bool_decide (p.2 = Finished) then Some (ru_remote p.1) else None)
    (map_to_list poll_results).
Definition get_remotes_with_finished_tasks (config : list (string * RemoteType))
    (poll_results : gmap RemoteUpid PollResult) : list (string * RemoteType) :=
  List.filter (λ r, bool_decide (r.1 ∈ finished_remotes poll_results)) config.

(** [poll_single_tracked_task]; [None] is a panic of the spawned task *)
Definition poll_single_tracked_task (task : RemoteUpid) : option PollResult :=
  match get_task_status E task with
  | None => None
  | Some (Err _) => Some RequestError
  | Some (Ok (Some _)) => Some Finished
  | Some (Ok None) => Some Running
  end.
Definition poll_task (config : list (string * RemoteType)) (task : RemoteUpid) : option PollResult :=
  if bool_decide (ru_remote task ∈ config.*1) then poll_single_tracked_task task else Some RemoteGone.

Fixpoint poll_tasks (config : list (string * RemoteType)) (tracked : list RemoteUpid)
    : result error (gmap RemoteUpid PollResult) :=
  match tracked with
  | [] => Ok ∅
  | task :: rest =>
      match poll_task config task with
      | None => Err (Error OtherIo ["task panicked"])
      | Some r => m ← poll_tasks config rest; mret (<[task := r]> m)
      end
  end.
Definition poll_tracked_tasks (config : list (string * RemoteType)) (tracked : gset RemoteUpid)
    : result error (gmap RemoteUpid PollResult) := poll_tasks config (elements tracked).

Definition dropped (poll_results : gmap RemoteUpid PollResult) : gset RemoteUpid :=
  dom (base.filter (λ p, p.2 ≠ Running) poll_results).

Definition lift_result {A} (r : result error A) : IO A :=
  match r with Ok a => mret a | Err e => fail e end.

Section ops.
Context `{UpidEnv} `{TaskJson} `{Reads}.

(** The locks of [write] and [read] can fail. *)
Definition lock : IO () := syscall.

Definition rotate_cache : IO bool := _ ← lock; rotate the_cache (align_timestamp (rotate_epoch E) ROTATE_AFTER).
Definition locked_apply_journal : IO () := _ ← lock; apply_journal.
Definition get_active_tasks : IO (list RemoteUpid) :=
  _ ← lock; tasks ← get_tasks Active; mret (upid <$> tasks).

Definition update_task_cache (new_tasks : node_tasks) (succ : NodeFetchSuccessMap)
    (poll_results : gmap RemoteUpid PollResult) : IO () :=
  _ ← lock; update the_cache new_tasks succ (dropped poll_results).

Definition refresh_taskcache (remotes : list (string * RemoteType)) : IO () :=
  cache_state ← read_state;
  _ ← meanwhile E;
  let '(all_tasks, succ) := fetch_remotes remotes cache_state in
  match all_tasks with
  | [] => mret ()
  | _ => update_task_cache all_tasks succ ∅
  end.

(** [init_cache] *)
Definition init_cache : IO () := _ ← lock; init the_cache (align_timestamp (rotate_epoch E) ROTATE_AFTER).

(** *** The tick changes [TaskState] also when it fails later on. *)
Definition Tick (A : Type) : Type := TaskState → world → result error A * TaskState * world.
Global Instance Tick_ret : MRet Tick := λ _ a s w, (Ok a, s, w).
Global Instance Tick_bind : MBind Tick := λ _ _ f m s w,
  match m s w with
  | (Ok a, s', w') => f a s' w'
  | (Err e, s', w') => (Err e, s', w')
  end.
Definition lift {A} (m : IO A) : Tick A := λ s w, let '(r, w') := m w in (r, s, w').
Definition modify (f : TaskState → TaskState) : Tick () := λ s w, (Ok (), f s, w).
Definition get_task_state : Tick TaskState := λ s w, (Ok s, s, w).

Definition tick_rotate : Tick () :=
  s ← get_task_state;
  if is_due_for_rotate_check (instant E 0) s
  then
    rotated ← lift rotate_cache;
    _ ← (if rotated : bool then modify (reset_journal_apply (instant E 1)) else mret ());
    modify (reset_rotate_check (instant E 2))
  else mret ().

Definition tick_journal : Tick () :=
  s ← get_task_state;
  if is_due_for_journal_apply (instant E 3) s
  then _ ← lift locked_apply_journal; modify (reset_journal_apply (instant E 4))
  else mret ().

Definition tick_poll (config : list (string * RemoteType)) (cache_state : State)
    : Tick (gmap RemoteUpid PollResult) :=
  s ← get_task_state;
  if is_due_for_active_poll (instant E 5) s
  then
    active ← lift get_active_tasks;
    poll_results ← lift (lift_result
      (poll_tracked_tasks config (tracked_tasks cache_state ∪ list_to_set active)));
    _ ← modify (reset_active_poll (instant E 6));
    mret poll_results
  else lift (lift_result (poll_tracked_tasks config (tracked_tasks cache_state))).

(** The remotes to ask in this tick *)
Definition tick_remotes (config : list (string * RemoteType))
    (poll_results : gmap RemoteUpid PollResult) : Tick (list (string * RemoteType)) :=
  s ← get_task_state;
  if is_due_for_fetch (instant E 7) s
  then _ ← modify (reset_fetch (instant E 8)); mret config
  else mret (get_remotes_with_finished_tasks config poll_results).

Definition must_update (all_tasks : node_tasks) (poll_results : gmap RemoteUpid PollResult) : bool :=
  negb (bool_decide (all_tasks = []))
  || existsb (λ p, bool_decide (p.2 = RemoteGone) || bool_decide (p.2 = RequestError))
       (map_to_list poll_results).

Definition handle_timer_tick : Tick () :=
  _ ← tick_rotate;
  _ ← tick_journal;
  config ← lift (lift_result (remotes_config E));
  cache_state ← lift read_state;
  poll_results ← tick_poll config cache_state;
  remotes ← tick_remotes config poll_results;
  _ ← lift (meanwhile E);
  let '(all_tasks, succ) := fetch_remotes remotes cache_state in
  if must_update all_tasks poll_results
  then lift (update_task_cache all_tasks succ poll_results)
  else mret ().
End ops.
End refresh.
