(* ===== verification/TaskRefreshFacts.v ===== *)
(** * Refreshing never skips a task: lemmas

    What the fetcher's responses say about the tasks of the remotes, the cutoffs an update
    leaves, and the invariant of the cache that a refresh keeps. *)
From stdpp Require Import relations.
From S2P Require Import Prelude RustStr Remotes Disk TaskArchive TaskCache TaskMerge TaskView TaskCrash TaskUpdate Fetcher FetcherProps TaskRefresh.

#[local] Open Scope Z_scope.

(** ** The responses *)
Definition answers (l : list (RemoteResponse node_tasks)) : list (string * string * node_tasks) :=
  concat ((λ r, match rr_nodes r with
                | Ok nodes => filter_map (λ x, match data x with
                                               | Ok ts => Some (rr_name r, node_name x, ts)
                                               | Err _ => None
                                               end) nodes
                | Err _ => []
                end) <$> l).
Definition add_answer (acc : node_tasks * NodeFetchSuccessMap) (a : string * string * node_tasks)
    : node_tasks * NodeFetchSuccessMap :=
  (acc.1 ++ a.2, set_node_success acc.2 a.1.1 a.1.2).

Lemma collect_remote_answers acc r : collect_remote acc r = foldl add_answer acc (answers [r]).
Proof.
  unfold answers, collect_remote. simpl. rw app_nil_r. destruct (rr_nodes r) as [nodes|e]; [| done].
  revert acc. induction nodes as [|x nodes IH]; intros acc; simpl; [done |]. rw IH. unfold collect_node.
  by destruct (data x).
Qed.

Lemma collect_answers acc l : foldl collect_remote acc l = foldl add_answer acc (answers l).
Proof.
  revert acc. induction l as [|r l IH]; intros acc; [done |]. simpl. rw IH collect_remote_answers.
  unfold answers. cbn [fmap list_fmap concat]. by rw app_nil_r foldl_app.
Qed.

Lemma add_answers_tasks acc l : (foldl add_answer acc l).1 = acc.1 ++ concat (l.*2).
Proof.
  revert acc. induction l as [|a l IH]; intros acc; simpl; [by rw app_nil_r |]. rw IH. simpl. by rw app_assoc.
Qed.

Lemma add_answers_success acc l r n : node_successful (foldl add_answer acc l).2 r n = true →
  node_successful acc.2 r n = true ∨ ∃ ts, (r, n, ts) ∈ l.
Proof.
  revert acc. induction l as [|[[r' n'] ts] l IH]; intros acc; simpl; [by left |].
  intros [Hs | (ts' & ?)]%IH; [| right; exists ts'; by right]. unfold node_successful, set_node_success in *.
  simpl in Hs. destruct (decide ((r', n') = (r, n))) as [[= -> ->] | Hne].
  - right. exists ts. left.
  - left. by rw lookup_insert_ne in Hs.
Qed.

Lemma elem_of_answers l r n ts : (r, n, ts) ∈ answers l →
  ∃ x nodes y, x ∈ l ∧ rr_name x = r ∧ rr_nodes x = Ok nodes ∧ y ∈ nodes ∧ node_name y = n ∧ data y = Ok ts.
Proof.
  unfold answers. intros (x & Hx & Hin)%elem_of_concat_fmap.
  destruct (rr_nodes x) as [nodes|e] eqn:E; [| by apply not_elem_of_nil in Hin].
  apply elem_of_filter_map in Hin as (y & Hy & Ey). destruct (data y) as [ts'|] eqn:Ed; [| done].
  injection Ey as <- <- <-. by exists x, nodes, y.
Qed.

(** What the fetcher returns is the end of one of its runs. *)
Definition fetch_outcome (E : refresh_env) (list_nodes : string → result string (list string))
    (remotes : list (string * RemoteType)) (s : State) : Prop :=
  let call r ty n := Some (fetch_tasks_from_single_node E s r ty n) in
  ∃ st joined, rtc (steps_to AllNodes task_fetcher list_nodes call) (start task_fetcher remotes) st
    ∧ all_ended st = true ∧ joined ≡ₚ returned st
    ∧ run_fetcher E remotes call = FetcherResponse joined.

(** Every answer is that of a node of a remote that was asked. *)
Lemma outcome_answers E list_nodes remotes s r n ts :
  fetch_outcome E list_nodes remotes s →
  (r, n, ts) ∈ answers (run_fetcher E remotes (λ r ty n, Some (fetch_tasks_from_single_node E s r ty n))) →
  ∃ ty, (r, ty) ∈ remotes ∧ fetch_tasks_from_single_node E s r ty n = Ok ts.
Proof.
  intros (st & joined & Hrun%reachable_inv & _ & Hj & ->) (x & nodes & y & Hx & <- & Hn & Hy & <- & Hd)%elem_of_answers.
  apply elem_of_sort_by in Hx. rw Hj in Hx. apply returned_elem in Hx as (id & ty & Hin).
  assert ((id, ty) ∈ remotes) as Hrem.
  { rw -(inv_remotes _ _ _ _ _ _ Hrun). apply list_elem_of_fmap. by exists (id, ty, Returned x). }
  destruct (inv_progress _ _ _ _ _ _ Hrun _ _ _ Hin) as (-> & _ & Hex). exists ty. split; [done |].
  assert (∃ m, fetch_node (λ r ty n, Some (fetch_tasks_from_single_node E s r ty n)) id ty m = Some y) as (m & Hm).
  { destruct (by_nodes AllNodes ty).
    - destruct (list_nodes id); [| congruence]. destruct Hex as (l & El & Hl).
      assert (nodes = l) as -> by congruence. rw Hl in Hy. apply elem_of_filter_map in Hy as (m & _ & Hm). eauto.
    - destruct Hex as (y' & Hm & El). assert (nodes = [y']) as -> by congruence.
      apply list_elem_of_singleton in Hy as ->. eauto. }
  unfold fetch_node in Hm. simpl in Hm. injection Hm as <-. done.
Qed.

Section history.
Context `{UpidEnv} `{TaskJsonLaws} `{SteadyReads}.
Implicit Types (d : dir) (t : TaskCacheItem) (ts hist : list TaskCacheItem) (s : State).

(** ** The tasks on the remotes

    [hist] has the tasks of all nodes as the remotes know them now. *)
Definition on_node hist (r n : string) : list TaskCacheItem :=
  base.filter (λ t, node_of t = Some (r, n)) hist.

(** A UPID names one task. *)
Definition unique_upids hist : Prop := ∀ t t', t ∈ hist → t' ∈ hist → upid t = upid t' → t = t'.

(** A remote that answers returns tasks of the node, all those since the given time unless there
    are more than the limit. *)
Definition answers_truly (E : refresh_env) hist (remotes : list (string * RemoteType)) : Prop :=
  ∀ r ty n since limit l, (r, ty) ∈ remotes → get_task_list E r ty n since limit = Ok l →
    (∀ t, t ∈ map_task ty r <$> l → t ∈ on_node hist r n) ∧
    ((Z.of_nat (length (on_node hist r n)) ≤ limit) →
     ∀ t, t ∈ on_node hist r n → since ≤ starttime t → t ∈ map_task ty r <$> l).
Definition within_limit hist : Prop := ∀ r n, Z.of_nat (length (on_node hist r n)) ≤ MAX_TASKS_TO_FETCH.

(** What a fetch with the state [s] brings *)
Record fetched_all (E : refresh_env) hist s (new_tasks : list TaskCacheItem) (succ : NodeFetchSuccessMap) : Prop := {
  fa_sub t : t ∈ new_tasks → t ∈ hist;
  fa_all r n t : node_successful succ r n = true → t ∈ on_node hist r n →
    fetch_since E s r n ≤ starttime t → t ∈ new_tasks;
}.

Lemma fetch_remotes_all E list_nodes remotes hist s :
  fetch_outcome E list_nodes remotes s → answers_truly E hist remotes → within_limit hist →
  fetched_all E hist s (fetch_remotes E remotes s).1 (fetch_remotes E remotes s).2.
Proof.
  intros Hout Htruly Hlim. unfold fetch_remotes. rw collect_answers. 
  assert (∀ r n ts, (r, n, ts) ∈ answers (run_fetcher E remotes (λ r ty n, Some (fetch_tasks_from_single_node E s r ty n))) →
    (∀ t, t ∈ ts → t ∈ on_node hist r n) ∧
    (∀ t, t ∈ on_node hist r n → fetch_since E s r n ≤ starttime t → t ∈ ts)) as Ha.
  { intros r n ts (ty & Hr & Hf)%(outcome_answers _ _ _ _ _ _ _ Hout). unfold fetch_tasks_from_single_node in Hf.
    destruct (get_task_list _ _ _ _ _ _) as [l|] eqn:El; [| done]. injection Hf as <-.
    destruct (Htruly _ _ _ _ _ _ Hr El) as [Hs Hc]. split; [done |]. by apply Hc, Hlim. }
  split.
  - intros t. rw add_answers_tasks. simpl. intros ([[r n] ts] & Hin & Ht)%elem_of_concat_fmap.
    apply (Ha r n ts Hin) in Ht. by apply list_elem_of_filter in Ht as [_ ?].
  - intros r n t [Hs | (ts & Hin)]%add_answers_success Ht Hsince; [done |].
    rw add_answers_tasks. simpl. apply elem_of_concat_fmap. exists (r, n, ts). split; [done |].
    by apply (Ha r n ts Hin).
Qed.

(** ** The cutoffs of an update *)
Section cutoffs.
Context (succ : NodeFetchSuccessMap) (new_tasks : list TaskCacheItem) (drop : gset RemoteUpid).
Context (Huniq : unique_upids new_tasks).

Lemma next_acc_running act s t : t ∈ new_tasks → is_running t = true →
  (next_acc new_tasks succ drop act s).1 !! upid t = Some t.
Proof.
  intros Ht Hrun. unfold next_acc. rw record_acc_active. rw bool_decide_eq_false_2.
  { intros (t' & E & [Hf Ht']%list_elem_of_filter)%list_elem_of_fmap.
    rw (Huniq t t' Ht Ht' E) Hf in Hrun. done. }
  unfold active_after. simpl. rw insert_task_fold.
  destruct (find_by _ _) as [t'|] eqn:Ef.
  - apply find_by_Some in Ef as [Hin E%bool_decide_eq_true]. f_equal. rw elem_of_reverse in Hin.
    apply list_elem_of_filter in Hin as [_ Hin]. by apply Huniq.
  - pose proof (find_by_None _ _ t Ef) as Hn. simpl in Hn. rw bool_decide_eq_true_2 // in Hn.
    assert (true = false); [| done]. apply Hn. rw elem_of_reverse. by apply list_elem_of_filter.
Qed.

(** A fetched node gets a cutoff that passes no running task of the answer; other nodes keep
    theirs. *)
Lemma next_state_cutoff act s r n z :
  cutoff_timestamp (next_state new_tasks succ drop act s) r n = Some z →
  if node_successful succ r n
  then ∀ t, t ∈ new_tasks → is_running t = true → node_of t = Some (r, n) → z ≤ starttime t
  else cutoff_timestamp s r n = Some z.
Proof.
  unfold next_state. destruct (node_successful succ r n) eqn:Hs.
  - intros Hz t Ht Hrun Hn.
    assert (cutoff_le succ (next_state new_tasks succ drop act s) t) as Hle.
    { apply lower_cutoffs_le. left. apply list_elem_of_fmap. exists (upid t, t). split; [done |].
      apply elem_of_map_to_list. by apply next_acc_running. }
    destruct (Hle r n Hn Hs) as (z' & Hz' & Hzt). unfold next_state in Hz'. rw Hz in Hz'. by injection Hz' as ->.
  - rw lower_fold_other //. unfold next_acc. by rw record_acc_state /= raise_fold_other // remove_tracked_cutoff.
Qed.
End cutoffs.

(** ** The invariant

    Every task since [lo] that started before the cutoff of its node has finished and is
    visible, so fetching from the cutoff on misses nothing. *)
Definition covered (lo : Z) hist d : Prop :=
  ∀ r n c t, cutoff_timestamp (state_of d) r n = Some c → t ∈ on_node hist r n →
    lo ≤ starttime t → starttime t < c → is_running t = false ∧ t ∈ view d.
Definition grows d d' : Prop := ∀ t, t ∈ view d → t ∈ view d'.

Record sound (lo : Z) hist d : Prop := {
  so_wf : archive_wf d;
  so_text : journal_text d;
  so_one : one_record (all_tasks d ++ recorded (finished hist));
  so_target t : t ∈ journal_of d ++ recorded (finished hist) → is_Some (target (listing d) t);
  so_covered : covered lo hist d;
}.

Lemma sound_view lo hist d t : sound lo hist d → t ∈ view d ↔ t ∈ all_tasks d.
Proof.
  intros Hs. apply elem_of_view. eapply one_record_sub; [apply (so_one _ _ _ Hs) |].
  intros x Hx. apply elem_of_app. by left.
Qed.

(** Later tasks and later records: a history that only adds tasks past the cutoffs *)
Lemma covered_later lo hist hist' d : covered lo hist d →
  (∀ r n c t, cutoff_timestamp (state_of d) r n = Some c → t ∈ on_node hist' r n →
     t ∈ on_node hist r n ∨ c ≤ starttime t) → covered lo hist' d.
Proof.
  intros Hc Hl r n c t Hcut Ht Hlo Hlt. destruct (Hl r n c t Hcut Ht) as [Hin | Hle]; [| lia].
  by apply (Hc r n c t).
Qed.

Lemma recorded_finished_sub ts hist t : (∀ x, x ∈ ts → x ∈ hist) →
  t ∈ recorded (finished ts) → t ∈ recorded (finished hist).
Proof.
  intros Hsub. unfold recorded, finished. rw !list_elem_of_filter. intros (? & ? & ?). auto.
Qed.

Section update.
Context (E : refresh_env) (lo : Z) (hist : list TaskCacheItem).
Context (Huniq : unique_upids hist).
Context (s1 : State) (new_tasks : list TaskCacheItem) (succ : NodeFetchSuccessMap) (drop : gset RemoteUpid).
Context (Hfetch : fetched_all E hist s1 new_tasks succ).
Context (d2 : dir) (Hs2 : sound lo hist d2).
(** What started before the time the node was asked for is known already. *)
Context (Hbefore : ∀ r n t, t ∈ on_node hist r n → lo ≤ starttime t → starttime t < fetch_since E s1 r n →
  is_running t = false ∧ t ∈ view d2).

Lemma moved_covered d : grown d2 new_tasks (recorded (finished new_tasks)) d → moved d2 new_tasks succ drop (state_of d) →
  grows d2 d → (∀ t, t ∈ all_tasks d → t ∈ view d) → covered lo hist d.
Proof.
  intros Hg (act & s & Hs & Hb) Hgrow Hview r n c t Hc Ht Hlot Htc.
  destruct (Hb r n c Hc) as (z & Hz & Hle).
  assert (unique_upids new_tasks) as Hun.
  { intros a b Ha%(fa_sub _ _ _ _ _ Hfetch) Hb'%(fa_sub _ _ _ _ _ Hfetch). by apply Huniq. }
  apply (next_state_cutoff succ new_tasks drop Hun) in Hz. destruct (node_successful succ r n) eqn:Hsucc.
  - destruct (Z.lt_ge_cases (starttime t) (fetch_since E s1 r n)) as [Hlt | Hge].
    + destruct (Hbefore r n t Ht Hlot Hlt) as [? ?]. split; [done | by apply Hgrow].
    + pose proof (fa_all _ _ _ _ _ Hfetch r n t Hsucc Ht Hge) as Hin.
      apply list_elem_of_filter in Ht as [Hn Ht]. destruct (is_running t) eqn:Hrun.
      * specialize (Hz t Hin Hrun Hn). lia.
      * split; [done |]. apply Hview, (gr_new _ _ _ _ Hg). unfold recorded, finished.
        rw !list_elem_of_filter. split_and!; [| done | done]. unfold recordable. unfold node_of in Hn.
        by destruct (native_upid (upid t)).
  - destruct Hs as [-> | ->]; [| done]. destruct (so_covered _ _ _ Hs2 r n z t Hz Ht Hlot) as [? ?]; [lia |].
    split; [done | by apply Hgrow].
Qed.

Lemma update_hyps :
  one_record (all_tasks d2 ++ recorded (finished new_tasks)) ∧
  (∀ t, t ∈ journal_of d2 ++ recorded (finished new_tasks) → is_Some (target (listing d2) t)).
Proof.
  pose proof (recorded_finished_sub new_tasks hist) as Hsub. split.
  - eapply one_record_sub; [apply (so_one _ _ _ Hs2) |].
    intros t [? | Ht]%elem_of_app; apply elem_of_app; [by left | right]. eapply Hsub; [apply Hfetch | done].
  - intros t [? | Ht]%elem_of_app; apply (so_target _ _ _ Hs2), elem_of_app; [by left | right]. eapply Hsub; [apply Hfetch | done].
Qed.

Lemma triple_update_covers cache :
  triple (λ d, d = d2) (update cache new_tasks succ drop)
    (λ _ d, sound lo hist d ∧ grows d2 d) (λ d, covered lo hist d ∧ grows d2 d).
Proof.
  destruct update_hyps as [Hone Htar]. pose proof (so_wf _ _ _ Hs2) as Hwf. pose proof (so_text _ _ _ Hs2) as Htext.
  assert (∀ T d, grown d2 new_tasks T d → grows d2 d ∧ ∀ t, t ∈ all_tasks d → t ∈ view d) as Hview.
  { intros T d Hg. split; [intros t | intros t Ht]; rw (grown_view d2 new_tasks Hone T d t Hg); [| done].
    rw (sound_view _ _ _ t Hs2). apply (gr_old _ _ _ _ Hg). }
  eapply triple_conseq; [by apply (triple_update_files d2) | done | |].
  - intros [] d (Hg & Hm & Ht). destruct (Hview _ _ Hg) as [Hgrow Hall]. split; [| done].
    split; [apply (gr_wf _ _ _ _ Hg) | done | | | by apply moved_covered].
    + eapply one_record_sub; [apply (so_one _ _ _ Hs2) |]. intros t [Hin | ?]%elem_of_app; apply elem_of_app; [| by right].
      apply (gr_sub _ _ _ _ Hg) in Hin as [? | Hin]; [by left | right].
      by apply (recorded_finished_sub new_tasks); [apply Hfetch |].
    + intros t [Hin | Hin]%elem_of_app.
      * by eapply (grown_target d2 new_tasks Hwf Htar).
      * rw (gr_listing _ _ _ _ Hg). apply (so_target _ _ _ Hs2), elem_of_app. by right.
  - intros d [Hg Hst]. destruct (Hview _ _ Hg) as [Hgrow Hall]. split; [| done].
    destruct Hst as [Hst | [Hg' Hm]]; [| by apply moved_covered].
    intros r n c t. rw (state_of_ext d2 d Hst). intros Hc Hin Hl Hlt.
    destruct (so_covered _ _ _ Hs2 r n c t Hc Hin Hl Hlt). split; [done | by apply Hgrow].
Qed.
End update.

(** ** The other operations of a tick *)
Lemma journal_safe_sound lo hist d d' : sound lo hist d → journal_safe d d' →
  covered lo hist d' ∧ grows d d' ∧ (default [] (d' !! WAL_FILENAME) = [] → sound lo hist d').
Proof.
  intros Hs [[Hwf Ht Hl] Hb].
  assert (one_record (all_tasks d' ++ recorded (finished hist))) as Hone.
  { eapply one_record_sub; [apply (so_one _ _ _ Hs) |]. intros t [?%Ht | ?]%elem_of_app; apply elem_of_app; auto. }
  assert (grows d d') as Hgrow.
  { intros t Hin%(sound_view _ _ _ t Hs). apply elem_of_view; [| by apply Ht].
    eapply one_record_sub; [exact Hone |]. intros x Hx. apply elem_of_app. by left. }
  assert (covered lo hist d') as Hcov.
  { intros r n c t (z & Hz & Hle)%Hb Hin Hlo Hlt. destruct (so_covered _ _ _ Hs r n z t Hz Hin Hlo) as [? ?]; [lia |].
    split; [done | by apply Hgrow]. }
  split_and!; [done | done |]. intros Hj. split; [done | by unfold journal_text; rw Hj | done | | done].
  intros t. rw (empty_journal _ Hj) Hl. simpl. intros Hin. apply (so_target _ _ _ Hs), elem_of_app. by right.
Qed.

Lemma grows_trans d1 d2 d3 : grows d1 d2 → grows d2 d3 → grows d1 d3.
Proof. intros H12 H23 t Ht. by apply H23, H12. Qed.
Lemma grows_refl d : grows d d.
Proof. by intros t. Qed.

(** What holds while the tick runs, and where it stops, from a directory [d0] *)
Definition going (lo : Z) hist d0 d : Prop := sound lo hist d ∧ grows d0 d.
Definition stopped (lo : Z) hist d0 d : Prop := covered lo hist d ∧ grows d0 d.

Lemma going_stopped lo hist d0 d : going lo hist d0 d → stopped lo hist d0 d.
Proof. intros [Hs Hg]. split; [apply Hs | done]. Qed.

(** *** Triples of the tick; they hold for every [TaskState]. *)
Definition tick_triple {A} (P : dir → Prop) (m : Tick A) (Q : A → dir → Prop) (X : dir → Prop) : Prop :=
  ∀ k w, P (disk w) →
    match m k w with (Ok a, _, w') => Q a (disk w') | (Err _, _, w') => X (disk w') end.

Lemma tick_bind {A B} P (m : Tick A) (f : A → Tick B) R Q X :
  tick_triple P m R X → (∀ a, tick_triple (R a) (f a) Q X) → tick_triple P (m ≫= f) Q X.
Proof.
  intros Hm Hf s w Hw. specialize (Hm s w Hw). unfold mbind, Tick_bind.
  destruct (m s w) as [[[a|e] s'] w']; [by apply Hf | done].
Qed.
Lemma tick_ret {A} P (a : A) Q X : (∀ d, P d → Q a d) → tick_triple P (mret a) Q X.
Proof. intros HP s w Hw. by apply HP. Qed.
Lemma tick_lift {A} P (m : IO A) Q X : triple P m Q X → tick_triple P (lift m) Q X.
Proof. intros Hm s w Hw. specialize (Hm w Hw). unfold lift. by destruct (m w) as [[a|e] w']. Qed.
Lemma tick_modify P f X : tick_triple P (modify f) (λ _, P) X.
Proof. by intros s w Hw. Qed.
Lemma tick_get P X : tick_triple P get_task_state (λ _, P) X.
Proof. by intros s w Hw. Qed.
Lemma tick_pre {A} P (m : Tick A) Q X :
  (∀ d, P d → tick_triple (λ d', d' = d) m Q X) → tick_triple P m Q X.
Proof. intros Hm s w Hw. by apply (Hm _ Hw). Qed.

Lemma List_filter_sublist {A} (p : A → bool) l : List.filter p l `sublist_of` l.
Proof. induction l as [|x l IH]; simpl; [done |]. destruct (p x); by constructor. Qed.

Section tick.
Context (E : refresh_env) (lo : Z) (hist : list TaskCacheItem) (list_nodes : string → result string (list string)).
Context (config : list (string * RemoteType)) (Hconfig : remotes_config E = Ok config).
Context (Huniq : unique_upids hist) (Hlimit : within_limit hist) (Htruly : answers_truly E hist config).
Context (Hlo : ∀ r n, fetch_epoch E r n - KEEP_OLD_FILES * ROTATE_AFTER ≤ lo).
Context (Hout : ∀ remotes s, remotes `sublist_of` config → fetch_outcome E list_nodes remotes s).
(** Other writers keep the invariant and lose no task. *)
Context (Hother : ∀ d, sound lo hist d → triple (λ d', d' = d) (meanwhile E) (λ _, going lo hist d) (stopped lo hist d)).
Context (d0 : dir).
Abbreviation going := (going lo hist d0).
Abbreviation stopped := (stopped lo hist d0).

Lemma triple_lock P : triple (λ d, going d ∧ P d) lock (λ _ d, going d ∧ P d) stopped.
Proof. apply triple_syscall. intros d [? _]. by apply going_stopped. Qed.

Lemma tick_journal_going : tick_triple going (tick_journal E) (λ _, going) stopped.
Proof.
  eapply tick_bind; [apply tick_get |]. intros s. simpl.
  destruct (is_due_for_journal_apply _ _); [| by apply tick_ret].
  eapply tick_bind with (R := λ _, going); [apply tick_lift | intros []; apply tick_modify].
  eapply triple_bind; [apply triple_syscall; intros d; apply going_stopped |]. intros [].
  apply triple_pre. intros d [Hs Hg]. eapply triple_conseq; [apply (triple_apply_journal d) | done | |].
  - apply Hs.
  - eapply one_record_sub; [apply (so_one _ _ _ Hs) |]. intros t Ht. apply elem_of_app. by left.
  - intros t Ht. apply (so_target _ _ _ Hs), elem_of_app. by left.
  - intros [] d' [Hj He]. destruct (journal_safe_sound _ _ _ _ Hs Hj) as (_ & Hg' & Hs').
    split; [by apply Hs' | by eapply grows_trans].
  - intros d' Hj. destruct (journal_safe_sound _ _ _ _ Hs Hj) as (Hc & Hg' & _).
    split; [done | by eapply grows_trans].
Qed.

Lemma tick_poll_same s1 d1 : going d1 →
  tick_triple (λ d, d = d1) (tick_poll E config s1) (λ _ d, d = d1) stopped.
Proof.
  intros Hd1. assert (stopped d1) as Hst by by apply going_stopped.
  assert (∀ A (r : result error A), triple (λ d, d = d1) (lift_result r) (λ _ d, d = d1) stopped) as Hr.
  { intros A [a|e]; [by apply triple_ret | by apply triple_fail; intros d ->]. }
  eapply tick_bind; [apply tick_get |]. intros s. simpl. destruct (is_due_for_active_poll _ _).
  - eapply tick_bind with (R := λ _ d, d = d1).
    { apply tick_lift. eapply triple_bind; [by apply triple_syscall; intros d -> |]. intros [].
      eapply triple_bind; [by apply triple_get_active |]. intros l. by apply triple_ret. }
    intros active. simpl. eapply tick_bind; [apply tick_lift, Hr |]. intros res. simpl.
    eapply tick_bind; [apply tick_modify |]. intros []. by apply tick_ret.
  - apply tick_lift, Hr.
Qed.

Lemma tick_remotes_sub res P X : tick_triple P (tick_remotes E config res)
  (λ remotes d, P d ∧ remotes `sublist_of` config) X.
Proof.
  eapply tick_bind; [apply tick_get |]. intros s. simpl. destruct (is_due_for_fetch _ _).
  - eapply tick_bind; [apply tick_modify |]. intros []. by apply tick_ret.
  - apply tick_ret. intros d Hd. split; [done |]. apply List_filter_sublist.
Qed.

(** What a state read at [d1] says about the tasks before the time a node is asked for *)
Lemma since_covered s1 d1 d2 : sound lo hist d1 → grows d1 d2 → s1 = state_of d1 ∨ s1 = default_state →
  ∀ r n t, t ∈ on_node hist r n → lo ≤ starttime t → starttime t < fetch_since E s1 r n →
    is_running t = false ∧ t ∈ view d2.
Proof.
  intros Hs Hg Hs1 r n t Ht Hl Hlt. unfold fetch_since in Hlt. specialize (Hlo r n).
  destruct (cutoff_timestamp s1 r n) as [c|] eqn:Ec; [| lia]. destruct Hs1 as [-> | ->]; [| done].
  destruct (so_covered _ _ _ Hs r n c t Ec Ht Hl Hlt). split; [done | by apply Hg].
Qed.

Lemma tick_fetch_going s1 d1 remotes res : sound lo hist d1 → s1 = state_of d1 ∨ s1 = default_state →
  grows d0 d1 → remotes `sublist_of` config →
  tick_triple (λ d, d = d1)
    (_ ← lift (meanwhile E);
     let '(all_tasks, succ) := fetch_remotes E remotes s1 in
     if must_update all_tasks res then lift (update_task_cache all_tasks succ res) else mret ())
    (λ _, going) stopped.
Proof.
  intros Hs1 Hst Hg01 Hsub. 
  assert (∀ d, grows d1 d → grows d0 d) as Htr by (intros d; by apply grows_trans).
  eapply tick_bind with (R := λ _ d, sound lo hist d ∧ grows d1 d).
  { eapply tick_lift, triple_conseq; [by apply Hother | done | done |]. intros d [Hc Hg]. split; auto. }
  intros []. destruct (fetch_remotes E remotes s1) as [new succ] eqn:Ef.
  assert (fetched_all E hist s1 new succ) as Hfa.
  { assert (answers_truly E hist remotes) as Htr'.
    { intros r ty n since limit l Hin. apply Htruly. eapply sublist_subseteq; [exact Hsub | exact Hin]. }
    pose proof (fetch_remotes_all E list_nodes remotes hist s1 (Hout _ _ Hsub) Htr' Hlimit) as Hf.
    by rw Ef in Hf. }
  destruct (must_update new res); [| apply tick_ret; intros d [? ?]; split; auto].
  apply tick_lift. eapply triple_bind; [apply triple_syscall; intros d [Hs Hg]; split; [apply Hs | auto] |].
  intros []. apply triple_pre. intros d2 [Hs2 Hg2].
  eapply triple_conseq; [apply (triple_update_covers E lo hist Huniq s1 new succ _ Hfa d2 Hs2) | done | |].
  - by eapply (since_covered s1 d1).
  - intros [] d [Hs Hg]. split; [done |]. apply Htr. by eapply grows_trans.
  - intros d [Hs Hg]. split; [done |]. apply Htr. by eapply grows_trans.
Qed.
End tick.
End history.
