(* ===== verification/TaskRefreshProps.v ===== *)
(** * Refreshing the task cache: theorems *)
From stdpp Require Import relations.
From S2P Require Import Prelude RustStr Remotes Disk TaskArchive TaskCache TaskMerge TaskView TaskCrash TaskUpdate TaskExample TaskProps Fetcher FetcherProps TaskRefresh TaskRefreshFacts.

#[local] Open Scope Z_scope.

Section props.
Context `{UpidEnv} `{TaskJsonLaws} `{SteadyReads}.

End props.

(** ** A concrete remote

    One remote with one node, which lists the tasks of [ex_hist]. *)
Definition ex_hist : list TaskCacheItem :=
  [ex_task 1200 (Some 1210); ex_task 1300 (Some 1310); ex_task 1350 (Some 1360); ex_task 1400 None].
Definition ex_config : list (string * RemoteType) := [("pve-remote", Pve)].
Definition to_listed (t : TaskCacheItem) : ListedTask := {|
  lt_upid := ru_upid (upid t); lt_starttime := starttime t; lt_endtime := endtime t; lt_status := status t |}.
Definition ex_list_nodes (r : string) : result string (list string) := Ok ["pve"].

(** The run in which the one node is asked *)
Definition ex_steps : list (nat * action) :=
  [(0, Acquire); (0, Listed); (0, Spawn); (0, Finish 0); (0, Return)]%nat.
Definition ex_run (remotes : list (string * RemoteType))
    (call : string → RemoteType → string → option (result string node_tasks)) : fetch_state node_tasks :=
  let st := start task_fetcher remotes in
  match remotes with
  | [] => st
  | _ => default st (run_actions AllNodes task_fetcher ex_list_nodes call ex_steps st)
  end.

Definition ex_refresh : refresh_env := {|
  instant _ := from_secs 1000;
  rotate_epoch := 1500;
  fetch_epoch _ _ := 1500;
  remotes_config := Ok ex_config;
  get_task_list r ty n since limit :=
    Ok (to_listed <$> base.filter (λ t, since ≤ starttime t) (on_node ex_hist r n));
  get_task_status _ := Some (Ok None);
  run_fetcher remotes call := FetcherResponse (returned (ex_run remotes call));
  meanwhile := mret ();
|}.

Lemma ex_node r n t : t ∈ on_node ex_hist r n → r = "pve-remote" ∧ map_task Pve r (to_listed t) = t.
Proof.
  intros [Hn Ht]%list_elem_of_filter.
  assert (Forall (λ t, ∀ r n, node_of t = Some (r, n) → r = "pve-remote" ∧ map_task Pve r (to_listed t) = t) ex_hist) as Hf.
  { repeat constructor; vm_compute in H; by injection H as <- _. }
  by apply (proj1 (Forall_forall _ _) Hf t Ht r n).
Qed.

Lemma ex_answers : answers_truly ex_refresh ex_hist ex_config.
Proof.
  intros r ty n since limit l Hr [= <-]. apply list_elem_of_singleton in Hr as [= -> ->]. split.
  - intros t (x & -> & (y & -> & [_ Hy]%list_elem_of_filter)%list_elem_of_fmap)%list_elem_of_fmap.
    destruct (ex_node _ _ _ Hy) as [_ ->]. done.
  - intros _ t Ht Hs. apply list_elem_of_fmap. exists (to_listed t). split; [by destruct (ex_node _ _ _ Ht) as [_ ->] |].
    apply list_elem_of_fmap. exists t. split; [done |]. by apply list_elem_of_filter.
Qed.

Lemma ex_outcome remotes s : remotes `sublist_of` ex_config → fetch_outcome ex_refresh ex_list_nodes remotes s.
Proof.
  intros Hsub. assert (remotes = [] ∨ remotes = ex_config) as [-> | ->].
  { inversion Hsub as [|x l k Hl|x l k Hl]; subst; apply sublist_nil_r in Hl as ->; auto. }
  - eexists _, []. split_and!; [apply rtc_refl | done | done | done].
  - eexists (ex_run ex_config _), _. split_and!; [| | reflexivity | done].
    + apply (run_actions_rtc _ _ _ _ ex_steps). reflexivity.
    + reflexivity.
Qed.

(** Rotation and polling are not due, fetching from all remotes is. *)
Definition ex_fetch_due : TaskState := {|
  last_rotate_check := from_secs 900; last_fetch := 0;
  last_journal_apply := from_secs 900; last_active_poll := from_secs 900 |}.


(** ** Tracked tasks *)

(** A second remote answers while [pve-remote] cannot be reached any more. *)
Definition ex_other_task : TaskCacheItem := {|
  upid := {| ru_remote := "other"; ru_type := Pve; ru_upid := "UPID:pve:1450" |};
  starttime := 1450; status := Some "OK"; endtime := Some 1460 |}.
Definition ex_unreachable : refresh_env := {|
  instant _ := from_secs 1000;
  rotate_epoch := 1500;
  fetch_epoch _ _ := 1500;
  remotes_config := Ok [("other", Pve); ("pve-remote", Pve)];
  get_task_list r _ _ _ _ := if String.eqb r "other" then Ok [to_listed ex_other_task] else Err "no route to host";
  get_task_status _ := Some (Ok (Some "OK"));
  run_fetcher remotes call :=
    [ {| rr_name := "other"; rr_type := Pve;
         rr_nodes := Ok [ {| node_name := "pve"; data := Ok [ex_other_task] |} ] |};
      {| rr_name := "pve-remote"; rr_type := Pve; rr_nodes := Err "no route to host" |} ];
  meanwhile := mret ();
|}.
Definition ex_tracked_dir : dir := (run (add_tracked_task (ex_task 1400 None)) ex_dir).2.

(** A tracked task that is reported as finished disappears when its remote fails right after:
    the tick drops it from the tracked tasks and from the active file because another remote
    delivered tasks, although its final record was not fetched. *)
Theorem finished_task_vanishes :
  let t := ex_task 1400 None in
  bool_decide (upid t ∈ tracked_tasks (state_of ex_tracked_dir)) = true ∧
  bool_decide (t ∈ items_of ex_tracked_dir active_file) = true ∧
  let '(r, _, w') := handle_timer_tick ex_unreachable ex_fetch_due (quiet_world ex_tracked_dir) in
  r = Ok () ∧
  bool_decide (upid t ∈ tracked_tasks (state_of (disk w'))) = false ∧
  bool_decide (upid t ∈ upid <$> items_of (disk w') active_file ++ all_tasks (disk w')) = false.
Proof. vm_compute. done. Qed.

(** [align_timestamp] rounds down to a multiple of the interval: the result is the greatest
    multiple that is not later, also for times before the epoch. *)
Theorem align_timestamp_spec (now interval : Z) :
  0 < interval →
  align_timestamp now interval ≤ now < align_timestamp now interval + interval ∧
  (interval | align_timestamp now interval) ∧
  ∀ m, (interval | m) → m ≤ now → m ≤ align_timestamp now interval.
Proof.
  intros Hi. unfold align_timestamp. pose proof (Z.mod_pos_bound now interval Hi).
  pose proof (Z.div_mod now interval ltac:(lia)) as Hdm. split; [lia |]. split.
  - exists (now / interval). lia.
  - intros m [k ->] Hk. assert (k ≤ now / interval) by (apply Z.div_le_lower_bound; lia). nia.
Qed.

Lemma align_timestamp_spec_witness :
  align_timestamp 1782898009 (24 * 3600) ≤ 1782898009 < align_timestamp 1782898009 (24 * 3600) + 24 * 3600 ∧
  (24 * 3600 | align_timestamp 1782898009 (24 * 3600)) ∧
  ∀ m, (24 * 3600 | m) → m ≤ 1782898009 → m ≤ align_timestamp 1782898009 (24 * 3600).
Proof. apply (align_timestamp_spec 1782898009 (24 * 3600)). vm_compute. reflexivity. Defined.
