(* ===== verification/TaskListProps.v ===== *)
(** * Listing the tasks of all remotes: theorems and the handlers

    First [get_tasks] and [track_running_pve_task] of server/src/remote_tasks/mod.rs and the handlers
    of server/src/api/remotes/tasks.rs.  The iterator over the cache is lazy: how many of the
    corrupted files are noticed before a page is complete is the argument [seen]. *)
From S2P Require Import Prelude RustStr Remotes Disk TaskArchive TaskCache TaskExample TaskProps Resources Views ResourceList TaskRefresh.

#[local] Open Scope Z_scope.

Inductive TaskStateType := StateOK | StateWarning | StateError | StateUnknown.
Global Instance TaskStateType_eq_dec : EqDecision TaskStateType.
Proof. solve_decision. Defined.

Definition new_from_str (status : string) : TaskStateType :=
  if String.eqb status "unknown" || is_empty status then StateUnknown
  else if String.eqb status "OK" then StateOK
  else if starts_with "WARNINGS: " status then StateWarning
  else StateError.

Record TaskFilters := {
  f_start : Z;                     (* u64 *)
  f_limit : Z;                     (* u64 *)
  f_errors : bool;
  f_running : bool;
  f_userfilter : option string;
  f_since : option Z;
  f_until : option Z;
  f_typefilter : option string;
  f_statusfilter : option (list TaskStateType);
}.

Record TaskListItem := {
  ti_upid : string; ti_node : string; ti_pid : Z; ti_pstart : Z; ti_starttime : Z;
  ti_worker_type : string; ti_worker_id : option string; ti_user : string;
  ti_endtime : option Z; ti_status : option string;
}.

(** [TaskListItem] of a parsed UPID; the worker id of a PVE task is dropped *)
Definition list_item (t : TaskCacheItem) (f : NativeFields) (worker_id : option string) : TaskListItem := {|
  ti_upid := to_string (upid t); ti_node := nu_node f; ti_pid := nu_pid f; ti_pstart := nu_pstart f;
  ti_starttime := nu_starttime f; ti_worker_type := nu_worker_type f; ti_worker_id := worker_id;
  ti_user := nu_auth_id f; ti_endtime := endtime t; ti_status := status t |}.

Section list.
Context `{UpidEnv}.

Definition visible_node (view : option ViewConfig) (check_privs : string → bool) (remote node : string) : bool :=
  match view with
  | Some v => is_node_included v remote node
  | None => check_privs remote
  end.

(** The closure of [filter_map] *)
Definition shown_task (remote_filter : option string) (view : option ViewConfig)
    (check_privs : string → bool) (t : TaskCacheItem) : option TaskListItem :=
  let remote := ru_remote (upid t) in
  if match remote_filter with Some r => negb (String.eqb remote r) | None => false end then None
  else
    match native_upid (upid t) with
    | Ok (PveUpid f) => if visible_node view check_privs remote (nu_node f) then Some (list_item t f None) else None
    | Ok (PbsUpid f) =>
        if visible_node view check_privs remote (nu_node f) then Some (list_item t f (nu_worker_id f)) else None
    | Err _ => None
    end.

(** The closure of [filter] *)
Definition item_matches (filters : TaskFilters) (i : TaskListItem) : bool :=
  if f_running filters && bool_decide (is_Some (ti_endtime i)) then false
  else if match f_until filters with Some u => u <? ti_starttime i | None => false end then false
  else if match f_since filters with Some s => ti_starttime i <? s | None => false end then false
  else if match f_userfilter filters with Some n => negb (contains n (ti_user i)) | None => false end then false
  else if match f_typefilter filters with Some n => negb (contains n (ti_worker_type i)) | None => false end
  then false
  else
    match new_from_str <$> ti_status i, f_statusfilter filters with
    | Some StateOK, sf =>
        if f_errors filters then false
        else match sf with Some l => bool_decide (StateOK ∈ l) | None => true end
    | Some st, Some l => bool_decide (st ∈ l)
    | None, Some _ => false
    | _, _ => true
    end.

(** [skip(start).take(limit)]; a limit of 0 stands for [usize::MAX] *)
Definition page (filters : TaskFilters) (l : list TaskListItem) : list TaskListItem :=
  let l := drop (Z.to_nat (f_start filters)) l in
  if f_limit filters =? 0 then l else take (Z.to_nat (f_limit filters)) l.

Definition shown_tasks (filters : TaskFilters) (remote_filter : option string)
    (view : option ViewConfig) (check_privs : string → bool) (l : list TaskCacheItem) : list TaskListItem :=
  List.filter (item_matches filters) (filter_map (shown_task remote_filter view check_privs) l).

Context `{TaskJson} `{Reads}.
Context (views : result string (gmap string ViewConfig)).

Definition list_cached_tasks (seen : nat) (filters : TaskFilters) (remote_filter : option string)
    (check_privs : string → bool) (view : option string) : IO (list TaskListItem) :=
  view ← match get_optional_view views view with
         | Ok v => mret v
         | Err e => fail (Error OtherIo [e])
         end;
  _ ← lock;
  r ← context "failed to create task archive iterator"
        (get_tasks_impl (if f_running filters then Active else All));
  let returned := page filters (shown_tasks filters remote_filter view check_privs r.1) in
  _ ← match take seen r.2 with
      | [] => mret ()
      | corrupted => _ ← attempt (_ ← lock; request_repair corrupted); mret ()
      end;
  mret returned.

(** ** The handlers; a check of a privilege that fails is an error *)
Definition list_tasks (who : caller) (seen : nat) (filters : TaskFilters) (remote view : option string)
    : IO (list TaskListItem) :=
  _ ← match view with
      | Some v => if may_view who v then mret () else fail (Error OtherIo ["permission check failed"])
      | None => mret ()
      end;
  list_cached_tasks seen filters remote (may_remote who) view.
End list.

Record TaskCount := { c_ok : Z; c_warning : Z; c_error : Z; c_unknown : Z }.
Definition no_tasks : TaskCount := {| c_ok := 0; c_warning := 0; c_error := 0; c_unknown := 0 |}.
Record TaskStatistics := { by_type : gmap string TaskCount; by_remote : gmap string TaskCount }.

Definition add_count (s : TaskStateType) (c : TaskCount) : TaskCount :=
  match s with
  | StateOK => {| c_ok := c_ok c + 1; c_warning := c_warning c; c_error := c_error c; c_unknown := c_unknown c |}
  | StateWarning => {| c_ok := c_ok c; c_warning := c_warning c + 1; c_error := c_error c; c_unknown := c_unknown c |}
  | StateError => {| c_ok := c_ok c; c_warning := c_warning c; c_error := c_error c + 1; c_unknown := c_unknown c |}
  | StateUnknown => {| c_ok := c_ok c; c_warning := c_warning c; c_error := c_error c; c_unknown := c_unknown c + 1 |}
  end.
(** [entry(key).or_default()] and the increment *)
Definition count_in (key : string) (s : TaskStateType) (m : gmap string TaskCount) : gmap string TaskCount :=
  <[key := add_count s (default no_tasks (m !! key))]> m.

Section statistics.
Context `{UpidEnv} `{TaskJson} `{Reads}.
Context (views : result string (gmap string ViewConfig)).

Definition count_task (acc : TaskStatistics) (t : TaskListItem) : TaskStatistics :=
  match new_from_str <$> ti_status t with
  | None => acc
  | Some s =>
      let by_type := count_in (ti_worker_type t) s (by_type acc) in
      match from_str (ti_upid t) with
      | Ok u => {| by_type := by_type; by_remote := count_in (ru_remote u) s (by_remote acc) |}
      | Err _ => {| by_type := by_type; by_remote := by_remote acc |}
      end
  end.
Definition task_statistics (who : caller) (seen : nat) (filters : TaskFilters) (remote view : option string)
    : IO TaskStatistics :=
  tasks ← list_tasks views who seen filters remote view;
  mret (foldl count_task {| by_type := ∅; by_remote := ∅ |} tasks).

(** *** Refreshing on request *)
Record modifier := { may_modify : string → bool; may_modify_any : bool }.
Inductive select_error := Forbidden | UnknownRemote.
Fixpoint select_remotes (who : modifier) (config : list (string * RemoteType)) (names : list string)
    : result select_error (list (string * RemoteType)) :=
  match names with
  | [] => Ok []
  | name :: rest =>
      _ ← bail_if (negb (may_modify who name)) Forbidden;
      r ← ok_or (find_by (λ r, String.eqb r.1 name) config) UnknownRemote;
      l ← select_remotes who config rest;
      mret (r :: l)
  end.
(** The remotes [refresh_remote_tasks] passes to its worker *)
Definition remotes_to_refresh (who : modifier) (config : list (string * RemoteType)) (names : option (list string))
    : result select_error (list (string * RemoteType)) :=
  match names with
  | Some names => select_remotes who config names
  | None =>
      _ ← bail_if (negb (may_modify_any who)) Forbidden;
      mret (List.filter (λ r, may_modify who r.1) config)
  end.

(** [track_running_pve_task] and [track_running_pbs_task]: [start] is the start time of the
    native UPID [raw] *)
Definition track_running_task (remote raw : string) (start : Z) : IO RemoteUpid :=
  match try_from_pair remote raw with
  | Err _ => fail (Error OtherIo ["invalid upid"])
  | Ok u =>
      _ ← lock;
      _ ← add_tracked_task {| upid := u; starttime := start; status := None; endtime := None |};
      mret u
  end.
End statistics.

(** An [IO] program that returned went through each of its steps. *)
Lemma io_bind_ok {A B} (m : IO A) (f : A → IO B) w b w' :
  (m ≫= f) w = (Ok b, w') → ∃ a w1, m w = (Ok a, w1) ∧ f a w1 = (Ok b, w').
Proof. unfold mbind, IO_bind. destruct (m w) as [[a|e] w1]; [eauto | done]. Qed.

Section props.
Context `{UpidEnv} `{TaskJson} `{SteadyReads}.
Context (views : result string (gmap string ViewConfig)).

Lemma list_cached_ok seen filters remote privs view w l w' :
  list_cached_tasks views seen filters remote privs view w = (Ok l, w') →
  ∃ v r, get_optional_view views view = Ok v ∧ l = page filters (shown_tasks filters remote v privs r).
Proof.
  intros (v & w1 & Hv & (u & w2 & _ & (r & w3 & _ & (u' & w4 & _ & [= <- _])%io_bind_ok)%io_bind_ok)%io_bind_ok)%io_bind_ok.
  exists v, r.1. split; [| done]. destruct (get_optional_view views view); [by injection Hv as -> _ | done].
Qed.

Lemma page_elem filters l i : i ∈ page filters l → i ∈ l.
Proof.
  unfold page. destruct (f_limit filters =? 0).
  - intros Hi. eapply sublist_subseteq; [apply sublist_drop | done].
  - intros Hi. eapply sublist_subseteq; [apply sublist_drop |].
    eapply sublist_subseteq; [apply sublist_take | done].
Qed.

Lemma shown_task_inv remote v privs t i : shown_task remote v privs t = Some i →
  ti_upid i = to_string (upid t) ∧ (∀ r, remote = Some r → ru_remote (upid t) = r) ∧
  visible_node v privs (ru_remote (upid t)) (ti_node i) = true.
Proof.
  unfold shown_task.
  assert (∀ f o, (if visible_node v privs (ru_remote (upid t)) (nu_node f) then Some (list_item t f o) else None) = Some i →
    ti_upid i = to_string (upid t) ∧ visible_node v privs (ru_remote (upid t)) (ti_node i) = true) as Hitem.
  { intros f o. destruct (visible_node _ _ _ _) eqn:E; [| done]. by intros [= <-]. }
  destruct (match remote with Some r => _ | None => _ end) eqn:Er; [done |].
  assert (∀ r, remote = Some r → ru_remote (upid t) = r) as Hrem.
  { intros r ->. by apply negb_false_iff, String.eqb_eq in Er. }
  destruct (native_upid (upid t)) as [[f|f]|]; [| | done]; intros [? ?]%Hitem; done.
Qed.

(** The task list is confined to what its caller may see: with a view the caller holds the
    privilege on it and every task ran on a node of the view; without one the caller holds the
    privilege on the remote of every task.  A remote given as filter is obeyed. *)
Theorem task_list_authorised (who : caller) (seen : nat) (filters : TaskFilters) (remote view : option string)
    (w w' : world) (l : list TaskListItem) :
  list_tasks views who seen filters remote view w = (Ok l, w') →
  ∀ i, i ∈ l → ∃ u, ti_upid i = to_string u ∧ (∀ r, remote = Some r → ru_remote u = r) ∧
    match view with
    | Some id => may_view who id = true ∧
        ∃ v, get_view views id = Ok v ∧ is_node_included v (ru_remote u) (ti_node i) = true
    | None => may_remote who (ru_remote u) = true
    end.
Proof.
  intros (u0 & w1 & Hpriv & (v & r & Hv & ->)%list_cached_ok)%io_bind_ok i Hi%page_elem.
  apply list_elem_of_In, filter_In in Hi as [Hi%list_elem_of_In _].
  apply elem_of_filter_map in Hi as (t & _ & (Hu & Hrem & Hvis)%shown_task_inv). exists (upid t). split_and!; [done | done |].
  destruct view as [id|]; simpl in Hv.
  - destruct (may_view who id); [| done]. split; [done |]. destruct (get_view views id) as [v'|]; [| done].
    injection Hv as <-. by exists v'.
  - by injection Hv as <-.
Qed.

Definition with_page (start limit : Z) (f : TaskFilters) : TaskFilters := {|
  f_start := start; f_limit := limit; f_errors := f_errors f; f_running := f_running f;
  f_userfilter := f_userfilter f; f_since := f_since f; f_until := f_until f;
  f_typefilter := f_typefilter f; f_statusfilter := f_statusfilter f |}.

(** A page of the task list is that part of the whole list: what the cache returns for [start]
    and a positive [limit] is the slice of what it returns for no limit, so consecutive pages
    show every matching task once. *)
Theorem task_pages (seen seen' : nat) (filters : TaskFilters) (remote view : option string)
    (privs : string → bool) (w w' : world) (all : list TaskListItem) (start limit : Z) :
  list_cached_tasks views seen' (with_page 0 0 filters) remote privs view w = (Ok all, w') → 0 < limit →
  (list_cached_tasks views seen (with_page start limit filters) remote privs view w).1
  = Ok (take (Z.to_nat limit) (drop (Z.to_nat start) all)).
Proof.
  intros (v & w1 & Hv & (u & w2 & Hl & (r & w3 & Hr & (u' & w4 & _ & [= <- _])%io_bind_ok)%io_bind_ok)%io_bind_ok)%io_bind_ok Hlim.
  unfold list_cached_tasks. unfold mbind, IO_bind. rw Hv Hl. cbn [f_running with_page] in *. rw Hr.
  change (shown_tasks (with_page start limit filters)) with (shown_tasks (with_page 0 0 filters)).
  unfold page. cbn [f_limit f_start with_page Z.eqb Z.to_nat]. rw drop_0.
  assert ((limit =? 0) = false) as -> by (apply Z.eqb_neq; lia).
  destruct (take seen r.2) as [|f c]; [done |]. unfold attempt.
  by destruct (match lock w3 with (Ok _, _) => _ | _ => _ end) as [? ?].
Qed.
End props.

(** ** Statistics *)
Section statistics.
Context `{UpidEnv}.
Implicit Types (l : list TaskListItem) (i : TaskListItem).

(** The number of tasks of [l] with a key and a state *)
Definition tally (key : TaskListItem → option string) (k : string) (s : TaskStateType) l : Z :=
  Z.of_nat (length (base.filter (λ i, key i = Some k ∧ new_from_str <$> ti_status i = Some s) l)).
Definition tallies key k l : TaskCount := {|
  c_ok := tally key k StateOK l; c_warning := tally key k StateWarning l;
  c_error := tally key k StateError l; c_unknown := tally key k StateUnknown l |}.
Definition remote_key i : option string :=
  match from_str (ti_upid i) with Ok u => Some (ru_remote u) | Err _ => None end.
Definition type_key i : option string := Some (ti_worker_type i).

Lemma tally_snoc key k s l i : tally key k s (l ++ [i])
  = tally key k s l + (if decide (key i = Some k ∧ new_from_str <$> ti_status i = Some s) then 1 else 0).
Proof. unfold tally. rw filter_app length_app filter_cons. case_decide; simpl; lia. Qed.

(** Counting one more task under its key *)
Lemma count_in_tallies key k l i s (m : gmap string TaskCount) kk : new_from_str <$> ti_status i = Some s →
  key i = Some kk → default no_tasks (m !! k) = tallies key k l →
  default no_tasks (count_in kk s m !! k) = tallies key k (l ++ [i]).
Proof.
  intros Hs Hk Hm. unfold count_in, tallies. rw !tally_snoc Hs Hk.
  destruct (decide (kk = k)) as [-> | Hne].
  - rw lookup_insert_eq /= Hm. unfold tallies. 
    destruct s; simpl; repeat case_decide; naive_solver (f_equal; lia).
  - rw lookup_insert_ne // Hm. unfold tallies. rw !decide_False; [by intros [[= ?] _].. |]. by rw !Z.add_0_r.
Qed.
Lemma skipped_tallies key k l i : (new_from_str <$> ti_status i = None ∨ key i = None) →
  tallies key k (l ++ [i]) = tallies key k l.
Proof.
  intros Hi. unfold tallies. rw !tally_snoc !decide_False; [by intros [? ?]; destruct Hi; congruence.. |].
  by rw !Z.add_0_r.
Qed.

(** The statistics count every listed task with a status once: under its type, and under its
    remote if its UPID parses, in the field of its state. *)
Theorem task_statistics_counts (l : list TaskListItem) (k : string) :
  let st := foldl count_task {| by_type := ∅; by_remote := ∅ |} l in
  default no_tasks (by_type st !! k) = tallies type_key k l ∧
  default no_tasks (by_remote st !! k) = tallies remote_key k l.
Proof.
  induction l as [|i l IH] using rev_ind; [done |]. cbv zeta in *. rw foldl_app. simpl.
  destruct IH as [Ht Hr]. unfold count_task at 1 3. destruct (new_from_str <$> ti_status i) as [s|] eqn:Es.
  - pose proof (count_in_tallies type_key k l i s _ (ti_worker_type i) Es eq_refl Ht) as Ht'.
    destruct (from_str (ti_upid i)) as [u|] eqn:Eu; simpl; (split; [done |]).
    + apply count_in_tallies; [done | unfold remote_key; by rw Eu | done].
    + rw skipped_tallies //. right. unfold remote_key. by rw Eu.
  - rw !skipped_tallies; auto.
Qed.
End statistics.

(** ** Examples *)
Definition ex_who : caller := {|
  may_view _ := true; may_any := true; may_remote r := String.eqb r "pve-remote" |}.
Definition ex_one_task : dir :=
  <[archive_path 1000 false := write_tasks [ex_task 1200 (Some 1210)]]> ∅.
Definition ex_filters : TaskFilters := {|
  f_start := 0; f_limit := 50; f_errors := false; f_running := false; f_userfilter := Some "root";
  f_since := None; f_until := None; f_typefilter := None; f_statusfilter := None |}.

Lemma task_list_authorised_witness :
  let '(r, _) := list_tasks (Ok ∅) ex_who 0 ex_filters None None (quiet_world ex_one_task) in
  match r with
  | Ok l => length l = 1%nat ∧ ∀ i, i ∈ l → ∃ u, ti_upid i = to_string u ∧ may_remote ex_who (ru_remote u) = true
  | Err _ => False
  end.
Proof.
  destruct (list_tasks (Ok ∅) ex_who 0 ex_filters None None (quiet_world ex_one_task)) as [[l|e] w'] eqn:E.
  - split; [vm_compute in E; injection E as <- _; reflexivity |]. intros i Hi.
    destruct (task_list_authorised (Ok ∅) ex_who 0 ex_filters None None _ _ l E i Hi) as (u & Hu & _ & Hp).
    exists u. split; [exact Hu | exact Hp].
  - vm_compute in E. discriminate.
Defined.

Lemma task_pages_witness :
  let '(r, _) := list_cached_tasks (Ok ∅) 0 (with_page 0 0 ex_filters) None (λ _, true) None (quiet_world ex_one_task) in
  match r with
  | Ok all => (list_cached_tasks (Ok ∅) 0 (with_page 0 2 ex_filters) None (λ _, true) None (quiet_world ex_one_task)).1
              = Ok (take 2 (drop 0 all))
  | Err _ => False
  end.
Proof.
  destruct (list_cached_tasks (Ok ∅) 0 (with_page 0 0 ex_filters) None (λ _, true) None (quiet_world ex_one_task))
    as [[all|e] w'] eqn:E.
  - apply (task_pages (Ok ∅) 0 0 ex_filters None None (λ _, true) _ w' all 0 2 E). reflexivity.
  - vm_compute in E. discriminate.
Defined.

(** A view of one node of a PBS remote, and a task of that node *)
Definition ex_pbs_view : ViewConfig := {|
  view_id := "backup"; include_all := None; include := [RuleId (Exact "remote/pbs/node/localhost")];
  exclude := []; layout := "" |}.
Definition ex_pbs_task : TaskCacheItem := {|
  upid := {| ru_remote := "pbs"; ru_type := Pbs; ru_upid := "UPID:backup:1450" |};
  starttime := 1450; status := Some "OK"; endtime := Some 1460 |}.

(** A view that includes the node of a PBS remote does not include its tasks: the resource of
    the node is named [localhost], the task list compares the host name in the UPID. *)
Theorem pbs_tasks_not_in_view :
  let node := map_pbs_node_status "pbs" {| ns_cpu := f64_zero; ns_cpus := 4; ns_mem_used := 0;
                                           ns_mem_total := 0; ns_uptime := 1 |} in
  resource_matches ex_pbs_view "pbs" node = true ∧
  shown_task None (Some ex_pbs_view) (λ _, true) ex_pbs_task = None ∧
  is_Some (shown_task None None (λ _, true) ex_pbs_task).
Proof. vm_compute. split_and!; [done | done | by eexists]. Qed.
