(* ===== verification/ResourceStatus.v ===== *)
(** * Counting resources

    [get_status] of server/src/api/resources.rs: the dashboard numbers over all resources that a
    caller may see.  The counters are [u64] and wrap; [update_field] gives the function that
    changes one field of a record. *)
From S2P Require Import Prelude RustStr Remotes Search Resources Views ResourceList.

#[local] Open Scope string_scope.

(** ** The result *)
Record GuestStatusCount := { gc_running : Z; gc_stopped : Z; gc_template : Z; gc_unknown : Z }.
Record NodeStatusCount := { nc_online : Z; nc_offline : Z; nc_unknown : Z }.
Record StorageStatusCount := { sc_available : Z; sc_unknown : Z }.
Record PbsDatastoreStatusCount := {
  dc_online : Z; dc_under_maintenance : option Z; dc_high_usage : option Z; dc_unknown : option Z;
  dc_removable : option Z; dc_s3_backend : option Z;
}.
Record SdnZoneCount := { zc_available : Z; zc_pending : Z; zc_error : Z; zc_unknown : Z }.
Record CpuStatistics := { cs_used : f64; cs_max : f64; cs_allocated : option f64 }.
(** [MemoryStatus] and [StorageStatus] *)
Record Usage := { us_total : Z; us_used : Z; us_avail : Z }.
Inductive RemoteStatus := StatusGood | StatusWarning | StatusError | StatusUnknown.
Record RemoteInfo := {
  ri_name : string; ri_ty : RemoteType; ri_messages : list string; ri_status : RemoteStatus;
}.
Record FailedRemote := { fr_name : string; fr_error : string; fr_type : RemoteType }.
Record ResourcesStatus := {
  remotes : Z; failed_remotes : Z; pve_nodes : NodeStatusCount; qemu : GuestStatusCount;
  lxc : GuestStatusCount; storages : StorageStatusCount; sdn_zones : SdnZoneCount;
  pbs_nodes : NodeStatusCount; pbs_datastores : PbsDatastoreStatusCount;
  pve_cpu_stats : CpuStatistics; pbs_cpu_stats : CpuStatistics;
  pve_memory_stats : Usage; pbs_memory_stats : Usage;
  pve_storage_stats : Usage; pbs_storage_stats : Usage;
  failed_remotes_list : list FailedRemote; remote_list : list RemoteInfo;
}.
Global Instance RemoteStatus_eq_dec : EqDecision RemoteStatus.
Proof. solve_decision. Defined.

Definition guests_none : GuestStatusCount := {| gc_running := 0; gc_stopped := 0; gc_template := 0; gc_unknown := 0 |}.
Definition nodes_none : NodeStatusCount := {| nc_online := 0; nc_offline := 0; nc_unknown := 0 |}.
Definition cpu_none : CpuStatistics := {| cs_used := f64_zero; cs_max := f64_zero; cs_allocated := None |}.
Definition usage_none : Usage := {| us_total := 0; us_used := 0; us_avail := 0 |}.
Definition status_default : ResourcesStatus := {|
  remotes := 0; failed_remotes := 0; pve_nodes := nodes_none; qemu := guests_none; lxc := guests_none;
  storages := {| sc_available := 0; sc_unknown := 0 |};
  sdn_zones := {| zc_available := 0; zc_pending := 0; zc_error := 0; zc_unknown := 0 |};
  pbs_nodes := nodes_none;
  pbs_datastores := {| dc_online := 0; dc_under_maintenance := None; dc_high_usage := None;
                       dc_unknown := None; dc_removable := None; dc_s3_backend := None |};
  pve_cpu_stats := cpu_none; pbs_cpu_stats := cpu_none;
  pve_memory_stats := usage_none; pbs_memory_stats := usage_none;
  pve_storage_stats := usage_none; pbs_storage_stats := usage_none;
  failed_remotes_list := []; remote_list := [] |}.

(** ** Changing a field

    [eta] rebuilds a record from its fields; replacing a projection in it changes that field. *)
Ltac update_field eta proj f :=
  let t := eval cbv delta [eta] in eta in
  let t := eval pattern proj in t in
  match t with ?g _ => let t := eval cbv beta in (g (λ r, f (proj r))) in exact t end.

Definition guest_eta (c : GuestStatusCount) : GuestStatusCount := {|
  gc_running := gc_running c; gc_stopped := gc_stopped c; gc_template := gc_template c; gc_unknown := gc_unknown c |}.
Definition node_eta (c : NodeStatusCount) : NodeStatusCount := {|
  nc_online := nc_online c; nc_offline := nc_offline c; nc_unknown := nc_unknown c |}.
Definition datastore_eta (c : PbsDatastoreStatusCount) : PbsDatastoreStatusCount := {|
  dc_online := dc_online c; dc_under_maintenance := dc_under_maintenance c; dc_high_usage := dc_high_usage c;
  dc_unknown := dc_unknown c; dc_removable := dc_removable c; dc_s3_backend := dc_s3_backend c |}.
Definition zone_eta (c : SdnZoneCount) : SdnZoneCount := {|
  zc_available := zc_available c; zc_pending := zc_pending c; zc_error := zc_error c; zc_unknown := zc_unknown c |}.
Definition status_eta (s : ResourcesStatus) : ResourcesStatus := {|
  remotes := remotes s; failed_remotes := failed_remotes s; pve_nodes := pve_nodes s; qemu := qemu s;
  lxc := lxc s; storages := storages s; sdn_zones := sdn_zones s; pbs_nodes := pbs_nodes s;
  pbs_datastores := pbs_datastores s; pve_cpu_stats := pve_cpu_stats s; pbs_cpu_stats := pbs_cpu_stats s;
  pve_memory_stats := pve_memory_stats s; pbs_memory_stats := pbs_memory_stats s;
  pve_storage_stats := pve_storage_stats s; pbs_storage_stats := pbs_storage_stats s;
  failed_remotes_list := failed_remotes_list s; remote_list := remote_list s |}.

(** [+= 1] on a counter, and on one behind [get_or_insert_default] *)
Definition one_more (n : Z) : Z := u64 (n + 1).
Definition some_more (o : option Z) : option Z := Some (one_more (default 0%Z o)).

Definition up_qemu f : ResourcesStatus → ResourcesStatus := ltac:(update_field status_eta qemu f).
Definition up_lxc f : ResourcesStatus → ResourcesStatus := ltac:(update_field status_eta lxc f).
Definition up_storages f : ResourcesStatus → ResourcesStatus := ltac:(update_field status_eta storages f).
Definition up_zones f : ResourcesStatus → ResourcesStatus := ltac:(update_field status_eta sdn_zones f).
Definition up_pve_nodes f : ResourcesStatus → ResourcesStatus := ltac:(update_field status_eta pve_nodes f).
Definition up_pbs_nodes f : ResourcesStatus → ResourcesStatus := ltac:(update_field status_eta pbs_nodes f).
Definition up_datastores f : ResourcesStatus → ResourcesStatus := ltac:(update_field status_eta pbs_datastores f).
Definition up_pve_cpu f : ResourcesStatus → ResourcesStatus := ltac:(update_field status_eta pve_cpu_stats f).
Definition up_pbs_cpu f : ResourcesStatus → ResourcesStatus := ltac:(update_field status_eta pbs_cpu_stats f).
Definition up_pve_memory f : ResourcesStatus → ResourcesStatus := ltac:(update_field status_eta pve_memory_stats f).
Definition up_pbs_memory f : ResourcesStatus → ResourcesStatus := ltac:(update_field status_eta pbs_memory_stats f).
Definition up_pve_storage f : ResourcesStatus → ResourcesStatus := ltac:(update_field status_eta pve_storage_stats f).
Definition up_pbs_storage f : ResourcesStatus → ResourcesStatus := ltac:(update_field status_eta pbs_storage_stats f).
Definition up_remotes f : ResourcesStatus → ResourcesStatus := ltac:(update_field status_eta remotes f).
Definition up_failed f : ResourcesStatus → ResourcesStatus := ltac:(update_field status_eta failed_remotes f).
Definition up_failed_list f : ResourcesStatus → ResourcesStatus := ltac:(update_field status_eta failed_remotes_list f).
Definition up_remote_list f : ResourcesStatus → ResourcesStatus := ltac:(update_field status_eta remote_list f).

Definition count_running : GuestStatusCount → GuestStatusCount := ltac:(update_field guest_eta gc_running one_more).
Definition count_stopped : GuestStatusCount → GuestStatusCount := ltac:(update_field guest_eta gc_stopped one_more).
Definition count_template : GuestStatusCount → GuestStatusCount := ltac:(update_field guest_eta gc_template one_more).
Definition count_unknown_guest : GuestStatusCount → GuestStatusCount := ltac:(update_field guest_eta gc_unknown one_more).
Definition count_online : NodeStatusCount → NodeStatusCount := ltac:(update_field node_eta nc_online one_more).
Definition count_offline : NodeStatusCount → NodeStatusCount := ltac:(update_field node_eta nc_offline one_more).
Definition count_unknown_node : NodeStatusCount → NodeStatusCount := ltac:(update_field node_eta nc_unknown one_more).
Definition count_zone (s : SdnStatus) : SdnZoneCount → SdnZoneCount :=
  match s with
  | SdnAvailable => ltac:(update_field zone_eta zc_available one_more)
  | SdnError => ltac:(update_field zone_eta zc_error one_more)
  | SdnPending => ltac:(update_field zone_eta zc_pending one_more)
  | SdnUnknown => ltac:(update_field zone_eta zc_unknown one_more)
  end.
Definition up_online : PbsDatastoreStatusCount → PbsDatastoreStatusCount := ltac:(update_field datastore_eta dc_online one_more).
Definition up_maintenance : PbsDatastoreStatusCount → PbsDatastoreStatusCount := ltac:(update_field datastore_eta dc_under_maintenance some_more).
Definition up_high_usage : PbsDatastoreStatusCount → PbsDatastoreStatusCount := ltac:(update_field datastore_eta dc_high_usage some_more).
Definition up_removable : PbsDatastoreStatusCount → PbsDatastoreStatusCount := ltac:(update_field datastore_eta dc_removable some_more).
Definition up_s3 : PbsDatastoreStatusCount → PbsDatastoreStatusCount := ltac:(update_field datastore_eta dc_s3_backend some_more).
Definition up_unknown_store : PbsDatastoreStatusCount → PbsDatastoreStatusCount := ltac:(update_field datastore_eta dc_unknown some_more).

Definition add_usage (total used : Z) (u : Usage) : Usage := {|
  us_total := u64 (us_total u + total); us_used := u64 (us_used u + used);
  us_avail := u64 (us_avail u + u64 (total - used)) |}.
Definition add_cpu (cpu max : f64) (c : CpuStatistics) : CpuStatistics := {|
  cs_used := f64_add (cs_used c) (f64_mul cpu max); cs_max := f64_add (cs_max c) max;
  cs_allocated := cs_allocated c |}.

(** ** The loop over the resources of a remote *)
Record count_acc := {
  ca_counts : ResourcesStatus;
  ca_allocated : f64;               (* pve_cpu_allocated *)
  ca_status : RemoteStatus;         (* remote_status *)
  ca_messages : list string;        (* remote_messages *)
  ca_seen : gset string;            (* seen_storages *)
}.
Definition on_counts (f : ResourcesStatus → ResourcesStatus) (a : count_acc) : count_acc := {|
  ca_counts := f (ca_counts a); ca_allocated := ca_allocated a; ca_status := ca_status a;
  ca_messages := ca_messages a; ca_seen := ca_seen a |}.
Definition allocate (maxcpu : f64) (a : count_acc) : count_acc := {|
  ca_counts := ca_counts a; ca_allocated := f64_add (ca_allocated a) maxcpu; ca_status := ca_status a;
  ca_messages := ca_messages a; ca_seen := ca_seen a |}.
Definition warn (msg : string) (a : count_acc) : count_acc := {|
  ca_counts := ca_counts a; ca_allocated := ca_allocated a;
  ca_status := if decide (ca_status a = StatusGood) then StatusWarning else ca_status a;
  ca_messages := ca_messages a ++ [msg]; ca_seen := ca_seen a |}.
Definition see_storage (storage : string) (a : count_acc) : count_acc := {|
  ca_counts := ca_counts a; ca_allocated := ca_allocated a; ca_status := ca_status a;
  ca_messages := ca_messages a; ca_seen := {[ storage ]} ∪ ca_seen a |}.

Definition count_storage (r : PveStorageResource) (a : count_acc) : count_acc :=
  let a := on_counts (up_storages (λ c,
             if String.eqb (st_status r) "available"
             then {| sc_available := one_more (sc_available c); sc_unknown := sc_unknown c |}
             else {| sc_available := sc_available c; sc_unknown := one_more (sc_unknown c) |})) a in
  if negb (st_shared r) || negb (bool_decide (st_storage r ∈ ca_seen a))
  then see_storage (st_storage r) (on_counts (up_pve_storage (add_usage (st_maxdisk r) (st_disk r))) a)
  else a.

Definition count_guest (up : (GuestStatusCount → GuestStatusCount) → ResourcesStatus → ResourcesStatus)
    (r : GuestResource) (a : count_acc) : count_acc :=
  if g_template r then on_counts (up count_template) a
  else if String.eqb (g_status r) "running" then allocate (g_maxcpu r) (on_counts (up count_running) a)
  else if String.eqb (g_status r) "stopped" then on_counts (up count_stopped) a
  else on_counts (up count_unknown_guest) a.

Definition count_pve_node (r : PveNodeResource) (a : count_acc) : count_acc :=
  let a := if String.eqb (pn_status r) "online" then on_counts (up_pve_nodes count_online) a
           else if String.eqb (pn_status r) "offline"
                then on_counts (up_pve_nodes count_offline) (warn ("Node '" ++ pn_node r ++ "' is offline") a)
                else on_counts (up_pve_nodes count_unknown_node) a in
  on_counts (λ s, up_pve_memory (add_usage (pn_maxmem r) (pn_mem r))
                    (up_pve_cpu (add_cpu (pn_cpu r) (pn_maxcpu r)) s)) a.

Definition count_network (r : PveNetworkResource) (a : count_acc) : count_acc :=
  match r with
  | Zone z =>
      on_counts (up_zones (count_zone (zone_status z)))
        match zone_status z with
        | SdnError => warn ("SDN zone '" ++ zone_network z ++ "' has an error") a
        | _ => a
        end
  | Fabric _ => a
  end.

Definition count_pbs_node (r : PbsNodeResource) (a : count_acc) : count_acc :=
  on_counts (λ s, up_pbs_memory (add_usage (bn_maxmem r) (bn_mem r))
                    (up_pbs_cpu (add_cpu (bn_cpu r) (bn_maxcpu r)) (up_pbs_nodes count_online s))) a.

Definition datastore_counts (r : PbsDatastoreResource) (c : PbsDatastoreStatusCount) : PbsDatastoreStatusCount :=
  let c := match ds_maintenance r with None => up_online c | Some _ => up_maintenance c end in
  let c := if f64_gt (ds_usage r) PBS_DATASTORE_HIGH_USAGE_THRESHOLD then up_high_usage c else c in
  let c := match ds_backing_device r with Some _ => up_removable c | None => c end in
  match ds_backend_type r with
  | Some b => if String.eqb b "s3" then up_s3 c else if String.eqb b "unknown" then up_unknown_store c else c
  | None => c
  end.
Definition count_datastore (r : PbsDatastoreResource) (a : count_acc) : count_acc :=
  on_counts (λ s, up_pbs_storage (add_usage (ds_maxdisk r) (ds_disk r)) (up_datastores (datastore_counts r) s)) a.

Definition count_resource (a : count_acc) (r : Resource) : count_acc :=
  match r with
  | PveStorage r => count_storage r a
  | PveQemu r => count_guest up_qemu r a
  | PveLxc r => count_guest up_lxc r a
  | PveNode r => count_pve_node r a
  | PveNetwork r => count_network r a
  | PbsNode r => count_pbs_node r a
  | PbsDatastore r => count_datastore r a
  end.

(** ** The loop over the remotes *)
Definition count_remote (acc : ResourcesStatus * f64) (r : RemoteWithResources) : ResourcesStatus * f64 :=
  let counts :=
    match rwr_error r with
    | Some err =>
        up_failed_list (λ l, l ++ [{| fr_name := remote_name r; fr_error := err; fr_type := rwr_ty r |}])%list
          (up_failed one_more acc.1)
    | None => up_remotes one_more acc.1
    end in
  let a := foldl count_resource
             {| ca_counts := counts; ca_allocated := acc.2;
                ca_status := match rwr_error r with Some _ => StatusError | None => StatusGood end;
                ca_messages := match rwr_error r with Some e => [e] | None => [] end;
                ca_seen := ∅ |} (resources r) in
  (up_remote_list (λ l, l ++ [{| ri_name := remote_name r; ri_ty := rwr_ty r;
                                 ri_messages := ca_messages a; ri_status := ca_status a |}])%list (ca_counts a),
   ca_allocated a).

Section status.
Context `{LowerEnv}.

Definition get_status (E : list_env) (who : option caller) (view : option string)
    : result list_error ResourcesStatus :=
  l ← get_resources_impl E who None None view;
  let '(counts, allocated) := foldl count_remote (status_default, f64_zero) l in
  mret (up_pve_cpu (λ c, {| cs_used := cs_used c; cs_max := cs_max c; cs_allocated := Some allocated |}) counts).
End status.
