(* ===== verification/ResourceStatusFacts.v ===== *)
(** * The dashboard numbers against a reference

    [status_reference] reads every number off the listing directly, as the fields are documented:
    how many resources are of a kind, the sums over them, and what is wrong with a remote.  Two
    fields of the code differ from it: [remotes] leaves out the remotes that failed, and every
    PBS node counts as online. *)
From S2P Require Import Prelude RustStr Remotes Search Resources Views ResourceList ResourceStatus.

#[local] Open Scope string_scope.

(** ** The reference *)
Definition tally {A} (P : A → bool) (l : list A) : Z := u64 (Z.of_nat (length (List.filter P l))).
Definition tally_opt {A} (P : A → bool) (l : list A) : option Z :=
  match List.filter P l with [] => None | l' => Some (u64 (Z.of_nat (length l'))) end.

Definition qemu_of (r : Resource) : option GuestResource := match r with PveQemu g => Some g | _ => None end.
Definition lxc_of (r : Resource) : option GuestResource := match r with PveLxc g => Some g | _ => None end.
Definition pve_node_of (r : Resource) : option PveNodeResource := match r with PveNode n => Some n | _ => None end.
Definition storage_of (r : Resource) : option PveStorageResource := match r with PveStorage s => Some s | _ => None end.
Definition zone_of (r : Resource) : option NetworkZoneResource :=
  match r with PveNetwork (Zone z) => Some z | _ => None end.
Definition pbs_node_of (r : Resource) : option PbsNodeResource := match r with PbsNode n => Some n | _ => None end.
Definition datastore_of (r : Resource) : option PbsDatastoreResource :=
  match r with PbsDatastore d => Some d | _ => None end.

Definition guest_is_running (g : GuestResource) : bool := negb (g_template g) && String.eqb (g_status g) "running".
Definition is_stopped (g : GuestResource) : bool := negb (g_template g) && String.eqb (g_status g) "stopped".
Definition guests_of (l : list GuestResource) : GuestStatusCount := {|
  gc_running := tally guest_is_running l; gc_stopped := tally is_stopped l; gc_template := tally g_template l;
  gc_unknown := tally (λ g, negb (g_template g || guest_is_running g || is_stopped g)) l |}.
Definition is_online (n : PveNodeResource) : bool := String.eqb (pn_status n) "online".
Definition is_offline (n : PveNodeResource) : bool := String.eqb (pn_status n) "offline".
Definition is_available (s : PveStorageResource) : bool := String.eqb (st_status s) "available".
Definition zone_is (s : SdnStatus) (z : NetworkZoneResource) : bool :=
  match s, zone_status z with
  | SdnAvailable, SdnAvailable | SdnError, SdnError | SdnPending, SdnPending | SdnUnknown, SdnUnknown => true
  | _, _ => false
  end.

Definition sum_Z {A} (f : A → Z) (l : list A) : Z := foldr Z.add 0%Z (f <$> l).
Definition usage_of {A} (total used : A → Z) (l : list A) : Usage := {|
  us_total := u64 (sum_Z total l); us_used := u64 (sum_Z used l);
  us_avail := u64 (sum_Z total l - sum_Z used l) |}.
Definition sum_f64 {A} (f : A → f64) (l : list A) : f64 := foldl (λ s x, f64_add s (f x)) f64_zero l.
Definition cpu_of {A} (cpu max : A → f64) (l : list A) : CpuStatistics := {|
  cs_used := sum_f64 (λ x, f64_mul (cpu x) (max x)) l; cs_max := sum_f64 max l; cs_allocated := None |}.

(** The storages whose size counts: a shared one counts where its name comes first. *)
Fixpoint distinct_storages (before : gset string) (l : list PveStorageResource) : list PveStorageResource :=
  match l with
  | [] => []
  | s :: l =>
      let rest := distinct_storages ({[ st_storage s ]} ∪ before) l in
      if st_shared s && bool_decide (st_storage s ∈ before) then rest else s :: rest
  end.

Definition issue (r : Resource) : option string :=
  match r with
  | PveNode n => if is_offline n then Some ("Node '" ++ pn_node n ++ "' is offline") else None
  | PveNetwork (Zone z) =>
      if zone_is SdnError z then Some ("SDN zone '" ++ zone_network z ++ "' has an error") else None
  | _ => None
  end.
Definition remote_info (r : RemoteWithResources) : RemoteInfo :=
  let issues := omap issue (resources r) in
  {| ri_name := remote_name r; ri_ty := rwr_ty r;
     ri_messages := match rwr_error r with Some e => e :: issues | None => issues end;
     ri_status := match rwr_error r, issues with
                  | Some _, _ => StatusError
                  | None, [] => StatusGood
                  | None, _ => StatusWarning
                  end |}.
Definition failed_remote (r : RemoteWithResources) : option FailedRemote :=
  (λ e, {| fr_name := remote_name r; fr_error := e; fr_type := rwr_ty r |}) <$> rwr_error r.

Definition all_resources (l : list RemoteWithResources) : list Resource := concat (resources <$> l).
Definition has {A} (f : Resource → option A) (l : list RemoteWithResources) : list A := omap f (all_resources l).

Definition datastores_of (l : list PbsDatastoreResource) : PbsDatastoreStatusCount := {|
  dc_online := tally (λ d, bool_decide (ds_maintenance d = None)) l;
  dc_under_maintenance := tally_opt (λ d, bool_decide (is_Some (ds_maintenance d))) l;
  dc_high_usage := tally_opt (λ d, f64_gt (ds_usage d) PBS_DATASTORE_HIGH_USAGE_THRESHOLD) l;
  dc_unknown := tally_opt (λ d, bool_decide (ds_backend_type d = Some "unknown")) l;
  dc_removable := tally_opt (λ d, bool_decide (is_Some (ds_backing_device d))) l;
  dc_s3_backend := tally_opt (λ d, bool_decide (ds_backend_type d = Some "s3")) l |}.

Definition guest_of (r : Resource) : option GuestResource :=
  match r with PveQemu g | PveLxc g => Some g | _ => None end.

Definition no_error (r : RemoteWithResources) : bool := bool_decide (rwr_error r = None).
(** What [Resource::status] says of a PBS node *)
Definition pbs_is_up (n : PbsNodeResource) : bool := (0 <? bn_uptime n)%Z.

Definition status_reference (l : list RemoteWithResources) : ResourcesStatus := {|
  remotes := u64 (Z.of_nat (length l));
  failed_remotes := tally (λ r, bool_decide (is_Some (rwr_error r))) l;
  pve_nodes := {| nc_online := tally is_online (has pve_node_of l); nc_offline := tally is_offline (has pve_node_of l);
                  nc_unknown := tally (λ n, negb (is_online n || is_offline n)) (has pve_node_of l) |};
  qemu := guests_of (has qemu_of l);
  lxc := guests_of (has lxc_of l);
  storages := {| sc_available := tally is_available (has storage_of l);
                 sc_unknown := tally (λ s, negb (is_available s)) (has storage_of l) |};
  sdn_zones := {| zc_available := tally (zone_is SdnAvailable) (has zone_of l);
                  zc_pending := tally (zone_is SdnPending) (has zone_of l);
                  zc_error := tally (zone_is SdnError) (has zone_of l);
                  zc_unknown := tally (zone_is SdnUnknown) (has zone_of l) |};
  pbs_nodes := {| nc_online := tally pbs_is_up (has pbs_node_of l);
                  nc_offline := tally (λ n, negb (pbs_is_up n)) (has pbs_node_of l); nc_unknown := 0 |};
  pbs_datastores := datastores_of (has datastore_of l);
  pve_cpu_stats := {| cs_used := cs_used (cpu_of pn_cpu pn_maxcpu (has pve_node_of l));
                      cs_max := cs_max (cpu_of pn_cpu pn_maxcpu (has pve_node_of l));
                      cs_allocated := Some (sum_f64 g_maxcpu (List.filter guest_is_running (has guest_of l))) |};
  pbs_cpu_stats := cpu_of bn_cpu bn_maxcpu (has pbs_node_of l);
  pve_memory_stats := usage_of pn_maxmem pn_mem (has pve_node_of l);
  pbs_memory_stats := usage_of bn_maxmem bn_mem (has pbs_node_of l);
  pve_storage_stats := usage_of st_maxdisk st_disk
                         (concat ((λ r, distinct_storages ∅ (omap storage_of (resources r))) <$> l));
  pbs_storage_stats := usage_of ds_maxdisk ds_disk (has datastore_of l);
  failed_remotes_list := omap failed_remote l;
  remote_list := remote_info <$> l |}.

(** The numbers without the two fields *)
Definition other_numbers (s : ResourcesStatus) : ResourcesStatus :=
  up_remotes (λ _, 0%Z) (up_pbs_nodes (λ _, nodes_none) s).

#[local] Open Scope list_scope.

(** ** Tallies *)
Lemma tally_all {A} (P : A → bool) l : Forall (λ x, P x = true) l → tally P l = u64 (Z.of_nat (length l)).
Proof. intros Hl. unfold tally. do 3 f_equal. induction Hl as [|x l Hx Hl IH]; simpl; [done |]. by rw Hx IH. Qed.
Lemma tally_none {A} (P : A → bool) l : Forall (λ x, P x = false) l → tally P l = 0%Z.
Proof. intros Hl. unfold tally. induction Hl as [|x l Hx Hl IH]; simpl; [done |]. by rw Hx. Qed.

Lemma one_more_u64 n : one_more (u64 n) = u64 (n + 1).
Proof. unfold one_more, wrap_u. by rw Zplus_mod_idemp_l. Qed.

Lemma filter_snoc {A} (P : A → bool) l x :
  List.filter P (l ++ [x]) = if P x then List.filter P l ++ [x] else List.filter P l.
Proof. rw List.filter_app. simpl. destruct (P x); [done | by rw app_nil_r]. Qed.

Lemma tally_one_more {A} (P : A → bool) l x :
  tally P (l ++ [x]) = if P x then one_more (tally P l) else tally P l.
Proof.
  unfold tally. rw filter_snoc. destruct (P x); [| done].
  rw one_more_u64 length_app. simpl. f_equal. lia.
Qed.

Lemma tally_opt_snoc {A} (P : A → bool) l x :
  tally_opt P (l ++ [x]) = if P x then some_more (tally_opt P l) else tally_opt P l.
Proof.
  unfold tally_opt. rw filter_snoc. destruct (P x); [| done]. unfold some_more.
  destruct (List.filter P l) as [|y l']; [done |]. cbn [default app length].
  rw one_more_u64 length_app. cbn [length]. do 2 f_equal. lia.
Qed.

Lemma sum_Z_snoc {A} (f : A → Z) l x : sum_Z f (l ++ [x]) = (sum_Z f l + f x)%Z.
Proof. unfold sum_Z. rw fmap_app foldr_app. simpl. induction (f <$> l) as [|y l' IH]; simpl; [lia |]. rw IH. lia. Qed.
Lemma sum_f64_snoc {A} (f : A → f64) l x : sum_f64 f (l ++ [x]) = f64_add (sum_f64 f l) (f x).
Proof. unfold sum_f64. by rw foldl_snoc. Qed.
Lemma usage_snoc {A} (t u : A → Z) l x : usage_of t u (l ++ [x]) = add_usage (t x) (u x) (usage_of t u l).
Proof.
  unfold usage_of, add_usage. rw !sum_Z_snoc. f_equal; simpl; unfold wrap_u; rw ?Zplus_mod_idemp_l //.
  rw Zplus_mod_idemp_r. f_equal. lia.
Qed.
Lemma cpu_snoc {A} (c m : A → f64) l x : cpu_of c m (l ++ [x]) = add_cpu (c x) (m x) (cpu_of c m l).
Proof. unfold cpu_of, add_cpu. by rw !sum_f64_snoc. Qed.
Lemma omap_snoc {A B} (f : A → option B) l x :
  omap f (l ++ [x]) = omap f l ++ match f x with Some y => [y] | None => [] end.
Proof. rw omap_app. simpl. by destruct (f x). Qed.

(** ** The fold over all resources

    A field that the rest of a round does not touch is folded over the resources of all remotes. *)
Lemma inner_fold {X} (c : count_acc → X) (g : X → Resource → X) :
  (∀ a r, c (count_resource a r) = g (c a) r) → ∀ rs a, c (foldl count_resource a rs) = foldl g (c a) rs.
Proof. intros Hg rs. induction rs as [|r rs IH]; intros a; simpl; [done |]. by rw IH Hg. Qed.

Lemma field_fold {X} (c : ResourcesStatus → X) (g : X → Resource → X) l acc :
  (∀ a r, c (ca_counts (count_resource a r)) = g (c (ca_counts a)) r) →
  (∀ s f f' f'', c (up_failed_list f (up_failed f' s)) = c s ∧ c (up_remotes f' s) = c s
    ∧ c (up_remote_list f'' s) = c s) →
  c (foldl count_remote acc l).1 = foldl g (c acc.1) (all_resources l).
Proof.
  intros Hg Hc. revert acc. induction l as [|r l IH]; intros acc; simpl; [done |]. unfold all_resources. simpl.
  rw foldl_app IH. unfold count_remote. simpl. f_equal.
  rw (proj2 (proj2 (Hc _ id id _))) (inner_fold (λ a, c (ca_counts a)) g Hg). simpl. f_equal.
  destruct (rwr_error r); [apply (Hc _ _ _ id) | apply (Hc _ id _ id)].
Qed.

(** Folding a counter over the resources gives the reference if each step does. *)
Lemma fold_reference {A X} (f : Resource → option A) (ref : list A → X) (g : X → Resource → X) l :
  (∀ rs r, ref (omap f (rs ++ [r])) = g (ref (omap f rs)) r) →
  foldl g (ref []) (all_resources l) = ref (has f l).
Proof.
  intros Hg. unfold has. induction (all_resources l) as [|r rs IH] using rev_ind; [done |].
  by rw foldl_snoc IH Hg.
Qed.

(** The field [c] of the counts is the reference [ref] of the resources that [f] selects, if the
    step of the loop changes it by [g] and so does the reference. *)
Lemma field_reference {A X} (f : Resource → option A) (c : ResourcesStatus → X) (ref : list A → X)
    (g : A → X → X) l :
  (∀ a r, c (ca_counts (count_resource a r)) = match f r with Some x => g x (c (ca_counts a)) | None => c (ca_counts a) end) →
  (∀ s f f' f'', c (up_failed_list f (up_failed f' s)) = c s ∧ c (up_remotes f' s) = c s
    ∧ c (up_remote_list f'' s) = c s) →
  c status_default = ref [] →
  (∀ xs x, ref (xs ++ [x]) = g x (ref xs)) →
  c (foldl count_remote (status_default, f64_zero) l).1 = ref (has f l).
Proof.
  intros Hg Hc H0 Href.
  rw (field_fold c (λ v r, match f r with Some x => g x v | None => v end)) //=. rw H0.
  apply fold_reference. intros rs r. rw omap_snoc. destruct (f r); [apply Href | by rw app_nil_r].
Qed.

(** ** The fields *)

(** What a resource adds to the counters of its kind *)
Definition guest_bucket (g : GuestResource) : GuestStatusCount → GuestStatusCount :=
  if g_template g then count_template
  else if String.eqb (g_status g) "running" then count_running
  else if String.eqb (g_status g) "stopped" then count_stopped else count_unknown_guest.
Definition node_bucket (n : PveNodeResource) : NodeStatusCount → NodeStatusCount :=
  if is_online n then count_online else if is_offline n then count_offline else count_unknown_node.
Definition storage_bucket (s : PveStorageResource) (c : StorageStatusCount) : StorageStatusCount :=
  if is_available s then {| sc_available := one_more (sc_available c); sc_unknown := sc_unknown c |}
  else {| sc_available := sc_available c; sc_unknown := one_more (sc_unknown c) |}.

(** One step of the loop on every kind of resource *)
Ltac solve_field_step :=
  let r := fresh in intros ? r; destruct r as [?|?|?|?|[?|?]|?|?]; simpl;
  unfold count_storage, count_guest, count_pve_node, on_counts, see_storage, allocate, warn,
    guest_bucket, node_bucket, storage_bucket, is_online, is_offline, is_available; simpl;
  repeat case_match; done.
Ltac by_field ref bucket :=
  apply (field_reference _ _ ref bucket); [solve_field_step | done | done | intros xs x].

Section fields.
Context (l : list RemoteWithResources).
Abbreviation counted := (foldl count_remote (status_default, f64_zero) l).1.

Lemma guests_snoc xs g : guests_of (xs ++ [g]) = guest_bucket g (guests_of xs).
Proof.
  unfold guest_bucket, guests_of, guest_is_running, is_stopped. rw !tally_one_more.
  destruct (g_template g); [done |]. simpl.
  destruct (String.eqb_spec (g_status g) "running") as [E|]; [by rw E |].
  by destruct (String.eqb (g_status g) "stopped").
Qed.

Lemma qemu_counted : qemu counted = qemu (status_reference l).
Proof. by_field guests_of guest_bucket. apply guests_snoc. Qed.
Lemma lxc_counted : lxc counted = lxc (status_reference l).
Proof. by_field guests_of guest_bucket. apply guests_snoc. Qed.
Lemma pve_nodes_counted : pve_nodes counted = pve_nodes (status_reference l).
Proof.
  by_field (λ ns, {| nc_online := tally is_online ns; nc_offline := tally is_offline ns;
                     nc_unknown := tally (λ n, negb (is_online n || is_offline n)) ns |}) node_bucket.
  unfold node_bucket. rw !tally_one_more. unfold is_online, is_offline.
  destruct (String.eqb_spec (pn_status x) "online") as [E|]; [by rw E |].
  by destruct (String.eqb (pn_status x) "offline").
Qed.
Lemma storages_counted : storages counted = storages (status_reference l).
Proof.
  by_field (λ ss, {| sc_available := tally is_available ss; sc_unknown := tally (λ s, negb (is_available s)) ss |})
    storage_bucket.
  unfold storage_bucket. rw !tally_one_more. by destruct (is_available x).
Qed.
Lemma zones_counted : sdn_zones counted = sdn_zones (status_reference l).
Proof.
  by_field (λ zs, {| zc_available := tally (zone_is SdnAvailable) zs; zc_pending := tally (zone_is SdnPending) zs;
                     zc_error := tally (zone_is SdnError) zs; zc_unknown := tally (zone_is SdnUnknown) zs |})
    (λ z, count_zone (zone_status z)).
  rw !tally_one_more. unfold zone_is. by destruct (zone_status x).
Qed.
Lemma pbs_nodes_counted : pbs_nodes counted
  = {| nc_online := tally (λ _, true) (has pbs_node_of l); nc_offline := 0; nc_unknown := 0 |}.
Proof.
  by_field (λ ns : list PbsNodeResource, {| nc_online := tally (λ _, true) ns; nc_offline := 0; nc_unknown := 0 |})
    (λ _ : PbsNodeResource, count_online).
  by rw tally_one_more.
Qed.
Lemma backend_is (o : option string) b :
  bool_decide (o = Some b) = match o with Some b' => String.eqb b' b | None => false end.
Proof.
  destruct o as [b'|]; [| done]. destruct (String.eqb_spec b' b) as [-> | Hne]; [by apply bool_decide_eq_true |].
  apply bool_decide_eq_false. congruence.
Qed.
Lemma datastores_counted : pbs_datastores counted = pbs_datastores (status_reference l).
Proof.
  by_field datastores_of datastore_counts. unfold datastores_of, datastore_counts.
  rw !tally_one_more !tally_opt_snoc !backend_is.
  destruct (ds_maintenance x), (f64_gt _ _), (ds_backing_device x), (ds_backend_type x) as [b|]; simpl; try done.
  all: destruct (String.eqb_spec b "s3") as [-> |]; [done |]; by destruct (String.eqb b "unknown").
Qed.

Lemma pve_cpu_counted : pve_cpu_stats counted = cpu_of pn_cpu pn_maxcpu (has pve_node_of l).
Proof. by_field (cpu_of pn_cpu pn_maxcpu) (λ n, add_cpu (pn_cpu n) (pn_maxcpu n)). apply cpu_snoc. Qed.
Lemma pbs_cpu_counted : pbs_cpu_stats counted = pbs_cpu_stats (status_reference l).
Proof. by_field (cpu_of bn_cpu bn_maxcpu) (λ n, add_cpu (bn_cpu n) (bn_maxcpu n)). apply cpu_snoc. Qed.
Lemma pve_memory_counted : pve_memory_stats counted = pve_memory_stats (status_reference l).
Proof. by_field (usage_of pn_maxmem pn_mem) (λ n, add_usage (pn_maxmem n) (pn_mem n)). apply usage_snoc. Qed.
Lemma pbs_memory_counted : pbs_memory_stats counted = pbs_memory_stats (status_reference l).
Proof. by_field (usage_of bn_maxmem bn_mem) (λ n, add_usage (bn_maxmem n) (bn_mem n)). apply usage_snoc. Qed.
Lemma pbs_storage_counted : pbs_storage_stats counted = pbs_storage_stats (status_reference l).
Proof. by_field (usage_of ds_maxdisk ds_disk) (λ n, add_usage (ds_maxdisk n) (ds_disk n)). apply usage_snoc. Qed.
End fields.

(** ** The fields that belong to a remote *)

(** Folding over remotes instead of resources *)
Lemma remote_reference {X} (c : ResourcesStatus * f64 → X) (ref : list RemoteWithResources → X) l :
  c (status_default, f64_zero) = ref [] →
  (∀ acc rs r, c acc = ref rs → c (count_remote acc r) = ref (rs ++ [r])) →
  c (foldl count_remote (status_default, f64_zero) l) = ref l.
Proof.
  intros H0 Hs. induction l as [|r l IH] using rev_ind; [done |]. rw foldl_snoc. by apply Hs.
Qed.

Lemma fold_const {A B} (v : A) (l : list B) : foldl (λ v _, v) v l = v.
Proof. by induction l. Qed.
(** A field of the counts that the loop over the resources does not touch *)
Ltac untouched c := rw (inner_fold (λ a, c (ca_counts a)) (λ v _, v)); [solve_field_step |]; rw fold_const.

Section remote_fields.
Context (l : list RemoteWithResources).
Abbreviation result := (foldl count_remote (status_default, f64_zero) l).

Lemma remotes_counted : remotes result.1 = tally no_error l.
Proof.
  apply (remote_reference (λ a, remotes a.1)); [done |]. intros acc rs r IH. simpl. rw tally_one_more -IH.
  untouched remotes. unfold no_error. by destruct (rwr_error r).
Qed.
Lemma failed_counted : failed_remotes result.1 = failed_remotes (status_reference l).
Proof.
  apply (remote_reference (λ a, failed_remotes a.1)); [done |]. intros acc rs r IH. simpl. rw tally_one_more -IH.
  untouched failed_remotes. by destruct (rwr_error r).
Qed.
Lemma failed_list_counted : failed_remotes_list result.1 = failed_remotes_list (status_reference l).
Proof.
  apply (remote_reference (λ a, failed_remotes_list a.1)); [done |]. intros acc rs r IH. simpl. rw omap_snoc -IH.
  untouched failed_remotes_list. unfold failed_remote. by destruct (rwr_error r); simpl; rw ?app_nil_r.
Qed.

Lemma messages_counted rs a : ca_messages (foldl count_resource a rs) = ca_messages a ++ omap issue rs.
Proof.
  rw (inner_fold ca_messages (λ v r, v ++ match issue r with Some m => [m] | None => [] end)).
  - intros b r. destruct r as [?|?|?|n|[?|z]|?|?]; simpl; rw ?app_nil_r; [| | | | done | | done..].
    + unfold count_storage. by case_match.
    + unfold count_guest. by repeat case_match.
    + unfold count_guest. by repeat case_match.
    + unfold count_pve_node, is_offline. destruct (String.eqb_spec (pn_status n) "online") as [E|]; [rw E | case_match];
        simpl; by rw ?app_nil_r.
    + unfold zone_is. destruct (zone_status z); simpl; by rw ?app_nil_r.
  - induction rs as [|r rs IH] using rev_ind; simpl; [by rw app_nil_r |]. by rw foldl_snoc IH omap_snoc app_assoc.
Qed.

Definition warned (s : RemoteStatus) (issues : list string) : RemoteStatus :=
  match s, issues with StatusGood, _ :: _ => StatusWarning | _, _ => s end.
Lemma status_counted rs a : ca_status (foldl count_resource a rs) = warned (ca_status a) (omap issue rs).
Proof.
  rw (inner_fold ca_status (λ v r, warned v match issue r with Some m => [m] | None => [] end)).
  - intros b r. destruct r as [?|?|?|n|[?|z]|?|?]; simpl; [| | | | by destruct (ca_status b) | | by destruct (ca_status b)..].
    + unfold count_storage. by case_match; simpl; destruct (ca_status b).
    + unfold count_guest. by repeat case_match; simpl; destruct (ca_status b).
    + unfold count_guest. by repeat case_match; simpl; destruct (ca_status b).
    + unfold count_pve_node, is_offline. destruct (String.eqb_spec (pn_status n) "online") as [E|]; [rw E | case_match];
        simpl; by destruct (ca_status b).
    + unfold zone_is. destruct (zone_status z); simpl; by destruct (ca_status b).
  - induction rs as [|r rs IH] using rev_ind; simpl; [by destruct (ca_status a) |].
    rw foldl_snoc IH omap_snoc. by destruct (ca_status a), (omap issue rs), (issue r).
Qed.

Lemma remote_list_counted : remote_list result.1 = remote_list (status_reference l).
Proof.
  apply (remote_reference (λ a, remote_list a.1)); [done |]. intros acc rs r IH. simpl. rw fmap_app /= -IH.
  untouched remote_list. rw messages_counted status_counted. unfold remote_info. simpl.
  by destruct (rwr_error r), (omap issue (resources r)).
Qed.

Lemma storage_counted rs a :
  pve_storage_stats (ca_counts (foldl count_resource a rs))
  = foldl (λ u s, add_usage (st_maxdisk s) (st_disk s) u) (pve_storage_stats (ca_counts a))
      (distinct_storages (ca_seen a) (omap storage_of rs)).
Proof.
  revert a. induction rs as [|r rs IH]; intros a; simpl; [done |]. rw IH.
  destruct r as [s|?|?|?|[?|z]|?|?]; simpl; [| | | | done | by destruct (zone_status z) | done..].
  - unfold count_storage. simpl.
    destruct (st_shared s); simpl; [| done]. case_bool_decide as Hs; simpl; [| done].
    by rw (subseteq_union_1_L {[ st_storage s ]} (ca_seen a)); [set_solver |].
  - unfold count_guest. by repeat case_match.
  - unfold count_guest. by repeat case_match.
  - unfold count_pve_node. by repeat case_match.
Qed.
Lemma usage_app {A} (t u : A → Z) xs ys :
  usage_of t u (xs ++ ys) = foldl (λ v y, add_usage (t y) (u y) v) (usage_of t u xs) ys.
Proof.
  induction ys as [|y ys IH] using rev_ind; [by rw app_nil_r |]. by rw app_assoc usage_snoc IH foldl_snoc.
Qed.
Lemma pve_storage_counted : pve_storage_stats result.1 = pve_storage_stats (status_reference l).
Proof.
  apply (remote_reference (λ a, pve_storage_stats a.1) (λ l, pve_storage_stats (status_reference l))); [done |]. intros acc rs r IH. simpl.
  rw storage_counted fmap_app concat_app /= app_nil_r usage_app. simpl in IH. rw -IH. by destruct (rwr_error r).
Qed.

Lemma allocated_counted : Some result.2 = cs_allocated (pve_cpu_stats (status_reference l)).
Proof.
  simpl. f_equal. unfold has, all_resources.
  apply (remote_reference snd (λ l, sum_f64 g_maxcpu (List.filter guest_is_running (omap guest_of (concat (resources <$> l)))))); [done |].
  intros acc rs r IH. simpl. rw fmap_app concat_app omap_app List.filter_app /= app_nil_r.
  rw (inner_fold ca_allocated (λ v r, match guest_of r with
                                      | Some g => if guest_is_running g then f64_add v (g_maxcpu g) else v
                                      | None => v end)).
  { intros b r'. destruct r' as [?|g|g|?|[?|?]|?|?]; simpl; try done.
    - unfold count_storage. by case_match.
    - unfold count_guest, guest_is_running. by destruct (g_template g); simpl; repeat case_match.
    - unfold count_guest, guest_is_running. by destruct (g_template g); simpl; repeat case_match.
    - unfold count_pve_node. by repeat case_match.
    - unfold count_network. by destruct (zone_status _). }
  simpl. rw IH. unfold sum_f64. rw foldl_app. generalize (foldl (λ s x, f64_add s (g_maxcpu x)) f64_zero
    (List.filter guest_is_running (omap guest_of (concat (resources <$> rs))))).
  induction (resources r) as [|x xs IHx]; intros v; simpl; [done |]. destruct (guest_of x) as [g|]; simpl; [| apply IHx].
  destruct (guest_is_running g); apply IHx.
Qed.
End remote_fields.

(** ** All together *)
Lemma count_reference l :
  let '(counts, allocated) := foldl count_remote (status_default, f64_zero) l in
  let s := up_pve_cpu (λ c, {| cs_used := cs_used c; cs_max := cs_max c; cs_allocated := Some allocated |}) counts in
  other_numbers s = other_numbers (status_reference l) ∧ remotes s = tally no_error l ∧
  pbs_nodes s = {| nc_online := tally (λ _, true) (has pbs_node_of l); nc_offline := 0; nc_unknown := 0 |}.
Proof.
  pose proof (remotes_counted l). pose proof (failed_counted l). pose proof (pve_nodes_counted l).
  pose proof (qemu_counted l). pose proof (lxc_counted l). pose proof (storages_counted l).
  pose proof (zones_counted l). pose proof (pbs_nodes_counted l). pose proof (datastores_counted l).
  pose proof (pve_cpu_counted l) as Hcpu. pose proof (pbs_cpu_counted l). pose proof (pve_memory_counted l).
  pose proof (pbs_memory_counted l). pose proof (pve_storage_counted l). pose proof (pbs_storage_counted l).
  pose proof (failed_list_counted l). pose proof (remote_list_counted l). pose proof (allocated_counted l) as Ha.
  destruct (foldl count_remote (status_default, f64_zero) l) as [counts allocated]. unfold up_pve_cpu. simpl in Ha, Hcpu.
  rw Hcpu Ha. split; [| done]. unfold other_numbers, up_remotes, up_pbs_nodes, status_reference in *. simpl in *. f_equal; done.
Qed.

Lemma remotes_reference l : Forall (λ r, rwr_error r = None) l → tally no_error l = remotes (status_reference l).
Proof.
  intros Hl. apply tally_all. eapply Forall_impl; [exact Hl |]. intros r Hr. by apply bool_decide_eq_true_2.
Qed.
Lemma pbs_nodes_reference l : Forall (λ n, 0 < bn_uptime n)%Z (has pbs_node_of l) →
  {| nc_online := tally (λ _, true) (has pbs_node_of l); nc_offline := 0; nc_unknown := 0 |}
  = pbs_nodes (status_reference l).
Proof.
  intros Hl. assert (Forall (λ n, pbs_is_up n = true) (has pbs_node_of l)) as Hup.
  { eapply Forall_impl; [exact Hl |]. intros n Hn. by apply Z.ltb_lt. }
  simpl. rw (tally_all pbs_is_up) // (tally_none (λ n, negb (pbs_is_up n))).
  - eapply Forall_impl; [exact Hup |]. by intros n ->.
  - by rw (tally_all (λ _, true)); [apply Forall_true |].
Qed.
