(* ===== verification/TopEntities.v ===== *)
(** * Subscription status and top entities

    [get_subscription_status] and [get_top_entities] of server/src/api/resources.rs, and
    server/src/metric_collection/top_entities.rs, which ranks the cached resources by the data
    in the round robin database.  The data ([extract]) and the cached resources are parameters. *)
From Stdlib Require Import SpecFloat.
From S2P Require Import Prelude RustStr Remotes SubscriptionTypes Search Resources Views ResourceList.

#[local] Open Scope string_scope.

(** ** Subscription status *)
Abbreviation node_infos := (gmap string (option NodeSubscriptionInfo)).
Record RemoteSubscriptions := {
  rs_remote : string;
  rs_error : option string;
  rs_state : RemoteSubscriptionState;
  rs_node_status : option node_infos;
}.

(** [may_all] is the privilege on /resource. *)
Definition check_all_remotes_allowed (who : caller) (may_all : bool) (view : option string)
    : result list_error bool :=
  match view with
  | Some v => if may_view who v then Ok false else Err Denied
  | None => Ok may_all
  end.

(** The future of a remote; [answer] is the result of [get_subscription_info_for_remote]. *)
Definition subscription_future (view : option ViewConfig) (verbose : bool) (name : string)
    (answer : result string node_infos) : option RemoteSubscriptions :=
  let '(node_status, error) :=
    match answer with
    | Ok infos =>
        (Some match view with
              | Some v => filter (λ p, is_node_included v name p.1 = true) infos
              | None => infos
              end, None)
    | Err e => (None, Some e)
    end in
  let hidden := match view with
                | Some v => bool_decide (is_Some error) && negb (is_remote_explicitly_included v name)
                | None => false
                end in
  if hidden then None
  else match node_status with
       | Some infos =>
           if decide (infos = ∅) then None
           else Some {| rs_remote := name; rs_error := error;
                        rs_state := map_node_subscription_list_to_state infos;
                        rs_node_status := if verbose then Some infos else None |}
       | None => Some {| rs_remote := name; rs_error := error; rs_state := StateUnknown;
                         rs_node_status := None |}
       end.

Definition get_subscription_status (E : list_env) (answers : string → result string node_infos)
    (who : caller) (may_all verbose : bool) (view : option string)
    : result list_error (list RemoteSubscriptions) :=
  config ← lift_list (le_remotes E);
  allow_all ← check_all_remotes_allowed who may_all view;
  view ← lift_list (get_optional_view (le_views E) view);
  mret (filter_map
          (λ '(name, _),
             if match view with
                | Some v => can_skip_remote v name
                | None => negb allow_all && negb (may_remote who name)
                end
             then None else subscription_future view verbose name (answers name)) config).

(** ** Numbers *)

(** [f.round() as usize]: to the nearest integer, halves away from zero; the cast saturates and
    takes NaN to 0.  A negative exponent leaves a mantissa below 2^53, so rounding is exact. *)
Definition round_usize (f : f64) : Z :=
  match f with
  | S754_finite false m e =>
      Z.min u64_max (if (0 <=? e)%Z then Z.pos m * 2 ^ e else (Z.pos m + 2 ^ (- e - 1)) / 2 ^ (- e))%Z
  | S754_infinity false => u64_max
  | _ => 0%Z
  end.
Definition is_finite (f : f64) : bool :=
  match f with S754_zero _ | S754_finite _ _ _ => true | _ => false end.

(** ** Ranking *)

(** [Vec<(usize, T)>] in ascending order, at most [limit] of them *)
Definition insert_sorted {T} (vec : list (Z * T)) (value : Z * T) (limit : nat) : list (Z * T) :=
  let index := match binary_search_by (λ p, Z.compare p.1 value.1) vec with Ok i | Err i => i end in
  let vec := (take index vec ++ value :: drop index vec)%list in
  drop (length vec - limit) vec.

(** [proxmox_rrd::Entry] *)
Record Entry := { e_start : Z; e_resolution : Z; e_data : list (option f64) }.
Record TopEntity := { te_remote : string; te_resource : Resource; te_rrd_data : Entry }.
Record TopEntities := {
  guest_cpu : list TopEntity; node_cpu : list TopEntity; node_memory : list TopEntity;
}.

Definition calculate_coefficient (values : Entry) : f64 :=
  foldl (λ c point, let v := default f64_zero point in if is_finite v then f64_add c v else c)
    f64_zero (e_data values).

Section top.
(** [extract name metric] is [extract_data] for the time frame of the call, [None] also on errors;
    [cached name] the resources in the cache, [None] if there are none or they cannot be read. *)
Context (extract : string → string → option Entry) (cached : string → option (list Resource)).

Definition get_entity (remote : string) (res : Resource) (name metric : string) : option (f64 * TopEntity) :=
  values ← extract name metric;
  let coefficient := calculate_coefficient values in
  if f64_gt coefficient f64_zero
  then Some (coefficient, {| te_remote := remote; te_resource := res; te_rrd_data := values |})
  else None.

Definition percent (f : f64) : Z := round_usize (f64_mul f (f64_of_Z 100)).

Definition ranking : Type := list (Z * TopEntity) * list (Z * TopEntity) * list (Z * TopEntity).

Definition rank_cpu (remote : string) (res : Resource) (name : string) : option (Z * TopEntity) :=
  '(c, e) ← get_entity remote res name "cpu_current"; Some (percent c, e).
Definition mem_usage (mem total : option f64) : option f64 :=
  match mem, total with Some m, Some t => Some (f64_div m t) | _, _ => None end.
Definition rank_memory (remote : string) (res : Resource) (name : string) : option (Z * TopEntity) :=
  '(mem, e) ← get_entity remote res name "mem_used";
  '(total, e') ← get_entity remote res name "mem_total";
  let used := e_data (te_rrd_data e) in
  let all := e_data (te_rrd_data e') in
  if negb (length used =? length all)%nat then None
  else Some (round_usize (f64_div (f64_mul (f64_of_Z 100) mem) total),
             {| te_remote := te_remote e; te_resource := te_resource e;
                te_rrd_data := {| e_start := e_start (te_rrd_data e); e_resolution := e_resolution (te_rrd_data e);
                                  e_data := zip_with mem_usage used all |} |}).

Definition insert_ranked (num : nat) (vec : list (Z * TopEntity)) (o : option (Z * TopEntity)) : list (Z * TopEntity) :=
  match o with Some value => insert_sorted vec value num | None => vec end.

(** The body of the loop over the resources *)
Definition rank_resource (num : nat) (remote : string) (ty : RemoteType) (acc : ranking) (res : Resource) : ranking :=
  let '(guests, nodes, memory) := acc in
  let name := "pve/" ++ remote ++ "/" ++ resource_id res in
  match res with
  | PveQemu _ | PveLxc _ => (insert_ranked num guests (rank_cpu remote res name), nodes, memory)
  | PveNode _ | PbsNode _ =>
      let name := match ty with Pbs => "pbs/" ++ remote ++ "/host" | Pve => name end in
      (guests, insert_ranked num nodes (rank_cpu remote res name), insert_ranked num memory (rank_memory remote res name))
  | PveStorage _ | PveNetwork _ | PbsDatastore _ => acc
  end.

Definition rank_remote (num : nat) (check : string → bool) (included : string → Resource → bool)
    (acc : ranking) (remote : string * RemoteType) : ranking :=
  if check remote.1
  then foldl (rank_resource num remote.1 remote.2) acc
         (List.filter (included remote.1) (default [] (cached remote.1)))
  else acc.

Definition calculate_top (config : list (string * RemoteType)) (num : nat) (check : string → bool)
    (included : string → Resource → bool) : TopEntities :=
  let '(guests, nodes, memory) := foldl (rank_remote num check included) ([], [], []) config in
  {| guest_cpu := snd <$> guests; node_cpu := snd <$> nodes; node_memory := snd <$> memory |}.

Definition get_top_entities (E : list_env) (who : caller) (view : option string) : result list_error TopEntities :=
  _ ← bail_if (negb match view with Some v => may_view who v | None => may_any who end) Denied;
  view ← lift_list (get_optional_view (le_views E) view);
  config ← lift_list (le_remotes E);
  mret (calculate_top config 10
          (λ name, match view with Some v => negb (can_skip_remote v name) | None => may_remote who name end)
          (λ name res, match view with Some v => resource_matches v name res | None => true end)).
End top.
