(* ===== verification/StatusProps.v ===== *)
(** * Dashboard numbers, subscription status and top entities: theorems *)
From Stdlib Require Import Sorted.
From S2P Require Import Prelude RustStr Remotes SubscriptionTypes Search Resources Views ResourceList ResourceListFacts ResourceProps ResourceStatus ResourceStatusFacts TopEntities.

#[local] Open Scope list_scope.

(** ** The ranking *)
Section ranking.
Context {T : Type}.
Implicit Types (e : Z * T) (l v es : list (Z * T)).

Definition rank_le e e' : Prop := (e.1 ≤ e'.1)%Z.

(** [v] holds the [n] best of [es], or all of them if there are fewer, in ascending order. *)
Definition top_of (n : nat) es v : Prop :=
  StronglySorted rank_le v ∧ length v = n `min` length es ∧
  ∃ rejected, es ≡ₚ rejected ++ v ∧ ∀ e e', e ∈ rejected → e' ∈ v → rank_le e e'.

Lemma insert_at_sorted v e : StronglySorted rank_le v →
  let i := match binary_search_by (λ p, Z.compare p.1 e.1) v with Ok i | Err i => i end in
  StronglySorted rank_le (take i v ++ e :: drop i v).
Proof.
  intros Hs.
  destruct (binary_search_position (λ p : Z * T, Z.compare p.1 e.1) v) as (Hi & Hafter & Hbefore).
  { intros i j x y Hij Hx Hy Hgt. pose proof (StronglySorted_lookup _ _ i j x y Hs Hij Hx Hy) as Hle.
    unfold rank_le in Hle. rw !Z.compare_gt_iff in Hgt |- *. lia. }
  set (i := match binary_search_by _ v with Ok i | Err i => i end) in *. cbv zeta.
  assert (∀ x, x ∈ take i v → rank_le x e) as Hb.
  { intros x [j Hj]%list_elem_of_lookup. apply lookup_take_Some in Hj as [Hj Hlt]. specialize (Hbefore j x Hlt Hj).
    unfold rank_le. by rw Z.compare_le_iff in Hbefore. }
  assert (∀ x, x ∈ drop i v → rank_le e x) as Ha.
  { intros x [j Hj]%list_elem_of_lookup. rw lookup_drop in Hj. specialize (Hafter (i + j) x ltac:(lia) Hj).
    unfold rank_le. by rw Z.compare_ge_iff in Hafter. }
  rw -(take_drop i v) in Hs. apply StronglySorted_app in Hs as (Hcross & Ht & Hd).
  apply StronglySorted_app. split_and!; [| done |].
  - intros x y Hx Hy. apply elem_of_cons in Hy as [-> | Hy]; [by apply Hb | by apply Hcross].
  - apply StronglySorted_cons. split; [by apply Forall_forall | done].
Qed.

Lemma top_nil n : top_of n [] [].
Proof. split_and!; [constructor | by rw Nat.min_0_r |]. exists []. split; [done |]. by intros ?? ?%not_elem_of_nil. Qed.

Lemma top_insert n es v e : top_of n es v → top_of n (es ++ [e]) (insert_sorted v e n).
Proof.
  intros (Hs & Hlen & rejected & Hp & Hr). unfold insert_sorted. pose proof (insert_at_sorted v e Hs) as Hs'.
  set (i := match binary_search_by _ v with Ok i | Err i => i end) in *. cbv zeta in *.
  assert (take i v ++ e :: drop i v ≡ₚ e :: v) as Hv by by rw -Permutation_middle take_drop.
  pose proof (Permutation_length Hv) as Hl. simpl in Hl. revert Hs' Hv Hl.
  generalize (take i v ++ e :: drop i v). intros w Hs' Hv Hl. rw Hl.
  assert (es ++ [e] ≡ₚ rejected ++ w) as Hp' by by rw Hp Hv -app_assoc (Permutation_app_comm v [e]).
  pose proof (Permutation_length Hp) as Hle. rw length_app in Hle. unfold top_of. rw length_app. simpl.
  destruct (decide (length v < n)) as [Hlt | Hge].
  - replace (S (length v) - n) with 0 by lia. rw drop_0. split_and!; [done | lia |].
    exists rejected. split; [done |]. assert (rejected = []) as -> by (apply nil_length_inv; lia).
    by intros ?? ?%not_elem_of_nil.
  - replace (S (length v) - n) with 1 by lia. destruct w as [|h w]; [done |]. cbn [drop]. rw drop_0.
    apply StronglySorted_cons in Hs' as [Hh Hs']. split_and!; [done | simpl in Hl; lia |].
    exists (h :: rejected). split; [by rw Hp' -Permutation_middle |].
    intros x y Hx Hy. apply elem_of_cons in Hx as [-> | Hx]; [by eapply Forall_forall |].
    assert (y ∈ e :: v) as [-> | Hyv]%elem_of_cons by (rw -Hv; by right); [| by apply Hr].
    assert (h ∈ e :: v) as Hh' by (rw -Hv; by left). apply elem_of_cons in Hh' as [-> | Hhv].
    + apply Permutation_cons_inv in Hv. apply Hr; [done | by rw -Hv].
    + unfold rank_le in *. pose proof (Hr x h Hx Hhv). pose proof (proj1 (Forall_forall _ _) Hh _ Hy). simpl in *. lia.
Qed.
End ranking.

Section top.
Context (extract : string → string → option Entry) (cached : string → option (list Resource)).
(** A resource with the name and the type of its remote *)
Abbreviation located := (string * RemoteType * Resource)%type.

Definition series (x : located) : string :=
  let '(remote, ty, res) := x in
  match res, ty with
  | PveNode _, Pbs | PbsNode _, Pbs => "pbs/" +:+ remote +:+ "/host"
  | _, _ => "pve/" +:+ remote +:+ "/" +:+ resource_id res
  end.
Definition guest_rank (x : located) : option (Z * TopEntity) :=
  match x.2 with PveQemu _ | PveLxc _ => rank_cpu extract x.1.1 x.2 (series x) | _ => None end.
Definition node_rank (x : located) : option (Z * TopEntity) :=
  match x.2 with PveNode _ | PbsNode _ => rank_cpu extract x.1.1 x.2 (series x) | _ => None end.
Definition memory_rank (x : located) : option (Z * TopEntity) :=
  match x.2 with PveNode _ | PbsNode _ => rank_memory extract x.1.1 x.2 (series x) | _ => None end.

Definition ranked (num : nat) (seen : list located) (acc : ranking) : Prop :=
  top_of num (omap guest_rank seen) acc.1.1 ∧ top_of num (omap node_rank seen) acc.1.2
  ∧ top_of num (omap memory_rank seen) acc.2.

Lemma insert_ranked_top {A} (f : A → option (Z * TopEntity)) num l x v :
  top_of num (omap f l) v → top_of num (omap f (l ++ [x])) (insert_ranked num v (f x)).
Proof. intros Hv. rw omap_snoc. destruct (f x); simpl; [by apply top_insert | by rw app_nil_r]. Qed.

Lemma rank_resource_ranked num name ty seen acc res : ranked num seen acc →
  ranked num (seen ++ [(name, ty, res)]) (rank_resource extract num name ty acc res).
Proof.
  intros (Hg & Hn & Hm). destruct acc as [[g n] m].
  pose proof (insert_ranked_top guest_rank num seen (name, ty, res) g Hg).
  pose proof (insert_ranked_top node_rank num seen (name, ty, res) n Hn).
  pose proof (insert_ranked_top memory_rank num seen (name, ty, res) m Hm).
  by destruct res, ty.
Qed.

Lemma rank_resources num name ty rs seen acc : ranked num seen acc →
  ranked num (seen ++ (pair (name, ty) <$> rs)) (foldl (rank_resource extract num name ty) acc rs).
Proof.
  revert seen acc. induction rs as [|r rs IH]; intros seen acc Hr; simpl; [by rw app_nil_r |].
  rw (cons_middle (name, ty, r)) app_assoc. by apply IH, rank_resource_ranked.
Qed.

(** The cached resources of the remotes that pass [check] *)
Definition shown (check : string → bool) (included : string → Resource → bool)
    (config : list (string * RemoteType)) : list located :=
  concat ((λ '(name, ty), if check name then pair (name, ty) <$> List.filter (included name) (default [] (cached name))
                          else []) <$> config).

Lemma rank_remotes num check included config seen acc : ranked num seen acc →
  ranked num (seen ++ shown check included config) (foldl (rank_remote extract cached num check included) acc config).
Proof.
  unfold shown. revert seen acc. induction config as [|[name ty] config IH]; intros seen acc Hr; simpl; [by rw app_nil_r |].
  rw app_assoc. apply IH. unfold rank_remote. simpl. destruct (check name); [by apply rank_resources | by rw app_nil_r].
Qed.

(** What the caller may see, decided for every resource on its own *)
Definition may_see (who : caller) (view : option ViewConfig) (name : string) (res : Resource) : bool :=
  match view with Some v => resource_matches v name res | None => may_remote who name end.

Lemma shown_may_see who view config :
  shown (λ name, match view with Some v => negb (can_skip_remote v name) | None => may_remote who name end)
    (λ name res, match view with Some v => resource_matches v name res | None => true end) config
  = shown (λ _, true) (may_see who view) config.
Proof.
  unfold shown. f_equal. apply list_fmap_ext. intros _ [name ty] _. destruct view as [v|]; simpl.
  - destruct (can_skip_remote v name) eqn:Hs; simpl; [| done].
    apply can_skip_remote_sound in Hs as [Hs _]. rw filter_none; [| done]. intros r. apply Hs.
  - unfold may_see. destruct (may_remote who name); [done |]. by rw filter_none.
Qed.

(** The top entities.  Each of the three lists holds the ten best ranked of all cached resources
    of its kind that the caller may see, or all of them if there are fewer, in ascending order;
    what the caller may see is what the view includes or, without a view, the resources of the
    remotes with the privilege. *)
Theorem top_entities_are_top (E : list_env) (who : caller) (view : option string) t :
  get_top_entities extract cached E who view = Ok t →
  ∃ config v guests nodes memory,
    le_remotes E = Ok config ∧ get_optional_view (le_views E) view = Ok v ∧
    t = {| guest_cpu := snd <$> guests; node_cpu := snd <$> nodes; node_memory := snd <$> memory |} ∧
    top_of 10 (omap guest_rank (shown (λ _, true) (may_see who v) config)) guests ∧
    top_of 10 (omap node_rank (shown (λ _, true) (may_see who v) config)) nodes ∧
    top_of 10 (omap memory_rank (shown (λ _, true) (may_see who v) config)) memory.
Proof.
  unfold get_top_entities. destruct (bail_if _ _); [| done]. simpl.
  destruct (get_optional_view (le_views E) view) as [v|]; [| done]. simpl.
  destruct (le_remotes E) as [config|]; [| done]. simpl. intros [= <-].
  unfold calculate_top.
  destruct (rank_remotes 10 (λ name, match v with Some v => negb (can_skip_remote v name) | None => may_remote who name end)
    (λ name res, match v with Some v => resource_matches v name res | None => true end) config [] ([], [], [])) as (Hg & Hn & Hm).
  { split_and!; apply top_nil. }
  rw shown_may_see in Hg, Hn, Hm. destruct (foldl _ _ config) as [[g n] m]. by exists config, v, g, n, m.
Qed.
End top.

(** A remote with two guests of which one was busy *)
Definition ex_extract (name metric : string) : option Entry :=
  if decide (metric = "cpu_current"%string)
  then Some {| e_start := 0; e_resolution := 60;
               e_data := [Some (f64_of_Z (if decide (name = "pve/beta/qemu/101"%string) then 2%Z else 1%Z)); None] |}
  else None.
Definition ex_cached (name : string) : option (list Resource) :=
  Some [ex_guest name 101 "busy"; ex_guest name 100 "idle"].

Lemma top_entities_are_top_witness :
  ∃ t, get_top_entities ex_extract ex_cached ex_env ex_caller None = Ok t ∧
    te_resource <$> guest_cpu t = [ex_guest "beta" 100 "idle"; ex_guest "beta" 101 "busy"] ∧
    ∃ guests, guest_cpu t = snd <$> guests ∧
      top_of 10 (omap (guest_rank ex_extract)
                   (shown ex_cached (λ _, true) (may_see ex_caller None) [("alpha", Pve); ("beta", Pbs); ("gone", Pve)]))
        guests.
Proof.
  eexists. split_and!; [vm_compute; reflexivity | vm_compute; reflexivity |].
  edestruct (top_entities_are_top ex_extract ex_cached ex_env ex_caller None)
    as (config & v & guests & nodes & memory & Hc & Hv & Ht & Hg & _); [vm_compute; reflexivity |].
  injection Hc as <-. injection Hv as <-. exists guests. split; [| exact Hg].
  exact (f_equal guest_cpu Ht).
Defined.

(** ** The numbers of the dashboard *)
Section status.
Context `{LowerEnv}.

(** C7: The numbers of the dashboard are those of the listing of the same caller and view.  Every
    guest (a template under template whatever its state), PVE node, storage and zone is counted
    once under the state it reports, fabrics are not counted, and a datastore is counted as online
    or under maintenance and under each of its properties; memory and storage add up with used
    plus available equal to total modulo 2^64, a shared storage once per remote; a remote is in
    error exactly if it did not answer, has a warning exactly if it answered and a node is offline
    or a zone has an error, and carries the messages that say so.  The number of remotes is that
    of the listed ones if none failed, and the PBS nodes are counted by their state if none of
    them is down; [failed_remotes_not_counted] and [pbs_node_down_is_online] show what the code
    does otherwise. *)
Theorem status_counts (E : list_env) (who : option caller) (view : option string) :
  match get_resources_impl E who None None view with
  | Err e => get_status E who view = Err e
  | Ok l => ∃ s, get_status E who view = Ok s ∧ other_numbers s = other_numbers (status_reference l)
      ∧ (Forall (λ r, rwr_error r = None) l → remotes s = remotes (status_reference l))
      ∧ (Forall (λ n, 0 < bn_uptime n)%Z (has pbs_node_of l) → pbs_nodes s = pbs_nodes (status_reference l))
  end.
Proof.
  unfold get_status. destruct (get_resources_impl E who None None view) as [l|e]; [| done]. simpl.
  pose proof (count_reference l) as Hc. destruct (foldl count_remote (status_default, f64_zero) l) as [counts allocated].
  destruct Hc as (Ho & Hr & Hp). eexists. split; [done |]. split; [exact Ho |]. rw Hr Hp.
  split; [apply remotes_reference | apply pbs_nodes_reference].
Qed.
End status.

(** A remote that does not answer: it is missing from the number of remotes, which is documented as
    the number of configured remotes and from which the home page subtracts the failed ones. *)
Definition ex_failing : list_env := {|
  le_views := le_views ex_env; le_remotes := Ok [("alpha", Pve); ("beta", Pbs)];
  le_fetch name :=
    if String.eqb name "alpha" then Err "no route to host"
    else Ok [PbsNode {| bn_cpu := f64_zero; bn_maxcpu := f64_zero; bn_id := "remote/beta/node/localhost";
                        bn_mem := 0; bn_maxmem := 0; bn_name := "localhost"; bn_uptime := 0 |}] |}.
Theorem failed_remotes_not_counted :
  match get_resources_impl ex_failing None None None None, get_status ex_failing None None with
  | Ok l, Ok s => remotes s = 1%Z ∧ failed_remotes s = 1%Z ∧ remotes (status_reference l) = 2%Z
  | _, _ => False
  end.
Proof. vm_compute. done. Qed.
(** A PBS node that reports no uptime has the state offline and is counted as online. *)
Theorem pbs_node_down_is_online :
  match get_resources_impl ex_failing None None None None, get_status ex_failing None None with
  | Ok l, Ok s => resource_status <$> omap (λ r, PbsNode <$> pbs_node_of r) (all_resources l) = ["offline"%string] ∧
                  nc_online (pbs_nodes s) = 1%Z ∧ nc_offline (pbs_nodes s) = 0%Z
  | _, _ => False
  end.
Proof. vm_compute. done. Qed.

(** ** Subscription status *)
Section subscription.
Context (answers : string → result string node_infos) (who : caller) (may_all verbose : bool).

(** Does the caller see a node of a remote, and a remote that failed? *)
Definition sees_node (v : option ViewConfig) (name node : string) : bool :=
  match v with Some w => is_node_included w name node | None => may_all || may_remote who name end.
Definition sees_failed (v : option ViewConfig) (name : string) : bool :=
  match v with Some w => is_remote_explicitly_included w name | None => may_all || may_remote who name end.
Definition seen_nodes (v : option ViewConfig) (name : string) (infos : node_infos) : node_infos :=
  filter (λ p, sees_node v name p.1 = true) infos.

Definition subscription_shown (v : option ViewConfig) (name : string) : option RemoteSubscriptions :=
  match answers name with
  | Ok infos =>
      let seen := seen_nodes v name infos in
      if decide (seen = ∅) then None
      else Some {| rs_remote := name; rs_error := None; rs_state := map_node_subscription_list_to_state seen;
                   rs_node_status := if verbose then Some seen else None |}
  | Err e =>
      if sees_failed v name
      then Some {| rs_remote := name; rs_error := Some e; rs_state := StateUnknown; rs_node_status := None |}
      else None
  end.

Lemma unseen_empty v name infos : (∀ node, sees_node v name node = false) → seen_nodes v name infos = ∅.
Proof.
  intros Hn. apply map_empty. intros node. apply map_lookup_filter_None. right. intros i _. simpl. by rw Hn.
Qed.
Lemma all_seen v name infos : (∀ node, sees_node v name node = true) → seen_nodes v name infos = infos.
Proof. intros Hn. apply map_filter_id. intros node i _. simpl. by rw Hn. Qed.

Lemma subscription_future_shown v name :
  (if match v with Some w => can_skip_remote w name | None => negb may_all && negb (may_remote who name) end
   then None else subscription_future v verbose name (answers name)) = subscription_shown v name.
Proof.
  unfold subscription_shown. destruct v as [w|].
  - destruct (can_skip_remote w name) eqn:Hs.
    + apply can_skip_remote_sound in Hs as [Hs He]. destruct (answers name); simpl; [| by rw He].
      rw unseen_empty; [| done]. intros node. apply Hs.
    + unfold subscription_future. destruct (answers name); simpl; [done |]. by destruct (is_remote_explicitly_included w name).
  - rw -negb_orb. destruct (may_all || may_remote who name) eqn:Ha; simpl; destruct (answers name); simpl; rw ?Ha //.
    + by rw all_seen.
    + by rw unseen_empty.
Qed.
End subscription.

(** The subscription status shows exactly what the view or the privileges allow.  With a view, a
    remote that answered is listed if and only if some of its nodes is in the view, with the
    state of these nodes and, on request, these nodes; a remote that failed is listed if and only
    if the view includes it explicitly.  Without a view, what counts is the privilege on the
    remote or on all of them. *)
Theorem subscription_status_spec (E : list_env) answers who may_all verbose view :
  get_subscription_status E answers who may_all verbose view
  = (config ← lift_list (le_remotes E);
     _ ← check_all_remotes_allowed who may_all view;
     v ← lift_list (get_optional_view (le_views E) view);
     mret (filter_map (λ '(name, _), subscription_shown answers who may_all verbose v name) config)).
Proof.
  unfold get_subscription_status. destruct (lift_list (le_remotes E)) as [config|]; [| done]. simpl.
  destruct (check_all_remotes_allowed who may_all view) as [all|] eqn:Ha; [| done]. simpl.
  destruct (get_optional_view (le_views E) view) as [v|] eqn:Hv; [| done]. simpl. f_equal.
  assert (v = None → all = may_all) as Hall.
  { intros ->. destruct view; simpl in Ha, Hv; [by destruct (get_view _ _) | by injection Ha]. }
  induction config as [|[name ty] config IH]; simpl; [done |].
  rw -subscription_future_shown IH. destruct v; [done |]. by rw Hall.
Qed.
