(* ===== verification/MetricStore.v ===== *)
(** * Storing metrics

    server/src/metric_collection/rrd_task.rs: the task that writes received metrics to the round
    robin database.  The database belongs to proxmox_rrd; what the task does to it is the list of
    the calls of [update_value], in order.
    The second part has the metrics of the host. *)
From Stdlib Require Import SpecFloat.
From S2P Require Import Prelude RustStr Remotes Resources.

#[local] Open Scope string_scope.

Inductive DataSourceType := Gauge | Counter | Derive.
Record rrd_update := {
  up_name : string; up_value : f64; up_timestamp : Z; up_type : DataSourceType;
}.
Definition rrd_log : Type := list rrd_update.

(** ** Data points *)

(** [ClusterMetricsData] of pve_api_types and [MetricDataPoint] of pbs_api_types have the same
    fields; [None] is a type that is not known. *)
Record DataPoint := {
  dp_id : string; dp_metric : string; dp_timestamp : Z; dp_type : option DataSourceType; dp_value : f64;
}.

Definition store_metric (product remote : string) (p : DataPoint) : rrd_log :=
  match dp_type p with
  | Some ty => [{| up_name := product ++ "/" ++ remote ++ "/" ++ dp_id p ++ "/" ++ dp_metric p;
                   up_value := dp_value p; up_timestamp := dp_timestamp p; up_type := ty |}]
  | None => []
  end.
Definition store_metric_pve : string → DataPoint → rrd_log := store_metric "pve".
Definition store_metric_pbs : string → DataPoint → rrd_log := store_metric "pbs".

Definition FUTURE_DATAPOINT_TOLERANCE : Z := 60.

(** The most recent time stamp and the calls of [store] *)
Definition store_datapoints (store : string → DataPoint → rrd_log) (remote : string)
    (data : list DataPoint) (request_at : Z) : Z * rrd_log :=
  let future_cutoff := i64 (request_at + FUTURE_DATAPOINT_TOLERANCE) in
  foldl (λ acc p,
           if (future_cutoff <? dp_timestamp p)%Z then acc
           else (Z.max acc.1 (dp_timestamp p), (acc.2 ++ store remote p)%list))
    (0%Z, []) data.

(** ** Other metrics *)
Definition gauge (name : string) (value : f64) (timestamp : Z) : rrd_update :=
  {| up_name := name; up_value := value; up_timestamp := timestamp; up_type := Gauge |}.
Definition derive (name : string) (value : f64) (timestamp : Z) : rrd_update :=
  {| up_name := name; up_value := value; up_timestamp := timestamp; up_type := Derive |}.

Definition store_response_time (remote : string) (response_time : f64) (timestamp : Z) : rrd_log :=
  [gauge ("remotes/" ++ remote ++ "/metric-collection-response-time") response_time timestamp].
Definition store_stats (total_time : f64) (timestamp : Z) : rrd_log :=
  [gauge "nodes/localhost/metric-collection-total-time" total_time timestamp].

(** [PdmHostMetrics], as far as it is stored *)
Record Pressure := { some_avg10 : f64; full_avg10 : f64 }.
Record PdmHostMetrics := {
  hm_proc : option (f64 * f64);                 (* cpu, iowait_percent *)
  hm_meminfo : option (Z * Z * Z * Z);          (* memtotal, memused, swaptotal, swapused *)
  hm_load : option (f64 * f64 * f64);
  hm_netstats : option (Z * Z);                 (* netin, netout *)
  hm_blockdev : option (Z * Z * Z * Z * Z);     (* read_ios, write_ios, read_sectors, write_sectors, io_ticks *)
  hm_filesystem : option (Z * Z);               (* total, used *)
  hm_cpu_pressure : option Pressure;
  hm_memory_pressure : option Pressure;
  hm_io_pressure : option Pressure;
}.

Definition stored {A} (o : option A) (f : A → rrd_log) : rrd_log := match o with Some a => f a | None => [] end.

Definition store_pdm_host_metrics (t : Z) (m : PdmHostMetrics) : rrd_log :=
  (stored (hm_proc m) (λ '(cpu, iowait),
     [gauge "nodes/localhost/cpu-current" cpu t; gauge "nodes/localhost/cpu-iowait" iowait t])
   ++ stored (hm_load m) (λ '(l1, l5, l15),
     [gauge "nodes/localhost/cpu-avg1" l1 t; gauge "nodes/localhost/cpu-avg5" l5 t;
      gauge "nodes/localhost/cpu-avg15" l15 t])
   ++ stored (hm_cpu_pressure m) (λ p, [gauge "nodes/localhost/cpu-pressure-some-avg10" (some_avg10 p) t])
   ++ stored (hm_meminfo m) (λ '(total, used, swap, swap_used),
     [gauge "nodes/localhost/mem-total" (f64_of_Z total) t; gauge "nodes/localhost/mem-used" (f64_of_Z used) t;
      gauge "nodes/localhost/swap-total" (f64_of_Z swap) t; gauge "nodes/localhost/swap-used" (f64_of_Z swap_used) t])
   ++ stored (hm_memory_pressure m) (λ p,
     [gauge "nodes/localhost/mem-pressure-some-avg10" (some_avg10 p) t;
      gauge "nodes/localhost/mem-pressure-full-avg10" (full_avg10 p) t])
   ++ stored (hm_netstats m) (λ '(netin, netout),
     [derive "nodes/localhost/net-in" (f64_of_Z netin) t; derive "nodes/localhost/net-out" (f64_of_Z netout) t])
   ++ stored (hm_filesystem m) (λ '(total, used),
     [gauge "nodes/localhost/disk-total" (f64_of_Z total) t; gauge "nodes/localhost/disk-used" (f64_of_Z used) t])
   ++ stored (hm_blockdev m) (λ '(read_ios, write_ios, read_sectors, write_sectors, io_ticks),
     [derive "nodes/localhost/disk-read-iops" (f64_of_Z read_ios) t;
      derive "nodes/localhost/disk-write-iops" (f64_of_Z write_ios) t;
      derive "nodes/localhost/disk-read" (f64_of_Z (u64 (read_sectors * 512))) t;
      derive "nodes/localhost/disk-write" (f64_of_Z (u64 (write_sectors * 512))) t;
      derive "nodes/localhost/disk-io-ticks" (f64_div (f64_of_Z io_ticks) (f64_of_Z 1000)) t])
   ++ stored (hm_io_pressure m) (λ p,
     [gauge "nodes/localhost/io-pressure-some-avg10" (some_avg10 p) t;
      gauge "nodes/localhost/io-pressure-full-avg10" (full_avg10 p) t]))%list.

(** ** The task *)
Inductive RrdStoreRequest :=
| StorePve (remote : string) (metrics : list DataPoint) (response_time : f64) (request_at : Z)
| StorePbs (remote : string) (metrics : list DataPoint) (response_time : f64) (request_at : Z)
| StoreCollectionStats (timestamp : Z) (total_time : f64)
| StoreHost (timestamp : Z) (metrics : PdmHostMetrics).

(** One message of [store_in_rrd_task]: what is stored, and the most recent time stamp that is
    sent back for the metrics of a remote *)
Definition store_request (msg : RrdStoreRequest) : rrd_log * option Z :=
  match msg with
  | StorePve remote metrics response_time request_at =>
      let '(most_recent, log) := store_datapoints store_metric_pve remote metrics request_at in
      ((log ++ store_response_time remote response_time request_at)%list, Some most_recent)
  | StorePbs remote metrics response_time request_at =>
      let '(most_recent, log) := store_datapoints store_metric_pbs remote metrics request_at in
      ((log ++ store_response_time remote response_time request_at)%list, Some most_recent)
  | StoreCollectionStats timestamp total_time => (store_stats total_time timestamp, None)
  | StoreHost timestamp metrics => (store_pdm_host_metrics timestamp metrics, None)
  end.

(** ** The database

    server/src/metric_collection/rrd_cache.rs: the archives of a new database and the range that
    is read for a time frame. *)
Inductive AggregationFn := Average | Maximum.
Record Archive := { ar_cf : AggregationFn; ar_resolution : Z; ar_slots : Z }.
Definition create_callback : list Archive :=
  (λ '(cf, r, n), {| ar_cf := cf; ar_resolution := r; ar_slots := n |})
    <$> [(Average, 60, 1440); (Maximum, 60, 1440);
         (Average, 30 * 60, 1440); (Maximum, 30 * 60, 1440);
         (Average, 6 * 3600, 1440); (Maximum, 6 * 3600, 1440);
         (Average, 7 * 86400, 570); (Maximum, 7 * 86400, 570)]%Z.

Inductive RrdTimeframe := Hour | Day | Week | Month | Year | Decade.
(** Start, end and resolution of the query *)
Definition extract_range (timeframe : RrdTimeframe) (end_ : Z) : Z * Z * Z :=
  let '(start, resolution) :=
    match timeframe with
    | Hour => (end_ - 3600, 60)
    | Day => (end_ - 3600 * 24, 60)
    | Week => (end_ - 3600 * 24 * 7, 30 * 60)
    | Month => (end_ - 3600 * 24 * 30, 30 * 60)
    | Year => (end_ - 3600 * 24 * 365, 6 * 60 * 60)
    | Decade => (end_ - 10 * 3600 * 24 * 366, 7 * 86400)
    end%Z in
  (u64 start, end_, resolution).

(** The archive with the resolution of the query covers the whole range, except for a year, where
    the archive ends five days short. *)
Theorem archives_cover_range timeframe cf end_ :
  (2 ^ 40 ≤ end_ < 2 ^ 64)%Z →
  let '(start, stop, resolution) := extract_range timeframe end_ in
  ∃ a, a ∈ create_callback ∧ ar_cf a = cf ∧ ar_resolution a = resolution ∧
    (stop - start ≤ ar_resolution a * ar_slots a + if timeframe is Year then 5 * 86400 else 0)%Z.
Proof.
  intros Hend. destruct timeframe; unfold extract_range; rw u64_id; try lia;
    [exists {| ar_cf := cf; ar_resolution := 60; ar_slots := 1440 |}
    |exists {| ar_cf := cf; ar_resolution := 60; ar_slots := 1440 |}
    |exists {| ar_cf := cf; ar_resolution := 30 * 60; ar_slots := 1440 |}
    |exists {| ar_cf := cf; ar_resolution := 30 * 60; ar_slots := 1440 |}
    |exists {| ar_cf := cf; ar_resolution := 6 * 3600; ar_slots := 1440 |}
    |exists {| ar_cf := cf; ar_resolution := 7 * 86400; ar_slots := 570 |}];
    (split; [destruct cf; unfold create_callback; simpl; set_solver | split_and!; [done | done | cbn; lia]]).
Qed.

(** ** Facts *)

(** The points that are not dated too far into the future *)
Definition in_time (request_at : Z) (p : DataPoint) : bool :=
  (dp_timestamp p <=? i64 (request_at + FUTURE_DATAPOINT_TOLERANCE))%Z.

Lemma store_datapoints_spec store remote data request_at :
  store_datapoints store remote data request_at
  = (foldr Z.max 0%Z (dp_timestamp <$> List.filter (in_time request_at) data),
     concat (store remote <$> List.filter (in_time request_at) data)).
Proof.
  unfold store_datapoints, in_time. set (cutoff := i64 _). clearbody cutoff.
  assert (∀ acc : Z * rrd_log, (0 ≤ acc.1)%Z → foldl (λ acc p,
      if (cutoff <? dp_timestamp p)%Z then acc
      else (Z.max acc.1 (dp_timestamp p), (acc.2 ++ store remote p)%list)) acc data
    = (Z.max acc.1 (foldr Z.max 0%Z (dp_timestamp <$> List.filter (λ p, dp_timestamp p <=? cutoff)%Z data)),
       (acc.2 ++ concat (store remote <$> List.filter (λ p, dp_timestamp p <=? cutoff)%Z data))%list)) as H.
  - induction data as [|p data IH]; intros acc Hacc.
    { simpl. rw app_nil_r Z.max_l //. by destruct acc. }
    cbn [foldl List.filter]. destruct (Z.ltb_spec cutoff (dp_timestamp p)) as [Hlt | Hge].
    + rw IH //. by destruct (Z.leb_spec (dp_timestamp p) cutoff); [lia |].
    + rw IH; [by etrans; [| apply Z.le_max_l] |]. destruct (Z.leb_spec (dp_timestamp p) cutoff); [| lia]. cbn.
      by rw Z.max_assoc -app_assoc.
  - rw H //. cbn. f_equal. apply Z.max_r. clear H. induction (dp_timestamp <$> List.filter _ data); simpl; lia.
Qed.

Lemma foldr_max_bounds c (l : list Z) : (∀ z, z ∈ l → (z ≤ c)%Z) → (0 ≤ foldr Z.max 0 l ≤ Z.max 0 c)%Z.
Proof.
  induction l as [|z l IH]; simpl; intros Hl; [lia |]. pose proof (Hl z ltac:(by left)).
  destruct IH; [| lia]. intros z' Hz'. apply Hl. by right.
Qed.
Lemma most_recent_bounds store remote data request_at :
  (0 ≤ (store_datapoints store remote data request_at).1
   ≤ Z.max 0 (i64 (request_at + FUTURE_DATAPOINT_TOLERANCE)))%Z.
Proof.
  rw store_datapoints_spec. cbn [fst]. apply foldr_max_bounds.
  intros z (p & -> & [_ Hp]%list_elem_of_In%List.filter_In)%list_elem_of_fmap. by apply Z.leb_le in Hp.
Qed.

(** * Metrics of the host itself

    server/src/metric_collection/local_collection_task.rs.  The readings of the system are
    parameters; what the code keeps is the list of network interfaces, which is read again after
    five minutes.  An [Instant] is in nanoseconds. *)

#[local] Open Scope Z_scope.

Record NetdevCacheEntry := {
  nd_interfaces : gmap string bool;   (* is_physical *)
  nd_timestamp : Z;
}.
Definition NETWORK_INTERFACE_CACHE_MAX_AGE : Z := 300 * 1000000000.

(** [ProcFsNetDev]: device, received and sent bytes *)
Abbreviation net_dev := (string * Z * Z)%type.

Definition needs_refresh (cache : option NetdevCacheEntry) (now : Z) : bool :=
  match cache with
  | Some entry => NETWORK_INTERFACE_CACHE_MAX_AGE <? now - nd_timestamp entry
  | None => true
  end.

Definition add_net_dev (interfaces : gmap string bool) (acc : Z * Z) (d : net_dev) : Z * Z :=
  match interfaces !! d.1.1 with
  | Some true => (u64 (acc.1 + d.1.2), u64 (acc.2 + d.2))
  | _ => acc
  end.

(** The result and the cache; [interfaces] is the answer of [get_network_interfaces]. *)
Definition collect_netdev_metrics (net_devs : result string (list net_dev))
    (interfaces : result string (gmap string bool)) (now : Z) (cache : option NetdevCacheEntry)
    : result string (Z * Z) * option NetdevCacheEntry :=
  match net_devs with
  | Err e => (Err e, cache)
  | Ok net_devs =>
      match (if needs_refresh cache now
             then (λ i, Some {| nd_interfaces := i; nd_timestamp := now |}) <$> interfaces
             else Ok cache) with
      | Err e => (Err e, cache)
      | Ok cache =>
          (Ok (foldl (add_net_dev (from_option nd_interfaces ∅ cache)) (0, 0) net_devs), cache)
      end
  end.

(** What the system said, each reading on its own *)
Record host_readings := {
  hr_proc : result string (f64 * f64);
  hr_meminfo : result string (Z * Z * Z * Z);
  hr_load : result string (f64 * f64 * f64);
  hr_net_devs : result string (list net_dev);
  hr_interfaces : result string (gmap string bool);
  hr_blockdev : result string (Z * Z * Z * Z * Z);
  hr_filesystem : result string (Z * Z);
  hr_cpu_pressure : result string Pressure;
  hr_memory_pressure : result string Pressure;
  hr_io_pressure : result string Pressure;
}.
Definition ok {A} (r : result string A) : option A := match r with Ok a => Some a | Err _ => None end.

Definition collect_host_metrics (r : host_readings) (now : Z) (cache : option NetdevCacheEntry)
    : PdmHostMetrics * option NetdevCacheEntry :=
  let '(netstats, cache) := collect_netdev_metrics (hr_net_devs r) (hr_interfaces r) now cache in
  ({| hm_proc := ok (hr_proc r); hm_meminfo := ok (hr_meminfo r); hm_load := ok (hr_load r);
      hm_netstats := ok netstats; hm_blockdev := ok (hr_blockdev r); hm_filesystem := ok (hr_filesystem r);
      hm_cpu_pressure := ok (hr_cpu_pressure r); hm_memory_pressure := ok (hr_memory_pressure r);
      hm_io_pressure := ok (hr_io_pressure r) |}, cache).

(** [handle_tick]: the message for the storing task *)
Definition local_tick (r : host_readings) (now timestamp : Z) (cache : option NetdevCacheEntry)
    : RrdStoreRequest * option NetdevCacheEntry :=
  let '(m, cache) := collect_host_metrics r now cache in (StoreHost timestamp m, cache).

(** ** Facts *)
Definition sum_physical (interfaces : gmap string bool) (f : net_dev → Z) (l : list net_dev) : Z :=
  foldr Z.add 0 (f <$> List.filter (λ d, bool_decide (interfaces !! d.1.1 = Some true)) l).

Lemma add_net_devs interfaces l acc : acc = (u64 acc.1, u64 acc.2) →
  foldl (add_net_dev interfaces) acc l
  = (u64 (acc.1 + sum_physical interfaces (λ d, d.1.2) l), u64 (acc.2 + sum_physical interfaces (λ d, d.2) l)).
Proof.
  unfold sum_physical. revert acc. induction l as [|d l IH]; intros acc Hacc; simpl; [by rw !Z.add_0_r |].
  unfold add_net_dev at 2. destruct (interfaces !! d.1.1) as [[]|]; simpl; rw IH //=.
  - by unfold wrap_u; rw !Zmod_mod.
  - unfold wrap_u. rw !Zplus_mod_idemp_l. by rw -!Z.add_assoc.
Qed.

(** The traffic that is reported is that of the physical interfaces, modulo 2^64, and the list of
    interfaces that decides this is at most five minutes old. *)
Theorem netdev_metrics_spec net_devs interfaces now cache t cache' :
  collect_netdev_metrics net_devs interfaces now cache = (Ok t, cache') →
  ∃ l c, net_devs = Ok l ∧ cache' = Some c ∧ now - nd_timestamp c ≤ NETWORK_INTERFACE_CACHE_MAX_AGE ∧
    t = (u64 (sum_physical (nd_interfaces c) (λ d, d.1.2) l), u64 (sum_physical (nd_interfaces c) (λ d, d.2) l)).
Proof.
  unfold collect_netdev_metrics. destruct net_devs as [l|]; [| done]. destruct (needs_refresh cache now) eqn:Hr.
  - destruct interfaces as [i|]; [| done]. simpl. intros [= <- <-]. exists l, {| nd_interfaces := i; nd_timestamp := now |}.
    rw (add_net_devs i l (0, 0)) //. split_and!; [done | done | simpl; unfold NETWORK_INTERFACE_CACHE_MAX_AGE; lia | done].
  - destruct cache as [c|]; [| done]. simpl in *. intros [= <- <-]. exists l, c. apply Z.ltb_ge in Hr.
    by rw (add_net_devs (nd_interfaces c) l (0, 0)).
Qed.
