(* ===== verification/RrdData.v ===== *)
(** * Time series

    server/src/api/rrd_common.rs and the handlers of server/src/api/pve/rrddata.rs,
    server/src/api/pbs/rrddata.rs and server/src/api/nodes/rrddata.rs, with the data points of
    lib/pdm-api-types/src/rrddata.rs: the series of the fields of an object, read from the round
    robin database ([MetricStore]), become a list of data points.

    A data point is its time and the values of its members that are set.  What the database has
    for a name is the parameter [extract]: the start, the resolution and the values. *)
From Stdlib Require Import SpecFloat Sorted.
From S2P Require Import Prelude RustStr Resources MetricStore.

#[local] Open Scope string_scope.

Record RrdPoint := { pt_time : Z; pt_values : gmap string f64 }.

(** [DataPoint]: [fields], and the member that [set_field] assigns for a name *)
Class PointKind := {
  point_fields : list string;
  point_member : string → option string;
}.
Definition point_new (time : Z) : RrdPoint := {| pt_time := time; pt_values := ∅ |}.
Definition set_field `{PointKind} (name : string) (value : f64) (p : RrdPoint) : RrdPoint :=
  match point_member name with
  | Some m => {| pt_time := pt_time p; pt_values := <[m := value]> (pt_values p) |}
  | None => p
  end.

(** Members that are named like their fields *)
Definition same_names (fields : list string) : PointKind := {|
  point_fields := fields;
  point_member name := if decide (name ∈ fields) then Some name else None;
|}.
Definition NodeDataPoint : PointKind := same_names
  ["cpu_current"; "cpu_iowait"; "cpu_max"; "cpu_avg1"; "cpu_avg5"; "cpu_avg15"; "disk_total"; "disk_used"; "mem_total";
   "mem_used"; "swap_total"; "swap_used"; "net_in"; "net_out"; "uptime"].
Definition QemuDataPoint : PointKind := same_names
  ["cpu_current"; "cpu_max"; "disk_read"; "disk_write"; "disk_total"; "mem_total"; "mem_used"; "net_in"; "net_out"; "uptime"].
Definition LxcDataPoint : PointKind := same_names
  ["cpu_current"; "cpu_max"; "disk_read"; "disk_write"; "disk_total"; "disk_used"; "mem_total"; "mem_used"; "net_in"; "net_out";
   "uptime"].
Definition PveStorageDataPoint : PointKind := same_names ["disk_total"; "disk_used"].
Definition PbsNodeDataPoint : PointKind := {|
  point_fields :=
    ["cpu_current"; "cpu_iowait"; "cpu_avg1"; "cpu_avg5"; "cpu_avg15"; "disk_total"; "disk_used"; "disk_read"; "disk_write";
     "mem_total"; "mem_used"; "swap_total"; "swap_used"; "net_in"; "net_out"];
  point_member name :=
    if decide (name ∈ ["cpu_current"; "cpu_iowait"; "cpu_avg1"; "cpu_avg5"; "cpu_avg15"; "disk_total"; "disk_used"; "disk_read";
                       "disk_write"; "mem_total"; "mem_used"; "swap_total"; "swap_used"; "net_in"; "net_out"])
    then Some name else None;
|}.
Definition PbsDatastoreDataPoint : PointKind :=
  same_names ["disk_total"; "disk_used"; "disk_available"; "disk_read"; "disk_write"].
(** The names of the host have hyphens, its members underscores. *)
Fixpoint underscores (s : string) : string :=
  match s with "" => "" | String c s' => String (if Ascii.eqb c "-" then "_" else c)%char (underscores s') end.
Definition pdm_fields : list string :=
  ["cpu-current"; "cpu-iowait"; "cpu-avg1"; "cpu-avg5"; "cpu-avg15"; "cpu-pressure-some-avg10"; "disk-total"; "disk-used";
   "disk-read-iops"; "disk-write-iops"; "disk-read"; "disk-write"; "disk-io-ticks"; "io-pressure-some-avg10";
   "io-pressure-full-avg10"; "mem-total"; "mem-used"; "mem-pressure-some-avg10"; "mem-pressure-full-avg10"; "swap-total";
   "swap-used"; "net-in"; "net-out"; "metric-collection-total-time"].
Definition PdmNodeDatapoint : PointKind := {|
  point_fields := pdm_fields;
  point_member name := if decide (name ∈ pdm_fields) then Some (underscores name) else None;
|}.

(** ** Data points of series *)

(** [BTreeMap::entry(t).or_insert_with(|| T::new(t))], changed by [f], on the entries in order *)
Fixpoint entry (t : Z) (f : RrdPoint → RrdPoint) (m : list (Z * RrdPoint)) : list (Z * RrdPoint) :=
  match m with
  | [] => [(t, f (point_new t))]
  | (t', p) :: m' =>
      match Z.compare t t' with
      | Lt => (t, f (point_new t)) :: (t', p) :: m'
      | Eq => (t, f p) :: m'
      | Gt => (t', p) :: entry t f m'
      end
  end.

Definition rrd_series : Type := Z * Z * list (option f64).

Section points.
Context `{PointKind}.

(** The loop over the values of a series *)
Fixpoint add_values (name : string) (t resolution : Z) (data : list (option f64)) (m : list (Z * RrdPoint))
    : list (Z * RrdPoint) :=
  match data with
  | [] => m
  | value :: data' =>
      let f := match value with Some v => set_field name v | None => id end in
      add_values name (u64 (t + resolution)) resolution data' (entry t f m)
  end.

Context (extract : string → result string (option rrd_series)).

(** The loop over the fields, with the entries and the last resolution *)
Fixpoint add_fields (names : list string) (m : list (Z * RrdPoint)) (last_resolution : option Z)
    : result string (list (Z * RrdPoint)) :=
  match names with
  | [] => Ok m
  | name :: names' =>
      e ← extract name;
      match e with
      | None => add_fields names' m last_resolution
      | Some (start, resolution, data) =>
          _ ← bail_if (match last_resolution with Some r => negb (Z.eqb resolution r) | None => false end)
                "got unexpected RRD resolution";
          add_fields names' (add_values name start resolution data m) (Some (default resolution last_resolution))
      end
  end.
Definition create_datapoints_from_rrd : result string (list RrdPoint) :=
  match add_fields point_fields [] None with Ok m => Ok m.*2 | Err e => Err e end.
End points.

(** ** Handlers

    [read basedir timeframe name] is [RrdCache::extract_data].  The first part of the result is
    the remote whose collection is awaited before, for at most five seconds. *)
Section handlers.
Context (read : string → RrdTimeframe → AggregationFn → string → result string (option rrd_series)).

Definition get_rrd_datapoints (K : PointKind) (remote basepath : string) (timeframe : RrdTimeframe) (mode : AggregationFn)
    : option string * result string (list RrdPoint) :=
  (match timeframe with Hour => Some remote | _ => None end,
   create_datapoints_from_rrd (read basepath timeframe mode)).

Definition get_qemu_rrd_data (remote : string) (vmid : Z) :=
  get_rrd_datapoints QemuDataPoint remote ("pve/" ++ remote ++ "/qemu/" ++ show_int vmid).
Definition get_lxc_rrd_data (remote : string) (vmid : Z) :=
  get_rrd_datapoints LxcDataPoint remote ("pve/" ++ remote ++ "/lxc/" ++ show_int vmid).
Definition get_node_rrd_data (remote node : string) :=
  get_rrd_datapoints NodeDataPoint remote ("pve/" ++ remote ++ "/node/" ++ node).
Definition get_storage_rrd_data (remote node storage : string) :=
  get_rrd_datapoints PveStorageDataPoint remote ("pve/" ++ remote ++ "/storage/" ++ node ++ "/" ++ storage).
Definition get_pbs_node_rrd_data (remote : string) :=
  get_rrd_datapoints PbsNodeDataPoint remote ("pbs/" ++ remote ++ "/host").
Definition get_pbs_datastore_rrd_data (remote datastore : string) :=
  get_rrd_datapoints PbsDatastoreDataPoint remote ("pbs/" ++ remote ++ "/datastore/" ++ datastore).
(** [get_node_rrddata] of the host *)
Definition get_node_rrddata (node : string) (timeframe : RrdTimeframe) (mode : AggregationFn) : result string (list RrdPoint) :=
  _ ← bail_if (negb (String.eqb node "localhost")) "PDM only supports `localhost` as a `node` parameter";
  @create_datapoints_from_rrd PdmNodeDatapoint (read "nodes/localhost" timeframe mode).
End handlers.

(** ** What the points show *)

(** The values of a series by time *)
Definition covers (s : option rrd_series) (t : Z) : Prop :=
  match s with Some (start, r, data) => ∃ i : nat, (i < length data)%nat ∧ t = (start + r * Z.of_nat i)%Z | None => False end.
Definition shows (s : option rrd_series) (t : Z) (v : f64) : Prop :=
  match s with
  | Some (start, r, data) => ∃ i : nat, data !! i = Some (Some v) ∧ t = (start + r * Z.of_nat i)%Z
  | None => False
  end.
(** Times stay in 64 bits and grow. *)
Definition series_ok (s : option rrd_series) : Prop :=
  match s with Some (start, r, data) => (0 ≤ start ∧ 0 < r ∧ start + r * Z.of_nat (length data) < 2 ^ 64)%Z | None => True end.

Definition sorted_map (m : list (Z * RrdPoint)) : Prop := StronglySorted Z.lt m.*1.
Fixpoint lookup_time (t : Z) (m : list (Z * RrdPoint)) : option RrdPoint :=
  match m with [] => None | (t', p) :: m' => if Z.eqb t' t then Some p else lookup_time t m' end.

Lemma lookup_time_elem t m p : lookup_time t m = Some p → (t, p) ∈ m.
Proof.
  induction m as [|[t' p'] m IH]; simpl; [done |]. destruct (Z.eqb_spec t' t) as [-> | _].
  - intros [= ->]. left.
  - intros ?%IH. by right.
Qed.
Lemma elem_lookup_time t m p : sorted_map m → (t, p) ∈ m → lookup_time t m = Some p.
Proof.
  unfold sorted_map. induction m as [|[t' p'] m IH]; [by intros _ ?%not_elem_of_nil |]. rw fmap_cons. cbn [fst].
  intros [Hs Hle]%StronglySorted_inv [[= -> ->] | Hin]%elem_of_cons; simpl; [by rw Z.eqb_refl |].
  destruct (Z.eqb_spec t' t) as [-> | _]; [| by apply IH]. exfalso.
  rw Forall_forall in Hle. enough (t < t)%Z by lia. apply Hle. apply list_elem_of_fmap. by exists (t, p).
Qed.

Lemma entry_keys t f m x : x ∈ (entry t f m).*1 ↔ x = t ∨ x ∈ m.*1.
Proof.
  induction m as [|[t' p] m IH]; simpl; [set_solver |]. destruct (Z.compare_spec t t') as [-> | |]; simpl; [set_solver.. |].
  rw !elem_of_cons IH. set_solver.
Qed.
Lemma entry_sorted t f m : sorted_map m → sorted_map (entry t f m).
Proof.
  unfold sorted_map. induction m as [|[t' p] m IH]; simpl; [intros _; by repeat constructor |].
  intros [Hs Hle]%StronglySorted_inv. destruct (Z.compare_spec t t') as [-> | Hlt | Hgt]; simpl.
  - by constructor.
  - constructor; [by constructor |]. constructor; [done |]. eapply Forall_impl; [exact Hle |]. simpl. lia.
  - constructor; [by apply IH |]. apply Forall_forall. intros x [-> | Hx]%entry_keys; [done |]. by eapply Forall_forall in Hle.
Qed.
Lemma lookup_entry t f m t' : sorted_map m →
  lookup_time t' (entry t f m) = if Z.eqb t t' then Some (f (default (point_new t) (lookup_time t m))) else lookup_time t' m.
Proof.
  unfold sorted_map. induction m as [|[t1 p] m IH]; simpl; [by intros _; destruct (Z.eqb_spec t t') |].
  intros [Hs Hle]%StronglySorted_inv. destruct (Z.compare_spec t t1) as [-> | Hlt | Hgt]; simpl.
  - rw Z.eqb_refl. by destruct (Z.eqb_spec t1 t').
  - destruct (Z.eqb_spec t t') as [Et | _]; [| done]. destruct (Z.eqb_spec t1 t) as [-> | _]; [lia |].
    destruct (lookup_time t m) as [q|] eqn:E; [| done]. exfalso. apply lookup_time_elem in E.
    rw Forall_forall in Hle. enough (t1 < t)%Z by lia. apply Hle. apply list_elem_of_fmap. by exists (t, q).
  - rw (IH Hs). destruct (Z.eqb_spec t1 t) as [-> | _]; [lia |]. destruct (Z.eqb_spec t1 t') as [E1 | _]; [| done].
    destruct (Z.eqb_spec t t'); [lia | done].
Qed.

Section exact.
Context `{PointKind}.

Definition set_value (name : string) (value : option f64) : RrdPoint → RrdPoint :=
  match value with Some v => set_field name v | None => id end.
Lemma set_value_time name value p : pt_time (set_value name value p) = pt_time p.
Proof. destruct value; [| done]. simpl. unfold set_field. by destruct (point_member name). Qed.

Lemma add_values_spec name start r data m :
  sorted_map m → (0 ≤ start)%Z → (0 < r)%Z → (start + r * Z.of_nat (length data) < 2 ^ 64)%Z →
  let m' := add_values name start r data m in
  sorted_map m'
  ∧ (∀ i v, data !! i = Some v →
       let t := (start + r * Z.of_nat i)%Z in
       lookup_time t m' = Some (set_value name v (default (point_new t) (lookup_time t m))))
  ∧ (∀ t, ¬ covers (Some (start, r, data)) t → lookup_time t m' = lookup_time t m).
Proof.
  revert start m. induction data as [|v data IH]; intros start m Hm H0 Hr Hb m'; [done |].
  simpl length in Hb. subst m'. cbn [add_values].
  assert (u64 (start + r) = start + r)%Z as -> by (apply u64_id; nia).
  destruct (IH (start + r)%Z (entry start (set_value name v) m)) as (Hs & Hin & Hout); [by apply entry_sorted | lia.. |].
  split; [exact Hs |]. split.
  - intros i w Hi. set (t := (start + r * Z.of_nat i)%Z). destruct i as [|i]; simpl in Hi.
    + injection Hi as ->. subst t. rw Z.mul_0_r Z.add_0_r. rw Hout.
      * intros (i & _ & Hi). nia.
      * rw lookup_entry //. by rw Z.eqb_refl.
    + pose proof (Hin i w Hi) as Ht. cbn zeta in Ht. replace (start + r + r * Z.of_nat i)%Z with t in Ht by (subst t; lia).
      rw Ht lookup_entry //. destruct (Z.eqb_spec start t); [subst t; nia | done].
  - intros t Ht. rw Hout.
    + intros (i & Hi & ->). apply Ht. exists (S i). simpl. split; lia.
    + rw lookup_entry //. destruct (Z.eqb_spec start t) as [<- |]; [| done]. exfalso. apply Ht. exists 0%nat. simpl. split; lia.
Qed.

Context (extract : string → result string (option rrd_series)).
Hypothesis members_inj : ∀ n n' f, point_member n = Some f → point_member n' = Some f → n = n'.
Hypothesis series_fit : ∀ n s, extract n = Ok s → series_ok s.

(** What the entries show of the fields that were added *)
Record shown (names : list string) (m : list (Z * RrdPoint)) : Prop := {
  shown_sorted : sorted_map m;
  shown_time t p : lookup_time t m = Some p → pt_time p = t;
  shown_covered t : is_Some (lookup_time t m) ↔ ∃ n s, n ∈ names ∧ extract n = Ok s ∧ covers s t;
  shown_values t p f v : lookup_time t m = Some p →
    pt_values p !! f = Some v ↔ ∃ n s, n ∈ names ∧ point_member n = Some f ∧ extract n = Ok s ∧ shows s t v;
}.
Lemma shows_covers s t v : shows s t v → covers s t.
Proof. destruct s as [[[start r] data]|]; [| done]. intros (i & Hi & ->). exists i. split; [by apply lookup_lt_Some in Hi | done]. Qed.

Lemma shown_skip names m n : shown names m → extract n = Ok None → shown (names ++ [n])%list m.
Proof.
  intros [Hs Ht Hc Hv] Hn. split; [done | done | |].
  - intros t. rw Hc. split; intros (n' & s & Hin & He & Hcov).
    + exists n', s. rw elem_of_app. auto.
    + apply elem_of_app in Hin as [Hin | ->%list_elem_of_singleton]; [by exists n', s |]. rw Hn in He. by injection He as <-.
  - intros t p f v Hp. rw (Hv _ _ _ _ Hp). split; intros (n' & s & Hin & Hm & He & Hcov).
    + exists n', s. rw elem_of_app. auto.
    + apply elem_of_app in Hin as [Hin | ->%list_elem_of_singleton]; [by exists n', s |]. rw Hn in He. by injection He as <-.
Qed.

Lemma shown_series names m n start r data :
  shown names m → n ∉ names → extract n = Ok (Some (start, r, data)) →
  shown (names ++ [n])%list (add_values n start r data m).
Proof.
  intros [Hs Ht Hc Hv] Hnew Hn. pose proof (series_fit _ _ Hn) as (H0 & Hr & Hb).
  destruct (add_values_spec n start r data m Hs H0 Hr Hb) as (Hs' & Hin & Hout).
  set (m' := add_values n start r data m) in *.
  assert (∀ t, covers (Some (start, r, data)) t ∨ ¬ covers (Some (start, r, data)) t) as Hdec.
  { intros t. destruct (decide (Exists (λ i, t = (start + r * Z.of_nat i)%Z) (seq 0 (length data)))) as [HE | HE]; [left | right].
    - apply Exists_exists in HE as (i & Hi%elem_of_seq & E). exists i. split; [lia | exact E].
    - intros (i & Hi & E). apply HE, Exists_exists. exists i. split; [apply elem_of_seq; lia | exact E]. }
  assert (∀ t p, lookup_time t m' = Some p → (¬ covers (Some (start, r, data)) t ∧ lookup_time t m = Some p)
    ∨ ∃ i v, data !! i = Some v ∧ t = (start + r * Z.of_nat i)%Z ∧ p = set_value n v (default (point_new t) (lookup_time t m))) as Hcase.
  { intros t p Hp. destruct (Hdec t) as [(i & Hi & ->) | Hno]; [right | left; split; [done | by rw -(Hout _ Hno)]].
    apply lookup_lt_is_Some_2 in Hi as [v Hi]. exists i, v. pose proof (Hin i v Hi) as E. cbn zeta in E. rw Hp in E.
    injection E as ->. done. }
  split; [exact Hs' | | |].
  - intros t p [[_ Hp] | (i & v & Hi & Et & ->)]%Hcase; [by apply Ht |]. rw set_value_time.
    destruct (lookup_time t m) as [q|] eqn:E; [by apply Ht | done].
  - intros t. split.
    + intros [p [[_ Hp] | (i & v & Hi & -> & _)]%Hcase].
      * assert (is_Some (lookup_time t m)) as (n' & s & Hn' & He & Hcov)%Hc by eauto. exists n', s. rw elem_of_app. auto.
      * exists n, (Some (start, r, data)). rw elem_of_app list_elem_of_singleton. split; [by right |]. split; [done |].
        exists i. split; [by apply lookup_lt_Some in Hi | done].
    + intros (n' & s & [Hn' | ->%list_elem_of_singleton]%elem_of_app & He & Hcov).
      * destruct (Hdec t) as [(i & Hi & ->) | Hno].
        { apply lookup_lt_is_Some_2 in Hi as [v Hi]. rw (Hin i v Hi). by eexists. }
        rw (Hout _ Hno). apply Hc. by exists n', s.
      * rw Hn in He. injection He as <-. destruct Hcov as (i & Hi & ->). apply lookup_lt_is_Some_2 in Hi as [v Hi].
        rw (Hin i v Hi). by eexists.
  - intros t p f v Hp. transitivity ((∃ n' s, n' ∈ names ∧ point_member n' = Some f ∧ extract n' = Ok s ∧ shows s t v)
      ∨ (point_member n = Some f ∧ shows (Some (start, r, data)) t v)).
    2:{ split.
        - intros [(n' & s & Hn' & Hs2) | [Hm Hsh]]; [exists n', s; rw elem_of_app; auto |].
          exists n, (Some (start, r, data)). rw elem_of_app list_elem_of_singleton. auto.
        - intros (n' & s & [Hn' | ->%list_elem_of_singleton]%elem_of_app & Hm & He & Hsh); [left; by exists n', s |].
          rw Hn in He. injection He as <-. by right. }
    assert (∀ q, lookup_time t m = q →
      pt_values (default (point_new t) q) !! f = Some v ↔ ∃ n' s, n' ∈ names ∧ point_member n' = Some f ∧ extract n' = Ok s ∧ shows s t v) as Hold.
    { intros [q|] E; [by apply Hv |]. simpl. rw lookup_empty. split; [done |]. intros (n' & s & Hn' & _ & He & Hsh%shows_covers).
      assert (is_Some (lookup_time t m)) as [q Hq] by (apply Hc; by exists n', s). by rw E in Hq. }
    apply Hcase in Hp as [[Hno Hp] | (i & w & Hi & -> & ->)].
    { rw -(Hold _ Hp). split; [by left | intros [? | [_ Hx]]; [done |]].
      by destruct (Hno (shows_covers (Some (start, r, data)) t v Hx)). }
    assert (∀ v', shows (Some (start, r, data)) (start + r * Z.of_nat i)%Z v' ↔ w = Some v') as Hsh.
    { intros v'. split; [| by intros ->; exists i]. intros (j & Hj & E). assert (i = j) as <- by nia. congruence. }
    setoid_rewrite Hsh. rw -(Hold _ eq_refl). destruct w as [w|]; simpl.
    + unfold set_field. destruct (point_member n) as [f'|] eqn:Hm; simpl; [| naive_solver].
      destruct (decide (f' = f)) as [-> | Hne].
      * rw lookup_insert_eq. split; [intros [= ->]; by right |]. intros [Hx | [_ [= ->]]]; [| done]. exfalso.
        apply (Hold _ eq_refl) in Hx as (n' & s & Hn' & Hm' & _). by rw (members_inj _ _ _ Hm Hm') in Hnew.
      * rw lookup_insert_ne //. naive_solver.
    + naive_solver.
Qed.

(** ** Resolutions *)
Definition agrees (r : Z) (s : option rrd_series) : Prop := ∀ start r' data, s = Some (start, r', data) → r' = r.
Definition all_agree (r : Z) (names : list string) : Prop := ∀ n, n ∈ names → ∃ s, extract n = Ok s ∧ agrees r s.

Lemma all_agree_cons r n names : all_agree r (n :: names) ↔ (∃ s, extract n = Ok s ∧ agrees r s) ∧ all_agree r names.
Proof.
  split.
  - intros Ha. split; [apply Ha; left | intros n' Hn'; apply Ha; by right].
  - intros [Hn Ha] n' [-> | Hn']%elem_of_cons; [done | by apply Ha].
Qed.

Lemma add_fields_agree names m last :
  (∃ m', add_fields extract names m last = Ok m') ↔ ∃ r, from_option (r =.) True last ∧ all_agree r names.
Proof.
  revert m last. induction names as [|n names IH]; intros m last; cbn [add_fields].
  { split; [intros _ | intros _; by eexists]. exists (default 0%Z last). split; [by destruct last |]. by intros n ?%not_elem_of_nil. }
  setoid_rewrite all_agree_cons. destruct (extract n) as [[[[start r'] data]|]|e] eqn:He; cbn [mbind result_bind].
  - destruct last as [r0|]; cbn [default from_option].
    + destruct (Z.eqb_spec r' r0) as [-> | Hne]; simpl.
      * rw IH. simpl. split; intros (r & -> & Hr); exists r0; (split; [done |]).
        -- split; [| done]. exists (Some (start, r0, data)). split; [done |]. by intros ??? [= <- <- <-].
        -- apply Hr.
      * split; [by intros [m' [=]] |]. intros (r & -> & (s & [= <-] & Ha) & _). by destruct Hne, (Ha _ _ _ eq_refl).
    + simpl. rw IH. simpl. split.
      * intros (r & -> & Hr). exists r'. split; [done |]. split; [| done]. exists (Some (start, r', data)). split; [done |].
        by intros ??? [= <- <- <-].
      * intros (r & _ & (s & [= <-] & Ha) & Hr). exists r. split; [| done]. by rw (Ha _ _ _ eq_refl).
  - rw IH. split; intros (r & Hl & Hr); exists r; (split; [done |]); [split; [| done] | apply Hr].
    exists None. split; [done |]. by intros ??? [=].
  - split; [by intros [m' [=]] |]. by intros (r & _ & (s & [=] & _) & _).
Qed.

Lemma add_fields_shown names dn m last m' :
  NoDup (dn ++ names)%list → shown dn m → add_fields extract names m last = Ok m' → shown (dn ++ names)%list m'.
Proof.
  revert dn m last. induction names as [|n names IH]; intros dn m last Hnd Hm; cbn [add_fields].
  { rw app_nil_r. by intros [= <-]. }
  assert (n ∉ dn) as Hnew. { apply NoDup_app in Hnd as (_ & Hd & _). intros Hn. apply (Hd n Hn). left. }
  replace (dn ++ n :: names)%list with ((dn ++ [n]) ++ names)%list in Hnd |- * by by rw -app_assoc.
  destruct (extract n) as [[[[start r'] data]|]|e] eqn:He; cbn [mbind result_bind]; [| | done].
  - destruct (bail_if _ _) as [[]|]; cbn [mbind result_bind]; [| done]. apply IH; [done |]. by apply shown_series.
  - apply IH; [done |]. by apply shown_skip.
Qed.

Lemma shown_nil : shown [] [].
Proof.
  split; [constructor | done | |].
  - intros t. split; [by intros [? [=]] | by intros (n & s & ?%not_elem_of_nil & _)].
  - done.
Qed.
End exact.


(** ** The kinds of points *)
Definition kind_ok (K : PointKind) : Prop :=
  NoDup (@point_fields K) ∧ (∀ n, n ∈ @point_fields K → is_Some (@point_member K n))
  ∧ (∀ n n' f, @point_member K n = Some f → @point_member K n' = Some f → n = n').

Lemma named_alike_ok fields K : NoDup fields →
  @point_fields K = fields → (∀ n, @point_member K n = if decide (n ∈ fields) then Some n else None) → kind_ok K.
Proof.
  intros Hnd Hf Hm. split; [by rw Hf |]. split.
  - intros n Hn. rw Hm. rw Hf in Hn. by destruct (decide (n ∈ fields)).
  - intros n n' f. rw !Hm. destruct (decide (n ∈ fields)), (decide (n' ∈ fields)); congruence.
Qed.
Lemma pdm_kind_ok : kind_ok PdmNodeDatapoint.
Proof.
  split; [apply (bool_decide_unpack _); vm_compute; exact I |]. cbn. split.
  - intros n Hn. by destruct (decide (n ∈ pdm_fields)).
  - intros n n' f. destruct (decide (n ∈ pdm_fields)) as [Hn |]; [| done]. destruct (decide (n' ∈ pdm_fields)) as [Hn' |]; [| done].
    intros [= <-] [= E]. apply (NoDup_key underscores pdm_fields); [| done | done | done].
    apply (bool_decide_unpack _). vm_compute. exact I.
Qed.

(** Every kind of data point is laid out properly: no field is read twice, each is kept in a member,
    and no two in the same, so that the points show all of what is read. *)
Theorem kinds_ok : Forall kind_ok
  [NodeDataPoint; QemuDataPoint; LxcDataPoint; PveStorageDataPoint; PbsNodeDataPoint; PbsDatastoreDataPoint; PdmNodeDatapoint].
Proof.
  repeat (apply Forall_cons; split); [.. | apply pdm_kind_ok | apply Forall_nil; exact I];
    (eapply named_alike_ok; [| reflexivity | reflexivity]; apply (bool_decide_unpack _); vm_compute; exact I).
Qed.

(** Whatever the host reports is shown: the names under which its metrics are stored are those of
    the fields that are read. *)
Theorem host_metrics_shown t total cpu load cpu_pressure mem mem_pressure net fs dev io_pressure :
  up_name <$> (store_pdm_host_metrics t {|
      hm_proc := Some cpu; hm_meminfo := Some mem; hm_load := Some load; hm_netstats := Some net; hm_blockdev := Some dev;
      hm_filesystem := Some fs; hm_cpu_pressure := Some cpu_pressure; hm_memory_pressure := Some mem_pressure;
      hm_io_pressure := Some io_pressure |} ++ store_stats total t)%list
  ≡ₚ (λ f, "nodes/localhost/" ++ f)%string <$> @point_fields PdmNodeDatapoint.
Proof.
  destruct cpu, mem as [[[]]], load as [[]], net, dev as [[[[]]]], fs. cbn.
  match goal with |- ?l ≡ₚ ?k => let l' := eval vm_compute in l in let k' := eval vm_compute in k in change (l' ≡ₚ k') end.
  apply (bool_decide_unpack _). vm_compute. exact I.
Qed.

(** The free space of a PBS host, which a data point has a member for, is not among its fields. *)
Lemma pbs_available_unset name : @point_member PbsNodeDataPoint name ≠ Some "disk_available".
Proof. cbn. destruct (decide _) as [Hin |]; [| done]. intros [= ->]. revert Hin. apply (bool_decide_unpack _). vm_compute. exact I. Qed.

(** ** A concrete storage *)
Definition ex_series (name : string) : result string (option rrd_series) :=
  if String.eqb name "disk_total" then Ok (Some (0, 60, [Some (f64_of_Z 1); None])%Z)
  else Ok (Some (60, 60, [Some (f64_of_Z 2); Some (f64_of_Z 3)])%Z).
Definition ex_points : list RrdPoint :=
  match @create_datapoints_from_rrd PveStorageDataPoint ex_series with Ok l => l | Err _ => [] end.
Lemma ex_points_shown : (λ p, (pt_time p, pt_values p !! "disk_total", pt_values p !! "disk_used")) <$> ex_points
  = [(0, Some (f64_of_Z 1), None); (60, None, Some (f64_of_Z 2)); (120, None, Some (f64_of_Z 3))]%Z.
Proof. vm_compute. reflexivity. Qed.

