(* ===== verification/MetricCollection.v ===== *)
(** * Collecting metrics

    server/src/metric_collection/remote_collection_task.rs with the state it keeps
    (server/src/metric_collection/state.rs).  [fetch_remotes] starts a task per remote, bounded by
    a semaphore; the tasks send what they fetched over a bounded channel to the task that stores
    it and wait for its answer.  [collect_advance] is one step of these tasks between two await
    points and [collect_step] one step of the whole system. *)
From stdpp Require Import relations.
From S2P Require Import Prelude RustStr Remotes Disk ApiCache Resources MetricStore.

#[local] Open Scope Z_scope.

(** ** The state *)
Record RemoteStatus := {
  most_recent_datapoint : Z;
  last_collection : option Z;
  status_error : option string;
}.
Definition no_status : RemoteStatus :=
  {| most_recent_datapoint := 0; last_collection := None; status_error := None |}.
Abbreviation MetricState := (gmap string RemoteStatus).

(** The JSON of the state file *)
Class StateJson := {
  state_to_json : MetricState → file;
  state_from_json : file → option MetricState;
}.
Class StateJsonLaws `{StateJson} : Prop := {
  state_json_roundtrip s : state_from_json (state_to_json s) = Some s;
}.
Definition METRIC_COLLECTION_STATE_FILE : string := "metric-collection-state.json".

Section state_file.
Context `{StateJson}.

Definition load_or_default : IO (option MetricState) :=
  content ← file_read_optional_string METRIC_COLLECTION_STATE_FILE;
  mret match content with Some c => state_from_json c | None => Some ∅ end.
(** [MetricCollectionState::new]: errors are logged *)
Definition state_new : IO MetricState :=
  r ← attempt load_or_default;
  mret match r with Ok (Some s) => s | _ => ∅ end.
Definition state_save (s : MetricState) : IO () :=
  fs_replace METRIC_COLLECTION_STATE_FILE (state_to_json s).
End state_file.

Definition retain (check : string → bool) (s : MetricState) : MetricState :=
  filter (λ p, check p.1 = true) s.

(** ** Fetching *)
Definition MAX_CONCURRENT_CONNECTIONS : nat := 20.
Definition DEFAULT_COLLECTION_INTERVAL : Z := 600.
Definition MIN_COLLECTION_INTERVAL : Z := 10.
(** The size of the channel to the storing task (mod.rs) *)
Definition CHANNEL_SIZE : nat := 128.

(** What one run sees of the outside: the time at its start and at the start of each task, the
    answer of a remote to a request for the metrics from a time on, and how long it took *)
Record collect_env := {
  ce_now : Z;
  ce_started : string → Z;
  ce_answer : string → RemoteType → Z → result string (list DataPoint);
  ce_response_time : string → f64;
}.

Section collect.
Context (config : list (string * RemoteType)) (E : collect_env).

Definition config_get (name : string) : option RemoteType :=
  snd <$> find_by (λ p, String.eqb p.1 name) config.

Definition status_of (s : MetricState) (name : string) : RemoteStatus := default no_status (s !! name).

Definition recent (status : RemoteStatus) : bool :=
  i64 (ce_now E - default 0 (last_collection status)) <? MIN_COLLECTION_INTERVAL.

Definition request_of (name : string) (ty : RemoteType) (metrics : list DataPoint) : RrdStoreRequest :=
  match ty with
  | Pve => StorePve name metrics (ce_response_time E name) (ce_started E name)
  | Pbs => StorePbs name metrics (ce_response_time E name) (ce_started E name)
  end.

(** The end of [fetch_single_remote] *)
Definition finish (name : string) (status : RemoteStatus) (res : result string Z) : RemoteStatus :=
  match res with
  | Ok most_recent_timestamp =>
      {| most_recent_datapoint := most_recent_timestamp; last_collection := Some (ce_started E name);
         status_error := None |}
  | Err err =>
      {| most_recent_datapoint := most_recent_datapoint status; last_collection := last_collection status;
         status_error := Some err |}
  end.

(** Where the work on a remote is: not looked at yet, left out, or in the task spawned for it *)
Inductive phase :=
| Todo
| Gone
| Asking (ty : RemoteType) (status : RemoteStatus)
| Sending (status : RemoteStatus) (msg : RrdStoreRequest)
| Queued (status : RemoteStatus)
| Stored (status : RemoteStatus) (answer : option Z)
| Finished (status : RemoteStatus)
| Joined.

Record collect_state := {
  cs_free : nat;                               (* permits of the semaphore *)
  cs_procs : list (string * phase);            (* the remotes to fetch *)
  cs_queue : list (nat * RrdStoreRequest);     (* the channel; the number says who waits for an answer *)
  cs_rrd : rrd_log;
  cs_state : MetricState;
}.

Inductive action := Spawn | Ask (i : nat) | Send (i : nat) | Store | Receive (i : nat) | Join (i : nat).

Definition is_todo (p : string * phase) : bool := match p.2 with Todo => true | _ => false end.
Definition set_phase (i : nat) (name : string) (p : phase) (st : collect_state) : collect_state := {|
  cs_free := cs_free st; cs_procs := <[i := (name, p)]> (cs_procs st); cs_queue := cs_queue st;
  cs_rrd := cs_rrd st; cs_state := cs_state st |}.
Definition set_free (n : nat) (st : collect_state) : collect_state := {|
  cs_free := n; cs_procs := cs_procs st; cs_queue := cs_queue st; cs_rrd := cs_rrd st; cs_state := cs_state st |}.

Definition collect_advance (a : action) (st : collect_state) : option collect_state :=
  match a with
  | Spawn =>
      (* the next round of the loop over the remotes to fetch *)
      '(i, (name, _)) ← list_find is_todo (cs_procs st);
      let status := status_of (cs_state st) name in
      if recent status then Some (set_phase i name Gone st)
      else match cs_free st with
           | O => None
           | S k =>
               match config_get name with
               | Some ty => Some (set_free k (set_phase i name (Asking ty status) st))
               | None => Some (set_phase i name Gone st)
               end
           end
  | Ask i =>
      match cs_procs st !! i with
      | Some (name, Asking ty status) =>
          match ce_answer E name ty (most_recent_datapoint status) with
          | Err e => Some (set_free (S (cs_free st)) (set_phase i name (Finished (finish name status (Err e))) st))
          | Ok metrics => Some (set_phase i name (Sending status (request_of name ty metrics)) st)
          end
      | _ => None
      end
  | Send i =>
      match cs_procs st !! i with
      | Some (name, Sending status msg) =>
          if (length (cs_queue st) <? CHANNEL_SIZE)%nat
          then Some {| cs_free := cs_free st; cs_procs := <[i := (name, Queued status)]> (cs_procs st);
                       cs_queue := cs_queue st ++ [(i, msg)]; cs_rrd := cs_rrd st; cs_state := cs_state st |}
          else None
      | _ => None
      end
  | Store =>
      match cs_queue st with
      | (i, msg) :: queue =>
          let '(log, answer) := store_request msg in
          Some {| cs_free := cs_free st;
                  cs_procs := match cs_procs st !! i with
                              | Some (name, Queued status) => <[i := (name, Stored status answer)]> (cs_procs st)
                              | _ => cs_procs st
                              end;
                  cs_queue := queue; cs_rrd := cs_rrd st ++ log; cs_state := cs_state st |}
      | [] => None
      end
  | Receive i =>
      match cs_procs st !! i with
      | Some (name, Stored status answer) =>
          let res := match answer with Some t => Ok t | None => Err "channel closed"%string end in
          Some (set_free (S (cs_free st)) (set_phase i name (Finished (finish name status res)) st))
      | _ => None
      end
  | Join i =>
      (* [join_next], once all remotes were looked at *)
      if existsb is_todo (cs_procs st) then None
      else match cs_procs st !! i with
           | Some (name, Finished status) =>
               Some {| cs_free := cs_free st; cs_procs := <[i := (name, Joined)]> (cs_procs st);
                       cs_queue := cs_queue st; cs_rrd := cs_rrd st;
                       cs_state := <[name := status]> (cs_state st) |}
           | _ => None
           end
  end.

Definition collect_step (st st' : collect_state) : Prop := ∃ a, collect_advance a st = Some st'.

Definition collect_start (names : list string) (rrd : rrd_log) (s : MetricState) : collect_state := {|
  cs_free := MAX_CONCURRENT_CONNECTIONS; cs_procs := (λ name, (name, Todo)) <$> names; cs_queue := [];
  cs_rrd := rrd; cs_state := s |}.

Definition is_over (p : string * phase) : bool := match p.2 with Gone | Joined => true | _ => false end.
Definition collect_over (st : collect_state) : bool := forallb is_over (cs_procs st).

(** ** What a run does, remote by remote *)
Definition fetched (s : MetricState) (name : string) : option RemoteType :=
  if recent (status_of s name) then None else config_get name.

(** The answer of the remote, as a request to the storing task *)
Definition message (s : MetricState) (name : string) (ty : RemoteType) : result string RrdStoreRequest :=
  metrics ← ce_answer E name ty (most_recent_datapoint (status_of s name)); Ok (request_of name ty metrics).

Definition outcome (s : MetricState) (name : string) (ty : RemoteType) : RemoteStatus :=
  finish name (status_of s name)
    (msg ← message s name ty; ok_or (store_request msg).2 "channel closed"%string).

Definition fetch_remotes (names : list string) (s : MetricState) : MetricState :=
  foldl (λ acc name, match fetched s name with Some ty => <[name := outcome s name ty]> acc | None => acc end)
    s names.

(** What is stored for a remote *)
Definition stored_for (s : MetricState) (name : string) : rrd_log :=
  match fetched s name with
  | Some ty => match message s name ty with Ok msg => (store_request msg).1 | Err _ => [] end
  | None => []
  end.
End collect.

(** ** The task

    The task works on the state and the round robin database.  The configuration can fail to be
    read; then nothing is fetched.  A run of [fetch_remotes] stores in the order [te_arrange]
    gives, which stands for the interleaving of its tasks. *)
Record task_env := {
  te_config : option (list (string * RemoteType));
  te_run : collect_env;
  te_arrange : list string → list string;
}.

Definition arranged (T : task_env) (config : list (string * RemoteType)) (names : list string) (s : MetricState)
    : rrd_log :=
  concat (stored_for config (te_run T) s <$> te_arrange T names).

Definition run_fetch (T : task_env) (config : list (string * RemoteType)) (names : list string)
    (acc : MetricState * rrd_log) : MetricState * rrd_log :=
  (fetch_remotes config (te_run T) names acc.1, acc.2 ++ arranged T config names acc.1).

(** [handle_tick]; [total] is the time it took and [done] when it ended *)
Definition handle_tick (T : task_env) (done : Z) (total : f64) (acc : MetricState * rrd_log)
    : MetricState * rrd_log :=
  match te_config T with
  | Some config =>
      let acc := (retain (λ name, bool_decide (is_Some (config_get config name))) acc.1, acc.2) in
      let acc := run_fetch T config config.*1 acc in
      (acc.1, acc.2 ++ (store_request (StoreCollectionStats done total)).1)
  | None => acc
  end.

(** [ControlMsg::TriggerMetricCollection]; the caller is told when it is done, unless the
    configuration cannot be read. *)
Definition handle_control_message (T : task_env) (remote : option string) (acc : MetricState * rrd_log)
    : (MetricState * rrd_log) * bool :=
  match te_config T with
  | Some config =>
      (run_fetch T config match remote with Some r => [r] | None => config.*1 end acc, true)
  | None => (acc, false)
  end.

(** [fetch_overdue]; [left] is the time until the timer first fires, in whole seconds *)
Definition is_overdue (now left interval : Z) (s : MetricState) (name : string) : bool :=
  interval <? i64 (i64 (now - default 0 (s !! name ≫= last_collection)) + left).
Definition fetch_overdue (T : task_env) (config : list (string * RemoteType)) (now left interval : Z)
    (acc : MetricState * rrd_log) : MetricState * rrd_log :=
  run_fetch T config (List.filter (is_overdue now left interval acc.1) config.*1) acc.

(** The start of [run], before the loop *)
Definition run_start (T : task_env) (now left : Z) (acc : MetricState * rrd_log) : MetricState * rrd_log :=
  match te_config T with
  | Some config => fetch_overdue T config now left DEFAULT_COLLECTION_INTERVAL acc
  | None => acc
  end.

(** [next_aligned_instant] of server/src/task_utils.rs: how long to wait; [epoch] is the time
    since 1970, [None] if the clock is before. *)
Definition next_aligned (seconds : Z) (epoch : option Z) : Z :=
  match epoch with Some t => seconds - t `mod` seconds | None => seconds end.

(** One round of the loop in [run]: an event and the attempt to save the state *)
Inductive event :=
| Tick (T : task_env) (done : Z) (total : f64)
| Control (T : task_env) (remote : option string).
Section run.
Context `{StateJson}.

Definition handle_event (e : event) (acc : MetricState * rrd_log) : MetricState * rrd_log :=
  match e with
  | Tick T done total => handle_tick T done total acc
  | Control T remote => (handle_control_message T remote acc).1
  end.
Definition run_round (e : event) (acc : MetricState * rrd_log) : IO (MetricState * rrd_log) :=
  let acc := handle_event e acc in
  _ ← attempt (state_save acc.1);
  mret acc.
End run.

(** [remote_metric_collection_status] of mod.rs: the configured remotes with a status *)
Definition remote_metric_collection_status (config : list (string * RemoteType)) (s : MetricState)
    : list (string * option string * option Z) :=
  filter_map (λ p, (λ st, (p.1, status_error st, last_collection st)) <$> s !! p.1) config.
