(* ===== verification/MetricFacts.v ===== *)
(** * Collecting metrics: permits, the channel, progress and results

    The invariant of the tasks that a run of [fetch_remotes] starts.  [order] in [rrd_ok] is the
    order in which the remotes got done with storing; it is all that differs between runs. *)
From stdpp Require Import relations.
From S2P Require Import Prelude RustStr Remotes Disk ApiCache Resources MetricStore MetricCollection.

#[local] Open Scope nat_scope.

Lemma fetch_remotes_lookup config E names s0 name :
  fetch_remotes config E names s0 !! name
  = if decide (name ∈ names)
    then match fetched config E s0 name with Some ty => Some (outcome E s0 name ty) | None => s0 !! name end
    else s0 !! name.
Proof.
  unfold fetch_remotes. set (fetched := fetched config E s0).
  assert (∀ acc : MetricState,
    foldl (λ acc name, match fetched name with Some ty => <[name := outcome E s0 name ty]> acc | None => acc end) acc names !! name
    = if decide (name ∈ names) then match fetched name with Some ty => Some (outcome E s0 name ty) | None => acc !! name end
      else acc !! name) as H; [| apply H].
  induction names as [|n ns IH]; intros acc; simpl; [done |]. rw IH.
  destruct (decide (name = n)) as [-> | Hne].
  - rw (decide_True _ _ (P := n ∈ n :: ns)); [by left |].
    destruct (fetched n) eqn:Hf; [rw lookup_insert_eq; by destruct (decide _) | by destruct (decide _)].
  - assert ((match fetched n with Some ty => <[n := outcome E s0 n ty]> acc | None => acc end) !! name = acc !! name) as ->.
    { destruct (fetched n); [by rw lookup_insert_ne | done]. }
    apply decide_ext. set_solver.
Qed.

Section facts.
Context (config : list (string * RemoteType)) (E : collect_env).
Context (names : list string) (rrd0 : rrd_log) (s0 : MetricState).
Context (Hnd : NoDup names).
Abbreviation fetched := (fetched config E s0).
Abbreviation message := (message E s0).
Abbreviation advance := (collect_advance config E).
Abbreviation step := (collect_step config E).
Abbreviation procs := (list (string * phase)).
Implicit Types (st : collect_state) (p : phase) (l : procs).

(** ** The invariant *)

(** A phase of the work on the remote [name] *)
Definition phase_ok (name : string) (p : phase) : Prop :=
  match p with
  | Todo => True
  | Gone => fetched name = None
  | Asking ty s => s = status_of s0 name ∧ fetched name = Some ty
  | Sending s msg => s = status_of s0 name ∧ ∃ ty, fetched name = Some ty ∧ message name ty = Ok msg
  | Queued s => s = status_of s0 name
  | Stored s answer =>
      s = status_of s0 name ∧
      ∃ ty msg, fetched name = Some ty ∧ message name ty = Ok msg ∧ answer = (store_request msg).2
  | Finished s => ∃ ty, fetched name = Some ty ∧ s = outcome E s0 name ty
  | Joined => ∃ ty, fetched name = Some ty
  end.

Definition holds (q : string * phase) : nat :=
  match q.2 with Asking _ _ | Sending _ _ | Queued _ | Stored _ _ => 1 | _ => 0 end.
Definition settled (q : string * phase) : bool :=
  match q.2 with Gone | Stored _ _ | Finished _ | Joined => true | _ => false end.
Definition is_queued p : bool := match p with Queued _ => true | _ => false end.
Definition is_joined p : bool := match p with Joined => true | _ => false end.

Definition queue_ok l (queue : list (nat * RrdStoreRequest)) : Prop :=
  NoDup queue.*1 ∧ length queue ≤ CHANNEL_SIZE ∧
  (∀ i msg, (i, msg) ∈ queue →
     ∃ name ty s, l !! i = Some (name, Queued s) ∧ fetched name = Some ty ∧ message name ty = Ok msg) ∧
  (∀ i name s, l !! i = Some (name, Queued s) → i ∈ queue.*1).

Definition state_ok l (s : MetricState) : Prop :=
  (∀ name, name ∉ names → s !! name = s0 !! name) ∧
  (∀ i name p, l !! i = Some (name, p) →
     s !! name = if is_joined p then match fetched name with Some ty => Some (outcome E s0 name ty) | None => None end
                 else s0 !! name) ∧
  (existsb is_todo l = true → s = s0).

Definition rrd_ok l (rrd : rrd_log) : Prop :=
  ∃ order, rrd = rrd0 ++ concat (stored_for config E s0 <$> order) ∧ order ≡ₚ (List.filter settled l).*1.

Record collect_inv st : Prop := {
  ci_names : (cs_procs st).*1 = names;
  ci_permits : cs_free st + sum_list_with holds (cs_procs st) = MAX_CONCURRENT_CONNECTIONS;
  ci_phases : ∀ i name p, cs_procs st !! i = Some (name, p) → phase_ok name p;
  ci_queue : queue_ok (cs_procs st) (cs_queue st);
  ci_state : state_ok (cs_procs st) (cs_state st);
  ci_rrd : rrd_ok (cs_procs st) (cs_rrd st);
}.

Lemma collect_start_inv : collect_inv (collect_start names rrd0 s0).
Proof.
  assert (∀ i name p, ((λ n, (n, Todo)) <$> names) !! i = Some (name, p) → p = Todo) as Htodo.
  { intros i name p Hi. rw list_lookup_fmap in Hi. by destruct (names !! i); simplify_eq/=. }
  split; simpl.
  - rw -list_fmap_compose. apply list_fmap_id.
  - rw sum_zero; [| done]. by intros q (n & -> & _)%list_elem_of_fmap.
  - by intros i name p ->%Htodo.
  - split_and!; [constructor | simpl; unfold CHANNEL_SIZE; lia | by intros ?? ?%not_elem_of_nil |].
    intros i name s Hi%Htodo. done.
  - split_and!; [done | by intros i name p ->%Htodo | done].
  - exists []. rw app_nil_r. split; [done |]. clear. by induction names.
Qed.

(** ** Changing the phase of a remote *)
Section change.
Context l (i : nat) (name : string) p p' (Hi : l !! i = Some (name, p)).
Abbreviation l' := (<[i := (name, p')]> l).

Lemma change_lookup j name' q : l' !! j = Some (name', q) →
  (j = i ∧ name' = name ∧ q = p') ∨ (j ≠ i ∧ l !! j = Some (name', q)).
Proof.
  destruct (decide (j = i)) as [-> | Hne]; [| rw list_lookup_insert_ne //; auto].
  rw list_lookup_insert_eq; [by eapply lookup_lt_Some |]. intros [= <- <-]. auto.
Qed.

Lemma change_names : l'.*1 = l.*1.
Proof. rw list_fmap_insert. simpl. apply list_insert_id. by rw list_lookup_fmap Hi. Qed.

Lemma change_phases : (∀ j n q, l !! j = Some (n, q) → phase_ok n q) → phase_ok name p' →
  ∀ j n q, l' !! j = Some (n, q) → phase_ok n q.
Proof. intros Hl Hp j n q [(-> & -> & ->) | [_ Hj]]%change_lookup; [done | by eapply Hl]. Qed.

Lemma change_queue queue : is_queued p = false → is_queued p' = false → queue_ok l queue → queue_ok l' queue.
Proof.
  intros Hp Hp' (Hn & Hlen & Hq & Hl). split_and!; [done.. | |].
  - intros j msg Hj. destruct (Hq j msg Hj) as (n & ty & s & Hjs & Hrest). exists n, ty, s. split; [| done].
    destruct (decide (j = i)) as [-> | Hne]; [| by rw list_lookup_insert_ne]. rw Hi in Hjs. by simplify_eq.
  - intros j n s [(_ & _ & <-) | [_ Hj]]%change_lookup; [done | by eapply Hl].
Qed.

Lemma existsb_is_todo (q : phase) : is_todo (name, q) = false → existsb is_todo (<[i := (name, q)]> l) = true →
  existsb is_todo l = true.
Proof.
  intros Hq (x & Hx%list_elem_of_In & Ht)%List.existsb_exists. apply List.existsb_exists.
  apply list_elem_of_lookup in Hx as [j Hj]. exists x. split; [| done]. apply list_elem_of_In, (list_elem_of_lookup_2 _ j).
  destruct (decide (j = i)) as [-> | Hne]; [| by rw list_lookup_insert_ne in Hj].
  rw list_lookup_insert_eq in Hj; [by eapply lookup_lt_Some |]. injection Hj as <-. congruence.
Qed.

Lemma change_state s : is_joined p = false → is_joined p' = false → is_todo (name, p') = false →
  state_ok l s → state_ok l' s.
Proof.
  intros Hp Hp' Ht (Hout & Hin & Htodo). split_and!; [done | |].
  - intros j n q [(-> & -> & ->) | [_ Hj]]%change_lookup; [| by apply (Hin j)]. by rw (Hin i name p Hi) Hp Hp'.
  - intros Hx. apply Htodo. by apply (existsb_is_todo p').
Qed.

Lemma change_split : ∃ l1 l2, l = l1 ++ (name, p) :: l2 ∧ l' = l1 ++ (name, p') :: l2.
Proof.
  exists (take i l), (drop (S i) l). split; [by rw take_drop_middle |].
  apply insert_take_drop. by eapply lookup_lt_Some.
Qed.

Lemma filter_change : settled (name, p) = false →
  (List.filter settled l').*1 ≡ₚ if settled (name, p') then name :: (List.filter settled l).*1 else (List.filter settled l).*1.
Proof.
  intros Hp. destruct change_split as (l1 & l2 & -> & ->). rw !List.filter_app. cbn [List.filter]. rw Hp.
  destruct (settled (name, p')); [| done]. by rw !fmap_app fmap_cons -Permutation_middle.
Qed.

Lemma change_rrd_same rrd : settled (name, p) = false → settled (name, p') = false → rrd_ok l rrd → rrd_ok l' rrd.
Proof. intros Hp Hp' (order & Hr & Ho). exists order. split; [done |]. by rw filter_change // Hp'. Qed.

Lemma change_rrd rrd log : settled (name, p) = false → settled (name, p') = true →
  log = stored_for config E s0 name → rrd_ok l rrd → rrd_ok l' (rrd ++ log).
Proof.
  intros Hp Hp' -> (order & -> & Ho). exists (order ++ [name]). split.
  - by rw fmap_app concat_app /= app_nil_r app_assoc.
  - by rw filter_change // Hp' Ho -Permutation_cons_append.
Qed.

Lemma change_rrd_settled rrd : settled (name, p) = true → settled (name, p') = true → rrd_ok l rrd → rrd_ok l' rrd.
Proof.
  intros Hp Hp' (order & -> & Ho). exists order. split; [done |]. rw Ho. apply reflexive_eq.
  destruct change_split as (l1 & l2 & -> & ->). rw !List.filter_app. cbn [List.filter].
  by rw Hp Hp' !fmap_app !fmap_cons.
Qed.

Lemma change_permits (free free' : nat) :
  free + sum_list_with holds l = MAX_CONCURRENT_CONNECTIONS → free' + holds (name, p') = free + holds (name, p) →
  free' + sum_list_with holds l' = MAX_CONCURRENT_CONNECTIONS.
Proof. intros Hl Hp. pose proof (sum_insert holds l i (name, p) (name, p') Hi). lia. Qed.
End change.

(** ** Every step keeps the invariant *)
Lemma stored_nothing name : fetched name = None → stored_for config E s0 name = [].
Proof. unfold stored_for. by intros ->. Qed.

Lemma rrd_ok_nil l rrd log : log = [] → rrd_ok l (rrd ++ log) → rrd_ok l rrd.
Proof. intros ->. by rw app_nil_r. Qed.

(** A remote that is not queued and not joined moves on; nothing is stored and no state is set. *)
Lemma move_inv st i name p p' free :
  collect_inv st → cs_procs st !! i = Some (name, p) →
  is_queued p = false → is_queued p' = false → is_joined p = false → is_joined p' = false →
  is_todo (name, p') = false → phase_ok name p' →
  free + holds (name, p') = cs_free st + holds (name, p) →
  (settled (name, p) = settled (name, p')
   ∨ settled (name, p) = false ∧ settled (name, p') = true ∧ stored_for config E s0 name = []) →
  collect_inv (set_free free (set_phase i name p' st)).
Proof.
  intros [Hn Hf Hp Hq Hs Hr] Hi Hq1 Hq2 Hj1 Hj2 Ht Hok Hfree Hset. split; simpl.
  - rw (change_names _ _ _ p); done.
  - by eapply change_permits.
  - by eapply change_phases.
  - by eapply change_queue.
  - by eapply change_state.
  - destruct Hset as [Hset | (H1 & H2 & H3)].
    + destruct (settled (name, p)) eqn:Hsp; [by eapply change_rrd_settled | by eapply change_rrd_same].
    + eapply (rrd_ok_nil _ _ _ H3). by eapply change_rrd.
Qed.

Lemma free_unchanged st i name p : set_phase i name p st = set_free (cs_free st) (set_phase i name p st).
Proof. done. Qed.

Lemma spawn_inv st st' : collect_inv st → advance Spawn st = Some st' → collect_inv st'.
Proof.
  intros Hinv. simpl. destruct (list_find is_todo (cs_procs st)) as [[i [name q]]|] eqn:Hfind; [| done].
  apply list_find_Some in Hfind as (Hi & Hq & _). simpl. destruct q; try done.
  assert (cs_state st = s0) as Hs0.
  { apply (ci_state _ Hinv). apply List.existsb_exists. exists (name, Todo). split; [| done].
    apply list_elem_of_In. by eapply list_elem_of_lookup_2. }
  rw Hs0. unfold MetricCollection.fetched in *.
  destruct (recent E (status_of s0 name)) eqn:Hrec.
  { intros [= <-]. rw free_unchanged. assert (fetched name = None) as Hf by (unfold MetricCollection.fetched; by rw Hrec).
    eapply move_inv; try done. right. split_and!; [done.. | by apply stored_nothing]. }
  assert (fetched name = config_get config name) as Hf by (unfold MetricCollection.fetched; by rw Hrec).
  destruct (cs_free st) as [|k] eqn:Hk; [done |]. destruct (config_get config name) as [ty|] eqn:Hc; intros [= <-].
  - eapply move_inv; try done; [rw Hk; cbn; lia | by left].
  - rw free_unchanged. eapply move_inv; try done. right. split_and!; [done.. | by apply stored_nothing].
Qed.

Lemma ask_inv st st' i : collect_inv st → advance (Ask i) st = Some st' → collect_inv st'.
Proof.
  intros Hinv. simpl. destruct (cs_procs st !! i) as [[name p]|] eqn:Hi; [| done]. destruct p; try done.
  destruct (ci_phases _ Hinv i name _ Hi) as [-> Hf].
  assert (∀ r, ce_answer E name ty (most_recent_datapoint (status_of s0 name)) = r →
    message name ty = (m ← r; Ok (request_of E name ty m))) as Hm by by intros r <-.
  destruct (ce_answer _ _ _ _) as [metrics|e] eqn:Ha; intros [= <-].
  - rw free_unchanged. eapply move_inv; try done; [| by left]. split; [done |]. exists ty. by rw (Hm _ eq_refl).
  - eapply move_inv; try done.
    + exists ty. split; [done |]. unfold outcome. by rw (Hm _ eq_refl).
    + cbn. lia.
    + right. split_and!; [done.. |]. unfold stored_for. by rw Hf (Hm _ eq_refl).
Qed.

Lemma receive_inv st st' i : collect_inv st → advance (Receive i) st = Some st' → collect_inv st'.
Proof.
  intros Hinv. simpl. destruct (cs_procs st !! i) as [[name p]|] eqn:Hi; [| done]. destruct p as [| | | | |s a| |]; try done.
  destruct (ci_phases _ Hinv i name _ Hi) as (-> & ty & msg & Hf & Hm & ->). intros [= <-].
  eapply move_inv; try done; [| cbn; lia | by left].
  exists ty. split; [done |]. unfold outcome. rw Hm. simpl. by destruct (store_request msg).2.
Qed.

Lemma send_inv st st' i : collect_inv st → advance (Send i) st = Some st' → collect_inv st'.
Proof.
  intros [Hn Hf Hp Hq Hs Hr]. simpl. destruct (cs_procs st !! i) as [[name p]|] eqn:Hi; [| done].
  destruct p as [| | |s msg| | | |]; try done. destruct (Hp i name _ Hi) as (-> & ty & Hty & Hm).
  destruct (Nat.ltb_spec (length (cs_queue st)) CHANNEL_SIZE) as [Hlen |]; [| done]. intros [= <-]. split; simpl.
  - rw (change_names _ _ _ (Sending (status_of s0 name) msg)); done.
  - eapply change_permits; [done.. |]. cbn. lia.
  - by eapply change_phases.
  - destruct Hq as (Hnq & Hlq & Hq & Hl). split_and!.
    + rw fmap_app. apply NoDup_app. split_and!; [done | | by apply NoDup_singleton].
      intros j ([j' m] & -> & Hj)%list_elem_of_fmap Hji%list_elem_of_singleton. simpl in Hji. subst j'.
      destruct (Hq _ _ Hj) as (n & ty' & s' & Hjl & _). by rw Hi in Hjl.
    + rw length_app. simpl. lia.
    + intros j m [Hj | [= -> ->]%list_elem_of_singleton]%elem_of_app.
      * destruct (Hq _ _ Hj) as (n & ty' & s' & Hjl & Hrest). exists n, ty', s'. split; [| done].
        destruct (decide (j = i)) as [-> | Hne]; [by rw Hi in Hjl | by rw list_lookup_insert_ne].
      * exists name, ty, (status_of s0 name). split; [| done]. apply list_lookup_insert_eq. by eapply lookup_lt_Some.
    + intros j n s' Hj. rw fmap_app. apply elem_of_app.
      apply (change_lookup _ _ _ _ _ Hi) in Hj as [(-> & _) | [_ Hj]]; [right; by left | left; by eapply Hl].
  - by eapply change_state.
  - by eapply change_rrd_same.
Qed.

Lemma store_inv st st' : collect_inv st → advance Store st = Some st' → collect_inv st'.
Proof.
  intros [Hn Hf Hp Hq Hs Hr]. simpl. destruct (cs_queue st) as [|[i msg] queue] eqn:Hqueue; [done |].
  destruct Hq as (Hnq & Hlq & Hq & Hl). destruct (Hq i msg ltac:(by left)) as (name & ty & s & Hi & Hty & Hm).
  rw Hi. pose proof (Hp i name _ Hi) as ->. destruct (store_request msg) as [log answer] eqn:Hst. intros [= <-].
  apply NoDup_cons in Hnq as [Hiq Hnq]. split; simpl.
  - rw (change_names _ _ _ (Queued (status_of s0 name))); done.
  - eapply change_permits; [done.. |]. cbn. lia.
  - eapply change_phases; [done.. |]. split; [done |]. exists ty, msg. by rw Hst.
  - split_and!; [done | simpl in Hlq; lia | |].
    + intros j m Hj. destruct (Hq j m ltac:(by right)) as (n & ty' & s' & Hjl & Hrest). exists n, ty', s'. split; [| done].
      rw list_lookup_insert_ne //. intros <-. apply Hiq. by eapply list_elem_of_fmap_2' in Hj.
    + intros j n s' Hj. apply (change_lookup _ _ _ _ _ Hi) in Hj as [(_ & _ & [=]) | [Hne Hj]].
      by apply Hl, elem_of_cons in Hj as [? | ?].
  - by eapply change_state.
  - eapply change_rrd; try done. unfold stored_for. by rw Hty Hm Hst.
Qed.

Lemma names_unique l i j name p q : l.*1 = names → l !! i = Some (name, p) → l !! j = Some (name, q) → i = j.
Proof.
  intros Hl Hi Hj. eapply (NoDup_lookup names); [done | |]; rw -Hl list_lookup_fmap; [by rw Hi | by rw Hj].
Qed.

Lemma join_inv st st' i : collect_inv st → advance (Join i) st = Some st' → collect_inv st'.
Proof.
  intros [Hn Hf Hp Hq Hs Hr]. simpl. destruct (existsb is_todo (cs_procs st)) eqn:Htodo; [done |].
  destruct (cs_procs st !! i) as [[name p]|] eqn:Hi; [| done]. destruct p as [| | | | | |s|]; try done.
  destruct (Hp i name _ Hi) as (ty & Hty & ->). intros [= <-]. split; simpl.
  - rw (change_names _ _ _ (Finished (outcome E s0 name ty))); done.
  - eapply change_permits; [done.. |]. cbn. lia.
  - eapply change_phases; [done.. |]. by exists ty.
  - by eapply change_queue.
  - destruct Hs as (Hout & Hin & Hs0). split_and!.
    + intros n Hnn. rw lookup_insert_ne; [| by apply Hout]. intros <-. apply Hnn. rw -Hn.
      apply list_elem_of_fmap. exists (name, Finished (outcome E s0 name ty)). split; [done |]. by eapply list_elem_of_lookup_2.
    + intros j n q Hj. apply (change_lookup _ _ _ _ _ Hi) in Hj as [(-> & -> & ->) | [Hne Hj]].
      * by rw lookup_insert_eq Hty.
      * rw lookup_insert_ne; [| by apply (Hin j)]. intros <-. apply Hne. by eapply names_unique.
    + intros Hx. apply (existsb_is_todo _ _ _ _ Hi Joined) in Hx; [| done]. congruence.
  - by eapply change_rrd_settled.
Qed.

Lemma collect_step_inv st st' : collect_inv st → step st st' → collect_inv st'.
Proof.
  intros Hinv [[] Ha]; [by eapply spawn_inv | by eapply ask_inv | by eapply send_inv | by eapply store_inv
    | by eapply receive_inv | by eapply join_inv].
Qed.

Lemma collect_reachable_inv st : rtc step (collect_start names rrd0 s0) st → collect_inv st.
Proof.
  intros Hr. assert (∀ a b, rtc step a b → collect_inv a → collect_inv b) as H.
  { induction 1; [done |]. intros Ha. eauto using collect_step_inv. }
  eapply H; [done | apply collect_start_inv].
Qed.

(** ** Termination *)
Definition work_left (q : string * phase) : nat :=
  match q.2 with
  | Todo => 6 | Asking _ _ => 5 | Sending _ _ => 4 | Queued _ => 3 | Stored _ _ => 2 | Finished _ => 1
  | Gone | Joined => 0
  end.
Definition collect_left st : nat := sum_list_with work_left (cs_procs st).

Lemma work_less l i q q' : l !! i = Some q → work_left q' < work_left q →
  sum_list_with work_left (<[i := q']> l) < sum_list_with work_left l.
Proof. intros Hi Hq. pose proof (sum_insert work_left l i q q' Hi). lia. Qed.

Lemma step_less st st' : collect_inv st → step st st' → collect_left st' < collect_left st.
Proof.
  intros Hinv [a Ha]. unfold collect_left. destruct a; simpl in Ha.
  - destruct (list_find is_todo (cs_procs st)) as [[i [name q]]|] eqn:Hfind; [| done].
    apply list_find_Some in Hfind as (Hi & Hq & _). simpl in Ha. destruct q; try done.
    destruct (recent _ _); [injection Ha as <-; by eapply work_less; [done | cbn; lia] |].
    destruct (cs_free st); [done |].
    destruct (config_get config name); injection Ha as <-; (eapply work_less; [done | cbn; lia]).
  - destruct (cs_procs st !! i) as [[name []]|] eqn:Hi; try done.
    destruct (ce_answer _ _ _ _); injection Ha as <-; (eapply work_less; [done | cbn; lia]).
  - destruct (cs_procs st !! i) as [[name []]|] eqn:Hi; try done.
    destruct (_ <? _); [| done]. injection Ha as <-. eapply work_less; [done | cbn; lia].
  - destruct (cs_queue st) as [|[i msg] queue] eqn:Hqueue; [done |].
    destruct (ci_queue _ Hinv) as (_ & _ & Hq & _). rw Hqueue in Hq.
    destruct (Hq i msg ltac:(by left)) as (name & ty & s & Hi & _). rw Hi in Ha.
    destruct (store_request msg). injection Ha as <-. eapply work_less; [done | cbn; lia].
  - destruct (cs_procs st !! i) as [[name []]|] eqn:Hi; try done. injection Ha as <-. eapply work_less; [done | cbn; lia].
  - destruct (existsb _ _); [done |]. destruct (cs_procs st !! i) as [[name []]|] eqn:Hi; try done.
    injection Ha as <-. eapply work_less; [done | cbn; lia].
Qed.

Lemma steps_bounded n st : nsteps step n (collect_start names rrd0 s0) st → n + collect_left st ≤ 6 * length names.
Proof.
  intros Hn. assert (collect_left (collect_start names rrd0 s0) = 6 * length names) as <-.
  { unfold collect_left. cbn [cs_procs collect_start]. clear. induction names as [|x l IH]; [done |].
    rw fmap_cons. cbn [sum_list_with length]. rw IH. cbn [work_left snd]. lia. }
  assert (∀ n a b, nsteps step n a b → collect_inv a → n + collect_left b ≤ collect_left a) as H.
  { clear n st Hn. induction 1 as [a | n a b c Hab Hbc IH]; intros Ha; [lia |].
    pose proof (step_less _ _ Ha Hab). specialize (IH (collect_step_inv _ _ Ha Hab)). lia. }
  eapply H; [done | apply collect_start_inv].
Qed.

(** ** Progress *)
Lemma collect_progress st : collect_inv st → collect_over st = false → ∃ st', step st st'.
Proof.
  intros Hinv Hover. destruct (ci_queue _ Hinv) as (_ & Hlq & Hq & Hqd).
  destruct (cs_queue st) as [|[i msg] queue] eqn:Hqueue.
  2:{ destruct (Hq i msg ltac:(by left)) as (name & ty & s & Hi & _). unfold step, collect_step.
      destruct (store_request msg) as [log a] eqn:Hm. eexists. exists Store. simpl. by rw Hqueue Hm. }
  (* some remote that is neither over nor waiting for the end of the loop can move *)
  destruct (list_find (λ q, holds q = 1) (cs_procs st)) as [[i [name p]]|] eqn:Hfind.
  { apply list_find_Some in Hfind as (Hi & Hp & _). destruct p as [| |ty s|s m|s|s a|s|]; try done.
    - destruct (ce_answer E name ty (most_recent_datapoint s)) eqn:Ha; eexists; exists (Ask i); simpl; by rw Hi Ha.
    - eexists. exists (Send i). simpl. by rw Hi Hqueue.
    - apply Hqd in Hi. by apply not_elem_of_nil in Hi.
    - eexists. exists (Receive i). simpl. by rw Hi. }
  apply list_find_None in Hfind. rewrite ->Forall_forall in Hfind.
  assert (∀ q, q ∈ cs_procs st → holds q = 0) as Hnone.
  { intros q Hq'. specialize (Hfind q Hq'). unfold holds in *. by destruct q.2. }
  assert (cs_free st = MAX_CONCURRENT_CONNECTIONS) as Hfree.
  { pose proof (ci_permits _ Hinv). pose proof (sum_zero holds _ Hnone). lia. }
  destruct (list_find is_todo (cs_procs st)) as [[i [name p]]|] eqn:Htodo.
  { unfold step, collect_step. destruct (recent E (status_of (cs_state st) name)) eqn:Hrec.
    - eexists. exists Spawn. simpl. by rw Htodo /= Hrec.
    - destruct (config_get config name) eqn:Hc; eexists; exists Spawn; simpl; by rw Htodo /= Hrec Hfree Hc. }
  apply list_find_None in Htodo. rewrite ->Forall_forall in Htodo.
  assert (existsb is_todo (cs_procs st) = false) as Hnt.
  { apply not_true_is_false. intros (x & Hx%list_elem_of_In & Hxt)%List.existsb_exists. apply (Htodo x Hx). by rw Hxt. }
  assert (∃ i name s, cs_procs st !! i = Some (name, Finished s)) as (i & name & s & Hi).
  { apply not_true_iff_false in Hover. unfold collect_over in Hover. rw List.forallb_forall in Hover.
    destruct (list_find (λ q, is_over q = false) (cs_procs st)) as [[i [name p]]|] eqn:Hf.
    - apply list_find_Some in Hf as (Hi & Hp & _). assert ((name, p) ∈ cs_procs st) as Hin by by eapply list_elem_of_lookup_2.
      specialize (Hnone _ Hin). specialize (Htodo _ Hin). destruct p; [by destruct Htodo | done.. | eauto | done].
    - exfalso. apply Hover. intros q Hq'%list_elem_of_In. apply list_find_None in Hf. rewrite ->Forall_forall in Hf.
      specialize (Hf q Hq'). by destruct (is_over q). }
  eexists. exists (Join i). simpl. by rw Hnt Hi.
Qed.

Lemma collect_completes st : rtc step (collect_start names rrd0 s0) st →
  ∃ st', rtc step st st' ∧ collect_over st' = true.
Proof.
  intros Hr%collect_reachable_inv. remember (collect_left st) as n eqn:Hn. revert st Hr Hn.
  induction (lt_wf n) as [n _ IH]. intros st Hinv ->. destruct (collect_over st) eqn:Ho; [by exists st |].
  destruct (collect_progress st Hinv Ho) as [st1 H1].
  destruct (IH _ (step_less _ _ Hinv H1) st1) as (st' & Hr' & Ho'); [by eapply collect_step_inv | done |].
  exists st'. split; [by eapply rtc_l | done].
Qed.

(** ** Results *)
Lemma over_state st : collect_inv st → collect_over st = true → cs_state st = fetch_remotes config E names s0.
Proof.
  intros Hinv Hover. apply map_eq. intros name. rw fetch_remotes_lookup.
  destruct (ci_state _ Hinv) as (Hout & Hin & _). destruct (decide (name ∈ names)) as [Hn | Hn]; [| by apply Hout].
  rw -(ci_names _ Hinv) in Hn. apply list_elem_of_fmap in Hn as ([name' p] & -> & Hp). simpl.
  pose proof Hp as [i Hi]%list_elem_of_lookup. rw (Hin i name' p Hi).
  pose proof (ci_phases _ Hinv i name' p Hi) as Hok.
  unfold collect_over in Hover. rw List.forallb_forall in Hover. specialize (Hover _ (proj1 (list_elem_of_In _ _) Hp)).
  destruct p; try done; simpl in *; [by rw Hok | by destruct Hok as [ty ->]].
Qed.

Lemma over_rrd st : collect_inv st → collect_over st = true →
  ∃ order, order ≡ₚ names ∧ cs_rrd st = rrd0 ++ concat (stored_for config E s0 <$> order).
Proof.
  intros Hinv Hover. destruct (ci_rrd _ Hinv) as (order & Hr & Ho). exists order. split; [| done]. rw Ho -(ci_names _ Hinv).
  unfold collect_over in Hover. clear Ho Hr. induction (cs_procs st) as [|[n p] l IH]; [done |]. simpl in Hover.
  apply andb_true_iff in Hover as [Hp Hl]. assert (settled (n, p) = true) as Hset by by destruct p.
  cbn [List.filter]. rw Hset !fmap_cons. by apply perm_skip, IH.
Qed.
End facts.
