(* ===== verification/MetricProps.v ===== *)
(** * Collecting metrics: theorems *)
From stdpp Require Import relations.
From S2P Require Import Prelude RustStr Remotes Disk ApiCache Resources MetricStore MetricCollection MetricFacts.

#[local] Open Scope Z_scope.

(** ** A run *)
Section run.
Context (config : list (string * RemoteType)) (E : collect_env).
Context (names : list string) (rrd0 : rrd_log) (s0 : MetricState).

Definition in_flight (st : collect_state) : nat := sum_list_with holds (cs_procs st).

(** C6: A run of [fetch_remotes] does its work, however its tasks interleave.  At most 20 remotes
    are being asked at any time and the channel to the storing task holds at most 128 messages;
    a run takes at most six steps per remote and can always be completed; and when it is over all
    permits are back, the state of each remote is what its own answer makes of it, and the
    database got the data points of each remote that answered, once, in one piece. *)
Theorem collection_completes (st : collect_state) :
  NoDup names → rtc (collect_step config E) (collect_start names rrd0 s0) st →
  (in_flight st ≤ MAX_CONCURRENT_CONNECTIONS)%nat ∧ (length (cs_queue st) ≤ CHANNEL_SIZE)%nat ∧
  (∀ n st', nsteps (collect_step config E) n (collect_start names rrd0 s0) st' → (n ≤ 6 * length names)%nat) ∧
  (∃ st', rtc (collect_step config E) st st' ∧ collect_over st' = true) ∧
  (collect_over st = true →
   cs_free st = MAX_CONCURRENT_CONNECTIONS ∧ cs_state st = fetch_remotes config E names s0 ∧
   ∃ order, order ≡ₚ names ∧ cs_rrd st = rrd0 ++ concat (stored_for config E s0 <$> order)).
Proof.
  intros Hnd Hr. pose proof (collect_reachable_inv _ _ _ _ _ Hnd st Hr) as Hinv.
  pose proof (ci_permits _ _ _ _ _ _ Hinv) as Hperm. split_and!.
  - unfold in_flight. lia.
  - apply (ci_queue _ _ _ _ _ _ Hinv).
  - intros n st' Hn. apply steps_bounded in Hn; [lia | done].
  - by eapply collect_completes.
  - intros Hover. split_and!; [| by eapply over_state | by eapply over_rrd].
    enough (sum_list_with holds (cs_procs st) = 0)%nat by lia. apply sum_zero. intros q Hq.
    unfold collect_over in Hover. rw List.forallb_forall in Hover.
    specialize (Hover q (proj1 (list_elem_of_In _ _) Hq)). by destruct q as [n []].
Qed.
End run.

(** ** The state of a remote *)

(** A status that was never collected has no time stamp; otherwise the most recent data point is
    at most the tolerated minute ahead of the last collection. *)
Definition status_wf (st : RemoteStatus) : Prop :=
  match last_collection st with
  | None => most_recent_datapoint st = 0
  | Some t => 0 ≤ most_recent_datapoint st ≤ Z.max 0 (i64 (t + FUTURE_DATAPOINT_TOLERANCE))
  end.
Definition state_wf (s : MetricState) : Prop := map_Forall (λ _, status_wf) s.

Lemma status_of_wf s name : state_wf s → status_wf (status_of s name).
Proof. intros Hs. unfold status_of. destruct (s !! name) eqn:E; [by apply (Hs name) | done]. Qed.

Lemma outcome_wf E s name ty : state_wf s → status_wf (outcome E s name ty).
Proof.
  intros Hs%(status_of_wf _ name). unfold outcome, message.
  destruct (ce_answer E name ty _) as [metrics|e]; [| done]. simpl.
  destruct ty; simpl; unfold status_wf.
  - pose proof (most_recent_bounds store_metric_pve name metrics (ce_started E name)).
    by destruct (store_datapoints store_metric_pve name metrics (ce_started E name)).
  - pose proof (most_recent_bounds store_metric_pbs name metrics (ce_started E name)).
    by destruct (store_datapoints store_metric_pbs name metrics (ce_started E name)).
Qed.

Lemma fetch_remotes_wf config E names s : state_wf s → state_wf (fetch_remotes config E names s).
Proof.
  intros Hs name st Hst. rw fetch_remotes_lookup in Hst.
  destruct (decide (name ∈ names)); [| by apply (Hs name)].
  destruct (fetched config E s name); [injection Hst as <-; by apply outcome_wf | by apply (Hs name)].
Qed.
Lemma retain_wf check s : state_wf s → state_wf (retain check s).
Proof. intros Hs name st [Hst _]%map_lookup_filter_Some. by apply (Hs name). Qed.

Section task.
Context `{StateJsonLaws}.

Lemma handle_event_wf e acc : state_wf acc.1 → state_wf (handle_event e acc).1.
Proof.
  intros Hs. destruct e as [T done total | T remote]; simpl.
  - unfold handle_tick. destruct (te_config T); [| done]. simpl. by apply fetch_remotes_wf, retain_wf.
  - unfold handle_control_message. destruct (te_config T); [| done]. simpl. by apply fetch_remotes_wf.
Qed.
Lemma run_start_wf T now left acc : state_wf acc.1 → state_wf (run_start T now left acc).1.
Proof. intros Hs. unfold run_start. destruct (te_config T); [| done]. by apply fetch_remotes_wf. Qed.

(** The state that a restart would load *)
Definition saved (d : dir) : MetricState := default ∅ (d !! METRIC_COLLECTION_STATE_FILE ≫= state_from_json).

Lemma state_save_saved s w r w' : state_save s w = (r, w') →
  saved (disk w') = match r with Ok _ => s | Err _ => saved (disk w) end.
Proof.
  unfold state_save, fs_replace, syscall, get_disk, put_disk, mbind, IO_bind, mret, IO_ret. simpl.
  destruct (faults w (tick w)); simpl; intros [= <- <-]; [done |].
  unfold saved. simpl. rw lookup_insert_eq. simpl. by rw state_json_roundtrip.
Qed.

(** The rounds of the loop, and the states they go through *)
Fixpoint run_rounds (es : list event) (acc : MetricState * rrd_log) : IO (MetricState * rrd_log) :=
  match es with
  | [] => mret acc
  | e :: es => acc ← run_round e acc; run_rounds es acc
  end.
Definition after (es : list event) (acc : MetricState * rrd_log) : MetricState * rrd_log :=
  foldl (λ acc e, handle_event e acc) acc es.

Lemma run_round_spec e acc w : ∃ w', run_round e acc w = (Ok (handle_event e acc), w') ∧
  (saved (disk w') = (handle_event e acc).1 ∨ ¬ quiet w ∧ saved (disk w') = saved (disk w)) ∧
  (quiet w → quiet w').
Proof.
  unfold run_round, attempt, mbind, IO_bind. destruct (state_save (handle_event e acc).1 w) as [r w'] eqn:Hs.
  exists w'. pose proof (state_save_saved _ _ _ _ Hs) as Hd.
  unfold state_save, fs_replace, syscall, get_disk, put_disk, mbind, IO_bind, mret, IO_ret in Hs. simpl in Hs.
  destruct (faults w (tick w)) eqn:Hf; simpl in Hs; injection Hs as <- <-; split_and!; try done; simpl.
  - right. split; [| done]. intros Hq. by rw Hq in Hf.
  - by left.
Qed.

(** The state of the collection is always sane and survives a restart.  In every state, a remote
    that was never collected has no most recent data point and for any other it is at most one
    minute after the last collection, whatever the remotes answer.  The loop never stops on a
    failing write; what a restart loads is the state after one of the rounds, the last one if no
    write fails, or what was there before. *)
Theorem collection_state_persists es acc w :
  state_wf acc.1 →
  ∃ w', run_rounds es acc w = (Ok (after es acc), w') ∧ state_wf (after es acc).1 ∧
    (saved (disk w') = saved (disk w)
     ∨ ∃ k, (1 ≤ k ≤ length es)%nat ∧ saved (disk w') = (after (take k es) acc).1
            ∧ state_wf (after (take k es) acc).1) ∧
    (quiet w → es ≠ [] → saved (disk w') = (after es acc).1).
Proof.
  revert acc w. induction es as [|e es IH]; intros acc w Hacc; simpl.
  { exists w. split_and!; [done | done | by left | done]. }
  destruct (run_round_spec e acc w) as (w1 & Hw1 & Hs1 & Hq1). pose proof (handle_event_wf e acc Hacc) as Hwf1.
  destruct (IH (handle_event e acc) w1 Hwf1) as (w' & Hw' & Hwf & Hs & Hq). exists w'.
  unfold mbind, IO_bind. rw Hw1. split_and!; [done | done | |].
  - destruct Hs as [Hs | (k & Hk & Hs & Hk')]; [| right; exists (S k); split; [lia | done]].
    destruct Hs1 as [Hs1 | [_ Hs1]]; [right; exists 1%nat; split; [lia |] | left; congruence].
    unfold after. cbn [foldl take]. by rw Hs Hs1.
  - intros Hquiet _. destruct es as [|e' es]; [| by apply Hq; [apply Hq1 |]].
    unfold after in *. simpl in *. injection Hw' as <-. by destruct Hs1 as [? | [? _]].
Qed.

(** Reading the state at the start of the task: errors are as if there were no file. *)
Theorem restart_loads_saved w : ∃ s w', state_new w = (Ok s, w') ∧ (s = saved (disk w) ∨ s = ∅ ∧ ¬ quiet w).
Proof.
  unfold state_new, load_or_default, attempt. unfold mbind at 1, IO_bind at 1.
  unfold file_read_optional_string, attempt, fs_open, syscall, get_disk, enoent, fail, mbind, IO_bind, mret, IO_ret, saved.
  simpl. destruct (faults w (tick w)) eqn:Hf; simpl.
  - eexists _, _. split; [done |]. right. split; [done |]. intros Hq. by rw Hq in Hf.
  - destruct (disk w !! METRIC_COLLECTION_STATE_FILE) as [c|]; simpl; eexists _, _; (split; [done |]); left; [| done].
    by destruct (state_from_json c).
Qed.
End task.

(** ** Scheduling *)

Lemma config_get_fetched config E s name ty :
  fetched config E s name = Some ty → config_get config name = Some ty.
Proof. unfold fetched. by destruct (recent _ _). Qed.

(** At the first tick of the timer the data of a remote that can be reached is at most nine seconds
    older than the collection interval. *)
Theorem startup_keeps_fresh T config now left s rrd name ty metrics :
  te_config T = Some config → name ∈ config.*1 → config_get config name = Some ty →
  0 ≤ now → now ≤ ce_now (te_run T) → ce_now (te_run T) ≤ ce_started (te_run T) name →
  ce_now (te_run T) < 2 ^ 62 → 0 ≤ left ≤ DEFAULT_COLLECTION_INTERVAL →
  0 ≤ default 0 (last_collection (status_of s name)) < 2 ^ 62 →
  ce_answer (te_run T) name ty (most_recent_datapoint (status_of s name)) = Ok metrics →
  let s' := (run_start T now left (s, rrd)).1 in
  now + left - default 0 (last_collection (status_of s' name)) ≤ DEFAULT_COLLECTION_INTERVAL + 9.
Proof.
  intros Hc Hin Hty H0 Hn1 Hn2 Hb Hleft Hlast Ha. cbv zeta. unfold run_start. rw Hc. cbn [fst].
  unfold fetch_overdue, run_fetch. cbn [fst]. unfold status_of at 1. rw fetch_remotes_lookup.
  assert (default 0 (s !! name ≫= last_collection) = default 0 (last_collection (status_of s name))) as El.
  { unfold status_of. by destruct (s !! name). }
  set (last := default 0 (last_collection (status_of s name))) in *.
  assert (default 0 (last_collection (default no_status (s !! name))) = last) as Es by done.
  pose proof (i64_id (now - last) ltac:(lia)) as E1. pose proof (i64_id (now - last + left)) as E2.
  pose proof (i64_id (ce_now (te_run T) - last) ltac:(lia)) as E3. unfold DEFAULT_COLLECTION_INTERVAL in *.
  assert (is_overdue now left 600 s name = (600 <? now - last + left)) as Ho by (unfold is_overdue; rw El E1 E2 //; lia).
  destruct (Z.ltb_spec 600 (now - last + left)) as [Hlt | Hge].
  - rw decide_True; [apply list_elem_of_In, List.filter_In; split; [by apply list_elem_of_In | done] |].
    unfold fetched, recent, MIN_COLLECTION_INTERVAL. rw E3.
    destruct (Z.ltb_spec (ce_now (te_run T) - last) 10); [rw Es; lia |].
    rw Hty. cbn. unfold outcome, message. rw Ha. simpl.
    destruct ty; simpl; destruct (store_datapoints _ _ _ _); simpl; lia.
  - rw decide_False; [intros [_ Hf]%list_elem_of_In%List.filter_In; congruence |]. rw Es. lia.
Qed.

(** After an answer without a data point in time (an empty one, or one with future data points
    only) the most recent data point of the remote is 0 again, although older ones are stored. *)
Theorem empty_answer_resets_cursor E s name ty metrics :
  ce_answer E name ty (most_recent_datapoint (status_of s name)) = Ok metrics →
  List.filter (in_time (ce_started E name)) metrics = [] →
  most_recent_datapoint (outcome E s name ty) = 0
  ∧ last_collection (outcome E s name ty) = Some (ce_started E name).
Proof.
  intros Ha Hm. unfold outcome, message. rw Ha. simpl. by destruct ty; simpl; rw store_datapoints_spec Hm.
Qed.

(** When the clock is set back below the time of the last collection, a remote is not collected any
    more, not even on request, until the clock has caught up. *)
Theorem clock_set_back_stops_collection config E names s name t :
  last_collection (status_of s name) = Some t → 0 ≤ ce_now E → ce_now E < t → t < 2 ^ 63 →
  fetch_remotes config E names s !! name = s !! name ∧ stored_for config E s name = [].
Proof.
  intros Hl H0 Hlt Hb. assert (fetched config E s name = None) as Hf.
  { unfold fetched, recent. rw Hl. change (default 0 (Some t)) with t. rw i64_id; [lia |].
    by destruct (Z.ltb_spec (ce_now E - t) MIN_COLLECTION_INTERVAL); [| unfold MIN_COLLECTION_INTERVAL in *; lia]. }
  rw fetch_remotes_lookup. unfold stored_for. rw Hf. by destruct (decide _).
Qed.

(** ** A concrete run: one remote answers, one fails, one was collected just now *)
Definition ex_point (t : Z) : DataPoint :=
  {| dp_id := "node/n1"; dp_metric := "cpu_current"; dp_timestamp := t; dp_type := Some Gauge; dp_value := f64_zero |}.
Definition ex_run : collect_env := {|
  ce_now := 1000; ce_started _ := 1001;
  ce_answer name _ _ := if decide (name = "b"%string) then Err "timeout"%string else Ok [ex_point 990; ex_point 5000];
  ce_response_time _ := f64_zero |}.
Definition ex_remotes : list (string * RemoteType) := [("a"%string, Pve); ("b"%string, Pbs); ("c"%string, Pve)].
Definition ex_metric_state : MetricState :=
  {[ "c"%string := {| most_recent_datapoint := 985; last_collection := Some 995; status_error := None |} ]}.

Fixpoint run_steps (l : list action) (st : collect_state) : option collect_state :=
  match l with [] => Some st | a :: l => st ← collect_advance ex_remotes ex_run a st; run_steps l st end.
Lemma run_steps_rtc l st st' : run_steps l st = Some st' → rtc (collect_step ex_remotes ex_run) st st'.
Proof.
  revert st. induction l as [|a l IH]; intros st; simpl; [intros [= <-]; done |].
  intros (st1 & H1 & Hl)%bind_Some. eapply rtc_l; [by exists a | by apply IH].
Qed.

Definition ex_first : collect_state := collect_start ex_remotes.*1 [] ex_metric_state.
Definition ex_schedule : list action :=
  [Spawn; Spawn; Ask 1; Spawn; Ask 0; Send 0; Store; Join 1; Receive 0; Join 0].
Definition ex_last : collect_state := default ex_first (run_steps ex_schedule ex_first).

Lemma collection_completes_witness :
  collect_over ex_last = true ∧ cs_state ex_last = fetch_remotes ex_remotes ex_run ex_remotes.*1 ex_metric_state ∧
  most_recent_datapoint (status_of (cs_state ex_last) "a") = 990 ∧
  status_error (status_of (cs_state ex_last) "b") = Some "timeout"%string ∧
  cs_free ex_last = MAX_CONCURRENT_CONNECTIONS.
Proof.
  destruct (collection_completes ex_remotes ex_run ex_remotes.*1 [] ex_metric_state ex_last) as (_ & _ & _ & _ & H).
  - apply (bool_decide_unpack _). vm_compute. reflexivity.
  - apply (run_steps_rtc ex_schedule). vm_compute. reflexivity.
  - destruct H as (Hf & Hs & _); [vm_compute; reflexivity |].
    split_and!; [vm_compute; reflexivity | exact Hs | vm_compute; reflexivity.. | exact Hf].
Defined.

(** A state file with one line, the code number of the state in binary *)
Global Instance RemoteStatus_eq_dec : EqDecision RemoteStatus.
Proof. solve_decision. Defined.
Global Instance RemoteStatus_countable : Countable RemoteStatus.
Proof.
  refine (inj_countable' (λ s, (most_recent_datapoint s, last_collection s, status_error s))
    (λ '(m, l, e), {| most_recent_datapoint := m; last_collection := l; status_error := e |}) _). by intros [].
Defined.
Global Instance ex_state_json : StateJson := {|
  state_to_json s := [Text (pos_string (encode s))];
  state_from_json f := match f with [Text s] => decode (string_pos s) | _ => None end |}.
Global Instance ex_state_json_laws : StateJsonLaws.
Proof. split. intros s. simpl. by rw string_pos_pos_string decode_encode. Qed.

Definition ex_task : task_env := {| te_config := Some ex_remotes; te_run := ex_run; te_arrange l := l |}.
Definition ex_quiet : world := World ∅ 0 (λ _, false).

Lemma collection_state_persists_witness :
  ∃ w', run_rounds [Tick ex_task 1002 f64_zero; Control ex_task (Some "b"%string)] (ex_metric_state, []) ex_quiet
        = (Ok (after [Tick ex_task 1002 f64_zero; Control ex_task (Some "b"%string)] (ex_metric_state, [])), w')
    ∧ most_recent_datapoint (status_of (saved (disk w')) "a") = 990.
Proof.
  destruct (collection_state_persists [Tick ex_task 1002 f64_zero; Control ex_task (Some "b"%string)]
    (ex_metric_state, []) ex_quiet) as (w' & Hw & _ & _ & Hq).
  - apply map_Forall_singleton. unfold status_wf. simpl. vm_compute. split; discriminate.
  - exists w'. split; [exact Hw |]. rewrite ->Hq; [vm_compute; reflexivity | | discriminate]. intros n. reflexivity.
Defined.

Lemma startup_keeps_fresh_witness :
  1000 + 600 - default 0 (last_collection (status_of (run_start ex_task 1000 600 (ex_metric_state, [])).1 "c"))
  ≤ DEFAULT_COLLECTION_INTERVAL + 9.
Proof.
  apply (startup_keeps_fresh ex_task ex_remotes 1000 600 ex_metric_state [] "c" Pve [ex_point 990; ex_point 5000]);
    [reflexivity | apply (bool_decide_unpack _); vm_compute; reflexivity | vm_compute; reflexivity
    | vm_compute; (reflexivity || discriminate || split; (reflexivity || discriminate)) ..].
Defined.
