(* ===== verification/CephConfig.v ===== *)
(** * The file of Ceph clusters

    lib/pdm-config/src/ceph.rs and the types of lib/pdm-api-types/src/ceph.rs: the sections of
    ceph-clusters.cfg, their typed form, and the keys a section has that the types do not know,
    which are kept for the next write.  The text form of sections is a parameter
    ([CephSections]). *)
From S2P Require Import Prelude RustStr Remotes Disk ApiCache.

#[local] Open Scope string_scope.

(** ** Data *)
Inductive CephMemberKind := KindPve | KindStandalone.
Inductive CephClusterState := Detected | CephUnreachable | CephGone | Tombstoned.
Record CephCluster := {
  cl_id : string; cl_display_name : option string; cl_public_network : option string;
  cl_cluster_network : option string; cl_stretch_mode : option bool; cl_tiebreaker_mon : option string;
  cl_state : option CephClusterState; cl_last_seen_missing : option Z; cl_forgotten : option Z;
}.
Record CephMember := {
  mb_id : string; mb_cluster : string; mb_kind : CephMemberKind; mb_remote : option string;
  mb_node : option string; mb_address : option string; mb_fingerprint : option string;
  mb_authid : option string; mb_site : option string;
}.
Global Instance CephMemberKind_eq_dec : EqDecision CephMemberKind.
Proof. solve_decision. Defined.
Global Instance CephClusterState_eq_dec : EqDecision CephClusterState.
Proof. solve_decision. Defined.
Global Instance CephCluster_eq_dec : EqDecision CephCluster.
Proof. solve_decision. Defined.
Global Instance CephMember_eq_dec : EqDecision CephMember.
Proof. solve_decision. Defined.

(** The values of a section *)
Inductive Value := VString (s : string) | VBool (b : bool) | VNumber (z : Z).
Global Instance Value_eq_dec : EqDecision Value.
Proof. solve_decision. Defined.
Abbreviation section_value := (gmap string Value).
Abbreviation section_data := (gmap string (string * section_value)).

Record CephClustersConfig := {
  cc_clusters : gmap string CephCluster;
  cc_members : gmap string CephMember;
  cc_extras : gmap string section_value;
}.
Global Instance CephClustersConfig_eq_dec : EqDecision CephClustersConfig.
Proof. solve_decision. Defined.
Definition cc_default : CephClustersConfig := {| cc_clusters := ∅; cc_members := ∅; cc_extras := ∅ |}.

(** ** Serializing *)

(** The fields that are present; an option that is [None] is skipped. *)
Definition fields (l : list (string * option Value)) : section_value :=
  list_to_map (omap (λ p, pair p.1 <$> p.2) l).

Definition kind_str (k : CephMemberKind) : string :=
  match k with KindPve => "pve" | KindStandalone => "standalone" end.
Definition kind_of_str (s : string) : option CephMemberKind :=
  if String.eqb s "pve" then Some KindPve else if String.eqb s "standalone" then Some KindStandalone else None.
Definition state_str (s : CephClusterState) : string :=
  match s with
  | Detected => "detected" | CephUnreachable => "unreachable" | CephGone => "gone" | Tombstoned => "tombstoned"
  end.
Definition state_of_str (s : string) : option CephClusterState :=
  if String.eqb s "detected" then Some Detected else if String.eqb s "unreachable" then Some CephUnreachable
  else if String.eqb s "gone" then Some CephGone else if String.eqb s "tombstoned" then Some Tombstoned else None.

Definition cluster_fields (c : CephCluster) : list (string * option Value) := [
  ("id", Some (VString (cl_id c))); ("display-name", VString <$> cl_display_name c);
  ("public-network", VString <$> cl_public_network c); ("cluster-network", VString <$> cl_cluster_network c);
  ("stretch-mode", VBool <$> cl_stretch_mode c); ("tiebreaker-mon", VString <$> cl_tiebreaker_mon c);
  ("state", VString ∘ state_str <$> cl_state c); ("last-seen-missing", VNumber <$> cl_last_seen_missing c);
  ("forgotten", VNumber <$> cl_forgotten c)].
Definition member_fields (m : CephMember) : list (string * option Value) := [
  ("id", Some (VString (mb_id m))); ("cluster", Some (VString (mb_cluster m)));
  ("kind", Some (VString (kind_str (mb_kind m)))); ("remote", VString <$> mb_remote m);
  ("node", VString <$> mb_node m); ("address", VString <$> mb_address m);
  ("fingerprint", VString <$> mb_fingerprint m); ("authid", VString <$> mb_authid m);
  ("site", VString <$> mb_site m)].

(** ** Deserializing *)
Definition as_string (v : Value) : option string := match v with VString s => Some s | _ => None end.
Definition as_bool (v : Value) : option bool := match v with VBool b => Some b | _ => None end.
Definition as_i64 (v : Value) : option Z :=
  match v with VNumber z => if in_i64 z then Some z else None | _ => None end.
Definition required {A} (read : Value → option A) (v : section_value) (key : string) : option A :=
  v !! key ≫= read.
(** A field with a default: absent is [None] *)
Definition optional {A} (read : Value → option A) (v : section_value) (key : string) : option (option A) :=
  match v !! key with None => Some None | Some x => Some <$> read x end.

Definition cluster_of_value (v : section_value) : option CephCluster :=
  id ← required as_string v "id"; display_name ← optional as_string v "display-name";
  public_network ← optional as_string v "public-network"; cluster_network ← optional as_string v "cluster-network";
  stretch_mode ← optional as_bool v "stretch-mode"; tiebreaker_mon ← optional as_string v "tiebreaker-mon";
  state ← optional (λ x, as_string x ≫= state_of_str) v "state";
  last_seen_missing ← optional as_i64 v "last-seen-missing"; forgotten ← optional as_i64 v "forgotten";
  Some {| cl_id := id; cl_display_name := display_name; cl_public_network := public_network;
          cl_cluster_network := cluster_network; cl_stretch_mode := stretch_mode; cl_tiebreaker_mon := tiebreaker_mon;
          cl_state := state; cl_last_seen_missing := last_seen_missing; cl_forgotten := forgotten |}.

(** The text form of sections; [cs_authid] are the texts that parse as an [Authid], which is
    represented by its text. *)
Class CephSections := {
  cs_parse : file → option section_data;
  cs_write : section_data → list string → option file;
  cs_authid : string → bool;
}.

Section file.
Context `{CephSections}.

Definition as_authid (v : Value) : option string :=
  s ← as_string v; if cs_authid s then Some s else None.
Definition member_of_value (v : section_value) : option CephMember :=
  id ← required as_string v "id"; cluster ← required as_string v "cluster";
  kind ← required (λ x, as_string x ≫= kind_of_str) v "kind"; remote ← optional as_string v "remote";
  node ← optional as_string v "node"; address ← optional as_string v "address";
  fingerprint ← optional as_string v "fingerprint"; authid ← optional as_authid v "authid";
  site ← optional as_string v "site";
  Some {| mb_id := id; mb_cluster := cluster; mb_kind := kind; mb_remote := remote; mb_node := node;
          mb_address := address; mb_fingerprint := fingerprint; mb_authid := authid; mb_site := site |}.

(** ** Sections and their typed form *)
Definition unknown_keys (raw known : section_value) : option section_value :=
  let extras := filter (λ p, known !! p.1 = None) raw in
  if decide (extras = ∅) then None else Some extras.
Definition stash (id : string) (extras : option section_value) (m : gmap string section_value) :=
  match extras with Some e => <[id := e]> m | None => m end.

Definition add_section (out : option CephClustersConfig) (s : string * (string * section_value)) : option CephClustersConfig :=
  out ← out;
  let '(id, (section_type, value)) := s in
  if String.eqb section_type "ceph-cluster" then
    cluster ← cluster_of_value value;
    Some {| cc_clusters := <[id := cluster]> (cc_clusters out); cc_members := cc_members out;
            cc_extras := stash id (unknown_keys value (fields (cluster_fields cluster))) (cc_extras out) |}
  else if String.eqb section_type "ceph-member" then
    member ← member_of_value value;
    Some {| cc_clusters := cc_clusters out; cc_members := <[id := member]> (cc_members out);
            cc_extras := stash id (unknown_keys value (fields (member_fields member))) (cc_extras out) |}
  else None.
Definition untyped_to_typed (cfg : section_data) : option CephClustersConfig :=
  foldl add_section (Some cc_default) (map_to_list cfg).
Definition ceph_parse (raw : file) : option CephClustersConfig := cs_parse raw ≫= untyped_to_typed.

Definition merge_extras (c : CephClustersConfig) (id : string) (value : section_value) : section_value :=
  match cc_extras c !! id with Some extras => value ∪ extras | None => value end.
Definition put_section {A} (c : CephClustersConfig) (section_type : string) (fs : A → list (string * option Value))
    (raw : section_data * list string) (s : string * A) : section_data * list string :=
  (<[s.1 := (section_type, merge_extras c s.1 (fields (fs s.2)))]> raw.1, (raw.2 ++ [s.1])%list).
(** Clusters and then members, each in the order of their ids *)
Definition by_id {A} (a b : string * A) : comparison := String.compare a.1 b.1.
Definition typed_to_untyped (c : CephClustersConfig) : section_data * list string :=
  let raw := foldl (put_section c "ceph-cluster" cluster_fields) (∅, []) (sort_by by_id (map_to_list (cc_clusters c))) in
  foldl (put_section c "ceph-member" member_fields) raw (sort_by by_id (map_to_list (cc_members c))).
Definition ceph_write (c : CephClustersConfig) : option file :=
  let '(sections, order) := typed_to_untyped c in cs_write sections order.

(** ** The file *)
Definition CEPH_CLUSTERS_CFG_FILENAME : string := "ceph-clusters.cfg".
Definition ceph_config : IO CephClustersConfig :=
  content ← file_read_optional_string CEPH_CLUSTERS_CFG_FILENAME;
  match ceph_parse (default [] content) with
  | Some c => mret c
  | None => fail (Error OtherIo ["failed to parse"])
  end.
Definition ceph_save_config (c : CephClustersConfig) : IO () :=
  match ceph_write c with
  | Some f => fs_replace CEPH_CLUSTERS_CFG_FILENAME f
  | None => fail (Error OtherIo ["failed to write"])
  end.
End file.

(** ** What the section format promises *)
Definition CEPH_CLUSTER_ID_MAX_LENGTH : nat := 64.
Definition CEPH_MEMBER_ID_MAX_LENGTH : nat := 80.
Definition max_id_length (section_type : string) : nat :=
  if String.eqb section_type "ceph-member" then CEPH_MEMBER_ID_MAX_LENGTH else CEPH_CLUSTER_ID_MAX_LENGTH.

Definition cluster_keys : list string :=
  ["id"; "display-name"; "public-network"; "cluster-network"; "stretch-mode"; "tiebreaker-mon"; "state";
   "last-seen-missing"; "forgotten"].
Definition member_keys : list string :=
  ["id"; "cluster"; "kind"; "remote"; "node"; "address"; "fingerprint"; "authid"; "site"].
Definition known_keys (section_type : string) : list string :=
  if String.eqb section_type "ceph-member" then member_keys else cluster_keys.

(** A section repeats its id, and the values of keys no schema describes are texts. *)
Definition section_ok (id : string) (s : string * section_value) : Prop :=
  s.2 !! "id" = Some (VString id) ∧ map_Forall (λ key x, key ∉ known_keys s.1 → is_Some (as_string x)) s.2.

(** What is written reads back and has valid ids, and an empty file has no sections. *)
Class CephSectionsLaws `{CephSections} : Prop := {
  cs_roundtrip s order f : map_Forall section_ok s → cs_write s order = Some f → cs_parse f = Some s;
  cs_parse_ok f s : cs_parse f = Some s → map_Forall section_ok s;
  cs_write_ids s order f id sec : cs_write s order = Some f → s !! id = Some sec →
    (String.length id ≤ max_id_length sec.1)%nat;
  cs_parse_empty : cs_parse [] = Some ∅;
}.
