(* ===== verification/CephConfigFacts.v ===== *)
(** * The file of Ceph clusters: lemmas

    Reading and writing sections are inverse to each other: a section that was read is written
    back with all its keys, known or not, and a typed configuration that is written reads back. *)
From S2P Require Import Prelude RustStr Remotes Disk ApiCache CephConfig.

#[local] Open Scope list_scope.

(** ** Fields *)
Lemma fields_elem l k x : fields l !! k = Some x → (k, Some x) ∈ l.
Proof.
  intros ((k' & o) & Hin & Heq)%elem_of_list_to_map_2%list_elem_of_omap. simpl in Heq.
  destruct o as [y|]; simplify_eq/=. done.
Qed.

Lemma fields_absent l k : k ∉ l.*1 → fields l !! k = None.
Proof.
  intros Hk. destruct (fields l !! k) as [x|] eqn:E; [|done].
  destruct Hk. apply fields_elem in E. by apply (list_elem_of_fmap_2 fst _ (k, Some x)).
Qed.

Lemma fields_lookup l k o : NoDup l.*1 → (k, o) ∈ l → fields l !! k = o.
Proof.
  induction l as [|[k1 o1] l IH]; [by intros _ ?%not_elem_of_nil |].
  intros [Hk1 Hnd]%NoDup_cons Hin. assert (fields ((k1, o1) :: l) = match o1 with Some x => <[k1 := x]> (fields l) | None => fields l end) as ->.
  { by destruct o1. }
  apply elem_of_cons in Hin as [[= -> ->] | Hin].
  - destruct o1; [apply lookup_insert_eq | by apply fields_absent].
  - assert (k1 ≠ k) by (intros ->; destruct Hk1; by apply (list_elem_of_fmap_2 fst _ (k, o))).
    destruct o1; [rw lookup_insert_ne //|]; by apply IH.
Qed.

Lemma required_read {A} (read : Value → option A) wr v k a :
  (∀ x a, read x = Some a → x = wr a) → required read v k = Some a → v !! k = Some (wr a).
Proof. intros Hrw. unfold required. destruct (v !! k) as [x|]; simpl; [|done]. by intros ->%Hrw. Qed.

Lemma optional_read {A} (read : Value → option A) wr v k o x :
  (∀ x a, read x = Some a → x = wr a) → optional read v k = Some o → wr <$> o = Some x → v !! k = Some x.
Proof.
  intros Hrw. unfold optional. destruct (v !! k) as [y|]; [| by intros [= <-]].
  destruct (read y) as [a|] eqn:E; simpl; [| done]. intros [= <-] [= <-]. by rw (Hrw _ _ E).
Qed.

Lemma optional_wrote {A} (read : Value → option A) wr v k o :
  v !! k = wr <$> o → (∀ a, o = Some a → read (wr a) = Some a) → optional read v k = Some o.
Proof. unfold optional. intros -> Hr. destruct o as [a|]; simpl; [by rw (Hr a) | done]. Qed.

Lemma as_string_inv x s : as_string x = Some s → x = VString s.
Proof. by destruct x; simpl; intros [= ->]. Qed.
Lemma as_bool_inv x b : as_bool x = Some b → x = VBool b.
Proof. by destruct x; simpl; intros [= ->]. Qed.
Lemma as_i64_inv x z : as_i64 x = Some z → x = VNumber z.
Proof. destruct x; simpl; [done | done |]. by destruct (in_i64 _); intros [= ->]. Qed.
Lemma as_state_inv x s : as_string x ≫= state_of_str = Some s → x = (VString ∘ state_str) s.
Proof.
  intros (t & ->%as_string_inv & Ht)%bind_Some. simpl. f_equal. unfold state_of_str in Ht.
  repeat case_match; simplify_eq; by apply String.eqb_eq.
Qed.
Lemma as_authid_inv `{CephSections} x s : as_authid x = Some s → x = VString s.
Proof. unfold as_authid. intros (t & ->%as_string_inv & Ht)%bind_Some. by case_match; simplify_eq. Qed.
Lemma as_kind_inv x k : as_string x ≫= kind_of_str = Some k → x = (VString ∘ kind_str) k.
Proof.
  intros (t & ->%as_string_inv & Ht)%bind_Some. simpl. f_equal. unfold kind_of_str in Ht.
  repeat case_match; simplify_eq; by apply String.eqb_eq.
Qed.
Lemma state_str_of s : state_of_str (state_str s) = Some s.
Proof. by destruct s. Qed.
Lemma kind_str_of k : kind_of_str (kind_str k) = Some k.
Proof. by destruct k. Qed.

(** One bind after the other *)
Ltac split_binds H :=
  lazymatch type of H with
  | _ ≫= _ = Some _ => apply bind_Some in H as (? & ? & H); split_binds H
  | Some _ = Some _ => injection H as <-
  end.

(** A field that was read is where it was read from. *)
Ltac read_each val Hin :=
  repeat (apply elem_of_cons in Hin as [[= -> Hx] | Hin];
    [first [subst val; eapply (required_read _ VString); [apply as_string_inv | eassumption]
           | subst val; eapply (required_read _ (VString ∘ kind_str)); [apply as_kind_inv | eassumption]
           | eapply optional_read; [| eassumption | exact (eq_sym Hx)]];
     first [apply as_string_inv | apply as_bool_inv | apply as_i64_inv | apply as_state_inv | apply as_authid_inv] |]);
  by apply not_elem_of_nil in Hin.

Lemma read_known l (v : section_value) : NoDup l.*1 → (∀ k, k ∈ l.*1 → v !! k = fields l !! k) → ∀ k o, (k, o) ∈ l → v !! k = o.
Proof.
  intros Hnd Hv k o Hin. rw Hv; [| by apply fields_lookup]. by apply (list_elem_of_fmap_2 fst _ (k, o)).
Qed.

Lemma required_wrote {A} (read : Value → option A) v k x a : v !! k = Some x → read x = Some a → required read v k = Some a.
Proof. unfold required. by intros ->. Qed.

(** Rewrites every field to what the typed value has there. *)
Ltac rewrite_reads Hok Hk :=
  repeat (first
    [erewrite optional_wrote; [simpl | apply Hk; unfold cluster_fields, member_fields; by repeat (left || right) |
       intros ? Ha; try unfold as_authid; simpl; rw ?state_str_of //;
       rewrite -> Ha in Hok;
       match goal with |- context [if ?b then _ else _] => destruct b eqn:? end; naive_solver]
    |erewrite required_wrote; [simpl | apply Hk; unfold cluster_fields, member_fields; by repeat (left || right) | simpl; by rw ?kind_str_of]]).

(** ** Clusters *)
Definition opt_i64 (o : option Z) : Prop := match o with Some z => in_i64 z = true | None => True end.
Definition cluster_ok (c : CephCluster) : Prop := opt_i64 (cl_last_seen_missing c) ∧ opt_i64 (cl_forgotten c).

Lemma optional_i64 v k o : optional as_i64 v k = Some o → opt_i64 o.
Proof.
  unfold optional. destruct (v !! k) as [x|]; [| by intros [= <-]].
  destruct x; simpl; [done | done |]. destruct (in_i64 z) eqn:E; simpl; [| done]. by intros [= <-].
Qed.

Lemma cluster_value_sub v c : cluster_of_value v = Some c → fields (cluster_fields c) ⊆ v ∧ cluster_ok c.
Proof.
  unfold cluster_of_value. intros H. split_binds H. split; [| by split; eapply optional_i64].
  apply map_subseteq_spec. intros key val Hin%fields_elem.
  read_each val Hin.
Qed.

Lemma cluster_keys_NoDup c : NoDup (cluster_fields c).*1.
Proof. apply (bool_decide_unpack (NoDup cluster_keys)). by vm_compute. Qed.

Lemma cluster_value_read v c :
  cluster_ok c → (∀ k, k ∈ cluster_keys → v !! k = fields (cluster_fields c) !! k) → cluster_of_value v = Some c.
Proof.
  unfold cluster_ok, opt_i64. intros Hok Hv.
  pose proof (read_known _ _ (cluster_keys_NoDup c) Hv) as Hk.
  unfold cluster_of_value. rewrite_reads Hok Hk. by destruct c.
Qed.

(** ** Members *)
Section members.
Context `{CephSections}.

Definition member_ok (m : CephMember) : Prop :=
  match mb_authid m with Some a => cs_authid a = true | None => True end.

Lemma member_value_sub v m : member_of_value v = Some m → fields (member_fields m) ⊆ v ∧ member_ok m.
Proof.
  unfold member_of_value. intros Hm. split_binds Hm. split.
  - apply map_subseteq_spec. intros key val Hin%fields_elem. read_each val Hin.
  - unfold member_ok. simpl. unfold optional in *. destruct (v !! "authid") as [val|]; [| by simplify_eq].
    unfold as_authid in *. destruct (as_string val) as [a|]; simplify_eq/=. by destruct (cs_authid a) eqn:E; simplify_eq/=.
Qed.

Lemma member_keys_NoDup m : NoDup (member_fields m).*1.
Proof. apply (bool_decide_unpack (NoDup member_keys)). by vm_compute. Qed.

Lemma member_value_read v m :
  member_ok m → (∀ k, k ∈ member_keys → v !! k = fields (member_fields m) !! k) → member_of_value v = Some m.
Proof.
  unfold member_ok. intros Hok Hv.
  pose proof (read_known _ _ (member_keys_NoDup m) Hv) as Hk.
  unfold member_of_value. rewrite_reads Hok Hk. by destruct m.
Qed.

(** ** Reading sections *)
Definition sectioned {A} (of_value : section_value → option A) (fs : A → list (string * option Value))
    (o : option A) (extras : option section_value) (v : section_value) : Prop :=
  ∃ a, o = Some a ∧ of_value v = Some a ∧ extras = unknown_keys v (fields (fs a)).
(** The typed form [c] has of section [id] what its raw form [s] says. *)
Definition reads (c : CephClustersConfig) (id : string) (s : option (string * section_value)) : Prop :=
  match s with
  | None => cc_clusters c !! id = None ∧ cc_members c !! id = None ∧ cc_extras c !! id = None
  | Some (ty, v) =>
      (ty = "ceph-cluster" ∧ sectioned cluster_of_value cluster_fields (cc_clusters c !! id) (cc_extras c !! id) v ∧
       cc_members c !! id = None) ∨
      (ty = "ceph-member" ∧ sectioned member_of_value member_fields (cc_members c !! id) (cc_extras c !! id) v ∧
       cc_clusters c !! id = None)
  end.
Definition readable (s : string * section_value) : Prop :=
  (s.1 = "ceph-cluster" ∧ is_Some (cluster_of_value s.2)) ∨ (s.1 = "ceph-member" ∧ is_Some (member_of_value s.2)).

Lemma reads_inj c c' (s : section_data) : (∀ id, reads c id (s !! id)) → (∀ id, reads c' id (s !! id)) → c = c'.
Proof.
  intros H1 H2. destruct c as [c1 m1 e1], c' as [c2 m2 e2].
  assert (∀ id : string, c1 !! id = c2 !! id ∧ m1 !! id = m2 !! id ∧ e1 !! id = e2 !! id) as Heq.
  { intros id. specialize (H1 id). specialize (H2 id). unfold reads, sectioned in *. simpl in *. destruct (s !! id) as [[ty v]|].
    - destruct H1 as [(-> & (? & ? & ? & ?) & ?) | (-> & (? & ? & ? & ?) & ?)];
        destruct H2 as [(? & (? & ? & ? & ?) & ?) | (? & (? & ? & ? & ?) & ?)]; split_and!; congruence.
    - split_and!; naive_solver congruence. }
  f_equal; apply map_eq; intros id; by destruct (Heq id) as (? & ? & ?).
Qed.

Lemma stash_lookup id o (m : gmap string section_value) id' : m !! id = None → stash id o m !! id' = if decide (id = id') then o else m !! id'.
Proof.
  intros Hm. unfold stash. destruct o as [e|].
  - destruct (decide (id = id')) as [-> |]; [apply lookup_insert_eq | by rw lookup_insert_ne].
  - destruct (decide (id = id')) as [-> |]; done.
Qed.

Lemma add_section_reads out (m : section_data) id s out' :
  (∀ id', reads out id' (m !! id')) → m !! id = None → add_section (Some out) (id, s) = Some out' →
  ∀ id', reads out' id' (<[id := s]> m !! id').
Proof.
  intros Hout Hid Hadd id'. destruct s as [ty v]. pose proof (Hout id) as Hn. rw Hid /= in Hn. destruct Hn as (Hc & Hm & He).
  specialize (Hout id'). cbn in Hadd. destruct (String.eqb_spec ty "ceph-cluster") as [-> | _].
  - apply bind_Some in Hadd as (cl & Hcl & [= <-]). destruct (decide (id = id')) as [<- | Hne].
    + rw lookup_insert_eq /=. left. split; [done|]. split; [| done]. exists cl.
      rw lookup_insert_eq stash_lookup // decide_True //.
    + rw lookup_insert_ne // in Hout *. unfold reads in *. simpl. rw lookup_insert_ne // stash_lookup // decide_False //.
  - destruct (String.eqb_spec ty "ceph-member") as [-> | _]; [| done].
    apply bind_Some in Hadd as (mb & Hmb & [= <-]). destruct (decide (id = id')) as [<- | Hne].
    + rw lookup_insert_eq /=. right. split; [done|]. split; [| done]. exists mb.
      rw lookup_insert_eq stash_lookup // decide_True //.
    + rw lookup_insert_ne // in Hout *. unfold reads in *. simpl. rw lookup_insert_ne // stash_lookup // decide_False //.
Qed.

Lemma add_section_total out id s : readable s → is_Some (add_section (Some out) (id, s)).
Proof. destruct s as [ty v]. intros [[Hty [x Hx]] | [Hty [x Hx]]]; simpl in *; subst ty; cbn; rw Hx; by eexists. Qed.

Lemma add_sections_reads l out (m : section_data) out' :
  NoDup l.*1 → (∀ id, id ∈ l.*1 → m !! id = None) → (∀ id, reads out id (m !! id)) →
  foldl add_section (Some out) l = Some out' → ∀ id, reads out' id ((list_to_map l ∪ m) !! id).
Proof.
  revert out m. induction l as [|[id s] l IH]; intros out m Hnd Hm Hout Hf.
  { simplify_eq/=. intros id. by rw left_id_L. }
  apply NoDup_cons in Hnd as [Hid Hnd]. cbn [foldl] in Hf.
  destruct (add_section (Some out) (id, s)) as [out1|] eqn:Ha; last first.
  { exfalso. clear -Hf. induction l as [|p l IH]; [done |]. by apply IH. }
  intros id'. simpl. rw -insert_union_l insert_union_r; [apply not_elem_of_list_to_map_1, Hid |].
  eapply (IH out1 _ Hnd); [| | exact Hf].
  - intros k Hk. rw lookup_insert_ne; [by intros -> |]. apply Hm. by right.
  - eapply add_section_reads; [exact Hout | apply Hm; by left | exact Ha].
Qed.

Lemma untyped_reads s c : untyped_to_typed s = Some c → ∀ id, reads c id (s !! id).
Proof.
  intros Hs id. pose proof (add_sections_reads (map_to_list s) cc_default ∅ c) as H'.
  rw list_to_map_to_list right_id_L in H'. apply H'; [apply NoDup_fst_map_to_list | done | | done].
  intros k. by rw lookup_empty.
Qed.

Lemma add_sections_total l out : (∀ p, p ∈ l → readable p.2) → is_Some (foldl add_section (Some out) l).
Proof.
  revert out. induction l as [|[id s] l IH]; intros out Hl; [by eexists |]. cbn [foldl].
  destruct (add_section_total out id s) as [out1 ->]; [by apply (Hl (id, s)); left |].
  apply IH. intros p Hp. apply Hl. by right.
Qed.

Lemma untyped_read s c : (∀ id, reads c id (s !! id)) → untyped_to_typed s = Some c.
Proof.
  intros Hc. destruct (add_sections_total (map_to_list s) cc_default) as [c' Hc'].
  { intros [id [ty v]] Hin%elem_of_map_to_list. specialize (Hc id). rw Hin /= in Hc. unfold sectioned in Hc. simpl.
    destruct Hc as [(-> & (a & _ & Ha & _) & _) | (-> & (a & _ & Ha & _) & _)]; [left | right]; by rw /= Ha. }
  unfold untyped_to_typed. rw Hc'. f_equal. eapply reads_inj; [| exact Hc]. by apply untyped_reads.
Qed.

(** ** Writing sections *)
Lemma put_sections_lookup {A} c ty (fs : A → list (string * option Value)) l raw id :
  NoDup l.*1 → (foldl (put_section c ty fs) raw l).1 !! id
  = match (list_to_map l : gmap string A) !! id with
    | Some a => Some (ty, merge_extras c id (fields (fs a)))
    | None => raw.1 !! id
    end.
Proof.
  revert raw. induction l as [|[k a] l IH]; intros raw Hnd; [done |]. apply NoDup_cons in Hnd as [Hk Hnd].
  simpl. rw (IH _ Hnd). destruct (decide (k = id)) as [-> | Hne].
  - rw lookup_insert_eq not_elem_of_list_to_map_1 //. simpl. by rw lookup_insert_eq.
  - rw lookup_insert_ne //. case_match; [done |]. simpl. by rw lookup_insert_ne.
Qed.

Lemma sorted_to_map {A} (m : gmap string A) :
  NoDup (sort_by by_id (map_to_list m)).*1 ∧ list_to_map (sort_by by_id (map_to_list m)) = m.
Proof.
  assert (NoDup (sort_by by_id (map_to_list m)).*1) as Hnd.
  { rw sort_by_perm. apply NoDup_fst_map_to_list. }
  split; [done |]. rw -{2}(list_to_map_to_list m). apply list_to_map_proper; [done | apply sort_by_perm].
Qed.

Lemma typed_to_untyped_lookup c id :
  (typed_to_untyped c).1 !! id
  = match cc_members c !! id with
    | Some m => Some ("ceph-member", merge_extras c id (fields (member_fields m)))
    | None => (λ cl, ("ceph-cluster", merge_extras c id (fields (cluster_fields cl)))) <$> cc_clusters c !! id
    end.
Proof.
  unfold typed_to_untyped. destruct (sorted_to_map (cc_members c)) as [Hn1 Hm1]. destruct (sorted_to_map (cc_clusters c)) as [Hn2 Hm2].
  rw put_sections_lookup // Hm1. case_match; [done |]. rw put_sections_lookup // Hm2. by destruct (cc_clusters c !! id).
Qed.

Lemma merge_unknown (raw known : section_value) :
  known ⊆ raw → match unknown_keys raw known with Some e => known ∪ e | None => known end = raw.
Proof.
  intros Hsub. assert (known ∪ filter (λ p, known !! p.1 = None) raw = raw) as Heq.
  { apply map_eq. intros k. rw lookup_union. destruct (known !! k) as [x|] eqn:Hk.
    - rw (lookup_weaken _ _ _ _ Hk Hsub). by rw union_Some_l.
    - rw left_id_L. destruct (raw !! k) as [x|] eqn:Hr.
      + by apply map_lookup_filter_Some.
      + apply map_lookup_filter_None. by left. }
  unfold unknown_keys. destruct (decide _) as [E | _]; [| done]. rw E right_id_L in Heq. done.
Qed.

(** What was read is written back as it was. *)
Lemma rewrite_lossless s c : untyped_to_typed s = Some c → (typed_to_untyped c).1 = s.
Proof.
  intros Hc. apply map_eq. intros id. rw typed_to_untyped_lookup. pose proof (untyped_reads _ _ Hc id) as Hr.
  unfold reads in Hr. destruct (s !! id) as [[ty v]|].
  - unfold merge_extras. destruct Hr as [(-> & (a & -> & Ha & ->) & ->) | (-> & (a & -> & Ha & ->) & _)]; simpl; do 2 f_equal;
      apply merge_unknown; [by apply cluster_value_sub | by apply member_value_sub].
  - by destruct Hr as (-> & -> & _).
Qed.

(** ** Sane configurations

    Sections are named by their ids; the id of a cluster is a UUID and that of a member is longer,
    so the two kinds of sections do not clash; members belong to registered clusters; what is kept
    of unknown keys are texts of keys that are really unknown. *)
Definition is_uuid (fsid : string) : Prop := String.length fsid = 36%nat.
Definition keys_of_id (id : string) : list string :=
  if bool_decide (is_uuid id) then cluster_keys else member_keys.
Record ceph_wf (c : CephClustersConfig) : Prop := {
  wf_clusters k cl : cc_clusters c !! k = Some cl → cl_id cl = k ∧ is_uuid k ∧ cluster_ok cl;
  wf_members k m : cc_members c !! k = Some m →
    mb_id m = k ∧ (36 < String.length k)%nat ∧ is_Some (cc_clusters c !! mb_cluster m) ∧ member_ok m;
  wf_extras k e : cc_extras c !! k = Some e →
    e ≠ ∅ ∧ ∀ key x, e !! key = Some x → is_Some (as_string x) ∧ key ∉ keys_of_id k;
}.

(** Without the unknown keys of sections that are gone *)
Definition registered (c : CephClustersConfig) (id : string) : bool :=
  bool_decide (is_Some (cc_clusters c !! id)) || bool_decide (is_Some (cc_members c !! id)).
Definition prune (c : CephClustersConfig) : CephClustersConfig := {|
  cc_clusters := cc_clusters c; cc_members := cc_members c;
  cc_extras := filter (λ p, registered c p.1 = true) (cc_extras c) |}.

Lemma no_clash c k m : ceph_wf c → cc_members c !! k = Some m → cc_clusters c !! k = None.
Proof.
  intros Hwf Hm. destruct (cc_clusters c !! k) as [cl|] eqn:Hc; [| done].
  apply (wf_members _ Hwf) in Hm as (_ & Hl & _). apply (wf_clusters _ Hwf) in Hc as (_ & Hu & _).
  unfold is_uuid in Hu. lia.
Qed.

Lemma prune_extras c id :
  cc_extras (prune c) !! id = if registered c id then cc_extras c !! id else None.
Proof.
  simpl. destruct (registered c id) eqn:Hr.
  - destruct (cc_extras c !! id) as [e|] eqn:E; [by apply map_lookup_filter_Some | apply map_lookup_filter_None; by left].
  - apply map_lookup_filter_None. right. intros e _. by rw /= Hr.
Qed.

Lemma prune_wf c : ceph_wf c → ceph_wf (prune c).
Proof.
  intros [Hc Hm He]. split; [done | done |]. intros k e Hk. rw prune_extras in Hk. case_match; [by apply He | done].
Qed.

(** Merging unknown keys leaves the known ones alone, and they are found again. *)
Lemma merged_known c (v : section_value) id key : ceph_wf c → key ∈ keys_of_id id → merge_extras c id v !! key = v !! key.
Proof.
  intros Hwf Hkey. unfold merge_extras. destruct (cc_extras c !! id) as [e|] eqn:He; [| done].
  apply (wf_extras _ Hwf) in He as [_ He]. rw lookup_union. destruct (e !! key) as [x|] eqn:Hx.
  - by destruct (He key x Hx) as [_ []].
  - by rw right_id_L.
Qed.
Lemma merged_unknown c (l : list (string * option Value)) id :
  ceph_wf c → l.*1 = keys_of_id id → unknown_keys (merge_extras c id (fields l)) (fields l) = cc_extras c !! id.
Proof.
  intros Hwf Hl. unfold unknown_keys, merge_extras. destruct (cc_extras c !! id) as [e|] eqn:He.
  - assert (filter (λ p, fields l !! p.1 = None) (fields l ∪ e) = e) as ->.
    { apply map_eq. intros key. apply (wf_extras _ Hwf) in He as [_ He]. destruct (e !! key) as [x|] eqn:Hx.
      - apply map_lookup_filter_Some. destruct (He key x Hx) as [_ Hk]. rw -Hl in Hk. apply fields_absent in Hk.
        by rw lookup_union Hk Hx left_id_L.
      - apply map_lookup_filter_None. right. intros x. rw lookup_union Hx right_id_L /=. congruence. }
    rw decide_False //. by apply (wf_extras _ Hwf) in He as [? _].
  - rw decide_True //. apply map_empty. intros key. apply map_lookup_filter_None. right. intros x. simpl. congruence.
Qed.

(** What is written reads back. *)
Lemma write_reads c : ceph_wf c → untyped_to_typed (typed_to_untyped c).1 = Some (prune c).
Proof.
  intros Hwf. apply untyped_read. intros id. rw typed_to_untyped_lookup. unfold reads.
  destruct (cc_members c !! id) as [m|] eqn:Hm.
  - pose proof (no_clash _ _ _ Hwf Hm) as Hno. destruct (wf_members _ Hwf _ _ Hm) as (_ & Hlen & _ & Hok).
    assert (keys_of_id id = member_keys) as Hk by (unfold keys_of_id; rw bool_decide_false //; unfold is_uuid; lia).
    right. split; [done |]. split; [| done]. exists m. split; [done |]. split.
    + apply member_value_read; [done |]. intros key Hkey. apply merged_known; [done | by rw Hk].
    + rw prune_extras merged_unknown //. unfold registered. by rw Hm (bool_decide_true (is_Some (Some m))) // orb_true_r.
  - destruct (cc_clusters c !! id) as [cl|] eqn:Hc; simpl.
    + destruct (wf_clusters _ Hwf _ _ Hc) as (_ & Hu & Hok).
      assert (keys_of_id id = cluster_keys) as Hk by (unfold keys_of_id; by rw bool_decide_true).
      left. split; [done |]. split; [| done]. exists cl. split; [done |]. split.
      * apply cluster_value_read; [done |]. intros key Hkey. apply merged_known; [done | by rw Hk].
      * change (filter _ _) with (cc_extras (prune c)). rw prune_extras merged_unknown //. unfold registered. by rw Hc (bool_decide_true (is_Some (Some cl))).
    + split_and!; [done | done |]. change (filter _ _) with (cc_extras (prune c)). rw prune_extras. unfold registered. by rw Hc Hm.
Qed.

(** Written sections are in order for the format. *)
Lemma write_section_ok c : ceph_wf c → map_Forall section_ok (typed_to_untyped c).1.
Proof.
  intros Hwf id s. rw typed_to_untyped_lookup. intros Hs.
  assert (∃ ty l, s = (ty, merge_extras c id (fields l)) ∧ known_keys ty = keys_of_id id ∧ l.*1 = keys_of_id id ∧
    fields l !! "id" = Some (VString id)) as (ty & l & -> & Hty & Hl & Hid).
  { destruct (cc_members c !! id) as [m|] eqn:Hm.
    - destruct (wf_members _ Hwf _ _ Hm) as (Hmid & Hlen & _ & Hok). simplify_eq.
      exists "ceph-member", (member_fields m). unfold keys_of_id. rw bool_decide_false; [unfold is_uuid; lia |].
      split_and!; [done | done | done |]. apply fields_lookup; [apply member_keys_NoDup | by left].
    - apply fmap_Some in Hs as (cl & Hc & ->). destruct (wf_clusters _ Hwf _ _ Hc) as (Hcid & Hu & Hok).
      exists "ceph-cluster", (cluster_fields cl). unfold keys_of_id. rw bool_decide_true //.
      split_and!; [done | done | done |]. rw -Hcid. apply fields_lookup; [apply cluster_keys_NoDup | by left]. }
  split; simpl.
  - rw merged_known //. rw -Hl. apply fields_elem in Hid. by apply (list_elem_of_fmap_2 fst _ ("id", Some (VString id))).
  - rw Hty -Hl. intros key x Hx Hkey%fields_absent. unfold merge_extras in Hx. destruct (cc_extras c !! id) as [e|] eqn:He; [| congruence].
    rw lookup_union Hkey left_id_L in Hx. by apply (wf_extras _ Hwf) in He as [_ He]; apply (He _ _ Hx).
Qed.
End members.
