(* ===== verification/CephRegistry.v ===== *)
(** * The registry of Ceph clusters

    The operations on the configuration of lib/pdm-config/src/ceph.rs; server/src/ceph/sweep.rs,
    which fills it by asking the PVE remotes; server/src/ceph/registry.rs, which decides who may
    see a cluster; and server/src/ceph/dispatch.rs, which picks the member to reach it through.
    What a remote answers and which remotes a caller has the privilege on are parameters. *)
From S2P Require Import Prelude RustStr Remotes Disk ApiCache CephConfig.

#[local] Open Scope string_scope.

Definition with_clusters (c : CephClustersConfig) (m : gmap string CephCluster) : CephClustersConfig :=
  {| cc_clusters := m; cc_members := cc_members c; cc_extras := cc_extras c |}.
Definition with_members (c : CephClustersConfig) (m : gmap string CephMember) : CephClustersConfig :=
  {| cc_clusters := cc_clusters c; cc_members := m; cc_extras := cc_extras c |}.

(** ** Operations on the configuration *)
Definition members_of (c : CephClustersConfig) (cluster_id : string) : list CephMember :=
  List.filter (λ m, String.eqb (mb_cluster m) cluster_id) (snd <$> map_to_list (cc_members c)).

Definition backed_by (remote : string) (m : CephMember) : bool :=
  bool_decide (mb_kind m = KindPve) && bool_decide (mb_remote m = Some remote).
Definition drop_pve_members_for_remote (remote : string) (c : CephClustersConfig) : CephClustersConfig * bool :=
  let members := filter (λ p, backed_by remote p.2 = false) (cc_members c) in
  (with_members c members, negb (size (cc_members c) =? size members)%nat).

Definition has_member (c : CephClustersConfig) (id : string) : bool :=
  existsb (λ p, String.eqb (mb_cluster p.2) id) (map_to_list (cc_members c)).
Definition drop_clusters_without_members (c : CephClustersConfig) : CephClustersConfig * list string :=
  let dropped := List.filter (λ id, negb (has_member c id)) (fst <$> map_to_list (cc_clusters c)) in
  (with_clusters c (foldr delete (cc_clusters c) dropped), dropped).

(** ** Probing *)
Inductive ProbeOutcome :=
| Found (fsid : string) (nodes : list string)
| ProbeReachable
| ProbeUnreachable.

(** What asking a remote for the status of its Ceph cluster can give: no client can be built, the
    client reports an error, or a status comes with the fsid and the names in the quorum, if it has
    them as a string and as an array of which the strings count *)
Inductive ClientError := ErrApi | ErrAuthentication | ErrTicket | ErrTfaRequired | ErrOtherClient.
Inductive probe_answer :=
| NoClient
| StatusError (e : ClientError)
| CephAnswer (fsid : option string) (quorum_names : option (list (option string))).

Definition probe_remote (a : probe_answer) : ProbeOutcome :=
  match a with
  | NoClient => ProbeUnreachable
  | StatusError (ErrApi | ErrAuthentication | ErrTicket | ErrTfaRequired) => ProbeReachable
  | StatusError ErrOtherClient => ProbeUnreachable
  | CephAnswer None _ => ProbeReachable
  | CephAnswer (Some fsid) names => Found fsid (match names with Some l => omap (λ n, n) l | None => [] end)
  end.

Abbreviation found_map := (gmap string (list (string * string))).
Definition probe_step (answers : string → probe_answer) (acc : gmap string ProbeOutcome * found_map) (remote : string)
    : gmap string ProbeOutcome * found_map :=
  let outcome := probe_remote (answers remote) in
  (<[remote := outcome]> acc.1,
   match outcome with
   | Found fsid nodes => <[fsid := (default [] (acc.2 !! fsid) ++ ((λ n, (remote, n)) <$> nodes))%list]> acc.2
   | _ => acc.2
   end).
Definition probe_all (answers : string → probe_answer) (remotes : list string) : gmap string ProbeOutcome * found_map :=
  foldl (probe_step answers) (∅, ∅) remotes.

(** ** Changing the registry

    Each operation also says whether it changed anything, which decides whether the file is
    written. *)
Definition new_cluster (fsid : string) : CephCluster := {|
  cl_id := fsid; cl_display_name := None; cl_public_network := None; cl_cluster_network := None;
  cl_stretch_mode := None; cl_tiebreaker_mon := None; cl_state := None; cl_last_seen_missing := None;
  cl_forgotten := None |}.
Definition set_state (c : CephCluster) (state : option CephClusterState) (missing : option Z) : CephCluster := {|
  cl_id := cl_id c; cl_display_name := cl_display_name c; cl_public_network := cl_public_network c;
  cl_cluster_network := cl_cluster_network c; cl_stretch_mode := cl_stretch_mode c;
  cl_tiebreaker_mon := cl_tiebreaker_mon c; cl_state := state; cl_last_seen_missing := missing;
  cl_forgotten := cl_forgotten c |}.

Definition is_forgotten (c : CephClustersConfig) (fsid : string) : bool :=
  match cc_clusters c !! fsid with Some cl => bool_decide (is_Some (cl_forgotten cl)) | None => false end.

Definition member_id (fsid node : string) : string := fsid ++ "-" ++ node.
Definition add_member (fsid : string) (acc : CephClustersConfig * bool) (rn : string * string)
    : CephClustersConfig * bool :=
  let '(c, changed) := acc in
  let id := member_id fsid rn.2 in
  match cc_members c !! id with
  | Some _ => acc
  | None =>
      (with_members c (<[id := {| mb_id := id; mb_cluster := fsid; mb_kind := KindPve; mb_remote := Some rn.1;
                                  mb_node := Some rn.2; mb_address := None; mb_fingerprint := None;
                                  mb_authid := None; mb_site := None |}]> (cc_members c)), true)
  end.

Definition upsert_cluster (fsid : string) (members : list (string * string)) (c : CephClustersConfig)
    : CephClustersConfig * bool :=
  if is_forgotten c fsid then (c, false)
  else
    let '(cl, changed) := match cc_clusters c !! fsid with
                          | Some cl => (cl, false)
                          | None => (new_cluster fsid, true)
                          end in
    let '(cl, changed) :=
      if negb (bool_decide (cl_state cl = Some Detected)) || bool_decide (is_Some (cl_last_seen_missing cl))
      then (set_state cl (Some Detected) None, true) else (cl, changed) in
    foldl (add_member fsid) (with_clusters c (<[fsid := cl]> (cc_clusters c)), changed) members.

(** [reconcile_unfound]: the new state of a cluster that was not found, if it gets one *)
Definition member_remotes (c : CephClustersConfig) (fsid : string) : list string :=
  omap (λ m, if bool_decide (mb_kind m = KindPve) then mb_remote m else None) (members_of c fsid).
Definition is_unreachable (o : ProbeOutcome) : bool := match o with ProbeUnreachable => true | _ => false end.
Definition demotion (c : CephClustersConfig) (found : found_map) (outcomes : gmap string ProbeOutcome)
    (fsid : string) (cl : CephCluster) : option CephClusterState :=
  if bool_decide (is_Some (found !! fsid)) || bool_decide (is_Some (cl_forgotten cl)) then None
  else match omap (outcomes !!.) (member_remotes c fsid) with
       | [] => None
       | probed => Some (if existsb is_unreachable probed then CephUnreachable else CephGone)
       end.
Definition apply_update (now : Z) (acc : CephClustersConfig * bool) (u : string * CephClusterState)
    : CephClustersConfig * bool :=
  let '(c, changed) := acc in
  match cc_clusters c !! u.1 with
  | None => acc (* get_mut(..).unwrap(): the id was read from the same map *)
  | Some cl =>
      let put cl changed := (with_clusters c (<[u.1 := cl]> (cc_clusters c)), changed) in
      match u.2 with
      | CephGone =>
          let '(cl, changed) := if bool_decide (cl_state cl = Some CephGone) then (cl, changed)
                                else (set_state cl (Some CephGone) (cl_last_seen_missing cl), true) in
          match cl_last_seen_missing cl with
          | None => put (set_state cl (cl_state cl) (Some now)) true
          | Some _ => put cl changed
          end
      | CephUnreachable =>
          if bool_decide (cl_state cl = Some CephUnreachable) then put cl changed
          else put (set_state cl (Some CephUnreachable) (cl_last_seen_missing cl)) true
      | _ => acc
      end
  end.
Definition reconcile_unfound (found : found_map) (outcomes : gmap string ProbeOutcome) (now : Z) (c : CephClustersConfig)
    : CephClustersConfig * bool :=
  foldl (apply_update now) (c, false)
    (omap (λ p, (λ s, (p.1, s)) <$> demotion c found outcomes p.1 p.2) (map_to_list (cc_clusters c))).

(** All clusters found, in the order of their ids *)
Definition upsert_all (found : found_map) (c : CephClustersConfig) : CephClustersConfig * bool :=
  foldl (λ acc p, let '(c, changed) := upsert_cluster p.1 p.2 acc.1 in (c, acc.2 || changed)) (c, false)
    (sort_by (λ a b, String.compare a.1 b.1) (map_to_list found)).

(** ** Transactions on the file *)
Section file.
Context `{CephSections}.

(** A transaction under the lock, which is held to its end: [syscall] stands for taking the lock *)
Definition ceph_transaction (f : CephClustersConfig → CephClustersConfig * bool) : IO () :=
  _ ← syscall;
  c ← ceph_config;
  let '(c, changed) := f c in
  if (changed : bool) then ceph_save_config c else mret ().

(** The remotes are asked before the lock is taken. *)
Definition detect_and_upsert (answers : string → probe_answer) (remotes : list string) : IO () :=
  let '(_, found) := probe_all answers remotes in
  if decide (found = ∅) then mret () else ceph_transaction (upsert_all found).
Definition sweep_commit (probed : gmap string ProbeOutcome * found_map) (now : Z) (c : CephClustersConfig)
    : CephClustersConfig * bool :=
  let '(c, changed) := upsert_all probed.2 c in
  let '(c, changed') := reconcile_unfound probed.2 probed.1 now c in
  (c, changed || changed').
Definition sweep (config : list (string * RemoteType)) (answers : string → probe_answer) (now : Z) : IO () :=
  let pve_remotes := fst <$> List.filter (λ p, bool_decide (p.2 = Pve)) config in
  ceph_transaction (sweep_commit (probe_all answers pve_remotes) now).
Definition remote_removed (remote : string) (c : CephClustersConfig) : CephClustersConfig * bool :=
  let '(c, dropped_members) := drop_pve_members_for_remote remote c in
  let '(c, dropped_clusters) := drop_clusters_without_members c in
  (c, dropped_members || negb (bool_decide (dropped_clusters = []))).
Definition on_remote_removed (remote : string) : IO () := ceph_transaction (remote_removed remote).
End file.

(** ** Access *)

(** [may] are the remotes with the privilege, [any_privs_below] on /resource/{remote}. *)
Definition member_accessible (may : string → bool) (m : CephMember) : bool :=
  match mb_kind m, mb_remote m with KindPve, Some r => may r | _, _ => false end.
Definition cluster_accessible (may : string → bool) (c : CephClustersConfig) (cluster : string) : bool :=
  existsb (member_accessible may) (members_of c cluster).
Inductive access_error := NoSuchCluster | NoAccess.
Definition check_cluster_access (may : string → bool) (c : CephClustersConfig) (cluster : string)
    : result access_error () :=
  _ ← bail_if (negb (bool_decide (is_Some (cc_clusters c !! cluster)))) NoSuchCluster;
  bail_if (negb (cluster_accessible may c cluster)) NoAccess.
Definition check_member_access (may : string → bool) (m : CephMember) : result access_error () :=
  bail_if (negb (member_accessible may m)) NoAccess.
Definition sorted_members (c : CephClustersConfig) (cluster : string) : list CephMember :=
  sort_by (λ a b, String.compare (mb_id a) (mb_id b)) (members_of c cluster).
Definition accessible_clusters (may : string → bool) (c : CephClustersConfig) : list (CephCluster * list CephMember) :=
  sort_by (λ a b, String.compare (cl_id a.1) (cl_id b.1))
    (omap (λ p, if cluster_accessible may c p.1 then Some (p.2, sorted_members c p.1) else None)
       (map_to_list (cc_clusters c))).
Definition lookup_cluster (may : string → bool) (c : CephClustersConfig) (cluster : string)
    : result access_error (CephCluster * list CephMember) :=
  _ ← check_cluster_access may c cluster;
  match cc_clusters c !! cluster with
  | Some cl => Ok (cl, sorted_members c cluster)
  | None => Err NoSuchCluster
  end.

(** ** Dispatch *)

(** [connect] builds a client for a remote; nothing is sent yet. *)
Fixpoint connect_loop {Client} (connect : string → result string Client) (last_err : option string)
    (members : list CephMember) : result string (CephMember * Client) :=
  match members with
  | [] => Err (default "ceph cluster has no PVE member to connect through" last_err)
  | m :: members =>
      match mb_kind m, mb_remote m with
      | KindPve, Some remote =>
          match connect remote with
          | Ok client => Ok (m, client)
          | Err err => connect_loop connect (Some err) members
          end
      | _, _ => connect_loop connect last_err members
      end
  end.
Definition connect_cluster {Client} (connect : string → result string Client) : list CephMember → result string (CephMember * Client) :=
  connect_loop connect None.

(** server/src/api/ceph/clusters.rs: every read of a cluster goes through these two. *)
Definition access_checked_members (may : string → bool) (c : CephClustersConfig) (cluster : string)
    : result access_error (list CephMember) :=
  '(_, members) ← lookup_cluster may c cluster; Ok members.
Definition cluster_connect {Client} (may : string → bool) (connect : string → result string Client)
    (c : CephClustersConfig) (cluster : string) : result (access_error + string) (CephMember * Client) :=
  match access_checked_members may c cluster with
  | Err e => Err (inl e)
  | Ok members => match connect_cluster connect members with Ok r => Ok r | Err e => Err (inr e) end
  end.
