(* ===== verification/CephFacts.v ===== *)
(** * The registry of Ceph clusters: lemmas

    What each operation does to clusters and members, that it reports a change whenever it makes
    one, that it keeps the configuration sane and the unknown keys of sections. *)
From S2P Require Import Prelude RustStr Remotes Disk ApiCache CephConfig CephConfigFacts CephRegistry.

#[local] Open Scope list_scope.

Lemma set_state_id cl : set_state cl (cl_state cl) (cl_last_seen_missing cl) = cl.
Proof. by destruct cl. Qed.
Lemma with_clusters_id c : with_clusters c (cc_clusters c) = c.
Proof. by destruct c. Qed.

(** ** Members *)
Definition pve_member (fsid remote node : string) : CephMember := {|
  mb_id := member_id fsid node; mb_cluster := fsid; mb_kind := KindPve; mb_remote := Some remote;
  mb_node := Some node; mb_address := None; mb_fingerprint := None; mb_authid := None; mb_site := None |}.

(** [c'] has the members of [c], and those of [fsid] that are in [l]. *)
Record members_grow (fsid : string) (l : list (string * string)) (c c' : CephClustersConfig) : Prop := {
  mg_clusters : cc_clusters c' = cc_clusters c;
  mg_extras : cc_extras c' = cc_extras c;
  mg_kept : cc_members c ⊆ cc_members c';
  mg_new k m : cc_members c' !! k = Some m → cc_members c !! k = Some m ∨
    ∃ remote node, (remote, node) ∈ l ∧ k = member_id fsid node ∧ m = pve_member fsid remote node;
  mg_all remote node : (remote, node) ∈ l → is_Some (cc_members c' !! member_id fsid node);
}.

Lemma add_member_grows fsid rn c b : members_grow fsid [rn] c (add_member fsid (c, b) rn).1.
Proof.
  destruct rn as [remote node]. simpl. destruct (cc_members c !! member_id fsid node) as [m0|] eqn:Hm.
  - split; [done | done | done | by left |]. intros r n [= -> ->]%list_elem_of_singleton. by exists m0.
  - change {| mb_id := _ |} with (pve_member fsid remote node). split; simpl; [done | done | by apply insert_subseteq | |].
    + intros k m [[<- <-] | [_ ?]]%lookup_insert_Some; [right | by left]. exists remote, node. split; [by left | done].
    + intros r n [= -> ->]%list_elem_of_singleton. rw lookup_insert_eq. by eexists.
Qed.

Lemma members_grow_trans fsid l1 l2 c1 c2 c3 :
  members_grow fsid l1 c1 c2 → members_grow fsid l2 c2 c3 → members_grow fsid (l1 ++ l2) c1 c3.
Proof.
  intros [Hc1 He1 Hk1 Hn1 Ha1] [Hc2 He2 Hk2 Hn2 Ha2]. split; [congruence | congruence | by etrans | |].
  - intros k m [[? | (r & n & ? & ?)]%Hn1 | (r & n & ? & ?)]%Hn2; [by left | right; exists r, n.. ];
      (split; [apply elem_of_app; auto | done]).
  - intros r n [[m Hm]%Ha1 | Hin]%elem_of_app; [| by apply Ha2 in Hin]. exists m. by eapply lookup_weaken.
Qed.

Lemma add_members_grow fsid l c b : members_grow fsid l c (foldl (add_member fsid) (c, b) l).1.
Proof.
  revert c b. induction l as [|rn l IH]; intros c b.
  { split; [done | done | done | by left |]. by intros ?? ?%not_elem_of_nil. }
  cbn [foldl]. pose proof (add_member_grows fsid rn c b) as H1. destruct (add_member fsid (c, b) rn) as [c1 b1].
  by eapply (members_grow_trans fsid [rn] l), IH.
Qed.

(** An operation reports whether it changed something: [c] to [c'] with flag [b] *)
Definition honest (c c' : CephClustersConfig) (b : bool) : Prop := b = false → c' = c.

Lemma add_members_honest fsid l c b c0 :
  honest c0 c b → honest c0 (foldl (add_member fsid) (c, b) l).1 (foldl (add_member fsid) (c, b) l).2.
Proof.
  revert c b. induction l as [|rn l IH]; intros c b Hb; [done |]. cbn [foldl].
  destruct (add_member fsid (c, b) rn) as [c1 b1] eqn:E. apply IH.
  unfold add_member in E. by destruct (cc_members c !! _); simplify_eq.
Qed.

(** All members there already: nothing to do *)
Lemma add_members_settled fsid l c b :
  (∀ remote node, (remote, node) ∈ l → is_Some (cc_members c !! member_id fsid node)) →
  foldl (add_member fsid) (c, b) l = (c, b).
Proof.
  induction l as [|[r n] l IH]; intros Hl; [done |]. cbn [foldl add_member snd].
  destruct (Hl r n) as [m ->]; [by left |]. apply IH. intros r' n' Hin. apply (Hl r' n'). by right.
Qed.

(** ** Clusters that were found *)
Definition detected (o : option CephCluster) (fsid : string) : CephCluster :=
  set_state (default (new_cluster fsid) o) (Some Detected) None.

Lemma upsert_cluster_forgotten fsid l c : is_forgotten c fsid = true → upsert_cluster fsid l c = (c, false).
Proof. unfold upsert_cluster. by intros ->. Qed.

Lemma upsert_cluster_found fsid l c : is_forgotten c fsid = false →
  ∃ b, upsert_cluster fsid l c
       = foldl (add_member fsid) (with_clusters c (<[fsid := detected (cc_clusters c !! fsid) fsid]> (cc_clusters c)), b) l ∧
       honest c (with_clusters c (<[fsid := detected (cc_clusters c !! fsid) fsid]> (cc_clusters c))) b ∧
       (∀ cl, cc_clusters c !! fsid = Some cl → detected (Some cl) fsid = cl → b = false).
Proof.
  unfold upsert_cluster. intros ->. unfold detected.
  destruct (cc_clusters c !! fsid) as [cl|] eqn:Hcl; simpl.
  - destruct (negb _ || _) eqn:Hd.
    + exists true. split_and!; [done | done |]. intros cl' [= <-] Heq. exfalso.
      apply (f_equal cl_state) in Heq as Hs. apply (f_equal cl_last_seen_missing) in Heq as Hm. simpl in Hs, Hm.
      rw -Hs -Hm in Hd. by vm_compute in Hd.
    + apply orb_false_iff in Hd as [Hs%negb_false_iff%bool_decide_eq_true Hm%bool_decide_eq_false].
      exists false. rw -Hs. assert (None = cl_last_seen_missing cl) as ->.
      { destruct (cl_last_seen_missing cl); [by destruct Hm | done]. }
      rw set_state_id. split_and!; [done | | done]. intros _. rw insert_id //. apply with_clusters_id.
  - exists true. by split_and!.
Qed.

Lemma detected_forgotten o fsid : cl_forgotten (detected o fsid) = o ≫= cl_forgotten.
Proof. by destruct o. Qed.

(** [c'] is [c] with the clusters of [found] that are not forgotten, and their members. *)
Record upserted (found : list (string * list (string * string))) (c c' : CephClustersConfig) : Prop := {
  up_clusters k : cc_clusters c' !! k =
    if bool_decide (k ∈ found.*1) && negb (is_forgotten c k) then Some (detected (cc_clusters c !! k) k) else cc_clusters c !! k;
  up_extras : cc_extras c' = cc_extras c;
  up_kept : cc_members c ⊆ cc_members c';
  up_new k m : cc_members c' !! k = Some m → cc_members c !! k = Some m ∨
    ∃ fsid l remote node, (fsid, l) ∈ found ∧ is_forgotten c fsid = false ∧ (remote, node) ∈ l ∧
      k = member_id fsid node ∧ m = pve_member fsid remote node;
  up_all fsid l remote node : (fsid, l) ∈ found → is_forgotten c fsid = false → (remote, node) ∈ l →
    is_Some (cc_members c' !! member_id fsid node);
}.

Lemma upserted_forgotten found c c' : upserted found c c' → ∀ k, is_forgotten c' k = is_forgotten c k.
Proof.
  intros Hu k. unfold is_forgotten. rw (up_clusters _ _ _ Hu k). destruct (bool_decide _ && negb _) eqn:E; [| done].
  apply andb_true_iff in E as [_ E%negb_true_iff]. rw detected_forgotten. unfold is_forgotten in E.
  by destruct (cc_clusters c !! k).
Qed.

Lemma upsert_cluster_upserted fsid l c : upserted [(fsid, l)] c (upsert_cluster fsid l c).1.
Proof.
  destruct (is_forgotten c fsid) eqn:Hf.
  - rw upsert_cluster_forgotten //. split; simpl; [| done | done | by left |].
    + intros k. destruct (bool_decide_reflect (k ∈ [fsid])) as [->%list_elem_of_singleton |]; [by rw Hf | done].
    + intros ???? [= -> ->]%list_elem_of_singleton. congruence.
  - destruct (upsert_cluster_found fsid l c Hf) as (b & -> & _).
    destruct (add_members_grow fsid l (with_clusters c (<[fsid := detected (cc_clusters c !! fsid) fsid]> (cc_clusters c))) b) as [Hc He Hk Hn Ha].
    split; [| done | done | |].
    + intros k. rw Hc /=. destruct (decide (k = fsid)) as [-> | Hne].
      * rw lookup_insert_eq bool_decide_true; [by left | by rw Hf].
      * rw lookup_insert_ne // bool_decide_false //. by intros ?%list_elem_of_singleton.
    + intros k m [? | (r & n & ? & ? & ?)]%Hn; [by left | right]. exists fsid, l, r, n. split; [by left | done].
    + intros ???? [= -> ->]%list_elem_of_singleton _. apply Ha.
Qed.

Lemma detected_idem o k : detected (Some (detected o k)) k = detected o k.
Proof. by destruct o as [[]|]. Qed.

Lemma upserted_trans f1 f2 c1 c2 c3 : upserted f1 c1 c2 → upserted f2 c2 c3 → upserted (f1 ++ f2) c1 c3.
Proof.
  intros H1 H2. pose proof (upserted_forgotten _ _ _ H1) as Hf.
  destruct H1 as [Hc1 He1 Hk1 Hn1 Ha1], H2 as [Hc2 He2 Hk2 Hn2 Ha2]. split; [| congruence | by etrans | |].
  - intros k. rw Hc2 Hc1 Hf fmap_app.
    rw (bool_decide_ext (k ∈ f1.*1 ++ f2.*1) (k ∈ f1.*1 ∨ k ∈ f2.*1)); [by rw elem_of_app |]. rw bool_decide_or.
    destruct (bool_decide (k ∈ f1.*1)), (bool_decide (k ∈ f2.*1)), (is_forgotten c1 k); by rw /= ?detected_idem.
  - intros k m [[? | (f & l & r & n & ? & ?)]%Hn1 | (f & l & r & n & ? & Hff & ?)]%Hn2; [by left | right; exists f, l, r, n.. ].
    + split; [apply elem_of_app; by left | done].
    + split; [apply elem_of_app; by right | by rw -Hf].
  - intros f l r n [Hin | Hin]%elem_of_app Hff Hrn; [| by eapply Ha2; [| rw Hf |]].
    destruct (Ha1 _ _ _ _ Hin Hff Hrn) as [m Hm]. exists m. by eapply lookup_weaken.
Qed.

Definition upsert_step (acc : CephClustersConfig * bool) (p : string * list (string * string)) : CephClustersConfig * bool :=
  let '(c, changed) := upsert_cluster p.1 p.2 acc.1 in (c, acc.2 || changed).

Lemma upsert_steps_upserted l acc : upserted l acc.1 (foldl upsert_step acc l).1.
Proof.
  revert acc. induction l as [|[fsid ms] l IH]; intros acc.
  { split; [done | done | done | by left |]. by intros ???? ?%not_elem_of_nil. }
  cbn [foldl]. eapply (upserted_trans [(fsid, ms)] l); [| apply IH].
  unfold upsert_step. simpl. pose proof (upsert_cluster_upserted fsid ms acc.1) as H'. by destruct (upsert_cluster fsid ms acc.1).
Qed.

Lemma upsert_cluster_honest fsid l c : honest c (upsert_cluster fsid l c).1 (upsert_cluster fsid l c).2.
Proof.
  destruct (is_forgotten c fsid) eqn:Hf; [by rw upsert_cluster_forgotten |].
  destruct (upsert_cluster_found fsid l c Hf) as (b & -> & Hb & _). by apply add_members_honest.
Qed.

Lemma upsert_steps_honest l acc c0 : honest c0 acc.1 acc.2 → honest c0 (foldl upsert_step acc l).1 (foldl upsert_step acc l).2.
Proof.
  revert acc. induction l as [|[fsid ms] l IH]; intros acc Hacc; [done |]. cbn [foldl]. apply IH.
  unfold upsert_step. simpl. pose proof (upsert_cluster_honest fsid ms acc.1) as H'.
  destruct (upsert_cluster fsid ms acc.1) as [c1 b1]. simpl in *. intros [Ha Hb]%orb_false_iff. by rw H' // Hacc.
Qed.

(** The clusters found, in the order in which they are put into the registry *)
Definition in_order (found : found_map) : list (string * list (string * string)) :=
  sort_by (λ a b, String.compare a.1 b.1) (map_to_list found).
Lemma elem_of_in_order found k l : (k, l) ∈ in_order found ↔ found !! k = Some l.
Proof. unfold in_order. by rw elem_of_sort_by elem_of_map_to_list. Qed.
Lemma in_order_keys found k : k ∈ (in_order found).*1 ↔ is_Some (found !! k).
Proof.
  split.
  - intros ([k' l] & -> & Hin%elem_of_in_order)%list_elem_of_fmap. by eexists.
  - intros [l Hl%elem_of_in_order]. by apply (list_elem_of_fmap_2 fst _ (k, l)).
Qed.

Lemma upsert_all_upserted found c : upserted (in_order found) c (upsert_all found c).1.
Proof. exact (upsert_steps_upserted (in_order found) (c, false)). Qed.
Lemma upsert_all_honest found c : honest c (upsert_all found c).1 (upsert_all found c).2.
Proof. by apply (upsert_steps_honest (in_order found) (c, false)). Qed.

(** Nothing changes where everything found is registered already. *)
Definition settled_for (fsid : string) (l : list (string * string)) (c : CephClustersConfig) : Prop :=
  is_forgotten c fsid = true ∨
  (∃ cl, cc_clusters c !! fsid = Some cl ∧ detected (Some cl) fsid = cl) ∧
  (∀ remote node, (remote, node) ∈ l → is_Some (cc_members c !! member_id fsid node)).

Lemma upsert_cluster_settled fsid l c : settled_for fsid l c → upsert_cluster fsid l c = (c, false).
Proof.
  intros [Hf | [(cl & Hcl & Hd) Hl]]; [by apply upsert_cluster_forgotten |].
  destruct (is_forgotten c fsid) eqn:Hf; [by apply upsert_cluster_forgotten |].
  destruct (upsert_cluster_found fsid l c Hf) as (b & -> & _ & Hb). rw (Hb _ Hcl Hd) Hcl Hd insert_id // with_clusters_id.
  by apply add_members_settled.
Qed.
Lemma upsert_all_settled found c : (∀ fsid l, found !! fsid = Some l → settled_for fsid l c) → upsert_all found c = (c, false).
Proof.
  intros Hs. change (foldl upsert_step (c, false) (in_order found) = (c, false)).
  assert (∀ p, p ∈ in_order found → settled_for p.1 p.2 c) as Hl by (intros [] ?%elem_of_in_order; by apply Hs).
  clear Hs. induction (in_order found) as [|[fsid ms] l IH]; [done |]. cbn [foldl]. unfold upsert_step at 2. simpl.
  rw upsert_cluster_settled; [by apply (Hl (fsid, ms)); left |]. apply IH. intros p Hp. apply Hl. by right.
Qed.

(** ** Clusters that were not found *)
Definition demoted (now : Z) (s : CephClusterState) (cl : CephCluster) : CephCluster :=
  match s with
  | CephGone => set_state cl (Some CephGone) (Some (default now (cl_last_seen_missing cl)))
  | CephUnreachable => set_state cl (Some CephUnreachable) (cl_last_seen_missing cl)
  | _ => cl
  end.

Lemma apply_update_spec now c b k s cl :
  cc_clusters c !! k = Some cl →
  ∃ b', apply_update now (c, b) (k, s) = (with_clusters c (<[k := demoted now s cl]> (cc_clusters c)), b') ∧
    (b' = false → b = false ∧ demoted now s cl = cl) ∧ (b = false → demoted now s cl = cl → b' = false).
Proof.
  intros Hcl. unfold apply_update. simpl. rw Hcl. destruct s; simpl.
  - exists b. rw insert_id // with_clusters_id. by split_and!.
  - destruct (bool_decide_reflect (cl_state cl = Some CephUnreachable)) as [Hs | Hs].
    + exists b. rw -Hs set_state_id. by split_and!.
    + exists true. split_and!; [done | done |]. intros _ Heq. destruct Hs. by rw -Heq.
  - destruct (bool_decide_reflect (cl_state cl = Some CephGone)) as [Hs | Hs].
    + destruct (cl_last_seen_missing cl) as [z|] eqn:Hm.
      * exists b. simpl. rw -Hs -Hm set_state_id. by split_and!.
      * exists true. simpl. rw Hs. split_and!; [done | done |]. intros _ Heq. by rw -Heq in Hm.
    + simpl. exists true. destruct (cl_last_seen_missing cl) as [z|] eqn:Hm; simpl;
        (split_and!; [done | done |]; intros _ Heq; destruct Hs; by rw -Heq).
  - exists b. rw insert_id // with_clusters_id. by split_and!.
Qed.

Lemma apply_updates_spec now l c b :
  NoDup l.*1 → (∀ k s, (k, s) ∈ l → is_Some (cc_clusters c !! k)) →
  let r := foldl (apply_update now) (c, b) l in
  (∀ k, cc_clusters r.1 !! k
        = match (list_to_map l : gmap string CephClusterState) !! k with
          | Some s => demoted now s <$> cc_clusters c !! k
          | None => cc_clusters c !! k
          end) ∧
  cc_members r.1 = cc_members c ∧ cc_extras r.1 = cc_extras c ∧
  (r.2 = false → b = false ∧ r.1 = c) ∧
  (b = false → (∀ k s cl, (k, s) ∈ l → cc_clusters c !! k = Some cl → demoted now s cl = cl) → r = (c, false)).
Proof.
  cbv zeta. revert c b. induction l as [|[k s] l IH]; intros c b Hnd Hl; [simpl; split_and!; by [| intros ->] |].
  apply NoDup_cons in Hnd as [Hk Hnd]. destruct (Hl k s) as [cl Hcl]; [by left |]. cbn [foldl].
  destruct (apply_update_spec now c b k s cl Hcl) as (b' & -> & Hb1 & Hb2).
  set (c1 := with_clusters c _). assert (∀ k' s', (k', s') ∈ l → is_Some (cc_clusters c1 !! k')) as Hl1.
  { intros k' s' Hin. simpl. destruct (decide (k = k')) as [<- |]; [rw lookup_insert_eq; by eexists |].
    rw lookup_insert_ne //. apply (Hl k' s'). by right. }
  destruct (IH c1 b' Hnd Hl1) as (Hc & Hm & He & Hh & Hs).
  assert (demoted now s cl = cl → c1 = c) as Hid by (intros Hd; unfold c1; by rw Hd insert_id // with_clusters_id).
  split_and!; [| done | done | |].
  - intros k'. rw Hc. simpl. destruct (decide (k = k')) as [<- | Hne].
    + rw lookup_insert_eq not_elem_of_list_to_map_1 // lookup_insert_eq. by rw Hcl.
    + by rw !lookup_insert_ne.
  - intros Hr. destruct (Hh Hr) as [[-> Hd]%Hb1 Hr1]. split; [done |]. by rw Hr1 Hid.
  - intros -> Hd. assert (demoted now s cl = cl) as Hd1 by (apply (Hd k); [by left | done]).
    rw -(Hid Hd1). apply Hs; [by apply Hb2 |]. rw (Hid Hd1). intros k' s' cl' Hin. apply Hd. by right.
Qed.

(** [o] is the outcome of probing a remote that backs a member of cluster [k]. *)
Definition probed (c : CephClustersConfig) (outcomes : gmap string ProbeOutcome) (k : string) (o : ProbeOutcome) : Prop :=
  ∃ id m remote, cc_members c !! id = Some m ∧ mb_cluster m = k ∧ mb_kind m = KindPve ∧ mb_remote m = Some remote ∧
    outcomes !! remote = Some o.

Lemma elem_of_members_of c k m : m ∈ members_of c k ↔ ∃ id, cc_members c !! id = Some m ∧ mb_cluster m = k.
Proof.
  unfold members_of. rw list_elem_of_In filter_In -list_elem_of_In String.eqb_eq. split.
  - intros [([id m'] & -> & Hin%elem_of_map_to_list)%list_elem_of_fmap Hk]. by exists id.
  - intros (id & Hin%elem_of_map_to_list & Hk). split; [| done]. by apply (list_elem_of_fmap_2 snd _ (id, m)).
Qed.

Lemma elem_of_probed c outcomes k o : o ∈ omap (outcomes !!.) (member_remotes c k) ↔ probed c outcomes k o.
Proof.
  unfold member_remotes, probed. rw list_elem_of_omap. split.
  - intros (r & (m & (id & Hid & Hk)%elem_of_members_of & Hm)%list_elem_of_omap & Ho).
    destruct (bool_decide_reflect (mb_kind m = KindPve)); [| done]. by exists id, m, r.
  - intros (id & m & r & Hid & Hk & Hkind & Hr & Ho). exists r. split; [| done]. apply list_elem_of_omap. exists m.
    split; [apply elem_of_members_of; by exists id |]. by rw bool_decide_true.
Qed.

(** The new state of a cluster that was not found *)
Inductive demotion_case c outcomes k : option CephClusterState → Prop :=
| Uncovered : (∀ o, ¬ probed c outcomes k o) → demotion_case c outcomes k None
| Cut_off : probed c outcomes k ProbeUnreachable → demotion_case c outcomes k (Some CephUnreachable)
| Removed : (∃ o, probed c outcomes k o) → ¬ probed c outcomes k ProbeUnreachable → demotion_case c outcomes k (Some CephGone).

Lemma demotion_spec c found outcomes k cl :
  found !! k = None → cl_forgotten cl = None → demotion_case c outcomes k (demotion c found outcomes k cl).
Proof.
  intros Hf Hfor. unfold demotion. rw Hf Hfor !bool_decide_false /=; [by intros [] | by intros [] |].
  pose proof (elem_of_probed c outcomes k) as He. destruct (omap _ _) as [|o l] eqn:E.
  - apply Uncovered. intros o Ho%He. by apply not_elem_of_nil in Ho.
  - change (is_unreachable o || existsb is_unreachable l) with (existsb is_unreachable (o :: l)).
    destruct (existsb is_unreachable (o :: l)) eqn:Ex.
    + apply Cut_off. apply existsb_exists in Ex as ([] & Hin%list_elem_of_In & Hu); try done. by apply He.
    + apply Removed; [exists o; apply He; by left |]. intros Hin%He%list_elem_of_In.
      assert (existsb is_unreachable (o :: l) = true) as Ht by (apply existsb_exists; by exists ProbeUnreachable). congruence.
Qed.

Lemma demotion_case_det c outcomes k s s' : demotion_case c outcomes k s → demotion_case c outcomes k s' → s = s'.
Proof. intros [] []; naive_solver. Qed.

Lemma demotion_skips c found outcomes k cl :
  is_Some (found !! k) ∨ is_Some (cl_forgotten cl) → demotion c found outcomes k cl = None.
Proof. unfold demotion. intros [H | H]; by rw (bool_decide_true (is_Some _) H) ?orb_true_r. Qed.

Definition updates (found : found_map) (outcomes : gmap string ProbeOutcome) (c : CephClustersConfig)
    : list (string * CephClusterState) :=
  omap (λ p, (λ s, (p.1, s)) <$> demotion c found outcomes p.1 p.2) (map_to_list (cc_clusters c)).
Lemma elem_of_updates found outcomes c k s :
  (k, s) ∈ updates found outcomes c ↔ ∃ cl, cc_clusters c !! k = Some cl ∧ demotion c found outcomes k cl = Some s.
Proof.
  unfold updates. rw list_elem_of_omap. split.
  - intros ([k' cl] & Hin%elem_of_map_to_list & (s' & Hd & [= -> ->])%fmap_Some). by exists cl.
  - intros (cl & Hin%elem_of_map_to_list & Hd). exists (k, cl). split; [done |]. by rw /= Hd.
Qed.
Lemma updates_NoDup found outcomes c : NoDup (updates found outcomes c).*1.
Proof.
  unfold updates. pose proof (NoDup_fst_map_to_list (cc_clusters c)) as Hnd.
  induction (map_to_list (cc_clusters c)) as [|[k cl] l IH]; [constructor |]. simpl in Hnd. apply NoDup_cons in Hnd as [Hk Hnd].
  simpl. destruct (demotion c found outcomes k cl) as [s|]; simpl; [| by apply IH]. constructor; [| by apply IH].
  intros ([k' s'] & -> & ([k2 cl2] & Hin & (? & _ & [= -> ->])%fmap_Some)%list_elem_of_omap)%list_elem_of_fmap.
  destruct Hk. by apply (list_elem_of_fmap_2 fst _ (k2, cl2)).
Qed.

Lemma reconcile_unfound_spec found outcomes now c :
  let r := reconcile_unfound found outcomes now c in
  (∀ k, cc_clusters r.1 !! k
        = (λ cl, match demotion c found outcomes k cl with Some s => demoted now s cl | None => cl end) <$> cc_clusters c !! k) ∧
  cc_members r.1 = cc_members c ∧ cc_extras r.1 = cc_extras c ∧ honest c r.1 r.2 ∧
  ((∀ k s cl, cc_clusters c !! k = Some cl → demotion c found outcomes k cl = Some s → demoted now s cl = cl) → r = (c, false)).
Proof.
  cbv zeta. change (reconcile_unfound found outcomes now c) with (foldl (apply_update now) (c, false) (updates found outcomes c)).
  destruct (apply_updates_spec now (updates found outcomes c) c false (updates_NoDup _ _ _)) as (Hc & Hm & He & Hh & Hs).
  { intros k s (cl & -> & _)%elem_of_updates. by eexists. }
  split_and!; [| done | done | |].
  - intros k. rw Hc. destruct (list_to_map _ !! k) as [s|] eqn:E.
    + apply elem_of_list_to_map_2, elem_of_updates in E as (cl & -> & Hd). by rw /= Hd.
    + destruct (cc_clusters c !! k) as [cl|] eqn:Hcl; [| done]. simpl. destruct (demotion c found outcomes k cl) as [s|] eqn:Hd; [| done].
      exfalso. assert ((k, s) ∈ updates found outcomes c) as Hin by (apply elem_of_updates; by exists cl).
      by rw (elem_of_list_to_map_1 _ k s (updates_NoDup _ _ _) Hin) in E.
  - intros Hb. by apply Hh in Hb as [_ ?].
  - intros Hd. apply Hs; [done |]. intros k s cl (cl' & Hcl' & Hd')%elem_of_updates Hcl. simplify_eq. by apply (Hd k).
Qed.

(** ** A sweep

    [swept]: what committing the probe results [found] and [outcomes] makes of the registry *)
Record swept (found : found_map) (outcomes : gmap string ProbeOutcome) (now : Z) (c c' : CephClustersConfig) : Prop := {
  sw_forgotten k : is_forgotten c k = true → cc_clusters c' !! k = cc_clusters c !! k;
  sw_found k : is_forgotten c k = false → is_Some (found !! k) → cc_clusters c' !! k = Some (detected (cc_clusters c !! k) k);
  sw_unknown k : found !! k = None → cc_clusters c !! k = None → cc_clusters c' !! k = None;
  sw_unfound k cl : is_forgotten c k = false → found !! k = None → cc_clusters c !! k = Some cl →
    ∃ s, demotion_case c outcomes k s ∧
      cc_clusters c' !! k = Some (match s with Some s => demoted now s cl | None => cl end);
  sw_kept : cc_members c ⊆ cc_members c';
  sw_new id m : cc_members c' !! id = Some m → cc_members c !! id = Some m ∨
    ∃ fsid l remote node, found !! fsid = Some l ∧ is_forgotten c fsid = false ∧ (remote, node) ∈ l ∧
      id = member_id fsid node ∧ m = pve_member fsid remote node;
  sw_all fsid l remote node : found !! fsid = Some l → is_forgotten c fsid = false → (remote, node) ∈ l →
    is_Some (cc_members c' !! member_id fsid node);
  sw_extras : cc_extras c' = cc_extras c;
}.

(** Members that are new belong to clusters that were found. *)
Lemma probed_upserted found outcomes c c' k o :
  upserted (in_order found) c c' → found !! k = None → probed c' outcomes k o ↔ probed c outcomes k o.
Proof.
  intros Hu Hk. unfold probed. split.
  - intros (id & m & r & [Hid | (fsid & l & rem & n & Hin%elem_of_in_order & _ & _ & -> & ->)]%(up_new _ _ _ Hu) & Hm & Hrest).
    + by exists id, m, r.
    + simpl in Hm. congruence.
  - intros (id & m & r & Hid & Hrest). exists id, m, r. split; [| done]. eapply lookup_weaken; [done | apply (up_kept _ _ _ Hu)].
Qed.
Lemma demotion_case_ext c c' outcomes k s :
  (∀ o, probed c' outcomes k o ↔ probed c outcomes k o) → demotion_case c' outcomes k s → demotion_case c outcomes k s.
Proof.
  intros Hp [Hn | Hu | [o Ho] Hn].
  - apply Uncovered. intros o ?%Hp. by eapply Hn.
  - by apply Cut_off, Hp.
  - apply Removed; [exists o; by apply Hp | by rw -Hp].
Qed.

Lemma sweep_commit_swept found outcomes now c : swept found outcomes now c (sweep_commit (outcomes, found) now c).1.
Proof.
  unfold sweep_commit. simpl. pose proof (upsert_all_upserted found c) as Hu. destruct (upsert_all found c) as [c1 b1]. simpl in Hu.
  pose proof (reconcile_unfound_spec found outcomes now c1) as Hr. cbv zeta in Hr.
  destruct (reconcile_unfound found outcomes now c1) as [c2 b2]. simpl in *. destruct Hr as (Hc & Hm & He & _ & _).
  pose proof (up_clusters _ _ _ Hu) as Hc1. pose proof (upserted_forgotten _ _ _ Hu) as Hfor.
  assert (∀ k, found !! k = None → cc_clusters c1 !! k = cc_clusters c !! k) as Hnot.
  { intros k Hk. rw Hc1 bool_decide_false //. rw in_order_keys Hk. by intros []. }
  split.
  - intros k Hf. assert (cc_clusters c1 !! k = cc_clusters c !! k) as Hk by by rw Hc1 Hf andb_false_r.
    rw Hc Hk. unfold is_forgotten in Hf. destruct (cc_clusters c !! k) as [cl|] eqn:E; [| done]. simpl.
    rw demotion_skips //. right. by apply bool_decide_eq_true in Hf.
  - intros k Hf Hk. rw Hc Hc1 Hf bool_decide_true; [by apply in_order_keys |]. simpl. rw demotion_skips //. by left.
  - intros k Hk Hn. by rw Hc Hnot // Hn.
  - intros k cl Hf Hk Hcl. exists (demotion c1 found outcomes k cl). split; [| by rw Hc Hnot // Hcl].
    eapply demotion_case_ext; [intros o; by eapply probed_upserted |]. apply demotion_spec; [done |].
    unfold is_forgotten in Hf. rw Hcl in Hf. apply bool_decide_eq_false in Hf. by apply eq_None_not_Some.
  - rw Hm. apply (up_kept _ _ _ Hu).
  - intros id m. rw Hm. intros [? | (fsid & l & r & n & Hin%elem_of_in_order & Hrest)]%(up_new _ _ _ Hu); [by left | right].
    by exists fsid, l, r, n.
  - intros fsid l r n Hl%elem_of_in_order Hf Hin. rw Hm. by eapply (up_all _ _ _ Hu).
  - by rw He (up_extras _ _ _ Hu).
Qed.

Lemma sweep_commit_honest p now c : honest c (sweep_commit p now c).1 (sweep_commit p now c).2.
Proof.
  unfold sweep_commit. pose proof (upsert_all_honest p.2 c) as Hu. destruct (upsert_all p.2 c) as [c1 b1]. simpl in Hu.
  pose proof (reconcile_unfound_spec p.2 p.1 now c1) as (_ & _ & _ & Hr & _).
  destruct (reconcile_unfound p.2 p.1 now c1) as [c2 b2]. simpl in *. intros [H1 H2]%orb_false_iff. by rw Hr // Hu.
Qed.

Lemma swept_forgotten found outcomes now c c' : swept found outcomes now c c' → ∀ k, is_forgotten c' k = is_forgotten c k.
Proof.
  intros Hs k. destruct (is_forgotten c k) eqn:Hf.
  - pose proof (sw_forgotten _ _ _ _ _ Hs k Hf) as Hc'. unfold is_forgotten in *. by rw Hc'.
  - destruct (found !! k) as [l|] eqn:Hk.
    + assert (is_Some (found !! k)) as Hk' by by eexists. unfold is_forgotten. rw (sw_found _ _ _ _ _ Hs k Hf Hk') detected_forgotten.
      unfold is_forgotten in Hf. by destruct (cc_clusters c !! k).
    + destruct (cc_clusters c !! k) as [cl|] eqn:Hcl.
      * destruct (sw_unfound _ _ _ _ _ Hs k cl Hf Hk Hcl) as (s & _ & Hc'). unfold is_forgotten in *. rw Hc'. rw Hcl in Hf.
        by destruct s as [[]|].
      * unfold is_forgotten. by rw (sw_unknown _ _ _ _ _ Hs k Hk Hcl).
Qed.

Lemma probed_swept found outcomes now c c' k o :
  swept found outcomes now c c' → found !! k = None → probed c' outcomes k o ↔ probed c outcomes k o.
Proof.
  intros Hs Hk. unfold probed. split.
  - intros (id & m & r & [Hid | (fsid & l & rem & n & Hin & _ & _ & -> & ->)]%(sw_new _ _ _ _ _ Hs) & Hm & Hrest); [by exists id, m, r |].
    simpl in Hm. congruence.
  - intros (id & m & r & Hid & Hrest). exists id, m, r. split; [| done]. eapply lookup_weaken; [done | apply (sw_kept _ _ _ _ _ Hs)].
Qed.

Lemma not_forgotten c k cl : is_forgotten c k = false → cc_clusters c !! k = Some cl → cl_forgotten cl = None.
Proof. unfold is_forgotten. intros Hf Hcl. rw Hcl in Hf. apply bool_decide_eq_false in Hf. by apply eq_None_not_Some. Qed.
Lemma yes_forgotten c k cl : is_forgotten c k = true → cc_clusters c !! k = Some cl → is_Some (cl_forgotten cl).
Proof. unfold is_forgotten. intros Hf Hcl. rw Hcl in Hf. by apply bool_decide_eq_true in Hf. Qed.

Lemma demoted_idem now now' s cl : demoted now' s (demoted now s cl) = demoted now s cl.
Proof. by destruct s, cl. Qed.

(** Where a sweep has been, another with the same results finds nothing to demote. *)
Lemma swept_demoted found outcomes now now' c c' k s cl :
  swept found outcomes now c c' → cc_clusters c' !! k = Some cl → demotion c' found outcomes k cl = Some s → demoted now' s cl = cl.
Proof.
  intros Hs Hcl' Hd. destruct (found !! k) as [l|] eqn:Hk; [by rw demotion_skips // in Hd; left; rw Hk |].
  destruct (is_forgotten c' k) eqn:Hf'; [by rw demotion_skips // in Hd; right; eapply yes_forgotten |].
  assert (is_forgotten c k = false) as Hf by by rw -(swept_forgotten _ _ _ _ _ Hs).
  destruct (cc_clusters c !! k) as [cl0|] eqn:Hcl; [| by rw (sw_unknown _ _ _ _ _ Hs k Hk Hcl) in Hcl'].
  destruct (sw_unfound _ _ _ _ _ Hs k cl0 Hf Hk Hcl) as (s0 & Hs0 & Hcl0).
  assert (s0 = Some s) as ->.
  { eapply demotion_case_det; [exact Hs0 |]. rw -Hd. eapply demotion_case_ext; [intros o; by eapply probed_swept |].
    apply demotion_spec; [done |]. exact (not_forgotten _ _ _ Hf' Hcl'). }
  rw Hcl0 in Hcl'. injection Hcl' as <-. apply demoted_idem.
Qed.
