(* ===== verification/CephStore.v ===== *)
(** * The registry of Ceph clusters: sanity and transactions

    Every operation keeps the registry sane, and a transaction leaves the registry the operation
    makes on disk, or fails and leaves the disk as it was. *)
From S2P Require Import Prelude RustStr Remotes Disk ApiCache CephConfig CephConfigFacts CephRegistry CephFacts.

#[local] Open Scope list_scope.

(** ** Sanity *)
Section sanity.
Context `{CephSections}.

Lemma member_id_length fsid node : is_uuid fsid → (36 < String.length (member_id fsid node))%nat.
Proof. unfold is_uuid, member_id. rw !string_length_app /=. lia. Qed.

Lemma wf_cluster_detected c k : ceph_wf c → is_uuid k →
  cl_id (detected (cc_clusters c !! k) k) = k ∧ cluster_ok (detected (cc_clusters c !! k) k).
Proof.
  intros Hwf Hk. destruct (cc_clusters c !! k) as [cl|] eqn:Hcl; [| done].
  by destruct (wf_clusters _ Hwf _ _ Hcl) as (? & _ & [_ ?]).
Qed.

Lemma upserted_wf found c c' : upserted found c c' → Forall is_uuid found.*1 → ceph_wf c → ceph_wf c'.
Proof.
  intros Hu Hfs Hwf. rewrite -> Forall_forall in Hfs.
  assert (∀ k, is_Some (cc_clusters c !! k) → is_Some (cc_clusters c' !! k)) as Hgrow.
  { intros k Hk. rw (up_clusters _ _ _ Hu). by case_match. }
  split.
  - intros k cl. rw (up_clusters _ _ _ Hu). destruct (bool_decide_reflect (k ∈ found.*1)) as [Hin | _]; [| by apply wf_clusters].
    destruct (is_forgotten c k); [by apply wf_clusters |]. intros [= <-]. pose proof (Hfs _ Hin) as Hk.
    by destruct (wf_cluster_detected _ _ Hwf Hk).
  - intros k m [Hm | (fsid & l & r & n & Hin & Hf & _ & -> & ->)]%(up_new _ _ _ Hu).
    + destruct (wf_members _ Hwf _ _ Hm) as (? & ? & ? & ?). auto.
    + assert (fsid ∈ found.*1) as Hfsid by by apply (list_elem_of_fmap_2 fst _ (fsid, l)).
      split_and!; [done | by apply member_id_length, Hfs | | done]. simpl.
      rw (up_clusters _ _ _ Hu) bool_decide_true // Hf. by eexists.
  - rw (up_extras _ _ _ Hu). by apply wf_extras.
Qed.

Lemma demoted_ok now s cl : in_i64 now = true → cluster_ok cl → cl_id (demoted now s cl) = cl_id cl ∧ cluster_ok (demoted now s cl).
Proof. intros Hn [Hl Hf]. destruct s; simpl; try done. split; [done |]. split; simpl; [by destruct (cl_last_seen_missing cl) | done]. Qed.

Lemma reconcile_wf found outcomes now c : in_i64 now = true → ceph_wf c → ceph_wf (reconcile_unfound found outcomes now c).1.
Proof.
  intros Hn Hwf. destruct (reconcile_unfound_spec found outcomes now c) as (Hc & Hm & He & _ & _). split.
  - intros k cl'. rw Hc. intros (cl & Hcl & ->)%fmap_Some. destruct (wf_clusters _ Hwf _ _ Hcl) as (Hid & Hk & Hok).
    destruct (demotion c found outcomes k cl) as [s|]; [| done]. destruct (demoted_ok now s cl Hn Hok) as [Hd1 Hd2].
    by rw Hd1.
  - intros k m. rw Hm. intros (? & ? & [cl Hcl] & ?)%(wf_members _ Hwf). split_and!; [done | done | | done].
    rw Hc Hcl. by eexists.
  - rw He. by apply wf_extras.
Qed.

Definition uuids (found : found_map) : Prop := ∀ k l, found !! k = Some l → is_uuid k.
Lemma uuids_in_order found : uuids found → Forall is_uuid (in_order found).*1.
Proof. intros Hu. apply Forall_forall. intros k [l Hl]%in_order_keys. by eapply Hu. Qed.

Lemma upsert_all_wf found c : uuids found → ceph_wf c → ceph_wf (upsert_all found c).1.
Proof. intros Hu. eapply upserted_wf; [apply upsert_all_upserted | by apply uuids_in_order]. Qed.

Lemma sweep_commit_wf outcomes found now c :
  uuids found → in_i64 now = true → ceph_wf c → ceph_wf (sweep_commit (outcomes, found) now c).1.
Proof.
  intros Hu Hn Hwf. unfold sweep_commit. simpl. pose proof (upsert_all_wf found c Hu Hwf) as H1.
  destruct (upsert_all found c) as [c1 b1]. pose proof (reconcile_wf found outcomes now c1 Hn H1) as H2.
  by destruct (reconcile_unfound found outcomes now c1).
Qed.

(** ** Removing a remote *)
Lemma foldr_delete_lookup {A} (l : list string) (m : gmap string A) k :
  foldr delete m l !! k = if bool_decide (k ∈ l) then None else m !! k.
Proof.
  induction l as [|x l IH]; simpl; [done |]. destruct (decide (x = k)) as [-> | Hne].
  - rw lookup_delete_eq bool_decide_true //. by left.
  - rw lookup_delete_ne // IH. rw (bool_decide_ext (k ∈ x :: l) (k ∈ l)) //. set_solver.
Qed.

Lemma has_member_spec c k : has_member c k = true ↔ ∃ id m, cc_members c !! id = Some m ∧ mb_cluster m = k.
Proof.
  unfold has_member. rw existsb_exists. split.
  - intros ([id m] & Hin%list_elem_of_In%elem_of_map_to_list & Hk%String.eqb_eq). by exists id, m.
  - intros (id & m & Hin & Hk). exists (id, m). split; [by apply list_elem_of_In, elem_of_map_to_list | by apply String.eqb_eq].
Qed.

Lemma drop_clusters_lookup c k :
  cc_clusters (drop_clusters_without_members c).1 !! k = if has_member c k then cc_clusters c !! k else None.
Proof.
  unfold drop_clusters_without_members. simpl. rw foldr_delete_lookup.
  destruct (bool_decide_reflect (k ∈ List.filter (λ id, negb (has_member c id)) (fst <$> map_to_list (cc_clusters c)))) as [Hin | Hin].
  - apply list_elem_of_In, filter_In in Hin as [_ Hn%negb_true_iff]. by rw Hn.
  - destruct (has_member c k) eqn:Hm; [done |]. destruct (cc_clusters c !! k) as [cl|] eqn:Hcl; [| done]. destruct Hin.
    apply list_elem_of_In, filter_In. rw Hm. split; [| done]. apply list_elem_of_In.
    by apply (list_elem_of_fmap_2 fst _ (k, cl)), elem_of_map_to_list.
Qed.

(** [unbacked]: the registry without what the remote backs *)
Record unbacked (remote : string) (c c' : CephClustersConfig) : Prop := {
  ub_members id m : cc_members c' !! id = Some m ↔ cc_members c !! id = Some m ∧ backed_by remote m = false;
  ub_clusters k cl : cc_clusters c' !! k = Some cl ↔
    cc_clusters c !! k = Some cl ∧ ∃ id m, cc_members c' !! id = Some m ∧ mb_cluster m = k;
  ub_extras : cc_extras c' = cc_extras c;
}.
Lemma remote_removed_unbacked remote c : unbacked remote c (remote_removed remote c).1.
Proof.
  unfold remote_removed, drop_pve_members_for_remote. set (c1 := with_members c _).
  pose proof (drop_clusters_lookup c1) as Hk. destruct (drop_clusters_without_members c1) as [c2 l] eqn:E. simpl in *.
  unfold drop_clusters_without_members in E. injection E as <- <-. split; simpl in *.
  - intros id m. by rw map_lookup_filter_Some.
  - intros k cl. rw Hk. pose proof (has_member_spec c1 k) as Hh. simpl in Hh.
    destruct (has_member c1 k); naive_solver.
  - done.
Qed.

Lemma remote_removed_honest remote c : honest c (remote_removed remote c).1 (remote_removed remote c).2.
Proof.
  unfold remote_removed, drop_pve_members_for_remote. set (members := filter _ _).
  destruct (drop_clusters_without_members (with_members c members)) as [c2 l] eqn:E. simpl.
  intros [Hs%negb_false_iff%Nat.eqb_eq Hl%negb_false_iff%bool_decide_eq_true]%orb_false_iff. subst l.
  unfold drop_clusters_without_members in E. injection E as <- El. rw El. simpl.
  assert (members = cc_members c) as ->.
  { apply map_subseteq_size_eq; [apply map_filter_subseteq | lia]. }
  by destruct c.
Qed.

Lemma unbacked_wf remote c c' : unbacked remote c c' → ceph_wf c → ceph_wf c'.
Proof.
  intros Hu Hwf. split.
  - intros k cl [Hcl _]%(ub_clusters _ _ _ Hu). by apply (wf_clusters _ Hwf).
  - intros k m Hm. pose proof Hm as [Hm0 _]%(ub_members _ _ _ Hu). destruct (wf_members _ Hwf _ _ Hm0) as (? & ? & [cl Hcl] & ?).
    split_and!; [done | done | | done]. exists cl. apply (ub_clusters _ _ _ Hu). split; [done |]. by exists k, m.
  - rw (ub_extras _ _ _ Hu). by apply wf_extras.
Qed.
End sanity.

(** ** Transactions *)
Section transactions.
Context `{CephSectionsLaws}.

Definition ceph_on (d : dir) : option CephClustersConfig := ceph_parse (default [] (d !! CEPH_CLUSTERS_CFG_FILENAME)).

(** The same registry, up to unknown keys of sections that are gone *)
Record same_registry (c c' : CephClustersConfig) : Prop := {
  same_clusters : cc_clusters c' = cc_clusters c;
  same_members : cc_members c' = cc_members c;
  same_extras id : registered c id = true → cc_extras c' !! id = cc_extras c !! id;
}.

(** The disk [d] is [d0] with the registry [c]. *)
Record holds_registry (c : CephClustersConfig) (d0 d : dir) : Prop := {
  hr_rest name : name ≠ CEPH_CLUSTERS_CFG_FILENAME → d !! name = d0 !! name;
  hr_registry : ∃ c', ceph_on d = Some c' ∧ ceph_wf c' ∧ same_registry c c';
}.

Lemma ceph_write_reads c f : ceph_wf c → ceph_write c = Some f → ceph_parse f = Some (prune c).
Proof.
  intros Hwf. unfold ceph_write, ceph_parse. pose proof (write_section_ok c Hwf) as Hok. pose proof (write_reads c Hwf) as Hr.
  destruct (typed_to_untyped c) as [s order]. intros Hw. by rw (cs_roundtrip s order f Hok Hw).
Qed.

Lemma triple_ceph_save c d0 : ceph_wf c →
  triple (λ d, d = d0) (ceph_save_config c) (λ _ d, holds_registry c d0 d) (λ d, d = d0).
Proof.
  intros Hwf. unfold ceph_save_config. destruct (ceph_write c) as [f|] eqn:Hw; [| apply triple_fail; by intros ? ->].
  apply triple_replace; [done |]. intros d ->. split; [intros n Hn; by rw lookup_insert_ne |].
  exists (prune c). unfold ceph_on. rw lookup_insert_eq. split_and!; [by apply ceph_write_reads | by apply prune_wf |].
  split; [done | done |]. intros id Hid. by rw prune_extras Hid.
Qed.

Lemma triple_ceph_config d0 : triple (λ d, d = d0) ceph_config (λ c d, d = d0 ∧ ceph_on d0 = Some c) (λ d, d = d0).
Proof.
  intros w <-. unfold ceph_config, file_read_optional_string, attempt, fs_open, syscall, get_disk,
    enoent, fail, mbind, IO_bind, mret, IO_ret, ceph_on.
  simpl. destruct (faults w (tick w)); simpl; [done |].
  destruct (disk w !! CEPH_CLUSTERS_CFG_FILENAME) as [f|] eqn:Hf; simpl; destruct (ceph_parse _) eqn:Hp; simpl; by rw ?Hf.
Qed.

Lemma triple_ceph_transaction f d0 c :
  ceph_on d0 = Some c → ceph_wf c → ceph_wf (f c).1 → honest c (f c).1 (f c).2 →
  triple (λ d, d = d0) (ceph_transaction f) (λ _ d, holds_registry (f c).1 d0 d) (λ d, d = d0).
Proof.
  intros Hon Hwf Hwf' Hh. unfold ceph_transaction. eapply (triple_bind _ _ _ (λ _ d, d = d0)).
  { intros w <-. unfold syscall. by destruct (faults w (tick w)). }
  intros _. eapply triple_bind; [apply triple_ceph_config |]. intros c1 w [Hd Hon1].
  assert (c1 = c) as -> by congruence. destruct (f c) as [c' b]. simpl in *. destruct b.
  - by apply triple_ceph_save.
  - rw (Hh eq_refl) in Hwf' *. simpl. rw Hd. split; [done |]. by exists c.
Qed.

(** Without faults a transaction only fails when the format refuses the new configuration. *)
Lemma ceph_transaction_quiet f w c :
  quiet w → ceph_on (disk w) = Some c → (ceph_transaction f w).1 = Ok () ∨ ceph_write (f c).1 = None.
Proof.
  intros Hq Hon. unfold ceph_transaction, ceph_config, ceph_save_config, file_read_optional_string, attempt, fs_open, fs_replace,
    syscall, get_disk, put_disk, enoent, fail, mbind, IO_bind, mret, IO_ret. unfold ceph_on in Hon. simpl.
  rw !Hq /=. destruct (disk w !! CEPH_CLUSTERS_CFG_FILENAME) as [f0|]; simpl in *; rw Hon /=; destruct (f c) as [c' []]; simpl; auto;
    destruct (ceph_write c'); simpl; auto; rw Hq; by left.
Qed.

(** One that succeeds wrote the new configuration, or had nothing to write. *)
Lemma ceph_transaction_commits f w w' c u :
  ceph_on (disk w) = Some c → ceph_transaction f w = (Ok u, w') → is_Some (ceph_write (f c).1) ∨ (f c).2 = false.
Proof.
  intros Hon. unfold ceph_transaction, ceph_config, ceph_save_config, file_read_optional_string, attempt, fs_open, fs_replace,
    syscall, get_disk, put_disk, enoent, fail, mbind, IO_bind, mret, IO_ret. unfold ceph_on in Hon. simpl.
  destruct (faults w (tick w)); simpl; [done |]. destruct (faults w (S (tick w))); simpl; [done |].
  destruct (disk w !! CEPH_CLUSTERS_CFG_FILENAME) as [f0|]; simpl in *; rw Hon /=; destruct (f c) as [c' []]; simpl; auto;
    destruct (ceph_write c'); simpl; eauto; done.
Qed.
End transactions.

(** ** What probing finds *)
Definition seen_at (answers : string → probe_answer) (fsid remote : string) : list (string * string) :=
  match probe_remote (answers remote) with
  | Found f nodes => if String.eqb f fsid then pair remote <$> nodes else []
  | _ => []
  end.
Definition sees (answers : string → probe_answer) (fsid remote : string) : bool :=
  match probe_remote (answers remote) with Found f _ => String.eqb f fsid | _ => false end.

Lemma seen_nowhere answers fsid remotes : existsb (sees answers fsid) remotes = false → remotes ≫= seen_at answers fsid = [].
Proof.
  induction remotes as [|x remotes IH]; [done |]. cbn. intros [Hx Hr]%orb_false_iff. rw IH // app_nil_r.
  unfold seen_at, sees in *. destruct (probe_remote (answers x)); [| done..]. by rw Hx.
Qed.

Lemma probe_steps_spec answers remotes acc :
  let r := foldl (probe_step answers) acc remotes in
  (∀ remote, r.1 !! remote = if bool_decide (remote ∈ remotes) then Some (probe_remote (answers remote)) else acc.1 !! remote) ∧
  (∀ fsid, r.2 !! fsid = if existsb (sees answers fsid) remotes
                         then Some (default [] (acc.2 !! fsid) ++ (remotes ≫= seen_at answers fsid)) else acc.2 !! fsid).
Proof.
  cbv zeta. revert acc. induction remotes as [|x remotes IH]; intros acc; [done |]. cbn [foldl existsb mbind list_bind].
  destruct (IH (probe_step answers acc x)) as [Ho Hf]. split.
  - intros remote. rw Ho. rw (bool_decide_ext (remote ∈ x :: remotes) (remote = x ∨ remote ∈ remotes)); [by rw elem_of_cons |].
    rw bool_decide_or. destruct (bool_decide_reflect (remote = x)) as [-> | Hne]; simpl.
    + destruct (bool_decide (x ∈ remotes)); [done |]. by rw lookup_insert_eq.
    + destruct (bool_decide (remote ∈ remotes)); [done |]. by rw lookup_insert_ne.
  - intros fsid. rw Hf. change (list_bind _ _ (seen_at answers fsid) remotes) with (remotes ≫= seen_at answers fsid).
    unfold probe_step. simpl. destruct (probe_remote (answers x)) as [f nodes | |] eqn:Ex.
    2,3: assert (sees answers fsid x = false) as -> by (unfold sees; by rw Ex);
      assert (seen_at answers fsid x = []) as -> by (unfold seen_at; by rw Ex); done.
    assert (sees answers fsid x = String.eqb f fsid) as -> by (unfold sees; by rw Ex).
    assert (seen_at answers fsid x = if String.eqb f fsid then pair x <$> nodes else []) as -> by (unfold seen_at; by rw Ex).
    destruct (String.eqb_spec f fsid) as [-> | Hne]; simpl; [| by rw lookup_insert_ne].
    rw lookup_insert_eq /=. destruct (existsb (sees answers fsid) remotes) eqn:E; [by rw assoc |].
    by rw seen_nowhere // app_nil_r.
Qed.

(** The outcomes and the members found, in terms of the answers *)
Record probe_result (answers : string → probe_answer) (remotes : list string) (outcomes : gmap string ProbeOutcome)
    (found : found_map) : Prop := {
  pr_outcomes remote o : outcomes !! remote = Some o ↔ remote ∈ remotes ∧ o = probe_remote (answers remote);
  pr_found fsid : is_Some (found !! fsid) ↔ ∃ remote nodes, remote ∈ remotes ∧ probe_remote (answers remote) = Found fsid nodes;
  pr_members fsid l remote node : found !! fsid = Some l →
    (remote, node) ∈ l ↔ remote ∈ remotes ∧ ∃ nodes, probe_remote (answers remote) = Found fsid nodes ∧ node ∈ nodes;
}.

Lemma sees_spec answers fsid remotes :
  existsb (sees answers fsid) remotes = true ↔
  ∃ remote nodes, remote ∈ remotes ∧ probe_remote (answers remote) = Found fsid nodes.
Proof.
  rw existsb_exists. split.
  - intros (r & Hin%list_elem_of_In & Hs). unfold sees in Hs. destruct (probe_remote (answers r)) as [f nodes | |] eqn:E; [| done..].
    apply String.eqb_eq in Hs as ->. by exists r, nodes.
  - intros (r & nodes & Hin%list_elem_of_In & E). exists r. split; [done |]. unfold sees. rw E. apply String.eqb_refl.
Qed.

Lemma elem_of_seen_at answers fsid r remote node :
  (remote, node) ∈ seen_at answers fsid r ↔ remote = r ∧ ∃ nodes, probe_remote (answers r) = Found fsid nodes ∧ node ∈ nodes.
Proof.
  unfold seen_at. destruct (probe_remote (answers r)) as [f nodes | |]; [| set_solver..].
  destruct (String.eqb_spec f fsid) as [-> | Hne]; [| split; [set_solver | by intros (_ & ? & [= ->] & _)]].
  rw list_elem_of_fmap. split; [intros (n & [= -> ->] & Hn); eauto | intros (-> & ? & [= <-] & Hn); eauto].
Qed.

Lemma probe_all_result answers remotes : probe_result answers remotes (probe_all answers remotes).1 (probe_all answers remotes).2.
Proof.
  destruct (probe_steps_spec answers remotes (∅, ∅)) as [Ho Hf]. unfold probe_all. split.
  - intros remote o. rw Ho. destruct (bool_decide_reflect (remote ∈ remotes)); simpl; [naive_solver | set_solver].
  - intros fsid. rw Hf -sees_spec. destruct (existsb (sees answers fsid) remotes); simpl; [by split; [| eexists] |].
    rw lookup_empty. by split; [intros [] |].
  - intros fsid l remote node. rw Hf. destruct (existsb (sees answers fsid) remotes); simpl; [| by rw lookup_empty].
    rw lookup_empty /=. intros [= <-]. rw list_elem_of_bind. setoid_rewrite elem_of_seen_at. naive_solver.
Qed.

(** The fsids that remotes answer are UUIDs. *)
Definition uuid_answers (answers : string → probe_answer) : Prop :=
  ∀ remote fsid names, answers remote = CephAnswer (Some fsid) names → is_uuid fsid.

Lemma probe_uuids answers remotes : uuid_answers answers → uuids (probe_all answers remotes).2.
Proof.
  intros Ha k l Hl. assert (is_Some ((probe_all answers remotes).2 !! k)) as (r & nodes & _ & Hp)%(pr_found _ _ _ _ (probe_all_result answers remotes)) by by eexists.
  unfold probe_remote in Hp. destruct (answers r) as [| [] | [fsid|] names] eqn:E; simplify_eq. by eapply Ha.
Qed.

