(* ===== verification/Examples.v ===== *)
(** * Concrete configurations

    Instances that the witnesses run on.  For remotes: an instance of the section config library,
    whose container is a finite map and where a file holds one line with the code number of the
    map in binary, and an instance of the HTTP client that remembers how it was built.  For Ceph
    clusters: a section format with a line for every type, id, key and value, and a registry with
    the answers of its probes. *)
From S2P Require Import Prelude RustStr Remotes Disk ApiCache RemoteCache MultiClient RemotesConfig Connection CephConfig CephConfigFacts CephRegistry CephFacts CephStore.

#[local] Open Scope string_scope.

(** ** Remotes *)
Global Instance NodeUrl_countable : Countable NodeUrl.
Proof.
  refine (inj_countable' (λ n, (node_hostname n, fingerprint n))
    (λ '(h, f), {| node_hostname := h; fingerprint := f |}) _). by intros [].
Defined.
Global Instance Remote_countable : Countable Remote.
Proof.
  refine (inj_countable'
    (λ r, (remote_ty r, remote_id r, remote_urls r, (authid r, token r, web_url r)))
    (λ '(t, i, u, (a, k, w)), {| remote_ty := t; remote_id := i; remote_urls := u; authid := a;
                                 token := k; web_url := w |}) _). by intros [].
Defined.
Global Instance RemoteShadow_eq_dec : EqDecision RemoteShadow.
Proof. solve_decision. Defined.
Global Instance RemoteShadow_countable : Countable RemoteShadow.
Proof.
  refine (inj_countable' (λ s, (shadow_ty s, shadow_id s, shadow_token s))
    (λ '(t, i, k), {| shadow_ty := t; shadow_id := i; shadow_token := k |}) _). by intros [].
Defined.

Section map_sections.
Context (T : Type) `{Countable T}.

Definition map_sections : SectionData T := {|
  sec_data := gmap string T;
  sec_list := map_to_list;
  sec_get c k := c !! k;
  sec_insert c k e := <[k := e]> c;
  sec_remove c k := delete k c;
  sec_parse f := match f with
                 | [] => Some ∅
                 | [Text s] => decode (string_pos s)
                 | _ => None
                 end;
  sec_write c := Some [Text (pos_string (encode c))];
|}.

Lemma map_sections_laws : @SectionLaws T map_sections.
Proof.
  split; simpl.
  - intros c. apply NoDup_fst_map_to_list.
  - intros c k e. by rw elem_of_map_to_list.
  - intros c k e k'. case_decide; [subst; by rw lookup_insert_eq | by rw lookup_insert_ne].
  - intros c k k'. case_decide; [subst; by rw lookup_delete_eq | by rw lookup_delete_ne].
  - intros c f [= <-]. exists c. split; [| done]. by rw string_pos_pos_string decode_encode.
Qed.
End map_sections.

Global Instance ex_remote_sections : SectionData Remote := map_sections Remote.
Global Instance ex_remote_laws : SectionLaws Remote := map_sections_laws Remote.
Global Instance ex_shadow_sections : SectionData RemoteShadow := map_sections RemoteShadow.
Global Instance ex_shadow_laws : SectionLaws RemoteShadow := map_sections_laws RemoteShadow.

(** A client that remembers its address and its token *)
Record ex_http_client := { ex_uri : string; ex_pve : bool; ex_token : option Token }.

Global Instance ex_client_env : ClientEnv := {|
  HttpClient := ex_http_client;
  TlsOptions := option string;
  tls_default := None;
  parse_fingerprint fp := Ok (Some fp);
  parse_authority h := match split_once ":" h with
                       | Some (host, port) => Ok (host, parse_i64 port)
                       | None => Ok (h, None)
                       end;
  with_options uri _ := Ok {| ex_uri := uri; ex_pve := false; ex_token := None |};
  set_pve_compatibility b c := {| ex_uri := ex_uri c; ex_pve := b; ex_token := ex_token c |};
  set_authentication t c := {| ex_uri := ex_uri c; ex_pve := ex_pve c; ex_token := Some t |};
  is_token a := has_char "!" a;
|}.

Definition ex_remote (tok : string) : Remote := {|
  remote_ty := Pve; remote_id := "cluster"; authid := "root@pam!pdm"; token := tok; web_url := None;
  remote_urls := [{| node_hostname := "a.example"; fingerprint := None |};
                  {| node_hostname := "b.example:8443"; fingerprint := None |}];
|}.

(** A configuration with one remote whose secret is [x] *)
Definition ex_disk (x : string) : dir :=
  <[REMOTES_CFG_FILENAME :=
      [Text (pos_string (encode ({[ "cluster" := ex_remote "-" ]} : gmap string Remote)))]]>
  (<[REMOTES_SHADOW_FILENAME :=
      [Text (pos_string (encode ({[ "cluster" := {| shadow_ty := Pve; shadow_id := "cluster";
                                                    shadow_token := x |} ]} : gmap string RemoteShadow)))]]> ∅).

#[local] Open Scope list_scope.

(** Maps carry proofs in their normal form: decide instead of comparing. *)
Ltac by_computation := apply (bool_decide_unpack _); vm_compute; exact I.

(** ** Ceph clusters: a file format *)
Definition value_text (v : Value) : string :=
  match v with
  | VString s => String "s" s
  | VBool b => if b then "y" else "n"
  | VNumber z => String "z" (pos_string (encode z))
  end.
Definition text_value (c : ascii) (s : string) : option Value :=
  if Ascii.eqb c "s" then Some (VString s)
  else if Ascii.eqb c "y" then Some (VBool true)
  else if Ascii.eqb c "n" then Some (VBool false)
  else if Ascii.eqb c "z" then VNumber <$> decode (string_pos s)
  else None.
Definition field_lines (f : string * Value) : file := [Text (String "k" f.1); Text (value_text f.2)].
Definition section_lines (s : string * (string * section_value)) : file :=
  [Text (String "t" s.2.1); Text (String "i" s.1)] ++ (map_to_list s.2.2 ≫= field_lines).

(** The sections read so far, and the type, id and key read last *)
Record reading := { r_sections : section_data; r_type : string; r_id : string; r_key : string }.
Definition read_text (r : reading) (c : ascii) (s : string) : option reading :=
  if Ascii.eqb c "t" then Some {| r_sections := r_sections r; r_type := s; r_id := r_id r; r_key := r_key r |}
  else if Ascii.eqb c "i" then
    Some {| r_sections := <[s := (r_type r, ∅)]> (r_sections r); r_type := r_type r; r_id := s; r_key := r_key r |}
  else if Ascii.eqb c "k" then Some {| r_sections := r_sections r; r_type := r_type r; r_id := r_id r; r_key := s |}
  else v ← text_value c s;
    Some {| r_sections := alter (λ sec, (sec.1, <[r_key r := v]> sec.2)) (r_id r) (r_sections r);
            r_type := r_type r; r_id := r_id r; r_key := r_key r |}.
Definition read_line (r : option reading) (l : line) : option reading :=
  match r, l with Some r, Text (String c s) => read_text r c s | _, _ => None end.
Definition read_lines (f : file) (r : reading) : option reading := foldl read_line (Some r) f.

Lemma read_field r f :
  read_lines (field_lines f) r
  = Some {| r_sections := alter (λ sec, (sec.1, <[f.1 := f.2]> sec.2)) (r_id r) (r_sections r);
            r_type := r_type r; r_id := r_id r; r_key := f.1 |}.
Proof.
  destruct f as [k [s | [] | z]]; try reflexivity. unfold read_lines. cbn. by rw string_pos_pos_string decode_encode.
Qed.
Lemma read_lines_app f1 f2 r r1 : read_lines f1 r = Some r1 → read_lines (f1 ++ f2) r = read_lines f2 r1.
Proof. unfold read_lines. rw foldl_app. by intros ->. Qed.

Lemma read_fields l r ty (v : section_value) :
  r_sections r !! r_id r = Some (ty, v) → NoDup l.*1 → (∀ k, k ∈ l.*1 → v !! k = None) →
  ∃ key, read_lines (l ≫= field_lines) r
    = Some {| r_sections := <[r_id r := (ty, list_to_map l ∪ v)]> (r_sections r); r_type := r_type r; r_id := r_id r; r_key := key |}.
Proof.
  revert r v. induction l as [|[k x] l IH]; intros r v Hr Hnd Hl.
  { exists (r_key r). simpl. rw left_id_L insert_id //. by destruct r. }
  apply NoDup_cons in Hnd as [Hk Hnd]. cbn [mbind list_bind]. change (list_bind _ _ field_lines l) with (l ≫= field_lines).
  rw (read_lines_app _ _ _ _ (read_field r (k, x))).
  set (r1 := {| r_sections := _ |}). destruct (IH r1 (<[k := x]> v)) as [key Hkey].
  - simpl. by rw lookup_alter_eq Hr.
  - done.
  - intros k' Hk'. rw lookup_insert_ne; [by intros -> |]. apply Hl. by right.
  - exists key. rw Hkey. simpl. do 2 f_equal. assert (alter (λ sec, (sec.1, <[k:=x]> sec.2)) (r_id r) (r_sections r) = <[r_id r := (ty, <[k := x]> v)]> (r_sections r)) as ->.
    { apply map_eq. intros i. destruct (decide (r_id r = i)) as [<- | Hne]; [by rw lookup_alter_eq lookup_insert_eq Hr | by rw lookup_alter_ne // lookup_insert_ne]. }
    rw insert_insert_eq. do 2 f_equal. rw -insert_union_l insert_union_r //. by apply not_elem_of_list_to_map_1.
Qed.

Lemma read_section r s :
  ∃ key, read_lines (section_lines s) r
    = Some {| r_sections := <[s.1 := s.2]> (r_sections r); r_type := s.2.1; r_id := s.1; r_key := key |}.
Proof.
  destruct s as [id [ty v]]. unfold section_lines.
  set (r1 := {| r_sections := <[id := (ty, ∅)]> (r_sections r); r_type := ty; r_id := id; r_key := r_key r |}).
  rw (read_lines_app [Text (String "t" ty); Text (String "i" id)] _ r r1 eq_refl). destruct (read_fields (map_to_list v) r1 ty ∅) as [key Hkey].
  - simpl. by rw lookup_insert_eq.
  - apply NoDup_fst_map_to_list.
  - intros k _. apply lookup_empty.
  - exists key. rw Hkey. simpl. by rw list_to_map_to_list right_id_L insert_insert_eq.
Qed.

Definition start_reading : reading := {| r_sections := ∅; r_type := ""; r_id := ""; r_key := "" |}.
Lemma read_sections l r : NoDup l.*1 → (∀ k, k ∈ l.*1 → r_sections r !! k = None) →
  r_sections <$> read_lines (l ≫= section_lines) r = Some (list_to_map l ∪ r_sections r).
Proof.
  revert r. induction l as [|s l IH]; intros r Hnd Hl; [by rw /= left_id_L |].
  apply NoDup_cons in Hnd as [Hk Hnd]. cbn [mbind list_bind]. change (list_bind _ _ section_lines l) with (l ≫= section_lines).
  destruct (read_section r s) as [key Hs]. rw (read_lines_app _ _ _ _ Hs) IH //; simpl.
  - intros k Hk'. rw lookup_insert_ne; [by intros <- |]. apply Hl. by right.
  - f_equal. destruct s as [id sec]. simpl. rw -insert_union_l insert_union_r //. by apply not_elem_of_list_to_map_1.
Qed.

Global Instance section_ok_dec id s : Decision (section_ok id s).
Proof. unfold section_ok. apply _. Defined.
Definition fits (id : string) (sec : string * section_value) : Prop := (String.length id ≤ max_id_length sec.1)%nat.
Global Instance fits_dec id sec : Decision (fits id sec).
Proof. unfold fits. apply _. Defined.

Global Instance ex_ceph_sections : CephSections := {|
  cs_parse f := s ← r_sections <$> read_lines f start_reading; if decide (map_Forall section_ok s) then Some s else None;
  cs_write s _ := if decide (map_Forall fits s) then Some (map_to_list s ≫= section_lines) else None;
  cs_authid a := negb (String.eqb a "");
|}.
Global Instance ex_ceph_laws : CephSectionsLaws.
Proof.
  split.
  - intros s order f Hs Hw. simpl in *. case_decide; simplify_eq. rw read_sections.
    + apply NoDup_fst_map_to_list.
    + intros k _. apply lookup_empty.
    + simpl. rw list_to_map_to_list right_id_L decide_True //.
  - intros f s (s' & _ & Hs)%bind_Some. by case_decide; simplify_eq.
  - intros s order f id sec Hw Hs. simpl in Hw. case_decide as Hfit; [| done]. by apply (Hfit id sec).
  - by vm_compute.
Qed.

(** ** Concrete runs

    A cluster with two nodes behind the remote [east], whose section has a key that is not known; [east] no longer sees it
    at the next sweep. *)
Definition ex_fsid : string := "4b4f7f8e-1234-5678-abcd-ef0123456789".
Definition ex_answers (remote : string) : probe_answer :=
  if String.eqb remote "east" then CephAnswer (Some ex_fsid) (Some [Some "node1"; None; Some "node2"]) else NoClient.
Definition ex_gone (remote : string) : probe_answer :=
  if String.eqb remote "east" then CephAnswer None None else NoClient.
Definition ex_config : list (string * RemoteType) := [("east", Pve); ("backup", Pbs); ("west", Pve)].
Definition ex_start : CephClustersConfig :=
  {| cc_clusters := ∅; cc_members := ∅; cc_extras := {[ex_fsid := {["future-knob"%string := VString "on"]}]} |}.
Definition ex_registry : CephClustersConfig := (sweep_commit (probe_all ex_answers ["east"%string]) 100 ex_start).1.
Definition ex_file : file := default [] (ceph_write ex_registry).
Definition ex_world : world := quiet_world {[CEPH_CLUSTERS_CFG_FILENAME := ex_file]}.

Lemma ex_answers_uuid : uuid_answers ex_answers.
Proof. intros r f n. unfold ex_answers. by case_match; intros [= <- <-]. Qed.
Lemma ex_gone_uuid : uuid_answers ex_gone.
Proof. intros r f n. unfold ex_gone. by case_match. Qed.
Lemma ex_start_wf : ceph_wf ex_start.
Proof.
  split; cbn [ex_start cc_clusters cc_members cc_extras];
    [by intros ?? ?%lookup_empty_Some | by intros ?? ?%lookup_empty_Some |].
  intros k e [<- <-]%lookup_singleton_Some. split; [done |]. intros key x [<- <-]%lookup_singleton_Some.
  split; [by eexists |]. apply (bool_decide_unpack (¬ "future-knob"%string ∈ keys_of_id ex_fsid)). by vm_compute.
Qed.
Lemma ex_registry_wf : ceph_wf ex_registry.
Proof.
  unfold ex_registry. pose proof (probe_uuids ex_answers ["east"%string] ex_answers_uuid) as Hu.
  destruct (probe_all ex_answers ["east"%string]) as [outcomes found]. by apply sweep_commit_wf, ex_start_wf.
Qed.
Lemma ex_on : ceph_on (disk ex_world) = Some ex_registry.
Proof.
  unfold ceph_on, ex_world. simpl. rw lookup_singleton_eq /=. unfold ex_file.
  assert (prune ex_registry = ex_registry) as Hp by by_computation. rw -[X in _ = Some X]Hp.
  assert (match ceph_write ex_registry with Some _ => true | None => false end = true) as Hsome by by vm_compute.
  destruct (ceph_write ex_registry) as [f|] eqn:Hw; [| done]. apply ceph_write_reads; [apply ex_registry_wf | done].
Qed.

