(* ===== verification/ConnectionProps.v ===== *)
(** * Connections: theorems

    Back-off, the remote mapping cache, fail-over between nodes, and the secrets of remotes. *)
From S2P Require Import Prelude RustStr Remotes Disk ApiCache RemoteCache MultiClient TryRequest RemotesConfig Connection Examples.

#[local] Open Scope Z_scope.

(** The back-off of a host.  Whenever the failures of an outage happen, the doubling count
    stays within 0..5, so no arithmetic overflows; a host is left alone for at most three
    minutes after the last failure; failures in the first ten minutes do not delay the next try
    at all; and a failure that is due moves the next try by [min (10 * 2^n) 180] seconds, where
    [n] counts the failures that moved it before. *)
Theorem back_off_schedule t0 e0 (l : list (Z * string)) m :
  clock t0 → clock m → t0 ≤ m → Forall (λ p : Z * string, clock p.1 ∧ p.1 ≤ m) l →
  let s := attempts (back_off_new t0 e0) l in
  let n := moves (back_off_new t0 e0) l in
  0 ≤ back_off_doubling_count s ≤ 5 ∧
  time_to_next_try s m ≤ 180 ∧
  (m < t0 + 600 → time_to_next_try s m = 0) ∧
  (∀ e, next_try s ≤ m → t0 + 600 ≤ m →
     (retried s m e).2 = Some (m + Z.min (10 * 2 ^ Z.of_nat n) 180)).
Proof.
  intros H0 Hm H0m Hl s n.
  pose proof (attempts_outage t0 0 m _ l H0 Hm H0m Hl (new_outage t0 e0 m H0m)) as Hout.
  simpl in Hout. fold n s in Hout. destruct Hout as [Hf Hc Hn He].
  assert (back_off_wf s) as Hwf by (split; [lia | by rw Hf]).
  assert (- 2 ^ 62 ≤ next_try s ≤ 2 ^ 62 + 180) as Hnext by (unfold clock in *; lia).
  rw time_to_next_try_clock //. split_and!; [lia | lia | lia | |].
  - intros Hearly. rw He; [| lia].
    eapply (early_moves t0 m); try done. by apply new_outage.
  - intros e Hdue Hmin. rw retried_spec //. cbn zeta. rw decide_False; [lia |]. simpl.
    rw Hc nominal_wait_cap //. lia.
Qed.

Lemma back_off_schedule_witness :
  (retried (attempts (back_off_new 0 "") [(600, ""); (611, "")]) 640 "").2 = Some (640 + 40).
Proof.
  destruct (back_off_schedule 0 "" [(600, ""); (611, "")] 640) as (_ & _ & _ & H);
    [unfold clock; lia | unfold clock; lia | lia | |].
  - repeat constructor; simpl; unfold clock; lia.
  - exact (H "" ltac:(vm_compute; discriminate) ltac:(lia)).
Defined.

(** In every cache that the operations can build, a node name leads to a host of that name,
    hosts are filed under their own name, and every back-off counter is within its bound. *)
Theorem reachable_remote_cache_wf ops r m :
  remotes (run_ops cache_default ops) !! r = Some m →
  (∀ n h, node_to_host m !! n = Some h → ∃ i, hosts m !! h = Some i ∧ node_name i = Some n) ∧
  (∀ h i, hosts m !! h = Some i → hostname i = h ∧
     ∀ b, back_off i = Some b → 0 ≤ back_off_doubling_count b ≤ 5).
Proof.
  intros Hm. assert (mapping_wf m) as [Hh Hn].
  { eapply (run_ops_wf cache_default ops); [apply map_Forall_empty | done]. }
  split; [done |]. intros h i Hi. by destruct (Hh _ _ Hi).
Qed.

Definition ex_config : list (string * remote_nodes) :=
  [("cluster", {| rn_ty := Pve; rn_hosts := ["a"; "b"] |}); ("pbs", {| rn_ty := Pbs; rn_hosts := ["c"] |})].
Definition ex_ops : list cache_op :=
  [ConfigUpdate ex_config; SetNodeName "cluster" "a" (Some "n1"); MarkHost 0 "cluster" "a" (Unreachable "refused")].

Lemma reachable_remote_cache_wf_witness :
  ∃ i, info_by_hostname (run_ops cache_default ex_ops) "cluster" "a" = Some i ∧ node_name i = Some "n1".
Proof.
  destruct (remotes (run_ops cache_default ex_ops) !! "cluster") as [m|] eqn:Hm; [| by vm_compute in Hm].
  destruct (reachable_remote_cache_wf ex_ops "cluster" m Hm) as [Hn _].
  assert (node_to_host m !! "n1" = Some "a") as Ha by (vm_compute in Hm; by injection Hm as <-).
  destruct (Hn _ _ Ha) as (i & Hi & Ei). exists i. split; [| done]. unfold info_by_hostname. by rw Hm.
Defined.

(** After the state of a known host was recorded, and until the configuration changes, there
    is a remote whose requests are let through at once, whatever the clock says: either a
    reachable one or the canary. *)
Theorem canary_keeps_trying c now r h s ops :
  is_Some (info_by_hostname c r h) → (∀ config, ConfigUpdate config ∉ ops) →
  ∃ r', can_try (run_ops (mark_host_reachable now r h s c) ops) r'.
Proof.
  intros [i Hi] Hops. pose proof Hi as (m & Hm & _)%bind_Some.
  assert (canary_ok (mark_host_reachable now r h s c)) as Hok.
  { unfold mark_host_reachable. rw Hi. by apply mark_update_ok. }
  destruct (run_ops_canary_ok _ ops Hops Hok) as [Hok' Hr].
  apply canary_ok_can_try; [done |]. intros E. specialize (Hr r). rw E lookup_empty in Hr.
  apply (is_Some_None (A := RemoteMapping)), Hr.
  apply (run_op_remotes c (MarkHost now r h s)); [done |]. by rw Hm.
Qed.

Lemma canary_keeps_trying_witness :
  ∃ r', can_try (run_ops (mark_host_reachable 0 "pbs" "c" (Unreachable "refused")
    (run_ops cache_default [ConfigUpdate ex_config; MarkHost 0 "cluster" "a" (Unreachable "x");
                            MarkHost 0 "cluster" "b" (Unreachable "x")])) [MarkHost 700 "cluster" "a" (Unreachable "x")]) r'.
Proof.
  apply canary_keeps_trying; [vm_compute; by eexists |].
  intros config [E | E%not_elem_of_nil]%elem_of_cons; [discriminate E | done].
Defined.

(** ** Fail-over *)
Section failover.
Context {Client Response : Type} (show_error : client_error → string).

(** The order in which one request tries the nodes, while other tasks move the shared position
    forward between its steps and the reachability of hosts changes: the iterator ends, starts
    at the current position, and the positions it picked are an interval of at most as many
    positions as there are nodes, each picked once.  Without such interference and with all
    hosts reachable it picks every node in turn. *)
Theorem try_clients_order (st : MultiClientState Client) (envs : nat → iter_env) A :
  let n := entry_count st in
  0 < n → 0 ≤ current st → (∀ j, 0 ≤ advanced (envs j) ≤ A) →
  current st + (n + 1) * (A + n + 1) < 2 ^ 64 →
  (∃ p ps, drive (S (Z.to_nat n)) envs 0 try_clients st = Some (Current p :: ps) ∧
     p = current st + advanced (envs 0%nat) ∧
     Z.of_nat (length (p :: (pick_at <$> ps))) ≤ n ∧
     p :: (pick_at <$> ps) ≡ₚ seqZ p (Z.of_nat (length (p :: (pick_at <$> ps))))) ∧
  drive (S (Z.to_nat n)) calm 0 try_clients st = Some (Current <$> seqZ (current st) n).
Proof.
  intros n Hn H0 HA Hlim. pose proof (HA 0%nat) as HA0. split.
  - assert (current (advance_by (advanced (envs 0%nat)) st) = current st + advanced (envs 0%nat)) as Ec.
    { simpl. rw u64_id; nia. }
    set (st1 := advance_by (advanced (envs 0%nat)) st) in *.
    destruct (drive_inv (Z.to_nat n) envs 1 A (current st1) [current st1]
      {| start_current := Some (current st1, current st1); unreachable_clients := [];
         try_unreachable := None |} st1) as (picks & Hd & (Hlen & Hperm)); try done.
    + lia.
    + by apply first_inv.
    + lia.
    + change (entry_count st1) with n. simpl. lia.
    + rw Z2Nat.id; [lia |]. rw Ec. change (entry_count st1) with n. nia.
    + exists (current st1), picks. split_and!; [| done | by apply Hlen | done].
      cbn [drive]. rw try_next_first. fold st1. by rw Hd.
  - cbn [drive calm reach advanced]. rw try_next_first.
    assert (current (advance_by 0 st) = current st) as Ec by (simpl; rw Z.add_0_r u64_id; nia).
    pose proof (drive_calm (Z.to_nat n) 1 (current st) (current st) (advance_by 0 st)) as Hd.
    cbv zeta in Hd. change (entry_count (advance_by 0 st)) with n in Hd.
    rw Ec Hd; [lia | done | lia | nia | lia |].
    rw (seqZ_cons (current st) n); [lia |]. simpl. do 4 f_equal; lia.
Qed.

(** C34: A request ends: the loop runs at most once more than there are nodes, and at most one
    request per node and one retry are sent, whatever happens meanwhile. *)
Theorem try_request_ends {P} idem (params : result string P) now (ms : nat → moment Client Response) A st c :
  let n := entry_count st in
  0 < n → 0 ≤ current st → (∀ j, 0 ≤ others_advance (ms j) ≤ A) →
  current st + (n + 1) * (A + n + 1) < 2 ^ 64 →
  ∃ r lp, try_request show_error (S (Z.to_nat n)) idem params now ms st c = Some (r, lp) ∧
    Z.of_nat (length (lp_sent lp)) ≤ n + 1.
Proof.
  intros n Hn H0 HA Hlim. unfold try_request.
  assert (∃ r lp, match params with
    | Err e => Some (Err (Anyhow e), start_loop st c)
    | Ok _ => match try_loop show_error (S (Z.to_nat n)) idem ms 0 (start_loop st c) with
              | Some (Some r, _, lp') => Some (r, lp')
              | Some (None, i, lp') => Some (after_loop (ms i) lp')
              | None => None
              end
    end = Some (r, lp) ∧ Z.of_nat (length (lp_sent lp)) ≤ n + 1) as Hgo.
  { destruct params as [a|e]; [| eexists _, _; split; [done | simpl; lia]].
    destruct (try_loop_ends show_error (S (Z.to_nat n)) idem ms A 0 n [] (start_loop st c))
      as (o & i & lp & -> & Hlen & Hnone); try done; [| simpl; lia | simpl; nia | destruct o as [r|]].
    - split_and!; [done | done | by left].
    - by eexists _, _.
    - exists (after_loop (ms i) lp).1, (after_loop (ms i) lp).2. split; [by destruct (after_loop _ _) |].
      pose proof (after_loop_sent (ms i) lp). specialize (Hnone eq_refl). lia. }
  destruct (remote_time_to_next_try c (state_remote st) now) as [[t e]|]; [| done].
  destruct (0 <? t); [| done]. eexists _, _. split; [done | simpl; lia].
Qed.

(** C12: A request that is not idempotent reaches at most one node, as long as no attempt times out:
    all attempts but the last failed to connect, and when the last one did not, its answer is
    the result. *)
Theorem post_reaches_one_node {P} fuel (params : result string P) now (ms : nat → moment Client Response) st c r lp :
  (∀ i cl, reply (ms i) cl ≠ None) →
  try_request show_error fuel false params now ms st c = Some (r, lp) →
  Forall connect_failed (lp_sent lp) ∨
  ∃ pre cl, lp_sent lp = pre ++ [(cl, Some r)] ∧ Forall connect_failed pre.
Proof.
  intros Hms. unfold try_request.
  set (go := match params with Ok _ => _ | Err _ => _ end).
  assert (go = Some (r, lp) → Forall connect_failed (lp_sent lp) ∨
    ∃ pre cl, lp_sent lp = pre ++ [(cl, Some r)] ∧ Forall connect_failed pre) as Hgo.
  { subst go. destruct params as [a|e]; [| intros [= <- <-]; left; constructor].
    pose proof (try_loop_once show_error fuel ms 0 (start_loop st c) Hms ltac:(constructor)) as H.
    destruct (try_loop _ _ _ _ _ _) as [[[[r'|] i] lp']|]; [| | done].
    - intros [= <- <-]. by right.
    - intros [= Ha]. pose proof (after_loop_once (ms i) lp' (Hms i)) as [E | [cl E]];
        rw Ha /= in E; rw E; [by left | right; by eauto]. }
  destruct (remote_time_to_next_try c (state_remote st) now) as [[t e]|]; [| done].
  destruct (0 <? t); [| done]. intros [= <- <-]. left. constructor.
Qed.

(** After these outcomes another node may be asked: the connection failed, so the request reached nobody; or the request is
    idempotent and its attempt failed or timed out. *)
Definition may_fail_over (idem : bool) (o : outcome Response) : Prop :=
  match o with
  | Some (Err (Connect _)) => True
  | Some (Err (ClientFailed _)) | None => idem = true
  | Some _ => False
  end.
Lemma may_fail_over_definite idem o : may_fail_over idem o → definite idem o = None.
Proof. by destruct o as [[a | []]|]; simpl; try intros ->. Qed.

(** C29: Fail-over finds the node that answers.  When all hosts count as reachable at the start, the remote is not backing off
    and no other request changes the marks meanwhile, the result is the answer of the first node, from the current position
    on, that has a definite one, provided the outcomes at the nodes before it are such that another node may be asked: their
    connection failed, or the request is idempotent.  Those nodes were tried once each, in order, and no other was.  (The
    loop also fails over after a time-out of a request that is not idempotent; that is not part of this contract.) *)
Theorem failover_first_answer {P} idem (p : P) now (ms : nat → moment Client Response) f st c k e a :
  let s := current st in let n := entry_count st in
  (∀ i, calm_moment f (ms i)) → NoDup (entry_hostname <$> entries st) →
  (∀ h, host_is_reachable c (state_remote st) h = true) →
  backing_off (remote_time_to_next_try c (state_remote st) now) = false →
  0 ≤ s → s + n < 2 ^ 64 → 0 ≤ k < n →
  get_at st (s + k) = Some e → definite idem (f (entry_client e)) = Some a →
  (∀ j e', 0 ≤ j < k → get_at st (s + j) = Some e' → may_fail_over idem (f (entry_client e'))) →
  ∃ lp, try_request show_error (S (Z.to_nat n)) idem (Ok p) now ms st c = Some (a, lp) ∧
    lp_sent lp = (λ e, (entry_client e, f (entry_client e))) <$> filter_map (get_at st) (seqZ s (k + 1)).
Proof.
  intros s n Hms Hnd Hreach Hoff Hs Hlim Hk He Hd Hmay.
  assert (∀ j e', 0 ≤ j < k → get_at st (s + j) = Some e' → definite idem (f (entry_client e')) = None) as Hbefore
    by (intros j e' Hj Hje; by apply may_fail_over_definite, (Hmay j)).
  assert (∃ i lp, try_loop show_error (S (Z.to_nat n)) idem ms 0 (start_loop st c) = Some (Some a, i, lp) ∧
    lp_sent lp = (λ e, (entry_client e, f (entry_client e))) <$> filter_map (get_at st) (seqZ s (k + 1))) as (i & lp & Hloop & Hsent).
  2:{ exists lp. split; [| done]. unfold try_request. rw Hloop.
      destruct (remote_time_to_next_try c (state_remote st) now) as [[t x]|]; [| done].
      simpl in Hoff. by rw Hoff. }
  destruct (get_at_total st (s + 0) ltac:(lia)) as [e0 He0].
  assert (advance_by 0 st = st) as Hadv.
  { unfold advance_by. rw Z.add_0_r u64_id; [lia |]. by destruct st. }
  cbn [try_loop]. unfold try_round. destruct (Hms 0%nat) as [Ha Hn0 _ _ _].
  cbn [lp_cache lp_state lp_iter start_loop]. rw Ha Hn0 Hadv try_next_first.
  unfold try_client. cbn [pick_at]. replace (current st) with (s + 0) by lia. rw He0 /=.
  match goal with |- context [attempt_client _ _ _ ?tc ?l] =>
    pose proof (attempt_reachable show_error idem f (ms 0%nat) tc l (Hms 0%nat) (Hreach _)) as Hatt end.
  cbn [tc_client tc_hostname lp_cache lp_state lp_sent lp_iter app] in Hatt.
  rw (seqZ_cons s); [lia |]. cbn [filter_map]. replace s with (s + 0) by lia. rw He0 Z.add_0_r.
  destruct (decide (k = 0)) as [-> | Hk0].
  - rw He0 in He. injection He as <-. rw Hd in Hatt. destruct Hatt as (lp & -> & Hsent).
    eexists _, lp. by split.
  - rw (Hbefore 0 e0 ltac:(lia) He0) in Hatt. destruct Hatt as (lp1 & x & -> & Est & Eit & Hsent & Hcache).
    destruct (try_loop_failover show_error idem f ms st s k a e (Z.to_nat n) 1 0 lp1) as (i & lp & Hl & Hsent');
      try done; try lia.
    + split; [by rw Eit Z.add_0_r | by rw Est Z.add_0_r | by rw Est | by rw Est].
    + rw Hcache. apply (fresh_from_marked (ms 0%nat) st s 0); [done | lia | exact He0 |].
      intros j e' _ _. apply Hreach.
    + exists i, lp. split; [done |]. rw Hsent' Hsent.
      replace (Z.succ (s + 0)) with (s + (0 + 1)) by lia. by replace (Z.pred (k + 1)) with (k - 0) by lia.
Qed.
End failover.

(** *** Three nodes *)
Definition ex_nodes : MultiClientState string :=
  {| current := 0; state_remote := "cluster"; entries := [Entry "a" "a"; Entry "b" "b"; Entry "c" "c"] |}.
Definition ex_moment (f : string → outcome string) : moment string string :=
  {| others_advance := 0; before_next := id; before_check := id; during_request := id;
     check_time := 0; mark_time := 0; saved := true; reply := f |}.
Lemma ex_moment_calm f : calm_moment f (ex_moment f).
Proof. by split. Qed.

Lemma try_clients_order_witness :
  drive 4 (λ i, {| advanced := if decide (i = 1%nat) then 1 else 0; reach := λ _, true |}) 0 try_clients ex_nodes
    = Some [Current 0; Current 1; Current 2] ∧
  drive 4 calm 0 try_clients ex_nodes = Some (Current <$> seqZ 0 3).
Proof.
  split; [reflexivity |].
  destruct (try_clients_order ex_nodes (λ _, {| advanced := 1; reach := λ _, false |}) 1) as [_ H];
    [reflexivity | reflexivity | intros; simpl; lia | reflexivity | exact H].
Defined.

Lemma try_request_ends_witness :
  ∃ r lp, try_request (λ _, "") 4 true (Ok ()) 0 (λ _, ex_moment (λ _, None)) ex_nodes cache_default = Some (r, lp) ∧
    Z.of_nat (length (lp_sent lp)) ≤ 4.
Proof.
  apply (try_request_ends (λ _, "") true (Ok ()) 0 (λ _, ex_moment (λ _, None)) 0 ex_nodes cache_default);
    [reflexivity | reflexivity | intros; simpl; lia | reflexivity].
Defined.

Definition ex_refuse_a (h : string) : outcome string :=
  if String.eqb h "a" then Some (Err (Connect "refused")) else Some (Ok "pong").

Lemma post_reaches_one_node_witness :
  ∃ r lp, try_request (λ _, "") 4 false (Ok ()) 0 (λ _, ex_moment ex_refuse_a) ex_nodes cache_default = Some (r, lp) ∧
  (Forall connect_failed (lp_sent lp) ∨
   ∃ pre cl, lp_sent lp = pre ++ [(cl, Some r)] ∧ Forall connect_failed pre).
Proof.
  eexists _, _. split; [vm_compute; reflexivity |].
  apply (post_reaches_one_node (λ _, "") 4 (Ok ()) 0 (λ _, ex_moment ex_refuse_a) ex_nodes cache_default).
  - intros i cl. simpl. unfold ex_refuse_a. by destruct (String.eqb cl "a").
  - vm_compute. reflexivity.
Defined.

Lemma failover_first_answer_witness :
  ∃ lp, try_request (λ _, "") 4 false (Ok ()) 0 (λ _, ex_moment ex_refuse_a) ex_nodes cache_default = Some (Ok "pong", lp) ∧
    lp_sent lp = [("a", Some (Err (Connect "refused"))); ("b", Some (Ok "pong"))].
Proof.
  destruct (failover_first_answer (λ _, "") false () 0 (λ _, ex_moment ex_refuse_a) ex_refuse_a ex_nodes
    cache_default 1 (Entry "b" "b") (Ok "pong")) as (lp & H & Hs); try reflexivity; try lia; try done.
  - simpl. repeat constructor; set_solver.
  - intros j e' Hj. assert (j = 0) as -> by lia. by intros [= <-].
  - exists lp. split; [exact H | exact Hs].
Defined.

(** A time-out fails over whatever the method is: a request that is not idempotent, whose first
    attempt timed out after the node may have acted on it, is sent to a second node. *)
Theorem timeout_repeats_post {P} (p : P) (show_error : client_error → string) :
  let f h := if String.eqb h "a" then None else Some (Ok "created") in
  ∃ lp, try_request show_error 4 false (Ok p) 0 (λ _, ex_moment f) ex_nodes cache_default = Some (Ok "created", lp) ∧
    lp_sent lp = [("a", None); ("b", Some (Ok "created"))].
Proof. eexists. split; vm_compute; reflexivity. Qed.

(** Hosts marked unreachable are remembered for a last attempt only when a later host is
    reachable: with the second and third node marked, a request whose first node refuses the
    connection is never sent to them, although they would answer. *)
Theorem skipped_hosts_not_tried {P} (p : P) (show_error : client_error → string) :
  let c := run_ops cache_default
    [ConfigUpdate [("cluster", {| rn_ty := Pve; rn_hosts := ["a"; "b"; "c"] |})];
     MarkHost 0 "cluster" "b" (Unreachable "x"); MarkHost 0 "cluster" "c" (Unreachable "x")] in
  ∃ lp, try_request show_error 4 true (Ok p) 0 (λ _, ex_moment ex_refuse_a) ex_nodes c
      = Some (Err (Connect "refused"), lp) ∧
    lp_sent lp = [("a", Some (Err (Connect "refused"))); ("a", Some (Err (Connect "refused")))].
Proof. eexists. split; vm_compute; reflexivity. Qed.

(** ** Secrets *)

(** C30: Saving the configuration never loses the secret of a remote it keeps, whatever file
    operation fails.  On success remotes.cfg holds no secret, and every entry finds its secret
    in the shadow file; on failure remotes.cfg is untouched, the new entry still has its secret
    and an old entry of that id that had a secret still has one. *)
Theorem save_config_keeps_secrets `{SectionLaws Remote, SectionLaws RemoteShadow} c k r x w :
  keyed c → sec_get c k = Some r → secret_on (disk w) r = Some x →
  let '(res, w') := save_config c w in
  secret_on (disk w') r = Some x ∧
  match res with
  | Ok _ =>
      secret_on (disk w') (set_token "-" r) = Some x ∧
      ∃ c', section_on REMOTES_CFG_FILENAME (disk w') = Some c' ∧
        ∀ j, sec_get c' j = set_token "-" <$> sec_get c j
  | Err _ =>
      disk w' !! REMOTES_CFG_FILENAME = disk w !! REMOTES_CFG_FILENAME ∧
      ∀ r0, remote_id r0 = k → is_Some (secret_on (disk w) r0) → is_Some (secret_on (disk w') r0)
  end.
Proof.
  intros Hc Hr Hx. pose proof (triple_save_config c (disk w) w eq_refl) as Hrun.
  destruct (save_config c w) as [[u|e] w'].
  - destruct Hrun as (d1 & Hs & Hw). rw !(config_written_secret c d1 (disk w')) //.
    destruct (shadow_written_secret c (disk w) d1 k r x Hc Hs Hr Hx) as (? & ? & _).
    split_and!; [done | done |]. destruct Hw as (f & c' & -> & Hp & Hget). exists c'.
    unfold section_on. rw lookup_insert_eq /=. split; [done |]. intros j. rw Hget. by apply saved_config_get.
  - destruct Hrun as [-> | Hs]; [by split_and! |].
    destruct (shadow_written_secret c (disk w) (disk w') k r x Hc Hs Hr Hx) as (? & _ & Hall).
    split_and!; [done | by destruct Hs as (? & ? & ? & _ & -> & _); rw lookup_insert_ne |].
    intros r0 Hid [x0 Hx0]. destruct (String.eqb_spec (token r0) "-") as [Et | Et].
    + by rw (Hall r0 Hid Et).
    + unfold secret_on. by destruct (String.eqb_spec (token r0) "-").
Qed.

Definition no_digest (_ : file) : string := "".
Definition ex_new_token : RemoteUpdater :=
  {| up_nodes := None; up_authid := None; up_token := Some "new"; up_web_url := None |}.
Definition ex_saved : sec_data Remote := ({[ "cluster" := ex_remote "new" ]} : gmap string Remote).

Lemma save_config_keeps_secrets_witness :
  secret_on (disk (save_config ex_saved (quiet_world (ex_disk "old"))).2) (ex_remote "-") = Some "new".
Proof.
  pose proof (save_config_keeps_secrets ex_saved "cluster" (ex_remote "new") "new"
    (quiet_world (ex_disk "old"))) as Hs.
  destruct (save_config ex_saved (quiet_world (ex_disk "old"))) as [res w'] eqn:E.
  destruct Hs as (_ & Hs).
  - intros k r. unfold ex_saved. simpl. intros [<- <-]%lookup_singleton_Some. reflexivity.
  - reflexivity.
  - reflexivity.
  - destruct res as [u|e]; [exact (proj1 Hs) |]. exfalso. apply (f_equal fst) in E. vm_compute in E. discriminate E.
Defined.

(** The cache of clients compares configured entries, in which the secret is always ["-"]: after
    a new secret was saved for a remote, the client in use still authenticates with the old
    one. *)
Theorem cached_client_keeps_old_secret :
  let r := ex_remote "-" in
  let secrets client := (λ e, tok_value <$> ex_token (entry_client e)) <$> entries client in
  let '(made, w1) := make_pve_client 0 cache_default r ∅ (quiet_world (ex_disk "old")) in
  let '(updated, w2) := update_remote no_digest "cluster" ex_new_token None None w1 in
  match made with
  | Ok (client, c) =>
      updated = Ok () ∧ (get_secret_token r w2).1 = Ok "new" ∧
      ((λ p, sec_get p.1 "cluster") <$> (config no_digest w2).1) = Ok (Some r) ∧
      ((λ p, secrets p.1) <$> (make_pve_client 10 cache_default r c w2).1) = Ok [Some "old"; Some "old"]
  | Err _ => False
  end.
Proof. vm_compute. done. Qed.

(** The shadow entry of a removed remote goes first: when writing remotes.cfg then fails, the
    remote is still configured but has no secret any more. *)
Theorem failed_removal_loses_secret :
  let w := World (ex_disk "old") 0 (λ n, bool_decide (n = 3%nat)) in
  let '(res, w') := remove_remote no_digest "cluster" None w in
  is_ok res = false ∧
  disk w' !! REMOTES_CFG_FILENAME = disk w !! REMOTES_CFG_FILENAME ∧
  secret_on (disk w) (ex_remote "-") = Some "old" ∧ secret_on (disk w') (ex_remote "-") = None.
Proof. vm_compute. done. Qed.
