(* ===== verification/CephProps.v ===== *)
(** * The registry of Ceph clusters: theorems

    What a sweep makes of the registry, that it settles, that the registry stays sane and keeps
    what it does not know under every operation and every fault, and who sees which cluster. *)
From S2P Require Import Prelude RustStr Remotes Disk ApiCache CephConfig CephConfigFacts CephRegistry CephFacts CephStore Examples.

#[local] Open Scope list_scope.

(** ** Sweeping *)
Definition pve_remotes (config : list (string * RemoteType)) : list string :=
  fst <$> List.filter (λ p, bool_decide (p.2 = Pve)) config.

(** What becomes of a registered cluster that was not found: it keeps its state if none of the remotes behind its members
    was asked, is unreachable if none of them could be reached, and gone, with the time it was first missed, if all of
    them answered.  Where some answered and some did not, only the rest of its data is fixed: the code and the
    documentation of the state differ there ([unreachable_though_answered]). *)
Record unfound_as_documented (now : Z) c (outcomes : gmap string ProbeOutcome) (k : string) (cl cl' : CephCluster) : Prop := {
  ud_rest : set_state cl' (cl_state cl) (cl_last_seen_missing cl) = cl;
  ud_unasked : (∀ o, ¬ probed c outcomes k o) → cl' = cl;
  ud_unreachable : (∃ o, probed c outcomes k o) → (∀ o, probed c outcomes k o → o = ProbeUnreachable) →
    cl_state cl' = Some CephUnreachable ∧ (cl_last_seen_missing cl = None → cl_last_seen_missing cl' = None);
  ud_gone : (∃ o, probed c outcomes k o) → ¬ probed c outcomes k ProbeUnreachable →
    cl_state cl' = Some CephGone ∧ cl_last_seen_missing cl' = Some (default now (cl_last_seen_missing cl));
}.
(** What a sweep that found [found] makes of the registry *)
Record reconciled (found : found_map) (outcomes : gmap string ProbeOutcome) (now : Z) (c c' : CephClustersConfig) : Prop := {
  rc_forgotten k : is_forgotten c k = true → cc_clusters c' !! k = cc_clusters c !! k;
  rc_found k : is_forgotten c k = false → is_Some (found !! k) → cc_clusters c' !! k = Some (detected (cc_clusters c !! k) k);
  rc_unknown k : found !! k = None → cc_clusters c !! k = None → cc_clusters c' !! k = None;
  rc_unfound k cl : is_forgotten c k = false → found !! k = None → cc_clusters c !! k = Some cl →
    ∃ cl', cc_clusters c' !! k = Some cl' ∧ unfound_as_documented now c outcomes k cl cl';
  rc_kept : cc_members c ⊆ cc_members c';
  rc_new id m : cc_members c' !! id = Some m → cc_members c !! id = Some m ∨
    ∃ fsid l remote node, found !! fsid = Some l ∧ is_forgotten c fsid = false ∧ (remote, node) ∈ l ∧
      id = member_id fsid node ∧ m = pve_member fsid remote node;
  rc_all fsid l remote node : found !! fsid = Some l → is_forgotten c fsid = false → (remote, node) ∈ l →
    is_Some (cc_members c' !! member_id fsid node);
  rc_extras : cc_extras c' = cc_extras c;
}.

Lemma demotion_as_documented now c outcomes k s cl : demotion_case c outcomes k s →
  unfound_as_documented now c outcomes k cl (match s with Some s => demoted now s cl | None => cl end).
Proof.
  destruct cl. intros [Hn | Hu | Ho Hn]; simpl; split; simpl; try done; try naive_solver.
Qed.
Lemma swept_reconciled found outcomes now c c' : swept found outcomes now c c' → reconciled found outcomes now c c'.
Proof.
  intros [Hf Hd Hu Hn Hk Hnew Ha He]. split; try done.
  - intros k cl Hfor Hfound Hcl. destruct (Hn k cl Hfor Hfound Hcl) as (s & Hs & Hs'). eexists. split; [exact Hs' |].
    by apply demotion_as_documented.
Qed.

(** C8: A sweep probes every PVE remote and commits the result: clusters that were seen become detected, with all
    members seen; registered clusters that were not seen become unreachable if none of the remotes behind their members
    could be reached, gone if all that were asked answered, and keep their state if none was asked; forgotten clusters and
    the members registered before stay.  For a cluster of which some remotes answered and some did not, only its other
    data and its members are covered.  Whatever calls fail, the registry on disk is then sane, or the sweep reports an
    error and the disk is unchanged; without faults only a configuration the format refuses makes it fail. *)
Theorem sweep_correct `{CephSectionsLaws} config answers now w c :
  ceph_on (disk w) = Some c → ceph_wf c → in_i64 now = true → uuid_answers answers →
  ∃ outcomes found c', probe_result answers (pve_remotes config) outcomes found ∧ reconciled found outcomes now c c' ∧
    match sweep config answers now w with
    | (Ok _, w') => holds_registry c' (disk w) (disk w')
    | (Err _, w') => disk w' = disk w ∧ (quiet w → ceph_write c' = None)
    end.
Proof.
  intros Hon Hwf Hn Ha. pose proof (probe_all_result answers (pve_remotes config)) as Hp.
  pose proof (probe_uuids answers (pve_remotes config) Ha) as Hu. unfold sweep.
  destruct (probe_all answers (pve_remotes config)) as [outcomes found] eqn:E. simpl in *.
  exists outcomes, found, (sweep_commit (outcomes, found) now c).1. split; [done |]. split; [apply swept_reconciled, sweep_commit_swept |].
  change (fst <$> List.filter _ config) with (pve_remotes config). rw E.
  pose proof (triple_ceph_transaction (sweep_commit (outcomes, found) now) (disk w) c Hon Hwf
    (sweep_commit_wf _ _ _ _ Hu Hn Hwf) (sweep_commit_honest _ _ _) w eq_refl) as Ht.
  pose proof (λ Hq, ceph_transaction_quiet (sweep_commit (outcomes, found) now) w c Hq Hon) as Hquiet.
  destruct (ceph_transaction _ w) as [[[] | e] w']; simpl in *; [done |]. split; [done |]. intros Hq. by destruct (Hquiet Hq).
Qed.

(** A sweep that is repeated at a later time with the same probe results changes nothing more, so the file is not written
    again and the time a cluster was first missed is kept. *)
Theorem sweep_settles answers remotes now now' c :
  let probed := probe_all answers remotes in
  sweep_commit probed now' (sweep_commit probed now c).1 = ((sweep_commit probed now c).1, false).
Proof.
  cbv zeta. destruct (probe_all answers remotes) as [outcomes found]. pose proof (sweep_commit_swept found outcomes now c) as Hs.
  set (c' := (sweep_commit (outcomes, found) now c).1) in *. unfold sweep_commit. simpl.
  rw upsert_all_settled.
  { intros fsid l Hl. destruct (is_forgotten c fsid) eqn:Hf; [left; by rw (swept_forgotten _ _ _ _ _ Hs) |]. right. split.
    - assert (is_Some (found !! fsid)) as Hl' by by eexists. rw (sw_found _ _ _ _ _ Hs fsid Hf Hl').
      eexists. split; [done | apply detected_idem].
    - intros r n Hin. by eapply (sw_all _ _ _ _ _ Hs). }
  destruct (reconcile_unfound_spec found outcomes now' c') as (_ & _ & _ & _ & Hr).
  rw Hr; [intros k s cl; by eapply swept_demoted | done].
Qed.

(** ** All operations *)
Inductive ceph_op :=
| OpDetect (answers : string → probe_answer) (remotes : list string)
| OpSweep (config : list (string * RemoteType)) (answers : string → probe_answer) (now : Z)
| OpRemoved (remote : string).
Definition op_ok (o : ceph_op) : Prop :=
  match o with
  | OpDetect answers _ => uuid_answers answers
  | OpSweep _ answers now => uuid_answers answers ∧ in_i64 now = true
  | OpRemoved _ => True
  end.

Section operations.
Context `{CephSectionsLaws}.

Definition run_op (o : ceph_op) : IO () :=
  match o with
  | OpDetect answers remotes => detect_and_upsert answers remotes
  | OpSweep config answers now => sweep config answers now
  | OpRemoved remote => on_remote_removed remote
  end.
(** One after the other, whether they succeed or not *)
Fixpoint run_ops (l : list ceph_op) (w : world) : world :=
  match l with [] => w | o :: l => run_ops l (run_op o w).2 end.

(** The configuration an operation leaves: sane, with the unknown keys of what was registered *)
Record op_result (c c' : CephClustersConfig) : Prop := {
  or_wf : ceph_wf c';
  or_extras id : registered c' id = true → cc_extras c' !! id = cc_extras c !! id;
}.

Lemma transaction_result f d0 c :
  ceph_on d0 = Some c → ceph_wf c → ceph_wf (f c).1 → honest c (f c).1 (f c).2 → cc_extras (f c).1 = cc_extras c →
  ∀ w, disk w = d0 → ∃ c', ceph_on (disk (ceph_transaction f w).2) = Some c' ∧ op_result c c'.
Proof.
  intros Hon Hwf Hwf' Hh He w Hd. pose proof (triple_ceph_transaction f d0 c Hon Hwf Hwf' Hh w Hd) as Ht.
  destruct (ceph_transaction f w) as [[[] | e] w']; simpl in *.
  - destruct Ht as [_ (c' & Hon' & Hc' & [Hsc Hsm Hse])]. exists c'. split; [done |]. split; [done |].
    intros id Hid. rw -He. apply Hse. unfold registered in *. by rw -Hsc -Hsm.
  - rw Ht. by exists c.
Qed.

Lemma run_op_result o w c :
  op_ok o → ceph_on (disk w) = Some c → ceph_wf c → ∃ c', ceph_on (disk (run_op o w).2) = Some c' ∧ op_result c c'.
Proof.
  intros Ho Hon Hwf. destruct o as [answers remotes | config answers now | remote]; simpl in *.
  - unfold detect_and_upsert. pose proof (probe_uuids answers remotes Ho) as Hu.
    destruct (probe_all answers remotes) as [outcomes found]. case_decide; [by exists c |].
    eapply transaction_result; [done | done | by apply upsert_all_wf | apply upsert_all_honest | | done].
    apply (up_extras _ _ _ (upsert_all_upserted found c)).
  - destruct Ho as [Ha Hn]. unfold sweep. pose proof (probe_uuids answers (pve_remotes config) Ha) as Hu.
    change (fst <$> List.filter _ config) with (pve_remotes config).
    destruct (probe_all answers (pve_remotes config)) as [outcomes found].
    eapply transaction_result; [done | done | by apply sweep_commit_wf | apply sweep_commit_honest | | done].
    apply (sw_extras _ _ _ _ _ (sweep_commit_swept found outcomes now c)).
  - eapply transaction_result; [done | done | | apply remote_removed_honest | | done].
    + eapply unbacked_wf; [apply remote_removed_unbacked | done].
    + apply (ub_extras _ _ _ (remote_removed_unbacked remote c)).
Qed.
End operations.

(** C15: Whatever detections, sweeps and removals of remotes run and whatever calls fail in them, the registry on disk can be
    read and is sane: sections are named by their ids, ids of clusters and members do not clash, every member belongs to a
    registered cluster, and what is kept of unknown keys is really unknown. *)
Theorem ceph_registry_sane `{CephSectionsLaws} l w c :
  Forall op_ok l → ceph_on (disk w) = Some c → ceph_wf c → ∃ c', ceph_on (disk (run_ops l w)) = Some c' ∧ ceph_wf c'.
Proof.
  revert w c. induction l as [|o l IH]; intros w c Hl Hon Hwf; [by exists c |]. apply Forall_cons in Hl as [Ho Hl].
  destruct (run_op_result o w c Ho Hon Hwf) as (c' & Hon' & [Hwf' _]). by eapply IH.
Qed.

(** ** Unknown keys *)
Lemma unknown_lookup `{CephSections} c id ty v key :
  reads c id (Some (ty, v)) → key ∉ known_keys ty → v !! key = cc_extras c !! id ≫= lookup key.
Proof.
  assert (∀ l : list (string * option Value), key ∉ l.*1 → v !! key = unknown_keys v (fields l) ≫= lookup key) as Hl.
  { intros l Hk%fields_absent. unfold unknown_keys. pose proof (map_lookup_filter (λ p, fields l !! p.1 = None) v key) as Hf.
    destruct (v !! key) as [x|] eqn:Hx.
    - assert (filter (λ p, fields l !! p.1 = None) v !! key = Some x) as Hin by by apply map_lookup_filter_Some.
      case_decide as Hd; [by rw Hd in Hin | done].
    - assert (filter (λ p, fields l !! p.1 = None) v !! key = None) as Hin by (apply map_lookup_filter_None; by left).
      by case_decide. }
  intros [(-> & (a & _ & _ & ->) & _) | (-> & (a & _ & _ & ->) & _)] Hk; by apply Hl.
Qed.

(** No operation loses what it does not know: a key that the types do not model, in a section that is there before and
    after the operation, keeps its value, and the section its type. *)
Theorem unknown_keys_survive `{CephSectionsLaws} o w s c s' id ty v ty' v' key :
  op_ok o → cs_parse (default [] (disk w !! CEPH_CLUSTERS_CFG_FILENAME)) = Some s → untyped_to_typed s = Some c → ceph_wf c →
  cs_parse (default [] (disk (run_op o w).2 !! CEPH_CLUSTERS_CFG_FILENAME)) = Some s' →
  s !! id = Some (ty, v) → s' !! id = Some (ty', v') → key ∉ known_keys ty →
  ty' = ty ∧ v' !! key = v !! key.
Proof.
  intros Ho Hs Hc Hwf Hs' Hid Hid' Hkey. assert (ceph_on (disk w) = Some c) as Hon by (unfold ceph_on, ceph_parse; by rw Hs).
  destruct (run_op_result o w c Ho Hon Hwf) as (c' & Hon' & [Hwf' He]). unfold ceph_on, ceph_parse in Hon'. rw Hs' /= in Hon'.
  pose proof (untyped_reads _ _ Hc id) as Hr. pose proof (untyped_reads _ _ Hon' id) as Hr'. rw Hid in Hr. rw Hid' in Hr'.
  assert (registered c' id = true) as Hreg.
  { unfold registered. destruct Hr' as [(_ & (a & -> & _) & _) | (_ & (a & -> & _) & _)];
      by rw (bool_decide_true (is_Some (Some a))) ?orb_true_r. }
  assert (ty' = ty) as ->.
  { assert (∀ c1 ty1 v1, ceph_wf c1 → reads c1 id (Some (ty1, v1)) → ty1 = if bool_decide (is_uuid id) then "ceph-cluster" else "ceph-member") as Hty.
    { intros c1 ty1 v1 Hwf1 [(-> & (a & Ha & _) & _) | (-> & (a & Ha & _) & _)].
      - apply (wf_clusters _ Hwf1) in Ha as (_ & Hu & _). by rw bool_decide_true.
      - apply (wf_members _ Hwf1) in Ha as (_ & Hl & _). rw bool_decide_false //. unfold is_uuid. lia. }
    by rw (Hty _ _ _ Hwf Hr) (Hty _ _ _ Hwf' Hr'). }
  split; [done |]. by rw (unknown_lookup _ _ _ _ _ Hr Hkey) (unknown_lookup _ _ _ _ _ Hr' Hkey) He.
Qed.

(** ** Access *)

(** A caller who may see the remotes [may] sees a cluster through a member on one of them. *)
Definition cluster_visible (may : string → bool) (c : CephClustersConfig) (k : string) : Prop :=
  ∃ id m remote, cc_members c !! id = Some m ∧ mb_cluster m = k ∧ mb_kind m = KindPve ∧ mb_remote m = Some remote ∧ may remote = true.

Lemma cluster_accessible_visible may c k : cluster_accessible may c k = true ↔ cluster_visible may c k.
Proof.
  unfold cluster_accessible, cluster_visible. rw existsb_exists. split.
  - intros (m & (id & Hid & Hk)%list_elem_of_In%elem_of_members_of & Hm). unfold member_accessible in Hm.
    destruct (mb_kind m) eqn:Hkind; [| done]. destruct (mb_remote m) as [r|] eqn:Hr; [| done]. by exists id, m, r.
  - intros (id & m & r & Hid & Hk & Hkind & Hr & Hmay). exists m.
    split; [apply list_elem_of_In, elem_of_members_of; by exists id |]. unfold member_accessible. by rw Hkind Hr.
Qed.

Lemma elem_of_sorted_members c k m : m ∈ sorted_members c k ↔ ∃ id, cc_members c !! id = Some m ∧ mb_cluster m = k.
Proof. unfold sorted_members. by rw elem_of_sort_by elem_of_members_of. Qed.

Lemma NoDup_omap_key {K A B} (f : K * A → option B) (g : B → K) l :
  NoDup l.*1 → (∀ p b, p ∈ l → f p = Some b → g b = p.1) → NoDup (omap f l).
Proof.
  induction l as [|p l IH]; [by constructor |]. intros [Hp Hnd]%NoDup_cons Hg. simpl.
  assert (NoDup (omap f l)) as Hl by (apply IH; [done |]; intros ????; apply Hg; [by right | done]).
  destruct (f p) as [b|] eqn:Hb; [| done]. constructor; [| done]. intros (q & Hq & Hfq)%list_elem_of_omap. destruct Hp.
  rw -(Hg p b) //; [by left |]. rw (Hg q b) //; [by right | by apply list_elem_of_fmap_2].
Qed.

Lemma connect_loop_spec {Client} (connect : string → result string Client) last l :
  match connect_loop connect last l with
  | Ok (m, client) => ∃ l1 l2 remote, l = l1 ++ m :: l2 ∧ mb_kind m = KindPve ∧ mb_remote m = Some remote ∧ connect remote = Ok client ∧
      ∀ m' r, m' ∈ l1 → mb_kind m' = KindPve → mb_remote m' = Some r → ∃ e, connect r = Err e
  | Err _ => ∀ m r, m ∈ l → mb_kind m = KindPve → mb_remote m = Some r → ∃ e, connect r = Err e
  end.
Proof.
  revert last. induction l as [|m l IH]; intros last; [by intros ?? ?%not_elem_of_nil |]. cbn [connect_loop].
  destruct (mb_kind m) eqn:Hk; [destruct (mb_remote m) as [r|] eqn:Hr; [destruct (connect r) as [client | e] eqn:Hc |] |].
  { exists [], l, r. split_and!; try done. by intros ?? ?%not_elem_of_nil. }
  1: specialize (IH (Some e)). 2,3: specialize (IH last).
  all: destruct (connect_loop connect _ l) as [[m0 client] | e0];
    [destruct IH as (l1 & l2 & r0 & -> & ? & ? & ? & Hall); exists (m :: l1), l2, r0; split_and!; try done |];
    intros m' r' [-> | Hin]%elem_of_cons ??; simplify_eq; try congruence; eauto.
Qed.

(** C28: A caller sees exactly the clusters that have a member on a remote he may see, listed by id and with all their members; the
    read of one cluster is refused for any other; and it is dispatched to the first PVE member by id for whose remote a client
    can be built, so it only fails after all of them did. *)
Theorem ceph_access {Client} may (connect : string → result string Client) c :
  (∀ k cl, cc_clusters c !! k = Some cl → cl_id cl = k) →
  (∀ cl ms, (cl, ms) ∈ accessible_clusters may c ↔
     cc_clusters c !! cl_id cl = Some cl ∧ cluster_visible may c (cl_id cl) ∧ ms = sorted_members c (cl_id cl)) ∧
  StronglySorted (cmp_lt (λ a b, String.compare (cl_id a.1) (cl_id b.1))) (accessible_clusters may c) ∧
  (∀ k, match cluster_connect may connect c k with
        | Err (inl NoSuchCluster) => cc_clusters c !! k = None
        | Err (inl NoAccess) => is_Some (cc_clusters c !! k) ∧ ¬ cluster_visible may c k
        | Err (inr _) => is_Some (cc_clusters c !! k) ∧ cluster_visible may c k ∧
            ∀ m r, m ∈ sorted_members c k → mb_kind m = KindPve → mb_remote m = Some r → ∃ e, connect r = Err e
        | Ok (m, client) => is_Some (cc_clusters c !! k) ∧ cluster_visible may c k ∧
            ∃ before after remote, sorted_members c k = before ++ m :: after ∧ mb_kind m = KindPve ∧ mb_remote m = Some remote ∧
              connect remote = Ok client ∧
              ∀ m' r, m' ∈ before → mb_kind m' = KindPve → mb_remote m' = Some r → ∃ e, connect r = Err e
        end).
Proof.
  intros Hid.
  assert (∀ cl ms, (cl, ms) ∈ accessible_clusters may c ↔
     cc_clusters c !! cl_id cl = Some cl ∧ cluster_visible may c (cl_id cl) ∧ ms = sorted_members c (cl_id cl)) as Hacc.
  { intros cl ms. unfold accessible_clusters. rw elem_of_sort_by list_elem_of_omap -cluster_accessible_visible. split.
    - intros ([k cl'] & Hin%elem_of_map_to_list & Heq). simpl in Heq. destruct (cluster_accessible may c k) eqn:Ha; simplify_eq.
      by rw (Hid k cl Hin).
    - intros (Hin & Ha & ->). exists (cl_id cl, cl). split; [by apply elem_of_map_to_list | by rw /= Ha]. }
  split; [done |]. split.
  - apply sort_by_strict; [apply (cmp_pullback (λ p : CephCluster * list CephMember, cl_id p.1)), _ | |].
    + apply (NoDup_omap_key _ (λ p, cl_id p.1)); [apply NoDup_fst_map_to_list |].
      intros [k cl] p Hin%elem_of_map_to_list Heq. simpl in Heq. case_match; simplify_eq/=. by apply Hid.
    + intros [cl1 ms1] [cl2 ms2] H1 H2 Heq%string_compare_eq. simpl in Heq.
      apply (elem_of_sort_by (λ a b, String.compare (cl_id a.1) (cl_id b.1))), Hacc in H1 as (H1 & _ & ->).
      apply (elem_of_sort_by (λ a b, String.compare (cl_id a.1) (cl_id b.1))), Hacc in H2 as (H2 & _ & ->). congruence.
  - intros k. unfold cluster_connect, access_checked_members, lookup_cluster, check_cluster_access, bail_if.
    destruct (cc_clusters c !! k) as [cl|] eqn:Hcl; simpl; [| done].
    destruct (cluster_accessible may c k) eqn:Ha; simpl.
    + apply cluster_accessible_visible in Ha. unfold connect_cluster. pose proof (connect_loop_spec connect None (sorted_members c k)) as Hl.
      destruct (connect_loop connect None (sorted_members c k)) as [[m client] | e]; split_and!; try done; by eexists.
    + split; [by eexists |]. intros Hv%cluster_accessible_visible. congruence.
Qed.

(** ** Surprises *)

(** When the remote behind all members of a forgotten cluster is removed, the mark goes with the cluster, and the next
    detection registers it as if it had never been forgotten. *)
Theorem tombstone_lost_with_remote remote found c k :
  is_forgotten c k = true → (∀ id m, cc_members c !! id = Some m → mb_cluster m = k → backed_by remote m = true) →
  is_Some (found !! k) →
  let c' := (remote_removed remote c).1 in
  cc_clusters c' !! k = None ∧ cc_clusters (upsert_all found c').1 !! k = Some (detected None k).
Proof.
  intros Hf Hall Hk c'. pose proof (remote_removed_unbacked remote c) as Hu. fold c' in Hu.
  assert (cc_clusters c' !! k = None) as Hn.
  { destruct (cc_clusters c' !! k) as [cl|] eqn:E; [| done]. apply (ub_clusters _ _ _ Hu) in E as (_ & id & m & Hm & Hmk).
    apply (ub_members _ _ _ Hu) in Hm as [Hm Hb]. rw (Hall id m Hm Hmk) in Hb. done. }
  split; [done |]. rw (up_clusters _ _ _ (upsert_all_upserted found c')) bool_decide_true; [by apply in_order_keys |].
  unfold is_forgotten. by rw Hn.
Qed.

(** A member whose id is longer than the file format allows, from a node name of more than 43 characters, makes every sweep
    that finds it fail: nothing that any remote reported is stored. *)
Theorem long_node_name_blocks_sweep `{CephSectionsLaws} config answers now w c remote fsid nodes node :
  ceph_on (disk w) = Some c → ceph_wf c → in_i64 now = true → uuid_answers answers →
  remote ∈ pve_remotes config → probe_remote (answers remote) = Found fsid nodes → node ∈ nodes → (43 < String.length node)%nat →
  is_forgotten c fsid = false → cc_members c !! member_id fsid node = None →
  disk (sweep config answers now w).2 = disk w.
Proof.
  intros Hon Hwf Hnow Ha Hr Hp Hn Hlen Hf Hnew. pose proof (probe_all_result answers (pve_remotes config)) as Hpr.
  pose proof (probe_uuids answers (pve_remotes config) Ha) as Hu. unfold sweep.
  change (fst <$> List.filter _ config) with (pve_remotes config).
  destruct (probe_all answers (pve_remotes config)) as [outcomes found]. simpl in *.
  assert (is_Some (found !! fsid)) as [l Hl] by (apply (pr_found _ _ _ _ Hpr); eauto).
  assert ((remote, node) ∈ l) as Hin by (apply (pr_members _ _ _ _ Hpr fsid l remote node Hl); eauto).
  pose proof (sweep_commit_swept found outcomes now c) as Hs. pose proof (sweep_commit_wf outcomes found now c Hu Hnow Hwf) as Hwf'.
  pose proof (sweep_commit_honest (outcomes, found) now c) as Hh.
  destruct (sw_all _ _ _ _ _ Hs fsid l remote node Hl Hf Hin) as [m Hm].
  pose proof (triple_ceph_transaction (sweep_commit (outcomes, found) now) (disk w) c Hon Hwf Hwf' Hh w eq_refl) as Ht.
  assert (ceph_write (sweep_commit (outcomes, found) now c).1 = None) as Hw.
  { unfold ceph_write. pose proof (typed_to_untyped_lookup (sweep_commit (outcomes, found) now c).1 (member_id fsid node)) as Hlk.
    rw Hm in Hlk. destruct (typed_to_untyped _) as [s order]. simpl in Hlk. destruct (cs_write s order) as [f|] eqn:Hw; [| done].
    pose proof (cs_write_ids _ _ _ _ _ Hw Hlk) as Hmax. unfold max_id_length, CEPH_MEMBER_ID_MAX_LENGTH in Hmax. simpl in Hmax.
    unfold member_id in Hmax. rw !string_length_app /= (Hu fsid l Hl) in Hmax. lia. }
  destruct (ceph_transaction _ w) as [[[] | e] w'] eqn:E; simpl in *; [| done].
  destruct (ceph_transaction_commits _ _ _ _ _ Hon E) as [[f Hw'] | Hb]; [congruence |].
  rw (Hh Hb) Hnew in Hm. done.
Qed.

Lemma sweep_correct_witness :
  ∃ outcomes found c', probe_result ex_gone ["east"; "west"]%string outcomes found ∧ reconciled found outcomes 200 ex_registry c' ∧
    holds_registry c' (disk ex_world) (disk (sweep ex_config ex_gone 200 ex_world).2).
Proof.
  destruct (sweep_correct ex_config ex_gone 200 ex_world ex_registry ex_on ex_registry_wf eq_refl ex_gone_uuid)
    as (outcomes & found & c' & Hp & Hs & Hr).
  exists outcomes, found, c'. split; [exact Hp |]. split; [exact Hs |].
  assert ((sweep ex_config ex_gone 200 ex_world).1 = Ok ()) as Hok by by vm_compute.
  destruct (sweep ex_config ex_gone 200 ex_world) as [[u | e] w']; [exact Hr | discriminate Hok].
Defined.

Lemma ceph_registry_sane_witness :
  ∃ c', ceph_on (disk (run_ops [OpSweep ex_config ex_gone 200; OpRemoved "east"; OpDetect ex_answers ["east"%string]] ex_world)) = Some c' ∧
    ceph_wf c'.
Proof.
  apply (ceph_registry_sane _ ex_world ex_registry); [| exact ex_on | exact ex_registry_wf].
  repeat constructor; [exact ex_gone_uuid | exact ex_answers_uuid].
Defined.

(** The sections of the file, before and after the sweep *)
Definition ex_raw (w : world) : section_data := default ∅ (cs_parse (default [] (disk w !! CEPH_CLUSTERS_CFG_FILENAME))).
Lemma unknown_keys_survive_witness :
  ∃ v v', ex_raw ex_world !! ex_fsid = Some ("ceph-cluster"%string, v) ∧
    ex_raw (run_op (OpSweep ex_config ex_gone 200) ex_world).2 !! ex_fsid = Some ("ceph-cluster"%string, v') ∧
    v !! "state"%string = Some (VString "detected") ∧ v' !! "state"%string = Some (VString "gone") ∧
    v !! "future-knob"%string = Some (VString "on") ∧ v' !! "future-knob"%string = v !! "future-knob"%string.
Proof.
  pose (o := OpSweep ex_config ex_gone 200). pose (s := ex_raw ex_world). pose (s' := ex_raw (run_op o ex_world).2).
  pose (v := (default ("", ∅) (s !! ex_fsid)).2). pose (v' := (default ("", ∅) (s' !! ex_fsid)).2).
  exists v, v'. split; [by_computation |]. split; [by_computation |]. split; [by_computation |]. split; [by_computation |].
  split; [by_computation |].
  refine (proj2 (unknown_keys_survive o ex_world s ex_registry s' ex_fsid "ceph-cluster" v "ceph-cluster" v' "future-knob"
    _ _ _ ex_registry_wf _ _ _ _)).
  - split; [exact ex_gone_uuid | reflexivity].
  - by_computation.
  - by_computation.
  - by_computation.
  - by_computation.
  - by_computation.
  - by_computation.
Defined.

Lemma ceph_access_witness :
  ∃ client, cluster_connect (String.eqb "east") (λ r, Ok (r ++ "-client")%string) ex_registry ex_fsid
            = Ok (pve_member ex_fsid "east" "node1", client) ∧ cluster_visible (String.eqb "east") ex_registry ex_fsid.
Proof.
  destruct (ceph_access (String.eqb "east") (λ r, Ok (r ++ "-client")%string) ex_registry) as (_ & _ & Hc).
  { intros k cl Hk. by apply (wf_clusters _ ex_registry_wf) in Hk as (? & _). }
  specialize (Hc ex_fsid). exists "east-client"%string. split; [by vm_compute |].
  assert (cluster_connect (String.eqb "east") (λ r, Ok (r ++ "-client")%string) ex_registry ex_fsid
          = Ok (pve_member ex_fsid "east" "node1", "east-client"%string)) as E by by vm_compute.
  rw E in Hc. exact (proj1 (proj2 Hc)).
Defined.

(** After [Gone], a cluster whose remote cannot be reached any more is [Unreachable] and keeps the time it was missed, which
    is documented as only set in the state [Gone]. *)
Lemma missing_kept_while_unreachable :
  let c1 := (sweep_commit (probe_all ex_gone ["east"%string]) 200 ex_registry).1 in
  let c2 := (sweep_commit (probe_all (λ _, NoClient) ["east"%string]) 300 c1).1 in
  (λ cl, (cl_state cl, cl_last_seen_missing cl)) <$> cc_clusters c2 !! ex_fsid = Some (Some CephUnreachable, Some 200%Z).
Proof. by vm_compute. Qed.

(** A cluster with members on two remotes of which one answers, without Ceph, and one cannot be reached is [Unreachable],
    which is documented as the state in which no probe succeeded. *)
Lemma unreachable_though_answered :
  let both remote := if String.eqb remote "east" then CephAnswer (Some ex_fsid) (Some [Some "node1"])
                     else CephAnswer (Some ex_fsid) (Some [Some "node9"]) in
  let c1 := (sweep_commit (probe_all both ["east"; "west"]%string) 100 cc_default).1 in
  let c2 := (sweep_commit (probe_all ex_gone ["east"; "west"]%string) 200 c1).1 in
  probe_remote (ex_gone "east") = ProbeReachable ∧ cl_state <$> cc_clusters c2 !! ex_fsid = Some (Some CephUnreachable).
Proof. by vm_compute. Qed.
