(* ===== verification/AutoInstallConfig.v ===== *)
(** * Automated installations: data

    lib/pdm-api-types/src/auto_installer.rs: installations, prepared configurations with their
    updater, and tokens.  The types of the installer, the JSON pointers, globs, templates and
    password hashes are those of other crates and parameters ([InstallEnv]).  A [BTreeMap] is a
    [gmap]: no operation depends on the order of its keys.
    The second part has the files. *)
From S2P Require Import Prelude RustStr Remotes Disk ApiCache RemotesConfig.

#[local] Open Scope string_scope.

Class InstallEnv := {
  SystemInfo : Type;
  PostHookInfo : Type;
  KeyboardLayout : Type;
  RebootMode : Type;
  FilterMatch : Type;
  LvmOptions : Type;
  ZfsOptions : Type;
  BtrfsOptions : Type;
  Fqdn : Type;
  Cidr : Type;
  IpAddr : Type;
  (** [info.pointer(key).and_then(|v| v.as_str())] on the JSON of the system information *)
  pointer_str : SystemInfo → string → option string;
  (** [glob::Pattern::new] and [matches] *)
  glob_pattern : string → option (string → bool);
  (** MiniJinja, with the JSON of the system information and the counters as context *)
  render_named_str : string → SystemInfo → gmap string Z → option string;
  fqdn_from : string → option Fqdn;
  parse_cidr : string → option Cidr;
  parse_ip : string → option IpAddr;
  encrypt_pw : string → option string;
  verify_crypt_pw : string → string → bool;
}.

Section types.
Context `{InstallEnv}.

Inductive InstallationStatus := AnswerSent | NoAnswerFound | InProgress | Finished.
Global Instance InstallationStatus_eq_dec : EqDecision InstallationStatus.
Proof. solve_decision. Defined.

Record Installation := {
  inst_uuid : string;
  received_at : Z;
  inst_status : InstallationStatus;
  inst_info : SystemInfo;
  answer_id : option string;
  post_hook_data : option PostHookInfo;
  post_hook_token : option string;
}.

Inductive DiskSelectionMode := Fixed | DiskFilter.
Global Instance DiskSelectionMode_eq_dec : EqDecision DiskSelectionMode.
Proof. solve_decision. Defined.
Inductive FilesystemOptions := Ext4 (o : LvmOptions) | Xfs (o : LvmOptions) | Zfs (o : ZfsOptions) | Btrfs (o : BtrfsOptions).

Record PreparedInstallationConfig := {
  pc_id : string;
  authorized_tokens : list string;
  is_default : bool;
  target_filter : gmap string string;
  country : string;
  fqdn : string;
  use_dhcp_fqdn : bool;
  keyboard : KeyboardLayout;
  mailto : string;
  timezone : string;
  root_password_hashed : option string;
  reboot_on_error : bool;
  reboot_mode : RebootMode;
  root_ssh_keys : list string;
  use_dhcp_network : bool;
  cidr : option string;
  gateway : option string;
  dns : option string;
  netdev_filter : gmap string string;
  netif_name_pinning_enabled : bool;
  filesystem : FilesystemOptions;
  disk_mode : DiskSelectionMode;
  disk_list : list string;
  disk_filter : gmap string string;
  disk_filter_match : option FilterMatch;
  post_hook_base_url : option string;
  post_hook_cert_fp : option string;
  template_counters : gmap string Z;
  subscription_key : option string;
}.

(** Every field an update can set *)
Record PreparedInstallationConfigUpdater := {
  u_authorized_tokens : option (list string);
  u_is_default : option bool;
  u_target_filter : option (gmap string string);
  u_country : option string;
  u_fqdn : option string;
  u_use_dhcp_fqdn : option bool;
  u_keyboard : option KeyboardLayout;
  u_mailto : option string;
  u_timezone : option string;
  u_root_password_hashed : option string;
  u_reboot_on_error : option bool;
  u_reboot_mode : option RebootMode;
  u_root_ssh_keys : option (list string);
  u_use_dhcp_network : option bool;
  u_cidr : option string;
  u_gateway : option string;
  u_dns : option string;
  u_netdev_filter : option (gmap string string);
  u_netif_name_pinning_enabled : option bool;
  u_filesystem : option FilesystemOptions;
  u_disk_mode : option DiskSelectionMode;
  u_disk_list : option (list string);
  u_disk_filter : option (gmap string string);
  u_disk_filter_match : option FilterMatch;
  u_post_hook_base_url : option string;
  u_post_hook_cert_fp : option string;
  u_template_counters : option (gmap string Z);
  u_subscription_key : option string;
}.
Inductive DeletablePreparedInstallationConfigProperty :=
| DelTargetFilter | DelNetdevFilter | DelDiskFilter | DelRootSshKeys | DelPostHookBaseUrl | DelPostHookCertFp
| DelTemplateCounters | DelSubscriptionKey.

Record AnswerToken := {
  tok_id : string;
  created_by : string;
  comment : option string;
  enabled : option bool;
  expire_at : option Z;
}.
Record AnswerTokenUpdater := {
  ut_comment : option string;
  ut_enabled : option bool;
  ut_expire_at : option Z;
}.
Inductive DeletableAnswerTokenProperty := DelComment | DelExpireAt.

Definition is_active (now : Z) (t : AnswerToken) : bool :=
  default true (enabled t) &&
  match expire_at t with Some exp => (exp =? 0)%Z || (now <? exp)%Z | None => true end.

Record AnswerTokenCreateResult := { created_token : AnswerToken; created_secret : string }.
Record AnswerTokenUpdateResult := { updated_token : AnswerToken; updated_secret : option string }.
Record PreparedInstallationConfigCreateResult := {
  result_config : PreparedInstallationConfig;
  result_token : option AnswerTokenCreateResult;
}.

(** [UDEV_FILTER_KEY_REGEX], [TEMPLATE_COUNTER_NAME_REGEX] *)
Definition upper (c : ascii) : bool := in_range "A" "Z" c.
Definition lower (c : ascii) : bool := in_range "a" "z" c.
Definition udev_filter_key (k : string) : bool :=
  negb (is_empty k) && forall_char (λ c, upper c || Ascii.eqb c "_") k.
Definition template_counter_name (k : string) : bool :=
  match k with
  | "" => false
  | String c k => (upper c || lower c || Ascii.eqb c "_") &&
      forall_char (λ c, upper c || lower c || is_ascii_digit c || Ascii.eqb c "_") k
  end.

(** ** What the installer gets *)
Inductive Filesystem := FsExt4 | FsXfs | FsZfs | FsBtrfs.
Inductive FqdnConfig := FqdnFromDhcp | FqdnSimple (f : Fqdn).
Record GlobalOptions := {
  g_country : string; g_fqdn : FqdnConfig; g_keyboard : KeyboardLayout; g_mailto : string; g_timezone : string;
  g_root_password : option string; g_root_password_hashed : option string; g_reboot_on_error : bool;
  g_reboot_mode : RebootMode; g_root_ssh_keys : list string; g_subscription_key : option string;
}.
(** [pinning] is [Some] with an empty mapping, or [None]. *)
Inductive NetworkConfig :=
| FromDhcp (pinning : bool)
| FromAnswer (net_cidr : Cidr) (net_dns net_gateway : IpAddr) (net_filter : gmap string string) (pinning : bool).
Record DiskSetup := {
  d_filesystem : Filesystem; d_disk_list : list string; d_filter : gmap string string; d_filter_match : option FilterMatch;
  d_zfs : option ZfsOptions; d_lvm : option LvmOptions; d_btrfs : option BtrfsOptions;
}.
Record PostNotificationHookInfo := { hook_url : string; cert_fingerprint : option string; auth_token : option string }.
Record AutoInstallerConfig := {
  global : GlobalOptions;
  network : NetworkConfig;
  disks : DiskSetup;
  post_installation_webhook : option PostNotificationHookInfo;
}.
End types.

(** * Automated installations: files

    lib/pdm-config/src/auto_install.rs: a file per installation, with the migration of the older
    single file; the prepared configurations; the tokens with the hashes of their secrets in a
    shadow file.  The section config format is [SectionData], the JSON forms are [InstallJson].
    A [PropertyString] only changes the text form, so a prepared configuration is the same record
    in the file and in the API. *)

#[local] Open Scope string_scope.

(** [http_bail] *)
Definition http_bail {A} (status msg : string) : IO A := fail (Error OtherIo [status; msg]).
Definition bail {A} (msg : string) : IO A := fail (Error OtherIo [msg]).

(** [let _lock = ..] keeps the [Result] of taking the lock, so a failure is ignored. *)
Definition ignored_lock : IO () := _ ← attempt syscall; mret ().

Definition PREPARED_CONF_FILE : string := "autoinst/prepared.cfg".
Definition TOKENS_CONF_FILE : string := "autoinst/tokens.cfg".
Definition TOKENS_SHADOW_FILE : string := "autoinst/tokens.shadow".
Definition INSTALLATIONS_STATE_DIR : string := "automated-installations/".
Definition INSTALLATIONS_LEGACY_FILE : string := "automated-installations.json".
Definition INSTALLATIONS_BROKEN_FILE : string := INSTALLATIONS_LEGACY_FILE ++ ".broken".
Definition installation_state_path (uuid : string) : string := INSTALLATIONS_STATE_DIR ++ (uuid ++ ".json").

Section files.
Context `{InstallEnv}.

(** [serde_json] of installations and of the shadow file *)
Class InstallJson := {
  inst_to_string : Installation → option file;
  inst_from_str : file → option Installation;
  legacy_from_str : file → option (list Installation);
  shadow_to_string : gmap string string → option file;
  shadow_from_str : file → option (gmap string string);
}.
Class InstallJsonLaws `{InstallJson} : Prop := {
  inst_roundtrip i f : inst_to_string i = Some f → inst_from_str f = Some i;
  shadow_roundtrip m f : shadow_to_string m = Some f → shadow_from_str f = Some m;
}.
Context `{InstallJson}.

Definition or_bail {A} (o : option A) (msg : string) : IO A :=
  match o with Some a => mret a | None => bail msg end.

(** ** Installations *)
Definition save_installation (i : Installation) : IO () :=
  _ ← syscall; (* create_dir_all *)
  raw ← or_bail (inst_to_string i) "serialize";
  fs_replace (installation_state_path (inst_uuid i)) raw.

Definition migrate_one (i : Installation) : IO () :=
  let path := installation_state_path (inst_uuid i) in
  exists_ ← path_exists path;
  if (exists_ : bool) then mret ()
  else raw ← or_bail (inst_to_string i) "serialize"; fs_replace path raw.
Definition migrate_legacy_installations_file : IO () :=
  o ← file_read_optional_string INSTALLATIONS_LEGACY_FILE;
  match o with
  | None => mret ()
  | Some raw =>
      match legacy_from_str raw with
      | None => fs_rename INSTALLATIONS_LEGACY_FILE INSTALLATIONS_BROKEN_FILE
      | Some installations =>
          _ ← syscall; (* create_dir_all *)
          _ ← for_each installations migrate_one;
          fs_remove INSTALLATIONS_LEGACY_FILE
      end
  end.

(** [path.extension() == Some("json")] for an entry of the directory *)
Definition has_json_extension (entry : string) : bool :=
  match strip_suffix ".json" entry with Some stem => negb (is_empty stem) | None => false end.
Definition state_entries (names : list string) : list string :=
  filter_map (λ n, match strip_prefix INSTALLATIONS_STATE_DIR n with
                   | Some entry => if has_json_extension entry then Some n else None
                   | None => None
                   end) names.
Fixpoint read_states (names : list string) : IO (list Installation) :=
  match names with
  | [] => mret []
  | n :: names =>
      raw ← fs_open n;
      i ← or_bail (inst_from_str raw) "parse";
      l ← read_states names; mret (i :: l)
  end.
Definition by_uuid (a b : Installation) : comparison := String.compare (inst_uuid a) (inst_uuid b).
Definition read_installations : IO (list Installation) :=
  _ ← migrate_legacy_installations_file;
  names ← fs_read_dir;
  l ← read_states (state_entries names);
  mret (sort_by by_uuid l).

Definition remove_installation (uuid : string) : IO bool :=
  r ← attempt (fs_remove (installation_state_path uuid));
  match r with
  | Ok _ => mret true
  | Err (Error NotFound _) => mret false
  | Err e => fail e
  end.

(** ** Prepared configurations *)
Context `{SectionData PreparedInstallationConfig, SectionData AnswerToken}.

Definition read_prepared_answers : IO (sec_data PreparedInstallationConfig * file) :=
  read_section (T := PreparedInstallationConfig) PREPARED_CONF_FILE.
Definition save_prepared_answers (c : sec_data PreparedInstallationConfig) : IO () :=
  write_section PREPARED_CONF_FILE c.

(** ** Tokens *)
Definition read_tokens : IO (sec_data AnswerToken * file) := read_section (T := AnswerToken) TOKENS_CONF_FILE.
Definition write_tokens (c : sec_data AnswerToken) : IO () := write_section TOKENS_CONF_FILE c.
Definition read_token_shadow : IO (gmap string string) :=
  o ← file_read_optional_string TOKENS_SHADOW_FILE;
  match o with None => mret ∅ | Some raw => or_bail (shadow_from_str raw) "parse" end.
Definition write_token_shadow (m : gmap string string) : IO () :=
  raw ← or_bail (shadow_to_string m) "serialize";
  fs_replace TOKENS_SHADOW_FILE raw.

Definition add_token (t : AnswerToken) (value : string) : IO () :=
  p ← read_tokens;
  match sec_get p.1 (tok_id t) with
  | Some _ => bail "token already exists"
  | None =>
      _ ← write_tokens (sec_insert p.1 (tok_id t) t);
      shadow ← read_token_shadow;
      hashed ← or_bail (encrypt_pw value) "encrypt";
      write_token_shadow (<[tok_id t := hashed]> shadow)
  end.
(** [update_token] of pdm_config *)
Definition replace_token (t : AnswerToken) : IO () :=
  p ← read_tokens;
  match sec_get p.1 (tok_id t) with
  | None => bail ("unknown token: " ++ tok_id t)
  | Some _ => write_tokens (sec_insert p.1 (tok_id t) t)
  end.
Definition update_token_shadow (id secret : string) : IO () :=
  shadow ← read_token_shadow;
  match shadow !! id with
  | None => bail ("unknown token: " ++ id)
  | Some _ =>
      hashed ← or_bail (encrypt_pw secret) "encrypt";
      write_token_shadow (<[id := hashed]> shadow)
  end.
(** [delete_token] of pdm_config *)
Definition remove_token (id : string) : IO () :=
  p ← read_tokens;
  match sec_get p.1 id with
  | None => bail ("unknown token: " ++ id)
  | Some _ =>
      _ ← write_tokens (sec_remove p.1 id);
      shadow ← read_token_shadow;
      write_token_shadow (delete id shadow)
  end.
Definition verify_secret (id secret : string) : IO () :=
  shadow ← read_token_shadow;
  match shadow !! id with
  | Some hashed => if verify_crypt_pw secret hashed then mret () else bail "invalid access secret"
  | None => bail "invalid access secret"
  end.
End files.
