(* ===== verification/AutoInstaller.v ===== *)
(** * Rendering an answer

    [render_prepared_config] of server/src/api/auto_installer/mod.rs: the answer for a machine
    from the prepared configuration chosen for it.
    The second part has the handlers. *)
From S2P Require Import Prelude RustStr Remotes Disk ApiCache RemotesConfig AutoInstallConfig.

#[local] Open Scope string_scope.

Section render.
Context `{InstallEnv}.

(** [char::is_control] on UTF-8: C0, DEL, and C1 as a two byte character *)
Definition is_control (c : string) : bool :=
  match c with
  | String a "" => in_range "000" "031" a || Ascii.eqb a "127"
  | String a (String b "") => Ascii.eqb a "194" && in_range "128" "159" b
  | _ => false
  end.
Definition has_control (s : string) : bool := existsb is_control (chars s).

Definition ok_or {A} (o : option A) (msg : string) : result string A :=
  match o with Some a => Ok a | None => Err msg end.

(** The closure [render]; [sysinfo] with the counters is the context of the templates. *)
Definition render (conf : PreparedInstallationConfig) (sysinfo : SystemInfo) (name tmpl : string) : result string string :=
  rendered ← ok_or (render_named_str tmpl sysinfo (template_counters conf)) ("cannot render " ++ name);
  if has_control rendered then Err ("rendered '" ++ name ++ "' contains control characters") else Ok rendered.

Definition render_required {A} (conf : PreparedInstallationConfig) (sysinfo : SystemInfo) (name : string)
    (field : option string) (parse : string → option A) : result string A :=
  tmpl ← ok_or field ("no " ++ name);
  s ← render conf sysinfo name tmpl;
  ok_or (parse s) ("rendered '" ++ name ++ "' is not valid").
(** An address without a netmask is refused. *)
Definition cidr_with_netmask (s : string) : option Cidr := if has_char "/" s then parse_cidr s else None.

Definition render_fqdn (conf : PreparedInstallationConfig) (sysinfo : SystemInfo) : result string FqdnConfig :=
  if use_dhcp_fqdn conf then Ok FqdnFromDhcp
  else s ← render conf sysinfo "fqdn" (fqdn conf); f ← ok_or (fqdn_from s) "invalid fqdn"; Ok (FqdnSimple f).
Definition render_network (conf : PreparedInstallationConfig) (sysinfo : SystemInfo) : result string NetworkConfig :=
  if use_dhcp_network conf then Ok (FromDhcp (netif_name_pinning_enabled conf))
  else
    cidr ← render_required conf sysinfo "cidr" (cidr conf) cidr_with_netmask;
    dns ← render_required conf sysinfo "dns" (dns conf) parse_ip;
    gateway ← render_required conf sysinfo "gateway" (gateway conf) parse_ip;
    Ok (FromAnswer cidr dns gateway (netdev_filter conf) (netif_name_pinning_enabled conf)).
Definition disk_setup (conf : PreparedInstallationConfig) : DiskSetup :=
  let '(list, filter) := if bool_decide (disk_mode conf = Fixed) then (disk_list conf, ∅) else ([], disk_filter conf) in
  {| d_filesystem := match filesystem conf with Ext4 _ => FsExt4 | Xfs _ => FsXfs | Zfs _ => FsZfs | Btrfs _ => FsBtrfs end;
     d_disk_list := list; d_filter := filter; d_filter_match := disk_filter_match conf;
     d_zfs := match filesystem conf with Zfs o => Some o | _ => None end;
     d_lvm := match filesystem conf with Ext4 o | Xfs o => Some o | _ => None end;
     d_btrfs := match filesystem conf with Btrfs o => Some o | _ => None end |}.

(** The answer has no first-boot hook, and no webhook yet. *)
Definition render_prepared_config (conf : PreparedInstallationConfig) (sysinfo : SystemInfo) : result string AutoInstallerConfig :=
  fqdn ← render_fqdn conf sysinfo;
  mailto ← render conf sysinfo "mailto" (mailto conf);
  let global := {| g_country := country conf; g_fqdn := fqdn; g_keyboard := keyboard conf; g_mailto := mailto;
                   g_timezone := timezone conf; g_root_password := None; g_root_password_hashed := root_password_hashed conf;
                   g_reboot_on_error := reboot_on_error conf; g_reboot_mode := reboot_mode conf;
                   g_root_ssh_keys := root_ssh_keys conf; g_subscription_key := subscription_key conf |} in
  network ← render_network conf sysinfo;
  Ok {| global := global; network := network; disks := disk_setup conf; post_installation_webhook := None |}.
End render.

(** * Automated installations: handlers

    server/src/api/auto_installer/mod.rs: the machines that ask for an answer, the callback
    after an installation, and the handlers on installations, prepared configurations and
    tokens.  The time, random data and the ids that are generated are arguments. *)

#[local] Open Scope string_scope.

Section handlers.
Context `{InstallEnv, !InstallJson, !SectionData PreparedInstallationConfig, !SectionData AnswerToken}.
(** SHA-256 of a file *)
Context (digest_of : file → string).
Abbreviation prepared_data := (sec_data PreparedInstallationConfig).
Implicit Types (p : PreparedInstallationConfig) (t : AnswerToken).

Definition detect_modification (digest : option string) (f : file) : IO () :=
  match digest with
  | Some d => if String.eqb d (digest_of f) then mret () else bail "detected modified configuration"
  | None => mret ()
  end.
Definition from_result {A} (r : result string A) : IO A :=
  match r with Ok a => mret a | Err msg => bail msg end.

(** ** Tokens *)
Definition list_tokens : IO (list AnswerToken * string) :=
  c ← read_tokens; mret ((sec_list c.1).*2, digest_of c.2).

(** [user] is the user of the caller, if the request has a valid authid; [secret] the new uuid. *)
Definition create_token (user : option string) (id : string) (comment : option string) (enabled : option bool)
    (expire_at : option Z) (secret : string) : IO AnswerTokenCreateResult :=
  _ ← ignored_lock;
  user ← or_bail user "no authid";
  let t := {| tok_id := id; created_by := user; comment := comment; enabled := enabled; expire_at := expire_at |} in
  _ ← context "failed to create new token" (add_token t secret);
  mret {| created_token := t; created_secret := secret |}.

(** [random] are the four bytes in hexadecimal. *)
Definition generate_token (user : option string) (config_id : string) (random : option string) (secret : string)
    : IO AnswerTokenCreateResult :=
  random ← or_bail random "no random data";
  create_token user (config_id ++ "-" ++ random) (Some "Automatically generated.") (Some true) None secret.

Definition delete_token_property (t : AnswerToken) (d : DeletableAnswerTokenProperty) : AnswerToken :=
  match d with
  | DelComment => {| tok_id := tok_id t; created_by := created_by t; comment := None; enabled := enabled t; expire_at := expire_at t |}
  | DelExpireAt => {| tok_id := tok_id t; created_by := created_by t; comment := comment t; enabled := enabled t; expire_at := None |}
  end.
Definition apply_token_updater (u : AnswerTokenUpdater) (t : AnswerToken) : AnswerToken :=
  let or_else {A} (new old : option A) := match new with Some a => Some a | None => old end in
  {| tok_id := tok_id t; created_by := created_by t; comment := or_else (ut_comment u) (comment t);
     enabled := or_else (ut_enabled u) (enabled t); expire_at := or_else (ut_expire_at u) (expire_at t) |}.
Definition update_token (id : string) (u : AnswerTokenUpdater) (del : option (list DeletableAnswerTokenProperty))
    (regenerate_secret : bool) (digest : option string) (secret : string) : IO AnswerTokenUpdateResult :=
  _ ← ignored_lock;
  c ← read_tokens;
  _ ← detect_modification digest c.2;
  match sec_get c.1 id with
  | None => http_bail "NOT_FOUND" ("no such access token: " ++ id)
  | Some t =>
      let t := apply_token_updater u (foldl delete_token_property t (default [] del)) in
      if regenerate_secret then
        _ ← remove_token (tok_id t);
        _ ← add_token t secret;
        mret {| updated_token := t; updated_secret := Some secret |}
      else
        _ ← context "failed to update token" (replace_token t);
        mret {| updated_token := t; updated_secret := None |}
  end.

(** The use of the token is checked before the lock is taken. *)
Definition token_used (id : string) (c : prepared_data) : bool :=
  existsb (λ q, bool_decide (id ∈ authorized_tokens q.2)) (sec_list c).
Definition delete_token (id : string) : IO () :=
  c ← read_prepared_answers;
  if token_used id c.1 then http_bail "CONFLICT" "token still in use by answer configurations"
  else _ ← ignored_lock; remove_token id.

(** ** Prepared configurations *)
Definition without_password p : PreparedInstallationConfig := {|
  pc_id := pc_id p; authorized_tokens := authorized_tokens p; is_default := is_default p; target_filter := target_filter p;
  country := country p; fqdn := fqdn p; use_dhcp_fqdn := use_dhcp_fqdn p; keyboard := keyboard p; mailto := mailto p;
  timezone := timezone p; root_password_hashed := None; reboot_on_error := reboot_on_error p; reboot_mode := reboot_mode p;
  root_ssh_keys := root_ssh_keys p; use_dhcp_network := use_dhcp_network p; cidr := cidr p; gateway := gateway p; dns := dns p;
  netdev_filter := netdev_filter p; netif_name_pinning_enabled := netif_name_pinning_enabled p; filesystem := filesystem p;
  disk_mode := disk_mode p; disk_list := disk_list p; disk_filter := disk_filter p; disk_filter_match := disk_filter_match p;
  post_hook_base_url := post_hook_base_url p; post_hook_cert_fp := post_hook_cert_fp p;
  template_counters := template_counters p; subscription_key := subscription_key p |}.

Definition list_prepared_answers : IO (list PreparedInstallationConfig * string) :=
  c ← read_prepared_answers; mret (without_password <$> (sec_list c.1).*2, digest_of c.2).
Definition get_prepared_answer (id : string) : IO PreparedInstallationConfig :=
  c ← read_prepared_answers;
  match sec_get c.1 id with
  | Some p => mret (without_password p)
  | None => http_bail "NOT_FOUND" ("no such prepared answer configuration: " ++ id)
  end.
Definition delete_prepared_answer (id : string) : IO () :=
  _ ← ignored_lock;
  c ← read_prepared_answers;
  match sec_get c.1 id with
  | None => http_bail "NOT_FOUND" ("no such entry " ++ id)
  | Some _ => save_prepared_answers (sec_remove c.1 id)
  end.

Definition validate_udev_filter_map (m : gmap string string) : IO () :=
  if forallb (λ q, udev_filter_key q.1) (map_to_list m) then mret () else http_bail "BAD_REQUEST" "invalid udev filter key".
Definition validate_template_map (m : gmap string Z) : IO () :=
  if forallb (λ q, template_counter_name q.1 && negb (q.2 <? 0)%Z) (map_to_list m) then mret ()
  else http_bail "BAD_REQUEST" "invalid template counter".

(** Is there a default answer other than [id]? *)
Definition other_default (id : option string) (c : prepared_data) : bool :=
  existsb (λ q, is_default q.2 && negb (bool_decide (Some (pc_id q.2) = id))) (sec_list c).
Definition never_matches p : bool := negb (is_default p) && bool_decide (target_filter p = ∅).
Definition bad_default_conflict {A} : IO A := http_bail "CONFLICT" "there already is a default answer".
Definition bad_never_matches {A} : IO A := http_bail "BAD_REQUEST" "non-default answer requires at least one target-filter entry".

Definition with_password (hash : string) p : PreparedInstallationConfig := {|
  pc_id := pc_id p; authorized_tokens := authorized_tokens p; is_default := is_default p; target_filter := target_filter p;
  country := country p; fqdn := fqdn p; use_dhcp_fqdn := use_dhcp_fqdn p; keyboard := keyboard p; mailto := mailto p;
  timezone := timezone p; root_password_hashed := Some hash; reboot_on_error := reboot_on_error p; reboot_mode := reboot_mode p;
  root_ssh_keys := root_ssh_keys p; use_dhcp_network := use_dhcp_network p; cidr := cidr p; gateway := gateway p; dns := dns p;
  netdev_filter := netdev_filter p; netif_name_pinning_enabled := netif_name_pinning_enabled p; filesystem := filesystem p;
  disk_mode := disk_mode p; disk_list := disk_list p; disk_filter := disk_filter p; disk_filter_match := disk_filter_match p;
  post_hook_base_url := post_hook_base_url p; post_hook_cert_fp := post_hook_cert_fp p;
  template_counters := template_counters p; subscription_key := subscription_key p |}.
Definition with_tokens (tokens : list string) p : PreparedInstallationConfig := {|
  pc_id := pc_id p; authorized_tokens := tokens; is_default := is_default p; target_filter := target_filter p;
  country := country p; fqdn := fqdn p; use_dhcp_fqdn := use_dhcp_fqdn p; keyboard := keyboard p; mailto := mailto p;
  timezone := timezone p; root_password_hashed := root_password_hashed p; reboot_on_error := reboot_on_error p; reboot_mode := reboot_mode p;
  root_ssh_keys := root_ssh_keys p; use_dhcp_network := use_dhcp_network p; cidr := cidr p; gateway := gateway p; dns := dns p;
  netdev_filter := netdev_filter p; netif_name_pinning_enabled := netif_name_pinning_enabled p; filesystem := filesystem p;
  disk_mode := disk_mode p; disk_list := disk_list p; disk_filter := disk_filter p; disk_filter_match := disk_filter_match p;
  post_hook_base_url := post_hook_base_url p; post_hook_cert_fp := post_hook_cert_fp p;
  template_counters := template_counters p; subscription_key := subscription_key p |}.
Definition with_counters (counters : gmap string Z) p : PreparedInstallationConfig := {|
  pc_id := pc_id p; authorized_tokens := authorized_tokens p; is_default := is_default p; target_filter := target_filter p;
  country := country p; fqdn := fqdn p; use_dhcp_fqdn := use_dhcp_fqdn p; keyboard := keyboard p; mailto := mailto p;
  timezone := timezone p; root_password_hashed := root_password_hashed p; reboot_on_error := reboot_on_error p; reboot_mode := reboot_mode p;
  root_ssh_keys := root_ssh_keys p; use_dhcp_network := use_dhcp_network p; cidr := cidr p; gateway := gateway p; dns := dns p;
  netdev_filter := netdev_filter p; netif_name_pinning_enabled := netif_name_pinning_enabled p; filesystem := filesystem p;
  disk_mode := disk_mode p; disk_list := disk_list p; disk_filter := disk_filter p; disk_filter_match := disk_filter_match p;
  post_hook_base_url := post_hook_base_url p; post_hook_cert_fp := post_hook_cert_fp p;
  template_counters := counters; subscription_key := subscription_key p |}.

(** [random] and [secret] are for a token that is generated when none is given. *)
Definition create_prepared_answer (user : option string) (random : option string) (secret : string)
    (config : PreparedInstallationConfig) (root_password : option string) : IO PreparedInstallationConfigCreateResult :=
  _ ← ignored_lock;
  c ← read_prepared_answers;
  match sec_get c.1 (pc_id config) with
  | Some _ => http_bail "CONFLICT" ("configuration with ID " ++ pc_id config ++ " already exists")
  | None =>
      _ ← (if is_default config then if other_default None c.1 then bad_default_conflict else mret ()
           else if never_matches config then bad_never_matches else mret ());
      config ← match root_password with
               | Some password => hash ← or_bail (encrypt_pw password) "encrypt"; mret (with_password hash config)
               | None => match root_password_hashed config with
                         | None => http_bail "BAD_REQUEST" "either `root-password` or `root-password-hashed` must be set"
                         | Some _ => mret config
                         end
               end;
      '(config, token) ← (if bool_decide (authorized_tokens config = []) then
                            t ← generate_token user (pc_id config) random secret;
                            mret (with_tokens [tok_id (created_token t)] config, Some t)
                          else mret (config, None));
      _ ← validate_udev_filter_map (netdev_filter config);
      _ ← validate_udev_filter_map (disk_filter config);
      _ ← validate_template_map (template_counters config);
      _ ← save_prepared_answers (sec_insert c.1 (pc_id config) config);
      mret {| result_config := without_password config; result_token := token |}
  end.

Definition delete_property p (d : DeletablePreparedInstallationConfigProperty) : PreparedInstallationConfig :=
  let '(target, netdev, disk, keys) := match d with
    | DelTargetFilter => (∅, netdev_filter p, disk_filter p, root_ssh_keys p)
    | DelNetdevFilter => (target_filter p, ∅, disk_filter p, root_ssh_keys p)
    | DelDiskFilter => (target_filter p, netdev_filter p, ∅, root_ssh_keys p)
    | DelRootSshKeys => (target_filter p, netdev_filter p, disk_filter p, [])
    | _ => (target_filter p, netdev_filter p, disk_filter p, root_ssh_keys p)
    end in
  let '(url, fp, counters, key) := match d with
    | DelPostHookBaseUrl => (None, post_hook_cert_fp p, template_counters p, subscription_key p)
    | DelPostHookCertFp => (post_hook_base_url p, None, template_counters p, subscription_key p)
    | DelTemplateCounters => (post_hook_base_url p, post_hook_cert_fp p, ∅, subscription_key p)
    | DelSubscriptionKey => (post_hook_base_url p, post_hook_cert_fp p, template_counters p, None)
    | _ => (post_hook_base_url p, post_hook_cert_fp p, template_counters p, subscription_key p)
    end in
  {|
  pc_id := pc_id p; authorized_tokens := authorized_tokens p; is_default := is_default p; target_filter := target;
  country := country p; fqdn := fqdn p; use_dhcp_fqdn := use_dhcp_fqdn p; keyboard := keyboard p; mailto := mailto p;
  timezone := timezone p; root_password_hashed := root_password_hashed p; reboot_on_error := reboot_on_error p;
  reboot_mode := reboot_mode p; root_ssh_keys := keys; use_dhcp_network := use_dhcp_network p; cidr := cidr p;
  gateway := gateway p; dns := dns p; netdev_filter := netdev;
  netif_name_pinning_enabled := netif_name_pinning_enabled p; filesystem := filesystem p; disk_mode := disk_mode p;
  disk_list := disk_list p; disk_filter := disk; disk_filter_match := disk_filter_match p; post_hook_base_url := url;
  post_hook_cert_fp := fp; template_counters := counters; subscription_key := key |}.

(** The fields an update sets, apart from the password *)
Definition apply_updater (u : PreparedInstallationConfigUpdater) p : PreparedInstallationConfig :=
  let or_else {A} (new old : option A) := match new with Some a => Some a | None => old end in
  {|
  pc_id := pc_id p; authorized_tokens := default (authorized_tokens p) (u_authorized_tokens u);
  is_default := default (is_default p) (u_is_default u); target_filter := default (target_filter p) (u_target_filter u);
  country := default (country p) (u_country u); fqdn := default (fqdn p) (u_fqdn u);
  use_dhcp_fqdn := default (use_dhcp_fqdn p) (u_use_dhcp_fqdn u); keyboard := default (keyboard p) (u_keyboard u);
  mailto := default (mailto p) (u_mailto u); timezone := default (timezone p) (u_timezone u);
  root_password_hashed := or_else (u_root_password_hashed u) (root_password_hashed p);
  reboot_on_error := default (reboot_on_error p) (u_reboot_on_error u);
  reboot_mode := default (reboot_mode p) (u_reboot_mode u);
  root_ssh_keys := default (root_ssh_keys p) (u_root_ssh_keys u);
  use_dhcp_network := default (use_dhcp_network p) (u_use_dhcp_network u); cidr := or_else (u_cidr u) (cidr p);
  gateway := or_else (u_gateway u) (gateway p); dns := or_else (u_dns u) (dns p);
  netdev_filter := default (netdev_filter p) (u_netdev_filter u);
  netif_name_pinning_enabled := default (netif_name_pinning_enabled p) (u_netif_name_pinning_enabled u);
  filesystem := default (filesystem p) (u_filesystem u); disk_mode := default (disk_mode p) (u_disk_mode u);
  disk_list := default (disk_list p) (u_disk_list u); disk_filter := default (disk_filter p) (u_disk_filter u);
  disk_filter_match := or_else (u_disk_filter_match u) (disk_filter_match p);
  post_hook_base_url := or_else (u_post_hook_base_url u) (post_hook_base_url p);
  post_hook_cert_fp := or_else (u_post_hook_cert_fp u) (post_hook_cert_fp p);
  template_counters := default (template_counters p) (u_template_counters u);
  subscription_key := or_else (u_subscription_key u) (subscription_key p) |}.

Definition on_some {A} (o : option A) (f : A → IO ()) : IO () := match o with Some a => f a | None => mret () end.
Definition update_prepared_answer (user random : option string) (secret : string) (id : string)
    (u : PreparedInstallationConfigUpdater) (root_password : option string)
    (del : option (list DeletablePreparedInstallationConfigProperty)) (digest : option string)
    : IO PreparedInstallationConfigCreateResult :=
  _ ← ignored_lock;
  c ← read_prepared_answers;
  _ ← detect_modification digest c.2;
  _ ← (if default false (u_is_default u) && other_default (Some id) c.1 then bad_default_conflict else mret ());
  match sec_get c.1 id with
  | None => http_bail "NOT_FOUND" ("no such prepared answer configuration: " ++ id)
  | Some p =>
      let p := foldl delete_property p (default [] del) in
      '(u_tokens, token) ← match u_authorized_tokens u with
                           | Some [] => t ← generate_token user (pc_id p) random secret;
                                        mret (Some [tok_id (created_token t)], Some t)
                           | tokens => mret (tokens, None)
                           end;
      hash ← match root_password with
             | Some password => h ← or_bail (encrypt_pw password) "encrypt"; mret (Some h)
             | None => mret None
             end;
      _ ← on_some (u_netdev_filter u) validate_udev_filter_map;
      _ ← on_some (u_disk_filter u) validate_udev_filter_map;
      _ ← on_some (u_template_counters u) validate_template_map;
      let p := apply_updater u p in
      let p := match u_tokens with Some l => with_tokens l p | None => p end in
      let p := match hash with Some h => with_password h p | None => p end in
      if never_matches p then bad_never_matches
      else _ ← save_prepared_answers (sec_insert c.1 id p); mret {| result_config := without_password p; result_token := token |}
  end.

(** ** A machine asks for an answer *)

(** The header has only visible ASCII characters, so lower case is that of ASCII. *)
Fixpoint to_lowercase (s : string) : string :=
  match s with
  | "" => ""
  | String c s => String (if upper c then ascii_of_nat (nat_of_ascii c + 32) else c) (to_lowercase s)
  end.
Definition bearer (header : string) : option (string * string) :=
  let '(scheme, token) := default ("", "") (split_once " " header) in
  if String.eqb (to_lowercase scheme) "bearer" then Some (default ("", "") (split_once ":" token)) else None.
Definition verify_answer_authorization_header (now : Z) (header : string) : IO (option string) :=
  match bearer header with
  | None => mret None
  | Some (id, secret) =>
      _ ← ignored_lock;
      r ← attempt read_tokens;
      match r with
      | Err _ => mret None
      | Ok c =>
          match sec_get c.1 id with
          | None => mret None
          | Some t =>
              if negb (is_active now t) then mret None
              else v ← attempt (verify_secret id secret);
                   mret (match v with Ok _ => Some id | Err _ => None end)
          end
      end
  end.

(** [find_config]: [matched] is the first answer that matches, [fallback] the last default one
    before the search ends. *)
Definition filter_matches (info : SystemInfo) (f : string * string) : bool :=
  match pointer_str info f.1 with
  | Some value => match glob_pattern f.2 with Some pattern => pattern value | None => false end
  | None => false
  end.
Fixpoint find_loop (token_id : string) (info : SystemInfo) (l : list PreparedInstallationConfig)
    (fallback matched : option PreparedInstallationConfig)
    : option PreparedInstallationConfig * option PreparedInstallationConfig :=
  match l with
  | [] => (fallback, matched)
  | p :: l =>
      if negb (bool_decide (token_id ∈ authorized_tokens p)) then find_loop token_id info l fallback matched
      else if is_default p then find_loop token_id info l (Some p) matched
      else if bool_decide (target_filter p = ∅) then find_loop token_id info l fallback matched
      else if forallb (filter_matches info) (map_to_list (target_filter p)) then
        match matched with
        | None => find_loop token_id info l fallback (Some p)
        | Some _ => (fallback, matched)
        end
      else find_loop token_id info l fallback matched
  end.
Definition find_config (token_id : string) (info : SystemInfo) : IO (option PreparedInstallationConfig) :=
  c ← read_prepared_answers;
  let '(fallback, matched) := find_loop token_id info (sec_list c.1).*2 None None in
  mret (match matched with Some p => Some p | None => fallback end).

Definition increment_template_counters (id : string) : IO () :=
  _ ← ignored_lock;
  c ← read_prepared_answers;
  match sec_get c.1 id with
  | None => http_bail "NOT_FOUND" ("no such prepared answer configuration: " ++ id)
  | Some p => save_prepared_answers (sec_insert c.1 id (with_counters ((λ v, Z.min (v + 1) (2 ^ 31 - 1)) <$> template_counters p)%Z p))
  end.

Fixpoint trim_end_slashes (s : string) : string :=
  match s with
  | "" => ""
  | String c s => match trim_end_slashes s with
                  | "" => if Ascii.eqb c "/" then "" else String c ""
                  | s => String c s
                  end
  end.
Definition with_webhook (answer : AutoInstallerConfig) (config : PreparedInstallationConfig) (uuid : string)
    (token : option string) : AutoInstallerConfig :=
  match post_hook_base_url config with
  | None => answer
  | Some base_url =>
      {| global := global answer; network := network answer; disks := disks answer;
         post_installation_webhook := Some {|
           hook_url := trim_end_slashes base_url ++ "/api2/json/auto-install/installations/" ++ uuid ++ "/post-hook";
           cert_fingerprint := post_hook_cert_fp config; auth_token := token |} |}
  end.

(** [uuid] is generated, [random] the secret of the callback if random data can be had.
    [meanwhile] is what others do to the files while the answer is rendered: the lock that is
    held is that of the installations, not of the prepared configurations. *)
Definition new_installation (meanwhile : dir → dir) (uuid : string) (now : Z) (random : option string)
    (token_id : string) (info : SystemInfo) : IO AutoInstallerConfig :=
  _ ← ignored_lock;
  o ← find_config token_id info;
  match o with
  | Some config =>
      answer ← from_result (render_prepared_config config info);
      token ← match post_hook_base_url config with
              | Some _ => r ← or_bail random "no random data"; mret (Some r)
              | None => mret None
              end;
      let status := match post_hook_base_url config with Some _ => InProgress | None => AnswerSent end in
      d ← get_disk; _ ← put_disk (meanwhile d);
      _ ← increment_template_counters (pc_id config);
      _ ← save_installation {| inst_uuid := uuid; received_at := now; inst_status := status; inst_info := info;
                               answer_id := Some (pc_id config); post_hook_data := None; post_hook_token := token |};
      mret (with_webhook answer config uuid token)
  | None =>
      _ ← save_installation {| inst_uuid := uuid; received_at := now; inst_status := NoAnswerFound; inst_info := info;
                               answer_id := None; post_hook_data := None; post_hook_token := None |};
      http_bail "NOT_FOUND" "no answer file found"
  end.

(** The answer to the machine: unauthorized, the configuration, or an error.  [payload] is the
    body of the request, if it can be deserialized. *)
Inductive http_response := Unauthorized | OkAnswer (a : AutoInstallerConfig) | BadRequest (e : error).
Definition api_function_new_installation (meanwhile : dir → dir) (uuid : string) (now : Z) (random : option string)
    (auth_header : option string) (payload : option SystemInfo) : IO http_response :=
  o ← verify_answer_authorization_header now (default "" auth_header);
  match o with
  | None => mret Unauthorized
  | Some token_id =>
      match payload with
      | None => mret (BadRequest (Error OtherIo ["failed to deserialize body"]))
      | Some info =>
          r ← attempt (new_installation meanwhile uuid now random token_id info);
          mret (match r with Ok a => OkAnswer a | Err e => BadRequest e end)
      end
  end.

(** ** Installations *)
Definition without_token (i : Installation) : Installation := {|
  inst_uuid := inst_uuid i; received_at := received_at i; inst_status := inst_status i; inst_info := inst_info i;
  answer_id := answer_id i; post_hook_data := post_hook_data i; post_hook_token := None |}.
Definition list_installations : IO (list Installation) :=
  _ ← ignored_lock; l ← read_installations; mret (without_token <$> l).
Definition delete_installation (uuid : string) : IO () :=
  _ ← ignored_lock;
  removed ← remove_installation uuid;
  if (removed : bool) then mret () else http_bail "NOT_FOUND" "no such entry".

Definition awaits_hook (uuid : string) (i : Installation) : bool :=
  String.eqb (inst_uuid i) uuid && bool_decide (inst_status i = InProgress) &&
  match post_hook_data i with None => true | Some _ => false end.
Definition finish_installation (info : PostHookInfo) (i : Installation) : Installation := {|
  inst_uuid := inst_uuid i; received_at := received_at i; inst_status := Finished; inst_info := inst_info i;
  answer_id := answer_id i; post_hook_data := Some info; post_hook_token := None |}.
Definition handle_post_hook (uuid token : string) (info : PostHookInfo) : IO () :=
  _ ← ignored_lock;
  l ← read_installations;
  match find (awaits_hook uuid) l with
  | None => http_bail "NOT_FOUND" "installation not found"
  | Some install =>
      let stored := default "" (post_hook_token install) in
      if is_empty stored || negb (String.eqb stored token) then http_bail "NOT_FOUND" "installation not found"
      else save_installation (finish_installation info install)
  end.
End handlers.
