(* ===== verification/AutoInstallFacts.v ===== *)
(** * Automated installations: lemmas

    Calls that only read ([reader]) and calls that change only some files ([only]); what the
    search for a configuration and the check of a token find; the invariant of the prepared
    configurations.
    The second part shows that the handlers keep the prepared configurations valid. *)
From S2P Require Import Prelude RustStr Remotes Disk ApiCache RemotesConfig AutoInstallConfig AutoInstaller.

#[local] Open Scope list_scope.

Lemma reader_ignored_lock : reader ignored_lock (λ _ _, True).
Proof. apply (reader_bind _ _ (λ _ _, True)); [| by intros a w]. eapply reader_weaken; [apply reader_attempt, reader_syscall | done]. Qed.
Lemma reader_section {T} `{SectionData T} name :
  reader (read_section (T := T) name) (λ d p, section_on (T := T) name d = Some p.1 ∧ p.2 = default [] (d !! name)).
Proof.
  unfold read_section. eapply reader_bind; [apply reader_optional |]. intros o. cbv zeta.
  destruct (sec_parse (default [] o)) as [c|] eqn:E; [| apply reader_fail].
  eapply reader_weaken; [apply reader_ret |]. intros d p -> ->. by unfold section_on.
Qed.

Section install.
Context `{InstallEnv, !InstallJson, !SectionData PreparedInstallationConfig, !SectionData AnswerToken}.

Lemma reader_or_bail {A} (o : option A) msg : reader (or_bail o msg) (λ _ a, o = Some a).
Proof. destruct o; simpl; [eapply reader_weaken; [apply reader_ret |]; by intros _ ? -> | apply reader_fail]. Qed.
Lemma reader_http_bail {A} status msg (R : dir → A → Prop) : reader (http_bail status msg) R.
Proof. apply reader_fail. Qed.
Lemma reader_bail {A} msg (R : dir → A → Prop) : reader (bail msg) R.
Proof. apply reader_fail. Qed.
Lemma reader_from_result {A} (r : result string A) : reader (from_result r) (λ _ a, r = Ok a).
Proof. destruct r; simpl; [eapply reader_weaken; [apply reader_ret |]; by intros _ ? -> | apply reader_fail]. Qed.
Lemma reader_if_bail (b : bool) (m : IO ()) : (∀ R, reader m R) → reader (if b then m else mret ()) (λ _ _, b = false).
Proof. intros Hm. destruct b; [apply Hm | eapply reader_weaken; [apply reader_ret |]; done]. Qed.
Lemma reader_detect digest_of digest f : reader (detect_modification digest_of digest f) (λ _ _, True).
Proof. unfold detect_modification. destruct digest as [d|]; [destruct (String.eqb _ _) |]; first [apply reader_fail | by intros w]. Qed.

Definition shadow_on (d : dir) : option (gmap string string) :=
  match d !! TOKENS_SHADOW_FILE with None => Some ∅ | Some f => shadow_from_str f end.
Lemma reader_shadow : reader read_token_shadow (λ d m, shadow_on d = Some m).
Proof.
  eapply reader_bind; [apply reader_optional |]. intros o. unfold shadow_on. destruct o as [f|]; simpl.
  - eapply reader_weaken; [apply reader_or_bail |]. by intros d m Hf <-.
  - eapply reader_weaken; [apply reader_ret |]. by intros d m -> <-.
Qed.

Definition prepared_on (d : dir) : option (sec_data PreparedInstallationConfig) := section_on PREPARED_CONF_FILE d.
Definition tokens_on (d : dir) : option (sec_data AnswerToken) := section_on TOKENS_CONF_FILE d.

(** ** The check of the token *)
Definition authenticated (d : dir) (now : Z) (header id : string) : Prop :=
  ∃ secret c t m hash, bearer header = Some (id, secret) ∧
    tokens_on d = Some c ∧ sec_get c id = Some t ∧ is_active now t = true ∧
    shadow_on d = Some m ∧ m !! id = Some hash ∧ verify_crypt_pw secret hash = true.

Lemma reader_verify_secret id secret :
  reader (verify_secret id secret) (λ d _, ∃ m hash, shadow_on d = Some m ∧ m !! id = Some hash ∧ verify_crypt_pw secret hash = true).
Proof.
  eapply reader_bind; [apply reader_shadow |]. intros m. destruct (m !! id) as [hash|] eqn:Hh; [| apply reader_fail].
  destruct (verify_crypt_pw secret hash) eqn:Hv; [| apply reader_fail].
  eapply reader_weaken; [apply reader_ret |]. intros d a _ Hm. eauto.
Qed.

Lemma verify_reader now header :
  reader (verify_answer_authorization_header now header) (λ d o, ∀ id, o = Some id → authenticated d now header id).
Proof.
  unfold verify_answer_authorization_header. destruct (bearer header) as [[id secret]|] eqn:Hb; last first.
  { eapply reader_weaken; [apply reader_ret |]. by intros d o ->. }
  eapply reader_bind; [apply reader_ignored_lock |]. intros [].
  eapply reader_bind; [apply reader_attempt, reader_section |]. intros [c | e]; last first.
  { eapply reader_weaken; [apply reader_ret |]. by intros d o ->. }
  destruct (sec_get c.1 id) as [t|] eqn:Ht; last first.
  { eapply reader_weaken; [apply reader_ret |]. by intros d o ->. }
  destruct (is_active now t) eqn:Ha; simpl; last first.
  { eapply reader_weaken; [apply reader_ret |]. by intros d o ->. }
  eapply reader_bind; [apply reader_attempt, reader_verify_secret |]. intros v.
  eapply reader_weaken; [apply reader_ret |]. intros d o Ho Hv [Hc _] _ id' Hid. simpl in Ho. subst o.
  destruct v; simplify_eq. destruct Hv as (m & hash & ?). by exists secret, c.1, t, m, hash.
Qed.

(** ** The search for a configuration *)
Definition authorises (token_id : string) (p : PreparedInstallationConfig) : bool := bool_decide (token_id ∈ authorized_tokens p).
Definition specific (token_id : string) (info : SystemInfo) (p : PreparedInstallationConfig) : bool :=
  authorises token_id p && negb (is_default p) && negb (bool_decide (target_filter p = ∅)) &&
  forallb (filter_matches info) (map_to_list (target_filter p)).
Definition fallback (token_id : string) (p : PreparedInstallationConfig) : bool := authorises token_id p && is_default p.
(** The first configuration for the token that matches the machine, or else the last default one for the token *)
Definition chosen (token_id : string) (info : SystemInfo) (l : list PreparedInstallationConfig) : option PreparedInstallationConfig :=
  match find (specific token_id info) l with
  | Some p => Some p
  | None => find (fallback token_id) (rev l)
  end.

Lemma find_app {A} (f : A → bool) l1 l2 : find f (l1 ++ l2) = match find f l1 with Some a => Some a | None => find f l2 end.
Proof. induction l1 as [|a l1 IH]; simpl; [done |]. by destruct (f a). Qed.

Lemma find_loop_chosen token_id info l fb m :
  let r := find_loop token_id info l fb m in
  match r.2 with Some p => Some p | None => r.1 end
  = match m with
    | Some p => Some p
    | None => match chosen token_id info l with Some p => Some p | None => fb end
    end.
Proof.
  cbv zeta. unfold chosen. revert fb m. induction l as [|p l IH]; intros fb m; [by destruct m |].
  cbn [find_loop find rev]. rw find_app. cbn [find].
  change (bool_decide (token_id ∈ authorized_tokens p)) with (authorises token_id p).
  assert (specific token_id info p = authorises token_id p && negb (is_default p) && negb (bool_decide (target_filter p = ∅)) &&
    forallb (filter_matches info) (map_to_list (target_filter p))) as -> by done.
  assert (fallback token_id p = authorises token_id p && is_default p) as -> by done.
  destruct (authorises token_id p); simpl; [| rw IH; by destruct m, (find (specific token_id info) l), (find (fallback token_id) (rev l))].
  destruct (is_default p); simpl; [rw IH; by destruct m, (find (specific token_id info) l), (find (fallback token_id) (rev l)) |].
  destruct (bool_decide (target_filter p = ∅)); simpl; [rw IH; by destruct m, (find (specific token_id info) l), (find (fallback token_id) (rev l)) |].
  destruct (forallb _ _); simpl; [| rw IH; by destruct m, (find (specific token_id info) l), (find (fallback token_id) (rev l))].
  destruct m; [done |]. by rw IH.
Qed.

Lemma reader_find_config token_id info :
  reader (find_config token_id info) (λ d o, ∃ c, prepared_on d = Some c ∧ o = chosen token_id info (sec_list c).*2).
Proof.
  eapply reader_bind; [apply reader_section |]. intros c. pose proof (find_loop_chosen token_id info (sec_list c.1).*2 None None) as Hl.
  cbv zeta in Hl. destruct (find_loop token_id info (sec_list c.1).*2 None None) as [fb m]. simpl in Hl.
  eapply reader_weaken; [apply reader_ret |]. intros d o -> [Hc _]. exists c.1. split; [done |]. rw Hl.
  by destruct (chosen token_id info (sec_list c.1).*2).
Qed.

(** ** The prepared configurations *)
Record config_ok (p : PreparedInstallationConfig) : Prop := {
  co_filter : is_default p = false → target_filter p ≠ ∅;
  co_tokens : authorized_tokens p ≠ [];
  co_counters k v : template_counters p !! k = Some v → template_counter_name k = true ∧ (0 ≤ v < 2 ^ 31)%Z;
  co_udev k v : netdev_filter p !! k = Some v ∨ disk_filter p !! k = Some v → udev_filter_key k = true;
}.
(** At most one default answer, and configurations that can match *)
Record prepared_wf (c : sec_data PreparedInstallationConfig) : Prop := {
  pw_id k p : sec_get c k = Some p → pc_id p = k;
  pw_ok k p : sec_get c k = Some p → config_ok p;
  pw_default k1 k2 p1 p2 : sec_get c k1 = Some p1 → sec_get c k2 = Some p2 →
    is_default p1 = true → is_default p2 = true → k1 = k2;
}.
Definition prepared_ok (d : dir) : Prop := ∃ c, prepared_on d = Some c ∧ prepared_wf c.

Context `{!SectionLaws PreparedInstallationConfig, !SectionLaws AnswerToken}.

Lemma prepared_wf_ext c c' : (∀ k, sec_get c' k = sec_get c k) → prepared_wf c → prepared_wf c'.
Proof. intros Hc [H1 H2 H3]. split; intros *; rw !Hc; eauto. Qed.

Lemma keeps_save_prepared c : prepared_wf c → keeps prepared_ok (save_prepared_answers c).
Proof.
  intros Hwf. unfold save_prepared_answers, write_section. destruct (sec_write c) as [f|] eqn:Hw; [| apply keeps_fail].
  apply keeps_replace. intros d _. destruct (sec_parse_write _ _ Hw) as (c' & Hp & Hc'). exists c'.
  split; [| by eapply prepared_wf_ext]. unfold prepared_on, section_on. by rw lookup_insert_eq.
Qed.

Lemma prepared_wf_insert c k p :
  prepared_wf c → pc_id p = k → config_ok p →
  (is_default p = true → ∀ k' p', sec_get c k' = Some p' → is_default p' = true → k' = k) →
  prepared_wf (sec_insert c k p).
Proof.
  intros Hwf Hid Hok Hdef. split.
  - intros k' p'. rw sec_get_insert. case_decide; [by intros [= <-]; subst | by apply (pw_id _ Hwf)].
  - intros k' p'. rw sec_get_insert. case_decide; [by intros [= <-] | by apply (pw_ok _ Hwf)].
  - intros k1 k2 p1 p2. rw !sec_get_insert. do 2 case_decide; intros; simplify_eq; [done | | |].
    + symmetry. by eapply Hdef.
    + by eapply Hdef.
    + by eapply (pw_default _ Hwf).
Qed.
Lemma prepared_wf_remove c k : prepared_wf c → prepared_wf (sec_remove c k).
Proof.
  intros Hwf. split.
  - intros k' p'. rw sec_get_remove. case_decide; [done | by apply (pw_id _ Hwf)].
  - intros k' p'. rw sec_get_remove. case_decide; [done | by apply (pw_ok _ Hwf)].
  - intros k1 k2 p1 p2. rw !sec_get_remove. do 2 case_decide; [done.. |]. by eapply (pw_default _ Hwf).
Qed.

Lemma other_default_none id c : other_default id c = false → prepared_wf c →
  ∀ k p, sec_get c k = Some p → is_default p = true → id = Some k.
Proof.
  intros Ho Hwf k p Hk Hd. pose proof (pw_id _ Hwf _ _ Hk) as Hid. apply sec_get_list in Hk.
  destruct (decide (Some (pc_id p) = id)) as [<- | Hne]; [by rw Hid |]. exfalso.
  assert (other_default id c = true) as Ht; [| congruence].
  apply existsb_exists. exists (k, p). split; [by apply list_elem_of_In |]. by rw /= Hd bool_decide_false.
Qed.

Lemma reader_validate_udev m : reader (validate_udev_filter_map m) (λ _ _, ∀ k v, m !! k = Some v → udev_filter_key k = true).
Proof.
  unfold validate_udev_filter_map. destruct (forallb _ _) eqn:Hf; [| apply reader_fail].
  eapply reader_weaken; [apply reader_ret |]. intros _ _ _ k v Hk%elem_of_map_to_list%list_elem_of_In.
  by apply (proj1 (forallb_forall _ _) Hf) in Hk.
Qed.
Definition counters_ok (m : gmap string Z) : Prop := ∀ k v, m !! k = Some v → template_counter_name k = true ∧ (0 ≤ v < 2 ^ 31)%Z.
Definition counters_i32 (m : gmap string Z) : Prop := ∀ k v, m !! k = Some v → (- 2 ^ 31 ≤ v < 2 ^ 31)%Z.
Lemma reader_validate_template m : counters_i32 m → reader (validate_template_map m) (λ _ _, counters_ok m).
Proof.
  intros Hi. unfold validate_template_map. destruct (forallb _ _) eqn:Hf; [| apply reader_fail].
  eapply reader_weaken; [apply reader_ret |]. intros _ _ _ k v Hk. pose proof (Hi _ _ Hk) as Hb.
  apply elem_of_map_to_list, list_elem_of_In in Hk. apply (proj1 (forallb_forall _ _) Hf), andb_true_iff in Hk as [Hn Hz]. simpl in Hz.
  split; [done | lia].
Qed.

(** Generating a token changes only the files of tokens. *)
Definition token_files : list string := [TOKENS_CONF_FILE; TOKENS_SHADOW_FILE].
Lemma only_write_section {T} `{SectionData T} S name (c : sec_data T) : name ∈ S → only S (write_section name c).
Proof. intros Hn. unfold write_section. destruct (sec_write c); [by apply only_replace | apply only_fail]. Qed.
Lemma only_write_shadow m : only token_files (write_token_shadow m).
Proof.
  apply only_bind; [eapply only_reader, reader_or_bail |]. intros f. apply only_replace. by right; left.
Qed.
Lemma only_add_token t value : only token_files (add_token t value).
Proof.
  apply only_bind; [eapply only_reader, reader_section |]. intros c. destruct (sec_get c.1 (tok_id t)); [apply only_fail |].
  apply only_bind; [apply only_write_section; by left |]. intros _. apply only_bind; [eapply only_reader, reader_shadow |]. intros m.
  apply only_bind; [eapply only_reader, reader_or_bail |]. intros h. apply only_write_shadow.
Qed.
Lemma only_remove_token id : only token_files (remove_token id).
Proof.
  apply only_bind; [eapply only_reader, reader_section |]. intros c. destruct (sec_get c.1 id); [| apply only_fail].
  apply only_bind; [apply only_write_section; by left |]. intros _. apply only_bind; [eapply only_reader, reader_shadow |]. intros m.
  apply only_write_shadow.
Qed.
Lemma only_replace_token t : only token_files (replace_token t).
Proof.
  apply only_bind; [eapply only_reader, reader_section |]. intros c. destruct (sec_get c.1 (tok_id t)); [| apply only_fail].
  apply only_write_section. by left.
Qed.
Lemma only_create_token user id cm en ex secret : only token_files (create_token user id cm en ex secret).
Proof.
  apply only_bind; [eapply only_reader, reader_ignored_lock |]. intros []. apply only_bind; [eapply only_reader, reader_or_bail |]. intros u.
  apply only_bind; [apply only_context, only_add_token |]. intros _. eapply only_reader, reader_ret.
Qed.
Lemma only_generate_token user id random secret : only token_files (generate_token user id random secret).
Proof. apply only_bind; [eapply only_reader, reader_or_bail |]. intros r. apply only_create_token. Qed.

Lemma keeps_token_files {A} (m : IO A) : only token_files m → keeps prepared_ok m.
Proof.
  intros Ho. eapply keeps_only; [exact Ho |]. intros d d' Hd [c [Hc Hwf]]. exists c. split; [| done].
  unfold prepared_on, section_on in *. rw Hd //. unfold token_files. by intros [? | [? | ?%not_elem_of_nil]%elem_of_cons]%elem_of_cons.
Qed.
End install.

(** * Automated installations: the prepared configurations stay sane

    Every handler keeps [prepared_ok], whatever file operations fail. *)

#[local] Open Scope list_scope.

Section invariant.
Context `{InstallEnv, !InstallJson, !SectionData PreparedInstallationConfig, !SectionData AnswerToken,
  !SectionLaws PreparedInstallationConfig, !SectionLaws AnswerToken}.
Context (digest_of : file → string).

Lemma prepared_on_wf d c : prepared_ok d → prepared_on d = Some c → prepared_wf c.
Proof. intros (c' & Hc' & Hwf) Hc. congruence. Qed.

(** A handler that reads the configurations first *)
Lemma keeps_read_prepared {A} (f : sec_data PreparedInstallationConfig * file → IO A) :
  (∀ c, prepared_wf c.1 → keeps prepared_ok (f c)) → keeps prepared_ok (c ← read_prepared_answers; f c).
Proof.
  intros Hf. eapply keeps_reader_bind; [apply reader_section |]. intros d c Hd [Hc _]. apply Hf. by eapply prepared_on_wf.
Qed.
Lemma keeps_ignored_lock {A} (f : () → IO A) : keeps prepared_ok (f ()) → keeps prepared_ok (u ← ignored_lock; f u).
Proof. intros Hf. eapply keeps_reader_bind; [apply reader_ignored_lock |]. by intros d [] _ _. Qed.

Lemma config_ok_with_password h p : config_ok p → config_ok (with_password h p).
Proof. by intros [? ? ? ?]. Qed.
Lemma config_ok_with_tokens l p : l ≠ [] → config_ok p → config_ok (with_tokens l p).
Proof. by intros Hl [? ? ? ?]. Qed.

Lemma keeps_delete_prepared id : keeps prepared_ok (delete_prepared_answer id).
Proof.
  apply keeps_ignored_lock, keeps_read_prepared. intros c Hwf. destruct (sec_get c.1 id); [| apply keeps_fail].
  by apply keeps_save_prepared, prepared_wf_remove.
Qed.

Lemma saturating_bound v : (0 ≤ v < 2 ^ 31 → 0 ≤ Z.min (v + 1) (2 ^ 31 - 1) < 2 ^ 31)%Z.
Proof. lia. Qed.
Lemma keeps_increment id : keeps prepared_ok (increment_template_counters id).
Proof.
  apply keeps_ignored_lock, keeps_read_prepared. intros c Hwf. destruct (sec_get c.1 id) as [p|] eqn:Hp; [| apply keeps_fail].
  apply keeps_save_prepared, prepared_wf_insert; [done | exact (pw_id _ Hwf _ _ Hp) | |].
  - destruct (pw_ok _ Hwf _ _ Hp) as [Hf Ht Hc Hu]. split; simpl; [done | done | | done].
    intros k v' Hv'. rw lookup_fmap in Hv'. apply fmap_Some in Hv' as (v & Hv & ->). destruct (Hc k v Hv) as [Hk Hb]. split; [done |]. by apply saturating_bound.
  - intros Hd k' p' Hp' Hd'. by eapply (pw_default _ Hwf).
Qed.

Lemma keeps_save_installation i : keeps prepared_ok (save_installation i).
Proof.
  apply (keeps_only _ [installation_state_path (inst_uuid i)]).
  - apply only_bind; [eapply only_reader, reader_syscall |]. intros _. apply only_bind; [eapply only_reader, reader_or_bail |].
    intros f. apply only_replace. by left.
  - intros d d' Hd [c [Hc Hwf]]. exists c. split; [| done]. unfold prepared_on, section_on in *.
    rw Hd //. by intros ?%list_elem_of_singleton.
Qed.

Lemma keeps_new_installation meanwhile uuid now random token_id info :
  (∀ d, prepared_ok d → prepared_ok (meanwhile d)) → keeps prepared_ok (new_installation meanwhile uuid now random token_id info).
Proof.
  intros Hm. apply keeps_ignored_lock. eapply keeps_reader_bind; [apply reader_find_config |]. intros _ o _ _.
  destruct o as [p|]; [| apply keeps_bind; [apply keeps_save_installation |]; intros _; apply keeps_fail].
  eapply keeps_reader_bind; [apply reader_from_result |]. intros _ answer _ _.
  eapply (keeps_reader_bind _ _ (λ _ _, True)).
  { destruct (post_hook_base_url p); [| by intros w].
    eapply reader_bind; [apply reader_or_bail |]. intros r. by intros w. }
  intros _ token _ _.
  assert (keeps prepared_ok (d ← get_disk; put_disk (meanwhile d))) as Hput.
  { intros w Hw. simpl. by apply Hm. }
  intros w Hw. specialize (Hput w Hw). unfold mbind, IO_bind at 1, get_disk at 1.
  refine ((_ : keeps prepared_ok _) _ Hput).
  apply keeps_bind; [apply keeps_increment |]. intros _. apply keeps_bind; [apply keeps_save_installation |]. intros _. apply keeps_ret.
Qed.

(** What a password and tokens do not change *)
Record config_facts (p p' : PreparedInstallationConfig) : Prop := {
  cf_id : pc_id p' = pc_id p;
  cf_default : is_default p' = is_default p;
  cf_filter : target_filter p' = target_filter p;
  cf_counters : template_counters p' = template_counters p;
  cf_tokens : authorized_tokens p' ≠ [];
}.

(** The counters of an API call are 32 bit integers. *)
Lemma keeps_create_prepared user random secret config root_password :
  counters_i32 (template_counters config) → keeps prepared_ok (create_prepared_answer user random secret config root_password).
Proof.
  intros Hi. apply keeps_ignored_lock, keeps_read_prepared. intros c Hwf. destruct (sec_get c.1 (pc_id config)) eqn:Hnew; [apply keeps_fail |].
  eapply (keeps_reader_bind _ _ (λ _ _, (is_default config = true → other_default None c.1 = false) ∧ (is_default config = false → target_filter config ≠ ∅))).
  { destruct (is_default config) eqn:Hd; unfold never_matches; rw ?Hd /=.
    - eapply reader_weaken; [apply reader_if_bail; intros R; apply reader_fail | done].
    - eapply reader_weaken; [apply reader_if_bail; intros R; apply reader_fail |]. by intros _ _ ?%bool_decide_eq_false. }
  intros _ [] _ [Hdef Hfilter].
  (* the password *)
  eapply (keeps_reader_bind _ _ (λ _ config', config' = config ∨ ∃ h, config' = with_password h config)).
  { destruct root_password as [pw|].
    - eapply reader_bind; [apply reader_or_bail |]. intros h. eapply reader_weaken; [apply reader_ret |]. intros d p' -> _. eauto.
    - destruct (root_password_hashed config); [| apply reader_fail]. eapply reader_weaken; [apply reader_ret |]. auto. }
  intros _ config' _ Hc'.
  (* the token *)
  eapply (keeps_bind_yields _ _ (λ r, (∃ l, l ≠ [] ∧ r.1 = with_tokens l config') ∨ (r.1 = config' ∧ authorized_tokens config' ≠ []))).
  { destruct (bool_decide (authorized_tokens config' = [])); [| apply keeps_ret].
    apply keeps_bind; [apply keeps_token_files, only_generate_token |]. intros t. apply keeps_ret. }
  { destruct (bool_decide_reflect (authorized_tokens config' = [])) as [|Hne]; [| by apply yields_ret; right].
    apply yields_bind. intros t. apply yields_ret. left. by exists [tok_id (created_token t)]. }
  intros [config2 token] H2. simpl in H2.
  eapply keeps_reader_bind; [apply reader_validate_udev |]. intros _ [] _ Hnet.
  eapply keeps_reader_bind; [apply reader_validate_udev |]. intros _ [] _ Hdisk.
  assert (config_facts config config2) as Hfacts.
  { destruct Hc' as [-> | [h ->]], H2 as [(l & Hl & ->) | [-> Hl]]; by split. }
  destruct Hfacts as [Fid Fdef Ffilter Fcount Ftok]. eapply keeps_reader_bind; [apply reader_validate_template; by rw Fcount |].
  intros _ [] _ Hcount. apply keeps_bind; [| intros _; apply keeps_ret]. apply keeps_save_prepared, prepared_wf_insert; [done | done | |].
  - split; [by rw Fdef Ffilter | done | done |]. intros k v [?|?]; eauto.
  - rw Fdef. intros Hd k' p' Hp' Hd'. by apply (other_default_none None c.1 (Hdef Hd) Hwf) in Hp'.
Qed.

(** An update *)
Lemma delete_property_facts p d :
  let p' := delete_property p d in
  pc_id p' = pc_id p ∧ is_default p' = is_default p ∧ authorized_tokens p' = authorized_tokens p ∧
  (counters_ok (template_counters p) → counters_ok (template_counters p')) ∧
  (∀ k v, netdev_filter p' !! k = Some v ∨ disk_filter p' !! k = Some v → netdev_filter p !! k = Some v ∨ disk_filter p !! k = Some v).
Proof. destruct d; simpl; split_and!; try done; intros k v; rw ?lookup_empty; naive_solver. Qed.
Definition deletable (p p' : PreparedInstallationConfig) : Prop :=
  pc_id p' = pc_id p ∧ is_default p' = is_default p ∧ authorized_tokens p' ≠ [] ∧ counters_ok (template_counters p') ∧
  (∀ k v, netdev_filter p' !! k = Some v ∨ disk_filter p' !! k = Some v → udev_filter_key k = true).
Lemma delete_properties_ok l p : config_ok p → deletable p (foldl delete_property p l).
Proof.
  intros [Hf Ht Hc Hu]. assert (deletable p p) as Hp by done. revert Hp. generalize p at 2 4 as q.
  induction l as [|d l IH]; intros q Hq; [done |]. apply IH. destruct Hq as (H1 & H2 & H3 & H4 & H5).
  destruct (delete_property_facts q d) as (E1 & E2 & E3 & E4 & E5). split_and!; [congruence | congruence | congruence | auto |].
  intros k v Hk. eapply H5, E5, Hk.
Qed.

Lemma reader_on_some {A} (o : option A) (f : A → IO ()) (R : A → Prop) :
  (∀ a, o = Some a → reader (f a) (λ _ _, R a)) → reader (on_some o f) (λ _ _, ∀ a, o = Some a → R a).
Proof.
  intros Hf. destruct o as [a|]; simpl; [| by intros w]. eapply reader_weaken; [by apply Hf |]. by intros d [] Ha a' [= <-].
Qed.

Lemma updated_facts u p hash tokens :
  let p1 := apply_updater u p in
  let p2 := match tokens with Some l => with_tokens l p1 | None => p1 end in
  let p3 := match hash with Some h => with_password h p2 | None => p2 end in
  pc_id p3 = pc_id p ∧ is_default p3 = default (is_default p) (u_is_default u) ∧
  template_counters p3 = default (template_counters p) (u_template_counters u) ∧
  netdev_filter p3 = default (netdev_filter p) (u_netdev_filter u) ∧
  disk_filter p3 = default (disk_filter p) (u_disk_filter u) ∧
  authorized_tokens p3 = match tokens with Some l => l | None => default (authorized_tokens p) (u_authorized_tokens u) end.
Proof. by destruct hash, tokens. Qed.

Lemma keeps_update_prepared user random secret id u root_password del digest :
  (∀ m, u_template_counters u = Some m → counters_i32 m) →
  keeps prepared_ok (update_prepared_answer digest_of user random secret id u root_password del digest).
Proof.
  intros Hi. apply keeps_ignored_lock, keeps_read_prepared. intros c Hwf.
  eapply keeps_reader_bind; [apply reader_detect |]. intros _ [] _ _.
  eapply keeps_reader_bind; [apply reader_if_bail; intros R; apply reader_fail |]. intros _ [] _ Hdef.
  destruct (sec_get c.1 id) as [p0|] eqn:Hp0; [| apply keeps_fail]. pose proof (pw_ok _ Hwf _ _ Hp0) as Hok0.
  cbv zeta. pose proof (delete_properties_ok (default [] del) p0 Hok0) as Hdel. set (p := foldl _ _ _) in *.
  destruct Hdel as (Hid & Hisd & Htok & Hcnt & Hudev).
  (* tokens *)
  eapply (keeps_bind_yields _ _ (λ r, ∀ l, match r.1 with Some l => l | None => default (authorized_tokens p) (u_authorized_tokens u) end = l → l ≠ [])).
  { destruct (u_authorized_tokens u) as [[|x l]|]; [| apply keeps_ret..].
    apply keeps_bind; [apply keeps_token_files, only_generate_token |]. intros t. apply keeps_ret. }
  { destruct (u_authorized_tokens u) as [[|x l]|].
    - apply yields_bind. intros t. apply yields_ret. by intros l <-.
    - apply yields_ret. by intros l' <-.
    - apply yields_ret. by intros l <-. }
  intros [tokens token] Htokens. simpl in Htokens.
  eapply (keeps_reader_bind _ _ (λ _ _, True)).
  { destruct root_password; [| by intros w]. eapply reader_bind; [apply reader_or_bail |]. intros h. by intros w. }
  intros _ hash _ _.
  eapply keeps_reader_bind; [apply (reader_on_some _ _ (λ m, ∀ k v, m !! k = Some v → udev_filter_key k = true)); intros; apply reader_validate_udev |].
  intros _ [] _ Hnet.
  eapply keeps_reader_bind; [apply (reader_on_some _ _ (λ m, ∀ k v, m !! k = Some v → udev_filter_key k = true)); intros; apply reader_validate_udev |].
  intros _ [] _ Hdisk.
  eapply keeps_reader_bind; [apply (reader_on_some _ _ counters_ok); intros; apply reader_validate_template; auto |].
  intros _ [] _ Hcount.
  pose proof (updated_facts u p hash tokens) as Hfacts. cbv zeta in Hfacts. set (p3 := match hash with Some h => _ | None => _ end) in *.
  destruct Hfacts as (F1 & F2 & F3 & F4 & F5 & F6).
  destruct (never_matches p3) eqn:Hnever; [apply keeps_fail |].
  apply keeps_bind; [| intros _; apply keeps_ret]. apply keeps_save_prepared, prepared_wf_insert; [done | | |].
  - rw F1 Hid. by apply (pw_id _ Hwf).
  - split.
    + intros Hd. unfold never_matches in Hnever. rw Hd /= in Hnever. by apply bool_decide_eq_false in Hnever.
    + rw F6. by apply Htokens.
    + rw F3. destruct (u_template_counters u) eqn:E; simpl; [by apply Hcount | done].
    + intros k v. rw F4 F5. intros [Hk | Hk]; [destruct (u_netdev_filter u) eqn:E | destruct (u_disk_filter u) eqn:E]; simpl in Hk; eauto.
  - rw F2. intros Hd k' p' Hp' Hd'. destruct (u_is_default u) as [b|] eqn:E; simpl in Hd, Hdef.
    + rw Hd /= in Hdef. pose proof (other_default_none _ _ Hdef Hwf _ _ Hp' Hd'). congruence.
    + rw Hisd in Hd. by eapply (pw_default _ Hwf).
Qed.
End invariant.
