(* ===== verification/AutoInstallStore.v ===== *)
(** * Automated installations: what runs leave behind

    A successful answer, the callback after an installation, the secrets of tokens, and the
    migration of the older file of installations.
    The second part follows the secrets of tokens, the third the migration of the older file. *)
From S2P Require Import Prelude RustStr Remotes Disk ApiCache RemotesConfig AutoInstallConfig AutoInstaller AutoInstallFacts.

#[local] Open Scope list_scope.

(** Takes the first call of a run that succeeded; [Hread] says what it read. *)
Ltac run_read Hrun lem x Hd Hr :=
  let w1 := fresh "w" in let H1 := fresh "H" in
  apply run_bind in Hrun as (x & w1 & H1 & Hrun);
  destruct (reader_run _ _ _ _ _ lem H1) as [Hd Hr]; specialize (Hr _ eq_refl); simpl in Hr; clear H1.

Lemma elem_of_Forall2_r {A B} (P : A → B → Prop) l k y : Forall2 P l k → y ∈ k → ∃ x, x ∈ l ∧ P x y.
Proof.
  induction 1 as [|x y' l k Hxy _ IH]; [by intros ?%not_elem_of_nil |]. intros [-> | Hy]%elem_of_cons; [exists x; by split; [left |] |].
  destruct (IH Hy) as (x' & ? & ?). exists x'. by split; [right |].
Qed.

Lemma Forall2_elem_l {A B} (P : A → B → Prop) l k : Forall2 P l k → Forall2 (λ x y, x ∈ l ∧ P x y) l k.
Proof.
  induction 1 as [|x y l k Hxy _ IH]; constructor; [by split; [left |] |].
  eapply Forall2_impl; [exact IH |]. intros x' y' [? ?]. by split; [right |].
Qed.

Section store.
Context `{InstallEnv, !InstallJson, !InstallJsonLaws, !SectionData PreparedInstallationConfig, !SectionData AnswerToken,
  !SectionLaws PreparedInstallationConfig, !SectionLaws AnswerToken}.
Context (digest_of : file → string).

Definition inst_on (d : dir) (uuid : string) : option Installation := d !! installation_state_path uuid ≫= inst_from_str.

Lemma installation_path_inj u1 u2 : installation_state_path u1 = installation_state_path u2 → u1 = u2.
Proof.
  unfold installation_state_path. intros Heq%string_app_inj_l. apply (f_equal (strip_suffix ".json")) in Heq.
  rw !strip_suffix_app in Heq. congruence.
Qed.

Lemma write_section_run {T} `{SectionLaws T} name (c : sec_data T) w u w' :
  write_section name c w = (Ok u, w') →
  ∃ f c', disk w' = <[name := f]> (disk w) ∧ sec_parse f = Some c' ∧ ∀ k, sec_get c' k = sec_get c k.
Proof.
  unfold write_section. destruct (sec_write c) as [f|] eqn:Hw; [| done]. intros Hr%replace_run.
  destruct (sec_parse_write _ _ Hw) as (c' & Hp & Hc). by exists f, c'.
Qed.
Lemma save_installation_run i w u w' :
  save_installation i w = (Ok u, w') →
  ∃ f, disk w' = <[installation_state_path (inst_uuid i) := f]> (disk w) ∧ inst_from_str f = Some i.
Proof.
  intros Hr. unfold save_installation in Hr. run_read Hr reader_syscall s Hd0 Hs. run_read Hr (reader_or_bail (inst_to_string i) "serialize"%string) f Hd Hf.
  exists f. split; [| by apply inst_roundtrip]. apply replace_run in Hr. congruence.
Qed.

Lemma save_installation_err i w e w' : save_installation i w = (Err e, w') → disk w' = disk w.
Proof.
  unfold save_installation, mbind, IO_bind. destruct (reader_syscall w) as [Hd _].
  destruct (syscall w) as [[[] | e0] w0]; simpl in *; [| by intros [= _ <-]].
  destruct (inst_to_string i) as [f|]; simpl; [intros ->%replace_err; done | by intros [= _ <-]].
Qed.

(** ** Answers *)
Definition advanced (counters : gmap string Z) : gmap string Z := (λ v, Z.min (v + 1) (2 ^ 31 - 1))%Z <$> counters.

Lemma increment_run id w u w' : increment_template_counters id w = (Ok u, w') →
  ∃ c p f c', prepared_on (disk w) = Some c ∧ sec_get c id = Some p ∧ disk w' = <[PREPARED_CONF_FILE := f]> (disk w) ∧
    sec_parse f = Some c' ∧
    ∀ k, sec_get c' k = if decide (id = k) then Some (with_counters (advanced (template_counters p)) p) else sec_get c k.
Proof.
  intros Hr. unfold increment_template_counters in Hr. run_read Hr reader_ignored_lock x Hd0 Hx.
  run_read Hr (reader_section (T := PreparedInstallationConfig) PREPARED_CONF_FILE) c Hd1 Hc. rw Hd0 in Hc. destruct Hc as [Hc _].
  destruct (sec_get c.1 id) as [p|] eqn:Hp; [| done].
  apply write_section_run in Hr as (f & c' & Hdw & Hf & Hc'). exists c.1, p, f, c'. rw Hd1 Hd0 in Hdw. split_and!; try done.
  intros k. by rw Hc' sec_get_insert.
Qed.

(** How the answer [a] for the configuration [p] came about, and what it left: the secret of the callback that is in the
    answer is the one that is stored, and the counters of the configuration advanced. *)
Record answered (meanwhile : dir → dir) (uuid : string) (now : Z) (token_id : string) (info : SystemInfo)
    (d d' : dir) (a : AutoInstallerConfig) (p : PreparedInstallationConfig) : Prop := {
  an_chosen : ∃ c, prepared_on d = Some c ∧ chosen token_id info (sec_list c).*2 = Some p;
  an_answer : ∃ a0 hook, render_prepared_config p info = Ok a0 ∧ a = with_webhook a0 p uuid hook ∧
    (is_Some hook ↔ is_Some (post_hook_base_url p)) ∧
    inst_on d' uuid = Some {| inst_uuid := uuid; received_at := now;
      inst_status := match post_hook_base_url p with Some _ => InProgress | None => AnswerSent end; inst_info := info;
      answer_id := Some (pc_id p); post_hook_data := None; post_hook_token := hook |};
  an_counters : ∃ c p1 c', prepared_on (meanwhile d) = Some c ∧ sec_get c (pc_id p) = Some p1 ∧ prepared_on d' = Some c' ∧
    ∀ k, sec_get c' k = if decide (pc_id p = k) then Some (with_counters (advanced (template_counters p1)) p1) else sec_get c k;
}.

Lemma hook_reader {A} (o : option A) (random : option string) :
  reader (match o with Some _ => r ← or_bail random "no random data"; mret (Some r) | None => mret None end)
    (λ _ hook, is_Some hook ↔ is_Some o).
Proof.
  destruct o.
  - eapply reader_bind; [apply reader_or_bail |]. intros r. eapply reader_weaken; [apply reader_ret |]. intros d hook -> _.
    split; intros _; by eexists.
  - eapply reader_weaken; [apply reader_ret |]. by intros d hook ->; split; intros [].
Qed.

Lemma new_installation_run meanwhile uuid now random token_id info w a w' :
  new_installation meanwhile uuid now random token_id info w = (Ok a, w') →
  ∃ p, answered meanwhile uuid now token_id info (disk w) (disk w') a p.
Proof.
  intros Hr. unfold new_installation in Hr. run_read Hr reader_ignored_lock x Hd0 Hx.
  run_read Hr (reader_find_config token_id info) o Hd1 Ho. destruct Ho as (c & Hc & ->). rw Hd0 in Hc Hd1.
  destruct (chosen token_id info (sec_list c).*2) as [p|] eqn:Hchosen; last first.
  { apply run_bind in Hr as (? & ? & _ & Hr). done. }
  run_read Hr (reader_from_result (render_prepared_config p info)) a0 Hd2 Ha.
  run_read Hr (hook_reader (post_hook_base_url p) random) hook Hd3 Hhook.
  apply run_bind in Hr as (d0 & w4 & [= <- <-] & Hr). apply run_bind in Hr as (u & w5 & [= _ <-] & Hr).
  apply run_bind in Hr as (u2 & w6 & Hinc%increment_run & Hr). destruct Hinc as (c1 & p1 & f & c' & Hc1 & Hp1 & Hd6 & Hf & Hc').
  apply run_bind in Hr as (u3 & w7 & Hsave%save_installation_run & Hr). destruct Hsave as (fi & Hd7 & Hfi). simpl in *.
  injection Hr as <- <-. exists p. rw Hd3 Hd2 Hd1 in Hc1 Hd6. split.
  - by exists c.
  - exists a0, hook. split_and!; [done | done | done |]. unfold inst_on. by rw Hd7 lookup_insert_eq.
  - exists c1, p1, c'. split_and!; [done | done | | done].
    unfold prepared_on, section_on. rw Hd7 lookup_insert_ne // Hd6 lookup_insert_eq //.
Qed.

(** When the answer cannot be rendered nothing is stored. *)
Lemma render_error_run meanwhile uuid now random token_id info w c p e :
  prepared_on (disk w) = Some c → chosen token_id info (sec_list c).*2 = Some p → render_prepared_config p info = Err e →
  disk (new_installation meanwhile uuid now random token_id info w).2 = disk w.
Proof.
  intros Hc Hp He. destruct (new_installation meanwhile uuid now random token_id info w) as [r w'] eqn:Hr. unfold new_installation in Hr.
  unfold mbind, IO_bind at 1 in Hr. destruct (reader_ignored_lock w) as [Hd0 _].
  destruct (ignored_lock w) as [[[] | e0] w0]; simpl in *; [| by injection Hr as <- <-].
  unfold mbind, IO_bind at 1 in Hr. destruct (reader_find_config token_id info w0) as [Hd1 Ho].
  destruct (find_config token_id info w0) as [[o | e1] w1]; simpl in *; [| injection Hr as <- <-; congruence].
  destruct (Ho _ eq_refl) as (c' & Hc' & ->). rw Hd0 Hc in Hc'. injection Hc' as <-. rw Hp He in Hr. injection Hr as <- <-. congruence.
Qed.

(** ** The callback *)

(** Files are named by the uuid of the installation in them, and there is no older file any more. *)
Record installs_wf (d : dir) : Prop := {
  iw_names uuid i : inst_on d uuid = Some i → inst_uuid i = uuid;
  iw_migrated : d !! INSTALLATIONS_LEGACY_FILE = None;
}.

Lemma reader_read_files names : reader (read_states names) (λ d l, Forall2 (λ n i, d !! n ≫= inst_from_str = Some i) names l).
Proof.
  induction names as [|n names IH]; simpl.
  { eapply reader_weaken; [apply reader_ret |]. intros d l ->. constructor. }
  eapply reader_bind; [apply reader_open |]. intros raw. eapply reader_bind; [apply reader_or_bail |]. intros i.
  eapply reader_bind; [apply IH |]. intros l. eapply reader_weaken; [apply reader_ret |].
  intros d l' -> Hl Hi Hraw. constructor; [by rw Hraw | done].
Qed.

Lemma elem_of_state_entries n names : n ∈ state_entries names → ∃ uuid, n = installation_state_path uuid ∧ n ∈ names.
Proof.
  unfold state_entries. intros (m & Hm & Hin)%elem_of_filter_map. destruct (strip_prefix INSTALLATIONS_STATE_DIR m) as [entry|] eqn:E; [| done].
  unfold has_json_extension in Hin. destruct (strip_suffix ".json" entry) as [stem|] eqn:E2; [| done].
  destruct (negb (is_empty stem)); simplify_eq. apply strip_prefix_Some in E. apply strip_suffix_Some in E2.
  exists stem. subst. done.
Qed.

(** Without the older file there is nothing to migrate. *)
Lemma migrate_nothing w :
  disk w !! INSTALLATIONS_LEGACY_FILE = None → disk (migrate_legacy_installations_file w).2 = disk w.
Proof.
  intros Hleg. unfold migrate_legacy_installations_file, mbind, IO_bind at 1. destruct (reader_optional INSTALLATIONS_LEGACY_FILE w) as [Hd Ho].
  destruct (file_read_optional_string INSTALLATIONS_LEGACY_FILE w) as [[o | e] w1]; simpl in *; [| done].
  by rw (Ho _ eq_refl) Hleg.
Qed.
Lemma reader_state_files :
  reader (names ← fs_read_dir; l ← read_states (state_entries names); mret (sort_by by_uuid l))
    (λ d l, ∀ i, i ∈ l → ∃ uuid, inst_on d uuid = Some i).
Proof.
  eapply (reader_bind _ _ (λ _ _, True)).
  { intros w0. unfold fs_read_dir, syscall, get_disk, mbind, IO_bind. simpl. by destruct (faults w0 (tick w0)). }
  intros names. eapply reader_bind; [apply reader_read_files |]. intros l. eapply reader_weaken; [apply reader_ret |].
  intros d l' -> Hl _ i. rw elem_of_sort_by. intros Hi. destruct (elem_of_Forall2_r _ _ _ _ Hl Hi) as (n & (uuid & -> & _)%elem_of_state_entries & Hn).
  by exists uuid.
Qed.
Lemma read_installations_reader w :
  disk w !! INSTALLATIONS_LEGACY_FILE = None →
  disk (read_installations w).2 = disk w ∧
  ∀ l, (read_installations w).1 = Ok l → ∀ i, i ∈ l → ∃ uuid, inst_on (disk w) uuid = Some i.
Proof.
  intros Hleg. pose proof (migrate_nothing w Hleg) as Hd. pose proof reader_state_files as Hrd. unfold read_installations.
  set (rest := names ← fs_read_dir; _) in *. unfold mbind, IO_bind.
  destruct (migrate_legacy_installations_file w) as [[[] | e] w1]; simpl in *; [| done].
  destruct (Hrd w1) as [Hd2 Hl]. rw Hd in Hd2 Hl. done.
Qed.

Lemma handle_post_hook_run uuid token info w :
  installs_wf (disk w) →
  match handle_post_hook uuid token info w with
  | (Ok _, w') => ∃ i f, inst_on (disk w) uuid = Some i ∧ inst_status i = InProgress ∧ post_hook_data i = None ∧
      post_hook_token i = Some token ∧ token ≠ ""%string ∧
      disk w' = <[installation_state_path uuid := f]> (disk w) ∧ inst_from_str f = Some (finish_installation info i)
  | (Err _, w') => disk w' = disk w
  end.
Proof.
  intros Hwf. destruct (handle_post_hook uuid token info w) as [r w'] eqn:Hr. unfold handle_post_hook in Hr.
  unfold mbind, IO_bind at 1 in Hr. destruct (reader_ignored_lock w) as [Hd0 _].
  destruct (ignored_lock w) as [[[] | e0] w0]; simpl in *; [| by injection Hr as <- <-].
  unfold mbind, IO_bind at 1 in Hr. destruct (read_installations_reader w0) as [Hd1 Hl]; [rw Hd0; apply (iw_migrated _ Hwf) |].
  destruct (read_installations w0) as [[l | e1] w1]; simpl in *; [| injection Hr as <- <-; congruence].
  specialize (Hl _ eq_refl). rw Hd0 in Hl Hd1. destruct (find (awaits_hook uuid) l) as [i|] eqn:Hf; [| injection Hr as <- <-; congruence].
  apply find_some in Hf as [Hin Ha]. apply list_elem_of_In in Hin. destruct (Hl _ Hin) as [uuid' Hi].
  pose proof (iw_names _ Hwf _ _ Hi) as Hu. apply andb_true_iff in Ha as [Ha Hdata]. apply andb_true_iff in Ha as [Huuid Hst].
  apply String.eqb_eq in Huuid. apply bool_decide_eq_true in Hst. assert (uuid' = uuid) as -> by congruence.
  destruct (is_empty (default "" (post_hook_token i))%string || negb (String.eqb (default "" (post_hook_token i)) token)) eqn:Ht;
    [injection Hr as <- <-; congruence |].
  apply orb_false_iff in Ht as [He Ht]. apply negb_false_iff, String.eqb_eq in Ht. rw Ht in He.
  destruct r as [[] | e]; last first.
  { apply save_installation_err in Hr. congruence. }
  apply save_installation_run in Hr as (f & Hdw & Hfi). exists i, f. simpl in Hdw. rw Huuid Hd1 in Hdw.
  split_and!; try done.
  - by destruct (post_hook_data i).
  - destruct (post_hook_token i) as [t|]; simpl in *; [congruence | by subst token].
  - by intros ->.
Qed.

(** *** Without faults *)
(** The installation [i] of [uuid] waits for the callback with the secret [token]. *)
Record awaiting (d : dir) (uuid token : string) (i : Installation) : Prop := {
  aw_stored : inst_on d uuid = Some i;
  aw_progress : inst_status i = InProgress;
  aw_data : post_hook_data i = None;
  aw_token : post_hook_token i = Some token;
  aw_secret : token ≠ ""%string;
}.
(** Every file of an installation can be parsed. *)
Definition readable (d : dir) : Prop :=
  ∀ uuid f, d !! installation_state_path uuid = Some f → is_Some (inst_from_str f).

Lemma quiet_ignored_lock d : quiet_run d ignored_lock (Ok ()) d.
Proof. eapply quiet_bind; [apply quiet_attempt, quiet_syscall | apply quiet_ret]. Qed.
Lemma quiet_optional d n : quiet_run d (file_read_optional_string n) (Ok (d !! n)) d.
Proof.
  unfold file_read_optional_string. destruct (d !! n) as [f|] eqn:E.
  - eapply quiet_bind; [by apply quiet_attempt, quiet_open | apply quiet_ret].
  - eapply quiet_bind; [by apply quiet_attempt, quiet_open_missing | apply quiet_ret].
Qed.
Lemma quiet_path_exists d n : quiet_run d (path_exists n) (Ok (bool_decide (is_Some (d !! n)))) d.
Proof.
  eapply quiet_bind; [apply quiet_attempt, quiet_syscall |]. eapply quiet_bind; [apply quiet_get_disk |]. apply quiet_ret.
Qed.
Lemma quiet_read_states d names :
  readable d → Forall (λ n, ∃ uuid, n = installation_state_path uuid ∧ is_Some (d !! n)) names →
  ∃ l, quiet_run d (read_states names) (Ok l) d ∧ ∀ n i, n ∈ names → d !! n ≫= inst_from_str = Some i → i ∈ l.
Proof.
  intros Hread. induction 1 as [|n names (uuid & -> & [f Hf]) _ (l & IH & Hin)]; simpl.
  { exists []. split; [apply quiet_ret | by intros n i ?%not_elem_of_nil]. }
  destruct (Hread _ _ Hf) as [i Hi]. exists (i :: l). split.
  - eapply quiet_bind; [by apply quiet_open |]. rw Hi. eapply quiet_bind; [apply quiet_ret |].
    eapply quiet_bind; [exact IH | apply quiet_ret].
  - intros n j [-> | Hn]%elem_of_cons Hj; apply elem_of_cons; [left; rw Hf /= Hi in Hj; congruence | right; by eapply Hin].
Qed.
Lemma state_entries_stored (d : dir) :
  Forall (λ n, ∃ uuid, n = installation_state_path uuid ∧ is_Some (d !! n)) (state_entries (map_to_list d).*1).
Proof.
  apply Forall_forall. intros n (uuid & -> & Hn)%elem_of_state_entries. exists uuid. split; [done |].
  apply list_elem_of_fmap in Hn as ([n f] & -> & Hf%elem_of_map_to_list). by exists f.
Qed.
Lemma installation_entry uuid names :
  uuid ≠ ""%string → installation_state_path uuid ∈ names → installation_state_path uuid ∈ state_entries names.
Proof.
  intros Hu Hn. apply elem_of_filter_map. exists (installation_state_path uuid). split; [done |].
  unfold installation_state_path at 1. rw strip_prefix_app. unfold has_json_extension. rw strip_suffix_app. by destruct uuid.
Qed.
Lemma quiet_read_installations d :
  d !! INSTALLATIONS_LEGACY_FILE = None → readable d →
  ∃ l, quiet_run d read_installations (Ok l) d ∧ ∀ uuid i, uuid ≠ ""%string → inst_on d uuid = Some i → i ∈ l.
Proof.
  intros Hleg Hread. destruct (quiet_read_states d _ Hread (state_entries_stored d)) as (l & Hl & Hin).
  exists (sort_by by_uuid l). split.
  - unfold read_installations. eapply quiet_bind.
    { unfold migrate_legacy_installations_file. eapply quiet_bind; [apply quiet_optional |]. rw Hleg. apply quiet_ret. }
    eapply quiet_bind; [apply quiet_read_dir |]. eapply quiet_bind; [exact Hl | apply quiet_ret].
  - intros uuid i Hu Hi. apply elem_of_sort_by. eapply Hin; [| exact Hi]. apply installation_entry; [done |].
    unfold inst_on in Hi. destruct (d !! installation_state_path uuid) as [f|] eqn:E; [| done].
    apply list_elem_of_fmap. exists (installation_state_path uuid, f). split; [done |]. by apply elem_of_map_to_list.
Qed.

(** Without faults the right callback is accepted. *)
Lemma quiet_post_hook d uuid token info i f :
  installs_wf d → readable d → uuid ≠ ""%string → awaiting d uuid token i →
  inst_to_string (finish_installation info i) = Some f → ∃ d', quiet_run d (handle_post_hook uuid token info) (Ok ()) d'.
Proof.
  intros Hwf Hread Hu [Hi Hs Hdata Ht Hne] Hf. destruct (quiet_read_installations d (iw_migrated _ Hwf) Hread) as (l & Hl & Hin).
  pose proof (iw_names _ Hwf _ _ Hi) as Huuid.
  assert (awaits_hook uuid i = true) as Haw.
  { unfold awaits_hook. rw Hdata. by rw (proj2 (String.eqb_eq _ _) Huuid) bool_decide_eq_true_2. }
  assert (find (awaits_hook uuid) l = Some i) as Hfind.
  { destruct (find (awaits_hook uuid) l) as [j|] eqn:Hj; last first.
    { rw (find_none _ _ Hj i) in Haw; [by apply list_elem_of_In, (Hin uuid) | done]. }
    apply find_some in Hj as [Hjl Hj]. apply list_elem_of_In in Hjl.
    pose proof (read_installations_reader (quiet_world d) (iw_migrated _ Hwf)) as [_ Hfrom].
    destruct (Hl (quiet_world d) (λ _, eq_refl) eq_refl) as (Hres & _). destruct (Hfrom _ Hres _ Hjl) as [u' Hu'].
    pose proof (iw_names _ Hwf _ _ Hu') as Hn. unfold awaits_hook in Hj. do 2 apply andb_true_iff in Hj as [Hj _].
    apply String.eqb_eq in Hj. simpl in Hu'. assert (u' = uuid) as -> by congruence. congruence. }
  eexists. unfold handle_post_hook. eapply quiet_bind; [apply quiet_ignored_lock |]. eapply quiet_bind; [exact Hl |].
  rw Hfind Ht. simpl. rw String.eqb_refl. destruct token as [|c token]; [done |]. simpl. unfold save_installation.
  eapply quiet_bind; [apply quiet_syscall |]. rw Hf. eapply quiet_bind; [apply quiet_ret |]. apply quiet_replace.
Qed.
End store.

(** * Automated installations: the secrets of tokens

    Which hashes and which tokens are stored after a request on tokens, whatever file
    operations fail. *)

#[local] Open Scope list_scope.

Section tokens.
Context `{InstallEnv, !InstallJson, !InstallJsonLaws, !SectionData PreparedInstallationConfig, !SectionData AnswerToken,
  !SectionLaws PreparedInstallationConfig, !SectionLaws AnswerToken}.
Context (digest_of : file → string).
Implicit Types (d : dir) (t : AnswerToken) (id secret : string).

Definition tok_at d id : option AnswerToken := c ← tokens_on d; sec_get c id.
Definition hash_at d id : option string := m ← shadow_on d; m !! id.
(** A token is stored under its id. *)
Definition tokens_wf d : Prop := ∀ k t, tok_at d k = Some t → tok_id t = k.

(** A request with the new secret [secret] for the token [id]: it leaves every other token, hash and file alone, and stores
    no hash but one of that secret. *)
Record touched id secret d d' : Prop := {
  to_files n : n ∉ token_files → d' !! n = d !! n;
  to_tokens k : k ≠ id → tok_at d' k = tok_at d k;
  to_hashes k : k ≠ id → hash_at d' k = hash_at d k;
  to_own h : hash_at d' id = Some h → hash_at d id = Some h ∨ encrypt_pw secret = Some h;
  to_wf : tokens_wf d → tokens_wf d';
}.
Lemma touched_refl id secret d : touched id secret d d.
Proof. split; auto. Qed.
Lemma touched_trans id secret d1 d2 d3 : touched id secret d1 d2 → touched id secret d2 d3 → touched id secret d1 d3.
Proof.
  intros [F1 T1 H1' O1 W1] [F2 T2 H2' O2 W2]. split; [| | | | by auto].
  - intros n Hn. by rw F2 // F1.
  - intros k Hk. by rw T2 // T1.
  - intros k Hk. by rw H2' // H1'.
  - intros h [Hh | Hh]%O2; [by apply O1 | by right].
Qed.

(** One file of the two is replaced. *)
Lemma write_tokens_triple d0 c c' Q E :
  tokens_on d0 = Some c → E d0 →
  (∀ f, shadow_on (<[TOKENS_CONF_FILE := f]> d0) = shadow_on d0 →
        (∀ k, tok_at (<[TOKENS_CONF_FILE := f]> d0) k = sec_get c' k) → Q () (<[TOKENS_CONF_FILE := f]> d0)) →
  triple (λ d, d = d0) (write_tokens c') Q E.
Proof.
  intros Hc HE HQ. unfold write_tokens, write_section. destruct (sec_write c') as [f|] eqn:Hw; [| by apply triple_fail; intros ? ->].
  apply triple_replace; [by intros ? -> |]. intros ? ->. destruct (sec_parse_write _ _ Hw) as (c2 & Hp & Hc2). apply HQ.
  - unfold shadow_on. by rw lookup_insert_ne.
  - intros k. unfold tok_at, tokens_on, section_on. rw lookup_insert_eq /= Hp /=. apply Hc2.
Qed.
Lemma write_shadow_triple d0 m' (Q : () → dir → Prop) (E : dir → Prop) :
  E d0 →
  (∀ f, (∀ k, tok_at (<[TOKENS_SHADOW_FILE := f]> d0) k = tok_at d0 k) →
        (∀ k, hash_at (<[TOKENS_SHADOW_FILE := f]> d0) k = m' !! k) → Q () (<[TOKENS_SHADOW_FILE := f]> d0)) →
  triple (λ d, d = d0) (write_token_shadow m') Q E.
Proof.
  intros HE HQ. eapply triple_read_bind; [apply reader_or_bail | done |]. intros f Hf%shadow_roundtrip.
  apply triple_replace; [by intros ? -> |]. intros ? ->. apply HQ.
  - intros k. unfold tok_at, tokens_on, section_on. by rw lookup_insert_ne.
  - intros k. unfold hash_at, shadow_on. by rw lookup_insert_eq Hf.
Qed.
Lemma not_token_file d n f file : n ∉ token_files → file ∈ token_files → <[file := f]> d !! n = d !! n.
Proof. intros Hn Hf. rw lookup_insert_ne //. by intros ->. Qed.

(** A write of the tokens that changes the entry of [id] only *)
Lemma touched_write_tokens id secret d0 f (o : option AnswerToken) :
  (∀ t, o = Some t → tok_id t = id) → shadow_on (<[TOKENS_CONF_FILE := f]> d0) = shadow_on d0 →
  (∀ k, tok_at (<[TOKENS_CONF_FILE := f]> d0) k = if decide (id = k) then o else tok_at d0 k) →
  touched id secret d0 (<[TOKENS_CONF_FILE := f]> d0).
Proof.
  intros Ho Hs Ht. split.
  - intros n Hn. apply not_token_file; [done |]. by left.
  - intros k Hk. by rw Ht decide_False.
  - intros k _. unfold hash_at. by rw Hs.
  - intros h. unfold hash_at. rw Hs. by left.
  - intros Hwf k t. rw Ht. case_decide; [intros; subst; by apply Ho | apply Hwf].
Qed.
Lemma touched_write_shadow id secret d0 f m (o : option string) :
  shadow_on d0 = Some m → (∀ h, o = Some h → encrypt_pw secret = Some h) →
  (∀ k, tok_at (<[TOKENS_SHADOW_FILE := f]> d0) k = tok_at d0 k) →
  (∀ k, hash_at (<[TOKENS_SHADOW_FILE := f]> d0) k = if decide (id = k) then o else m !! k) →
  touched id secret d0 (<[TOKENS_SHADOW_FILE := f]> d0).
Proof.
  intros Hm Ho Ht Hh. split.
  - intros n Hn. apply not_token_file; [done |]. right. by left.
  - intros k _. apply Ht.
  - intros k Hk. rw Hh decide_False //. unfold hash_at. by rw Hm.
  - intros h. rw Hh decide_True //. intros. right. by apply Ho.
  - intros Hwf k t. rw Ht. apply Hwf.
Qed.

Lemma add_token_triple d0 t secret :
  triple (λ d, d = d0) (add_token t secret)
    (λ _ d, touched (tok_id t) secret d0 d ∧ tok_at d0 (tok_id t) = None ∧ tok_at d (tok_id t) = Some t ∧
            is_Some (encrypt_pw secret) ∧ hash_at d (tok_id t) = encrypt_pw secret)
    (touched (tok_id t) secret d0).
Proof.
  eapply triple_read_bind; [apply reader_section | apply touched_refl |]. intros c [Hc _].
  destruct (sec_get c.1 (tok_id t)) eqn:Hnew; [apply triple_fail; intros ? ->; apply touched_refl |].
  assert (tok_at d0 (tok_id t) = None) as Hnone by (unfold tok_at, tokens_on; by rw Hc /=).
  eapply (triple_bind _ _ _ (λ _ d, touched (tok_id t) secret d0 d ∧ tok_at d (tok_id t) = Some t)); [| intros []; apply triple_pre]; cycle 1.
  { intros d1 Hd1. eapply triple_read_bind; [apply reader_shadow | apply Hd1 |]. intros m Hm.
    eapply triple_read_bind; [apply reader_or_bail | apply Hd1 |]. intros h Hh.
    apply write_shadow_triple; [apply Hd1 |]. intros f Hft Hfh. destruct Hd1 as [Hd1 Ht1].
    split_and!.
    - eapply touched_trans; [exact Hd1 |]. apply (touched_write_shadow _ _ _ _ m (Some h)); [done | congruence | done |].
      intros k. by rw Hfh lookup_insert.
    - done.
    - by rw Hft.
    - by rw Hh.
    - by rw Hfh lookup_insert_eq. }
  apply (write_tokens_triple _ c.1); [done | apply touched_refl |]. intros f Hs Ht. split.
  - apply (touched_write_tokens _ _ _ _ (Some t)); [by intros ? [= ->] | done |]. intros k. rw Ht sec_get_insert.
    unfold tok_at, tokens_on. by rw Hc.
  - by rw Ht sec_get_insert decide_True.
Qed.

Lemma remove_token_triple d0 id secret :
  triple (λ d, d = d0) (remove_token id)
    (λ _ d, touched id secret d0 d ∧ is_Some (tok_at d0 id) ∧ tok_at d id = None ∧ hash_at d id = None)
    (touched id secret d0).
Proof.
  eapply triple_read_bind; [apply reader_section | apply touched_refl |]. intros c [Hc _].
  destruct (sec_get c.1 id) eqn:Hold; [| apply triple_fail; intros ? ->; apply touched_refl].
  assert (is_Some (tok_at d0 id)) as Hsome by (unfold tok_at, tokens_on; rw Hc /=; eauto).
  eapply (triple_bind _ _ _ (λ _ d, touched id secret d0 d ∧ tok_at d id = None)); [| intros []; apply triple_pre]; cycle 1.
  { intros d1 Hd1. eapply triple_read_bind; [apply reader_shadow | apply Hd1 |]. intros m Hm.
    apply write_shadow_triple; [apply Hd1 |]. intros f Hft Hfh. destruct Hd1 as [Hd1 Ht1].
    split_and!; [| done | by rw Hft | by rw Hfh lookup_delete_eq].
    eapply touched_trans; [exact Hd1 |]. apply (touched_write_shadow _ _ _ _ m None); [done | done | done |].
    intros k. by rw Hfh lookup_delete. }
  apply (write_tokens_triple _ c.1); [done | apply touched_refl |]. intros f Hs Ht. split.
  - apply (touched_write_tokens _ _ _ _ None); [done | done |]. intros k. rw Ht sec_get_remove. unfold tok_at, tokens_on. by rw Hc.
  - by rw Ht sec_get_remove decide_True.
Qed.

Lemma replace_token_triple d0 t secret :
  triple (λ d, d = d0) (replace_token t)
    (λ _ d, touched (tok_id t) secret d0 d ∧ tok_at d (tok_id t) = Some t ∧ hash_at d (tok_id t) = hash_at d0 (tok_id t))
    (touched (tok_id t) secret d0).
Proof.
  eapply triple_read_bind; [apply reader_section | apply touched_refl |]. intros c [Hc _].
  destruct (sec_get c.1 (tok_id t)) eqn:Hold; [| apply triple_fail; intros ? ->; apply touched_refl].
  apply (write_tokens_triple _ c.1); [done | apply touched_refl |]. intros f Hs Ht. split_and!.
  - apply (touched_write_tokens _ _ _ _ (Some t)); [by intros ? [= ->] | done |]. intros k. rw Ht sec_get_insert.
    unfold tok_at, tokens_on. by rw Hc.
  - by rw Ht sec_get_insert decide_True.
  - unfold hash_at. by rw Hs.
Qed.

(** ** The handlers *)
Inductive token_request :=
| CreateToken (user : option string) (id : string) (cm : option string) (en : option bool) (ex : option Z) (secret : string)
| UpdateToken (id : string) (u : AnswerTokenUpdater) (del : option (list DeletableAnswerTokenProperty)) (regenerate : bool)
    (digest : option string) (secret : string)
| DeleteToken (id : string).
Definition request_id (r : token_request) : string :=
  match r with CreateToken _ id _ _ _ _ | UpdateToken id _ _ _ _ _ | DeleteToken id => id end.
Definition request_secret (r : token_request) : string :=
  match r with CreateToken _ _ _ _ _ secret | UpdateToken _ _ _ _ _ secret => secret | DeleteToken _ => "" end.

(** What the handler returns: the token, and a secret *)
Definition run_request (r : token_request) : IO (option (AnswerToken * option string)) :=
  match r with
  | CreateToken user id cm en ex secret =>
      o ← create_token user id cm en ex secret; mret (Some (created_token o, Some (created_secret o)))
  | UpdateToken id u del regenerate digest secret =>
      o ← AutoInstaller.update_token digest_of id u del regenerate digest secret; mret (Some (updated_token o, updated_secret o))
  | DeleteToken id => _ ← delete_token id; mret None
  end.
(** What a request has done when it succeeds *)
Definition request_done (r : token_request) (d d' : dir) (out : option (AnswerToken * option string)) : Prop :=
  match r with
  | CreateToken user id cm en ex secret => ∃ u t, user = Some u ∧
      t = {| tok_id := id; created_by := u; comment := cm; enabled := en; expire_at := ex |} ∧
      tok_at d id = None ∧ tok_at d' id = Some t ∧ is_Some (encrypt_pw secret) ∧ hash_at d' id = encrypt_pw secret ∧
      out = Some (t, Some secret)
  | UpdateToken id u del regenerate digest secret => ∃ t0 t, tok_at d id = Some t0 ∧
      t = apply_token_updater u (foldl delete_token_property t0 (default [] del)) ∧ tok_at d' id = Some t ∧
      if regenerate then is_Some (encrypt_pw secret) ∧ hash_at d' id = encrypt_pw secret ∧ out = Some (t, Some secret)
      else hash_at d' id = hash_at d id ∧ out = Some (t, None)
  | DeleteToken id => (∃ c, prepared_on d = Some c ∧ token_used id c = false) ∧
      is_Some (tok_at d id) ∧ tok_at d' id = None ∧ hash_at d' id = None ∧ out = None
  end.

Lemma updated_id u del t : tok_id (apply_token_updater u (foldl delete_token_property t del)) = tok_id t.
Proof. simpl. revert t. induction del as [|[] del IH]; intros t; simpl; [done | by rw IH..]. Qed.

Lemma create_token_triple d0 user id cm en ex secret :
  triple (λ d, d = d0) (run_request (CreateToken user id cm en ex secret))
    (λ out d, touched id secret d0 d ∧ request_done (CreateToken user id cm en ex secret) d0 d out) (touched id secret d0).
Proof.
  unfold run_request, create_token.
  set (t := λ u, {| tok_id := id; created_by := u; comment := cm; enabled := en; expire_at := ex |}).
  eapply (triple_bind _ _ _ (λ o d, touched id secret d0 d ∧ ∃ u, user = Some u ∧ o = {| created_token := t u; created_secret := secret |} ∧
     tok_at d0 id = None ∧ tok_at d id = Some (t u) ∧ is_Some (encrypt_pw secret) ∧ hash_at d id = encrypt_pw secret)); last first.
  { intros o. apply triple_ret. intros d (Ht & u & -> & -> & ? & ? & ? & ?). split; [done |]. by exists u, (t u). }
  eapply triple_read_bind; [apply reader_ignored_lock | apply touched_refl |]. intros [] _.
  eapply triple_read_bind; [apply reader_or_bail | apply touched_refl |]. intros u ->. cbv zeta.
  eapply triple_bind; [apply triple_context, (add_token_triple d0 (t u) secret) |]. intros []. apply triple_ret.
  intros d (? & ? & ? & ? & ?). split; [done |]. by exists u.
Qed.

Lemma delete_token_triple d0 id secret :
  triple (λ d, d = d0) (run_request (DeleteToken id))
    (λ out d, touched id secret d0 d ∧ request_done (DeleteToken id) d0 d out) (touched id secret d0).
Proof.
  unfold run_request, delete_token.
  eapply (triple_bind _ _ _ (λ o d, touched id secret d0 d ∧ request_done (DeleteToken id) d0 d None)); last first.
  { intros []. by apply triple_ret. }
  eapply triple_read_bind; [apply reader_section | apply touched_refl |]. intros c [Hc _].
  destruct (token_used id c.1) eqn:Hu; [apply triple_fail; intros ? ->; apply touched_refl |].
  eapply triple_read_bind; [apply reader_ignored_lock | apply touched_refl |]. intros [] _.
  eapply triple_conseq; [apply (remove_token_triple d0 id secret) | done | | done].
  intros [] d (Ht & ? & ? & ?). split; [done |]. split; [by exists c.1 |]. done.
Qed.

Lemma update_token_triple d0 id u del regenerate digest secret :
  tokens_wf d0 → let r := UpdateToken id u del regenerate digest secret in
  triple (λ d, d = d0) (run_request r) (λ out d, touched id secret d0 d ∧ request_done r d0 d out) (touched id secret d0).
Proof.
  intros Hwf. cbv zeta. unfold run_request, AutoInstaller.update_token.
  eapply (triple_bind _ _ _ (λ o d, touched id secret d0 d ∧
    request_done (UpdateToken id u del regenerate digest secret) d0 d (Some (updated_token o, updated_secret o)))); last first.
  { intros o. by apply triple_ret. }
  eapply triple_read_bind; [apply reader_ignored_lock | apply touched_refl |]. intros [] _.
  eapply triple_read_bind; [apply reader_section | apply touched_refl |]. intros c [Hc _].
  eapply triple_read_bind; [apply reader_detect | apply touched_refl |]. intros [] _.
  destruct (sec_get c.1 id) as [t0|] eqn:Ht0; [| apply triple_fail; intros ? ->; apply touched_refl].
  assert (tok_at d0 id = Some t0) as Htok by (unfold tok_at, tokens_on; by rw Hc /=).
  pose proof (updated_id u (default [] del) t0) as Hid. rw (Hwf _ _ Htok) in Hid.
  set (t := apply_token_updater u (foldl delete_token_property t0 (default [] del))) in *. cbv zeta. destruct regenerate.
  - rw Hid. eapply triple_bind; [apply (remove_token_triple d0 id secret) |]. intros [].
    eapply (triple_bind _ _ _ (λ _ d, touched id secret d0 d ∧ tok_at d id = Some t ∧ is_Some (encrypt_pw secret) ∧ hash_at d id = encrypt_pw secret)).
    + apply triple_pre. intros d1 (Ht1 & _ & _ & _).
      eapply triple_conseq; [apply (add_token_triple d1 t secret) | done | |]; rw Hid.
      * intros [] d (Ht2 & _ & ? & ? & ?). split; [by eapply touched_trans | done].
      * intros d Ht2. by eapply touched_trans.
    + intros []. apply triple_ret. intros d (? & ? & ? & ?). split; [done |]. by exists t0, t.
  - eapply triple_bind; [apply triple_context; pose proof (replace_token_triple d0 t secret) as Hr; rw Hid in Hr; exact Hr |]. intros [].
    apply triple_ret. intros d (? & ? & ?). split; [done |]. by exists t0, t.
Qed.
End tokens.

(** * Automated installations: migration

    The older single file is only removed when a file for every installation in it is there,
    however often the migration is interrupted. *)

#[local] Open Scope list_scope.

Section migrate.
Context `{InstallEnv, !InstallJson, !InstallJsonLaws}.
(** The older file and what is in it *)
Context (raw : file) (l : list Installation).
Context (Hraw : legacy_from_str raw = Some l) (Hnodup : NoDup (inst_uuid <$> l)) (Huuid : "" ∉ inst_uuid <$> l).

Definition stored (d : dir) (i : Installation) : Prop := inst_on d (inst_uuid i) = Some i.
(** Every file of an installation holds one of [l]. *)
Definition only_migrated (d : dir) : Prop :=
  ∀ uuid, is_Some (d !! installation_state_path uuid) → ∃ i, i ∈ l ∧ inst_uuid i = uuid ∧ stored d i.
Definition pending (d : dir) : Prop := d !! INSTALLATIONS_LEGACY_FILE = Some raw ∧ only_migrated d.
Definition migrated (d : dir) : Prop :=
  d !! INSTALLATIONS_LEGACY_FILE = None ∧ only_migrated d ∧ ∀ i, i ∈ l → stored d i.
Definition not_lost (d : dir) : Prop := pending d ∨ migrated d.

Lemma legacy_not_state uuid : INSTALLATIONS_LEGACY_FILE ≠ installation_state_path uuid.
Proof. unfold INSTALLATIONS_LEGACY_FILE, installation_state_path, INSTALLATIONS_STATE_DIR. simpl. congruence. Qed.
Lemma same_uuid i j : i ∈ l → j ∈ l → inst_uuid i = inst_uuid j → i = j.
Proof.
  clear Hraw Huuid. induction l as [|x l' IH]; [by intros ?%not_elem_of_nil |]. apply NoDup_cons in Hnodup as [Hx Hn].
  intros [-> | Hi]%elem_of_cons [-> | Hj]%elem_of_cons Heq; [done | | | by apply IH].
  - destruct Hx. rw Heq. by apply list_elem_of_fmap_2.
  - destruct Hx. rw -Heq. by apply list_elem_of_fmap_2.
Qed.

Lemma stored_insert d i j f :
  i ∈ l → j ∈ l → inst_from_str f = Some i → (j = i ∨ stored d j) → stored (<[installation_state_path (inst_uuid i) := f]> d) j.
Proof.
  intros Hi Hj Hf Hs. unfold stored, inst_on in *. destruct (decide (inst_uuid i = inst_uuid j)) as [E|E].
  - rw -E lookup_insert_eq /= Hf. f_equal. by apply same_uuid.
  - rw lookup_insert_ne; [by intros ?%installation_path_inj |]. destruct Hs as [-> |]; done.
Qed.
Lemma pending_insert d i f :
  i ∈ l → inst_from_str f = Some i → pending d → pending (<[installation_state_path (inst_uuid i) := f]> d).
Proof.
  intros Hi Hf [Hl Ho]. split; [rw lookup_insert_ne //; apply not_eq_sym, legacy_not_state |].
  intros uuid Hu. destruct (decide (inst_uuid i = uuid)) as [<- | Hne].
  - exists i. split_and!; [done | done |]. by apply stored_insert; auto.
  - rw lookup_insert_ne in Hu; [by intros ?%installation_path_inj |]. destruct (Ho _ Hu) as (j & Hj & Hje & Hs).
    exists j. split_and!; [done | done |]. by apply stored_insert; auto.
Qed.

(** The loop stores one installation after the other. *)
Definition progress (l2 : list Installation) (d : dir) : Prop := pending d ∧ ∃ l1, l = l1 ++ l2 ∧ Forall (stored d) l1.
Lemma progress_cons i l2 d : progress (i :: l2) d → stored d i → progress l2 d.
Proof.
  intros [Hp (l1 & -> & Hf)] Hs. split; [done |]. exists (l1 ++ [i]). split; [by rw -app_assoc |].
  apply Forall_app. by rw Forall_singleton.
Qed.
Lemma migrate_one_triple i l2 : triple (progress (i :: l2)) (migrate_one i) (λ _, progress l2) pending.
Proof.
  apply triple_pre. intros d Hd. pose proof Hd as [Hp (l1 & Hl & Hf)]. unfold migrate_one. cbv zeta.
  assert (i ∈ l) as Hi. { rw Hl. apply elem_of_app. right. by left. }
  eapply triple_read_bind; [apply reader_path_exists | done |]. intros [] Hex.
  - apply triple_ret. intros ? ->. apply (progress_cons i); [done |]. destruct Hp as [_ Ho].
    destruct (Ho _ (Hex eq_refl)) as (j & Hj & Hji & Hs). by rw (same_uuid j i Hj Hi Hji) in Hs.
  - eapply triple_read_bind; [apply reader_or_bail | done |]. intros f Hfi%inst_roundtrip.
    apply triple_replace; [by intros ? -> |]. intros ? ->. apply (progress_cons i); [| by apply stored_insert; auto].
    split; [by apply pending_insert |]. exists l1. split; [done |]. rw Forall_forall => j Hj. apply stored_insert; try done.
    + rw Hl. apply elem_of_app. by left.
    + right. by apply (proj1 (Forall_forall _ _) Hf).
Qed.

Lemma migrate_triple : triple not_lost migrate_legacy_installations_file (λ _, migrated) not_lost.
Proof.
  apply triple_pre. intros d Hd. unfold migrate_legacy_installations_file.
  eapply triple_read_bind; [apply reader_optional | done |]. intros o ->. destruct Hd as [Hp | Hm]; last first.
  { destruct Hm as (Hn & Hm). rw Hn. apply triple_ret. intros ? ->. done. }
  rw (proj1 Hp) Hraw. eapply triple_read_bind; [apply reader_syscall | by left |]. intros [] _.
  eapply triple_bind.
  { eapply triple_conseq; [apply triple_for_each; intros; apply migrate_one_triple | | done |].
    - intros ? ->. split; [done |]. by exists [].
    - intros ? ?. by left. }
  intros []. apply triple_remove; [intros ? [? _]; by left |].
  intros d1 [[Hl Ho] (l1 & Hl1 & Hf)] _. rw app_nil_r in Hl1. subst l1.
  assert (∀ uuid, delete INSTALLATIONS_LEGACY_FILE d1 !! installation_state_path uuid = d1 !! installation_state_path uuid) as Hsame.
  { intros uuid. apply lookup_delete_ne, legacy_not_state. }
  assert (∀ j, stored (delete INSTALLATIONS_LEGACY_FILE d1) j ↔ stored d1 j) as Hst by (intros j; unfold stored, inst_on; by rw Hsame).
  split_and!.
  - apply lookup_delete_eq.
  - intros uuid. rw Hsame. intros (j & ? & ? & ?)%Ho. exists j. by rw Hst.
  - intros i Hi. rw Hst. by apply (proj1 (Forall_forall _ _) Hf).
Qed.

(** *** Without faults *)
(** What a migration makes of the file [n]: a file that is there is kept, and another is that of the first installation with
    that name in the older file. *)
Definition after_migration (l : list Installation) (d : dir) (n : string) : option file :=
  match d !! n with
  | Some f => Some f
  | None => i ← find (λ i, String.eqb (installation_state_path (inst_uuid i)) n) l; inst_to_string i
  end.
Lemma quiet_migrate_one d i f :
  inst_to_string i = Some f →
  quiet_run d (migrate_one i) (Ok ()) (match d !! installation_state_path (inst_uuid i) with Some _ => d | None => <[installation_state_path (inst_uuid i) := f]> d end).
Proof.
  intros Hf. unfold migrate_one. eapply quiet_bind; [apply quiet_path_exists |].
  destruct (d !! installation_state_path (inst_uuid i)) as [g|] eqn:E; simpl; [apply quiet_ret |].
  rw Hf. eapply quiet_bind; [apply quiet_ret | apply quiet_replace].
Qed.
Lemma quiet_migrate_all k d :
  (∀ i, i ∈ k → is_Some (inst_to_string i)) →
  ∃ d', quiet_run d (for_each k migrate_one) (Ok ()) d' ∧ ∀ n, d' !! n = after_migration k d n.
Proof.
  revert d. induction k as [|i k IH]; intros d Hser; simpl.
  { exists d. split; [apply quiet_ret |]. intros n. unfold after_migration. by destruct (d !! n). }
  destruct (Hser i (list_elem_of_here _ _)) as [f Hf]. pose proof (quiet_migrate_one d i f Hf) as Hone.
  destruct (IH (match d !! installation_state_path (inst_uuid i) with Some _ => d | None => <[installation_state_path (inst_uuid i) := f]> d end))
    as (d' & Hd' & Hn); [intros j Hj; apply Hser; by right |].
  exists d'. split; [by eapply quiet_bind |]. intros n. rw Hn. unfold after_migration. cbn [find].
  destruct (String.eqb_spec (installation_state_path (inst_uuid i)) n) as [<- | Hne].
  - destruct (d !! installation_state_path (inst_uuid i)) as [g|] eqn:E; [by rw E | by rw lookup_insert_eq -Hf].
  - destruct (d !! installation_state_path (inst_uuid i)) as [g|] eqn:E; [done | by rw lookup_insert_ne].
Qed.
Lemma quiet_migrate d :
  d !! INSTALLATIONS_LEGACY_FILE = Some raw → (∀ i, i ∈ l → is_Some (inst_to_string i)) →
  ∃ d', quiet_run d migrate_legacy_installations_file (Ok ()) d' ∧
    ∀ n, d' !! n = if decide (n = INSTALLATIONS_LEGACY_FILE) then None else after_migration l d n.
Proof.
  intros Hleg Hser. destruct (quiet_migrate_all l d Hser) as (d' & Hd' & Hn).
  exists (delete INSTALLATIONS_LEGACY_FILE d'). split.
  - unfold migrate_legacy_installations_file. eapply quiet_bind; [apply quiet_optional |]. rw Hleg Hraw.
    eapply quiet_bind; [apply quiet_syscall |]. eapply quiet_bind; [exact Hd' |]. apply (quiet_remove _ _ raw).
    rw Hn. unfold after_migration. by rw Hleg.
  - intros n. case_decide as E; [by subst n; rw lookup_delete_eq | rw lookup_delete_ne; [done | congruence]].
Qed.

(** ** The list *)
Lemma state_entries_NoDup names : NoDup names → NoDup (state_entries names).
Proof.
  induction 1 as [|n names Hn _ IH]; unfold state_entries in *; cbn [filter_map]; [constructor |].
  destruct (strip_prefix INSTALLATIONS_STATE_DIR n) as [e|]; [| exact IH]. destruct (has_json_extension e); [| exact IH].
  constructor; [| exact IH]. by intros (uuid & _ & ?)%elem_of_state_entries.
Qed.
Lemma migrated_listing d l' :
  migrated d → Forall2 (λ n i, d !! n ≫= inst_from_str = Some i) (state_entries (map_to_list d).*1) l' → l' ≡ₚ l.
Proof.
  intros (_ & Ho & Hs) Hf.
  assert (Forall2 (λ n i, n = installation_state_path (inst_uuid i) ∧ i ∈ l) (state_entries (map_to_list d).*1) l') as Hf2.
  { eapply Forall2_impl; [apply Forall2_elem_l, Hf |]. intros n i [(uuid & -> & _)%elem_of_state_entries Hi].
    destruct (Ho uuid) as (j & Hj & <- & Hst); [by destruct (d !! installation_state_path uuid) |].
    unfold stored, inst_on in Hst. rw Hst in Hi. by injection Hi as <-. }
  apply NoDup_Permutation.
  - apply (NoDup_fmap_1 (λ i, installation_state_path (inst_uuid i))).
    assert ((λ i, installation_state_path (inst_uuid i)) <$> l' = state_entries (map_to_list d).*1) as ->.
    { clear Hf. induction Hf2 as [|n i names k [-> _] _ IH]; [done |]. by rw fmap_cons IH. }
    apply state_entries_NoDup, NoDup_fst_map_to_list.
  - by apply NoDup_fmap_1 in Hnodup.
  - intros i. split.
    + intros Hi. by destruct (elem_of_Forall2_r _ _ _ _ Hf2 Hi) as (n & _ & _ & ?).
    + intros Hi. assert (installation_state_path (inst_uuid i) ∈ state_entries (map_to_list d).*1) as Hin.
      { apply installation_entry.
        - intros Hu. apply Huuid. rw -Hu. by apply list_elem_of_fmap_2.
        - pose proof (Hs i Hi) as Hst. unfold stored, inst_on in Hst. destruct (d !! installation_state_path (inst_uuid i)) as [f|] eqn:E; [| done].
          apply list_elem_of_fmap. exists (installation_state_path (inst_uuid i), f). split; [done |]. by apply elem_of_map_to_list. }
      apply Forall2_flip in Hf2. destruct (elem_of_Forall2_r _ _ _ _ Hf2 Hin) as (j & Hj & Heq%installation_path_inj & Hjl).
      by rw (same_uuid i j Hi Hjl Heq).
Qed.

Lemma read_installations_triple :
  triple not_lost read_installations
    (λ r d, migrated d ∧ r ≡ₚ l ∧ StronglySorted (cmp_lt by_uuid) r) not_lost.
Proof.
  eapply triple_bind; [apply migrate_triple |]. intros []. apply triple_pre. intros d Hd.
  assert (not_lost d) as Hnl by by right.
  eapply triple_read_bind; [apply reader_names | done |]. intros names ->.
  eapply triple_read_bind; [apply reader_read_files | done |]. intros l' Hl'. apply triple_ret. intros ? ->.
  pose proof (migrated_listing _ _ Hd Hl') as Hperm. split_and!; [done | by rw sort_by_perm |].
  apply sort_by_strict; [apply (cmp_pullback inst_uuid), string_compare_order | rw Hperm; by apply NoDup_fmap_1 in Hnodup |].
  intros i j. rw !Hperm => Hi Hj Heq. apply same_uuid; [done | done |]. by apply String.compare_eq_iff.
Qed.
End migrate.
