(* ===== verification/AutoInstallProps.v ===== *)
(** * Concrete automated installations

    Instances of the parameters: a template is a text or the name of a counter or of a piece of
    the system information in braces, a pattern may end in a star, a file holds one line with
    the code number of its content; and the configuration the witnesses run on.
    The theorems follow the concrete instances they are tried on. *)
From S2P Require Import Prelude RustStr Remotes Disk ApiCache RemotesConfig Examples AutoInstallConfig AutoInstaller AutoInstallFacts AutoInstallStore.

#[local] Open Scope string_scope.

Global Instance ex_install_env : InstallEnv := {|
  SystemInfo := gmap string string;
  PostHookInfo := string;
  KeyboardLayout := string;
  RebootMode := bool;
  FilterMatch := bool;
  LvmOptions := string;
  ZfsOptions := string;
  BtrfsOptions := string;
  Fqdn := string;
  Cidr := string;
  IpAddr := string;
  pointer_str info key := info !! key;
  glob_pattern p := if has_char "[" p then None
                    else match split_once "*" p with
                         | Some (pre, "") => Some (λ v, match strip_prefix pre v with Some _ => true | None => false end)
                         | _ => Some (String.eqb p)
                         end;
  render_named_str tmpl info counters :=
    match strip_prefix "{" tmpl ≫= strip_suffix "}" with
    | Some key => match counters !! key with Some n => Some (show_int n) | None => info !! key end
    | None => Some tmpl
    end;
  fqdn_from s := if has_char "." s then Some s else None;
  parse_cidr s := Some s;
  parse_ip s := if has_char "." s then Some s else None;
  encrypt_pw s := Some ("$5$" ++ s);
  verify_crypt_pw s hash := String.eqb hash ("$5$" ++ s);
|}.

(** ** Code numbers *)
Global Instance AnswerToken_eq_dec : EqDecision AnswerToken.
Proof. solve_decision. Defined.
Global Instance AnswerToken_countable : Countable AnswerToken.
Proof.
  refine (inj_countable' (λ t, (tok_id t, created_by t, comment t, enabled t, expire_at t))
    (λ '(i, u, c, e, x), {| tok_id := i; created_by := u; comment := c; enabled := e; expire_at := x |}) _). by intros [].
Defined.

Global Instance FilesystemOptions_eq_dec : EqDecision FilesystemOptions.
Proof. solve_decision. Defined.
Global Instance FilesystemOptions_countable : Countable FilesystemOptions.
Proof.
  refine (inj_countable' (λ f, match f with Ext4 o => (0%Z, o) | Xfs o => (1%Z, o) | Zfs o => (2%Z, o) | Btrfs o => (3%Z, o) end)
    (λ '(k, o), if (k =? 0)%Z then Ext4 o else if (k =? 1)%Z then Xfs o else if (k =? 2)%Z then Zfs o else Btrfs o) _). by intros [].
Defined.
Global Instance DiskSelectionMode_countable : Countable DiskSelectionMode.
Proof.
  refine (inj_countable' (λ m, bool_decide (m = Fixed)) (λ b, if b : bool then Fixed else DiskFilter) _). by intros [].
Defined.
Global Instance InstallationStatus_countable : Countable InstallationStatus.
Proof.
  refine (inj_countable' (λ s, match s with AnswerSent => 0%Z | NoAnswerFound => 1%Z | InProgress => 2%Z | Finished => 3%Z end)
    (λ k, if (k =? 0)%Z then AnswerSent else if (k =? 1)%Z then NoAnswerFound else if (k =? 2)%Z then InProgress else Finished) _).
  by intros [].
Defined.

(** The fields of a configuration, one code number each *)
Definition config_fields (p : PreparedInstallationConfig) : list positive :=
  [encode (pc_id p); encode (authorized_tokens p); encode (is_default p); encode (target_filter p); encode (country p);
   encode (fqdn p); encode (use_dhcp_fqdn p); encode (keyboard p); encode (mailto p); encode (timezone p); encode
   (root_password_hashed p); encode (reboot_on_error p); encode (reboot_mode p); encode (root_ssh_keys p); encode
   (use_dhcp_network p); encode (cidr p); encode (gateway p); encode (dns p); encode (netdev_filter p); encode
   (netif_name_pinning_enabled p); encode (filesystem p); encode (disk_mode p); encode (disk_list p); encode
   (disk_filter p); encode (disk_filter_match p); encode (post_hook_base_url p); encode (post_hook_cert_fp p); encode
   (template_counters p); encode (subscription_key p)].
Definition fields_config (l : list positive) : option PreparedInstallationConfig :=
  match l with
  | [x0; x1; x2; x3; x4; x5; x6; x7; x8; x9; x10; x11; x12; x13; x14; x15; x16; x17; x18; x19; x20; x21; x22; x23; x24;
     x25; x26; x27; x28] =>
      y0 ← decode x0; y1 ← decode x1; y2 ← decode x2; y3 ← decode x3; y4 ← decode x4; y5 ← decode x5; y6 ← decode x6; y7 ←
      decode x7; y8 ← decode x8; y9 ← decode x9; y10 ← decode x10; y11 ← decode x11; y12 ← decode x12; y13 ← decode
      x13; y14 ← decode x14; y15 ← decode x15; y16 ← decode x16; y17 ← decode x17; y18 ← decode x18; y19 ← decode x19;
      y20 ← decode x20; y21 ← decode x21; y22 ← decode x22; y23 ← decode x23; y24 ← decode x24; y25 ← decode x25; y26
      ← decode x26; y27 ← decode x27; y28 ← decode x28;
      Some {| pc_id := y0; authorized_tokens := y1; is_default := y2; target_filter := y3; country := y4; fqdn := y5; use_dhcp_fqdn
        := y6; keyboard := y7; mailto := y8; timezone := y9; root_password_hashed := y10; reboot_on_error := y11;
        reboot_mode := y12; root_ssh_keys := y13; use_dhcp_network := y14; cidr := y15; gateway := y16; dns := y17;
        netdev_filter := y18; netif_name_pinning_enabled := y19; filesystem := y20; disk_mode := y21; disk_list :=
        y22; disk_filter := y23; disk_filter_match := y24; post_hook_base_url := y25; post_hook_cert_fp := y26;
        template_counters := y27; subscription_key := y28 |}
  | _ => None
  end.
Lemma fields_config_fields p : fields_config (config_fields p) = Some p.
Proof. destruct p. unfold fields_config, config_fields. cbn. by rw !decode_encode. Qed.
Global Instance PreparedInstallationConfig_eq_dec : EqDecision PreparedInstallationConfig.
Proof. solve_decision. Defined.
Global Instance PreparedInstallationConfig_countable : Countable PreparedInstallationConfig :=
  inj_countable config_fields fields_config fields_config_fields.

Global Instance Installation_eq_dec : EqDecision Installation.
Proof. solve_decision. Defined.
Global Instance Installation_countable : Countable Installation.
Proof.
  refine (inj_countable' (λ i, (inst_uuid i, received_at i, inst_status i, inst_info i, (answer_id i, post_hook_data i, post_hook_token i)))
    (λ '(u, r, s, n, (a, d, t)), {| inst_uuid := u; received_at := r; inst_status := s; inst_info := n; answer_id := a;
                                    post_hook_data := d; post_hook_token := t |}) _). by intros [].
Defined.

Definition number_file {A} `{Countable A} (a : A) : file := [Text (pos_string (encode a))].
Definition file_number {A} `{Countable A} (f : file) : option A :=
  match f with [Text s] => decode (string_pos s) | _ => None end.
Lemma file_number_file {A} `{Countable A} (a : A) : file_number (number_file a) = Some a.
Proof. simpl. by rw string_pos_pos_string decode_encode. Qed.

Global Instance ex_install_json : InstallJson := {|
  inst_to_string i := Some (number_file i);
  inst_from_str := file_number;
  legacy_from_str := file_number;
  shadow_to_string m := Some (number_file m);
  shadow_from_str := file_number;
|}.
Global Instance ex_install_laws : InstallJsonLaws.
Proof. split; intros ? ? [= <-]; apply file_number_file. Qed.
Global Instance ex_prepared_sections : SectionData PreparedInstallationConfig := map_sections PreparedInstallationConfig.
Global Instance ex_prepared_laws : SectionLaws PreparedInstallationConfig := map_sections_laws PreparedInstallationConfig.
Global Instance ex_token_sections : SectionData AnswerToken := map_sections AnswerToken.
Global Instance ex_token_laws : SectionLaws AnswerToken := map_sections_laws AnswerToken.

(** ** A configuration

    A prepared configuration for the machines of a rack, a default one, and the token of both. *)
Definition ex_prepared (id : string) (default : bool) (filter : gmap string string) (name : string) : PreparedInstallationConfig := {|
  pc_id := id; authorized_tokens := ["rack"]; is_default := default; target_filter := filter; country := "at"; fqdn := name;
  use_dhcp_fqdn := false; keyboard := "de"; mailto := "admin@example.com"; timezone := "UTC"; root_password_hashed := Some "$5$root";
  reboot_on_error := false; reboot_mode := true; root_ssh_keys := []; use_dhcp_network := true; cidr := None; gateway := None;
  dns := None; netdev_filter := ∅; netif_name_pinning_enabled := true; filesystem := Ext4 "lvm"; disk_mode := Fixed;
  disk_list := ["sda"]; disk_filter := ∅; disk_filter_match := None; post_hook_base_url := Some "https://pdm.example:8443/";
  post_hook_cert_fp := None; template_counters := {[ "node" := 7%Z ]}; subscription_key := None |}.
Definition ex_rack : PreparedInstallationConfig := ex_prepared "rack" false {[ "/dmi/serial" := "SN*" ]} "{/dmi/name}".
Definition ex_any : PreparedInstallationConfig := ex_prepared "any" true ∅ "any.example".
Definition ex_token : AnswerToken :=
  {| tok_id := "rack"; created_by := "root@pam"; comment := None; enabled := None; expire_at := Some 1000%Z |}.
Definition ex_info : gmap string string := {[ "/dmi/serial" := "SN42"; "/dmi/name" := "node7.example" ]}.

Definition ex_install_disk : dir :=
  <[PREPARED_CONF_FILE := number_file ({[ "rack" := ex_rack; "any" := ex_any ]} : gmap string PreparedInstallationConfig)]>
  (<[TOKENS_CONF_FILE := number_file ({[ "rack" := ex_token ]} : gmap string AnswerToken)]>
  (<[TOKENS_SHADOW_FILE := number_file ({[ "rack" := "$5$secret" ]} : gmap string string)]> ∅)).
Definition ex_digest (_ : file) : string := "".

(** A machine with the token asks for an answer and reports back. *)
Definition ex_ask (w : world) : result error http_response * world :=
  api_function_new_installation (λ d, d) "uuid-1" 900 (Some "hook-secret") (Some "Bearer rack:secret") (Some ex_info) w.
Definition ex_done : @PostHookInfo ex_install_env := "done".
Definition ex_report (w : world) : result error () * world := handle_post_hook "uuid-1" "hook-secret" ex_done w.
Definition ex_asked : dir := disk (ex_ask (quiet_world ex_install_disk)).2.

(** * Automated installations: theorems

    Who gets which answer, that the prepared configurations stay sane, the callback, the secrets
    of tokens, and the migration of the older file. *)

#[local] Open Scope list_scope.

Lemma run_as {A} (m : IO A) w : m w = ((m w).1, (m w).2).
Proof. by destruct (m w). Qed.

Section props.
Context `{InstallEnv, !InstallJson, !InstallJsonLaws, !SectionData PreparedInstallationConfig, !SectionData AnswerToken,
  !SectionLaws PreparedInstallationConfig, !SectionLaws AnswerToken}.
Context (digest_of : file → string).

(** ** Answers *)
Lemma chosen_facts token_id info l p : chosen token_id info l = Some p →
  token_id ∈ authorized_tokens p ∧ (is_default p = false → forallb (filter_matches info) (map_to_list (target_filter p)) = true).
Proof.
  unfold chosen. destruct (find (specific token_id info) l) as [q|] eqn:Hs.
  - intros [= <-]. apply find_some in Hs as [_ Hs]. unfold specific, authorises in Hs.
    apply andb_true_iff in Hs as [Hs Hf]. do 2 apply andb_true_iff in Hs as [Hs _]. by apply bool_decide_eq_true in Hs.
  - intros Hf%find_some. destruct Hf as [_ Hf]. apply andb_true_iff in Hf as [Ha Hd]. apply bool_decide_eq_true in Ha.
    split; [done | congruence].
Qed.

(** C9: A request for an answer is served only for a token that is stored, active and named with its secret in the header; a
    request that is not authorized changes nothing.  The answer is that of the first configuration for the token whose filters all
    match the machine, or else of the last default one for the token; it is rendered for the machine, the installation is
    stored with the secret of the callback that is in the answer, and the counters of the configuration advance. *)
Theorem answer_authorised meanwhile uuid now random auth_header payload w :
  match api_function_new_installation meanwhile uuid now random auth_header payload w with
  | (Ok Unauthorized, w') => disk w' = disk w
  | (Ok (OkAnswer a), w') => ∃ id info p, authenticated (disk w) now (default "" auth_header)%string id ∧ payload = Some info ∧
      answered meanwhile uuid now id info (disk w) (disk w') a p ∧ id ∈ authorized_tokens p ∧
      (is_default p = false → forallb (filter_matches info) (map_to_list (target_filter p)) = true)
  | (Ok (BadRequest _), _) => ∃ id, authenticated (disk w) now (default "" auth_header)%string id
  | (Err _, w') => disk w' = disk w
  end.
Proof.
  unfold api_function_new_installation, mbind, IO_bind. destruct (verify_reader now (default "" auth_header)%string w) as [Hd Hv].
  destruct (verify_answer_authorization_header now _ w) as [[[id|] | e] w1]; simpl in *; [| done | done].
  specialize (Hv _ eq_refl _ eq_refl). destruct payload as [info|]; simpl; [| by exists id].
  unfold attempt. destruct (new_installation meanwhile uuid now random id info w1) as [[a | e] w2] eqn:Hr; simpl; [| by exists id].
  destruct (new_installation_run _ _ _ _ _ _ _ _ _ Hr) as [p Hp]. rw Hd in Hp. exists id, info, p. split_and!; try done.
  all: destruct (an_chosen _ _ _ _ _ _ _ _ _ Hp) as (c & _ & Hc); by apply chosen_facts in Hc as [? ?].
Qed.

(** ** The callback *)
(** C26: A callback is accepted only for an installation that is in progress, has no data yet, and with the secret that was
    handed out, which is not empty; the installation is then stored as finished with the data, no other file changes, and no
    later callback for it is accepted while its file says so, whatever happens to the others.  A callback that is refused
    changes nothing, and the right one is refused only when a file operation fails, a file of an installation cannot be parsed
    or the result cannot be serialised.  Files are named by the uuid in them and the older single file has been migrated;
    the calls run one after the other, as they do when the lock is taken. *)
Theorem installation_finishes_once uuid token info w :
  installs_wf (disk w) →
  match handle_post_hook uuid token info w with
  | (Ok _, w') => (∃ i f, awaiting (disk w) uuid token i ∧
      disk w' = <[installation_state_path uuid := f]> (disk w) ∧ inst_from_str f = Some (finish_installation info i)) ∧
      installs_wf (disk w') ∧
      ∀ token2 info2 w2, installs_wf (disk w2) → inst_on (disk w2) uuid = inst_on (disk w') uuid →
        ∃ e, (handle_post_hook uuid token2 info2 w2).1 = Err e
  | (Err _, w') => disk w' = disk w ∧
      (quiet w → readable (disk w) → uuid ≠ ""%string → ∀ i, awaiting (disk w) uuid token i →
        inst_to_string (finish_installation info i) = None)
  end.
Proof.
  intros Hwf. pose proof (handle_post_hook_run uuid token info w Hwf) as Hrun.
  destruct (handle_post_hook uuid token info w) as [[[] | e] w'] eqn:Hcall; last first.
  { split; [done |]. intros Hq Hread Hu i Hi. destruct (inst_to_string _) as [f|] eqn:Hf; [| done].
    destruct (quiet_post_hook _ _ _ info i f Hwf Hread Hu Hi Hf) as (d' & Hrun'). by destruct (Hrun' w Hq eq_refl) as [Hr _]; rw Hcall in Hr. }
  destruct Hrun as (i & f & Hi & Hst & Hdata & Htok & Hsec & Hd & Hf). split; [by exists i, f |].
  assert (inst_on (disk w') uuid = Some (finish_installation info i)) as Hon by (unfold inst_on; by rw Hd lookup_insert_eq).
  assert (installs_wf (disk w')) as Hwf'.
  { destruct Hwf as [Hn Hl]. split.
    - intros u j Hj. destruct (decide (uuid = u)) as [<- | Hne].
      + rw Hon in Hj. injection Hj as <-. simpl. by apply Hn.
      + unfold inst_on in Hj. rw Hd lookup_insert_ne in Hj; [by intros ?%installation_path_inj |]. by apply Hn.
    - by rw Hd lookup_insert_ne. }
  split; [done |]. intros token2 info2 w2 Hwf2 Hw2. rw -Hw2 in Hon.
  pose proof (handle_post_hook_run uuid token2 info2 w2 Hwf2) as Hrun2.
  destruct (handle_post_hook uuid token2 info2 w2) as [[[] | e] w3]; [| by exists e].
  destruct Hrun2 as (j & f' & Hj & Hs & _). rw Hon in Hj. injection Hj as <-. done.
Qed.

(** ** Tokens *)
(** A request on a token, whatever calls fail, leaves every other token alone and stores no hash but that of its new
    secret; when it succeeds the token is as requested, with the hash of the new secret if there is one, and a deleted token is
    used by no configuration.  So afterwards nobody authenticates who could not before, but with the new secret. *)
Theorem token_requests_sound (r : token_request) w :
  tokens_wf (disk w) →
  let '(res, w') := run_request digest_of r w in
  touched (request_id r) (request_secret r) (disk w) (disk w') ∧
  (∀ out, res = Ok out → request_done r (disk w) (disk w') out) ∧
  ∀ now header id, authenticated (disk w') now header id →
    if decide (id = request_id r) then
      ∃ given hash, bearer header = Some (id, given) ∧ verify_crypt_pw given hash = true ∧
        (hash_at (disk w) id = Some hash ∨ encrypt_pw (request_secret r) = Some hash)
    else authenticated (disk w) now header id.
Proof.
  intros Hwf.
  assert (triple (λ d, d = disk w) (run_request digest_of r)
    (λ out d, touched (request_id r) (request_secret r) (disk w) d ∧ request_done r (disk w) d out)
    (touched (request_id r) (request_secret r) (disk w))) as Ht.
  { destruct r; [apply create_token_triple | by apply update_token_triple | apply delete_token_triple]. }
  specialize (Ht w eq_refl). destruct (run_request digest_of r w) as [res w'].
  assert (touched (request_id r) (request_secret r) (disk w) (disk w')) as Htouch by (destruct res; [apply Ht | done]).
  split_and!; [done | by destruct res; intros out [= <-]; apply Ht |].
  intros now header id (given & c & t & m & hash & Hb & Hc & Hg & Ha & Hm & Hh & Hv).
  assert (tok_at (disk w') id = Some t) as Htok by (unfold tok_at; by rw Hc /=).
  assert (hash_at (disk w') id = Some hash) as Hhash by (unfold hash_at; by rw Hm /=).
  case_decide as Hid; [subst id; exists given, hash; split_and!; [done | done |]; by apply (to_own _ _ _ _ Htouch) |].
  rw (to_tokens _ _ _ _ Htouch _ Hid) in Htok. rw (to_hashes _ _ _ _ Htouch _ Hid) in Hhash.
  unfold tok_at, hash_at in *. destruct (tokens_on (disk w)) as [c0|] eqn:Hc0; [| done]. destruct (shadow_on (disk w)) as [m0|] eqn:Hm0; [| done].
  by exists given, c0, t, m0, hash.
Qed.

(** ** All handlers *)
Lemma prepared_ok_other d d' : d' !! PREPARED_CONF_FILE = d !! PREPARED_CONF_FILE → prepared_ok d → prepared_ok d'.
Proof. intros Hd [c [Hc Hwf]]. exists c. split; [| done]. unfold prepared_on, section_on in *. by rw Hd. Qed.
Lemma keeps_request r : keeps prepared_ok (run_request digest_of r).
Proof.
  destruct r; unfold run_request; (apply keeps_bind; [apply keeps_token_files | intros; apply keeps_ret]).
  - apply only_create_token.
  - apply only_bind; [eapply only_reader, reader_ignored_lock |]. intros []. apply only_bind; [eapply only_reader, reader_section |].
    intros c. apply only_bind; [eapply only_reader, reader_detect |]. intros [].
    destruct (sec_get c.1 id); [| apply only_fail]. cbv zeta. destruct regenerate.
    + apply only_bind; [apply only_remove_token |]. intros _. apply only_bind; [apply only_add_token |]. intros _. eapply only_reader, reader_ret.
    + apply only_bind; [apply only_context, only_replace_token |]. intros _. eapply only_reader, reader_ret.
  - apply only_bind; [eapply only_reader, reader_section |]. intros c. destruct (token_used id c.1); [apply only_fail |].
    apply only_bind; [eapply only_reader, reader_ignored_lock |]. intros []. apply only_remove_token.
Qed.

Lemma keeps_other_replace n f : n ≠ PREPARED_CONF_FILE → keeps prepared_ok (fs_replace n f).
Proof. intros Hn. apply keeps_replace. intros d. apply prepared_ok_other. by rw lookup_insert_ne. Qed.
Lemma keeps_other_remove n : n ≠ PREPARED_CONF_FILE → keeps prepared_ok (fs_remove n).
Proof. intros Hn. apply keeps_remove. intros d Hd _. eapply prepared_ok_other; [| exact Hd]. by rw lookup_delete_ne. Qed.
Lemma state_path_other uuid : installation_state_path uuid ≠ PREPARED_CONF_FILE.
Proof. done. Qed.
Lemma keeps_or_bail {A} (o : option A) msg : keeps prepared_ok (or_bail o msg).
Proof. destruct o; [apply keeps_ret | apply keeps_fail]. Qed.
Lemma keeps_rename from to : from ≠ PREPARED_CONF_FILE → to ≠ PREPARED_CONF_FILE → keeps prepared_ok (fs_rename from to).
Proof.
  intros Hf Ht. apply keeps_bind; [apply keeps_syscall |]. intros _ w Hw. unfold mbind, IO_bind, get_disk.
  destruct (disk w !! from); simpl; [| done]. eapply prepared_ok_other; [| exact Hw]. by rw lookup_insert_ne // lookup_delete_ne.
Qed.
Lemma keeps_migrate : keeps prepared_ok migrate_legacy_installations_file.
Proof.
  eapply keeps_reader_bind; [apply reader_optional |]. intros _ o _ _. destruct o as [raw|]; [| apply keeps_ret].
  destruct (legacy_from_str raw) as [l|]; [| by apply keeps_rename].
  apply keeps_bind; [apply keeps_syscall |]. intros _. apply keeps_bind; [| intros _; by apply keeps_other_remove].
  apply keeps_for_each. intros i _. eapply keeps_reader_bind; [apply reader_path_exists |]. intros _ b _ _.
  destruct b; [apply keeps_ret |]. apply keeps_bind; [apply keeps_or_bail |]. intros f. apply keeps_other_replace, state_path_other.
Qed.
Lemma keeps_read_installations : keeps prepared_ok read_installations.
Proof.
  apply keeps_bind; [apply keeps_migrate |]. intros _ w Hw. by destruct (reader_state_files w) as [-> _].
Qed.
Lemma keeps_post_hook uuid token info : keeps prepared_ok (handle_post_hook uuid token info).
Proof.
  apply keeps_ignored_lock, keeps_bind; [apply keeps_read_installations |]. intros l. destruct (find (awaits_hook uuid) l); [| apply keeps_fail].
  cbv zeta. destruct (_ || _); [apply keeps_fail | apply keeps_save_installation].
Qed.
Lemma keeps_delete_installation uuid : keeps prepared_ok (delete_installation uuid).
Proof.
  apply keeps_ignored_lock, keeps_bind; [| intros []; [apply keeps_ret | apply keeps_fail]].
  apply keeps_bind; [apply keeps_attempt, keeps_other_remove, state_path_other |].
  intros [[] | [[] msg]]; [apply keeps_ret | apply keeps_ret | apply keeps_fail].
Qed.

(** A call of a handler, and what others do to the files meanwhile *)
Inductive install_op :=
| OpAnswer (meanwhile : dir → dir) (uuid : string) (now : Z) (random auth_header : option string) (payload : option SystemInfo)
| OpPostHook (uuid token : string) (info : PostHookInfo)
| OpListInstallations
| OpDeleteInstallation (uuid : string)
| OpCreatePrepared (user random : option string) (secret : string) (config : PreparedInstallationConfig) (root_password : option string)
| OpUpdatePrepared (user random : option string) (secret id : string) (u : PreparedInstallationConfigUpdater)
    (root_password : option string) (del : option (list DeletablePreparedInstallationConfigProperty)) (digest : option string)
| OpDeletePrepared (id : string)
| OpToken (r : token_request).
Definition run_install_op (o : install_op) : IO () :=
  match o with
  | OpAnswer meanwhile uuid now random auth_header payload =>
      _ ← api_function_new_installation meanwhile uuid now random auth_header payload; mret ()
  | OpPostHook uuid token info => handle_post_hook uuid token info
  | OpListInstallations => _ ← list_installations; mret ()
  | OpDeleteInstallation uuid => delete_installation uuid
  | OpCreatePrepared user random secret config root_password =>
      _ ← create_prepared_answer user random secret config root_password; mret ()
  | OpUpdatePrepared user random secret id u root_password del digest =>
      _ ← update_prepared_answer digest_of user random secret id u root_password del digest; mret ()
  | OpDeletePrepared id => delete_prepared_answer id
  | OpToken r => _ ← run_request digest_of r; mret ()
  end.
(** Counters arrive as 32 bit integers; the others are handlers, too. *)
Definition install_op_ok (o : install_op) : Prop :=
  match o with
  | OpAnswer meanwhile _ _ _ _ _ => ∀ d, prepared_ok d → prepared_ok (meanwhile d)
  | OpCreatePrepared _ _ _ config _ => counters_i32 (template_counters config)
  | OpUpdatePrepared _ _ _ _ u _ _ _ => ∀ m, u_template_counters u = Some m → counters_i32 m
  | _ => True
  end.
Inductive install_step (d : dir) : dir → Prop :=
| install_step_run o tick faults :
    install_op_ok o → install_step d (disk (run_install_op o (World d tick faults)).2).

(** C25: At all times the prepared configurations can be read, have the id they are stored under, at most one is the default
    answer, every other has a filter, each has a token, and the counters and filters are valid, whatever handlers run and
    fail. *)
Theorem prepared_configs_sane d d' : prepared_ok d → rtc install_step d d' → prepared_ok d'.
Proof.
  intros Hd Hs. induction Hs as [|d d1 d2 [o tick faults Ho] _ IH]; [done |]. apply IH.
  assert (keeps prepared_ok (run_install_op o)) as Hk; [| by apply (Hk (World d tick faults))].
  destruct o; simpl in *.
  - apply keeps_bind; [| intros; apply keeps_ret]. eapply keeps_reader_bind; [apply verify_reader |]. intros _ [id|] _ _; [| apply keeps_ret].
    destruct payload; [| apply keeps_ret]. apply keeps_bind; [apply keeps_attempt, keeps_new_installation, Ho | intros; apply keeps_ret].
  - apply keeps_post_hook.
  - apply keeps_bind; [| intros; apply keeps_ret]. apply keeps_ignored_lock, keeps_bind; [apply keeps_read_installations | intros; apply keeps_ret].
  - apply keeps_delete_installation.
  - apply keeps_bind; [by apply keeps_create_prepared | intros; apply keeps_ret].
  - apply keeps_bind; [by apply keeps_update_prepared | intros; apply keeps_ret].
  - apply keeps_delete_prepared.
  - apply keeps_bind; [apply keeps_request | intros; apply keeps_ret].
Qed.

(** ** Migration *)
Fixpoint attempts (n : nat) (w : world) : world :=
  match n with O => w | S n => attempts n (read_installations w).2 end.
(** C27: A migration of the older file in which no file operation fails keeps every file of an installation that is there,
    adds those of the other installations in the older file, removes that file, and changes nothing else.  If no installation
    had a file of its own before: however often reading the installations fails in the middle of the migration, the older file
    is there as long as not every installation in it has a file of its own; and when reading succeeds it lists exactly the
    installations of the older file, ordered by uuid. *)
Theorem migration_keeps_installations raw l n w :
  legacy_from_str raw = Some l → NoDup (inst_uuid <$> l) → ""%string ∉ inst_uuid <$> l →
  disk w !! INSTALLATIONS_LEGACY_FILE = Some raw →
  (quiet w → (∀ i, i ∈ l → is_Some (inst_to_string i)) →
    let '(r, w') := migrate_legacy_installations_file w in
    r = Ok () ∧ disk w' !! INSTALLATIONS_LEGACY_FILE = None ∧
    ∀ name, name ≠ INSTALLATIONS_LEGACY_FILE → disk w' !! name = after_migration l (disk w) name) ∧
  ((∀ uuid, disk w !! installation_state_path uuid = None) →
    let w' := attempts n w in
    (disk w' !! INSTALLATIONS_LEGACY_FILE = Some raw ∨ ∀ i, i ∈ l → inst_on (disk w') (inst_uuid i) = Some i) ∧
    ∀ r w2, read_installations w' = (Ok r, w2) →
      r ≡ₚ l ∧ StronglySorted (cmp_lt by_uuid) r ∧ disk w2 !! INSTALLATIONS_LEGACY_FILE = None ∧
      ∀ i, i ∈ l → inst_on (disk w2) (inst_uuid i) = Some i).
Proof.
  intros Hraw Hnd Hu Hl. split.
  { intros Hq Hser. destruct (quiet_migrate raw l Hraw (disk w) Hl Hser) as (d' & Hrun & Hd').
    destruct (Hrun w Hq eq_refl) as (Hr & Hd & _). destruct (migrate_legacy_installations_file w) as [r w']; simpl in *. subst r. rw Hd.
    split_and!; [done | rw Hd'; by case_decide |]. intros name Hne. rw Hd'; by case_decide. }
  intros Hnone. cbv zeta. pose proof (read_installations_triple raw l Hraw Hnd Hu) as Htr.
  assert (not_lost raw l (disk (attempts n w))) as Hnl.
  { assert (not_lost raw l (disk w)) as Hstart.
    { left. split; [done |]. intros uuid. rw Hnone. by intros []. }
    clear Hl Hnone. revert w Hstart. induction n as [|n IH]; intros w Hw; [done |]. simpl. apply IH.
    specialize (Htr w Hw). destruct (read_installations w) as [[r | e] w1]; [by right; destruct Htr | done]. }
  split.
  - destruct Hnl as [[? _] | (_ & _ & ?)]; [by left | by right].
  - intros r w2 Hr. specialize (Htr _ Hnl). rw Hr in Htr. destruct Htr as ((? & _ & ?) & ? & ?). done.
Qed.
End props.

(** ** Witnesses *)
#[local] Open Scope string_scope.

Definition ex_prepared_data : sec_data PreparedInstallationConfig :=
  ({[ "rack" := ex_rack; "any" := ex_any ]} : gmap string PreparedInstallationConfig).
Lemma ex_prepared_ok : prepared_ok ex_install_disk.
Proof.
  exists ex_prepared_data.
  assert (∀ k p, sec_get ex_prepared_data k = Some p → (k = "rack" ∧ p = ex_rack) ∨ (k = "any" ∧ p = ex_any)) as Hcases.
  { intros k p. simpl. rw lookup_insert_Some lookup_singleton_Some. intros [[<- <-] | [_ [<- <-]]]; auto. }
  split; [by_computation |]. split.
  - intros k p Hp. by destruct (Hcases k p Hp) as [[-> ->] | [-> ->]].
  - intros k p Hp. destruct (Hcases k p Hp) as [[-> ->] | [-> ->]]; split; simpl; try done.
    all: first [by intros k' v [?|?] | intros k' v ?%lookup_singleton_Some; by destruct_and!; subst].
  - intros k1 k2 p1 p2 H1 H2. destruct (Hcases k1 p1 H1) as [[-> ->] | [-> ->]], (Hcases k2 p2 H2) as [[-> ->] | [-> ->]]; done.
Qed.

(** The machine gets the answer for its rack, with the secret the callback later needs. *)
Definition served (r : result error http_response) : option (option (option string)) :=
  match r with Ok (OkAnswer a) => Some (auth_token <$> post_installation_webhook a) | _ => None end.
Lemma answer_authorised_witness :
  served (ex_ask (quiet_world ex_install_disk)).1 = Some (Some (Some "hook-secret")) ∧
  ∃ id p, authenticated ex_install_disk 900 "Bearer rack:secret" id ∧ id ∈ authorized_tokens p ∧
    (is_default p = false → forallb (filter_matches ex_info) (map_to_list (target_filter p)) = true).
Proof.
  assert (served (ex_ask (quiet_world ex_install_disk)).1 = Some (Some (Some "hook-secret"))) as Hs by (vm_compute; reflexivity).
  split; [exact Hs |].
  pose proof (answer_authorised (λ d, d) "uuid-1" 900 (Some "hook-secret") (Some "Bearer rack:secret") (Some ex_info) (quiet_world ex_install_disk)) as Ht.
  revert Ht Hs. unfold ex_ask. generalize (api_function_new_installation (λ d, d) "uuid-1" 900 (Some "hook-secret") (Some "Bearer rack:secret")
    (Some ex_info) (quiet_world ex_install_disk)). intros [[[] | e] w'] Ht Hs; [discriminate Hs | | discriminate Hs | discriminate Hs].
  destruct Ht as (id & info & p & Hauth & Hinfo & _ & Hin & Hf). injection Hinfo as <-. exists id, p. split; [exact Hauth |]. split; [exact Hin | exact Hf].
Defined.

Lemma ex_names uuid i : inst_on ex_asked uuid = Some i → inst_uuid i = uuid.
Proof.
  assert (∀ n, n ∈ (map_to_list ex_asked).*1 → n ∈ [installation_state_path "uuid-1"; PREPARED_CONF_FILE; TOKENS_CONF_FILE; TOKENS_SHADOW_FILE]) as Hn.
  { apply Forall_forall. by_computation. }
  intros Hi. assert (installation_state_path uuid ∈ (map_to_list ex_asked).*1) as Hin.
  { unfold inst_on in Hi. destruct (ex_asked !! installation_state_path uuid) as [f|] eqn:E; [| done].
    apply list_elem_of_fmap. exists (installation_state_path uuid, f). split; [done |]. by apply elem_of_map_to_list. }
  apply Hn in Hin. clear Hn. apply elem_of_cons in Hin as [->%installation_path_inj | Hin]; last first.
  { exfalso. clear Hi. by apply elem_of_cons in Hin as [Hx | [Hx | [Hx | Hx%not_elem_of_nil]%elem_of_cons]%elem_of_cons]. }
  assert (inst_uuid <$> inst_on ex_asked "uuid-1" = Some "uuid-1") as Hu by (vm_compute; reflexivity).
  rw Hi in Hu. by injection Hu.
Qed.
Lemma ex_tokens_wf : tokens_wf ex_install_disk.
Proof.
  assert (tokens_on ex_install_disk = Some ({[ "rack" := ex_token ]} : gmap string AnswerToken)) as Ht by by_computation.
  intros k t. unfold tok_at. rw Ht. simpl. intros Hk%lookup_singleton_Some. by destruct Hk as [<- <-].
Qed.

Lemma installation_finishes_once_witness :
  (ex_report (quiet_world ex_asked)).1 = Ok () ∧
  (∀ token info w, installs_wf (disk w) → inst_on (disk w) "uuid-1" = inst_on (disk (ex_report (quiet_world ex_asked)).2) "uuid-1" →
    ∃ e, (handle_post_hook "uuid-1" token info w).1 = Err e).
Proof.
  assert ((ex_report (quiet_world ex_asked)).1 = Ok ()) as Hok by (vm_compute; reflexivity). split; [exact Hok |].
  pose proof (installation_finishes_once "uuid-1" "hook-secret" ex_done (quiet_world ex_asked)) as Ht.
  assert (installs_wf ex_asked) as Hwf by (split; [apply ex_names | by_computation]). specialize (Ht Hwf). clear Hwf.
  unfold ex_report in *. revert Ht Hok. generalize (handle_post_hook "uuid-1" "hook-secret" ex_done (quiet_world ex_asked)).
  intros [[[] | e] w'] Ht Hok; [| discriminate Hok]. destruct Ht as (_ & _ & Ht). exact Ht.
Defined.

Definition no_update : AnswerTokenUpdater := {| ut_comment := None; ut_enabled := None; ut_expire_at := None |}.
Definition ex_regenerate (faults : nat → bool) : result error (option (AnswerToken * option string)) * world :=
  run_request ex_digest (UpdateToken "rack" no_update None true None "other") (World ex_install_disk 0 faults).
Lemma token_requests_sound_witness :
  (ex_regenerate (λ _, false)).1 = Ok (Some (ex_token, Some "other")) ∧
  hash_at (disk (ex_regenerate (λ _, false)).2) "rack" = Some "$5$other" ∧
  request_done (UpdateToken "rack" no_update None true None "other") ex_install_disk (disk (ex_regenerate (λ _, false)).2)
    (Some (ex_token, Some "other")).
Proof.
  assert ((ex_regenerate (λ _, false)).1 = Ok (Some (ex_token, Some "other"))) as Hok by (vm_compute; reflexivity).
  split; [done |]. split; [vm_compute; reflexivity |].
  pose proof (token_requests_sound ex_digest (UpdateToken "rack" no_update None true None "other") (World ex_install_disk 0 (λ _, false)) ex_tokens_wf) as Ht.
  unfold ex_regenerate in *. destruct (run_request _ _ _) as [res w']. simpl in *. destruct Ht as (_ & Ht & _). by apply Ht.
Defined.

(** A configuration is created, then another one is refused since there already is a default answer. *)
Definition ex_create (id : string) (default : bool) : install_op :=
  OpCreatePrepared (Some "root@pam") (Some "00112233") "s" (ex_prepared id default {[ "/dmi/serial" := "X*" ]} "x.example") None.
Definition ex_created : dir := disk (run_install_op ex_digest (ex_create "new" false) (quiet_world ex_install_disk)).2.
Lemma ex_create_ok id default : install_op_ok (ex_create id default).
Proof. intros k v. simpl. intros Hk%lookup_singleton_Some. by destruct Hk as [<- <-]. Qed.
Lemma prepared_configs_sane_witness :
  (run_install_op ex_digest (ex_create "new" false) (quiet_world ex_install_disk)).1 = Ok () ∧
  (run_install_op ex_digest (ex_create "other" true) (quiet_world ex_created)).1 = Err (Error OtherIo ["CONFLICT"; "there already is a default answer"]) ∧
  prepared_ok (disk (run_install_op ex_digest (ex_create "other" true) (quiet_world ex_created)).2).
Proof.
  split; [vm_compute; reflexivity |]. split; [vm_compute; reflexivity |].
  apply (prepared_configs_sane ex_digest ex_install_disk); [apply ex_prepared_ok |].
  apply (rtc_l _ _ ex_created).
  - apply (install_step_run ex_digest ex_install_disk (ex_create "new" false) 0 (λ _, false)), ex_create_ok.
  - apply rtc_once, (install_step_run ex_digest ex_created (ex_create "other" true) 0 (λ _, false)), ex_create_ok.
Defined.

Definition ex_installation (uuid : string) (status : InstallationStatus) : Installation :=
  {| inst_uuid := uuid; received_at := 1%Z; inst_status := status; inst_info := ∅; answer_id := None; post_hook_data := None;
     post_hook_token := None |}.
Definition ex_legacy : list Installation := [ex_installation "b" AnswerSent; ex_installation "a" NoAnswerFound].
Definition ex_legacy_disk : dir := {[ INSTALLATIONS_LEGACY_FILE := number_file ex_legacy ]}.
Definition ex_newer_disk : dir := <[installation_state_path "a" := number_file (ex_installation "a" Finished)]> ex_legacy_disk.
(** The first attempt fails after the first file has been written. *)
Definition ex_interrupted : world := World ex_legacy_disk 0 (λ n, bool_decide (n = 5)).
Lemma migration_keeps_installations_witness :
  (* the installation that has a file of its own keeps it *)
  inst_on (disk (migrate_legacy_installations_file (quiet_world ex_newer_disk)).2) "a" = Some (ex_installation "a" Finished) ∧
  inst_on (disk (migrate_legacy_installations_file (quiet_world ex_newer_disk)).2) "b" = Some (ex_installation "b" AnswerSent) ∧
  (* an interrupted migration *)
  (read_installations ex_interrupted).1 = Err (Error OtherIo []) ∧
  ∃ r, (read_installations (attempts 1 ex_interrupted)).1 = Ok r ∧ r ≡ₚ ex_legacy.
Proof.
  destruct (migration_keeps_installations (number_file ex_legacy) ex_legacy 0 (quiet_world ex_newer_disk)) as [Hq _];
    [vm_compute; reflexivity | by_computation | by_computation | vm_compute; reflexivity |].
  specialize (Hq (λ _, eq_refl)). destruct (migrate_legacy_installations_file (quiet_world ex_newer_disk)) as [r1 w1].
  destruct Hq as (_ & _ & Hq).
  { intros i Hi. by eexists. }
  split; [unfold inst_on; rw Hq; [done |]; vm_compute; reflexivity |].
  split; [unfold inst_on; rw Hq; [done |]; vm_compute; reflexivity |].
  split; [vm_compute; reflexivity |]. exists [ex_installation "a" NoAnswerFound; ex_installation "b" AnswerSent].
  assert ((read_installations (attempts 1 ex_interrupted)).1 = Ok [ex_installation "a" NoAnswerFound; ex_installation "b" AnswerSent]) as Hr
    by (vm_compute; reflexivity).
  split; [done |].
  destruct (migration_keeps_installations (number_file ex_legacy) ex_legacy 1 ex_interrupted) as [_ Hm]; [vm_compute; reflexivity | | | |].
  - by_computation.
  - by_computation.
  - vm_compute; reflexivity.
  - destruct Hm as [_ Hm]; [intros uuid; by apply lookup_singleton_ne |].
    destruct (read_installations (attempts 1 ex_interrupted)) as [res w2]. simpl in Hr. subst res. by destruct (Hm _ _ eq_refl).
Defined.

(** ** What goes wrong *)

(** A new secret is stored by deleting the token and adding it again: when the second step fails the token is gone. *)
Lemma failed_regenerate_loses_token :
  let '(r, w') := ex_regenerate (λ n, bool_decide (n = 6)) in
  r = Err (Error OtherIo []) ∧ tok_at ex_install_disk "rack" = Some ex_token ∧ tok_at (disk w') "rack" = None.
Proof. vm_compute. split_and!; reflexivity. Qed.

(** The token for a new configuration is created before the rest of the request is checked. *)
Lemma refused_configuration_leaves_token :
  let config := with_tokens [] {| pc_id := "new"; authorized_tokens := []; is_default := false; target_filter := {[ "/dmi/serial" := "X" ]};
    country := "at"; fqdn := "x.example"; use_dhcp_fqdn := false; keyboard := "de"; mailto := ""; timezone := "UTC";
    root_password_hashed := Some "$5$root"; reboot_on_error := false; reboot_mode := true; root_ssh_keys := []; use_dhcp_network := true;
    cidr := None; gateway := None; dns := None; netdev_filter := {[ "id_net" := "x" ]}; netif_name_pinning_enabled := true;
    filesystem := Ext4 "lvm"; disk_mode := Fixed; disk_list := []; disk_filter := ∅; disk_filter_match := None;
    post_hook_base_url := None; post_hook_cert_fp := None; template_counters := ∅; subscription_key := None |} in
  let '(r, w') := create_prepared_answer (Some "root@pam") (Some "00112233") "s" config None (quiet_world ex_install_disk) in
  r = Err (Error OtherIo ["BAD_REQUEST"; "invalid udev filter key"]) ∧ is_Some (tok_at (disk w') "new-00112233") ∧
  hash_at (disk w') "new-00112233" = Some "$5$s".
Proof. vm_compute. split; [reflexivity | split; [eexists; reflexivity | reflexivity]]. Qed.

(** A file that cannot be examined counts as missing, and the older state of the installation replaces it. *)
Lemma migration_overwrites_unexamined :
  let '(r, w') := read_installations (World ex_newer_disk 0 (λ n, bool_decide (n = 4))) in
  r = Ok [ex_installation "a" NoAnswerFound; ex_installation "b" AnswerSent].
Proof. vm_compute. reflexivity. Qed.
