(* ===== verification/NexusJson.v ===== *)
(** * Texts, JSON values and files

    What server/src/api/nexus uses of Rust's [str] and of serde_json's [Value].  A number is kept
    as its text, and an object is the list of its members with one member per key.  The second
    part is what the handlers share: a [Value] in a file of the configuration directory, replaced
    through a temporary file, the errors of the handlers, and the outcome of a program that was
    started.  The JSON text format is a parameter ([JsonText]). *)
From S2P Require Import Prelude RustStr Disk Search.

#[local] Open Scope string_scope.

(** ** [str] *)
Definition is_whitespace (c : string) : bool := bool_decide (c ∈ whitespace).
Fixpoint drop_while {A} (p : A → bool) (l : list A) : list A :=
  match l with [] => [] | x :: l' => if p x then drop_while p l' else l end.
Definition join (l : list string) : string := String.concat "" l.
(** [str::trim], [str::trim_end] *)
Definition trim_end (s : string) : string := join (rev (drop_while is_whitespace (rev (chars s)))).
Definition trim (s : string) : string := trim_end (join (drop_while is_whitespace (chars s))).

Definition ascii_lower (c : ascii) : ascii :=
  if in_range "A" "Z" c then ascii_of_N (N_of_ascii c + 32) else c.
Fixpoint map_char (f : ascii → ascii) (s : string) : string :=
  match s with "" => "" | String c s' => String (f c) (map_char f s') end.
(** [str::to_ascii_lowercase] *)
Definition to_ascii_lowercase : string → string := map_char ascii_lower.
(** [str::trim_start_matches] and [str::trim_end_matches] for an ASCII character *)
Fixpoint trim_start_char (c : ascii) (s : string) : string :=
  match s with "" => "" | String a s' => if Ascii.eqb a c then trim_start_char c s' else s end.
Fixpoint trim_end_char (c : ascii) (s : string) : string :=
  match s with
  | "" => ""
  | String a s' => match trim_end_char c s' with
                   | "" => if Ascii.eqb a c then "" else String a ""
                   | t => String a t
                   end
  end.
Definition trim_char (c : ascii) (s : string) : string := trim_end_char c (trim_start_char c s).
(** [str::split] for an ASCII character *)
Fixpoint split_char (c : ascii) (s : string) : list string :=
  match s with
  | "" => [""]
  | String a s' =>
      if Ascii.eqb a c then "" :: split_char c s'
      else match split_char c s' with w :: l => String a w :: l | [] => [String a ""] end
  end.
(** [str::lines]: the last line may lack its newline, and a carriage return before a newline goes with it. *)
Definition strip_cr (s : string) : string := match strip_suffix (String "013" "") s with Some t => t | None => s end.
Definition str_lines (s : string) : list string :=
  let l := split_char "010" s in
  match last l with
  | Some "" => strip_cr <$> removelast l
  | Some t => (strip_cr <$> removelast l) ++ [t]
  | None => []
  end.
Definition ends_with (q s : string) : bool := match strip_suffix q s with Some _ => true | None => false end.
Fixpoint contains_str (needle s : string) : bool :=
  starts_with needle s || match s with "" => false | String _ s' => contains_str needle s' end.
(** [str::replace] of an ASCII character by another text *)
Fixpoint replace_char (c : ascii) (by_ : string) (s : string) : string :=
  match s with "" => "" | String a s' => (if Ascii.eqb a c then by_ else String a "") ++ replace_char c by_ s' end.

Definition ascii_alnum (c : ascii) : bool := in_range "a" "z" c || in_range "A" "Z" c || is_ascii_digit c.
Definition first_char (s : string) : option ascii := match s with "" => None | String c _ => Some c end.
Fixpoint last_char (s : string) : option ascii :=
  match s with "" => None | String c "" => Some c | String _ s' => last_char s' end.
Definition char_is (p : ascii → bool) (o : option ascii) : bool := match o with Some c => p c | None => false end.

(** ** [serde_json::Value] *)
Inductive Json :=
| JNull
| JBool (b : bool)
| JNumber (text : string)
| JString (s : string)
| JArray (l : list Json)
| JObject (m : list (string * Json)).

Fixpoint member (m : list (string * Json)) (k : string) : option Json :=
  match m with [] => None | (k', v) :: m' => if String.eqb k' k then Some v else member m' k end.
Fixpoint set_member (k : string) (v : Json) (m : list (string * Json)) : list (string * Json) :=
  match m with
  | [] => [(k, v)]
  | (k', v') :: m' => if String.eqb k' k then (k, v) :: m' else (k', v') :: set_member k v m'
  end.
Definition remove_member (k : string) (m : list (string * Json)) : list (string * Json) :=
  List.filter (λ p, negb (String.eqb p.1 k)) m.

(** [Value::get] for a key, [as_str], [as_bool], [as_array], [as_object] *)
Definition jget (k : string) (v : Json) : option Json := match v with JObject m => member m k | _ => None end.
Definition as_str (v : Json) : option string := match v with JString s => Some s | _ => None end.
Definition as_bool (v : Json) : option bool := match v with JBool b => Some b | _ => None end.
Definition as_array (v : Json) : option (list Json) := match v with JArray l => Some l | _ => None end.
Definition as_object (v : Json) : option (list (string * Json)) := match v with JObject m => Some m | _ => None end.
(** [v.get(k).and_then(Value::as_str)], and with [as_bool] and [unwrap_or(false)] *)
Definition str_at (k : string) (v : Json) : option string := jget k v ≫= as_str.
Definition flag_at (k : string) (v : Json) : bool := default false (jget k v ≫= as_bool).
(** [v[k] = x]: a value that is neither an object nor null panics; the values it is used on are objects. *)
Definition jset (k : string) (x v : Json) : Json :=
  match v with JObject m => JObject (set_member k x m) | JNull => JObject [(k, x)] | _ => v end.
Definition jremove (k : string) (v : Json) : Json :=
  match v with JObject m => JObject (remove_member k m) | _ => v end.
(** [if let Some(x) = v.get_mut(k)] and an assignment to [x] *)
Definition update_at (k : string) (f : Json → Json) (v : Json) : Json :=
  match jget k v with Some x => jset k (f x) v | None => v end.
(** [json!] of a text, a bool, a number and an object *)
Definition jnum (n : nat) : Json := JNumber (show_int (Z.of_nat n)).

(** ** Lemmas *)
Lemma member_set k v m k' : member (set_member k v m) k' = if String.eqb k k' then Some v else member m k'.
Proof.
  induction m as [|[k2 v2] m IH]; simpl; [done |]. destruct (String.eqb_spec k2 k) as [-> | Hne]; simpl.
  - by destruct (String.eqb k k').
  - rw IH. destruct (String.eqb_spec k2 k') as [-> | _]; [| done]. destruct (String.eqb_spec k k') as [-> | _]; done.
Qed.
Lemma member_remove k m k' : member (remove_member k m) k' = if String.eqb k k' then None else member m k'.
Proof.
  induction m as [|[k2 v2] m IH]; simpl; [by destruct (String.eqb k k') |]. destruct (String.eqb_spec k2 k) as [-> | Hne]; simpl; rw IH.
  - by destruct (String.eqb k k').
  - destruct (String.eqb_spec k2 k') as [-> | _]; [| done]. destruct (String.eqb_spec k k') as [-> | _]; done.
Qed.
Lemma jget_jset k x v k' : (∃ m, v = JObject m) → jget k' (jset k x v) = if String.eqb k k' then Some x else jget k' v.
Proof. intros [m ->]. apply member_set. Qed.
Lemma jget_jremove k v k' : jget k' (jremove k v) = if String.eqb k k' then None else jget k' v.
Proof. destruct v; simpl; try by destruct (String.eqb k k'). apply member_remove. Qed.
Lemma jget_object k v x : jget k v = Some x → ∃ m, v = JObject m.
Proof. destruct v; try done. eauto. Qed.
Lemma jset_object k x v : (∃ m, v = JObject m) → ∃ m, jset k x v = JObject m.
Proof. intros [m ->]. eexists. done. Qed.
Lemma jremove_object k v : (∃ m, v = JObject m) → ∃ m, jremove k v = JObject m.
Proof. intros [m ->]. eexists. done. Qed.

Lemma forall_map_char p f s : forall_char p (map_char f s) = forall_char (λ c, p (f c)) s.
Proof. induction s as [|c s IH]; simpl; [done |]. by rw IH. Qed.

(** ** Decidable equality, and a code number *)
Section json_ind.
Context (P : Json → Prop).
Context (Hnull : P JNull) (Hbool : ∀ b, P (JBool b)) (Hnumber : ∀ t, P (JNumber t)) (Hstring : ∀ s, P (JString s)).
Context (Harray : ∀ l, Forall P l → P (JArray l)) (Hobject : ∀ m, Forall (λ p, P p.2) m → P (JObject m)).
Fixpoint json_induction (v : Json) : P v :=
  match v with
  | JNull => Hnull
  | JBool b => Hbool b
  | JNumber t => Hnumber t
  | JString s => Hstring s
  | JArray l => Harray l ((fix go l := match l return Forall P l with
                                      | [] => Forall_nil_2 P
                                      | x :: l' => Forall_cons_2 P x l' (json_induction x) (go l')
                                      end) l)
  | JObject m => Hobject m ((fix go m := match m return Forall (λ p : string * Json, P p.2) m with
                                         | [] => Forall_nil_2 _
                                         | p :: m' => Forall_cons_2 _ p m' (let '(_, x) as q := p return P q.2 in json_induction x) (go m')
                                         end) m)
  end.
End json_ind.

Fixpoint json_tree (v : Json) : gen_tree string :=
  match v with
  | JNull => GenNode 0 []
  | JBool b => GenNode (if b then 2 else 1) []
  | JNumber t => GenNode 3 [GenLeaf t]
  | JString s => GenNode 4 [GenLeaf s]
  | JArray l => GenNode 5 (map json_tree l)
  | JObject m => GenNode 6 (map (λ p, let '(k, x) := p in GenNode 0 [GenLeaf k; json_tree x]) m)
  end.
Fixpoint tree_json (t : gen_tree string) : Json :=
  match t with
  | GenNode 1 [] => JBool false
  | GenNode 2 [] => JBool true
  | GenNode 3 [GenLeaf s] => JNumber s
  | GenNode 4 [GenLeaf s] => JString s
  | GenNode 5 l => JArray (map tree_json l)
  | GenNode 6 l => JObject (map (λ t, match t with GenNode _ [GenLeaf k; x] => (k, tree_json x) | _ => ("", JNull) end) l)
  | _ => JNull
  end.
Lemma tree_json_tree v : tree_json (json_tree v) = v.
Proof.
  induction v as [| b | | | l IH | m IH] using json_induction; [done | by destruct b | done | done | |]; simpl; f_equal; rw map_map.
  - induction IH as [| x l Hx _ IH]; [done |]. simpl. by rw Hx IH.
  - induction IH as [| [k x] m Hx _ IH]; [done |]. simpl in *. by rw Hx IH.
Qed.
Global Instance Json_eq_dec : EqDecision Json.
Proof. intros v v'. destruct (decide (json_tree v = json_tree v')) as [E | E]; [left | right]; [by rw -(tree_json_tree v) E tree_json_tree | congruence]. Defined.
Global Instance Json_countable : Countable Json := inj_countable' json_tree tree_json tree_json_tree.

(** ** Files and programs *)

(** [serde_json::to_vec_pretty] and [from_str]; [to_file] is a text as the lines of a file. *)
Class JsonText := {
  json_pretty : Json → option file;
  json_file : file → option Json;
  json_from_str : string → option Json;
}.
Class JsonTextLaws `{JsonText} : Prop := {
  json_file_pretty v f : json_pretty v = Some f → json_file f = Some v;
}.

(** What a program that was started does; its output is what [from_utf8_lossy] makes of it. *)
Inductive command_outcome :=
| TimedOut
| NotStarted (error : string)
| Exited (success : bool) (code : option Z) (stdout stderr : string).
Definition bail_with {A} (msg : string) : IO A := fail (Error OtherIo [msg]).
Definition need {A} (o : option A) (msg : string) : IO A := match o with Some a => mret a | None => bail_with msg end.
Definition or_fail {A} (r : result string A) : IO A := match r with Ok a => mret a | Err msg => bail_with msg end.


(** ** A file of JSON *)
Section json_file.
Context `{JsonText}.

(** [std::fs::write]: the file is emptied, and then written *)
Definition fs_write (name : string) (f : file) : IO () :=
  _ ← fs_replace name []; fs_replace name f.
Definition read_json (name : string) (default_value : Json) (parse_error : string) : IO Json :=
  o ← file_read_optional_string name;
  match o with
  | None => mret default_value
  | Some raw => need (json_file raw) parse_error
  end.
(** [pid]: the temporary file has the process id in its name. *)
Definition temporary_of (pid : Z) (name : string) : string := name ++ "." ++ show_int pid ++ ".tmp".
Definition write_json (pid : Z) (name write_error replace_error : string) (v : Json) : IO () :=
  let temporary := temporary_of pid name in
  contents ← need (json_pretty v) "serialize";
  _ ← context write_error (fs_write temporary contents);
  context replace_error (fs_rename temporary name).
End json_file.

(** ** Lemmas *)
Lemma only_open_append S n : n ∈ S → only S (fs_open_append n).
Proof.
  intros Hn w k Hk. assert (k ≠ n) as Hne by (by intros ->). unfold fs_open_append, syscall, get_disk, put_disk, mbind, IO_bind, mret, IO_ret. simpl.
  destruct (faults w (tick w)); simpl; [done |]. destruct (disk w !! n); simpl; [done |]. by rw lookup_insert_ne.
Qed.
Lemma only_append S n push : n ∈ S → only S (fs_append n push).
Proof.
  intros Hn w k Hk. assert (k ≠ n) as Hne by (by intros ->). unfold fs_append, syscall, get_disk, put_disk, mbind, IO_bind. simpl.
  destruct (faults w (tick w)); simpl; [done |]. by rw lookup_insert_ne.
Qed.
Lemma triple_of_keeps {A} (I P : dir → Prop) (m : IO A) Q E :
  keeps I m → (∀ d, P d → I d) → (∀ a d, I d → Q a d) → (∀ d, I d → E d) → triple P m Q E.
Proof. intros Hm HP HQ HE. by eapply triple_conseq; [apply keeps_triple, Hm |..]. Qed.
Lemma only_ret {A} S (a : A) : only S (mret a).
Proof. by intros w n _. Qed.
Lemma only_for_each {A} S (l : list A) body : (∀ x, only S (body x)) → only S (for_each l body).
Proof. intros Hb. induction l as [|x l IH]; [apply only_ret |]. apply only_bind; [apply Hb | intros _; exact IH]. Qed.
Lemma only_write_line S n text : n ∈ S → only S (fs_write_line n text).
Proof.
  intros Hn. apply only_bind; [apply only_for_each; intros c; by apply only_append |]. intros _. by apply only_append.
Qed.
Lemma only_attempt {A} S (m : IO A) : only S m → only S (attempt m).
Proof. intros Hm w n Hn. specialize (Hm w n Hn). unfold attempt. by destruct (m w). Qed.
Lemma reader_need {A} (o : option A) msg : reader (need o msg) (λ _ a, o = Some a).
Proof. destruct o; simpl; [eapply reader_weaken; [apply reader_ret |]; by intros _ ? -> | apply reader_fail]. Qed.
Lemma reader_or_fail {A} (r : result string A) : reader (or_fail r) (λ _ a, r = Ok a).
Proof. destruct r; [eapply reader_weaken; [apply reader_ret |]; by intros d ? -> | apply reader_fail]. Qed.

Section laws.
Context `{JsonText, !JsonTextLaws}.

(** What the file [name] holds *)
Definition json_on (name : string) (default_value : Json) (d : dir) : option Json :=
  match d !! name with None => Some default_value | Some f => json_file f end.
Lemma json_other name v (d : dir) n f : n ≠ name → json_on name v (<[n := f]> d) = json_on name v d.
Proof. intros Hn. unfold json_on. by rw lookup_insert_ne. Qed.
Lemma reader_json name v msg : reader (read_json name v msg) (λ d x, json_on name v d = Some x).
Proof.
  eapply reader_bind; [apply reader_optional |]. intros o. unfold json_on. destruct o as [f|].
  - eapply reader_weaken; [apply reader_need |]. by intros d inv Hf <-.
  - eapply reader_weaken; [apply reader_ret |]. by intros d inv -> <-.
Qed.
Lemma temporary_other pid name : name ≠ temporary_of pid name.
Proof.
  intros Heq. apply (f_equal String.length) in Heq. unfold temporary_of in Heq. rw !string_length_app in Heq. simpl in Heq. lia.
Qed.
Lemma write_json_triple pid d0 name default_value m1 m2 v :
  triple (λ d, d = d0) (write_json pid name m1 m2 v) (λ _ d, json_on name default_value d = Some v)
    (λ d, json_on name default_value d = json_on name default_value d0).
Proof.
  eapply triple_read_bind; [apply reader_need | done |]. intros f Hf%json_file_pretty.
  pose proof (temporary_other pid name) as Hne. set (tmp := temporary_of pid name) in *.
  set (same (d : dir) := json_on name default_value d = json_on name default_value d0).
  assert (∀ (d : dir) g, same d → same (<[tmp := g]> d)) as Hs by (intros d g Hd; unfold same; by rw json_other).
  eapply (triple_bind _ _ _ (λ _ d, same d ∧ d !! tmp = Some f)).
  - apply triple_context. eapply (triple_bind _ _ _ (λ _, same)); [| intros []].
    + apply triple_replace; [by intros ? -> |]. intros ? ->. by apply Hs.
    + apply triple_replace; [done |]. intros d Hd. by split; [apply Hs | rw lookup_insert_eq].
  - intros []. apply triple_context, triple_prim; [by intros d [? _] |]. intros d [Hd Htmp]. rw Htmp.
    apply triple_put_disk. intros ? ->. unfold json_on. by rw lookup_insert_eq.
Qed.
(** Writing a file of JSON touches that file and its temporary file. *)
Lemma only_write_json pid name m1 m2 v : only [name; temporary_of pid name] (write_json pid name m1 m2 v).
Proof.
  apply only_bind; [eapply only_reader; apply reader_need |]. intros f. apply only_bind; [apply only_context | intros _; apply only_context].
  - apply only_bind; [apply only_replace; right; by left |]. intros _. apply only_replace. right. by left.
  - intros w n Hn. unfold fs_rename, syscall, get_disk, put_disk, enoent, fail, mbind, IO_bind. simpl. destruct (faults w (tick w)); simpl; [done |].
    destruct (disk w !! temporary_of pid name); simpl; [| done]. rw lookup_insert_ne; [intros ->; apply Hn; by left |].
    apply lookup_delete_ne. intros <-. apply Hn. right. by left.
Qed.
End laws.
