(* ===== verification/NexusDomains.v ===== *)
(** * Domains and hosting

    server/src/api/nexus/domains.rs: the inventory of domains, the checks of their DNS, mail and
    TLS set-up, the adoption of an existing set-up and the onboarding by a helper program.  What
    the programs [dig], [openssl] and the helper answer is an argument ([answers], [call]). *)
From S2P Require Import Prelude RustStr Disk Search NexusJson.

#[local] Open Scope string_scope.

(** The answers of [dig] and [openssl] to their arguments *)
Abbreviation answers := (string → list string → command_outcome).

Definition INVENTORY_FILENAME : string := "domains-hosting.json".
Definition AUDIT_FILENAME : string := "domains-hosting-audit.log".
Definition DEFAULT_HELPER : string := "/usr/libexec/proxmox/nexus-domains-helper".
Definition HELPER_RECONCILE_ATTEMPTS : nat := 3.
Definition REQUIRED_CHECK_KEYS : list string :=
  ["mail_a"; "mx"; "spf"; "dkim"; "dmarc"; "smtp_submission"; "imap_tls"; "webmail_tunnel_dns"; "webmail_tls"].
Definition ADOPTABLE_DNS_CHECKS : list string := ["mx"; "spf"; "dkim"; "dmarc"; "webmail_tunnel_dns"].

(** ** Names *)
Definition bad_label (label : string) : bool :=
  is_empty label || (63 <? String.length label)%nat || negb (char_is ascii_alnum (first_char label)) ||
  negb (char_is ascii_alnum (last_char label)) || negb (forall_char (λ c, ascii_alnum c || Ascii.eqb c "-") label).
Definition validate_domain_name (domain : string) : result string () :=
  if (253 <? String.length domain)%nat || negb (has_char "." domain) then Err "invalid domain"
  else if existsb bad_label (split_char "." domain) then Err "invalid domain"
  else match last (split_char "." domain) with
       | None => Err "invalid domain"
       | Some tld =>
           if (String.length tld <? 2)%nat || negb (forall_char (in_range "a" "z") tld) then Err "invalid domain" else Ok ()
       end.
Definition normalize_domain (input : string) : result string string :=
  let domain := to_ascii_lowercase (trim_end_char "." (trim input)) in
  _ ← validate_domain_name domain; Ok domain.
Definition validate_hestia_user (user : string) : result string () :=
  if is_empty user || (64 <? String.length user)%nat then Err "invalid Hestia user"
  else if negb (char_is ascii_alnum (first_char user)) ||
          negb (forall_char (λ c, ascii_alnum c || Ascii.eqb c "." || Ascii.eqb c "_" || Ascii.eqb c "-") user)
       then Err "invalid Hestia user"
  else Ok ().
(** ** The inventory *)
Definition bootstrap_domain (name : string) (mail webmail ddns tunnel : bool) : Json :=
  JObject [("name", JString name); ("mail", JBool mail); ("webmail", JBool webmail); ("ddns", JBool ddns); ("tunnel", JBool tunnel)].
Definition default_inventory : Json := JObject [
  ("version", jnum 1);
  ("defaults", JObject [("hestia_host", JString "192.168.0.29"); ("hestia_user", JString "admin");
    ("relay_hostname", JString "smtp.dreamteclabs.com"); ("relay_ipv4", JString "23.254.215.34");
    ("webmail_origin_http", JString "http://192.168.0.29:80"); ("webmail_origin_https", JString "https://192.168.0.29:443");
    ("webmail_no_tls_verify", JBool true); ("dmarc_policy", JString "p=none")]);
  ("domains", JArray [bootstrap_domain "dreamteclabs.com" true true true true; bootstrap_domain "kinpilot.app" true true true true;
    bootstrap_domain "savipilot.com" true true true true; bootstrap_domain "domuspilot.com" true true true true;
    bootstrap_domain "mundoleo.co" true true true true; bootstrap_domain "dreamtec.com.br" true true true false;
    bootstrap_domain "claudiokaist.com" false false true false]);
  ("policy", JObject [("mail_hostnames_dns_only", JBool true); ("smtp_hostnames_dns_only", JBool true);
    ("webmail_hostnames_tunnel_managed", JBool true); ("forbid_webmail_ddns", JBool true); ("forbid_mail_proxy", JBool true)])].

Definition named (domain : string) (entry : Json) : bool := bool_decide (str_at "name" entry = Some domain).
Definition domains_of (inventory : Json) : option (list Json) := jget "domains" inventory ≫= as_array.
Definition find_domain_entry (inventory : Json) (domain : string) : option Json :=
  l ← domains_of inventory; find (named domain) l.
Fixpoint update_first (p : Json → bool) (f : Json → Json) (l : list Json) : list Json :=
  match l with [] => [] | x :: l' => if p x then f x :: l' else x :: update_first p f l' end.
Definition with_domains (f : list Json → list Json) (inventory : Json) : option Json :=
  l ← domains_of inventory; Some (jset "domains" (JArray (f l)) inventory).

Definition fresh_entry (domain mode : string) (managed : bool) : Json :=
  JObject [("name", JString domain); ("mail", JBool managed); ("webmail", JBool managed); ("ddns", JBool managed);
           ("tunnel", JBool managed); ("configuration_mode", JString mode)].
Definition manage_entry (entry : Json) : Json :=
  jremove "adopted_checks" (jset "configuration_mode" (JString "nexus") (jset "tunnel" (JBool true) (jset "ddns" (JBool true)
    (jset "webmail" (JBool true) (jset "mail" (JBool true) entry))))).
(** The inventory with the domain, and whether it is new *)
Definition upsert_mail_domain (inventory : Json) (domain : string) : option (Json * bool) :=
  l ← domains_of inventory;
  if existsb (named domain) l then Some (jset "domains" (JArray (update_first (named domain) manage_entry l)) inventory, false)
  else Some (jset "domains" (JArray (l ++ [fresh_entry domain "nexus" true])%list) inventory, true).
Definition adopt_entry (adopted_checks : Json) (entry : Json) : Json :=
  jset "adopted_checks" adopted_checks (jset "configuration_mode" (JString "existing") entry).

Section domains.
Context `{JsonText}.
(** The process id, and the current time *)
Context (pid now : Z).

Definition read_inventory : IO Json := read_json INVENTORY_FILENAME default_inventory "unable to parse domains-hosting.json".
Definition write_inventory : Json → IO () :=
  write_json pid INVENTORY_FILENAME "unable to write temporary domains inventory" "unable to atomically replace domains inventory".

Definition missing_array : string := "domains-hosting inventory is missing a domains array".
Definition persist_mail_domain (domain : string) : IO () :=
  inventory ← read_inventory;
  p ← need (upsert_mail_domain inventory domain) missing_array;
  write_inventory p.1.
Definition push_domain (entry : Json) (inventory : Json) : IO Json :=
  need (with_domains (λ l, l ++ [entry])%list inventory) missing_array.
Definition persist_discovered_domain (domain : string) : IO () :=
  inventory ← read_inventory;
  match find_domain_entry inventory domain with
  | Some _ => mret ()
  | None => inventory ← push_domain (fresh_entry domain "discovered" false) inventory; write_inventory inventory
  end.
Definition persist_adopted_domain (domain : string) (adopted_checks : Json) : IO () :=
  inventory ← read_inventory;
  inventory ← match find_domain_entry inventory domain with
              | Some _ => mret inventory
              | None => push_domain (fresh_entry domain "existing" false) inventory
              end;
  inventory ← need (_ ← find_domain_entry inventory domain; with_domains (update_first (named domain) (adopt_entry adopted_checks)) inventory)
    "unable to persist adopted domain";
  write_inventory inventory.

(** ** Programs *)
Definition helper_exit_code_is_retryable (code : option Z) : bool :=
  match code with Some c => negb (bool_decide (c ∈ [3; 5; 42; 43]%Z)) | None => true end.
Definition helper_failure_detail (stdout stderr : string) (code : option Z) : string :=
  if negb (is_empty (trim stderr)) then trim stderr
  else if negb (is_empty (trim stdout)) then trim stdout
  else match code with
       | Some c => "helper exited with code " ++ show_int c ++ " without diagnostic output"
       | None => "helper terminated without diagnostic output"
       end.
Definition command_output (a : answers) (program : string) (args : list string) : result string string :=
  match a program args with
  | TimedOut => Err (program ++ " timed out")
  | NotStarted e => Err e
  | Exited false _ _ stderr => Err (program ++ " failed: " ++ trim stderr)
  | Exited true _ stdout stderr => Ok (if negb (is_empty (trim stdout)) then trim stdout else trim stderr)
  end.

Definition dig (a : answers) (record_type name : string) : Json :=
  match command_output a "dig" ["+short"; record_type; name] with
  | Ok output =>
      if negb (is_empty output) then JObject [("ok", JBool true); ("value", JString output)]
      else JObject [("ok", JBool false); ("value", JString ""); ("error", JString "record not found")]
  | Err err => JObject [("ok", JBool false); ("value", JString ""); ("error", JString err)]
  end.
Definition openssl_check (a : answers) (host : string) (port : Z) (starttls : option string) : Json :=
  let endpoint := host ++ ":" ++ show_int port in
  let args := (["s_client"; "-connect"; endpoint; "-servername"; host; "-verify_return_error"; "-brief"] ++
               match starttls with Some protocol => ["-starttls"; protocol] | None => [] end)%list in
  match command_output a "openssl" args with
  | Ok output => JObject [("ok", JBool true); ("endpoint", JString endpoint); ("summary", JString output)]
  | Err err => JObject [("ok", JBool false); ("endpoint", JString endpoint); ("error", JString err)]
  end.

(** ** Records *)
Definition txt_contains (v : Json) (needle : string) : bool :=
  match str_at "value" v with
  | Some s => contains_str (to_ascii_lowercase needle) (to_ascii_lowercase s)
  | None => false
  end.
Definition has_prefix (prefix line : string) : bool := starts_with prefix (to_ascii_lowercase (trim_char "034" line)).
Definition txt_prefix_count (v : Json) (prefix : string) : nat :=
  match str_at "value" v with
  | Some s => length (List.filter (has_prefix (to_ascii_lowercase prefix)) (str_lines s))
  | None => 0
  end.
Definition not_blank (line : string) : bool := negb (is_empty (trim line)).
Definition mx_points_only_to (v : Json) (expected_host : string) : bool :=
  match str_at "value" v with
  | None => false
  | Some s =>
      match List.filter not_blank (str_lines s) with
      | [line] =>
          match split_whitespace line with
          | _ :: target :: _ => String.eqb (to_ascii_lowercase (trim_end_char "." target)) (to_ascii_lowercase expected_host)
          | _ => false
          end
      | _ => false
      end
  end.
Definition by_lower (a b : string) : comparison := String.compare (to_ascii_lowercase a) (to_ascii_lowercase b).
Definition canonical_dns_lines (lines : list string) : string :=
  String.concat (String "010" "") (sort_by by_lower (List.filter (λ l, negb (is_empty l)) (trim <$> lines))).
Definition record_prefix (key : string) : option (option string) :=
  if String.eqb key "spf" then Some (Some "v=spf1")
  else if String.eqb key "dkim" then Some (Some "v=dkim1")
  else if String.eqb key "dmarc" then Some (Some "v=dmarc1")
  else if String.eqb key "mx" || String.eqb key "webmail_tunnel_dns" then Some None
  else None.
Definition record_fingerprint (result : Json) (key : string) : option string :=
  checks ← jget "checks" result; check ← jget key checks; detail ← jget "detail" check; v ← str_at "value" detail;
  prefix ← record_prefix key;
  let fingerprint := canonical_dns_lines
    (List.filter (λ line, match prefix with Some p => has_prefix p line | None => true end) (str_lines v)) in
  if is_empty fingerprint then None else Some fingerprint.
Definition snapshot (result : Json) (key : string) : Json :=
  match record_fingerprint result key with Some s => JString s | None => JNull end.
Definition adopted_dns_snapshots (result : Json) : list (string * Json) :=
  (λ key, (key, snapshot result key)) <$> ADOPTABLE_DNS_CHECKS.
Definition check_ok (result : Json) (key : string) : bool :=
  default false (checks ← jget "checks" result; check ← jget key checks; ok ← jget "ok" check; as_bool ok).
Definition all_required_checks_healthy (result : Json) : bool := forallb (check_ok result) REQUIRED_CHECK_KEYS.
Definition webmail_cname_is_nexus (cname : Json) : bool :=
  match str_at "value" cname with
  | None => true
  | Some s => forallb (λ line, ends_with ".cfargotunnel.com" (trim_end_char "." line)) (List.filter not_blank (str_lines s))
  end.
Definition has_record (result : Json) (key : string) : bool :=
  match record_fingerprint result key with Some _ => true | None => false end.
Definition existing_configuration_detected (result : Json) (domain_entry : option Json) : bool :=
  let failed_existing_record := existsb (λ key, negb (check_ok result key) && has_record result key) ADOPTABLE_DNS_CHECKS in
  let has_existing_policy := existsb (has_record result) ADOPTABLE_DNS_CHECKS in
  let unmanaged_mail := match domain_entry with
                        | Some entry => (negb (flag_at "mail" entry) || negb (flag_at "webmail" entry)) && has_existing_policy
                        | None => false
                        end in
  let new_domain_with_existing := match domain_entry with None => has_existing_policy | Some _ => false end in
  failed_existing_record || unmanaged_mail || new_domain_with_existing.

(** ** The checks of a domain *)
Definition MESSAGE_CHANGED : string :=
  "The adopted configuration changed. Keep the new live configuration or migrate to the Nexus standard.".
Definition MESSAGE_ADOPTED : string := "Existing configuration is adopted and monitored without being replaced.".
Definition MESSAGE_DETECTED : string :=
  "Existing DNS/mail configuration was detected. Choose whether to keep it or migrate to the Nexus Hestia standard.".

Definition snapshot_matches (expected : option Json) (current : option string) : bool :=
  match expected with
  | Some (JString e) => bool_decide (current = Some e)
  | Some JNull => bool_decide (current = None)
  | _ => false
  end.
(** [result.get_mut("checks")]'s entry [key] is changed if it is there. *)
Definition update_check (key : string) (f : Json → Json) (result : Json) : Json := update_at "checks" (update_at key f) result.
Definition adopted_check (matches : bool) (check : Json) : Json :=
  jset "policy" (JString "existing") (jset "adopted" (JBool true) (jset "ok" (JBool matches) check)).
Definition not_applicable_check (check : Json) : Json :=
  jset "policy" (JString "existing") (jset "not_applicable" (JBool true) (jset "adopted" (JBool true) (jset "ok" (JBool true) check))).
Definition adopt_step (adopted_checks : option Json) (acc : Json * bool) (key : string) : Json * bool :=
  let matches := snapshot_matches (adopted_checks ≫= jget key) (record_fingerprint acc.1 key) in
  (update_check key (adopted_check matches) acc.1, acc.2 || negb matches).
Definition other_checks : list string := List.filter (λ key, negb (bool_decide (key ∈ ADOPTABLE_DNS_CHECKS))) REQUIRED_CHECK_KEYS.
Definition existing_configuration (changed : bool) (result : Json) (message : string) : Json :=
  JObject [("detected", JBool true); ("changed", JBool changed); ("records", JObject (adopted_dns_snapshots result)); ("message", JString message)].
Definition apply_existing_policy (result domain_entry : Json) : Json :=
  let adopted_checks := jget "adopted_checks" domain_entry in
  let '(result, changed) := foldl (adopt_step adopted_checks) (result, false) ADOPTABLE_DNS_CHECKS in
  let result := foldl (λ r key, update_check key not_applicable_check r) result other_checks in
  let result := jset "healthy" (JBool (negb changed && all_required_checks_healthy result)) result in
  let result := jset "configuration_mode" (JString "existing") result in
  let result := jset "decision_required" (JBool changed) result in
  jset "existing_configuration" (existing_configuration changed result (if changed then MESSAGE_CHANGED else MESSAGE_ADOPTED)) result.

Definition validate_domain_raw (a : answers) (domain : string) : Json :=
  let mail := "mail." ++ domain in
  let webmail := "webmail." ++ domain in
  let mail_a := dig a "A" mail in
  let webmail_a := dig a "A" webmail in
  let webmail_cname := dig a "CNAME" webmail in
  let mx := dig a "MX" domain in
  let spf := dig a "TXT" domain in
  let dkim_txt := dig a "TXT" ("mail._domainkey." ++ domain) in
  let dmarc_txt := dig a "TXT" ("_dmarc." ++ domain) in
  let smtp := openssl_check a mail 587 (Some "smtp") in
  let imap := openssl_check a mail 993 None in
  let webmail_tls := openssl_check a webmail 443 None in
  let mx_ok := mx_points_only_to mx mail in
  let spf_count := txt_prefix_count spf "v=spf1" in
  let spf_ok := (spf_count =? 1)%nat in
  let dkim_ok := txt_contains dkim_txt "p=" in
  let dmarc_ok := (txt_prefix_count dmarc_txt "v=dmarc1" =? 1)%nat in
  let webmail_resolves := flag_at "ok" webmail_a || flag_at "ok" webmail_cname in
  let webmail_ok := webmail_resolves && webmail_cname_is_nexus webmail_cname in
  let healthy := flag_at "ok" mail_a && webmail_ok && mx_ok && spf_ok && dkim_ok && dmarc_ok && flag_at "ok" smtp &&
                 flag_at "ok" imap && flag_at "ok" webmail_tls in
  JObject [("domain", JString domain); ("healthy", JBool healthy); ("checks", JObject [
    ("mail_a", mail_a);
    ("webmail_tunnel_dns", JObject [("ok", JBool webmail_ok); ("detail", webmail_cname); ("resolved", webmail_a)]);
    ("mx", JObject [("ok", JBool mx_ok); ("detail", mx)]);
    ("spf", JObject [("ok", JBool spf_ok); ("count", jnum spf_count); ("detail", spf)]);
    ("dkim", JObject [("ok", JBool dkim_ok); ("detail", dkim_txt)]);
    ("dmarc", JObject [("ok", JBool dmarc_ok); ("detail", dmarc_txt)]);
    ("smtp_submission", smtp); ("imap_tls", imap); ("webmail_tls", webmail_tls)])].

(** The result for an inventory *)
Definition judge_nexus (domain_entry : option Json) (result : Json) : Json :=
  let decision_required := existing_configuration_detected result domain_entry in
  let result := jset "decision_required" (JBool decision_required) (jset "configuration_mode" (JString "nexus") result) in
  if decision_required then jset "existing_configuration" (existing_configuration false result MESSAGE_DETECTED) result else result.
Definition judge_domain (inventory result : Json) (domain : string) : Json :=
  match find_domain_entry inventory domain with
  | Some entry => if bool_decide (str_at "configuration_mode" entry = Some "existing") then apply_existing_policy result entry
                  else judge_nexus (Some entry) result
  | None => judge_nexus None result
  end.
Definition validate_domain_inner (a : answers) (domain : string) : IO Json :=
  inventory ← read_inventory;
  mret (judge_domain inventory (validate_domain_raw a domain) domain).

(** ** The audit log *)
Definition TAB : string := String "009" "".
Definition safe_outcome (outcome : string) : string :=
  replace_char "009" " " (replace_char "013" " " (replace_char "010" " " outcome)).
Definition audit_line (action domain outcome : string) : string :=
  show_int now ++ TAB ++ "action=" ++ action ++ TAB ++ "domain=" ++ domain ++ TAB ++ "outcome=" ++ safe_outcome outcome.
(** A [tokio] file takes the line and writes it in the background: an error of the write is not reported. *)
Definition append_audit (action domain outcome : string) : IO () :=
  _ ← fs_open_append AUDIT_FILENAME;
  _ ← attempt (fs_write_line AUDIT_FILENAME (audit_line action domain outcome));
  mret ().

(** ** The handlers *)
Definition get_inventory : IO Json := read_inventory.
Definition validate_domain (a : answers) (input : string) : IO Json :=
  domain ← or_fail (normalize_domain input);
  result ← validate_domain_inner a domain;
  _ ← append_audit "validate" domain (if flag_at "decision_required" result then "decision-required"
                                      else if flag_at "healthy" result then "healthy" else "degraded");
  mret result.
(** [a] and [b] answer the checks before and after the adoption. *)
Definition adopt_existing_domain (a b : answers) (input : string) : IO Json :=
  domain ← or_fail (normalize_domain input);
  let adopted_checks := adopted_dns_snapshots (validate_domain_raw a domain) in
  _ ← (if forallb (λ p, match p.2 with JNull => true | _ => false end) adopted_checks
       then bail_with "no existing DNS/mail configuration was detected to adopt" else mret ());
  _ ← persist_adopted_domain domain (JObject adopted_checks);
  validation ← validate_domain_inner b domain;
  _ ← append_audit "adopt-existing" domain "completed";
  mret (JObject [("domain", JString domain); ("configuration_mode", JString "existing"); ("validation", validation)]).

(** The helper is called with an action, the domain and the user; the number of the attempt tells the calls apart. *)
Inductive helper_action := Onboard | Migrate.
Definition action_str (x : helper_action) : string := match x with Onboard => "onboard" | Migrate => "migrate" end.
Definition attempt_of (attempt : nat) : string := show_int (Z.of_nat attempt) ++ "/" ++ show_int (Z.of_nat HELPER_RECONCILE_ATTEMPTS).
Definition onboarding_failed {A} (x : helper_action) (domain last_failure : string) : IO A :=
  _ ← append_audit (action_str x) domain ("failed: " ++ last_failure);
  bail_with ("domain onboarding failed: " ++ last_failure).
Fixpoint helper_loop (call : nat → command_outcome) (x : helper_action) (domain : string) (left attempt : nat) (last_failure : string) : IO Json :=
  match left with
  | O => bail_with ("domain onboarding failed after " ++ show_int (Z.of_nat HELPER_RECONCILE_ATTEMPTS) ++ " attempts: " ++ last_failure)
  | S left' =>
      match call attempt with
      | NotStarted e => bail_with e
      | TimedOut =>
          let last_failure := "helper timed out on attempt " ++ attempt_of attempt in
          if (attempt <? HELPER_RECONCILE_ATTEMPTS)%nat then helper_loop call x domain left' (S attempt) last_failure
          else onboarding_failed x domain last_failure
      | Exited true _ stdout _ =>
          result ← need (json_from_str (trim stdout)) ("domains helper returned invalid JSON: " ++ trim stdout);
          _ ← (if (1 <? attempt)%nat then append_audit "onboard-retry" domain ("recovered on attempt " ++ attempt_of attempt) else mret ());
          mret result
      | Exited false code stdout stderr =>
          let last_failure := helper_failure_detail stdout stderr code in
          if helper_exit_code_is_retryable code && (attempt <? HELPER_RECONCILE_ATTEMPTS)%nat then
            _ ← append_audit "onboard-retry" domain ("attempt " ++ attempt_of attempt ++ " failed; retrying: " ++ last_failure);
            helper_loop call x domain left' (S attempt) last_failure
          else onboarding_failed x domain last_failure
      end
  end.

(** After the helper has succeeded *)
Definition finish_onboarding (x : helper_action) (b : answers) (domain : string) (helper_result : Json) : IO Json :=
  r ← attempt (persist_mail_domain domain);
  match r with
  | Err err =>
      _ ← append_audit (action_str x) domain ("providers completed; inventory persistence failed: " ++ default "" (head (message err)));
      fail err
  | Ok _ =>
      validation ← validate_domain_inner b domain;
      _ ← append_audit (action_str x) domain "completed";
      mret (JObject [("domain", JString domain); ("result", helper_result); ("validation", validation)])
  end.
(** [installed]: the helper is there. *)
Definition run_onboarding (installed : bool) (call : helper_action → string → string → nat → command_outcome) (x : helper_action)
    (b : answers) (domain user : string) : IO Json :=
  if negb installed then bail_with ("domains helper is not installed at " ++ DEFAULT_HELPER)
  else
    helper_result ← helper_loop (call x domain user) x domain HELPER_RECONCILE_ATTEMPTS 1 "";
    finish_onboarding x b domain helper_result.
Definition onboard_domain (installed : bool) (call : helper_action → string → string → nat → command_outcome) (a b : answers)
    (input : string) (hestia_user : option string) (replace_existing : option bool) : IO Json :=
  domain ← or_fail (normalize_domain input);
  let user := default "admin" hestia_user in
  _ ← or_fail (validate_hestia_user user);
  if default false replace_existing then run_onboarding installed call Migrate b domain user
  else
    preflight ← validate_domain_inner a domain;
    if flag_at "decision_required" preflight then
      _ ← persist_discovered_domain domain;
      _ ← append_audit "discover-existing" domain "decision-required";
      mret (JObject [("domain", JString domain); ("decision_required", JBool true); ("validation", preflight)])
    else run_onboarding installed call Onboard b domain user.

(** ** The router *)
Inductive domain_request :=
| GetInventory
| ValidateDomain (a : answers) (input : string)
| AdoptExistingDomain (a b : answers) (input : string)
| OnboardDomain (installed : bool) (call : helper_action → string → string → nat → command_outcome) (a b : answers)
    (input : string) (hestia_user : option string) (replace_existing : option bool).
Definition handle_domain (r : domain_request) : IO Json :=
  match r with
  | GetInventory => get_inventory
  | ValidateDomain a input => validate_domain a input
  | AdoptExistingDomain a b input => adopt_existing_domain a b input
  | OnboardDomain installed call a b input hestia_user replace_existing =>
      onboard_domain installed call a b input hestia_user replace_existing
  end.
(** Requests one after the other, whatever becomes of each *)
Definition serve_domains (l : list domain_request) : IO () := for_each l (λ r, _ ← attempt (handle_domain r); mret ()).
End domains.
