(* ===== verification/NexusDomainFacts.v ===== *)
(** * Domains and hosting: lemmas

    The shape of normalized names, what the writers of the inventory leave, and what the judgement
    of a domain depends on. *)
From S2P Require Import Prelude RustStr Disk Search NexusJson NexusDomains.

#[local] Open Scope list_scope.

(** ** Trimming *)
Lemma chars_ascii s : forall_char (λ c, negb (is_continuation c)) s = true →
  chars s = (λ c, String c "") <$> String.list_ascii_of_string s.
Proof.
  induction s as [|a s IH]; [done |]. simpl. intros [_ Hs]%andb_true_iff. destruct s as [|b s]; [done |].
  pose proof Hs as Hb. simpl in Hb. apply andb_true_iff in Hb as [Hb _]. apply negb_true_iff in Hb. rw Hb IH //.
Qed.
Lemma join_chars s : join (chars s) = s.
Proof.
  unfold join. assert (∀ c l, String.concat "" (c :: l) = (c ++ String.concat "" l)%string) as Hc.
  { intros c [|d l]; simpl; [by rw string_app_nil_r | done]. }
  induction s as [|a s IH]; [done |]. destruct s as [|b s]; [done |]. cbn [chars] in *.
  destruct (is_continuation b); [| rw Hc IH //]. destruct (match s with "" => _ | _ => _ end)%string as [|c cs] eqn:E.
  - simpl in IH. done.
  - rw Hc. rw Hc in IH. simpl. by rw IH.
Qed.
Lemma drop_while_none {A} (p : A → bool) l : (∀ x, x ∈ l → p x = false) → drop_while p l = l.
Proof. destruct l as [|x l]; [done |]. intros Hp. simpl. rw Hp; [by left | done]. Qed.
(** A character of names: a letter, a digit, a dash, an underscore or a dot *)
Definition name_char (c : ascii) : bool := ascii_alnum c || Ascii.eqb c "-" || Ascii.eqb c "." || Ascii.eqb c "_".
Lemma name_char_plain c : name_char c = true → is_continuation c = false ∧ is_whitespace (String c "") = false.
Proof. destruct c as [[] [] [] [] [] [] [] []]; try (by vm_compute); split; by vm_compute. Qed.
Lemma forall_char_impl (p q : ascii → bool) s : (∀ c, p c = true → q c = true) → forall_char p s = true → forall_char q s = true.
Proof. intros Hpq. induction s as [|c s IH]; simpl; [done |]. intros [Hc Hs]%andb_true_iff. by rw Hpq // IH. Qed.
Lemma forall_char_elem p s c : forall_char p s = true → c ∈ String.list_ascii_of_string s → p c = true.
Proof.
  induction s as [|a s IH]; simpl; [by intros _ ?%not_elem_of_nil |]. intros [Ha Hs]%andb_true_iff [-> | Hin]%elem_of_cons; [done | by apply IH].
Qed.
Lemma trim_name s : forall_char name_char s = true → trim s = s.
Proof.
  intros Hs. assert (chars s = (λ c, String c "") <$> String.list_ascii_of_string s) as Hc.
  { apply chars_ascii. eapply forall_char_impl; [| exact Hs]. intros c Hp. by rw (proj1 (name_char_plain c Hp)). }
  assert (∀ x, x ∈ chars s → is_whitespace x = false) as Hw.
  { intros x. rw Hc. intros (c & -> & Hin)%list_elem_of_fmap. apply name_char_plain. by eapply forall_char_elem. }
  unfold trim, trim_end. rw (drop_while_none _ _ Hw) join_chars drop_while_none.
  - intros x Hx. apply Hw. apply list_elem_of_In, in_rev. by apply list_elem_of_In.
  - by rw rev_involutive join_chars.
Qed.

(** ** Names *)
Lemma lower_idem s : to_ascii_lowercase (to_ascii_lowercase s) = to_ascii_lowercase s.
Proof. unfold to_ascii_lowercase. induction s as [|c s IH]; [done |]. simpl. rw IH. f_equal. by destruct c as [[] [] [] [] [] [] [] []]. Qed.
Definition lower_name_char (c : ascii) : bool := in_range "a" "z" c || is_ascii_digit c || Ascii.eqb c "-" || Ascii.eqb c ".".
Lemma lower_char c : (ascii_alnum c || Ascii.eqb c "-" || Ascii.eqb c ".") = true → lower_name_char (ascii_lower c) = true.
Proof. by destruct c as [[] [] [] [] [] [] [] []]. Qed.
Lemma lower_name_plain c : lower_name_char c = true → name_char c = true ∧ ascii_lower c = c.
Proof. by destruct c as [[] [] [] [] [] [] [] []]. Qed.

Lemma split_char_all (p : ascii → bool) c s :
  Forall (λ w, forall_char p w = true) (split_char c s) → forall_char (λ a, p a || Ascii.eqb a c) s = true.
Proof.
  induction s as [|a s IH]; simpl; [done |]. destruct (Ascii.eqb a c) eqn:E.
  - intros [_ Hs]%Forall_cons. by rw orb_true_r IH.
  - destruct (split_char c s) as [|w l] eqn:Ew.
    + by destruct s as [|b s]; simpl in Ew; [| destruct (Ascii.eqb b c), (split_char c s)].
    + intros [Hw Hl]%Forall_cons. simpl in Hw. apply andb_true_iff in Hw as [Ha Hw]. rw Ha /=. apply IH. by constructor.
Qed.
Lemma split_char_last c s : match last (split_char c s) with Some w => last_char w | None => None end =
  match last_char s with Some a => if Ascii.eqb a c then None else Some a | None => None end.
Proof.
  induction s as [|a s IH]; [done |]. cbn [split_char]. destruct (Ascii.eqb a c) eqn:E.
  - destruct s as [|b s]; [by rw /= E |]. destruct (split_char c (String b s)) as [|w l] eqn:Ew.
    + simpl in Ew. by destruct (Ascii.eqb b c), (split_char c s).
    + rw -IH. done.
  - destruct s as [|b s]; [by rw /= E |]. destruct (split_char c (String b s)) as [|w l] eqn:Ew.
    + simpl in Ew. by destruct (Ascii.eqb b c), (split_char c s).
    + change (last_char (String a (String b s))) with (last_char (String b s)). rw -IH. destruct l as [|w' l]; [| done]. simpl.
      destruct w as [|x w]; [| done]. simpl in Ew. destruct (Ascii.eqb b c) eqn:Eb; [| by destruct (split_char c s)].
      by destruct s as [|y s]; simpl in Ew; [| destruct (Ascii.eqb y c), (split_char c s)].
Qed.
Lemma trim_end_char_id c s : match last_char s with Some a => Ascii.eqb a c = false | None => True end → trim_end_char c s = s.
Proof.
  induction s as [|a s IH]; [done |]. intros Hl. destruct s as [|b s]; [by rw /= Hl |].
  change (last_char (String a (String b s))) with (last_char (String b s)) in Hl. specialize (IH Hl).
  change (trim_end_char c (String a (String b s))) with (match trim_end_char c (String b s) with "" => if Ascii.eqb a c then "" else String a "" | t => String a t end)%string.
  by rw IH.
Qed.
Lemma map_char_id f s : forall_char (λ c, Ascii.eqb (f c) c) s = true → map_char f s = s.
Proof. induction s as [|c s IH]; simpl; [done |]. intros [Hc%Ascii.eqb_eq Hs]%andb_true_iff. by rw Hc IH. Qed.

Record label_ok (w : string) : Prop := {
  lo_nonempty : w ≠ ""%string;
  lo_length : String.length w ≤ 63;
  lo_first : char_is ascii_alnum (first_char w) = true;
  lo_last : char_is ascii_alnum (last_char w) = true;
}.
(** Lower case labels between dots, with a top-level domain of letters: nothing a shell or a resolver takes for syntax *)
Record domain_shape (d : string) : Prop := {
  ds_length : String.length d ≤ 253;
  ds_chars : forall_char lower_name_char d = true;
  ds_labels : Forall label_ok (split_char "." d);
  ds_tld : ∃ tld, last (split_char "." d) = Some tld ∧ 2 ≤ String.length tld ∧ forall_char (in_range "a" "z") tld = true;
}.
Lemma bad_label_false w : bad_label w = false → label_ok w ∧ forall_char (λ c, ascii_alnum c || Ascii.eqb c "-") w = true.
Proof.
  unfold bad_label. intros Hb. apply orb_false_iff in Hb as [Hb H5%negb_false_iff]. apply orb_false_iff in Hb as [Hb H4%negb_false_iff].
  apply orb_false_iff in Hb as [Hb H3%negb_false_iff]. apply orb_false_iff in Hb as [H1 H2%Nat.ltb_ge]. split; [| done].
  split; [| done..]. by intros ->.
Qed.
Lemma validate_shape x : validate_domain_name (to_ascii_lowercase x) = Ok () → domain_shape (to_ascii_lowercase x).
Proof.
  unfold validate_domain_name. destruct (_ || _) eqn:Hl; [done |]. apply orb_false_iff in Hl as [Hl%Nat.ltb_ge _].
  destruct (existsb bad_label _) eqn:Hb; [done |]. destruct (last _) as [tld|] eqn:Ht; [| done].
  destruct ((String.length tld <? 2) || _) eqn:Htld; [done |]. intros _. apply orb_false_iff in Htld as [H2%Nat.ltb_ge Hc%negb_false_iff].
  assert (Forall (λ w, bad_label w = false) (split_char "." (to_ascii_lowercase x))) as Hg.
  { apply Forall_forall. intros w Hw. apply not_true_is_false. intros Hbad.
    assert (existsb bad_label (split_char "." (to_ascii_lowercase x)) = true) as He; [| congruence].
    apply existsb_exists. exists w. split; [by apply list_elem_of_In | done]. }
  split; [done | | | by exists tld].
  - assert (forall_char (λ a, (ascii_alnum a || Ascii.eqb a "-") || Ascii.eqb a ".") (to_ascii_lowercase x) = true) as Hall.
    { apply split_char_all. eapply Forall_impl; [exact Hg |]. by intros w [_ ?]%bad_label_false. }
    unfold to_ascii_lowercase in *. rw forall_map_char. rw forall_map_char in Hall.
    eapply forall_char_impl; [| exact Hall]. intros c. by destruct c as [[] [] [] [] [] [] [] []].
  - eapply Forall_impl; [exact Hg |]. by intros w [? _]%bad_label_false.
Qed.
Lemma shape_fixed d : domain_shape d → trim d = d ∧ trim_end_char "." d = d ∧ to_ascii_lowercase d = d.
Proof.
  intros [_ Hc Hl (tld & Ht & Hlen & _)]. split_and!.
  - apply trim_name. eapply forall_char_impl; [| exact Hc]. by intros c [? _]%lower_name_plain.
  - apply trim_end_char_id. pose proof (split_char_last "." d) as Hlast. rw Ht in Hlast.
    apply last_Some_elem_of in Ht. apply (proj1 (Forall_forall _ _) Hl) in Ht. pose proof (lo_last _ Ht) as Ha.
    destruct (last_char tld) as [a|]; [| done]. destruct (last_char d) as [b|]; [| done]. by destruct (Ascii.eqb b ".").
  - apply map_char_id. eapply forall_char_impl; [| exact Hc]. intros c [_ Hlow]%lower_name_plain. by apply Ascii.eqb_eq.
Qed.
Lemma normalize_shape input d : normalize_domain input = Ok d → domain_shape d ∧ validate_domain_name d = Ok ().
Proof.
  unfold normalize_domain. set (x := trim_end_char "." (trim input)).
  destruct (validate_domain_name (to_ascii_lowercase x)) as [[]|] eqn:Hv; [| done]. intros [= <-]. split; [by apply validate_shape | done].
Qed.

(** ** Checks *)
Definition check_at (r : Json) (k : string) : option Json := jget "checks" r ≫= jget k.
(** The checks are an object of objects. *)
Definition well_checked (r : Json) : Prop :=
  ∃ top checks, r = JObject top ∧ member top "checks" = Some (JObject checks) ∧ ∀ k v, member checks k = Some v → ∃ m, v = JObject m.
Definition keeps_objects (f : Json → Json) : Prop := ∀ m, ∃ m', f (JObject m) = JObject m'.

Lemma update_check_spec key f r : keeps_objects f → well_checked r →
  well_checked (update_check key f r) ∧ ∀ k, check_at (update_check key f r) k = if decide (key = k) then f <$> check_at r k else check_at r k.
Proof.
  intros Hf (top & checks & -> & Hc & Hm). unfold update_check, update_at, check_at. simpl. rw Hc.
  change (jget key (JObject checks)) with (member checks key). destruct (member checks key) as [v|] eqn:Hk; split.
  - destruct (Hm key v Hk) as [m ->]. destruct (Hf m) as [m' Hm']. exists (set_member "checks" (JObject (set_member key (f (JObject m)) checks)) top).
    eexists. split; [done |]. split; [by rw member_set |]. intros k v'. rw member_set. destruct (String.eqb key k).
    + intros [= <-]. eauto.
    + apply Hm.
  - intros k. simpl. rw member_set /= member_set. destruct (String.eqb_spec key k) as [<- | Hne]; [by rw decide_True // Hk | by rw decide_False].
  - exists (set_member "checks" (JObject checks) top), checks. split; [done |]. by rw member_set.
  - intros k. simpl. rw member_set /=. case_decide; [subst; by rw Hk | done].
Qed.
Lemma check_ok_at r k : check_ok r k = default false ((check_at r k ≫= jget "ok") ≫= as_bool).
Proof. unfold check_ok, check_at. destruct (jget "checks" r) as [c|]; [| done]. simpl. by destruct (jget k c). Qed.
(** A fingerprint only depends on the details of the check. *)
Lemma fingerprint_ext r r' k :
  (check_at r' k ≫= jget "detail") = (check_at r k ≫= jget "detail") → record_fingerprint r' k = record_fingerprint r k.
Proof.
  unfold check_at, record_fingerprint. intros Hd.
  assert (∀ x : Json, (checks ← jget "checks" x; check ← jget k checks; detail ← jget "detail" check; v ← str_at "value" detail;
    prefix ← record_prefix k; let fingerprint := canonical_dns_lines (List.filter (λ line, match prefix with Some p => has_prefix p line | None => true end) (str_lines v)) in
    if is_empty fingerprint then None else Some fingerprint) =
    (detail ← (jget "checks" x ≫= jget k) ≫= jget "detail"; v ← str_at "value" detail;
    prefix ← record_prefix k; let fingerprint := canonical_dns_lines (List.filter (λ line, match prefix with Some p => has_prefix p line | None => true end) (str_lines v)) in
    if is_empty fingerprint then None else Some fingerprint)) as Hx.
  { intros x. destruct (jget "checks" x) as [c|]; [| done]. simpl. by destruct (jget k c). }
  by rw !Hx Hd.
Qed.

Lemma adopted_objects b : keeps_objects (adopted_check b).
Proof. intros m. eexists. done. Qed.
Lemma not_applicable_objects : keeps_objects not_applicable_check.
Proof. intros m. eexists. done. Qed.
Lemma adopted_detail b m : jget "detail" (adopted_check b (JObject m)) = member m "detail" ∧ jget "ok" (adopted_check b (JObject m)) = Some (JBool b).
Proof. simpl. by rw !member_set. Qed.
Lemma not_applicable_ok m : jget "ok" (not_applicable_check (JObject m)) = Some (JBool true).
Proof. simpl. by rw !member_set. Qed.
Lemma check_object r k v : well_checked r → check_at r k = Some v → ∃ m, v = JObject m.
Proof. intros (top & checks & -> & Hc & Hm). unfold check_at. simpl. rw Hc. apply Hm. Qed.

Definition drifted (ac : option Json) (r : Json) (k : string) : bool := negb (snapshot_matches (ac ≫= jget k) (record_fingerprint r k)).
Lemma snapshot_at raw k : k ∈ ADOPTABLE_DNS_CHECKS → jget k (JObject (adopted_dns_snapshots raw)) = Some (snapshot raw k).
Proof. unfold ADOPTABLE_DNS_CHECKS. rw !elem_of_cons elem_of_nil. intros Hk. by destruct_or! Hk; subst. Qed.
Lemma drifted_snapshot raw r k : k ∈ ADOPTABLE_DNS_CHECKS →
  drifted (Some (JObject (adopted_dns_snapshots raw))) r k = true ↔ record_fingerprint r k ≠ record_fingerprint raw k.
Proof.
  intros Hk. unfold drifted. change (Some ?x ≫= jget k) with (jget k x). rw snapshot_at // negb_true_iff. unfold snapshot. destruct (record_fingerprint raw k); apply bool_decide_eq_false.
Qed.
Lemma adopt_fold ac keys r ch : well_checked r → NoDup keys →
  let p := foldl (adopt_step ac) (r, ch) keys in
  well_checked p.1 ∧ p.2 = ch || existsb (drifted ac r) keys ∧
  ∀ k, check_at p.1 k = if decide (k ∈ keys) then adopted_check (negb (drifted ac r k)) <$> check_at r k else check_at r k.
Proof.
  cbv zeta. revert r ch. induction keys as [|key keys IH]; intros r ch Hr Hnd.
  { cbn [foldl existsb fst snd]. rw orb_false_r. split_and!; [done | done |]. intros k. by destruct (decide (k ∈ [])) as [?%not_elem_of_nil |]. }
  apply NoDup_cons in Hnd as [Hkey Hnd]. cbn [foldl existsb]. unfold adopt_step at 2 4 6. cbn [fst snd]. fold (drifted ac r key).
  set (r1 := update_check key (adopted_check (snapshot_matches (ac ≫= jget key) (record_fingerprint r key))) r).
  destruct (update_check_spec key (adopted_check (snapshot_matches (ac ≫= jget key) (record_fingerprint r key))) r (adopted_objects _) Hr) as [Hr1 Hat].
  fold r1 in Hr1, Hat. destruct (IH r1 (ch || drifted ac r key) Hr1 Hnd) as (H1 & H2 & H3).
  assert (∀ k, drifted ac r1 k = drifted ac r k) as Hdr.
  { intros k. unfold drifted. do 2 f_equal. apply fingerprint_ext. rw Hat. case_decide as Hk; [| done]. subst k.
    destruct (check_at r key) as [v|] eqn:Hv; [| done]. destruct (check_object _ _ _ Hr Hv) as [m ->]. apply adopted_detail. }
  split_and!; [exact H1 | |].
  - rw H2 -orb_assoc. f_equal. f_equal. clear -Hdr. induction keys as [|k keys IH]; [done |]. by rw /= Hdr IH.
  - intros k. rw H3 Hat Hdr. destruct (decide (key = k)) as [<- | Hne].
    + destruct (decide (key ∈ keys)) as [? |]; [done |]. destruct (decide (key ∈ key :: keys)) as [_ | Hn]; [| destruct Hn; by left].
      unfold drifted. by rw negb_involutive.
    + destruct (decide (k ∈ keys)) as [Hin | Hin], (decide (k ∈ key :: keys)) as [Hin' | Hin']; [done | | | done].
      * destruct Hin'. by right.
      * by apply elem_of_cons in Hin' as [-> |].
Qed.
Lemma not_applicable_fold keys r : well_checked r →
  let r' := foldl (λ r key, update_check key not_applicable_check r) r keys in
  well_checked r' ∧ ∀ k, (k ∈ keys → is_Some (check_at r k) → check_ok r' k = true) ∧ (k ∉ keys → check_at r' k = check_at r k) ∧
    (is_Some (check_at r k) → is_Some (check_at r' k)) ∧ (check_ok r k = true → check_ok r' k = true).
Proof.
  cbv zeta. revert r. induction keys as [|key keys IH]; intros r Hr.
  { split; [done |]. intros k. split_and!; [by intros ?%not_elem_of_nil | done..]. }
  cbn [foldl]. destruct (update_check_spec key not_applicable_check r not_applicable_objects Hr) as [Hr1 Hat].
  destruct (IH _ Hr1) as [Hw Hk]. split; [done |]. intros k. destruct (Hk k) as (K1 & K2 & K3 & K4).
  assert (is_Some (check_at r k) → key = k → check_ok (update_check key not_applicable_check r) k = true) as Hok.
  { intros [v Hv] ->. destruct (check_object _ _ _ Hr Hv) as [m ->]. rw check_ok_at Hat decide_True // Hv.
    change (default false (jget "ok" (not_applicable_check (JObject m)) ≫= as_bool) = true). by rw not_applicable_ok. }
  assert (is_Some (check_at r k) → is_Some (check_at (update_check key not_applicable_check r) k)) as Hsome.
  { intros [v Hv]. rw Hat. case_decide; rw Hv; eauto. }
  split_and!.
  - intros [<- | Hin]%elem_of_cons Hs; [by apply K4, Hok | by apply K1; [| apply Hsome]].
  - intros Hnin. rw K2; [intros ?; apply Hnin; by right |]. rw Hat decide_False //. intros ->. apply Hnin. by left.
  - intros Hs. by apply K3, Hsome.
  - intros Ho. apply K4. destruct (decide (key = k)) as [-> | Hne]; [| by rw check_ok_at Hat decide_False // -check_ok_at].
    apply Hok; [| done]. rw check_ok_at in Ho. by destruct (check_at r k).
Qed.

Lemma flag_jset k x v k' : (∃ m, v = JObject m) → flag_at k' (jset k x v) = if String.eqb k k' then default false (as_bool x) else flag_at k' v.
Proof. intros Hv. unfold flag_at. rw jget_jset //. by destruct (String.eqb k k'). Qed.
Lemma str_jset k x v k' : (∃ m, v = JObject m) → str_at k' (jset k x v) = if String.eqb k k' then as_str x else str_at k' v.
Proof. intros Hv. unfold str_at. rw jget_jset //. by destruct (String.eqb k k'). Qed.

Lemma apply_existing_spec r entry :
  well_checked r → (∀ k, k ∈ REQUIRED_CHECK_KEYS → is_Some (check_at r k)) →
  let changed := existsb (drifted (jget "adopted_checks" entry) r) ADOPTABLE_DNS_CHECKS in
  let v := apply_existing_policy r entry in
  flag_at "decision_required" v = changed ∧ flag_at "healthy" v = negb changed ∧ str_at "configuration_mode" v = Some "existing"%string.
Proof.
  intros Hr Hall. cbv zeta. unfold apply_existing_policy. set (ac := jget "adopted_checks" entry). set (changed := existsb _ _).
  assert (NoDup ADOPTABLE_DNS_CHECKS) as Hnd by (apply (bool_decide_unpack _); vm_compute; exact I).
  destruct (adopt_fold ac ADOPTABLE_DNS_CHECKS r false Hr Hnd) as (H1 & H2 & H3).
  destruct (foldl (adopt_step ac) (r, false) ADOPTABLE_DNS_CHECKS) as [r1 ch]. cbn [fst snd orb] in *. change (existsb (drifted ac r) ADOPTABLE_DNS_CHECKS) with changed in H2. subst ch.
  destruct (not_applicable_fold other_checks r1 H1) as [Hw2 Hk2]. set (r2 := foldl _ r1 other_checks) in *.
  assert (∃ m, r2 = JObject m) as Ho by (destruct Hw2 as (top & ? & -> & _); eauto).
  assert (changed = false → all_required_checks_healthy r2 = true) as Hhealthy.
  { intros Hch. apply forallb_forall. intros k Hk%list_elem_of_In. destruct (Hk2 k) as (K1 & _ & _ & K4).
    destruct (Hall k Hk) as [v Hv]. destruct (decide (k ∈ ADOPTABLE_DNS_CHECKS)) as [Hin | Hin].
    - apply K4. rw check_ok_at H3 decide_True // Hv. destruct (check_object _ _ _ Hr Hv) as [m ->].
      change (default false (jget "ok" (adopted_check (negb (drifted ac r k)) (JObject m)) ≫= as_bool) = true).
      rw (proj2 (adopted_detail _ m)) /=. destruct (drifted ac r k) eqn:Hd; [| done]. exfalso.
      assert (changed = true) as Ht; [| congruence]. apply existsb_exists. exists k. split; [by apply list_elem_of_In | done].
    - apply K1; [| rw H3 decide_False // Hv; eauto]. unfold other_checks. apply list_elem_of_In, filter_In. split; [by apply list_elem_of_In |].
      by rw bool_decide_false. }
  set (h := negb changed && all_required_checks_healthy r2).
  assert (h = negb changed) as Hh by (unfold h; destruct changed; [done | by rw Hhealthy]).
  repeat (rw flag_jset; [by repeat apply jset_object |]; cbn [String.eqb Ascii.eqb Bool.eqb]).
  rw str_jset; [by repeat apply jset_object |]. simpl. rw str_jset; [by repeat apply jset_object |]. simpl.
  rw str_jset; [by repeat apply jset_object |]. simpl. rw Hh. done.
Qed.

Lemma dig_object a ty name : ∃ m, dig a ty name = JObject m.
Proof. unfold dig. destruct (command_output _ _ _) as [o|]; [destruct (negb (is_empty o)) |]; eexists; done. Qed.
Lemma openssl_object a host port st : ∃ m, openssl_check a host port st = JObject m.
Proof. unfold openssl_check. destruct (command_output _ _ _); eexists; done. Qed.
Lemma raw_checked a d : well_checked (validate_domain_raw a d) ∧ ∀ k, k ∈ REQUIRED_CHECK_KEYS → is_Some (check_at (validate_domain_raw a d) k).
Proof.
  split.
  - unfold validate_domain_raw. cbv zeta. do 2 eexists. split; [reflexivity |]. split; [reflexivity |]. intros k v. cbn [member].
    repeat (destruct (String.eqb _ k); [intros [= <-]; first [apply dig_object | apply openssl_object | eexists; reflexivity] |]). done.
  - intros k. unfold REQUIRED_CHECK_KEYS, check_at, validate_domain_raw. cbv zeta. rw !elem_of_cons elem_of_nil.
    intros Hk. destruct_or! Hk; subst; eexists; reflexivity.
Qed.

(** ** The inventory *)
Definition entry_names (l : list Json) : list string := omap (str_at "name") l.
(** No two domains have the same name. *)
Definition inventory_wf (inv : Json) : Prop := ∀ l, domains_of inv = Some l → NoDup (entry_names l).
(** [inv'] differs from [inv] in the entry of [domain] only. *)
Definition only_domain (domain : string) (inv inv' : Json) : Prop :=
  (∀ other, other ≠ domain → find_domain_entry inv' other = find_domain_entry inv other) ∧
  (∀ k, k ≠ "domains"%string → jget k inv' = jget k inv).

Lemma domains_object inv l : domains_of inv = Some l → ∃ m, inv = JObject m.
Proof. unfold domains_of. by destruct inv; [.. | eauto]. Qed.
Lemma domains_set inv l l' : domains_of inv = Some l → domains_of (jset "domains" (JArray l') inv) = Some l'.
Proof. intros [m ->]%domains_object. unfold domains_of. by rw jget_jset; [eauto |]. Qed.
Lemma other_keys inv l l' k : domains_of inv = Some l → k ≠ "domains"%string → jget k (jset "domains" (JArray l') inv) = jget k inv.
Proof. intros [m ->]%domains_object Hk. rw jget_jset; [eauto |]. destruct (String.eqb_spec "domains" k); [congruence | done]. Qed.

Lemma find_app_json (p : Json → bool) l1 l2 : find p (l1 ++ l2) = match find p l1 with Some x => Some x | None => find p l2 end.
Proof. induction l1 as [|x l1 IH]; simpl; [done |]. by destruct (p x). Qed.
Lemma named_true d e : named d e = true ↔ str_at "name" e = Some d.
Proof. apply bool_decide_eq_true. Qed.
Lemma named_unique d d' e : named d e = true → named d' e = true → d = d'.
Proof. rw !named_true. congruence. Qed.

(** A change of an entry that keeps its name *)
Definition keeps_name (f : Json → Json) : Prop := ∀ e d, str_at "name" e = Some d → str_at "name" (f e) = Some d.
Lemma update_first_names d f l : keeps_name f → entry_names (update_first (named d) f l) = entry_names l.
Proof.
  intros Hf. unfold entry_names. induction l as [|e l IH]; [done |]. simpl. destruct (named d e) eqn:Hn; simpl.
  - apply named_true in Hn. by rw Hn (Hf _ _ Hn).
  - destruct (str_at "name" e); [f_equal |]; exact IH.
Qed.
Lemma update_first_find d f l other : keeps_name f →
  find (named other) (update_first (named d) f l) = if decide (other = d) then f <$> find (named d) l else find (named other) l.
Proof.
  intros Hf. induction l as [|e l IH]; simpl; [by case_decide |]. destruct (named d e) eqn:Hn; simpl.
  - pose proof (Hf e d (proj1 (named_true d e) Hn)) as Hfe%named_true. case_decide as Ho; [subst; by rw Hfe |].
    destruct (named other (f e)) eqn:H1; [by pose proof (named_unique _ _ _ H1 Hfe) |].
    destruct (named other e) eqn:H2; [by pose proof (named_unique _ _ _ H2 Hn) | done].
  - destruct (named other e) eqn:Ho; [| exact IH]. case_decide; [congruence | done].
Qed.
Lemma find_named_names d l : find (named d) l = None → d ∉ entry_names l.
Proof.
  intros Hf (e & He & Hn)%list_elem_of_omap. apply list_elem_of_In in He. pose proof (find_none _ _ Hf e He) as Hnone.
  apply named_true in Hn. congruence.
Qed.
Lemma manage_keeps_name : keeps_name manage_entry.
Proof.
  intros e d He. assert (∃ m, e = JObject m) as [m ->] by (destruct e; try done; eauto). unfold str_at, manage_entry in *.
  rw jget_jremove /=. repeat (rw member_set /=). done.
Qed.
Lemma adopt_keeps_name x : keeps_name (adopt_entry x).
Proof.
  intros e d He. assert (∃ m, e = JObject m) as [m ->] by (destruct e; try done; eauto). unfold str_at, adopt_entry in *. simpl.
  repeat (rw member_set /=). done.
Qed.

(** What the writers make of the inventory *)
Lemma push_spec inv l e d : domains_of inv = Some l → find (named d) l = None → str_at "name" e = Some d →
  let inv' := jset "domains" (JArray (l ++ [e])) inv in
  only_domain d inv inv' ∧ find_domain_entry inv' d = Some e ∧ (inventory_wf inv → inventory_wf inv').
Proof.
  intros Hl Hnone He. cbv zeta. split_and!.
  - split; [| by intros; apply (other_keys _ l)]. intros other Ho. unfold find_domain_entry. rw (domains_set _ l) // Hl /= find_app_json /=.
    destruct (find (named other) l); [done |]. destruct (named other e) eqn:Hn; [| done]. apply named_true in Hn. congruence.
  - unfold find_domain_entry. rw (domains_set _ l) //= find_app_json Hnone /=. apply named_true in He. by rw He.
  - intros Hwf l'. rw (domains_set _ l) //. intros [= <-]. unfold entry_names. rw omap_app /= He. apply NoDup_app. split_and!.
    + by apply Hwf.
    + intros x Hx ->%list_elem_of_singleton. by apply find_named_names in Hnone.
    + apply NoDup_singleton.
Qed.
Lemma update_spec inv l f d e : domains_of inv = Some l → keeps_name f → find (named d) l = Some e →
  let inv' := jset "domains" (JArray (update_first (named d) f l)) inv in
  only_domain d inv inv' ∧ find_domain_entry inv' d = Some (f e) ∧ (inventory_wf inv → inventory_wf inv').
Proof.
  intros Hl Hf He. cbv zeta. split_and!.
  - split; [| by intros; apply (other_keys _ l)]. intros other Ho. unfold find_domain_entry. rw (domains_set _ l) // Hl /= update_first_find //.
    by rw decide_False.
  - unfold find_domain_entry. rw (domains_set _ l) //= update_first_find // decide_True // He. done.
  - intros Hwf l'. rw (domains_set _ l) //. intros [= <-]. rw update_first_names //. by apply Hwf.
Qed.
Lemma existsb_find (p : Json → bool) l : existsb p l = match find p l with Some _ => true | None => false end.
Proof. induction l as [|x l IH]; simpl; [done |]. by destruct (p x). Qed.
Lemma upsert_spec inv d inv' b : upsert_mail_domain inv d = Some (inv', b) →
  only_domain d inv inv' ∧ (inventory_wf inv → inventory_wf inv') ∧
  find_domain_entry inv' d = Some (match find_domain_entry inv d with Some e => manage_entry e | None => fresh_entry d "nexus" true end).
Proof.
  unfold upsert_mail_domain, find_domain_entry at 2. destruct (domains_of inv) as [l|] eqn:Hl; [| done]. simpl. rw existsb_find.
  destruct (find (named d) l) as [e|] eqn:He; intros [= <- <-].
  - destruct (update_spec inv l manage_entry d e Hl manage_keeps_name He) as (? & ? & ?). done.
  - destruct (push_spec inv l (fresh_entry d "nexus" true) d Hl He eq_refl) as (? & ? & ?). done.
Qed.

(** ** The files *)
Lemma only_append_audit now action domain outcome : only [AUDIT_FILENAME] (append_audit now action domain outcome).
Proof.
  apply only_bind; [apply only_open_append; by left |]. intros _. apply only_bind; [| intros _; apply only_ret].
  apply only_attempt, only_write_line. by left.
Qed.

Section files.
Context `{JsonText, !JsonTextLaws}.
Context (pid now : Z).

Definition inventory_on : dir → option Json := json_on INVENTORY_FILENAME default_inventory.
Definition same_inventory (d0 d : dir) : Prop := inventory_on d = inventory_on d0.
(** The inventory is the one of [d0], or one that [R] allows. *)
Definition becomes (R : Json → Json → Prop) (d0 d : dir) : Prop :=
  same_inventory d0 d ∨ ∃ inv inv', inventory_on d0 = Some inv ∧ inventory_on d = Some inv' ∧ R inv inv'.

Lemma audit_other : INVENTORY_FILENAME ∉ [AUDIT_FILENAME].
Proof. by intros ?%list_elem_of_singleton. Qed.
Lemma keeps_audit d0 action domain outcome : keeps (same_inventory d0) (append_audit now action domain outcome).
Proof.
  eapply keeps_only; [apply only_append_audit |]. intros d d' Hd Hs. unfold same_inventory, inventory_on, json_on in *.
  by rw Hd; [apply audit_other |].
Qed.
Lemma audit_triple action domain outcome (P : dir → Prop) :
  (∀ d d', same_inventory d d' → P d → P d') → triple P (append_audit now action domain outcome) (λ _, P) P.
Proof.
  intros HP. apply keeps_triple. eapply keeps_only; [apply only_append_audit |]. intros d d' Hd Hd0. apply (HP d); [| done].
  unfold same_inventory, inventory_on, json_on. by rw Hd; [apply audit_other |].
Qed.

Lemma reader_inventory : reader read_inventory (λ d inv, inventory_on d = Some inv).
Proof. apply reader_json. Qed.
Lemma write_inventory_triple d0 inv :
  triple (λ d, d = d0) (write_inventory pid inv) (λ _ d, inventory_on d = Some inv) (same_inventory d0).
Proof. apply write_json_triple. Qed.

(** What the writers do to the inventory *)
Lemma persist_mail_triple d0 domain :
  triple (λ d, d = d0) (persist_mail_domain pid domain)
    (λ _ d, ∃ inv inv' b, inventory_on d0 = Some inv ∧ upsert_mail_domain inv domain = Some (inv', b) ∧ inventory_on d = Some inv')
    (same_inventory d0).
Proof.
  eapply triple_read_bind; [apply reader_inventory | done |]. intros inv Hinv.
  eapply triple_read_bind; [apply reader_need | done |]. intros [inv' b] Hm.
  eapply triple_conseq; [apply (write_inventory_triple d0) | done | | done]. intros [] d Hd. by exists inv, inv', b.
Qed.
Lemma reader_push entry inv :
  reader (push_domain entry inv) (λ _ inv', ∃ l, domains_of inv = Some l ∧ inv' = jset "domains" (JArray (l ++ [entry])) inv).
Proof.
  eapply reader_weaken; [apply reader_need |]. intros d inv' Hm. unfold with_domains in Hm. destruct (domains_of inv) as [l|]; [| done].
  injection Hm as <-. by exists l.
Qed.
Lemma persist_discovered_triple d0 domain :
  triple (λ d, d = d0) (persist_discovered_domain pid domain)
    (λ _, becomes (λ inv inv', find_domain_entry inv domain = None ∧ only_domain domain inv inv' ∧ (inventory_wf inv → inventory_wf inv') ∧
       find_domain_entry inv' domain = Some (fresh_entry domain "discovered" false)) d0)
    (same_inventory d0).
Proof.
  eapply triple_read_bind; [apply reader_inventory | done |]. intros inv Hinv.
  destruct (find_domain_entry inv domain) eqn:He; [apply triple_ret; intros ? ->; left; reflexivity |].
  eapply triple_read_bind; [apply reader_push | done |]. intros inv' (l & Hl & ->).
  eapply triple_conseq; [apply (write_inventory_triple d0) | done | | done]. intros [] d Hd. right. exists inv. eexists. do 2 (split; [eassumption |]). split; [done |].
  unfold find_domain_entry in He. rw Hl /= in He. by destruct (push_spec inv l (fresh_entry domain "discovered" false) domain Hl He eq_refl) as (? & ? & ?).
Qed.
Definition adopts (domain : string) (checks : Json) (inv inv' : Json) : Prop :=
  only_domain domain inv inv' ∧ (inventory_wf inv → inventory_wf inv') ∧
  find_domain_entry inv' domain = Some (adopt_entry checks (default (fresh_entry domain "existing" false) (find_domain_entry inv domain))).
Lemma discovered_after d0 domain : triple (λ d, d = d0) (persist_discovered_domain pid domain)
  (λ _ d, ∃ inv, inventory_on d = Some inv ∧ is_Some (find_domain_entry inv domain)) (λ _, True).
Proof.
  eapply triple_read_bind; [apply reader_inventory | done |]. intros inv Hinv.
  destruct (find_domain_entry inv domain) as [e|] eqn:He; [apply triple_ret; intros ? ->; by exists inv |].
  eapply triple_read_bind; [apply reader_push | done |]. intros inv' (l & Hl & ->).
  eapply triple_conseq; [apply (write_inventory_triple d0) | done | | done]. intros [] d Hd. eexists. split; [exact Hd |].
  unfold find_domain_entry in He. rw Hl /= in He. destruct (push_spec inv l (fresh_entry domain "discovered" false) domain Hl He eq_refl) as (_ & -> & _). done.
Qed.
Lemma only_domain_trans domain inv1 inv2 inv3 : only_domain domain inv1 inv2 → only_domain domain inv2 inv3 → only_domain domain inv1 inv3.
Proof. intros [A1 B1] [A2 B2]. split; intros; [rw A2 // A1 // | rw B2 // B1 //]. Qed.
Lemma adopt_existing_spec inv domain checks e inv' : find_domain_entry inv domain = Some e →
  with_domains (update_first (named domain) (adopt_entry checks)) inv = Some inv' →
  only_domain domain inv inv' ∧ (inventory_wf inv → inventory_wf inv') ∧ find_domain_entry inv' domain = Some (adopt_entry checks e).
Proof.
  unfold with_domains, find_domain_entry at 1. destruct (domains_of inv) as [l|] eqn:Hl; [| done]. simpl. intros He [= <-].
  by destruct (update_spec inv l (adopt_entry checks) domain e Hl (adopt_keeps_name checks) He) as (? & ? & ?).
Qed.
Lemma persist_adopted_triple d0 domain checks :
  triple (λ d, d = d0) (persist_adopted_domain pid domain checks)
    (λ _ d, ∃ inv inv', inventory_on d0 = Some inv ∧ inventory_on d = Some inv' ∧ adopts domain checks inv inv') (same_inventory d0).
Proof.
  eapply triple_read_bind; [apply reader_inventory | done |]. intros inv Hinv.
  eapply (triple_read_bind _ _ _ (λ _ inv1, only_domain domain inv inv1 ∧ (inventory_wf inv → inventory_wf inv1) ∧
    find_domain_entry inv1 domain = Some (default (fresh_entry domain "existing" false) (find_domain_entry inv domain)))); [| done |].
  { destruct (find_domain_entry inv domain) as [e|] eqn:He.
    - eapply reader_weaken; [apply reader_ret |]. by intros d ? ->.
    - eapply reader_weaken; [apply reader_push |]. intros d inv1 (l & Hl & ->). unfold find_domain_entry in He. rw Hl /= in He.
      by destruct (push_spec inv l (fresh_entry domain "existing" false) domain Hl He eq_refl) as (? & ? & ?). }
  intros inv1 (H1 & H2 & H3). rw H3. eapply triple_read_bind; [apply reader_need | done |]. intros inv2 Hm.
  destruct (adopt_existing_spec _ _ _ _ _ H3 Hm) as (H4 & H5 & H6).
  eapply triple_conseq; [apply (write_inventory_triple d0) | done | | done]. intros [] d Hd. exists inv, inv2. split_and!; [done | done |].
  split; [by eapply only_domain_trans |]. split; [auto | done].
Qed.
End files.

(** ** The helper *)
Section helper.
Context `{JsonText}.
Context (now : Z).

(** The outcomes after which the helper is started again *)
Definition retryable (o : command_outcome) : bool :=
  match o with TimedOut => true | Exited false code _ _ => helper_exit_code_is_retryable code | _ => false end.
(** The [k]-th call is made when the calls before it ended in a way that is tried again. *)
Definition reached (call : nat → command_outcome) (k : nat) : Prop :=
  1 ≤ k ≤ HELPER_RECONCILE_ATTEMPTS ∧ ∀ j, 1 ≤ j < k → retryable (call j) = true.
(** The helper reported success, with a JSON text. *)
Definition reported (call : nat → command_outcome) (r : Json) : Prop :=
  ∃ k code out err, reached call k ∧ call k = Exited true code out err ∧ json_from_str (trim out) = Some r.

Lemma reached_next call k : reached call k → retryable (call k) = true → k < HELPER_RECONCILE_ATTEMPTS → reached call (S k).
Proof.
  intros [Hk Hj] Hr Hlt. split; [lia |]. intros j Hjk. destruct (decide (j = k)) as [-> | Hne]; [done |]. apply Hj. lia.
Qed.

Definition inventory_only (P : dir → Prop) : Prop := ∀ d d', inventory_on d' = inventory_on d → P d → P d'.
Lemma failed_triple {A} x domain last P (Q : A → dir → Prop) : inventory_only P →
  triple P (onboarding_failed now x domain last) Q P.
Proof. intros HP. eapply triple_bind; [by apply audit_triple |]. intros []. by apply triple_fail. Qed.
Lemma helper_loop_triple call x domain left k last P : inventory_only P → reached call k → left + k = S HELPER_RECONCILE_ATTEMPTS →
  triple P (helper_loop now call x domain left k last) (λ r d, P d ∧ reported call r) P.
Proof.
  intros HP. revert k last. induction left as [|left IH]; intros k last Hk Hlen; [by apply triple_fail |]. cbn [helper_loop].
  destruct (call k) as [| e | [] code out err] eqn:Hc; [| by apply triple_fail | |].
  - destruct (Nat.ltb_spec k HELPER_RECONCILE_ATTEMPTS); [| by apply failed_triple]. apply IH; [| lia].
    apply reached_next; [done | by rw Hc | done].
  - unfold need. destruct (json_from_str (trim out)) as [r|] eqn:Hr; [| by apply triple_fail].
    assert (reported call r) by (by exists k, code, out, err). eapply (triple_bind _ _ _ (λ r' d, r' = r ∧ P d)); [by apply triple_ret |].
    intros r'. eapply (triple_bind _ _ _ (λ _ d, r' = r ∧ P d)).
    + destruct (1 <? k); [| by apply triple_ret]. eapply triple_conseq; [apply (audit_triple now _ _ _ (λ d, r' = r ∧ P d)) | done..|].
      * intros d d' Hd [? ?]. split; [done | by apply (HP d)].
      * by intros d [_ ?].
    + intros _. apply triple_ret. by intros d [-> ?].
  - destruct (helper_exit_code_is_retryable code) eqn:Hr; [| by apply failed_triple].
    destruct (Nat.ltb_spec k HELPER_RECONCILE_ATTEMPTS); [| by apply failed_triple].
    eapply triple_bind; [by apply audit_triple |]. intros []. apply IH; [| lia]. apply reached_next; [done | by rw Hc | done].
Qed.

(** What the loop does depends on the calls it reaches only. *)
Lemma bind_ext {A B} (m : IO A) (f g : A → IO B) : (∀ a w, f a w = g a w) → ∀ w, (m ≫= f) w = (m ≫= g) w.
Proof. intros Hfg w. unfold mbind, IO_bind. by destruct (m w) as [[a | e] w']. Qed.
Lemma bind_first {A B} (m m' : IO A) (f : A → IO B) w : m w = m' w → (m ≫= f) w = (m' ≫= f) w.
Proof. intros Hm. unfold mbind, IO_bind. by rw Hm. Qed.
Lemma bind_ret {A B} (a : A) (f : A → IO B) w : (mret a ≫= f) w = f a w.
Proof. done. Qed.
Lemma helper_loop_ext call call' x domain left k last :
  (∀ j, reached call j → call' j = call j) → reached call k → left + k = S HELPER_RECONCILE_ATTEMPTS →
  ∀ w, helper_loop now call' x domain left k last w = helper_loop now call x domain left k last w.
Proof.
  intros Heq. revert k last. induction left as [|left IH]; intros k last Hk Hlen w; [done |]. cbn [helper_loop]. rw (Heq k Hk).
  destruct (call k) as [| e | [] code out err] eqn:Hc; try done.
  - destruct (Nat.ltb_spec k HELPER_RECONCILE_ATTEMPTS); [| done]. apply IH; [| lia]. apply reached_next; [done | by rw Hc | done].
  - destruct (helper_exit_code_is_retryable code) eqn:Hr; [| done].
    destruct (Nat.ltb_spec k HELPER_RECONCILE_ATTEMPTS); [| done]. apply bind_ext. intros [] w'. apply IH; [| lia].
    apply reached_next; [done | by rw Hc | done].
Qed.
Lemma reached_first call : reached call 1.
Proof. split; [unfold HELPER_RECONCILE_ATTEMPTS; lia |]. lia. Qed.
End helper.

(** ** The handlers *)
Section handlers.
Context `{JsonText, !JsonTextLaws}.
Context (pid now : Z).

(** The entry of [domain] is managed by Nexus. *)
Definition manages (domain : string) (inv inv' : Json) : Prop :=
  only_domain domain inv inv' ∧ (inventory_wf inv → inventory_wf inv') ∧
  find_domain_entry inv' domain = Some (match find_domain_entry inv domain with Some e => manage_entry e | None => fresh_entry domain "nexus" true end).
Definition discovers (domain : string) (inv inv' : Json) : Prop :=
  find_domain_entry inv domain = None ∧ only_domain domain inv inv' ∧ (inventory_wf inv → inventory_wf inv') ∧
  find_domain_entry inv' domain = Some (fresh_entry domain "discovered" false).

Lemma reader_validate_inner a domain :
  reader (validate_domain_inner a domain) (λ d v, ∃ inv, inventory_on d = Some inv ∧ v = judge_domain inv (validate_domain_raw a domain) domain).
Proof.
  eapply reader_bind; [apply reader_inventory |]. intros inv. eapply reader_weaken; [apply reader_ret |]. intros d v -> Hinv. by exists inv.
Qed.

Definition changed (R : Json → Json → Prop) (d0 d : dir) : Prop :=
  ∃ inv inv', inventory_on d0 = Some inv ∧ inventory_on d = Some inv' ∧ R inv inv'.
Lemma changed_only R d0 : inventory_only (changed R d0).
Proof. intros d d' Hd (inv & inv' & H1 & H2 & HR). exists inv, inv'. split_and!; congruence. Qed.
Lemma same_only d0 : inventory_only (same_inventory d0).
Proof. intros d d' Hd Hs. unfold same_inventory in *. congruence. Qed.
Lemma becomes_only R d0 : inventory_only (becomes R d0).
Proof. intros d d' Hd [Hs | Hc]; [left; by eapply same_only | right; by eapply changed_only]. Qed.
Lemma becomes_weaken (R R' : Json → Json → Prop) d0 d : (∀ inv inv', R inv inv' → R' inv inv') → becomes R d0 d → becomes R' d0 d.
Proof. intros HR [Hs | (inv & inv' & ? & ? & ?)]; [by left | right]. exists inv, inv'. auto. Qed.
Lemma becomes_from R d0 d1 d : same_inventory d0 d1 → becomes R d1 d → becomes R d0 d.
Proof. unfold becomes, same_inventory. by intros ->. Qed.
Lemma inner_keeps a domain P : keeps P (validate_domain_inner a domain).
Proof. eapply keeps_reader. apply reader_validate_inner. Qed.

Lemma finish_triple d0 x b domain r :
  triple (same_inventory d0) (finish_onboarding pid now x b domain r) (λ _, changed (manages domain) d0) (becomes (manages domain) d0).
Proof.
  eapply (triple_bind _ _ _ (λ r d, match r with Ok _ => changed (manages domain) d0 d | Err _ => same_inventory d0 d end)).
  - apply triple_attempt, triple_pre. intros d1 Hd1. eapply triple_conseq; [apply (persist_mail_triple pid d1) | done | |].
    + intros [] d (inv & inv' & fresh & H1 & H2%upsert_spec & H3). exists inv, inv'. split; [by rw -Hd1 |]. split; [done |].
      destruct H2 as (? & ? & ?). done.
    + intros d Hd e. eapply same_only; [exact Hd | done].
  - intros [[] | err].
    + apply (triple_of_keeps (changed (manages domain) d0)); [| done | done | by right].
      apply keeps_bind; [apply inner_keeps |]. intros v. apply keeps_bind; [| intros _; apply keeps_ret].
      apply keeps_triple, audit_triple. intros d d' ?. by apply changed_only.
    + eapply triple_bind; [eapply triple_conseq; [apply (audit_triple now _ _ _ (same_inventory d0)), same_only | done..| by left] |].
      intros u. apply triple_fail. by left.
Qed.
Definition onboards (call : nat → command_outcome) (domain : string) (inv inv' : Json) : Prop :=
  manages domain inv inv' ∧ ∃ r, reported call r.
Lemma run_onboarding_triple d0 installed call x b domain user :
  triple (λ d, d = d0) (run_onboarding pid now installed call x b domain user)
    (λ _, changed (onboards (call x domain user) domain) d0) (becomes (onboards (call x domain user) domain) d0).
Proof.
  unfold run_onboarding. destruct (negb installed); [apply triple_fail; intros ? ->; left; reflexivity |].
  eapply triple_bind.
  - eapply triple_conseq; [apply (helper_loop_triple now (call x domain user) x domain _ 1 "" (same_inventory d0)); [apply same_only | apply reached_first | done] | | done | by left].
    intros ? ->. reflexivity.
  - intros r. apply triple_pre. intros d1 [Hd1 Hr]. eapply triple_conseq; [apply (finish_triple d1) | intros ? ->; reflexivity | |].
    + intros _ d (inv & inv' & H1 & H2 & H3). exists inv, inv'. split; [by rw -Hd1 |]. split; [done |]. split; [done | by exists r].
    + intros d Hd. apply (becomes_from _ d0 d1); [done |]. eapply becomes_weaken; [| exact Hd]. intros inv inv' ?. split; [done | by exists r].
Qed.

(** What a request can do to the inventory *)
Definition action_for (replace_existing : option bool) : helper_action := if default false replace_existing then Migrate else Onboard.
Lemma onboard_triple d0 installed call a b input user replace :
  let R inv inv' := ∃ domain, normalize_domain input = Ok domain ∧
    (discovers domain inv inv' ∨ onboards (call (action_for replace) domain (default "admin"%string user)) domain inv inv') in
  triple (λ d, d = d0) (onboard_domain pid now installed call a b input user replace) (λ _, becomes R d0) (becomes R d0).
Proof.
  cbv zeta. set (R inv inv' := ∃ domain, _).
  assert (∀ domain, normalize_domain input = Ok domain → triple (λ d, d = d0)
    (run_onboarding pid now installed call (action_for replace) b domain (default "admin"%string user)) (λ _, becomes R d0) (becomes R d0)) as Hrun.
  { intros domain Hd. eapply triple_conseq; [apply (run_onboarding_triple d0) | done | |].
    - intros _ d (inv & inv' & ? & ? & ?). right. exists inv, inv'. do 2 (split; [done |]). exists domain. split; [done | by right].
    - intros d. apply becomes_weaken. intros inv inv' ?. exists domain. split; [done | by right]. }
  unfold onboard_domain. eapply triple_read_bind; [apply reader_or_fail | left; reflexivity |]. intros domain Hd. cbn beta in Hd.
  specialize (Hrun domain Hd). eapply triple_read_bind; [apply reader_or_fail | left; reflexivity |]. intros [] _. unfold action_for in Hrun.
  destruct (default false replace); [exact Hrun |].
  eapply triple_read_bind; [apply reader_validate_inner | left; reflexivity |]. intros v _. destruct (flag_at "decision_required" v); [| exact Hrun].
  eapply triple_bind; [eapply triple_conseq; [apply (persist_discovered_triple pid d0 domain) | done | done | by left] |]. intros [].
  apply (triple_of_keeps (becomes R d0)); [| | done | done].
  - apply keeps_bind; [apply keeps_triple, audit_triple; intros d d' ?; by apply becomes_only | intros _; apply keeps_ret].
  - intros d. apply becomes_weaken. intros inv inv' ?. exists domain. split; [done | by left].
Qed.
Lemma adopt_triple d0 a b input :
  let R inv inv' := ∃ domain, normalize_domain input = Ok domain ∧
    adopts domain (JObject (adopted_dns_snapshots (validate_domain_raw a domain))) inv inv' in
  triple (λ d, d = d0) (adopt_existing_domain pid now a b input) (λ _, changed R d0) (becomes R d0).
Proof.
  cbv zeta. set (R inv inv' := ∃ domain, _). unfold adopt_existing_domain.
  eapply triple_read_bind; [apply reader_or_fail | left; reflexivity |]. intros domain Hd. cbn beta in Hd.
  eapply (triple_bind _ _ _ (λ _ d, d = d0)).
  { destruct (forallb _ _); [apply triple_fail; intros ? ->; left; reflexivity | by apply triple_ret]. }
  intros _. eapply (triple_bind _ _ _ (λ _, changed R d0)).
  - eapply triple_conseq; [apply (persist_adopted_triple pid d0 domain) | done | | by left].
    intros _ d (inv & inv' & ? & ? & ?). exists inv, inv'. do 2 (split; [done |]). by exists domain.
  - intros _. apply (triple_of_keeps (changed R d0)); [| done | done | by right].
    apply keeps_bind; [apply inner_keeps |]. intros v. apply keeps_bind; [| intros _; apply keeps_ret].
    apply keeps_triple, audit_triple. intros d d' ?. by apply changed_only.
Qed.
Lemma validate_triple d0 a input :
  triple (λ d, d = d0) (validate_domain now a input) (λ _, same_inventory d0) (same_inventory d0).
Proof.
  unfold validate_domain. eapply triple_read_bind; [apply reader_or_fail | done |]. intros domain _.
  eapply triple_read_bind; [apply reader_validate_inner | done |]. intros v _.
  apply (triple_of_keeps (same_inventory d0)); [| by intros ? -> | done | done].
  apply keeps_bind; [apply keeps_audit | intros _; apply keeps_ret].
Qed.

(** ** Requests *)

(** One of the flags of the entry of [domain] says that Nexus manages it. *)
Definition managed (inv : Json) (domain : string) : Prop :=
  ∃ e k, find_domain_entry inv domain = Some e ∧ k ∈ ["mail"; "webmail"; "ddns"; "tunnel"]%string ∧ flag_at k e = true.
Definition concerns (r : domain_request) (domain : string) : Prop :=
  match r with
  | AdoptExistingDomain _ _ input | OnboardDomain _ _ _ _ input _ _ => normalize_domain input = Ok domain
  | _ => False
  end.
Definition helper_succeeded (r : domain_request) (domain : string) : Prop :=
  match r with
  | OnboardDomain _ call _ _ input user replace =>
      normalize_domain input = Ok domain ∧ ∃ v, reported (call (action_for replace) domain (default "admin"%string user)) v
  | _ => False
  end.
Record sound_step (r : domain_request) (inv inv' : Json) : Prop := {
  st_wf : inventory_wf inv → inventory_wf inv';
  st_other : ∀ domain, ¬ concerns r domain → find_domain_entry inv' domain = find_domain_entry inv domain;
  st_managed : ∀ domain, managed inv' domain → managed inv domain ∨ helper_succeeded r domain;
  st_keys : ∀ k, k ≠ "domains"%string → jget k inv' = jget k inv;
}.
Lemma managed_other inv inv' domain : find_domain_entry inv' domain = find_domain_entry inv domain → managed inv' domain → managed inv domain.
Proof. unfold managed. by intros ->. Qed.
Lemma step_of r domain inv inv' : concerns r domain → only_domain domain inv inv' → (inventory_wf inv → inventory_wf inv') →
  (managed inv' domain → managed inv domain ∨ helper_succeeded r domain) → sound_step r inv inv'.
Proof.
  intros Hr [Hother Hkeys] Hwf Hm. split; [done | | | done].
  - intros other Hn. apply Hother. by intros ->.
  - intros other. destruct (decide (other = domain)) as [-> | Hne]; [exact Hm |]. intros Hman. left. eapply managed_other; [| exact Hman]. by apply Hother.
Qed.
Lemma new_unmanaged domain mode k : k ∈ ["mail"; "webmail"; "ddns"; "tunnel"]%string → flag_at k (fresh_entry domain mode false) = false.
Proof. rw !elem_of_cons elem_of_nil. intros Hk. destruct_or! Hk; by subst. Qed.
Lemma adopt_flags checks e k : k ∈ ["mail"; "webmail"; "ddns"; "tunnel"]%string → flag_at k (adopt_entry checks e) = true → flag_at k e = true.
Proof.
  rw !elem_of_cons elem_of_nil. intros Hk. unfold adopt_entry.
  destruct e as [| | | | | m]; [by destruct_or! Hk; subst | done.. |].
  rw !flag_jset; [eexists; done | eexists; done |]. by destruct_or! Hk; subst.
Qed.
Lemma handler_triple d0 r :
  triple (λ d, d = d0) (handle_domain pid now r) (λ _, becomes (sound_step r) d0) (becomes (sound_step r) d0).
Proof.
  destruct r as [| a input | a b input | installed call a b input user replace]; simpl.
  - eapply triple_conseq; [apply triple_reader with (E := λ d, d = d0); [apply reader_inventory | done] | done | |].
    + intros v d [-> _]. left. reflexivity.
    + intros ? ->. left. reflexivity.
  - eapply triple_conseq; [apply (validate_triple d0) | done | by left | by left].
  - assert (∀ inv inv', (∃ domain, normalize_domain input = Ok domain ∧
      adopts domain (JObject (adopted_dns_snapshots (validate_domain_raw a domain))) inv inv') → sound_step (AdoptExistingDomain a b input) inv inv') as Hstep.
    { intros inv inv' (domain & Hd & Hother & Hwf & He). apply (step_of _ domain); [done..|]. intros (e & k & Hf & Hk & Hflag). left.
      rw He in Hf. injection Hf as <-. apply adopt_flags in Hflag; [| done]. destruct (find_domain_entry inv domain) as [e|] eqn:Hi.
      - by exists e, k.
      - simpl in Hflag. by rw new_unmanaged in Hflag. }
    eapply triple_conseq; [apply (adopt_triple d0) | done | |].
    + intros v d Hd. eapply becomes_weaken; [exact Hstep | by right].
    + intros d. by apply becomes_weaken.
  - assert (∀ inv inv', (∃ domain, normalize_domain input = Ok domain ∧ (discovers domain inv inv' ∨
      onboards (call (action_for replace) domain (default "admin"%string user)) domain inv inv')) → sound_step (OnboardDomain installed call a b input user replace) inv inv') as Hstep.
    { intros inv inv' (domain & Hd & [(Hnone & Hother & Hwf & He) | [(Hother & Hwf & He) Hrep]]); apply (step_of _ domain); try done.
      - intros (e & k & Hf & Hk & Hflag). rw He in Hf. injection Hf as <-. by rw new_unmanaged in Hflag.
      - intros _. by right. }
    eapply triple_conseq; [apply (onboard_triple d0) | done | |].
    + intros v d. by apply becomes_weaken.
    + intros d. by apply becomes_weaken.
Qed.
Lemma serve_cons r rs w : serve_domains pid now (r :: rs) w = serve_domains pid now rs (handle_domain pid now r w).2.
Proof. unfold serve_domains. simpl. unfold mbind, IO_bind, attempt. by destruct (handle_domain pid now r w) as [[v | e] w1]. Qed.
Lemma step_run r w : becomes (sound_step r) (disk w) (disk (handle_domain pid now r w).2).
Proof. pose proof (handler_triple (disk w) r w eq_refl) as Ht. by destruct (handle_domain pid now r w) as [[v | e] w1]. Qed.

(** ** What a successful onboarding returns *)
Definition fully_managed (e : Json) : Prop :=
  Forall (λ k, flag_at k e = true) ["mail"; "webmail"; "ddns"; "tunnel"]%string ∧ str_at "configuration_mode" e = Some "nexus"%string ∧
  jget "adopted_checks" e = None.
Lemma manage_entry_managed m : fully_managed (manage_entry (JObject m)).
Proof.
  unfold fully_managed, flag_at, str_at. rw !Forall_cons Forall_nil. unfold manage_entry. rw !jget_jremove.
  repeat (rw jget_jset; [by repeat apply jset_object; eexists |]). done.
Qed.
Lemma find_object inv domain e : find_domain_entry inv domain = Some e → ∃ m, e = JObject m.
Proof.
  unfold find_domain_entry. destruct (domains_of inv) as [l|]; [| done]. intros [_ Hn%named_true]%find_some.
  unfold str_at in Hn. destruct (jget "name" e) eqn:Hj; [| done]. by eapply jget_object.
Qed.
Lemma manages_managed domain inv inv' : manages domain inv inv' → ∃ e, find_domain_entry inv' domain = Some e ∧ fully_managed e.
Proof.
  intros (_ & _ & ->). eexists. split; [done |]. destruct (find_domain_entry inv domain) as [e|] eqn:He.
  - destruct (find_object _ _ _ He) as [m ->]. apply manage_entry_managed.
  - unfold fully_managed. by rw !Forall_cons.
Qed.
Lemma run_onboarding_value installed call x b domain user :
  yields (run_onboarding pid now installed call x b domain user) (λ v, flag_at "decision_required" v = false).
Proof.
  unfold run_onboarding. destruct (negb installed); [apply yields_fail |]. apply yields_bind. intros r. apply yields_bind. intros [u | e].
  - apply yields_bind. intros validation. apply yields_bind. intros _. by apply yields_ret.
  - apply yields_bind. intros _. apply yields_fail.
Qed.
End handlers.
