(* ===== verification/NexusDomainProps.v ===== *)
(** * Properties of domains and hosting

    A concrete JSON text for the witnesses, and the properties of the handlers. *)
From S2P Require Import Prelude RustStr Disk Search Examples AutoInstallProps NexusJson NexusDomains NexusDomainFacts.

#[local] Open Scope string_scope.

Global Instance ex_json_text : JsonText := {|
  json_pretty v := Some (number_file v);
  json_file := file_number;
  json_from_str s := match s with
                     | String c s' => if Ascii.eqb c "n" then decode (string_pos s') else if Ascii.eqb c "{" then Some (JObject []) else None
                     | "" => None
                     end;
|}.
Global Instance ex_json_laws : JsonTextLaws.
Proof. split. intros v f [= <-]. apply file_number_file. Qed.

(** ** Names *)

(** A name that is accepted is a lower case host name with a top-level domain, whatever was
    typed: labels of letters, digits and inner dashes, each of at most 63 characters, at most 253
    together; and a second normalization changes nothing. *)
Theorem domain_names_normal input domain : normalize_domain input = Ok domain →
  domain_shape domain ∧ normalize_domain domain = Ok domain.
Proof.
  intros [Hs Hv]%normalize_shape. split; [done |]. destruct (shape_fixed domain Hs) as (H1 & H2 & H3).
  unfold normalize_domain. by rw H1 H2 H3 Hv.
Qed.
Example domain_names_normal_witness :
  let typed := "  Mail.Example.COM. " in
  normalize_domain typed = Ok "mail.example.com" ∧ domain_shape "mail.example.com" ∧ normalize_domain "mail.example.com" = Ok "mail.example.com".
Proof. intros typed. assert (normalize_domain typed = Ok "mail.example.com") as H by by vm_compute. split; [exact H |]. exact (domain_names_normal typed _ H). Defined.

(** ** The helper *)
Section props.
Context `{JsonText, !JsonTextLaws}.
Context (pid now : Z).

(** A call of the helper for a request: its name and its user are checked, the action is the one asked for, a call
    that replaces nothing is made only when the checks found no configuration to decide on, and every call after the first
    one follows a failure that is worth another try. *)
Record justified (call : helper_action → string → string → nat → command_outcome) (a : answers) (w : world)
    (input : string) (hestia_user : option string) (replace_existing : option bool)
    (x : helper_action) (domain user : string) (k : nat) : Prop := {
  j_domain : normalize_domain input = Ok domain;
  j_user : user = default "admin" hestia_user ∧ validate_hestia_user user = Ok ();
  j_action : x = action_for replace_existing;
  j_decided : x = Onboard → ∃ inv, inventory_on (disk w) = Some inv ∧
    flag_at "decision_required" (judge_domain inv (validate_domain_raw a domain) domain) = false;
  j_attempt : reached (call x domain user) k;
}.

(** C21: The helper program is only started as [justified] says: two helpers that agree on the justified calls cannot be
    told apart by the handler, whatever I/O fails. *)
Theorem helper_calls_justified installed call call' a b input hestia_user replace_existing w :
  (∀ x domain user k, justified call a w input hestia_user replace_existing x domain user k → call' x domain user k = call x domain user k) →
  onboard_domain pid now installed call' a b input hestia_user replace_existing w =
  onboard_domain pid now installed call a b input hestia_user replace_existing w.
Proof.
  intros Hagree. unfold onboard_domain. destruct (normalize_domain input) as [domain |] eqn:Hd; [| done]. cbn [or_fail].
  destruct (validate_hestia_user (default "admin" hestia_user)) as [[] |] eqn:Hu; [| done].
  assert (∀ w', ((action_for replace_existing = Onboard → ∃ inv, inventory_on (disk w) = Some inv ∧
      flag_at "decision_required" (judge_domain inv (validate_domain_raw a domain) domain) = false)) →
    run_onboarding pid now installed call' (action_for replace_existing) b domain (default "admin" hestia_user) w' =
    run_onboarding pid now installed call (action_for replace_existing) b domain (default "admin" hestia_user) w') as Hrun.
  { intros w' Hdec. unfold run_onboarding. destruct (negb installed); [done |]. apply bind_first, helper_loop_ext; [| apply reached_first | done].
    intros j Hj. by apply Hagree. }
  rw !bind_ret. unfold action_for in *. destruct (default false replace_existing); [by apply Hrun |].
  destruct (reader_validate_inner a domain w) as [_ Hv]. unfold mbind, IO_bind. destruct (validate_domain_inner a domain w) as [[v | e] w1]; [| done].
  destruct (flag_at "decision_required" v) eqn:Hf; [done |]. apply Hrun. intros _. destruct (Hv v eq_refl) as (inv & Hinv & ->). by exists inv.
Qed.

(** C20: Whatever requests are served and whatever I/O fails, an inventory that can be read stays readable, with one entry
    per domain; an entry changes only through a request for its domain; Nexus manages no domain it did not manage, unless
    the helper reported success for it; and nothing but the list of domains changes. *)
Theorem domains_inventory_sound rs w inv : inventory_on (disk w) = Some inv → inventory_wf inv →
  ∃ inv', inventory_on (disk (serve_domains pid now rs w).2) = Some inv' ∧ inventory_wf inv' ∧
    (∀ domain, (∀ r, r ∈ rs → ¬ concerns r domain) → find_domain_entry inv' domain = find_domain_entry inv domain) ∧
    (∀ domain, managed inv' domain → managed inv domain ∨ ∃ r, r ∈ rs ∧ helper_succeeded r domain) ∧
    (∀ k, k ≠ "domains" → jget k inv' = jget k inv).
Proof.
  revert w inv. induction rs as [|r rs IH]; intros w inv Hinv Hwf.
  { exists inv. split_and!; auto. }
  rw serve_cons. pose proof (step_run pid now r w) as Hstep. set (w1 := (handle_domain pid now r w).2) in *. clearbody w1.
  destruct Hstep as [Hsame | (inv0 & inv1 & Hi0 & Hi1 & Hstep)].
  - destruct (IH w1 inv) as (inv' & ? & ? & Hother & Hm & ?); [by rw Hsame | done |]. exists inv'. split_and!; try done.
    + intros domain Hc. apply Hother. intros r' Hr'. apply Hc. by right.
    + intros domain [? | (r' & ? & ?)]%Hm; [by left | right]. exists r'. split; [by right | done].
  - assert (inv0 = inv) as -> by congruence. destruct Hstep as [S1 S2 S3 S4].
    destruct (IH w1 inv1 Hi1 (S1 Hwf)) as (inv' & ? & ? & Hother & Hm & Hk). exists inv'. split_and!; try done.
    + intros domain Hc. rw Hother; [| apply S2, Hc; by left]. intros r' Hr'. apply Hc. by right.
    + intros domain [[? | ?]%S3 | (r' & ? & ?)]%Hm; [by left | right; exists r; split; [by left | done] | right].
      exists r'. split; [by right | done].
    + intros k Hne. by rw Hk // S4.
Qed.

(** An adopted set-up is asked about again exactly when one of its records is no longer the adopted one, and it is
    reported as healthy exactly when none has changed. *)
Theorem adoption_tracks_drift a b c input domain w v w' w1 r w2 :
  normalize_domain input = Ok domain →
  adopt_existing_domain pid now a b input w = (Ok v, w') →
  inventory_on (disk w1) = inventory_on (disk w') → validate_domain_inner c domain w1 = (Ok r, w2) →
  let same k := record_fingerprint (validate_domain_raw c domain) k = record_fingerprint (validate_domain_raw a domain) k in
  flag_at "decision_required" r = negb (bool_decide (Forall same ADOPTABLE_DNS_CHECKS)) ∧
  flag_at "healthy" r = bool_decide (Forall same ADOPTABLE_DNS_CHECKS) ∧
  str_at "configuration_mode" r = Some "existing".
Proof.
  intros Hd Hadopt Hw1 Hr same. pose proof (adopt_triple pid now (disk w) a b input w eq_refl) as Ht. rw Hadopt in Ht.
  destruct Ht as (inv0 & inv & _ & Hinv & domain' & Hd' & _ & _ & He). assert (domain' = domain) as -> by congruence.
  destruct (reader_run _ _ _ _ _ (reader_validate_inner c domain) Hr) as [_ Hjudge]. destruct (Hjudge r eq_refl) as (inv1 & Hinv1 & ->).
  assert (inv1 = inv) as -> by congruence. unfold judge_domain. rw He.
  set (raw := validate_domain_raw a domain) in *. set (e := default _ _) in *. assert (∃ m, e = JObject m) as [m Hm].
  { unfold e. destruct (find_domain_entry inv0 domain) as [e'|] eqn:Hf; [by eapply find_object | by eexists]. }
  clearbody e. subst e. assert (str_at "configuration_mode" (adopt_entry (JObject (adopted_dns_snapshots raw)) (JObject m)) = Some "existing") as Hmode.
  { unfold str_at, adopt_entry. simpl. by rw member_set /= member_set. }
  rw bool_decide_true //. destruct (raw_checked c domain) as [Hwell Hall].
  destruct (apply_existing_spec _ (adopt_entry (JObject (adopted_dns_snapshots raw)) (JObject m)) Hwell Hall) as (H1 & H2 & H3).
  rw H1 H2. assert (existsb (drifted (jget "adopted_checks" (adopt_entry (JObject (adopted_dns_snapshots raw)) (JObject m)))
    (validate_domain_raw c domain)) ADOPTABLE_DNS_CHECKS = negb (bool_decide (Forall same ADOPTABLE_DNS_CHECKS))) as Hch.
  2: { rw Hch negb_involutive. split; [reflexivity |]. split; [reflexivity | exact H3]. }
  unfold adopt_entry. rw jget_jset; [by eapply jset_object; eauto |]. simpl String.eqb. cbn iota.
  apply eq_true_iff_eq. rw existsb_exists negb_true_iff bool_decide_eq_false. split.
  - intros (k & Hk%list_elem_of_In & Hdr) Hsame. apply (proj1 (Forall_forall _ _) Hsame) in Hk as Heq. apply (proj1 (drifted_snapshot raw _ k Hk)) in Hdr. exact (Hdr Heq).
  - intros Hnot. apply not_Forall_Exists in Hnot; [| intros k; unfold same; apply _]. apply Exists_exists in Hnot as (k & Hk & Hneq).
    exists k. split; [by apply list_elem_of_In | by apply drifted_snapshot].
Qed.

(** Onboarding that reports success either asks for a decision, and leaves an entry for the domain, or has run the helper
    to success, and the entry is that of a domain managed by Nexus. *)
Theorem onboarding_outcome installed call a b input user replace domain w v w' :
  normalize_domain input = Ok domain → onboard_domain pid now installed call a b input user replace w = (Ok v, w') →
  ∃ inv' e, inventory_on (disk w') = Some inv' ∧ find_domain_entry inv' domain = Some e ∧
    if flag_at "decision_required" v then action_for replace = Onboard
    else fully_managed e ∧ ∃ r, reported (call (action_for replace) domain (default "admin" user)) r.
Proof.
  intros Hd. unfold onboard_domain. rw Hd. rw bind_ret. destruct (validate_hestia_user _) as [[] |]; [rw bind_ret | done].
  assert (∀ x w, run_onboarding pid now installed call x b domain (default "admin" user) w = (Ok v, w') → ∃ inv' e,
    inventory_on (disk w') = Some inv' ∧ find_domain_entry inv' domain = Some e ∧ flag_at "decision_required" v = false ∧
    fully_managed e ∧ ∃ r, reported (call x domain (default "admin" user)) r) as Hrun.
  { intros x w1 Hrun. pose proof (run_onboarding_triple pid now (disk w1) installed call x b domain (default "admin" user) w1 eq_refl) as Ht.
    pose proof (run_onboarding_value pid now installed call x b domain (default "admin" user) w1 v) as Hv. rw Hrun in Ht Hv.
    destruct Ht as (inv & inv' & _ & Hinv & [e [He Hm]]%manages_managed & Hrep). exists inv', e. split_and!; auto. }
  unfold action_for. destruct (default false replace).
  - intros (inv' & e & ? & ? & -> & ? & ?)%Hrun. by exists inv', e.
  - intros (p & w1 & _ & Hw1)%run_bind. destruct (flag_at "decision_required" p).
    + apply run_bind in Hw1 as (u & w2 & Hpersist & (u' & w3 & Haudit & Hret)%run_bind). injection Hret as <- <-.
      pose proof (discovered_after pid (disk w1) domain w1 eq_refl) as Ht. rw Hpersist in Ht. destruct Ht as (inv' & Hinv & e & He).
      exists inv', e. split; [| done]. pose proof (keeps_audit now (disk w2) "discover-existing" domain "decision-required" w2 eq_refl) as Hk.
      rw Haudit in Hk. by rw Hk.
    + apply Hrun in Hw1 as (inv' & e & ? & ? & -> & ? & ?). by exists inv', e.
Qed.
End props.

(** ** A domain

    The name servers answer with the records of another mail provider, or know nothing of the domain; the helper fails
    once and then reports success. *)
Definition ex_domain : string := "shop.example.com".
Definition no_records : answers := λ _ _, Exited true (Some 0%Z) "" "".
Definition records (mx : string) : answers := λ program args,
  match args with
  | [_; "MX"; _] => Exited true (Some 0%Z) mx ""
  | [_; "TXT"; "shop.example.com"] => Exited true (Some 0%Z) "v=spf1 include:other.net ~all" ""
  | _ => NotStarted "no such program"
  end.
Definition ex_helper (x : helper_action) (domain user : string) (attempt : nat) : command_outcome :=
  if (attempt <? 2)%nat then Exited false (Some 1%Z) "" "provider busy" else Exited true (Some 0%Z) "{}" "".
(** Another helper, that answers only what this one is asked *)
Definition ex_other_helper (x : helper_action) (domain user : string) (attempt : nat) : command_outcome :=
  match x with
  | Onboard => if String.eqb domain ex_domain && String.eqb user "admin" && (attempt <? 3)%nat then ex_helper x domain user attempt else TimedOut
  | Migrate => TimedOut
  end.
Definition ex_onboard : IO Json := onboard_domain 1 0 true ex_helper no_records no_records "Shop.Example.com." None None.
Definition ex_start : world := quiet_world ∅.
Definition is_ok {A} (r : result error A) : bool := match r with Ok _ => true | Err _ => false end.
Lemma ok_run {A} (m : IO A) w : is_ok (m w).1 = true → ∃ a w', m w = (Ok a, w').
Proof. destruct (m w) as [[a | e] w']; [eauto | done]. Qed.

Example helper_calls_justified_witness :
  onboard_domain 1 0 true ex_other_helper no_records no_records "Shop.Example.com." None None ex_start = ex_onboard ex_start ∧
  is_ok (ex_onboard ex_start).1 = true.
Proof.
  split; [| by vm_compute]. apply (helper_calls_justified 1 0 true ex_helper ex_other_helper no_records no_records). intros x domain user k [Hd [Hu _] Hx _ [Hk Hj]].
  assert (normalize_domain "Shop.Example.com." = Ok ex_domain) as Hn by by vm_compute. rw Hn in Hd. injection Hd as <-. subst x user.
  destruct (Nat.ltb_spec k 3) as [Hlt | Hge].
  - unfold ex_other_helper. simpl. by rw (proj2 (Nat.ltb_lt k 3) Hlt).
  - discriminate (Hj 2 ltac:(lia)).
Defined.
Example domains_inventory_sound_witness :
  let rs := [OnboardDomain true ex_helper no_records no_records "shop.example.com" None None; AdoptExistingDomain (records "10 mx.other.net.") no_records "other.net"] in
  ∃ inv', inventory_on (disk (serve_domains 1 0 rs ex_start).2) = Some inv' ∧ inventory_wf inv' ∧
    (∀ domain, (∀ r, r ∈ rs → ¬ concerns r domain) → find_domain_entry inv' domain = find_domain_entry default_inventory domain) ∧
    (∀ domain, managed inv' domain → managed default_inventory domain ∨ ∃ r, r ∈ rs ∧ helper_succeeded r domain) ∧
    (∀ k, k ≠ "domains" → jget k inv' = jget k default_inventory).
Proof.
  intros rs. apply (domains_inventory_sound 1 0 rs ex_start default_inventory); [reflexivity |].
  intros l [= <-]. apply (bool_decide_unpack _). vm_compute. exact I.
Defined.
Example adoption_tracks_drift_witness : ∃ v w' r w2,
  adopt_existing_domain 1 0 (records "10 mx.other.net.") no_records ex_domain ex_start = (Ok v, w') ∧
  validate_domain_inner (records "10 mx.new.net.") ex_domain w' = (Ok r, w2) ∧
  flag_at "decision_required" r = true ∧ flag_at "healthy" r = false ∧ str_at "configuration_mode" r = Some "existing".
Proof.
  destruct (ok_run (adopt_existing_domain 1 0 (records "10 mx.other.net.") no_records ex_domain) ex_start) as (v & w' & Hadopt); [by vm_compute |].
  destruct (ok_run (validate_domain_inner (records "10 mx.new.net.") ex_domain) (adopt_existing_domain 1 0 (records "10 mx.other.net.") no_records ex_domain ex_start).2)
    as (r & w2 & Hr); [by vm_compute |]. rw Hadopt /= in Hr. exists v, w', r, w2. split; [exact Hadopt |]. split; [exact Hr |].
  assert (normalize_domain ex_domain = Ok ex_domain) as Hn by by vm_compute.
  destruct (adoption_tracks_drift 1 0 _ _ (records "10 mx.new.net.") _ _ _ _ _ _ _ _ Hn Hadopt eq_refl Hr) as (H1 & H2 & H3).
  assert (bool_decide (Forall (λ k, record_fingerprint (validate_domain_raw (records "10 mx.new.net.") ex_domain) k =
    record_fingerprint (validate_domain_raw (records "10 mx.other.net.") ex_domain) k) ADOPTABLE_DNS_CHECKS) = false) as Hb by (vm_compute; reflexivity).
  split; [exact (eq_trans H1 (f_equal negb Hb)) |]. split; [exact (eq_trans H2 Hb) | exact H3].
Defined.
Example onboarding_outcome_witness : ∃ v w' inv' e,
  ex_onboard ex_start = (Ok v, w') ∧ inventory_on (disk w') = Some inv' ∧ find_domain_entry inv' ex_domain = Some e ∧
  if flag_at "decision_required" v then True else fully_managed e.
Proof.
  destruct (ok_run ex_onboard ex_start) as (v & w' & Hrun); [by vm_compute |].
  destruct (onboarding_outcome 1 0 _ _ _ _ "Shop.Example.com." None None ex_domain _ _ _ ltac:(by vm_compute) Hrun) as (inv' & e & H1 & H2 & H3).
  exists v, w', inv', e. split; [exact Hrun |]. split; [exact H1 |]. split; [exact H2 |]. destruct (flag_at "decision_required" v); [exact I | exact (proj1 H3)].
Defined.

(** ** Behaviours the documentation rules out *)

(** Onboarding without the opt-in runs the helper for a domain whose set-up is adopted and unchanged, and drops the adoption. *)
Example onboarding_drops_adoption :
  let adopted := (adopt_existing_domain 1 0 (records "10 mx.other.net.") (records "10 mx.other.net.") ex_domain ex_start).2 in
  let after := (onboard_domain 1 0 true ex_helper (records "10 mx.other.net.") no_records ex_domain None None adopted).2 in
  (inventory_on (disk adopted) ≫= λ inv, find_domain_entry inv ex_domain ≫= str_at "configuration_mode") = Some "existing" ∧
  (inventory_on (disk after) ≫= λ inv, find_domain_entry inv ex_domain ≫= str_at "configuration_mode") = Some "nexus".
Proof. by vm_compute. Qed.
(** The helper has succeeded at the second attempt, the note about it in the audit log cannot be written: the inventory
    does not know of the domain, and the log does not say that it was set up. *)
Definition ex_torn : world := World ∅ 0 (λ n, Nat.eqb n 101).
Example audit_failure_loses_onboarding :
  let after := (ex_onboard ex_torn).2 in
  is_ok (ex_onboard ex_torn).1 = false ∧ inventory_on (disk after) = Some default_inventory ∧
  (match disk after !! AUDIT_FILENAME with Some [Text _] => true | _ => false end) = true.
Proof. by vm_compute. Qed.
(** Names are compared in the case they were typed in. *)
Example webmail_cname_case : webmail_cname_is_nexus (JObject [("value", JString "Tunnel.CFArgoTunnel.com.")]) = false.
Proof. by vm_compute. Qed.
