(* ===== verification/NexusMonitoring.v ===== *)
(** * Device monitoring

    server/src/api/nexus/monitoring: the inventory of monitored devices (store.rs), the SigNoz
    service and its downtimes (signoz.rs), the configuration of the probe collector
    (collector.rs) and the handlers (mod.rs).  A parameter stands for SigNoz and the network
    ([SigNoz]), and for what the system's programs answer ([answer]); which programs were started
    is part of the state. *)
From S2P Require Import Prelude RustStr Disk Search AutoInstaller NexusJson.

#[local] Open Scope string_scope.

(** ** Host names and IP addresses *)

(** [str::parse::<IpAddr>]: the parsers return what is left of the text.  [read_digits] reads the
    digits there are, more than [max] of them are an error. *)
Definition digit_of (radix : N) (c : ascii) : option N :=
  let n := N_of_ascii c in
  let d := if in_range "0" "9" c then Some (n - 48)%N
           else if in_range "a" "f" c then Some (n - 87)%N
           else if in_range "A" "F" c then Some (n - 55)%N else None in
  v ← d; if (v <? radix)%N then Some v else None.
Fixpoint read_digits (radix : N) (max : nat) (value : N) (count : nat) (s : string) {struct s} : option (N * nat * string) :=
  match s with
  | String c s' =>
      match digit_of radix c with
      | Some d => match max with O => None | S max' => read_digits radix max' (value * radix + d)%N (S count) s' end
      | None => Some (value, count, s)
      end
  | "" => Some (value, count, s)
  end.
Definition read_number (radix : N) (max : nat) (bound : N) (allow_zero_prefix : bool) (s : string) : option string :=
  '(value, count, rest) ← read_digits radix max 0%N 0 s;
  if (count =? 0)%nat || (negb allow_zero_prefix && char_is (Ascii.eqb "0") (first_char s) && (1 <? count)%nat) || (bound <=? value)%N then None
  else Some rest.
Definition read_given_char (c : ascii) (s : string) : option string :=
  match s with String a s' => if Ascii.eqb a c then Some s' else None | "" => None end.
Definition read_separator (sep : ascii) (index : nat) (inner : string → option string) (s : string) : option string :=
  s ← (if (index =? 0)%nat then Some s else read_given_char sep s); inner s.
Definition read_octet : string → option string := read_number 10 3 256 false.
Definition read_ipv4_addr (s : string) : option string :=
  s ← read_separator "." 0 read_octet s; s ← read_separator "." 1 read_octet s;
  s ← read_separator "." 2 read_octet s; read_separator "." 3 read_octet s.
(** How many of [limit] groups were read, whether they end in an IPv4 address, and what is left *)
Fixpoint read_groups (limit fuel index : nat) (s : string) : nat * bool * string :=
  match fuel with
  | O => (limit, false, s)
  | S fuel' =>
      match if (index <? limit - 1)%nat then read_separator ":" index read_ipv4_addr s else None with
      | Some s' => (index + 2, true, s')
      | None => match read_separator ":" index (read_number 16 4 65536 true) s with
                | Some s' => read_groups limit fuel' (S index) s'
                | None => (index, false, s)
                end
      end
  end.
Definition read_ipv6_addr (s : string) : option string :=
  let '(head_size, head_ipv4, s) := read_groups 8 8 0 s in
  if (head_size =? 8)%nat then Some s
  else if head_ipv4 then None
  else
    s ← read_given_char ":" s; s ← read_given_char ":" s;
    let limit := (8 - (head_size + 1))%nat in
    let '(_, _, s) := read_groups limit limit 0 s in Some s.
Definition is_ip_addr (s : string) : bool :=
  match read_ipv4_addr s with
  | Some rest => is_empty rest
  | None => match read_ipv6_addr s with Some rest => is_empty rest | None => false end
  end.

(** ** store.rs: the inventory *)
Definition INVENTORY_FILENAME : string := "monitoring.json".
Definition DEFAULT_SIGNOZ_URL : string := "http://192.168.0.47:8080".
Definition DEFAULT_OTLP_ENDPOINT : string := "192.168.0.47:4317".
Definition default_inventory : Json := JObject [
  ("version", jnum 1);
  ("signoz", JObject [("url", JString DEFAULT_SIGNOZ_URL)]);
  ("probe", JObject [("otlp_endpoint", JString DEFAULT_OTLP_ENDPOINT); ("collection_interval", JString "30s")]);
  ("devices", JArray [])].

Definition normalize_name (input : string) : result string string :=
  let name := trim input in
  if is_empty name || (80 <? String.length name)%nat then Err "device name must contain between 1 and 80 characters"
  else if has_control name then Err "device name contains invalid control characters"
  else Ok name.
Definition alnum_char (c : string) : bool := match c with String a "" => ascii_alnum a | _ => false end.
Fixpoint slug_chars (cs : list string) (output : string) (previous_dash : bool) : string :=
  match cs with
  | [] => output
  | ch :: cs' =>
      if alnum_char ch then slug_chars cs' (output ++ ch) false
      else if negb previous_dash && negb (is_empty output) then slug_chars cs' (output ++ "-") true
      else slug_chars cs' output previous_dash
  end.
Definition normalize_slug (input : string) : result string string :=
  let output := trim_end_char "-" (slug_chars (chars (to_ascii_lowercase (trim input))) "" false) in
  if is_empty output || (64 <? String.length output)%nat then Err "device name cannot be converted to a valid device id"
  else Ok output.
Definition label_char (c : ascii) : bool := ascii_alnum c || Ascii.eqb c "-" || Ascii.eqb c "_".
Definition normalize_simple_label (input field : string) : result string string :=
  let value := to_ascii_lowercase (trim input) in
  if is_empty value || (64 <? String.length value)%nat then Err (field ++ " must contain between 1 and 64 characters")
  else if negb (forall_char label_char value) then Err (field ++ " contains invalid characters")
  else Ok value.
Definition bad_label (label : string) : bool :=
  is_empty label || (63 <? String.length label)%nat || negb (char_is ascii_alnum (first_char label)) ||
  negb (char_is ascii_alnum (last_char label)) || negb (forall_char (λ c, ascii_alnum c || Ascii.eqb c "-") label).
Definition normalize_address (input : string) : result string string :=
  let address := to_ascii_lowercase (trim_end_char "." (trim input)) in
  if is_ip_addr address then Ok address
  else if is_empty address || (253 <? String.length address)%nat then Err "invalid device IP address or hostname"
  else if existsb bad_label (split_char "." address) then Err "invalid device IP address or hostname"
  else Ok address.
Definition normalize_state (input : string) : result string string :=
  let s := to_ascii_lowercase (trim input) in
  if String.eqb s "enabled" then Ok "enabled"
  else if String.eqb s "maintenance" then Ok "maintenance"
  else if String.eqb s "disabled" then Ok "disabled"
  else Err "state must be enabled, maintenance or disabled".

Definition devices_of (inventory : Json) : option (list Json) := jget "devices" inventory ≫= as_array.
Definition has_id (id : string) (device : Json) : bool := bool_decide (str_at "id" device = Some id).
Definition find_device (inventory : Json) (id : string) : option Json :=
  l ← devices_of inventory; find (has_id id) l.
Definition by_name (left right : Json) : comparison :=
  String.compare (default "" (str_at "name" left)) (default "" (str_at "name" right)).
Fixpoint replace_first (p : Json → bool) (x : Json) (l : list Json) : list Json :=
  match l with [] => [] | y :: l' => if p y then x :: l' else y :: replace_first p x l' end.
Definition entry_of (id name address kind site state : string) (signoz_downtime_id : option string) : Json :=
  let entry := JObject [("id", JString id); ("name", JString name); ("address", JString address); ("kind", JString kind);
                        ("site", JString site); ("profile", JString "icmp"); ("state", JString state)] in
  match signoz_downtime_id with Some downtime_id => jset "signoz_downtime_id" (JString downtime_id) entry | None => entry end.
Definition put_device (id : string) (entry inventory : Json) : option Json :=
  devices ← devices_of inventory;
  let devices := if existsb (has_id id) devices then replace_first (has_id id) entry devices else (devices ++ [entry])%list in
  Some (jset "devices" (JArray (sort_by by_name devices)) inventory).
Definition remove_device (id : string) (inventory : Json) : option (Json * bool) :=
  devices ← devices_of inventory;
  let kept := List.filter (λ device, negb (has_id id device)) devices in
  Some (jset "devices" (JArray kept) inventory, (length kept =? length devices)%nat).
Definition state_is (state : string) (device : Json) : bool := bool_decide (str_at "state" device = Some state).
Definition in_state (state : string) (inventory : Json) : list Json := List.filter (state_is state) (default [] (devices_of inventory)).
Definition enabled_devices : Json → list Json := in_state "enabled".

Section files.
Context `{JsonText} (pid : Z).
Definition read_inventory : IO Json := read_json INVENTORY_FILENAME default_inventory "unable to parse monitoring.json".
Definition write_inventory : Json → IO () :=
  write_json pid INVENTORY_FILENAME "unable to write temporary monitoring inventory" "unable to atomically replace monitoring inventory".
Definition missing_array : string := "monitoring inventory is missing a devices array".
Definition store_upsert (name address kind site state : string) (signoz_downtime_id : option string) : IO (string * Json) :=
  id ← or_fail (normalize_slug name);
  inventory ← read_inventory;
  inventory ← need (put_device id (entry_of id name address kind site state signoz_downtime_id) inventory) missing_array;
  _ ← write_inventory inventory;
  mret (id, inventory).
Definition store_delete (id : string) : IO Json :=
  inventory ← read_inventory;
  '(inventory, missing) ← need (remove_device id inventory) missing_array;
  if missing : bool then bail_with ("monitoring device '" ++ id ++ "' was not found")
  else _ ← write_inventory inventory; mret inventory.
End files.

(** ** The effects of the handlers

    Beside the files of the configuration directory there are SigNoz, and the programs that were
    started, newest first. *)
Inductive http_method := GET | POST | DELETE.
(** [exchange]: what becomes of a request over HTTP, from the connection to the body of the answer: an error, or whether
    the status is a success, its text, and the body. *)
Class SigNoz := {
  service : Type;
  parse_url : string → option (string * option string * option Z * string);   (* scheme, host, port, path *)
  exchange : string → Z → http_method → string → string → option Json → service → result string (bool * string * string) * service;
  epoch_to_rfc3339_utc : Z → option string;
  json_display : Json → string;
}.

Section effects.
Context `{SigNoz}.
Record site := Site { files : world; signoz : service; started : list (string * list string) }.
Definition Mon (A : Type) : Type := site → result error A * site.
Global Instance Mon_ret : MRet Mon := λ _ a s, (Ok a, s).
Global Instance Mon_bind : MBind Mon := λ _ _ f m s, match m s with (Ok a, s') => f a s' | (Err e, s') => (Err e, s') end.
Definition on_files {A} (m : IO A) : Mon A := λ s, let '(r, w) := m (files s) in (r, Site w (signoz s) (started s)).
Definition on_signoz {A} (f : service → result string A * service) : Mon (result string A) := λ s,
  let '(r, x) := f (signoz s) in (Ok r, Site (files s) x (started s)).
Definition mon_try {A} (m : Mon A) : Mon (result error A) := λ s, let '(r, s') := m s in (Ok r, s').
Definition mon_fail {A} (msg : string) : Mon A := on_files (bail_with msg).
Definition mon_or {A} (r : result string A) : Mon A := on_files (or_fail r).
Definition mon_need {A} (o : option A) (msg : string) : Mon A := on_files (need o msg).
(** [err.to_string()] *)
Definition error_text (e : error) : string := default "" (head (message e)).
End effects.

(** ** collector.rs *)
Definition COLLECTOR_CONFIG_FILENAME : string := "nexus-icmp-collector.yaml".
Definition COLLECTOR_BINARY : string := "/usr/bin/otelcol-contrib".
Definition COLLECTOR_SERVICE : string := "nexus-icmp-collector.service".
Definition BLACKBOX_BINARY : string := "/usr/bin/prometheus-blackbox-exporter".
Definition BLACKBOX_CONFIG : string := "/etc/prometheus/blackbox.yml".
Definition BLACKBOX_SERVICE : string := "prometheus-blackbox-exporter.service".
Definition BLACKBOX_ENDPOINT : string := "127.0.0.1:9115".
Definition COLLECTOR_TELEMETRY_PORT : Z := 8889.
Definition SYSTEMCTL : string := "/usr/bin/systemctl".

Definition yaml_quote (value : string) : string := "'" ++ replace_char "'" "''" value ++ "'".
Definition NEWLINE : string := String "010" "".
(** Lines that each end with a newline *)
Definition unlines (l : list string) : string := join ((λ s, s ++ NEWLINE) <$> l).
Definition device_lines (address id name kind site : string) : list string := [
  "            - targets: [" ++ yaml_quote address ++ "]";
  "              labels:";
  "                nexus_device_id: " ++ yaml_quote id;
  "                nexus_device_name: " ++ yaml_quote name;
  "                nexus_resource_type: " ++ yaml_quote kind;
  "                nexus_site: " ++ yaml_quote site;
  "                nexus_monitoring_profile: 'icmp'"].
Definition head_lines (interval : string) : list string := [
  "receivers:"; "  prometheus/nexus_icmp:"; "    config:"; "      scrape_configs:"; "        - job_name: 'nexus_icmp'";
  "          scrape_interval: " ++ interval; "          metrics_path: /probe"; "          params:"; "            module: ['icmp']";
  "          static_configs:"].
Definition tail_lines (endpoint : string) : list string := [
  "          relabel_configs:"; "            - source_labels: [__address__]"; "              target_label: __param_target";
  "            - source_labels: [__param_target]"; "              target_label: instance"; "            - target_label: __address__";
  "              replacement: '" ++ BLACKBOX_ENDPOINT ++ "'"; ""; "processors:"; "  batch: {}"; ""; "exporters:"; "  otlp:";
  "    endpoint: " ++ yaml_quote endpoint; "    tls:"; "      insecure: true"; ""; "service:"; "  telemetry:"; "    metrics:";
  "      readers:"; "        - pull:"; "            exporter:"; "              prometheus:"; "                host: '127.0.0.1'";
  "                port: " ++ show_int COLLECTOR_TELEMETRY_PORT; "  pipelines:"; "    metrics/nexus_icmp:";
  "      receivers: [prometheus/nexus_icmp]"; "      processors: [batch]"; "      exporters: [otlp]"].
Definition required {A} (o : option A) (msg : string) : result string A := match o with Some a => Ok a | None => Err msg end.
Definition target_lines (device : Json) : result string (list string) :=
  id ← required (str_at "id" device) "monitoring device is missing id";
  name ← required (str_at "name" device) "monitoring device is missing name";
  address ← required (str_at "address" device) "monitoring device is missing address";
  let kind := default "device" (str_at "kind" device) in
  let site := default "home" (str_at "site" device) in
  Ok (device_lines address id name kind site).
Fixpoint static_configs (devices : list Json) : result string (list string) :=
  match devices with
  | [] => Ok []
  | device :: devices' => l ← target_lines device; l' ← static_configs devices'; Ok (l ++ l')%list
  end.
Definition probe_str (key : string) (inventory : Json) : option string := jget "probe" inventory ≫= str_at key.
Definition collector_config (inventory : Json) : result string string :=
  let devices := enabled_devices inventory in
  if bool_decide (devices = []) then Err "no enabled devices"
  else
    let interval := default "30s" (probe_str "collection_interval" inventory) in
    let endpoint := default DEFAULT_OTLP_ENDPOINT (probe_str "otlp_endpoint" inventory) in
    targets ← static_configs devices;
    Ok (unlines (head_lines interval ++ targets ++ tail_lines endpoint)).

(** A text as a file *)
Fixpoint lines_file (l : list string) : file :=
  match l with [] => [] | [s] => if is_empty s then [] else [Partial s] | s :: l' => Text s :: lines_file l' end.
Definition text_file (text : string) : file := lines_file (split_char "010" text).

Section commands.
Context `{SigNoz} (pid : Z).
(** What a program answers, after the ones that were started before, in a directory; [present]: a path of the system exists. *)
Context (answer : list (string * list string) → dir → string → list string → command_outcome) (present : string → bool).

Definition command (program : string) (args : list string) : Mon command_outcome := λ s,
  (Ok (answer (started s) (disk (files s)) program args), Site (files s) (signoz s) ((program, args) :: started s)).
Definition command_success (program : string) (args : list string) : Mon () :=
  o ← command program args;
  match o with
  | NotStarted _ | TimedOut => mon_fail ("failed to execute " ++ program)
  | Exited true _ _ _ => mret ()
  | Exited false _ stdout stderr => mon_fail (program ++ " failed: " ++ (if is_empty (trim stderr) then trim stdout else trim stderr))
  end.
Definition mon_context {A} (msg : string) (m : Mon A) : Mon A := λ s,
  let '(r, s') := m s in (match r with Ok a => Ok a | Err e => Err (Error (kind e) (msg :: message e)) end, s').

Definition temporary_config : string := temporary_of pid COLLECTOR_CONFIG_FILENAME.
Definition applied (active_targets : nat) (state : string) : Json :=
  JObject [("active_targets", jnum active_targets); ("service", JString state); ("config", JString COLLECTOR_CONFIG_FILENAME)].
(** The configuration is written beside the one in use, checked by the collector, and put in its place. *)
Definition install_config (config : string) : Mon () :=
  _ ← on_files (context "unable to write temporary ICMP collector configuration" (fs_write temporary_config (text_file config)));
  r ← mon_try (command_success COLLECTOR_BINARY ["validate"; "--config=" ++ temporary_config]);
  match r with
  | Err e =>
      _ ← mon_try (on_files (fs_remove temporary_config));
      on_files (fail (Error (kind e) ("generated ICMP collector configuration is invalid" :: message e)))
  | Ok _ => on_files (context "unable to atomically replace ICMP collector configuration" (fs_rename temporary_config COLLECTOR_CONFIG_FILENAME))
  end.
Definition collector_reconcile (inventory : Json) : Mon Json :=
  let active_targets := length (enabled_devices inventory) in
  if (active_targets =? 0)%nat then
    _ ← command SYSTEMCTL ["disable"; "--now"; COLLECTOR_SERVICE];
    _ ← command SYSTEMCTL ["disable"; "--now"; BLACKBOX_SERVICE];
    mret (applied 0 "disabled")
  else if negb (present COLLECTOR_BINARY) then mon_fail ("OpenTelemetry Collector Contrib is not installed at " ++ COLLECTOR_BINARY)
  else if negb (present BLACKBOX_BINARY) then mon_fail ("Prometheus Blackbox Exporter is not installed at " ++ BLACKBOX_BINARY)
  else if negb (present BLACKBOX_CONFIG) then mon_fail ("Prometheus Blackbox Exporter configuration is missing at " ++ BLACKBOX_CONFIG)
  else
    _ ← mon_context "Prometheus Blackbox Exporter configuration is invalid"
          (command_success BLACKBOX_BINARY ["--config.file=/etc/prometheus/blackbox.yml"; "--config.check"]);
    config ← mon_or (collector_config inventory);
    _ ← install_config config;
    _ ← command_success SYSTEMCTL ["daemon-reload"];
    _ ← command_success SYSTEMCTL ["enable"; "--now"; BLACKBOX_SERVICE];
    _ ← command_success SYSTEMCTL ["enable"; COLLECTOR_SERVICE];
    _ ← command_success SYSTEMCTL ["restart"; COLLECTOR_SERVICE];
    mret (applied active_targets "active").
Definition service_is_active (service : string) : Mon bool :=
  o ← command SYSTEMCTL ["is-active"; "--quiet"; service];
  mret (match o with Exited success _ _ _ => success | _ => false end).
Definition collector_status : Mon Json :=
  service_active ← service_is_active COLLECTOR_SERVICE;
  blackbox_active ← service_is_active BLACKBOX_SERVICE;
  mret (JObject [("collector_installed", JBool (present COLLECTOR_BINARY)); ("blackbox_installed", JBool (present BLACKBOX_BINARY));
                 ("blackbox_active", JBool blackbox_active); ("service_active", JBool service_active); ("service", JString COLLECTOR_SERVICE)]).
End commands.

(** ** signoz.rs *)
Definition RULES_PATH : string := "/api/v2/rules".
Definition DOWNTIME_PATH : string := "/api/v1/downtime_schedules".

Section requests.
Context `{JsonText, SigNoz} (env : string → option string) (now : Z).

Definition base_url : string := default DEFAULT_SIGNOZ_URL (env "NEXUS_SIGNOZ_URL").
Definition signoz_request (method : http_method) (path : string) (body : option Json) : Mon Json :=
  api_key ← mon_need (env "NEXUS_SIGNOZ_API_KEY") "NEXUS_SIGNOZ_API_KEY is not configured";
  '(scheme, host, port, base_path) ← mon_need (parse_url base_url) "invalid NEXUS_SIGNOZ_URL";
  if negb (String.eqb scheme "http") then mon_fail "Nexus SigNoz integration currently requires an internal http URL"
  else
    host ← mon_need host "SigNoz URL is missing a host";
    r ← on_signoz (exchange host (default 80%Z port) method (trim_end_char "/" base_path ++ path) api_key body);
    '(success, status, bytes) ← mon_or r;
    if negb success then mon_fail ("SigNoz API returned " ++ status ++ ": " ++ bytes)
    else if is_empty bytes then mret JNull
    else mon_need (json_from_str bytes) "SigNoz API returned invalid JSON".

Definition first_array (keys : list string) (v : Json) : option nat :=
  match omap (λ key, jget key v ≫= as_array) keys with l :: _ => Some (length l) | [] => None end.
Definition count_collection (v : Json) (keys : list string) : option nat :=
  match v with JArray l => Some (length l) | _ => first_array keys v end.
Definition list_rules : Mon Json := signoz_request GET RULES_PATH None.
Definition list_downtimes : Mon Json := signoz_request GET DOWNTIME_PATH None.
Definition create_downtime (payload : Json) : Mon Json := signoz_request POST DOWNTIME_PATH (Some payload).
Definition delete_downtime (id : string) : Mon Json := signoz_request DELETE (DOWNTIME_PATH ++ "/" ++ id) None.

Definition device_scope (device_id : string) : string := "nexus_device_id=" ++ String "034" (device_id ++ String "034" "").
(** [pointer] for a path of keys that are no numbers *)
Fixpoint pointer (path : list string) (v : Json) : option Json :=
  match path with [] => Some v | key :: path' => jget key v ≫= pointer path' end.
(** [as_u64] and [to_string]: a number is kept as its shortest text. *)
Definition as_u64 (v : Json) : option string :=
  match v with
  | JNumber t => match parse_int t with
                 | Some z => if forall_char is_ascii_digit t && (z <? 2 ^ 64)%Z then Some t else None
                 | None => None
                 end
  | _ => None
  end.
Definition id_text (v : Json) : option string := match as_str v with Some s => Some s | None => as_u64 v end.
Definition downtime_pointers : list (list string) := [["id"]; ["data"; "id"]; ["data"; "downtimeSchedule"; "id"]; ["downtimeSchedule"; "id"]].
Definition extract_downtime_id (response : Json) : result string string :=
  match omap (λ path, pointer path response ≫= id_text) downtime_pointers with
  | id :: _ => Ok id
  | [] => Err ("SigNoz did not return a recognizable downtime id: " ++ json_display response)
  end.

(** [epoch_to_rfc3339_utc(..)?] *)
Definition maintenance_payload (device_id device_name start end_ : string) : Json := JObject [
  ("name", JString ("Nexus maintenance: " ++ device_name));
  ("description", JString ("Automatically created by Nexus while device '" ++ device_id ++ "' is in Maintenance."));
  ("schedule", JObject [("timezone", JString "UTC"); ("startTime", JString start); ("endTime", JString end_)]);
  ("alertIds", JArray []);
  ("scope", JString (device_scope device_id))].
Definition create_maintenance_downtime (device_id device_name : string) : Mon string :=
  let end_ := (now + 10 * 365 * 24 * 60 * 60)%Z in
  start_time ← mon_need (epoch_to_rfc3339_utc now) "invalid time";
  end_time ← mon_need (epoch_to_rfc3339_utc end_) "invalid time";
  response ← create_downtime (maintenance_payload device_id device_name start_time end_time);
  mon_or (extract_downtime_id response).

Definition opt_num (o : option nat) : Json := match o with Some n => jnum n | None => JNull end.
Definition signoz_summary : Mon Json :=
  match env "NEXUS_SIGNOZ_API_KEY" with
  | None => mret (JObject [("configured", JBool false); ("connected", JBool false); ("url", JString base_url);
                           ("error", JString "NEXUS_SIGNOZ_API_KEY is not configured")])
  | Some _ =>
      rules ← mon_try list_rules;
      match rules with
      | Ok rules =>
          downtimes ← mon_try list_downtimes;
          mret (JObject [("configured", JBool true); ("connected", JBool true); ("url", JString base_url); ("rules_api", JString RULES_PATH);
            ("rule_count", opt_num (count_collection rules ["data"; "rules"]));
            ("downtime_count", opt_num (match downtimes with Ok v => count_collection v ["data"; "downtime_schedules"; "downtimeSchedules"] | Err _ => None end));
            ("downtime_api_connected", JBool (match downtimes with Ok _ => true | Err _ => false end));
            ("downtime_error", match downtimes with Ok _ => JNull | Err e => JString (error_text e) end)])
      | Err e => mret (JObject [("configured", JBool true); ("connected", JBool false); ("url", JString base_url); ("rules_api", JString RULES_PATH);
                                ("error", JString (error_text e))])
      end
  end.
End requests.

(** ** mod.rs: the handlers *)
Section handlers.
Context `{JsonText, SigNoz} (pid now : Z) (env : string → option string).
Context (answer : list (string * list string) → dir → string → list string → command_outcome) (present : string → bool).

Definition monitoring_view (inventory : Json) : Mon Json :=
  let enabled := length (in_state "enabled" inventory) in
  let maintenance := length (in_state "maintenance" inventory) in
  engine ← collector_status answer present;
  mret (JObject [("inventory", inventory);
                 ("probe_engine", jset "maintenance_targets" (jnum maintenance) (jset "active_targets" (jnum enabled) engine))]).
Definition get_monitoring : Mon Json :=
  inventory ← on_files read_inventory; monitoring_view inventory.
Definition signoz_status : Mon Json := signoz_summary env.
Definition list_signoz_rules : Mon Json := list_rules env.
Definition list_signoz_downtimes : Mon Json := list_downtimes env.

Definition normalize_optional_text (v : option string) : option string :=
  s ← v; if is_empty (trim s) then None else Some (trim s).
Definition parse_alert_ids (v : option string) : list string :=
  List.filter (λ s, negb (is_empty s)) (trim <$> split_char "," (default "" v)).
Definition create_signoz_downtime (name timezone start_time end_time : string) (description scope alert_ids : option string) : Mon Json :=
  let name := trim name in
  let timezone := trim timezone in
  let start_time := trim start_time in
  let end_time := trim end_time in
  if is_empty name || is_empty timezone || is_empty start_time || is_empty end_time then
    mon_fail "name, timezone, start_time and end_time are required"
  else if (160 <? String.length name)%nat || (128 <? String.length timezone)%nat || (64 <? String.length start_time)%nat || (64 <? String.length end_time)%nat then
    mon_fail "planned-maintenance input exceeds the supported length"
  else create_downtime env (JObject [("name", JString name);
    ("description", JString (default "" (normalize_optional_text description)));
    ("schedule", JObject [("timezone", JString timezone); ("startTime", JString start_time); ("endTime", JString end_time)]);
    ("alertIds", JArray (JString <$> parse_alert_ids alert_ids));
    ("scope", JString (default "" (normalize_optional_text scope)))]).
Definition delete_signoz_downtime (id : string) : Mon Json :=
  let id := trim id in
  if is_empty id || (128 <? String.length id)%nat || negb (forall_char (λ c, ascii_alnum c || Ascii.eqb c "-") id) then
    mon_fail "invalid SigNoz planned-maintenance id"
  else delete_downtime env id.

Definition tracked_downtime (inventory : Json) (id : string) : option string :=
  device ← find_device inventory id; str_at "signoz_downtime_id" device.
(** The downtime the device has after the update, and what is reported of it *)
Definition settle_downtime (id name state : string) (existing_downtime_id : option string) : Mon (option string * option Json) :=
  if String.eqb state "maintenance" then
    match existing_downtime_id with
    | Some downtime_id => mret (Some downtime_id, None)
    | None =>
        r ← mon_try (create_maintenance_downtime env now id name);
        mret (match r with
              | Ok created_id => (Some created_id, Some (JObject [("downtime_created", JString created_id)]))
              | Err err => (None, Some (JObject [("downtime_error", JString (error_text err))]))
              end)
    end
  else
    match existing_downtime_id with
    | Some existing_id =>
        r ← mon_try (delete_downtime env existing_id);
        mret (match r with
              | Ok _ => (None, Some (JObject [("downtime_deleted", JString existing_id)]))
              | Err err => (Some existing_id, Some (JObject [("downtime_error", JString (error_text err))]))
              end)
    | None => mret (None, None)
    end.
Definition reconcile_result (inventory : Json) : Mon Json :=
  r ← mon_try (collector_reconcile pid answer present inventory);
  mret (match r with Ok v => v | Err err => JObject [("error", JString (error_text err))] end).
Definition upsert_device (name address kind : string) (site state : option string) : Mon Json :=
  name ← mon_or (normalize_name name);
  address ← mon_or (normalize_address address);
  kind ← mon_or (normalize_simple_label kind "device kind");
  site ← mon_or (normalize_simple_label (default "home" site) "site");
  state ← mon_or (normalize_state (default "enabled" state));
  id ← mon_or (normalize_slug name);
  previous_inventory ← on_files read_inventory;
  '(downtime_id, signoz_maintenance) ← settle_downtime id name state (tracked_downtime previous_inventory id);
  '(id, inventory) ← on_files (store_upsert pid name address kind site state downtime_id);
  reconciled ← reconcile_result inventory;
  view ← monitoring_view inventory;
  mret (JObject [("device_id", JString id); ("inventory", view); ("reconcile", reconciled);
                 ("signoz_maintenance", default JNull signoz_maintenance)]).
Definition delete_device (id : string) : Mon Json :=
  id ← mon_or (normalize_slug id);
  previous_inventory ← on_files read_inventory;
  inventory ← on_files (store_delete pid id);
  _ ← match tracked_downtime previous_inventory id with
      | Some downtime_id => _ ← mon_try (delete_downtime env downtime_id); mret ()
      | None => mret ()
      end;
  reconciled ← reconcile_result inventory;
  view ← monitoring_view inventory;
  mret (JObject [("deleted", JString id); ("inventory", view); ("reconcile", reconciled)]).
Definition reconcile : Mon Json :=
  inventory ← on_files read_inventory; collector_reconcile pid answer present inventory.

(** The router, and requests one after the other.  In the program, updates and deletions of devices exclude each other by
    [DEVICE_LOCK] and write the inventory under a lock of the store; [reconcile] takes no lock, and when it overlaps with
    one of them, both write, validate and rename the same temporary file.  That overlap is not modelled. *)
Inductive monitoring_request :=
| GetMonitoring
| UpsertDevice (name address kind : string) (site state : option string)
| DeleteDevice (id : string)
| Reconcile
| SignozStatus
| CreateSignozDowntime (name timezone start_time end_time : string) (description scope alert_ids : option string)
| DeleteSignozDowntime (id : string)
| ListSignozDowntimes
| ListSignozRules.
Definition handle_monitoring (r : monitoring_request) : Mon Json :=
  match r with
  | GetMonitoring => get_monitoring
  | UpsertDevice name address kind site state => upsert_device name address kind site state
  | DeleteDevice id => delete_device id
  | Reconcile => reconcile
  | SignozStatus => signoz_status
  | CreateSignozDowntime name timezone start_time end_time description scope alert_ids =>
      create_signoz_downtime name timezone start_time end_time description scope alert_ids
  | DeleteSignozDowntime id => delete_signoz_downtime id
  | ListSignozDowntimes => list_signoz_downtimes
  | ListSignozRules => list_signoz_rules
  end.
Definition serve_monitoring (rs : list monitoring_request) (s : site) : site := foldl (λ s r, (handle_monitoring r s).2) s rs.
End handlers.
