(* ===== verification/NexusMonitorFacts.v ===== *)
(** * Device monitoring: lemmas

    The shapes of what is stored, what the operations on the inventory leave, and what the
    handlers do to the files and to SigNoz. *)
From S2P Require Import Prelude RustStr Disk Search AutoInstaller NexusJson NexusDomains NexusDomainFacts NexusMonitoring.

#[local] Open Scope list_scope.

(** ** Characters *)
Lemma forall_char_app p s t : forall_char p (s ++ t)%string = forall_char p s && forall_char p t.
Proof. induction s as [|c s IH]; [done |]. simpl. by rw IH andb_assoc. Qed.
Definition not_upper (c : ascii) : bool := negb (in_range "A" "Z" c).
Lemma lower_not_upper s : forall_char not_upper (to_ascii_lowercase s) = true.
Proof.
  unfold to_ascii_lowercase. rw forall_map_char. induction s as [|c s IH]; [done |]. simpl. rw IH andb_true_r.
  by destruct c as [[] [] [] [] [] [] [] []].
Qed.
Lemma chars_forall p s : forall_char p s = true → Forall (λ c, forall_char p c = true) (chars s).
Proof.
  induction s as [|a s IH]; [constructor |]. destruct s as [|b s]; [by repeat constructor |].
  change (forall_char p (String a (String b s))) with (p a && forall_char p (String b s)). intros [Ha Hs]%andb_true_iff. specialize (IH Hs).
  change (chars (String a (String b s))) with (if is_continuation b then match chars (String b s) with c :: cs => String a c :: cs | [] => [String a ""] end else String a "" :: chars (String b s))%string.
  destruct (is_continuation b); [| constructor; [by rw /= Ha | done]].
  destruct (chars (String b s)) as [|c cs]; [by repeat constructor; rw /= Ha |]. apply Forall_cons in IH as [Hc Hcs].
  constructor; [by rw /= Ha Hc | done].
Qed.

(** ** Device ids *)
Definition lower_alnum (c : ascii) : bool := in_range "a" "z" c || is_ascii_digit c.
Definition is_dash (c : ascii) : bool := Ascii.eqb c "-".
(** Lower case letters and digits, with single dashes between them; [p]: a dash would be the first one or a second one. *)
Fixpoint slug_tail (p : bool) (s : string) : bool :=
  match s with
  | "" => true
  | String c s' => if is_dash c then negb p && slug_tail true s' else lower_alnum c && slug_tail false s'
  end%string.
Fixpoint ends_dash (p : bool) (s : string) : bool := match s with "" => p | String c s' => ends_dash (is_dash c) s' end%string.
Lemma slug_tail_app p s t : slug_tail p (s ++ t)%string = slug_tail p s && slug_tail (ends_dash p s) t.
Proof. revert p. induction s as [|c s IH]; intros p; [done |]. simpl. destruct (is_dash c); by rw IH andb_assoc. Qed.
Lemma ends_dash_app p s t : ends_dash p (s ++ t)%string = ends_dash (ends_dash p s) t.
Proof. revert p. induction s as [|c s IH]; intros p; [done |]. apply IH. Qed.
Record slug_ok (s : string) : Prop := {
  slug_shape : slug_tail true s = true;
  slug_end : ends_dash true s = false;
  slug_length : String.length s ≤ 64;
}.
Lemma slug_chars_shape cs out prev : Forall (λ c, forall_char not_upper c = true) cs → slug_tail true out = true →
  (prev = false → out = ""%string ∨ ends_dash true out = false) → slug_tail true (slug_chars cs out prev) = true.
Proof.
  intros Hcs. revert out prev. induction Hcs as [|ch cs Hch _ IH]; intros out prev Hout Hprev; [done |]. simpl.
  destruct (alnum_char ch) eqn:Halnum.
  - destruct ch as [|a [|]]; try done. simpl in Halnum, Hch. rw andb_true_r in Hch. assert (lower_alnum a = true ∧ is_dash a = false) as [Hlow Hd].
    { revert Halnum Hch. by destruct a as [[] [] [] [] [] [] [] []]. }
    apply IH; [rw slug_tail_app Hout /= Hd Hlow // |]. intros _. right. by rw ends_dash_app.
  - destruct (negb prev && negb (is_empty out)) eqn:Hdash; [| by apply IH]. apply andb_true_iff in Hdash as [Hp%negb_true_iff He%negb_true_iff].
    destruct (Hprev Hp) as [-> | Hend]; [done |]. apply IH; [| done]. by rw slug_tail_app Hout /= Hend.
Qed.
Lemma trim_end_dash s p : slug_tail p s = true →
  slug_tail p (trim_end_char "-" s) = true ∧ (trim_end_char "-" s = ""%string ∨ ends_dash p (trim_end_char "-" s) = false).
Proof.
  revert p. induction s as [|c s IH]; intros p; simpl; [auto |]. unfold is_dash at 1. destruct (Ascii.eqb c "-") eqn:Hc.
  - intros [Hp Hs]%andb_true_iff. destruct (IH true Hs) as [H1 H2]. destruct (trim_end_char "-" s) as [|b t] eqn:Ht; [auto |].
    cbn [slug_tail ends_dash]. unfold is_dash at 1 4. rw Hc Hp. split; [exact H1 |]. right. by destruct H2.
  - intros [Hp Hs]%andb_true_iff. destruct (IH false Hs) as [H1 H2]. destruct (trim_end_char "-" s) as [|b t] eqn:Ht.
    + simpl. unfold is_dash. rw Hc Hp. auto.
    + cbn [slug_tail ends_dash]. unfold is_dash at 1 4. rw Hc Hp. split; [exact H1 |]. right. by destruct H2.
Qed.
Lemma normalize_slug_ok input s : normalize_slug input = Ok s → slug_ok s.
Proof.
  unfold normalize_slug. set (o := slug_chars _ _ _).
  assert (slug_tail true o = true) as Ho by (apply slug_chars_shape; [apply chars_forall, lower_not_upper | done | by left]).
  destruct (trim_end_dash o true Ho) as [H1 H2]. destruct (is_empty _ || _) eqn:E; [done |]. intros [= <-].
  apply orb_false_iff in E as [He Hl%Nat.ltb_ge]. split; [done | | done]. destruct H2 as [Hnil | ?]; [by rw Hnil in He | done].
Qed.
Lemma slug_chars_fixed s p : slug_tail p s = true → ∀ out prev, p = (prev || is_empty out)%bool →
  slug_chars ((λ c, String c "") <$> String.list_ascii_of_string s) out prev = (out ++ s)%string.
Proof.
  revert p. induction s as [|c s IH]; intros p Hs out prev Hp; [by rw string_app_nil_r |]. simpl in Hs |- *.
  assert ((out ++ String c s)%string = ((out ++ String c "") ++ s)%string) as -> by by rw string_app_assoc.
  assert (is_empty (out ++ String c "")%string = false) as Hne by by destruct out. destruct (is_dash c) eqn:Hd.
  - apply andb_true_iff in Hs as [Hnp%negb_true_iff Hs]. apply Ascii.eqb_eq in Hd as ->. rw Hnp in Hp. symmetry in Hp.
    apply orb_false_iff in Hp as [-> ->]. simpl. by apply (IH true).
  - apply andb_true_iff in Hs as [Hl Hs]. assert (ascii_alnum c = true) as -> by (revert Hl; by destruct c as [[] [] [] [] [] [] [] []]).
    apply (IH false); [done |]. by rw Hne.
Qed.
Lemma slug_tail_chars p s : slug_tail p s = true → forall_char (λ c, lower_alnum c || is_dash c) s = true.
Proof.
  revert p. induction s as [|c s IH]; intros p; [done |]. simpl. destruct (is_dash c); intros [H1 Hs]%andb_true_iff.
  - by rw orb_true_r (IH true).
  - by rw H1 (IH false).
Qed.
Lemma ends_dash_last p s : ends_dash p s = false → match last_char s with Some c => is_dash c = false | None => True end.
Proof. revert p. induction s as [|c s IH]; intros p; [done |]. simpl. destruct s; [done |]. apply IH. Qed.
(** An id is its own id: it can be given to the handlers that take one. *)
Lemma slug_fixed s : slug_ok s → normalize_slug s = Ok s.
Proof.
  intros [Hs He Hl]. pose proof (slug_tail_chars _ _ Hs) as Hc. unfold normalize_slug. rw (trim_name s).
  { eapply forall_char_impl; [| exact Hc]. intros c. by destruct c as [[] [] [] [] [] [] [] []]. }
  assert (to_ascii_lowercase s = s) as ->.
  { apply map_char_id. eapply forall_char_impl; [| exact Hc]. intros c. by destruct c as [[] [] [] [] [] [] [] []]. }
  rw chars_ascii; [eapply forall_char_impl; [| exact Hc]; intros c; by destruct c as [[] [] [] [] [] [] [] []] |].
  rw (slug_chars_fixed s true Hs) //= (trim_end_char_id "-" s). { by apply ends_dash_last in He. }
  assert (is_empty s = false) as -> by by destruct s. by rw (proj2 (Nat.ltb_ge 64 _) Hl).
Qed.

(** ** Addresses *)
Definition ip_char (c : ascii) : bool := match digit_of 16 c with Some _ => true | None => Ascii.eqb c "." || Ascii.eqb c ":" end.
(** What the parser takes are characters of addresses. *)
Definition consumes (f : string → option string) : Prop := ∀ s r, f s = Some r → ∃ p, s = (p ++ r)%string ∧ forall_char ip_char p = true.
Lemma consumes_bind (f g : string → option string) : consumes f → consumes g → consumes (λ s, s' ← f s; g s').
Proof.
  intros Hf Hg s r. simpl. destruct (f s) as [s'|] eqn:E; [| done]. simpl. intros Hr. destruct (Hf _ _ E) as (p & -> & Hp).
  destruct (Hg _ _ Hr) as (q & -> & Hq). exists (p ++ q)%string. by rw string_app_assoc forall_char_app Hp Hq.
Qed.
Lemma consumes_skip : consumes Some.
Proof. intros s r [= ->]. by exists ""%string. Qed.
Lemma consumes_char c : ip_char c = true → consumes (read_given_char c).
Proof.
  intros Hc [|a s] r; [done |]. simpl. destruct (Ascii.eqb_spec a c) as [-> |]; [| done]. intros [= <-].
  exists (String c ""). by rw /= Hc.
Qed.
Lemma consumes_separator c i f : ip_char c = true → consumes f → consumes (read_separator c i f).
Proof.
  intros Hc Hf. unfold read_separator. destruct (i =? 0); [apply (consumes_bind Some); [apply consumes_skip | done] |].
  apply (consumes_bind (read_given_char c)); [by apply consumes_char | done].
Qed.
Lemma digit_ip radix c : (radix <= 16)%N → is_Some (digit_of radix c) → ip_char c = true.
Proof.
  intros Hr [d Hd]. unfold ip_char, digit_of in *.
  destruct (if in_range "0" "9" c then _ else _) as [v|]; [| done]. simpl in *. destruct (N.ltb_spec v radix) as [Hlt |]; [| done].
  assert ((v <? 16)%N = true) as -> by (apply N.ltb_lt; lia). done.
Qed.
Lemma consumes_digits radix max v n s w m r : (radix <= 16)%N → read_digits radix max v n s = Some (w, m, r) →
  ∃ p, s = (p ++ r)%string ∧ forall_char ip_char p = true.
Proof.
  intros Hr. revert max v n. induction s as [|c s IH]; intros max v n; simpl; [intros [= ? ? <-]; by exists ""%string |].
  destruct (digit_of radix c) eqn:Hd; [| intros [= ? ? <-]; by exists ""%string]. destruct max; [done |]. intros (p & -> & Hp)%IH.
  exists (String c p). by rw /= (digit_ip radix c Hr) // Hd.
Qed.
Lemma consumes_number radix max bound z : (radix <= 16)%N → consumes (read_number radix max bound z).
Proof.
  intros Hr s r. unfold read_number. destruct (read_digits radix max 0 0 s) as [[[w m] t]|] eqn:E; [| done]. simpl.
  destruct (_ || _); [done |]. intros [= <-]. by eapply consumes_digits.
Qed.
Lemma consumes_ipv4 : consumes read_ipv4_addr.
Proof.
  assert (∀ i, consumes (read_separator "." i read_octet)) as Ho by (intros i; apply consumes_separator; [done | by apply consumes_number]).
  unfold read_ipv4_addr. repeat (apply (consumes_bind (read_separator "." _ read_octet)); [apply Ho |]). apply Ho.
Qed.
Lemma consumes_groups limit fuel i s n b r : read_groups limit fuel i s = (n, b, r) → ∃ p, s = (p ++ r)%string ∧ forall_char ip_char p = true.
Proof.
  revert i s. induction fuel as [|fuel IH]; intros i s; simpl; [intros [= ? ? <-]; by exists ""%string |].
  destruct (if i <? limit - 1 then _ else _) as [s'|] eqn:E4.
  - intros [= ? ? <-]. destruct (i <? limit - 1); [| done]. eapply consumes_separator; [| apply consumes_ipv4 | exact E4]. done.
  - destruct (read_separator ":" i (read_number 16 4 65536 true) s) as [s'|] eqn:E6; [| intros [= ? ? <-]; by exists ""%string].
    assert (consumes (read_separator ":" i (read_number 16 4 65536 true))) as Hc by (apply consumes_separator; [done | by apply consumes_number]).
    destruct (Hc _ _ E6) as (p & -> & Hp). intros (q & -> & Hq)%IH. exists (p ++ q)%string. by rw string_app_assoc forall_char_app Hp Hq.
Qed.
Lemma consumes_ipv6 : consumes read_ipv6_addr.
Proof.
  intros s r. unfold read_ipv6_addr. destruct (read_groups 8 8 0 s) as [[n b] s1] eqn:E. destruct (consumes_groups _ _ _ _ _ _ _ E) as (p & -> & Hp).
  destruct (n =? 8); [intros [= <-]; by exists p |]. destruct b; [done |].
  set (f s := s2 ← read_given_char ":" s; s3 ← read_given_char ":" s2;
    let '(_, _, s4) := read_groups (8 - (n + 1)) (8 - (n + 1)) 0 s3 in Some s4).
  assert (consumes f) as Hf.
  { apply (consumes_bind (read_given_char ":")); [by apply consumes_char |]. apply (consumes_bind (read_given_char ":")); [by apply consumes_char |].
    intros t r'. destruct (read_groups _ _ 0 t) as [[n' b'] t'] eqn:E'. intros [= <-]. by eapply consumes_groups. }
  intros (q & -> & Hq)%(Hf s1 r). exists (p ++ q)%string. by rw string_app_assoc forall_char_app Hp Hq.
Qed.
(** What is stored as an address: no white space, no quote, and not an option of a program *)
Definition address_char (c : ascii) : bool := ascii_alnum c || Ascii.eqb c "." || Ascii.eqb c ":" || is_dash c.
Record address_ok (a : string) : Prop := {
  address_chars : forall_char address_char a = true;
  address_first : char_is (λ c, negb (is_dash c)) (first_char a) = true;
}.
Lemma ip_address_ok a : is_ip_addr a = true → address_ok a.
Proof.
  intros Hip. assert (forall_char ip_char a = true) as Hc.
  { unfold is_ip_addr in Hip. destruct (read_ipv4_addr a) as [r|] eqn:E4.
    - destruct (consumes_ipv4 _ _ E4) as (p & -> & Hp). destruct r; [| done]. by rw string_app_nil_r.
    - destruct (read_ipv6_addr a) as [r|] eqn:E6; [| done]. destruct (consumes_ipv6 _ _ E6) as (p & -> & Hp). destruct r; [| done]. by rw string_app_nil_r. }
  destruct a as [|c a]; [by vm_compute in Hip |].
  split.
  - eapply forall_char_impl; [| exact Hc]. intros b. by destruct b as [[] [] [] [] [] [] [] []].
  - simpl in Hc |- *. apply andb_true_iff in Hc as [Hc _]. revert Hc. by destruct c as [[] [] [] [] [] [] [] []].
Qed.
Lemma split_first c s : match split_char c s with w :: _ => first_char w = match first_char s with Some a => if Ascii.eqb a c then None else Some a | None => None end | [] => False end.
Proof. destruct s as [|a s]; [done |]. simpl. destruct (Ascii.eqb a c); [done |]. by destruct (split_char c s). Qed.
Lemma normalize_address_ok input a : normalize_address input = Ok a → address_ok a.
Proof.
  unfold normalize_address. set (x := to_ascii_lowercase _). destruct (is_ip_addr x) eqn:Hip; [intros [= <-]; by apply ip_address_ok |].
  destruct (is_empty x || _); [done |]. destruct (existsb NexusMonitoring.bad_label (split_char "." x)) eqn:Hb; [done |]. intros [= <-].
  assert (Forall (λ w, NexusDomains.bad_label w = false) (split_char "." x)) as Hg.
  { apply Forall_forall. intros w Hw. apply not_true_is_false. intros Hbad.
    assert (existsb NexusMonitoring.bad_label (split_char "." x) = true) as He; [| congruence].
    apply existsb_exists. exists w. split; [by apply list_elem_of_In | done]. }
  assert (forall_char (λ c, (ascii_alnum c || Ascii.eqb c "-") || Ascii.eqb c ".") x = true) as Hc.
  { apply split_char_all. eapply Forall_impl; [exact Hg |]. by intros w [_ ?]%bad_label_false. }
  split.
  - eapply forall_char_impl; [| exact Hc]. intros b. by destruct b as [[] [] [] [] [] [] [] []].
  - pose proof (split_first "." x) as Hf. destruct (split_char "." x) as [|w l]; [done |]. apply Forall_cons in Hg as [[Hw _]%bad_label_false _].
    pose proof (lo_first _ Hw) as Ha. rw Hf in Ha. destruct (first_char x) as [c|]; [| done]. simpl in *. destruct (Ascii.eqb c "."); [done |].
    revert Ha. simpl. by destruct c as [[] [] [] [] [] [] [] []].
Qed.
Lemma normalize_label_ok input field s : normalize_simple_label input field = Ok s →
  s ≠ ""%string ∧ String.length s ≤ 64 ∧ forall_char label_char s = true.
Proof.
  unfold normalize_simple_label. destruct (is_empty _ || _) eqn:E; [done |]. destruct (negb _) eqn:E2; [done |]. intros [= <-].
  apply orb_false_iff in E as [He Hl%Nat.ltb_ge]. apply negb_false_iff in E2. split; [| done]. intros Hn. by rw Hn in He.
Qed.
Lemma normalize_state_ok input s : normalize_state input = Ok s → s ∈ ["enabled"; "maintenance"; "disabled"]%string.
Proof. unfold normalize_state. repeat (destruct (String.eqb _ _); [intros [= <-]; set_solver |]). done. Qed.
Lemma normalize_name_ok input s : normalize_name input = Ok s → s ≠ ""%string ∧ String.length s ≤ 80 ∧ has_control s = false.
Proof.
  unfold normalize_name. destruct (is_empty _ || _) eqn:E; [done |]. destruct (has_control _) eqn:E2; [done |]. intros [= <-].
  apply orb_false_iff in E as [He Hl%Nat.ltb_ge]. split; [| done]. intros Hn. by rw Hn in He.
Qed.

(** ** The inventory *)
Record fields_ok (id name address kind site state : string) : Prop := {
  fo_id : normalize_slug name = Ok id;
  fo_name : name ≠ ""%string ∧ String.length name ≤ 80 ∧ has_control name = false;
  fo_address : address_ok address;
  fo_kind : kind ≠ ""%string ∧ String.length kind ≤ 64 ∧ forall_char label_char kind = true;
  fo_site : site ≠ ""%string ∧ String.length site ≤ 64 ∧ forall_char label_char site = true;
  fo_state : state ∈ ["enabled"; "maintenance"; "disabled"]%string;
}.
Definition device_ok (d : Json) : Prop :=
  ∃ id name address kind site state downtime, d = entry_of id name address kind site state downtime ∧ fields_ok id name address kind site state.
Definition device_ids (l : list Json) : list string := omap (str_at "id") l.
Record devices_ok (l : list Json) : Prop := {
  do_devices : Forall device_ok l;
  do_ids : NoDup (device_ids l);
  do_sorted : StronglySorted (cmp_le by_name) l;
}.
Definition monitoring_wf (inv : Json) : Prop := ∃ l, devices_of inv = Some l ∧ devices_ok l.

Lemma entry_fields id name address kind site state downtime : let e := entry_of id name address kind site state downtime in
  str_at "id" e = Some id ∧ str_at "name" e = Some name ∧ str_at "address" e = Some address ∧ str_at "kind" e = Some kind ∧
  str_at "site" e = Some site ∧ str_at "state" e = Some state ∧ str_at "signoz_downtime_id" e = downtime.
Proof. by destruct downtime. Qed.
Global Instance by_name_order : CmpOrder by_name.
Proof. apply (cmp_pullback (λ d, default ""%string (str_at "name" d)) String.compare). apply _. Qed.
Lemma has_id_true id d : has_id id d = true ↔ str_at "id" d = Some id.
Proof. apply bool_decide_eq_true. Qed.

Lemma devices_object inv l : devices_of inv = Some l → ∃ m, inv = JObject m.
Proof. unfold devices_of. by destruct inv; [.. | eauto]. Qed.
Lemma devices_set inv l l' : devices_of inv = Some l → devices_of (jset "devices" (JArray l') inv) = Some l'.
Proof. intros [m ->]%devices_object. unfold devices_of. by rw jget_jset; [eauto |]. Qed.
Lemma devices_keys inv l l' k : devices_of inv = Some l → k ≠ "devices"%string → jget k (jset "devices" (JArray l') inv) = jget k inv.
Proof. intros [m ->]%devices_object Hk. rw jget_jset; [eauto |]. destruct (String.eqb_spec "devices" k); [congruence | done]. Qed.

(** With distinct ids a device is found by its id, wherever it is. *)
Lemma find_id l id d : NoDup (device_ids l) → (find (has_id id) l = Some d ↔ d ∈ l ∧ str_at "id" d = Some id).
Proof.
  intros Hnd. split.
  - intros [Hin Hid]%find_some. split; [by apply list_elem_of_In | by apply has_id_true].
  - intros [Hin Hid]. induction l as [|x l IH]; [by apply not_elem_of_nil in Hin |]. simpl. destruct (has_id id x) eqn:Hx.
    + apply has_id_true in Hx. apply elem_of_cons in Hin as [-> | Hin]; [done |]. unfold device_ids in Hnd. simpl in Hnd. rw Hx in Hnd.
      apply NoDup_cons in Hnd as [Hn _]. destruct Hn. apply list_elem_of_omap. by exists d.
    + apply elem_of_cons in Hin as [-> | Hin]; [by apply has_id_true in Hid; congruence |]. apply IH; [| done].
      unfold device_ids in Hnd. simpl in Hnd. destruct (str_at "id" x); [by apply NoDup_cons in Hnd as [_ ?] | done].
Qed.
Lemma find_id_none l id : find (has_id id) l = None ↔ id ∉ device_ids l.
Proof.
  split.
  - intros Hf (d & Hd & Hid)%list_elem_of_omap. apply list_elem_of_In in Hd. pose proof (find_none _ _ Hf d Hd) as Hn.
    apply has_id_true in Hid. congruence.
  - intros Hn. destruct (find (has_id id) l) as [d|] eqn:E; [| done]. apply find_some in E as [Hin Hid%has_id_true].
    destruct Hn. apply list_elem_of_omap. exists d. split; [by apply list_elem_of_In | done].
Qed.
Lemma find_perm l l' id : NoDup (device_ids l) → l ≡ₚ l' → find (has_id id) l' = find (has_id id) l.
Proof.
  intros Hnd Hp. assert (device_ids l ≡ₚ device_ids l') as Hids by (by apply omap_Permutation).
  assert (NoDup (device_ids l')) as Hnd' by by rw -Hids. apply option_eq. intros d. rw !find_id //. by rw Hp.
Qed.

(** What an update leaves of the inventory *)
Definition only_device (id : string) (inv inv' : Json) : Prop :=
  (∀ other, other ≠ id → find_device inv' other = find_device inv other) ∧
  (∀ k, k ≠ "devices"%string → jget k inv' = jget k inv).
Lemma replace_first_ids id x l : str_at "id" x = Some id → device_ids (replace_first (has_id id) x l) = device_ids l.
Proof.
  intros Hx. unfold device_ids. induction l as [|y l IH]; [done |]. simpl. destruct (has_id id y) eqn:Hy; simpl.
  - apply has_id_true in Hy. by rw Hx Hy.
  - destruct (str_at "id" y); [f_equal |]; exact IH.
Qed.
Lemma replace_first_elem id x l y : y ∈ replace_first (has_id id) x l → y = x ∨ y ∈ l.
Proof.
  induction l as [|z l IH]; simpl; [auto |]. destruct (has_id id z); intros [-> | Hy]%elem_of_cons; [by left | | |].
  - right. by right.
  - right. by left.
  - destruct (IH Hy); [by left | right; by right].
Qed.
Lemma replace_first_find id x l other : str_at "id" x = Some id →
  find (has_id other) (replace_first (has_id id) x l) =
  if decide (other = id) then (_ ← find (has_id id) l; Some x) else find (has_id other) l.
Proof.
  intros Hx%has_id_true. assert (∀ z a b, has_id a z = true → has_id b z = true → a = b) as Hu.
  { intros z a b Ha%has_id_true Hb%has_id_true. congruence. }
  induction l as [|y l IH]; simpl; [by case_decide |]. destruct (has_id id y) eqn:Hy; simpl.
  - case_decide as Ho; [subst; by rw Hx |]. destruct (has_id other x) eqn:H1; [by destruct (Ho (Hu _ _ _ H1 Hx)) |].
    destruct (has_id other y) eqn:H2; [by destruct (Ho (Hu _ _ _ H2 Hy)) | done].
  - rw IH. destruct (has_id other y) eqn:Ho; [| done]. case_decide; [congruence | done].
Qed.
Lemma existsb_id id l : existsb (has_id id) l = match find (has_id id) l with Some _ => true | None => false end.
Proof. apply existsb_find. Qed.

Lemma put_device_spec inv id entry inv' : monitoring_wf inv → device_ok entry → str_at "id" entry = Some id →
  put_device id entry inv = Some inv' →
  monitoring_wf inv' ∧ find_device inv' id = Some entry ∧ only_device id inv inv'.
Proof.
  intros (l & Hl & Hok) Hentry Hid. unfold put_device. rw Hl /=. rw existsb_id. set (l1 := if match find _ l with Some _ => true | None => false end then _ else _).
  intros [= <-].
  assert (Forall device_ok l1 ∧ NoDup (device_ids l1) ∧
    (∀ other, find (has_id other) l1 = if decide (other = id) then Some entry else find (has_id other) l)) as (H1 & H2 & H3).
  { unfold l1. destruct (find (has_id id) l) as [d|] eqn:Hf.
    - split_and!.
      + apply Forall_forall. intros y [-> | Hy]%replace_first_elem; [done |]. by apply (proj1 (Forall_forall _ _) (do_devices _ Hok)).
      + rw replace_first_ids //. apply Hok.
      + intros other. rw replace_first_find // Hf. done.
    - split_and!.
      + apply Forall_app. split; [apply Hok | by constructor].
      + unfold device_ids. rw omap_app /= Hid. apply NoDup_app. split_and!; [apply Hok | | apply NoDup_singleton].
        intros x Hx ->%list_elem_of_singleton. by apply find_id_none in Hf.
      + intros other. rw find_app_json /=. case_decide as Ho.
        * subst. rw Hf. apply has_id_true in Hid. by rw Hid.
        * destruct (find (has_id other) l); [done |]. destruct (has_id other entry) eqn:Hn; [| done]. apply has_id_true in Hn. congruence. }
  pose proof (sort_by_perm by_name l1) as Hp. split_and!.
  - exists (sort_by by_name l1). rw (devices_set _ l) //. split; [done |]. split.
    + by rw Hp.
    + unfold device_ids. by rw Hp.
    + apply sort_by_sorted, _.
  - unfold find_device. rw (devices_set _ l) //=. rw (find_perm l1) // H3 decide_True //.
  - split; [| by intros; apply (devices_keys _ l)]. intros other Ho. unfold find_device. rw (devices_set _ l) // Hl /=.
    rw (find_perm l1) // H3. by destruct (decide (other = id)).
Qed.
Lemma filter_sublist {A} (p : A → bool) l : List.filter p l `sublist_of` l.
Proof. induction l as [|x l IH]; simpl; [constructor |]. by destruct (p x); constructor. Qed.
Lemma ids_sublist l k : l `sublist_of` k → device_ids l `sublist_of` device_ids k.
Proof. unfold device_ids. induction 1 as [| x l k _ IH | x l k _ IH]; simpl; [constructor | |]; destruct (str_at "id" x); by try constructor. Qed.
Lemma remove_device_spec inv id inv' b : monitoring_wf inv → remove_device id inv = Some (inv', b) →
  monitoring_wf inv' ∧ find_device inv' id = None ∧ only_device id inv inv'.
Proof.
  intros (l & Hl & Hok). unfold remove_device. rw Hl /=. set (kept := List.filter _ l). intros [= <- _].
  pose proof (filter_sublist (λ device, negb (has_id id device)) l) as Hsub. fold kept in Hsub.
  assert (NoDup (device_ids kept)) as Hnd.
  { eapply sublist_NoDup; [apply (do_ids _ Hok) | by apply ids_sublist]. }
  assert (∀ d, d ∈ kept ↔ d ∈ l ∧ str_at "id" d ≠ Some id) as Hkept.
  { intros d. unfold kept. rw !list_elem_of_In filter_In negb_true_iff. by rw -has_id_true not_true_iff_false. }
  split_and!.
  - exists kept. rw (devices_set _ l) //. split; [done |]. split; [| done |].
    + apply Forall_forall. intros d [Hd _]%Hkept. by apply (proj1 (Forall_forall _ _) (do_devices _ Hok)).
    + eapply StronglySorted_sublist; [exact Hsub | apply Hok].
  - unfold find_device. rw (devices_set _ l) //=. apply find_id_none. intros (d & [_ Hd]%Hkept & Hid)%list_elem_of_omap. done.
  - split; [| by intros; apply (devices_keys _ l)]. intros other Ho. unfold find_device. rw (devices_set _ l) // Hl /=.
    apply option_eq. intros d. rw !find_id //; [apply Hok |]. rw Hkept. split; [tauto |]. intros [? Hid]. split; [| done]. split; [done |]. congruence.
Qed.

(** ** The inventory file *)
Section store.
Context `{JsonText, !JsonTextLaws} (pid : Z).

Definition monitoring_on : dir → option Json := json_on NexusMonitoring.INVENTORY_FILENAME NexusMonitoring.default_inventory.
Lemma store_upsert_triple d0 name address kind site state downtime :
  triple (λ d, d = d0) (store_upsert pid name address kind site state downtime)
    (λ p d, ∃ inv, normalize_slug name = Ok p.1 ∧ monitoring_on d0 = Some inv ∧
       put_device p.1 (entry_of p.1 name address kind site state downtime) inv = Some p.2 ∧ monitoring_on d = Some p.2)
    (λ d, monitoring_on d = monitoring_on d0).
Proof.
  eapply triple_read_bind; [apply reader_or_fail | done |]. intros id Hid. cbn beta in Hid.
  eapply triple_read_bind; [apply reader_json | done |]. intros inv Hinv.
  eapply triple_read_bind; [apply reader_need | done |]. intros inv' Hm. cbn beta in Hm.
  eapply triple_bind; [apply (write_json_triple pid d0) |]. intros u. apply triple_ret. intros d Hd. by exists inv.
Qed.
Lemma store_delete_triple d0 id :
  triple (λ d, d = d0) (store_delete pid id)
    (λ inv' d, ∃ inv, monitoring_on d0 = Some inv ∧ remove_device id inv = Some (inv', false) ∧ monitoring_on d = Some inv')
    (λ d, monitoring_on d = monitoring_on d0).
Proof.
  eapply triple_read_bind; [apply reader_json | done |]. intros inv Hinv.
  eapply triple_read_bind; [apply reader_need | done |]. intros [inv' missing] Hm. cbn beta in Hm.
  destruct missing; [apply triple_fail; by intros ? -> |].
  eapply triple_bind; [apply (write_json_triple pid d0) |]. intros u. apply triple_ret. intros d Hd. by exists inv.
Qed.
Definition inventory_files : list string := [NexusMonitoring.INVENTORY_FILENAME; temporary_of pid NexusMonitoring.INVENTORY_FILENAME].
Lemma only_store_upsert name address kind site state downtime :
  only inventory_files (store_upsert pid name address kind site state downtime).
Proof.
  apply only_bind; [eapply only_reader, reader_or_fail | intros id]. apply only_bind; [eapply only_reader, reader_json | intros inv].
  apply only_bind; [eapply only_reader, reader_need | intros inv']. apply only_bind; [apply only_write_json | intros u; apply only_ret].
Qed.
Lemma only_store_delete id : only inventory_files (store_delete pid id).
Proof.
  apply only_bind; [eapply only_reader, reader_json | intros inv]. apply only_bind; [eapply only_reader, reader_need | intros [inv' missing]].
  destruct missing; [apply only_fail |]. apply only_bind; [apply only_write_json | intros u; apply only_ret].
Qed.
End store.

(** ** The effects of the handlers *)
Section effects.
Context `{SigNoz}.
Definition mkeeps {A} (I : site → Prop) (m : Mon A) : Prop := ∀ s, I s → I (m s).2.
(** A property of the files *)
Definition on_disk (J : dir → Prop) (s : site) : Prop := J (disk (files s)).

Lemma mkeeps_ret {A} I (a : A) : mkeeps I (mret a).
Proof. by intros s. Qed.
Lemma mkeeps_bind {A B} I (m : Mon A) (f : A → Mon B) : mkeeps I m → (∀ a, mkeeps I (f a)) → mkeeps I (m ≫= f).
Proof.
  intros Hm Hf s Hs. specialize (Hm s Hs). unfold mbind, Mon_bind. destruct (m s) as [[a | e] s']; simpl in *; [by apply Hf | done].
Qed.
Lemma mkeeps_try {A} I (m : Mon A) : mkeeps I m → mkeeps I (mon_try m).
Proof. intros Hm s Hs. specialize (Hm s Hs). unfold mon_try. by destruct (m s). Qed.
Lemma mkeeps_context {A} I msg (m : Mon A) : mkeeps I m → mkeeps I (mon_context msg m).
Proof. intros Hm s Hs. specialize (Hm s Hs). unfold mon_context. by destruct (m s). Qed.
(** The value of a call on the files that only reads *)
Lemma mkeeps_read_bind {A B} I (m : IO A) R (f : A → Mon B) : (∀ s w, disk w = disk (files s) → I s → I (Site w (signoz s) (started s))) →
  reader m R → (∀ d a, R d a → mkeeps I (f a)) → mkeeps I (on_files m ≫= f).
Proof.
  intros HI Hm Hf s Hs. destruct (Hm (files s)) as [Hd Hr]. unfold mbind, Mon_bind, on_files.
  destruct (m (files s)) as [[a | e] w]; simpl in *; [apply (Hf _ _ (Hr a eq_refl)) |]; by apply HI.
Qed.

(** [triple] for what the handlers do to the files *)
Definition mtriple {A} (P : dir → Prop) (m : Mon A) (Q : A → dir → Prop) (E : dir → Prop) : Prop :=
  ∀ s, P (disk (files s)) → match m s with (Ok a, s') => Q a (disk (files s')) | (Err _, s') => E (disk (files s')) end.
Lemma mtriple_bind {A B} P (m : Mon A) (f : A → Mon B) R Q E :
  mtriple P m R E → (∀ a, mtriple (R a) (f a) Q E) → mtriple P (m ≫= f) Q E.
Proof.
  intros Hm Hf s Hs. specialize (Hm s Hs). unfold mbind, Mon_bind. destruct (m s) as [[a | e] s']; [by apply Hf | done].
Qed.
Lemma mtriple_conseq {A} P P' (m : Mon A) (Q Q' : A → dir → Prop) E E' :
  mtriple P' m Q' E' → (∀ d, P d → P' d) → (∀ a d, Q' a d → Q a d) → (∀ d, E' d → E d) → mtriple P m Q E.
Proof. intros Hm HP HQ HE s Hs. specialize (Hm s (HP _ Hs)). destruct (m s) as [[a | e] s']; auto. Qed.
Lemma mtriple_pre {A} P (m : Mon A) Q E : (∀ d, P d → mtriple (λ d', d' = d) m Q E) → mtriple P m Q E.
Proof. intros Hm s Hs. by apply (Hm _ Hs). Qed.
Lemma mtriple_try {A} P (m : Mon A) (Q : result error A → dir → Prop) E :
  mtriple P m (λ a, Q (Ok a)) (λ d, ∀ e, Q (Err e) d) → mtriple P (mon_try m) Q E.
Proof. intros Hm s Hs. specialize (Hm s Hs). unfold mon_try. by destruct (m s) as [[a | e] s']. Qed.
Lemma mtriple_files {A} P (m : IO A) Q E : triple P m Q E → mtriple P (on_files m) Q E.
Proof. intros Hm s Hs. specialize (Hm (files s) Hs). unfold on_files. by destruct (m (files s)) as [[a | e] w]. Qed.
Lemma mkeeps_mtriple {A} J (m : Mon A) : mtriple J m (λ _, J) J ↔ mkeeps (on_disk J) m.
Proof. split; intros Hm s Hs; specialize (Hm s Hs); by destruct (m s) as [[a | e] s']. Qed.

Section disk.
Context (J : dir → Prop).
Lemma on_disk_same s w : disk w = disk (files s) → on_disk J s → on_disk J (Site w (signoz s) (started s)).
Proof. unfold on_disk. simpl. by intros ->. Qed.
Lemma mkeeps_files {A} (m : IO A) : keeps J m → mkeeps (on_disk J) (on_files m).
Proof. intros Hm s Hs. specialize (Hm (files s) Hs). unfold on_files. by destruct (m (files s)). Qed.
Lemma mkeeps_signoz {A} (f : service → result string A * service) : mkeeps (on_disk J) (on_signoz f).
Proof. intros s Hs. unfold on_signoz. by destruct (f (signoz s)). Qed.
Lemma mkeeps_command answer program args : mkeeps (on_disk J) (command answer program args).
Proof. by intros s. Qed.
End disk.
End effects.
#[export] Hint Resolve mkeeps_ret mkeeps_try mkeeps_context mkeeps_signoz mkeeps_command : nexus.

Section handlers.
Context `{JsonText, !JsonTextLaws, SigNoz} (pid now : Z) (env : string → option string).
Context (answer : list (string * list string) → dir → string → list string → command_outcome) (present : string → bool).

Section reads.
Context (J : dir → Prop).
Lemma mkeeps_reader {A} (m : IO A) R : reader m R → mkeeps (on_disk J) (on_files m).
Proof. intros Hm. apply mkeeps_files. by eapply keeps_reader. Qed.
Lemma mkeeps_fail {A} msg : mkeeps (on_disk J) (mon_fail (A := A) msg).
Proof. by apply (mkeeps_reader _ (λ _ _, True)), reader_fail. Qed.
Lemma mkeeps_or {A} (r : result string A) : mkeeps (on_disk J) (mon_or r).
Proof. eapply mkeeps_reader, reader_or_fail. Qed.
Lemma mkeeps_need {A} (o : option A) msg : mkeeps (on_disk J) (mon_need o msg).
Proof. eapply mkeeps_reader, reader_need. Qed.
Hint Resolve mkeeps_fail mkeeps_or mkeeps_need : nexus.
(** Calls that leave the files alone *)
Ltac keep_files := repeat first
  [ progress eauto with nexus
  | apply mkeeps_bind; [| intros ?]
  | apply mkeeps_try
  | match goal with |- mkeeps _ (match ?x with _ => _ end) => destruct x end ].
Lemma mkeeps_success program args : mkeeps (on_disk J) (command_success answer program args).
Proof. unfold command_success. keep_files. Qed.
Lemma mkeeps_view inventory : mkeeps (on_disk J) (monitoring_view answer present inventory).
Proof. unfold monitoring_view, collector_status, service_is_active. keep_files. Qed.
Lemma mkeeps_request method path body : mkeeps (on_disk J) (signoz_request env method path body).
Proof. unfold signoz_request. keep_files. Qed.
Hint Resolve mkeeps_request : nexus.
Lemma mkeeps_settle id name state existing : mkeeps (on_disk J) (settle_downtime now env id name state existing).
Proof.
  unfold settle_downtime, create_maintenance_downtime, delete_downtime, create_downtime. keep_files.
Qed.
Lemma mkeeps_signoz_status : mkeeps (on_disk J) (signoz_summary env).
Proof. unfold signoz_summary, list_rules, list_downtimes. keep_files. Qed.
Lemma mkeeps_create_downtime name timezone start_time end_time description scope alert_ids :
  mkeeps (on_disk J) (create_signoz_downtime env name timezone start_time end_time description scope alert_ids).
Proof. unfold create_signoz_downtime, create_downtime. keep_files. Qed.
Lemma mkeeps_delete_downtime id : mkeeps (on_disk J) (delete_signoz_downtime env id).
Proof. unfold delete_signoz_downtime, delete_downtime. keep_files. Qed.
End reads.

(** ** What the handlers do to the files *)
Definition config_files : list string := [COLLECTOR_CONFIG_FILENAME; temporary_config pid].
Lemma config_other n : n ∈ inventory_files pid → n ∉ config_files.
Proof. intros Hn Hc. unfold inventory_files, config_files in *. rw !elem_of_cons elem_of_nil in Hn Hc. destruct_or! Hn; destruct_or! Hc; by subst. Qed.
Lemma only_fs_write S n f : n ∈ S → only S (fs_write n f).
Proof. intros Hn. apply only_bind; [by apply only_replace | intros _; by apply only_replace]. Qed.
Lemma only_rename S n n' : n ∈ S → n' ∈ S → only S (fs_rename n n').
Proof.
  intros Hn Hn' w k Hk. unfold fs_rename, syscall, get_disk, put_disk, enoent, fail, mbind, IO_bind. simpl. destruct (faults w (tick w)); simpl; [done |].
  destruct (disk w !! n); simpl; [| done]. rw lookup_insert_ne; [by intros -> |]. apply lookup_delete_ne. by intros ->.
Qed.
Lemma only_remove S n : n ∈ S → only S (fs_remove n).
Proof.
  intros Hn w k Hk. unfold fs_remove, syscall, get_disk, put_disk, enoent, fail, mbind, IO_bind. simpl. destruct (faults w (tick w)); simpl; [done |].
  destruct (disk w !! n); simpl; [| done]. apply lookup_delete_ne. by intros ->.
Qed.
Section inventory.
(** A property of the inventory file *)
Context (J : dir → Prop) (HJ : ∀ d d', (∀ n, n ∉ config_files → d' !! n = d !! n) → J d → J d').
Lemma mkeeps_config {A} (m : IO A) : only config_files m → mkeeps (on_disk J) (on_files m).
Proof. intros Hm. apply mkeeps_files. by eapply keeps_only. Qed.
Lemma mkeeps_install config : mkeeps (on_disk J) (install_config pid answer config).
Proof.
  unfold install_config.
  apply mkeeps_bind; [apply mkeeps_config, only_context, only_fs_write; right; by left | intros _].
  apply mkeeps_bind; [apply mkeeps_try, mkeeps_success | intros [[] | e]].
  - apply mkeeps_config, only_context, only_rename; [right; by left | by left].
  - apply mkeeps_bind; [apply mkeeps_try, mkeeps_config, only_remove; right; by left | intros _]. eapply mkeeps_reader. apply reader_fail with (R := λ _ _, True).
Qed.
End inventory.
(** A property that the installation of a configuration keeps *)
Section handled.
Context (J : dir → Prop).
Context (Hinstall : ∀ inv config, collector_config inv = Ok config → mkeeps (on_disk J) (install_config pid answer config)).
Lemma mkeeps_reconcile inventory : mkeeps (on_disk J) (collector_reconcile pid answer present inventory).
Proof.
  unfold collector_reconcile. destruct (_ =? 0); [eauto using mkeeps_bind with nexus |].
  do 3 (destruct (negb _); [apply mkeeps_fail |]). apply mkeeps_bind; [apply mkeeps_context, mkeeps_success | intros _].
  eapply mkeeps_read_bind; [intros s w; apply on_disk_same | apply reader_or_fail | intros d config Hconfig].
  apply mkeeps_bind; [exact (Hinstall _ _ Hconfig) | intros _].
  do 4 (apply mkeeps_bind; [apply mkeeps_success | intros _]). apply mkeeps_ret.
Qed.
Lemma mkeeps_reconciled inventory : mkeeps (on_disk J) (reconcile_result pid answer present inventory).
Proof. apply mkeeps_bind; [apply mkeeps_try, mkeeps_reconcile | intros r; apply mkeeps_ret]. Qed.
Lemma mkeeps_upsert name address kind site state :
  (∀ id name address kind site state downtime, fields_ok id name address kind site state → keeps J (store_upsert pid name address kind site state downtime)) →
  mkeeps (on_disk J) (upsert_device pid now env answer present name address kind site state).
Proof.
  intros Hstore. pose proof (on_disk_same J) as Hsame. unfold upsert_device, mon_or.
  eapply mkeeps_read_bind; [by intros; apply Hsame | apply reader_or_fail | intros d1 name' Hname].
  eapply mkeeps_read_bind; [by intros; apply Hsame | apply reader_or_fail | intros d2 address' Haddress].
  eapply mkeeps_read_bind; [by intros; apply Hsame | apply reader_or_fail | intros d3 kind' Hkind].
  eapply mkeeps_read_bind; [by intros; apply Hsame | apply reader_or_fail | intros d4 site' Hsite].
  eapply mkeeps_read_bind; [by intros; apply Hsame | apply reader_or_fail | intros d5 state' Hstate].
  eapply mkeeps_read_bind; [by intros; apply Hsame | apply reader_or_fail | intros d6 id Hid]. cbn beta in *.
  assert (fields_ok id name' address' kind' site' state') as Hok.
  { split; [done | by eapply normalize_name_ok | by eapply normalize_address_ok | by eapply normalize_label_ok | by eapply normalize_label_ok | by eapply normalize_state_ok]. }
  eapply mkeeps_read_bind; [by intros; apply Hsame | apply reader_json | intros d7 previous _].
  apply mkeeps_bind; [apply mkeeps_settle | intros [downtime report]].
  apply mkeeps_bind; [apply mkeeps_files; by eapply Hstore | intros [id' inventory]].
  apply mkeeps_bind; [apply mkeeps_reconciled | intros r]. apply mkeeps_bind; [apply mkeeps_view | intros v; apply mkeeps_ret].
Qed.
Lemma mkeeps_delete id : (∀ id, keeps J (store_delete pid id)) → mkeeps (on_disk J) (delete_device pid env answer present id).
Proof.
  intros Hstore. unfold delete_device. apply mkeeps_bind; [apply mkeeps_or | intros id']. apply mkeeps_bind; [eapply mkeeps_reader, reader_json | intros previous].
  apply mkeeps_bind; [by apply mkeeps_files | intros inventory]. apply mkeeps_bind; [| intros _].
  { destruct (tracked_downtime previous id'); [| apply mkeeps_ret]. apply mkeeps_bind; [apply mkeeps_try, mkeeps_request | intros r; apply mkeeps_ret]. }
  apply mkeeps_bind; [apply mkeeps_reconciled | intros r]. apply mkeeps_bind; [apply mkeeps_view | intros v; apply mkeeps_ret].
Qed.
Lemma mkeeps_handler r :
  (∀ id name address kind site state downtime, fields_ok id name address kind site state → keeps J (store_upsert pid name address kind site state downtime)) →
  (∀ id, keeps J (store_delete pid id)) → mkeeps (on_disk J) (handle_monitoring pid now env answer present r).
Proof.
  intros Hup Hdel. destruct r; simpl.
  - apply mkeeps_bind; [eapply mkeeps_reader, reader_json | intros inventory; apply mkeeps_view].
  - by apply mkeeps_upsert.
  - by apply mkeeps_delete.
  - apply mkeeps_bind; [eapply mkeeps_reader, reader_json | intros inventory; apply mkeeps_reconcile].
  - apply mkeeps_signoz_status.
  - apply mkeeps_create_downtime.
  - apply mkeeps_delete_downtime.
  - apply mkeeps_request.
  - apply mkeeps_request.
Qed.
End handled.

(** The inventory is well formed, and differs from [inv0] in its devices only. *)
Definition inventory_inv (inv0 : Json) (d : dir) : Prop :=
  ∃ inv, monitoring_on d = Some inv ∧ monitoring_wf inv ∧ ∀ k, k ≠ "devices"%string → jget k inv = jget k inv0.
Lemma inventory_inv_files inv0 d d' : (∀ n, n ∉ config_files → d' !! n = d !! n) → inventory_inv inv0 d → inventory_inv inv0 d'.
Proof.
  intros Hd (inv & Hinv & ?). exists inv. split; [| done]. rw -Hinv. unfold monitoring_on, json_on. rw Hd //. apply config_other. by left.
Qed.
Lemma inventory_inv_upsert inv0 id name address kind site state downtime : fields_ok id name address kind site state →
  keeps (inventory_inv inv0) (store_upsert pid name address kind site state downtime).
Proof.
  intros Hok. apply keeps_triple, triple_pre. intros d (inv & Hinv & Hwf & Hkeys).
  eapply triple_conseq; [apply (store_upsert_triple pid d) | done | |].
  - intros [id' inv'] d' (inv1 & Hid & Hinv1 & Hput & Hd'). cbn [fst snd] in *. assert (id' = id) as -> by (pose proof (fo_id _ _ _ _ _ _ Hok); congruence).
    assert (inv1 = inv) as -> by congruence.
    destruct (put_device_spec inv id (entry_of id name address kind site state downtime) inv' Hwf) as (Hw & _ & _ & Hk2); [by exists id, name, address, kind, site, state, downtime | apply entry_fields | done |].
    exists inv'. split; [done |]. split; [done |]. intros k Hk. rw Hk2 //. by apply Hkeys.
  - intros d' Hd'. exists inv. by rw Hd'.
Qed.
Lemma inventory_inv_delete inv0 id : keeps (inventory_inv inv0) (store_delete pid id).
Proof.
  apply keeps_triple, triple_pre. intros d (inv & Hinv & Hwf & Hkeys).
  eapply triple_conseq; [apply (store_delete_triple pid d) | done | |].
  - intros inv' d' (inv1 & Hinv1 & Hrem & Hd'). assert (inv1 = inv) as -> by congruence.
    destruct (remove_device_spec _ _ _ _ Hwf Hrem) as (Hw & _ & _ & Hk2). exists inv'. split; [done |]. split; [done |]. intros k Hk. rw Hk2 //. by apply Hkeys.
  - intros d' Hd'. exists inv. by rw Hd'.
Qed.
Lemma inventory_inv_handler inv0 r : mkeeps (on_disk (inventory_inv inv0)) (handle_monitoring pid now env answer present r).
Proof.
  apply mkeeps_handler; [intros; apply mkeeps_install, inventory_inv_files | intros; by eapply inventory_inv_upsert | apply inventory_inv_delete].
Qed.

(** The collector has accepted the text of [config]. *)
Definition accepted (config : string) : Prop :=
  ∃ history d code out err, d !! temporary_config pid = Some (text_file config) ∧
    answer history d COLLECTOR_BINARY ["validate"; "--config=" ++ temporary_config pid]%string = Exited true code out err.
(** The configuration in place is [c0], or an accepted one that was made from an inventory. *)
Definition config_inv (c0 : option file) (d : dir) : Prop :=
  d !! COLLECTOR_CONFIG_FILENAME = c0 ∨ ∃ inv config, collector_config inv = Ok config ∧ accepted config ∧
    d !! COLLECTOR_CONFIG_FILENAME = Some (text_file config).
Lemma config_inv_same c0 d d' : d' !! COLLECTOR_CONFIG_FILENAME = d !! COLLECTOR_CONFIG_FILENAME → config_inv c0 d → config_inv c0 d'.
Proof. unfold config_inv. by intros ->. Qed.
Lemma config_inv_store c0 {A} (m : IO A) : only (inventory_files pid) m → keeps (config_inv c0) m.
Proof.
  intros Hm. eapply keeps_only; [exact Hm |]. intros d d' Hd. apply config_inv_same, Hd. intros Hn. apply config_other in Hn. apply Hn. by left.
Qed.
Lemma config_temporary : temporary_config pid ≠ COLLECTOR_CONFIG_FILENAME.
Proof. intros Hn. by apply (temporary_other pid COLLECTOR_CONFIG_FILENAME). Qed.
Lemma fs_write_triple d0 n f : triple (λ d, d = d0) (fs_write n f) (λ _ d, d !! n = Some f ∧ ∀ k, k ≠ n → d !! k = d0 !! k) (λ d, ∀ k, k ≠ n → d !! k = d0 !! k).
Proof.
  eapply (triple_bind _ _ _ (λ _ d, ∀ k, k ≠ n → d !! k = d0 !! k)); [apply triple_replace; intros ? -> | intros u; apply triple_replace]; [done | | done |].
  - intros k Hk. by rw lookup_insert_ne.
  - intros d Hd. rw lookup_insert_eq. split; [done |]. intros k Hk. rw lookup_insert_ne //. by apply Hd.
Qed.
Lemma validated_triple config (P : dir → Prop) : (∀ d, P d → d !! temporary_config pid = Some (text_file config)) →
  mtriple P (command_success answer COLLECTOR_BINARY ["validate"; "--config=" ++ temporary_config pid]%string)
    (λ _ d, accepted config ∧ P d) P.
Proof.
  intros HP s Hs. unfold command_success, command, mbind, Mon_bind. simpl.
  destruct (answer _ _ _ _) as [| | [] code out err] eqn:Ha; try exact Hs. split; [| exact Hs].
  exists (started s), (disk (files s)), code, out, err. split; [by apply HP | exact Ha].
Qed.
Lemma config_inv_install c0 inv config : collector_config inv = Ok config →
  mkeeps (on_disk (config_inv c0)) (install_config pid answer config).
Proof.
  intros Hconfig. apply mkeeps_mtriple, mtriple_pre. intros d0 Hd0. pose proof config_temporary as Hne. unfold install_config.
  set (tmp := temporary_config pid) in *. set (P d := config_inv c0 d ∧ d !! tmp = Some (text_file config)).
  eapply (mtriple_bind _ _ _ (λ _, P)).
  { apply mtriple_files, triple_context. eapply triple_conseq; [apply (fs_write_triple d0) | done | |].
    - intros u d [Htmp Hd]. split; [| done]. eapply config_inv_same; [by apply Hd | done].
    - intros d Hd. eapply config_inv_same; [by apply Hd | done]. }
  intros _. eapply (mtriple_bind _ _ _ (λ r d, (r = Ok () → accepted config) ∧ P d)).
  { apply mtriple_try. intros s Hs. pose proof (validated_triple config P (λ d, @proj2 _ _) s Hs) as Hv. fold tmp in Hv.
    by destruct (command_success _ _ _ s) as [[[] | e] s']; [destruct Hv as [? ?]; split |]. }
  intros [[] | e].
  - apply mtriple_files, triple_context, triple_prim; [by intros d [_ [? _]] |]. intros d [Hacc [_ Htmp]]. rw Htmp.
    apply triple_put_disk. intros ? ->. right. exists inv, config. rw lookup_insert_eq. auto.
  - eapply (mtriple_bind _ _ _ (λ _, config_inv c0)).
    + apply mtriple_try. eapply mtriple_conseq; [apply mkeeps_mtriple, mkeeps_files with (J := config_inv c0) | by intros d [_ [? _]] | done | done].
      eapply keeps_only; [apply (only_remove [tmp]); by left |]. intros d d' Hd. apply config_inv_same, Hd. by intros ?%list_elem_of_singleton.
    + intros r. apply mtriple_files. by apply triple_fail.
Qed.
Lemma config_inv_handler c0 r : mkeeps (on_disk (config_inv c0)) (handle_monitoring pid now env answer present r).
Proof.
  apply mkeeps_handler; [apply config_inv_install | intros; apply config_inv_store, only_store_upsert | intros; apply config_inv_store, only_store_delete].
Qed.
Lemma serve_keeps I rs : (∀ r, mkeeps I (handle_monitoring pid now env answer present r)) → ∀ s, I s → I (serve_monitoring pid now env answer present rs s).
Proof. intros Hr. induction rs as [|r rs IH]; intros s Hs; [done |]. apply IH. by apply Hr. Qed.

(** ** What the handlers do to SigNoz *)
Definition on_service (K : service → Prop) (s : site) : Prop := K (signoz s).
Section service.
Context (K : service → Prop).
Lemma skeeps_files {A} (m : IO A) : mkeeps (on_service K) (on_files m).
Proof. intros s Hs. unfold on_files. by destruct (m (files s)). Qed.
Lemma skeeps_command program args : mkeeps (on_service K) (command answer program args).
Proof. by intros s. Qed.
Hint Resolve skeeps_files skeeps_command : nexus.
Ltac keep_service := repeat first
  [ progress eauto with nexus
  | apply skeeps_files
  | apply mkeeps_bind; [| intros ?]
  | apply mkeeps_context
  | apply mkeeps_try
  | match goal with |- mkeeps _ (match ?x with _ => _ end) => destruct x end ].
Lemma skeeps_view inventory : mkeeps (on_service K) (monitoring_view answer present inventory).
Proof. unfold monitoring_view, collector_status, service_is_active. keep_service. Qed.
Lemma skeeps_reconciled inventory : mkeeps (on_service K) (reconcile_result pid answer present inventory).
Proof. unfold reconcile_result, collector_reconcile, install_config, command_success. keep_service. Qed.
End service.

Lemma mon_run_bind {A B} (m : Mon A) (f : A → Mon B) s b s' :
  (m ≫= f) s = (Ok b, s') → ∃ a s1, m s = (Ok a, s1) ∧ f a s1 = (Ok b, s').
Proof. unfold mbind, Mon_bind. destruct (m s) as [[a | e] s1]; [eauto | done]. Qed.
Lemma files_run {A} (m : IO A) s a s' : on_files m s = (Ok a, s') → m (files s) = (Ok a, files s') ∧ signoz s' = signoz s.
Proof. unfold on_files. destruct (m (files s)) as [r w]. by intros [= -> <-]. Qed.
Lemma read_run {A} (m : IO A) R s a s' : reader m R → on_files m s = (Ok a, s') →
  disk (files s') = disk (files s) ∧ signoz s' = signoz s ∧ R (disk (files s)) a.
Proof.
  intros Hm [Hrun Hx]%files_run. destruct (reader_run _ _ _ _ _ Hm Hrun) as [Hd Hr]. split; [done |]. split; [done |]. by apply Hr.
Qed.
Lemma or_run {A} (r : result string A) s a s' : mon_or r s = (Ok a, s') → r = Ok a ∧ disk (files s') = disk (files s) ∧ signoz s' = signoz s.
Proof. intros Hr. by destruct (read_run _ _ _ _ _ (reader_or_fail r) Hr) as (? & ? & ?). Qed.
Lemma mkeeps_run {A} I (m : Mon A) s r s' : mkeeps I m → m s = (r, s') → I s → I s'.
Proof. intros Hm Hrun Hs. specialize (Hm s Hs). by rw Hrun in Hm. Qed.

Lemma normalized_device name0 name address0 address kind0 kind site0 site state0 state id downtime :
  normalize_name name0 = Ok name → normalize_address address0 = Ok address → normalize_simple_label kind0 "device kind" = Ok kind →
  normalize_simple_label site0 "site" = Ok site → normalize_state state0 = Ok state → normalize_slug name = Ok id →
  device_ok (entry_of id name address kind site state downtime).
Proof.
  intros Hname Haddress Hkind Hsite Hstate Hid. exists id, name, address, kind, site, state, downtime. split; [done |].
  split; [done | by eapply normalize_name_ok | by eapply normalize_address_ok | by eapply normalize_label_ok | by eapply normalize_label_ok | by eapply normalize_state_ok].
Qed.
(** Neither the reconciliation nor the view changes the inventory or SigNoz. *)
Lemma reconciled_run inv s r s1 v s2 : reconcile_result pid answer present inv s = (r, s1) → monitoring_view answer present inv s1 = (v, s2) →
  monitoring_on (disk (files s)) = Some inv → monitoring_on (disk (files s2)) = Some inv ∧ signoz s2 = signoz s.
Proof.
  intros Hrec Hview Hon. set (J d := monitoring_on d = Some inv).
  assert (∀ d d', (∀ n, n ∉ config_files → d' !! n = d !! n) → J d → J d') as HJ.
  { intros d d' Hdd. unfold J, monitoring_on, json_on. rw Hdd //. apply config_other. by left. }
  split.
  - apply (mkeeps_run _ _ _ _ _ (mkeeps_view J inv) Hview).
    by apply (mkeeps_run _ _ _ _ _ (mkeeps_reconciled J (λ _ config _, mkeeps_install J HJ config) inv) Hrec).
  - apply (mkeeps_run _ _ _ _ _ (skeeps_view (λ x, x = signoz s) inv) Hview).
    by apply (mkeeps_run _ _ _ _ _ (skeeps_reconciled (λ x, x = signoz s) inv) Hrec).
Qed.
End handlers.
