(* ===== verification/NexusMonitorProps.v ===== *)
(** * Properties of device monitoring

    What SigNoz promises, a reader of the collector configuration, the properties of the
    handlers, and a concrete service for the witnesses. *)
From S2P Require Import Prelude RustStr Disk Search Examples AutoInstaller AutoInstallProps NexusJson NexusDomains NexusDomainFacts NexusDomainProps NexusMonitoring NexusMonitorFacts.

#[local] Open Scope string_scope.

(** The body of an answer with a status of success *)
Definition answered (r : result string (bool * string * string)) : option string := match r with Ok (true, _, bytes) => Some bytes | _ => None end.
Definition scope_of (payload : Json) : option string := str_at "scope" payload.

(** What Nexus relies on: the downtime schedules of SigNoz by id, with their scopes, are created with a new id that is
    returned, and deleted by their id.  A request that is not answered with success has changed nothing, or its answer was
    lost after the service acted.  It is served under a path. *)
Class SigNozLaws `{JsonText, SigNoz} := {
  schedules : service → gmap string string;
  service_path : string;
  post_law host port key payload scope x : scope_of payload = Some scope →
    let '(r, x') := exchange host port POST (service_path ++ DOWNTIME_PATH) key (Some payload) x in
    match answered r with
    | Some bytes => ∃ v id, json_from_str bytes = Some v ∧ bytes ≠ "" ∧ extract_downtime_id v = Ok id ∧
                            schedules x !! id = None ∧ schedules x' = <[id := scope]> (schedules x)
    | None => schedules x' = schedules x ∨ ∃ id, schedules x !! id = None ∧ schedules x' = <[id := scope]> (schedules x)
    end;
  delete_law host port key id x :
    let '(r, x') := exchange host port DELETE (service_path ++ DOWNTIME_PATH ++ "/" ++ id) key None x in
    match answered r with
    | Some bytes => (bytes = "" ∨ is_Some (json_from_str bytes)) ∧ schedules x' = delete id (schedules x)
    | None => schedules x' = schedules x ∨ schedules x' = delete id (schedules x)
    end;
}.

Section requests.
Context `{JsonText, !JsonTextLaws, SigNoz} (pid now : Z) (env : string → option string).
Context (answer : list (string * list string) → dir → string → list string → command_outcome) (present : string → bool).

(** A request is not sent, or its answer decides. *)
Lemma request_cases method path body s r s' : signoz_request env method path body s = (r, s') →
  (signoz s' = signoz s ∧ ∃ e, r = Err e) ∨
  ∃ scheme host port base key, parse_url (base_url env) = Some (scheme, Some host, port, base) ∧
    let '(a, x) := exchange host (default 80%Z port) method (trim_end_char "/" base ++ path) key body (signoz s) in signoz s' = x ∧
    match answered a with
    | Some bytes => if is_empty bytes then r = Ok JNull else match json_from_str bytes with Some v => r = Ok v | None => ∃ e, r = Err e end
    | None => ∃ e, r = Err e
    end.
Proof.
  unfold signoz_request. destruct (env "NEXUS_SIGNOZ_API_KEY") as [key|]; [| intros [= <- <-]; left; eauto].
  destruct (parse_url (base_url env)) as [[[[scheme host] port] base]|] eqn:Hurl; [| intros [= <- <-]; left; eauto].
  unfold mbind, Mon_bind, mon_need, on_files, need, mret, IO_ret. simpl. destruct (negb (String.eqb scheme "http")); [intros [= <- <-]; left; eauto |].
  destruct host as [host|]; [| intros [= <- <-]; left; eauto]. unfold on_signoz. simpl.
  destruct (exchange host (default 80%Z port) method (trim_end_char "/" base ++ path) key body (signoz s)) as [a x] eqn:Ha.
  intros Hr. right. exists scheme, host, port, base, key. split; [done |]. rw Ha. revert Hr.
  destruct a as [[[[] status] bytes] | e]; unfold mon_or, or_fail, on_files; simpl; [| intros [= <- <-]; eauto..].
  destruct (is_empty bytes); [intros [= <- <-]; done |]. destruct (json_from_str bytes); intros [= <- <-]; eauto.
Qed.

Context `{!SigNozLaws}.
(** The configured URL is that of the service. *)
Context (served : ∀ scheme host port base, parse_url (base_url env) = Some (scheme, host, port, base) → trim_end_char "/" base = service_path).
Abbreviation S s := (schedules (signoz s)).

Lemma need_some {A B} (a : A) msg (f : A → Mon B) s : (mon_need (Some a) msg ≫= f) s = f a s.
Proof. by destruct s. Qed.
Lemma create_spec id name s sid s' : create_maintenance_downtime env now id name s = (Ok sid, s') →
  S s !! sid = None ∧ S s' = <[sid := device_scope id]> (S s).
Proof.
  unfold create_maintenance_downtime. destruct (epoch_to_rfc3339_utc now) as [start|]; [| done].
  destruct (epoch_to_rfc3339_utc _) as [end_|]; [| done].
  rw !need_some. set (payload := maintenance_payload id name start end_).
  unfold mbind, Mon_bind. destruct (create_downtime env payload s) as [r1 s1] eqn:Hreq.
  apply request_cases in Hreq as [[Hs [e ->]] | (scheme & host & port & base & key & Hurl & Hreq)]; [done |].
  rw (served _ _ _ _ Hurl) in Hreq. pose proof (post_law host (default 80%Z port) key payload (device_scope id) (signoz s) eq_refl) as Hlaw.
  destruct (exchange _ _ _ _ _ _ _) as [a x]. destruct Hreq as [Hs1 Ha]. destruct (answered a) as [bytes|]; [| by destruct Ha as [e ->]].
  destruct Hlaw as (v & sid' & Hj & Hb & Hid & Hnew & Hx). assert (is_empty bytes = false) as He by by destruct bytes. rw He Hj in Ha. subst r1.
  unfold mon_or, on_files. rw Hid. simpl. intros [= <- <-]. simpl. by rw Hs1.
Qed.
Lemma delete_spec id s v s' : delete_downtime env id s = (Ok v, s') → S s' = delete id (S s).
Proof.
  intros [[Hs [e [=]]] | (scheme & host & port & base & key & Hurl & Hreq)]%request_cases.
  rw (served _ _ _ _ Hurl) in Hreq. pose proof (delete_law host (default 80%Z port) key id (signoz s)) as Hlaw.
  destruct (exchange _ _ _ _ _ _ _) as [a x]. destruct Hreq as [-> Ha]. destruct (answered a) as [bytes|]; [| by destruct Ha as [e [=]]].
  by destruct Hlaw as [_ Hx].
Qed.
Definition failed_report (report : option Json) : bool := match report ≫= str_at "downtime_error" with Some _ => true | None => false end.
Lemma settle_spec id name state existing s downtime report s' :
  settle_downtime now env id name state existing s = (Ok (downtime, report), s') → failed_report report = false →
  if String.eqb state "maintenance" then
    match existing with
    | Some _ => downtime = existing ∧ S s' = S s
    | None => ∃ sid, downtime = Some sid ∧ S s !! sid = None ∧ S s' = <[sid := device_scope id]> (S s)
    end
  else downtime = None ∧ match existing with Some sid => S s' = delete sid (S s) | None => S s' = S s end.
Proof.
  unfold settle_downtime. destruct (String.eqb state "maintenance"); destruct existing as [sid|].
  - by intros [= <- <- <-].
  - unfold mon_try, mbind, Mon_bind. destruct (create_maintenance_downtime _ _ _ _ _) as [[sid | e] s1] eqn:Hc; intros [= <- <- <-]; [| done].
    intros _. apply create_spec in Hc. by exists sid.
  - unfold mon_try, mbind, Mon_bind. destruct (delete_downtime _ _ _) as [[v | e] s1] eqn:Hc; intros [= <- <- <-]; [| done].
    intros _. by apply delete_spec in Hc.
  - by intros [= <- <- <-].
Qed.
Lemma scope_inj id id' : device_scope id = device_scope id' → id = id'.
Proof.
  unfold device_scope. intros Heq. simpl in Heq. repeat (injection Heq as Heq). 
  assert (∀ a b, (a ++ String "034" "")%string = (b ++ String "034" "")%string → a = b) as Hinj; [| by apply Hinj].
  intros a b Hab. apply (f_equal (strip_suffix (String "034" ""))) in Hab. rw !strip_suffix_app in Hab. congruence.
Qed.

(** The schedules that silence devices are those the inventory tracks: none is forgotten, and none was removed behind the
    back of Nexus. *)
Definition downtimes_in_sync (schedules : gmap string string) (inv : Json) : Prop :=
  ∀ sid id, schedules !! sid = Some (device_scope id) ↔ tracked_downtime inv id = Some sid.
Definition reports_failure (v : Json) : bool := failed_report (jget "signoz_maintenance" v).


(** What a successful update has done *)
Lemma upsert_run name address kind site_ state s v s' inv :
  monitoring_on (disk (files s)) = Some inv → monitoring_wf inv →
  upsert_device pid now env answer present name address kind site_ state s = (Ok v, s') →
  ∃ id name' state' downtime report s1 s2 inv',
    str_at "device_id" v = Some id ∧ jget "signoz_maintenance" v = Some (default JNull report) ∧
    normalize_state (default "enabled" state) = Ok state' ∧
    settle_downtime now env id name' state' (tracked_downtime inv id) s1 = (Ok (downtime, report), s2) ∧
    signoz s1 = signoz s ∧ signoz s' = signoz s2 ∧
    monitoring_on (disk (files s')) = Some inv' ∧ monitoring_wf inv' ∧ tracked_downtime inv' id = downtime ∧ only_device id inv inv'.
Proof.
  intros Hinv Hwf Hrun. unfold upsert_device in Hrun.
  apply mon_run_bind in Hrun as (name' & s1 & (Hname & Hd1 & Hx1)%or_run & Hrun). apply mon_run_bind in Hrun as (address' & s2 & (Haddress & Hd2 & Hx2)%or_run & Hrun).
  apply mon_run_bind in Hrun as (kind' & s3 & (Hkind & Hd3 & Hx3)%or_run & Hrun). apply mon_run_bind in Hrun as (site' & s4 & (Hsite & Hd4 & Hx4)%or_run & Hrun).
  apply mon_run_bind in Hrun as (state' & s5 & (Hstate & Hd5 & Hx5)%or_run & Hrun). apply mon_run_bind in Hrun as (id & s6 & (Hid & Hd6 & Hx6)%or_run & Hrun).
  apply mon_run_bind in Hrun as (previous & s7 & Hread & Hrun).
  destruct (read_run _ _ _ _ _ (reader_json NexusMonitoring.INVENTORY_FILENAME NexusMonitoring.default_inventory _) Hread) as (Hd7 & Hx7 & Hprev).
  assert (disk (files s7) = disk (files s)) as Hd by congruence. assert (signoz s7 = signoz s) as Hx by congruence.
  assert (previous = inv) as -> by (unfold monitoring_on in Hinv; rw Hd6 Hd5 Hd4 Hd3 Hd2 Hd1 in Hprev; congruence).
  clear Hprev Hread Hd1 Hd2 Hd3 Hd4 Hd5 Hd6 Hd7 Hx1 Hx2 Hx3 Hx4 Hx5 Hx6 Hx7 s1 s2 s3 s4 s5 s6.
  apply mon_run_bind in Hrun as ([downtime report] & s8 & Hsettle & Hrun).
  pose proof (mkeeps_run _ _ _ _ _ (mkeeps_settle now env (λ d, d = disk (files s)) id name' state' (tracked_downtime inv id)) Hsettle Hd) as Hd8.
  apply mon_run_bind in Hrun as ([id' inv'] & s9 & [Hstore Hx9]%files_run & Hrun).
  pose proof (store_upsert_triple pid (disk (files s)) name' address' kind' site' state' downtime (files s8) Hd8) as Hup. rw Hstore in Hup.
  destruct Hup as (inv1 & Hid' & Hinv1 & Hput & Hon). cbn [fst snd] in *. assert (id' = id) as -> by congruence. assert (inv1 = inv) as -> by congruence.
  destruct (put_device_spec inv id (entry_of id name' address' kind' site' state' downtime) inv' Hwf) as (Hwf' & Hfind & Hothers);
    [by eapply normalized_device | apply entry_fields | exact Hput |].
  apply mon_run_bind in Hrun as (reconciled & s10 & Hrec & Hrun). apply mon_run_bind in Hrun as (view & s11 & Hview & Hret). injection Hret as <- <-.
  destruct (reconciled_run pid answer present inv' s9 _ _ _ _ Hrec Hview) as [Hon' Hx11]; [exact Hon |].
  exists id, name', state', downtime, report, s7, s8, inv'. split_and!; try done; [congruence |]. unfold tracked_downtime. rw Hfind. apply entry_fields.
Qed.
(** What the schedules are after the downtime was settled *)
Lemma settled_in_sync (S1 S2 : gmap string string) inv inv' id state downtime :
  downtimes_in_sync S1 inv → only_device id inv inv' → tracked_downtime inv' id = downtime →
  (if String.eqb state "maintenance" then
     match tracked_downtime inv id with
     | Some _ => downtime = tracked_downtime inv id ∧ S2 = S1
     | None => ∃ sid, downtime = Some sid ∧ S1 !! sid = None ∧ S2 = <[sid := device_scope id]> S1
     end
   else downtime = None ∧ match tracked_downtime inv id with Some sid => S2 = delete sid S1 | None => S2 = S1 end) →
  downtimes_in_sync S2 inv' ∧ (is_Some downtime ↔ state = "maintenance").
Proof.
  intros Ht [Hother _] Hdown Hcases. assert (∀ other, other ≠ id → tracked_downtime inv' other = tracked_downtime inv other) as Ho.
  { intros other Hne. unfold tracked_downtime. by rw Hother. }
  assert ((∀ sid, S2 !! sid = Some (device_scope id) ↔ downtime = Some sid) ∧
    (∀ sid other, other ≠ id → S2 !! sid = Some (device_scope other) ↔ S1 !! sid = Some (device_scope other)) ∧
    (is_Some downtime ↔ state = "maintenance")) as (Hid & Hrest & Hm).
  { destruct (String.eqb_spec state "maintenance") as [-> | Hst].
    - destruct (tracked_downtime inv id) as [sid|] eqn:Hs.
      + destruct Hcases as [-> ->]. split_and!; [intros sid'; by rw Ht Hs | done | by split; [| intros _; eexists]].
      + destruct Hcases as (sid & -> & Hnew & ->). split_and!.
        * intros sid'. destruct (decide (sid' = sid)) as [-> | Hne]; [by rw lookup_insert_eq |].
          rw lookup_insert_ne // Ht Hs. split; [done | congruence].
        * intros sid' other Hne. destruct (decide (sid' = sid)) as [-> | Hns]; [| by rw lookup_insert_ne].
          rw lookup_insert_eq Hnew. split; [by intros <-%(inj Some)%scope_inj | done].
        * by split; [| intros _; eexists].
    - destruct Hcases as [-> Hcases]. destruct (tracked_downtime inv id) as [sid|] eqn:Hs; subst S2.
      + split_and!; [| | by split; [intros [] |]].
        * intros sid'. split; [| done]. intros [Hne Hl]%lookup_delete_Some. apply Ht in Hl. congruence.
        * intros sid' other Hne. rw lookup_delete_Some. split; [by intros [] |]. intros Hl. split; [| done]. intros <-.
          apply Ht in Hs. rw Hs in Hl. by apply (inj Some), scope_inj in Hl as <-.
      + split_and!; [intros sid'; by rw Ht Hs | done | by split; [intros [] |]]. }
  split; [| exact Hm]. intros sid other. destruct (decide (other = id)) as [-> | Hne]; [by rw Hid Hdown |].
  rw Hrest // Ho //.
Qed.

(** C24: As long as the schedules at SigNoz that silence devices are those the inventory tracks, an update of a device that
    succeeds and reports no failure keeps it so, and the device is then silenced by a schedule if and only if it is in
    maintenance.  SigNoz is taken at its word: what it answers with success it has done; an answer may be lost.  Not covered
    are updates that fail or report a failure ([failed_update_leaks_downtime]) and schedules that were deleted otherwise
    ([stale_downtime_not_renewed]). *)
Theorem upsert_settles_downtime name address kind site_ state s v s' inv :
  monitoring_on (disk (files s)) = Some inv → monitoring_wf inv → downtimes_in_sync (S s) inv →
  upsert_device pid now env answer present name address kind site_ state s = (Ok v, s') → reports_failure v = false →
  ∃ id inv', str_at "device_id" v = Some id ∧ monitoring_on (disk (files s')) = Some inv' ∧ monitoring_wf inv' ∧
    downtimes_in_sync (S s') inv' ∧
    ((∃ sid, S s' !! sid = Some (device_scope id)) ↔ normalize_state (default "enabled" state) = Ok "maintenance").
Proof.
  intros Hinv Hwf Hsync Hrun Hok.
  destruct (upsert_run _ _ _ _ _ _ _ _ _ Hinv Hwf Hrun) as (id & name' & state' & downtime & report & s1 & s2 & inv' & Hdev & Hrep & Hst & Hset & Hx1 & Hx2 & Hon & Hwf' & Hdown & Honly).
  apply settle_spec in Hset; [| unfold reports_failure in Hok; rw Hrep in Hok; by destruct report].
  rw Hx1 in Hset. rw Hx2. exists id, inv'. do 3 (split; [done |]).
  destruct (settled_in_sync _ _ inv inv' id state' downtime Hsync Honly Hdown Hset) as [Hs' Hm]. split; [exact Hs' |].
  rw Hst. split.
  - intros [sid Hl%Hs']. f_equal. apply Hm. by exists sid; rw -Hdown.
  - intros [= ->]. destruct (proj2 Hm eq_refl) as [sid Hsid]. exists sid. apply Hs'. by rw Hdown.
Qed.

(** C23: Whatever requests are served one after the other (the code makes the changes of the inventory under a lock), whatever I/O fails and whatever SigNoz and the programs answer, the inventory stays
    readable: its devices have valid fields and distinct ids, each the id of its name and accepted by the requests that
    take an id, they are sorted by name, and nothing but the list of devices changes. *)
Theorem monitoring_inventory_sound rs s inv : monitoring_on (disk (files s)) = Some inv → monitoring_wf inv →
  ∃ inv', monitoring_on (disk (files (serve_monitoring pid now env answer present rs s))) = Some inv' ∧ monitoring_wf inv' ∧
    (∀ id d, find_device inv' id = Some d → normalize_slug id = Ok id) ∧ (∀ k, k ≠ "devices" → jget k inv' = jget k inv).
Proof.
  intros Hinv Hwf. assert (on_disk (inventory_inv inv) s) as Hs by by exists inv.
  destruct (serve_keeps pid now env answer present _ rs (inventory_inv_handler pid now env answer present inv) s Hs) as (inv' & Hon & Hwf' & Hk).
  exists inv'. split_and!; try done. intros id d. destruct Hwf' as (l & Hl & Hok). unfold find_device. rw Hl /=.
  intros [Hin Hd]%find_id; [| apply Hok]. apply (proj1 (Forall_forall _ _) (do_devices _ Hok)) in Hin as (id' & name & address & kind & site & state & dt & -> & Hf).
  destruct (entry_fields id' name address kind site state dt) as [He _]. assert (id' = id) as -> by (cbv zeta in He; congruence).
  eapply slug_fixed, normalize_slug_ok, (fo_id _ _ _ _ _ _ Hf).
Qed.

(** As long as requests are served one after the other, the configuration of the collector only ever changes to one that was
    made from an inventory and that the collector itself has accepted, whatever fails.  The code does not ensure that:
    [reconcile] takes no lock and shares the temporary file with the updates of devices. *)
Theorem collector_config_validated rs s :
  let config_of s := disk (files s) !! COLLECTOR_CONFIG_FILENAME in
  let s' := serve_monitoring pid now env answer present rs s in
  config_of s' = config_of s ∨
  ∃ inv config, collector_config inv = Ok config ∧ accepted pid answer config ∧ config_of s' = Some (text_file config).
Proof.
  cbv zeta. assert (on_disk (config_inv pid answer (disk (files s) !! COLLECTOR_CONFIG_FILENAME)) s) as Hs by by left.
  exact (serve_keeps pid now env answer present _ rs (config_inv_handler pid now env answer present _) s Hs).
Qed.
End requests.

(** ** Reading the collector configuration

    A reader of the lines the program writes: it finds the list of targets and reads each of them line by line, with the
    quoting of YAML for the values. *)

(** A single-quoted scalar of YAML, after its opening quote, and what follows it *)
Fixpoint read_quoted (s : string) : option (string * string) :=
  match s with
  | "" => None
  | String c s' =>
      if Ascii.eqb c "'" then
        match s' with
        | String b s'' => if Ascii.eqb b "'" then '(v, rest) ← read_quoted s''; Some (String "'" v, rest) else Some ("", s')
        | "" => Some ("", "")
        end
      else '(v, rest) ← read_quoted s'; Some (String c v, rest)
  end.
(** The value of a line that is [prefix], a quoted scalar and [suffix] *)
Definition read_field (prefix suffix line : string) : option string :=
  s ← strip_prefix (prefix ++ "'") line; '(v, rest) ← read_quoted s; if String.eqb rest suffix then Some v else None.
Record target := Target { target_address : string; target_id : string; target_name : string; target_kind : string; target_site : string }.
Definition read_target (t l i n k s p : string) : option target :=
  address ← read_field "            - targets: [" "]" t;
  _ ← (if String.eqb l "              labels:" then Some () else None);
  id ← read_field "                nexus_device_id: " "" i; name ← read_field "                nexus_device_name: " "" n;
  kind ← read_field "                nexus_resource_type: " "" k; site ← read_field "                nexus_site: " "" s;
  _ ← (if String.eqb p "                nexus_monitoring_profile: 'icmp'" then Some () else None);
  Some (Target address id name kind site).
Fixpoint read_targets (ls : list string) : list target :=
  match ls with
  | t :: l :: i :: n :: k :: s :: p :: ls' => match read_target t l i n k s p with Some x => x :: read_targets ls' | None => [] end
  | _ => []
  end.
Fixpoint after_line (line : string) (ls : list string) : list string :=
  match ls with [] => [] | l :: ls' => if String.eqb l line then ls' else after_line line ls' end.
Definition read_config (text : string) : list target :=
  read_targets (after_line "          static_configs:" (split_char "010" text)).

Definition is_line (s : string) : bool := forall_char (λ c, negb (Ascii.eqb c "010")) s.
Lemma read_quoted_quote v rest : char_is (λ c, negb (Ascii.eqb c "'")) (first_char rest) || is_empty rest = true →
  read_quoted (replace_char "'" "''" v ++ "'" ++ rest) = Some (v, rest).
Proof.
  intros Hrest. induction v as [|c v IH]; simpl.
  - destruct rest as [|b rest]; [done |]. simpl in Hrest. destruct (Ascii.eqb b "'"); [done | done].
  - destruct (Ascii.eqb_spec c "'") as [-> | Hne]; simpl in *; [by rw IH |]. destruct (Ascii.eqb_spec c "'") as [? |]; [done |]. by rw IH.
Qed.
Lemma read_field_quote prefix suffix v : char_is (λ c, negb (Ascii.eqb c "'")) (first_char suffix) || is_empty suffix = true →
  read_field prefix suffix (prefix ++ yaml_quote v ++ suffix) = Some v.
Proof.
  intros Hs. unfold read_field, yaml_quote.
  assert ((prefix ++ ("'" ++ replace_char "'" "''" v ++ "'") ++ suffix)%string = ((prefix ++ "'") ++ replace_char "'" "''" v ++ "'" ++ suffix)%string) as -> by by rw !string_app_assoc.
  rw strip_prefix_app /= (read_quoted_quote v suffix Hs) /= String.eqb_refl //.
Qed.
Lemma read_field_end prefix v : read_field prefix "" (prefix ++ yaml_quote v) = Some v.
Proof. rw -{1}(string_app_nil_r (yaml_quote v)). by apply read_field_quote. Qed.

Lemma split_line l text : is_line l = true → split_char "010" (l ++ NEWLINE ++ text) = l :: split_char "010" text.
Proof.
  intros Hl. induction l as [|c l IH]; [done |]. simpl in Hl. apply andb_true_iff in Hl as [Hc%negb_true_iff Hl]. simpl. rw Hc. simpl in IH. by rw IH.
Qed.
Lemma split_unlines ls : Forall (λ l, is_line l = true) ls → split_char "010" (unlines ls) = (ls ++ [""])%list.
Proof.
  induction 1 as [|l ls Hl _ IH]; [done |].
  assert (unlines (l :: ls) = l ++ NEWLINE ++ unlines ls) as ->.
  { unfold unlines, join. simpl. destruct ls as [|l' ls]; simpl; [done |]. by rw string_app_assoc. }
  rw split_line // IH. done.
Qed.

(** The text is UTF-8: what is no ASCII character has no ASCII byte. *)
Definition utf8_text (s : string) : Prop := Forall (λ c, String.length c = 1 ∨ is_line c = true) (chars s).
Lemma line_join cs : Forall (λ c, is_line c = true) cs → is_line (join cs) = true.
Proof.
  unfold join. induction 1 as [|c cs Hc _ IH]; [done |]. destruct cs as [|d cs]; [done |]. change (String.concat "" (c :: d :: cs)) with (c ++ "" ++ String.concat "" (d :: cs)).
  unfold is_line in *. by rw forall_char_app Hc.
Qed.
Lemma name_line s : utf8_text s → has_control s = false → is_line s = true.
Proof.
  intros Hu Hc. rw -(join_chars s). apply line_join. unfold utf8_text in Hu. apply Forall_forall. intros c Hin.
  apply (proj1 (Forall_forall _ _) Hu) in Hin as Hone. destruct Hone as [Hone | ?]; [| done].
  destruct c as [|a [|]]; try done. assert (is_control (String a "") = false) as Hctl.
  { apply not_true_is_false. intros Ht. assert (has_control s = true) as Hs; [| congruence]. apply existsb_exists. exists (String a ""). split; [by apply list_elem_of_In | done]. }
  revert Hctl. by destruct a as [[] [] [] [] [] [] [] []].
Qed.
Lemma quote_line v : is_line v = true → is_line (yaml_quote v) = true.
Proof.
  intros Hv. unfold yaml_quote. unfold is_line in *. rw !forall_char_app !andb_true_iff. split; [done |]. split; [| done].
  induction v as [|c v IH]; [done |]. simpl in Hv. apply andb_true_iff in Hv as [Hc Hv]. simpl. rw forall_char_app IH //. destruct (Ascii.eqb c "'"); [done |]. by rw /= Hc.
Qed.
Definition target_of (d : Json) : target :=
  Target (default "" (str_at "address" d)) (default "" (str_at "id" d)) (default "" (str_at "name" d))
         (default "device" (str_at "kind" d)) (default "home" (str_at "site" d)).
Definition target_is_line (x : target) : Prop :=
  is_line (target_address x) = true ∧ is_line (target_id x) = true ∧ is_line (target_name x) = true ∧ is_line (target_kind x) = true ∧ is_line (target_site x) = true.
Definition lines_of (x : target) : list string :=
  device_lines (target_address x) (target_id x) (target_name x) (target_kind x) (target_site x).
Lemma target_lines_of d l : target_lines d = Ok l → l = lines_of (target_of d).
Proof.
  unfold target_lines, target_of. destruct (str_at "id" d); [| done]. destruct (str_at "name" d); [| done].
  destruct (str_at "address" d); [| done]. by intros [= <-].
Qed.
Lemma static_lines ds ls : static_configs ds = Ok ls → ls = concat (lines_of <$> (target_of <$> ds)).
Proof.
  revert ls. induction ds as [|d ds IH]; intros ls; [by intros [= <-] |]. cbn [static_configs]. 
  destruct (target_lines d) as [l|] eqn:Hl; [| done]. destruct (static_configs ds) as [ls'|]; [| done].
  intros [= <-]. by rw (IH ls' eq_refl) (target_lines_of d l Hl).
Qed.
Lemma field_line prefix suffix v : is_line prefix && is_line suffix = true → is_line v = true → is_line (prefix ++ yaml_quote v ++ suffix) = true.
Proof. intros [Hp Hs]%andb_true_iff Hv%quote_line. unfold is_line in *. by rw forall_char_app Hp forall_char_app Hv Hs. Qed.
Lemma field_line_end prefix v : is_line prefix = true → is_line v = true → is_line (prefix ++ yaml_quote v) = true.
Proof. intros Hp Hv. rw -(string_app_nil_r (yaml_quote v)). apply field_line; [by rw Hp | done]. Qed.
Lemma lines_are_lines x : target_is_line x → Forall (λ l, is_line l = true) (lines_of x).
Proof.
  intros (H1 & H2 & H3 & H4 & H5). unfold lines_of, device_lines. constructor; [by apply field_line |]. constructor; [reflexivity |].
  do 4 (constructor; [apply field_line_end; [reflexivity | assumption] |]). constructor; [reflexivity | constructor].
Qed.
Lemma read_lines_of xs rest : read_targets rest = [] → read_targets (concat (lines_of <$> xs) ++ rest) = xs.
Proof.
  intros Hrest. induction xs as [|x xs IH]; [done |]. cbn [fmap list_fmap concat]. unfold lines_of at 1, device_lines. cbn [app read_targets].
  unfold read_target. rw (read_field_quote "            - targets: [" "]"); [done |]. rw !read_field_end. cbn. rw IH. by destruct x.
Qed.

Lemma device_is_line d : device_ok d → utf8_text (default "" (str_at "name" d)) → target_is_line (target_of d).
Proof.
  intros (id & name & address & kind & site & state & dt & -> & Hf) Hu.
  destruct (entry_fields id name address kind site state dt) as (E1 & E2 & E3 & E4 & E5 & _). unfold target_is_line, target_of.
  rw E1 E2 E3 E4 E5. rw E2 in Hu. cbn [target_address target_id target_name target_kind target_site default] in *. destruct Hf as [Hid Hname [Haddr _] Hkind Hsite _].
  split_and!.
  - eapply forall_char_impl; [| exact Haddr]. intros c. by destruct c as [[] [] [] [] [] [] [] []].
  - apply normalize_slug_ok in Hid. pose proof (slug_tail_chars _ _ (slug_shape _ Hid)) as Hc. eapply forall_char_impl; [| exact Hc].
    intros c. by destruct c as [[] [] [] [] [] [] [] []].
  - apply name_line; [exact Hu | apply Hname].
  - eapply forall_char_impl; [| apply Hkind]. intros c. by destruct c as [[] [] [] [] [] [] [] []].
  - eapply forall_char_impl; [| apply Hsite]. intros c. by destruct c as [[] [] [] [] [] [] [] []].
Qed.
Lemma config_lines interval endpoint ts : is_line interval = true → is_line endpoint = true → Forall (λ l, is_line l = true) ts →
  Forall (λ l, is_line l = true) (head_lines interval ++ ts ++ tail_lines endpoint)%list.
Proof.
  intros Hi He Ht. apply Forall_app. split; [| apply Forall_app; split; [exact Ht |]].
  - unfold head_lines. repeat (constructor; [first [reflexivity | unfold is_line in *; rw forall_char_app Hi; reflexivity] |]). constructor.
  - unfold tail_lines. repeat (constructor; [first [reflexivity | by apply field_line_end] |]). constructor.
Qed.

(** C38: What the collector is configured to probe is read back from its configuration: the address and the labels of exactly
    the enabled devices, in their order, whatever quotes the names have.  The inventory must be well-formed, the names UTF-8,
    and interval and endpoint single lines.  The reader is one for the lines of this format, not for all of YAML. *)
Theorem collector_config_reads_back inv config : collector_config inv = Ok config →
  is_line (default "30s" (probe_str "collection_interval" inv)) = true →
  is_line (default DEFAULT_OTLP_ENDPOINT (probe_str "otlp_endpoint" inv)) = true →
  monitoring_wf inv → Forall (λ d, utf8_text (default "" (str_at "name" d))) (enabled_devices inv) →
  read_config config = target_of <$> enabled_devices inv.
Proof.
  intros Hconfig Hint Hend (l & Hl & Hok) Hutf. unfold collector_config in Hconfig. destruct (bool_decide _); [done |].
  destruct (static_configs _) as [ls|] eqn:Hls; [| done]. apply static_lines in Hls as ->. injection Hconfig as <-.
  unfold read_config. rw split_unlines.
  - apply config_lines; [exact Hint | exact Hend |]. apply Forall_concat. apply Forall_fmap, Forall_fmap. apply Forall_forall. intros d Hd.
    apply lines_are_lines, device_is_line; [| by apply (proj1 (Forall_forall _ _) Hutf)]. apply (proj1 (Forall_forall _ _) (do_devices _ Hok)).
    apply list_elem_of_In in Hd. unfold enabled_devices, in_state in Hd. rw Hl in Hd. apply filter_In in Hd as [Hd _]. by apply list_elem_of_In.
  - set (endpoint := default _ (probe_str "otlp_endpoint" inv)).
    change (read_targets ((concat (lines_of <$> (target_of <$> enabled_devices inv)) ++ tail_lines endpoint) ++ [""])%list = target_of <$> enabled_devices inv).
    rw -app_assoc. by apply read_lines_of.
Qed.

(** ** A service

    Schedules with fresh ids, and a network without faults. *)
Definition ex_text (v : Json) : string := String "n" (pos_string (encode v)).
Definition ex_exchange (host : string) (port : Z) (method : http_method) (path key : string) (body : option Json) (x : gmap string string)
    : result string (bool * string * string) * gmap string string :=
  match method with
  | GET => (Ok (true, "200 OK", ex_text (JArray [])), x)
  | POST => match body ≫= scope_of with
            | Some scope => let id := fresh (dom x) in (Ok (true, "200 OK", ex_text (JObject [("id", JString id)])), <[id := scope]> x)
            | None => (Ok (false, "400 Bad Request", "no scope"), x)
            end
  | DELETE => match strip_prefix (DOWNTIME_PATH ++ "/") path with
              | Some id => if bool_decide (is_Some (x !! id)) then (Ok (true, "204 No Content", ""), delete id x) else (Ok (false, "404 Not Found", "no such schedule"), x)
              | None => (Ok (false, "404 Not Found", "no such path"), x)
              end
  end.
Global Instance ex_signoz : SigNoz := {|
  service := gmap string string;
  parse_url url := match strip_prefix "http://" url with Some host => Some ("http", Some host, None, "/") | None => None end;
  exchange := ex_exchange;
  epoch_to_rfc3339_utc z := Some (show_int z);
  json_display := ex_text;
|}.
Global Instance ex_signoz_laws : SigNozLaws.
Proof.
  refine {| schedules := λ x : service, x; service_path := "" |}.
  - intros host port key payload scope x Hs. cbn [exchange ex_signoz ex_exchange mbind option_bind]. rw Hs.
    exists (JObject [("id", JString (fresh (dom x)))]), (fresh (dom x)). split.
    + change (decode (string_pos (pos_string (encode (JObject [("id", JString (fresh (dom x)))])))) = Some (JObject [("id", JString (fresh (dom x)))])).
      by rw string_pos_pos_string decode_encode.
    + split_and!; try done. apply not_elem_of_dom, is_fresh.
  - intros host port key id x. cbn [exchange ex_signoz ex_exchange]. rw strip_prefix_app. destruct (bool_decide _); cbn [answered]; [| by left]. split; [by left | reflexivity].
Defined.

Definition ex_env (name : string) : option string := if String.eqb name "NEXUS_SIGNOZ_API_KEY" then Some "key" else None.
Definition ex_answer (history : list (string * list string)) (d : dir) (program : string) (args : list string) : command_outcome := Exited true (Some 0%Z) "" "".
Definition ex_site : site := Site (quiet_world ∅) (∅ : service) [].
Definition ex_upsert (state : string) : Mon Json := upsert_device 1 0 ex_env ex_answer (λ _, true) "Core 'A' Switch" "192.168.0.5" "switch" None (Some state).
Lemma default_monitoring_wf : monitoring_wf NexusMonitoring.default_inventory.
Proof. exists []. split; [done |]. split; constructor. Qed.
Lemma mon_ok {A} (m : Mon A) s : is_ok (m s).1 = true → ∃ a s', m s = (Ok a, s').
Proof. destruct (m s) as [[a | e] s']; [eauto | done]. Qed.

Lemma ex_served scheme host port base : parse_url (base_url ex_env) = Some (scheme, host, port, base) → trim_end_char "/" base = service_path.
Proof.
  assert (parse_url (base_url ex_env) = Some ("http", Some "192.168.0.47:8080", None, "/")) as -> by (vm_compute; reflexivity).
  by intros [= _ _ _ <-].
Qed.

Lemma ex_in_sync : downtimes_in_sync ∅ NexusMonitoring.default_inventory.
Proof. intros sid id. rw lookup_empty. by split. Qed.

Example upsert_settles_downtime_witness : ∃ v s' id inv',
  ex_upsert "Maintenance" ex_site = (Ok v, s') ∧ str_at "device_id" v = Some id ∧ monitoring_on (disk (files s')) = Some inv' ∧
  downtimes_in_sync (schedules (signoz s')) inv' ∧ ∃ sid, schedules (signoz s') !! sid = Some (device_scope id).
Proof.
  destruct (mon_ok (ex_upsert "Maintenance") ex_site) as (v & s' & Hrun); [by vm_compute |].
  assert (reports_failure v = false) as Hok.
  { assert (match (ex_upsert "Maintenance" ex_site).1 with Ok v => reports_failure v | Err _ => true end = false) as Hc by (vm_compute; reflexivity).
    rw Hrun in Hc. exact Hc. }
  destruct (upsert_settles_downtime 1 0 ex_env ex_answer (λ _, true) ex_served
    _ _ _ _ _ ex_site v s' NexusMonitoring.default_inventory eq_refl default_monitoring_wf ex_in_sync Hrun Hok)
    as (id & inv' & Hid & Hon & _ & Hsync & Hsilenced).
  exists v, s', id, inv'. split; [exact Hrun |]. split; [exact Hid |]. split; [exact Hon |]. split; [exact Hsync |].
  apply Hsilenced. vm_compute. reflexivity.
Defined.
Example monitoring_inventory_sound_witness :
  let rs := [UpsertDevice "Core 'A' Switch" "192.168.0.5" "switch" None None; UpsertDevice "cam" "-rf" "camera" None None; DeleteDevice "core-a-switch"] in
  ∃ inv', monitoring_on (disk (files (serve_monitoring 1 0 ex_env ex_answer (λ _, true) rs ex_site))) = Some inv' ∧ monitoring_wf inv' ∧
    (∀ id d, find_device inv' id = Some d → normalize_slug id = Ok id) ∧ (∀ k, k ≠ "devices" → jget k inv' = jget k NexusMonitoring.default_inventory).
Proof. intros rs. apply (monitoring_inventory_sound 1 0 ex_env ex_answer (λ _, true) rs ex_site NexusMonitoring.default_inventory eq_refl default_monitoring_wf). Defined.

Definition ex_devices : Json := jset "devices" (JArray [entry_of "core-a-switch" "Core 'A' Switch" "192.168.0.5" "switch" "home" "enabled" None;
  entry_of "tv" "TV" "tv.lan" "tv" "home" "maintenance" (Some "dt-1")]) NexusMonitoring.default_inventory.
Lemma ex_devices_wf : monitoring_wf ex_devices.
Proof.
  eexists. split; [reflexivity |]. split.
  - constructor; [| constructor; [| constructor]].
    + apply (normalized_device "Core 'A' Switch" _ "192.168.0.5" _ "switch" _ "home" _ "enabled"); vm_compute; reflexivity.
    + apply (normalized_device "TV" _ "tv.lan" _ "tv" _ "home" _ "maintenance"); vm_compute; reflexivity.
  - apply (bool_decide_unpack _). vm_compute. exact I.
  - constructor; [by repeat constructor |]. constructor; [| constructor]. unfold cmp_le. by vm_compute.
Qed.
Example collector_config_reads_back_witness : ∃ config, collector_config ex_devices = Ok config ∧
  read_config config = [Target "192.168.0.5" "core-a-switch" "Core 'A' Switch" "switch" "home"].
Proof.
  eexists. split; [reflexivity |]. apply (collector_config_reads_back ex_devices); [reflexivity | reflexivity | reflexivity | exact ex_devices_wf |].
  apply Forall_forall. intros d Hd. apply list_elem_of_singleton in Hd as ->. unfold utf8_text. apply Forall_forall. intros c Hc. left.
  assert (forallb (λ c, String.length c =? 1)%nat (chars "Core 'A' Switch") = true) as Hall by (vm_compute; reflexivity).
  apply Nat.eqb_eq. exact (proj1 (forallb_forall _ _) Hall c (proj1 (list_elem_of_In _ _) Hc)).
Defined.

(** ** Behaviours the documentation rules out *)

(** A downtime that is gone on the side of SigNoz (deleted there, or with the request that takes its id) stays tracked, because
    its deletion can never succeed; a device that enters maintenance later is not silenced, and no failure is reported. *)
Example stale_downtime_not_renewed :
  let s1 := (ex_upsert "maintenance" ex_site).2 in
  let id := default "" (monitoring_on (disk (files s1)) ≫= λ inv, tracked_downtime inv "core-a-switch") in
  let s2 := (delete_signoz_downtime ex_env id s1).2 in
  let '(r, s3) := ex_upsert "maintenance" (ex_upsert "enabled" s2).2 in
  match r with Ok v => reports_failure v = false | Err _ => False end ∧ map_to_list (signoz s3 : gmap string string) = [].
Proof. by vm_compute. Qed.
(** The downtime is created before the inventory is written: when that fails, SigNoz has a schedule that no entry tracks. *)
Example failed_update_leaks_downtime :
  let s' := (ex_upsert "maintenance" (Site (World ∅ 0 (λ n, Nat.eqb n 3)) (∅ : service) [])).2 in
  length (map_to_list (signoz s' : gmap string string)) = 1 ∧ monitoring_on (disk (files s')) = Some NexusMonitoring.default_inventory.
Proof. by vm_compute. Qed.
