(* ===== verification/RemoteUpdates.v ===== *)
(** * Updates of the remotes

    server/src/remote_updates.rs with the types of lib/pdm-api-types/src/remote_updates.rs and the
    handlers of server/src/api/remotes/updates.rs: which updates the nodes of all remotes have.
    A node is asked when a caller wants to know, and all of them every few hours; the summary of
    the answers is an entry of the API cache.  The answers of the nodes are parameters. *)
From stdpp Require Import relations.
From S2P Require Import Prelude RustStr Remotes Disk ApiCache Fetcher FetcherProps RemotesConfig Examples.

#[local] Open Scope string_scope.

(** ** Data *)
Inductive RemoteUpdateStatus := RemoteSuccess | RemoteError | RemoteUnknown.
Inductive NodeUpdateStatus := NodeSuccess | NodeError.
(** In ascending severity *)
Inductive ProductRepositoryStatus :=
| RepoOk
| NonProductionReady
| MissingSubscriptionForEnterprise
| NoProductRepository
| RepoError.

Record PackageVersion := { pv_package : string; pv_version : string }.
Record NodeUpdateSummary := {
  number_of_updates : Z;
  last_refresh : Z;
  node_status : NodeUpdateStatus;
  node_message : option string;
  node_versions : list PackageVersion;
  node_repository : ProductRepositoryStatus;
}.
Record RemoteUpdateSummary := {
  update_nodes : gmap string NodeUpdateSummary;
  update_type : RemoteType;
  update_status : RemoteUpdateStatus;
  update_message : option string;
}.
Record UpdateSummary := { update_remotes : gmap string RemoteUpdateSummary }.
Definition empty_summary : UpdateSummary := {| update_remotes := ∅ |}.

(** What a node answers: the native update info and package of each product, reduced to the
    fields that are kept *)
Record NativeUpdate := {
  nu_package : string;
  nu_title : string;
  nu_arch : string;
  nu_description : string;
  nu_version : string;
  nu_old_version : option string;
  nu_origin : string;
  nu_priority : string;
  nu_section : string;
}.
Record APTUpdateInfo := {
  apt_package : string;
  apt_title : string;
  apt_arch : string;
  apt_description : string;
  apt_version : string;
  apt_old_version : option string;
  apt_origin : string;
  apt_priority : string;
  apt_section : string;
  apt_extra_info : option string;
}.
Record InstalledPackage := { ip_package : string; ip_old_version : option string }.

Record NodeUpdateInfo := {
  ui_updates : list APTUpdateInfo;
  ui_last_refresh : Z;
  ui_versions : list PackageVersion;
  ui_repository_status : ProductRepositoryStatus;
}.

(** [APTStandardRepoSummary] of proxmox-apt, and the repositories it is made from *)
Record RepoSummary := {
  has_enterprise : bool;
  has_no_subscription : bool;
  has_test : bool;
  has_ceph_enterprise : bool;
  has_ceph_no_subscription : bool;
  has_ceph_test : bool;
}.
Class RepoEnv := {
  StandardRepo : Type;
  from_repos : list StandardRepo → RepoSummary;
}.

Section updates.
Context `{RepoEnv}.

Record Repositories := { repo_errors : list string; standard_repos : list StandardRepo }.

(** What the requests to a node come to, in the order they are made *)
Record node_answers := {
  na_client : result string ();
  na_pve_updates : result string (list NativeUpdate);
  na_pbs_updates : result string (list APTUpdateInfo);
  na_packages : result string (list InstalledPackage);
  na_repositories : result string Repositories;
  na_active : result string bool;       (* is the subscription active? *)
}.

(** [From<&NodeUpdateInfo>]: [len() as u32] *)
Definition node_summary (i : NodeUpdateInfo) : NodeUpdateSummary :=
  {| number_of_updates := u32 (Z.of_nat (length (ui_updates i)));
     last_refresh := ui_last_refresh i;
     node_status := NodeSuccess;
     node_message := None;
     node_versions := ui_versions i;
     node_repository := ui_repository_status i |}.
Definition node_error_summary (e : string) : NodeUpdateSummary :=
  {| number_of_updates := 0; last_refresh := 0; node_status := NodeError; node_message := Some e;
     node_versions := []; node_repository := RepoError |}.
Definition summary_of (r : result string NodeUpdateInfo) : NodeUpdateSummary :=
  match r with Ok i => node_summary i | Err e => node_error_summary e end.

Definition map_pve_update_info (i : NativeUpdate) : APTUpdateInfo :=
  {| apt_package := nu_package i; apt_title := nu_title i; apt_arch := nu_arch i;
     apt_description := nu_description i; apt_version := nu_version i;
     apt_old_version := nu_old_version i; apt_origin := nu_origin i; apt_priority := nu_priority i;
     apt_section := nu_section i; apt_extra_info := None |}.
(** [map_pve_package_version] and [map_pbs_package_version] *)
Definition map_package_version (p : InstalledPackage) : PackageVersion :=
  {| pv_package := ip_package p; pv_version := default "" (ip_old_version p) |}.

Definition check_repository_status (config : Repositories) (active_subscription : bool)
    : ProductRepositoryStatus :=
  if negb (bool_decide (repo_errors config = [])) then RepoError
  else
    let s := from_repos (standard_repos config) in
    if negb (has_enterprise s || has_no_subscription s || has_test s) then NoProductRepository
    else if (has_enterprise s || has_ceph_enterprise s) && negb active_subscription
    then MissingSubscriptionForEnterprise
    else if has_test s || has_no_subscription s || has_ceph_no_subscription s || has_ceph_test s
    then NonProductionReady
    else RepoOk.

Definition fetch_available_updates (now : Z) (ty : RemoteType) (a : node_answers)
    : result string NodeUpdateInfo :=
  _ ← na_client a;
  updates ← match ty with
            | Pve => (fmap map_pve_update_info : list _ → _) <$> na_pve_updates a
            | Pbs => na_pbs_updates a
            end;
  versions ← na_packages a;
  let product := match ty with Pve => "pve-manager" | Pbs => "proxmox-backup-server" end in
  let versions := map_package_version <$> base.filter (λ p, ip_package p = product) versions in
  repos ← na_repositories a;
  active ← na_active a;
  Ok {| ui_updates := updates; ui_last_refresh := now; ui_versions := versions;
        ui_repository_status := check_repository_status repos active |}.

(** ** The cached summary *)
Context `{CacheEnv UpdateSummary}.

Definition UPDATE_SUMMARY_CACHE_KEY : string := "remote-updates".

(** Reading errors are logged. *)
Definition summary_or_default (r : result CacheError (option UpdateSummary)) : UpdateSummary :=
  match r with Ok (Some s) => s | _ => empty_summary end.
Definition get_summary : Cached UpdateSummary :=
  r ← catch (get_impl 0%Z GLOBAL_NAMESPACE UPDATE_SUMMARY_CACHE_KEY None);
  mret (summary_or_default r).
Definition set_summary (now : Z) (s : UpdateSummary) : Cached () :=
  set_impl GLOBAL_NAMESPACE UPDATE_SUMMARY_CACHE_KEY s now.

Definition get_cached_summary_or_default : Cached UpdateSummary :=
  with_namespace GLOBAL_NAMESPACE get_summary.

Definition new_summary (ty : RemoteType) (st : RemoteUpdateStatus) : RemoteUpdateSummary :=
  {| update_nodes := ∅; update_type := ty; update_status := st; update_message := None |}.

(** [entry(remote).or_insert_with(..)], then [nodes.insert(node, node_data)] *)
Definition insert_node (remote : string) (ty : RemoteType) (node : string) (data : NodeUpdateSummary)
    (s : UpdateSummary) : UpdateSummary :=
  let e := default (new_summary ty RemoteSuccess) (update_remotes s !! remote) in
  {| update_remotes :=
       <[remote := {| update_nodes := <[node := data]> (update_nodes e); update_type := update_type e;
                      update_status := update_status e; update_message := update_message e |}]>
         (update_remotes s) |}.

Definition update_cached_summary_for_node (now : Z) (remote : string) (ty : RemoteType)
    (node : string) (data : NodeUpdateSummary) : Cached () :=
  with_namespace GLOBAL_NAMESPACE
    (s ← get_summary; set_summary now (insert_node remote ty node data s)).

(** ** Refreshing the summary *)

(** The body of the last loop: the response of one remote *)
Definition merge_nodes (l : list (NodeResponse NodeUpdateInfo)) (nodes : gmap string NodeUpdateSummary)
    : gmap string NodeUpdateSummary :=
  foldl (λ m r, <[node_name r := summary_of (data r)]> m)
    (base.filter (λ p, existsb (λ r, String.eqb (node_name r) p.1) l = true) nodes) l.
Definition merge_response (s : gmap string RemoteUpdateSummary) (r : RemoteResponse NodeUpdateInfo)
    : gmap string RemoteUpdateSummary :=
  let e := default (new_summary (rr_type r) RemoteSuccess) (s !! rr_name r) in
  <[rr_name r :=
      match rr_nodes r with
      | Ok l => {| update_nodes := merge_nodes l (update_nodes e); update_type := update_type e;
                   update_status := RemoteSuccess; update_message := None |}
      | Err err => {| update_nodes := ∅; update_type := update_type e;
                      update_status := RemoteError; update_message := Some err |}
      end]> s.

(** The final pass: remotes without a response are dropped, the others are updated. *)
Definition merge_responses (responses : list (RemoteResponse NodeUpdateInfo)) (s : UpdateSummary)
    : UpdateSummary :=
  {| update_remotes :=
       foldl merge_response
         (base.filter (λ p, existsb (λ r, String.eqb (rr_name r) p.1) responses = true)
            (update_remotes s)) responses |}.

Definition updates_fetcher : ParallelFetcher := build builder.

(** The function the parallel fetcher calls, [now] being the time at which a node has answered;
    its result also goes to the cache. *)
Definition updates_call (now : string → string → Z) (answers : string → string → node_answers)
    (remote : string) (ty : RemoteType) (node : string) : option (result string NodeUpdateInfo) :=
  Some (fetch_available_updates (now remote node) ty (answers remote node)).

(** The result of a node is cached when it is there; an error is logged. *)
Record arrival := Arrival {
  ar_time : Z;
  ar_remote : string;
  ar_type : RemoteType;
  ar_node : string;
  ar_result : result string NodeUpdateInfo;
}.
Fixpoint cache_arrivals (arrivals : list arrival) : Cached () :=
  match arrivals with
  | [] => mret ()
  | a :: arrivals' =>
      _ ← catch (update_cached_summary_for_node (ar_time a) (ar_remote a) (ar_type a) (ar_node a)
                   (summary_of (ar_result a)));
      cache_arrivals arrivals'
  end.

(** [arrivals] are the results of the nodes in the order they come, [meanwhile] what others do to
    the cache before the final pass, [responses] what the fetcher returned.  The removal of the
    older cache file is not modelled. *)
Definition refresh_update_summary_cache (now' : Z) (arrivals : list arrival)
    (meanwhile : world → world) (responses : list (RemoteResponse NodeUpdateInfo)) : Cached () :=
  _ ← cache_arrivals arrivals;
  _ ← ((λ w, (Ok (), meanwhile w)) : Cached ());
  with_namespace GLOBAL_NAMESPACE (s ← get_summary; set_summary now' (merge_responses responses s)).

(** ** Queries *)
Context `{SectionData Remote}.

(** The list of the updates of one node; the cache is updated in a task of its own. *)
Definition list_available_updates (now : Z) (remote : string) (ty : RemoteType) (node : string)
    (a : node_answers) : result string (list APTUpdateInfo * Cached ()) :=
  i ← fetch_available_updates now ty a;
  Ok (ui_updates i, update_cached_summary_for_node now remote ty node (node_summary i)).

Definition unknown_summary (ty : RemoteType) : RemoteUpdateSummary := new_summary ty RemoteUnknown.

Definition summary_for (config : sec_data Remote) (cache_content : UpdateSummary) : UpdateSummary :=
  {| update_remotes :=
       foldl (λ m p, <[p.1 := default (unknown_summary (remote_ty p.2))
                                      (update_remotes cache_content !! p.1)]> m)
         ∅ (sec_list config) |}.
Definition get_available_updates_summary (config : result error (sec_data Remote)) : Cached UpdateSummary :=
  config ← cio (λ w, (config, w));
  cache_content ← get_cached_summary_or_default;
  mret (summary_for config cache_content).

Definition get_available_updates_for_remote (config : result error (sec_data Remote)) (remote : string)
    : Cached RemoteUpdateSummary :=
  config ← cio (λ w, (config, w));
  match sec_get config remote with
  | Some r =>
      cache_content ← get_cached_summary_or_default;
      mret (default (unknown_summary (remote_ty r)) (update_remotes cache_content !! remote_id r))
  | None => cio (fail (Error OtherIo ["no such remote '" ++ remote ++ "'"]))
  end.

(** [update_summary]: [any] says whether the caller has the privilege below /resource, [may] on
    which remotes. *)
Definition update_summary (any : bool) (may : string → bool) (config : result error (sec_data Remote))
    : Cached UpdateSummary :=
  if negb any then cio (fail (Error OtherIo ["user has no access to resources"]))
  else
    s ← get_available_updates_summary config;
    mret {| update_remotes := base.filter (λ p, may p.1 = true) (update_remotes s) |}.

(** [refresh_remote_update_summaries]: the remotes whose updates are refreshed *)
Definition refresh_targets (any : bool) (may : string → bool) (config : result error (sec_data Remote))
    : result error (list Remote) :=
  if negb any then Err (Error OtherIo ["user has no access to resources"])
  else config ← config; Ok (base.filter (λ p, may p.1 = true) (sec_list config)).*2.
End updates.

(** ** What the final pass leaves *)
Section facts.
Context `{RepoEnv}.

Lemma merge_nodes_lookup l nodes n : NoDup (node_name <$> l) →
  merge_nodes l nodes !! n = (λ r, summary_of (data r)) <$> find_by (λ r, String.eqb (node_name r) n) l.
Proof.
  intros Hnd. unfold merge_nodes.
  rw (foldl_update_lookup node_name (λ r _, summary_of (data r)) _ _ _ Hnd).
  destruct (find_by _ l) as [r|] eqn:E; [done |]. apply map_lookup_filter_None. right. intros e _ He.
  apply existsb_exists in He as (r & Hr%list_elem_of_In & Hn).
  by rw (find_by_None _ _ _ E Hr) in Hn.
Qed.

Definition merged_entry (r : RemoteResponse NodeUpdateInfo) (o : option RemoteUpdateSummary)
    : RemoteUpdateSummary :=
  let e := default (new_summary (rr_type r) RemoteSuccess) o in
  match rr_nodes r with
  | Ok l => {| update_nodes := merge_nodes l (update_nodes e); update_type := update_type e;
               update_status := RemoteSuccess; update_message := None |}
  | Err err => {| update_nodes := ∅; update_type := update_type e;
                  update_status := RemoteError; update_message := Some err |}
  end.

Lemma merge_responses_lookup responses s id : NoDup (rr_name <$> responses) →
  update_remotes (merge_responses responses s) !! id
  = (λ r, merged_entry r (update_remotes s !! id)) <$> find_by (λ r, String.eqb (rr_name r) id) responses.
Proof.
  intros Hnd. unfold merge_responses. cbn [update_remotes].
  pose proof (foldl_update_lookup rr_name merged_entry responses
    (base.filter (λ p, existsb (λ r, String.eqb (rr_name r) p.1) responses = true) (update_remotes s)) id Hnd)
    as E. unfold merged_entry in E. unfold merge_response. rw E. clear E.
  destruct (find_by _ responses) as [r|] eqn:E.
  - simpl. apply find_by_Some in E as [Hr Hn]. do 2 f_equal.
    assert (base.filter (λ p, existsb (λ r, String.eqb (rr_name r) p.1) responses = true)
      (update_remotes s) !! id = update_remotes s !! id) as ->; [| done].
    destruct (update_remotes s !! id) as [e|] eqn:Es; [| apply map_lookup_filter_None; by left].
    apply map_lookup_filter_Some. split; [done |]. apply existsb_exists. exists r.
    split; [by apply list_elem_of_In | done].
  - simpl. apply map_lookup_filter_None. right. intros e _ He.
    apply existsb_exists in He as (r & Hr%list_elem_of_In & Hn).
    by rw (find_by_None _ _ _ E Hr) in Hn.
Qed.

Context `{CacheLaws UpdateSummary}.

(** What a read of the cached summary finds: the entry, or nothing if there is none or it cannot
    be read *)
Definition summary_read (d : dir) (s : UpdateSummary) : Prop :=
  s = empty_summary
  ∨ ∃ e, cached d GLOBAL_NAMESPACE UPDATE_SUMMARY_CACHE_KEY = Some e ∧ s = value e.

Lemma get_summary_inv w r w' :
  get_summary w = (r, w') → disk w' = disk w ∧ ∃ s, r = Ok s ∧ summary_read (disk w) s.
Proof.
  unfold get_summary, catch, mbind, Cached_bind, mret, Cached_ret.
  destruct (get_impl _ _ _ _ w) as [x w1] eqn:E. intros [= <- <-].
  split; [by apply get_impl_disk in E |]. eexists. split; [done |].
  destruct x as [[s|]|e]; [| by left..]. apply get_impl_some in E as [_ (e & He & [= <-])].
  right. by exists e.
Qed.

(** A change of the cached summary, under the lock: it is stored, or nothing changes. *)
Lemma change_summary_inv now (f : UpdateSummary → UpdateSummary) w r w' :
  with_namespace GLOBAL_NAMESPACE (s ← get_summary; set_summary now (f s)) w = (r, w') →
  match r with
  | Ok _ => ∃ s, summary_read (disk w) s
      ∧ updated (disk w) (disk w') GLOBAL_NAMESPACE UPDATE_SUMMARY_CACHE_KEY
                   {| timestamp := now; value := stored (f s) |}
  | Err _ => disk w' = disk w
  end.
Proof.
  intros [[Hd [e ->]]|(Hn & w1 & Hd1 & Hr)]%with_namespace_inv; [done |].
  apply cached_bind_inv in Hr as [(s & w2 & [Hd2 [s' [[= <-] Hs]]]%get_summary_inv & Hr)|(e & [_ [s [[=] _]]]%get_summary_inv & _)].
  apply set_impl_inv in Hr; [| done]. destruct r as [[]|e]; [| congruence].
  destruct Hr as [_ Hu]. exists s. rw Hd2 Hd1 in Hu. by rw Hd1 in Hs.
Qed.

Lemma refresh_inv now' arrivals meanwhile responses w w' :
  refresh_update_summary_cache now' arrivals meanwhile responses w = (Ok (), w') →
  ∃ s, cached (disk w') GLOBAL_NAMESPACE UPDATE_SUMMARY_CACHE_KEY
       = Some {| timestamp := now'; value := stored (merge_responses responses s) |}.
Proof.
  unfold refresh_update_summary_cache.
  intros [(u & w1 & _ & Hr)|(e & _ & [=])]%cached_bind_inv.
  apply cached_bind_inv in Hr as [(u' & w2 & _ & Hr)|(e & _ & [=])].
  apply change_summary_inv in Hr as [s [_ [Hc _]]]. by exists s.
Qed.

(** ** The summary tells what the nodes answered *)
Section refresh.
Context (F : ParallelFetcher) (list_nodes : string → result string (list string)).
Context (now : string → string → Z) (answers : string → string → node_answers).
Abbreviation call := (updates_call now answers).

(** The nodes that are asked: those of a PVE cluster, and the host of a PBS *)
Definition asked_nodes (id : string) (ty : RemoteType) : result string (list string) :=
  match ty with Pve => list_nodes id | Pbs => Ok ["localhost"] end.

(** The entry of a remote says what its nodes answered. *)
Definition reflects (id : string) (ty : RemoteType) (e : RemoteUpdateSummary) : Prop :=
  match asked_nodes id ty with
  | Err msg => update_status e = RemoteError ∧ update_message e = Some msg ∧ update_nodes e = ∅
  | Ok nodes =>
      update_status e = RemoteSuccess ∧ update_message e = None
      ∧ ∀ n, update_nodes e !! n
             = if decide (n ∈ nodes)
               then Some (summary_of (fetch_available_updates (now id n) ty (answers id n))) else None
  end.

Lemma called_nodes id ty nodes :
  filter_map (fetch_node call id ty) nodes
  = (λ n, Build_NodeResponse n (fetch_available_updates (now id n) ty (answers id n))) <$> nodes.
Proof. induction nodes as [|n nodes IH]; [done |]. cbn. by f_equal. Qed.

Lemma node_summaries id ty nodes (l : list (NodeResponse NodeUpdateInfo)) m n : NoDup nodes →
  l ≡ₚ filter_map (fetch_node call id ty) nodes →
  merge_nodes l m !! n
  = if decide (n ∈ nodes)
    then Some (summary_of (fetch_available_updates (now id n) ty (answers id n))) else None.
Proof.
  intros Hnd Hl. rw called_nodes in Hl.
  assert (node_name <$> l ≡ₚ nodes) as Hnames.
  { rw (fmap_Permutation node_name _ _ Hl) -list_fmap_compose. by rw list_fmap_id. }
  rw merge_nodes_lookup; [by rw Hnames |]. case_decide as Hn.
  - set (r := Build_NodeResponse n (fetch_available_updates (now id n) ty (answers id n))).
    rw (find_by_key node_name l r) //; [by rw Hnames |]. rw Hl. apply list_elem_of_fmap. by exists n.
  - destruct (find_by _ l) eqn:E; [| done]. exfalso. apply Hn. rw -Hnames.
    apply find_by_Some in E as [Hr <-%String.eqb_eq]. by apply list_elem_of_fmap_2.
Qed.

Lemma merged_reflects id ty r o :
  (∀ nodes, list_nodes id = Ok nodes → NoDup nodes) →
  expected AllNodes list_nodes call id ty r → reflects id ty (merged_entry r o).
Proof.
  intros Hnd (_ & _ & Hx). unfold reflects, asked_nodes, merged_entry. destruct ty; simpl in Hx.
  - destruct (list_nodes id) as [nodes|e] eqn:En; [| by rw Hx].
    destruct Hx as (l & -> & Hl). split_and!; [done | done |]. intros n. by eapply node_summaries, Hl; auto.
  - destruct Hx as (x & [= <-] & ->). split_and!; [done | done |]. intros n.
    apply (node_summaries id Pbs ["localhost"]); [apply NoDup_singleton | done].
Qed.

Lemma refresh_entries remotes st joined arrivals meanwhile now' w w' :
  NoDup remotes.*1 → (∀ id nodes, list_nodes id = Ok nodes → NoDup nodes) →
  rtc (steps_to AllNodes F list_nodes call) (start F remotes) st → all_ended st = true →
  joined ≡ₚ returned st →
  refresh_update_summary_cache now' arrivals meanwhile (FetcherResponse joined) w = (Ok (), w') →
  ∃ s, cached (disk w') GLOBAL_NAMESPACE UPDATE_SUMMARY_CACHE_KEY
       = Some {| timestamp := now'; value := stored s |}
    ∧ (∀ id, is_Some (update_remotes s !! id) ↔ id ∈ remotes.*1)
    ∧ (∀ id ty, (id, ty) ∈ remotes → ∃ e, update_remotes s !! id = Some e ∧ reflects id ty e).
Proof.
  intros Hnd Hnodes Hinv%reachable_inv Hend Hj [s0 Hc]%refresh_inv.
  exists (merge_responses (FetcherResponse joined) s0). split; [done |]. clear Hc.
  pose proof (sort_by_perm compare_responses joined) as Hp. fold (FetcherResponse joined) in Hp.
  rw -Hp in Hj. revert Hj. generalize (FetcherResponse joined). clear joined Hp. intros joined Hj.
  assert (NoDup (rr_name <$> joined)) as Hndj by (rw Hj; by eapply returned_NoDup).
  assert (∀ id ty, (id, ty) ∈ remotes → ∃ r, r ∈ joined ∧ expected AllNodes list_nodes call id ty r)
    as Hall.
  { intros id ty Hin. by destruct (joined_complete _ _ _ _ _ _ _ _ _ Hinv Hend Hj Hin) as [|[_ [=]]]. }
  split.
  - intros id. rw merge_responses_lookup //. rw fmap_is_Some. split.
    + intros [r Hr]. apply find_by_Some in Hr as [Hr <-%String.eqb_eq].
      destruct (joined_expected _ _ _ _ _ _ _ _ Hinv Hj Hr) as (id & ty & Hin & -> & _).
      by apply (list_elem_of_fmap_2 fst) in Hin.
    + intros ([id' ty] & -> & Hin)%list_elem_of_fmap. destruct (Hall _ _ Hin) as (r & Hr & <- & _).
      rw (find_by_key rr_name) //.
  - intros id ty Hin. destruct (Hall _ _ Hin) as (r & Hr & Hx).
    rw merge_responses_lookup //. destruct Hx as [<- Hx]. rw (find_by_key rr_name) //. simpl.
    eexists. split; [done |]. by eapply merged_reflects; eauto.
Qed.

(** The remotes of the configuration, as the periodic refresh asks them *)
Definition configured `{SectionData Remote} (config : sec_data Remote) : list (string * RemoteType) :=
  (λ p, (p.1, remote_ty p.2)) <$> sec_list config.

(** C18: a refresh of all configured remotes leaves a summary that tells exactly what the nodes
    answered.  After such a refresh succeeds, whatever the cache held before, in whatever order
    the requests ran and whatever others wrote meanwhile, the cached summary has an entry for each
    configured remote and no other; it is the error if the nodes of the remote could not be
    listed, and otherwise has for each of these nodes, and no other, the updates the node
    reported, with the time of its answer, or the error of asking it.  A refresh of some remotes
    only is not covered: it forgets the others ([refresh_forgets_others]). *)
Theorem refresh_reflects_answers `{SectionLaws Remote} config st joined arrivals meanwhile now' w w' :
  (∀ id nodes, list_nodes id = Ok nodes → NoDup nodes) →
  rtc (steps_to AllNodes F list_nodes call) (start F (configured config)) st → all_ended st = true →
  joined ≡ₚ returned st →
  refresh_update_summary_cache now' arrivals meanwhile (FetcherResponse joined) w = (Ok (), w') →
  ∃ s, cached (disk w') GLOBAL_NAMESPACE UPDATE_SUMMARY_CACHE_KEY
       = Some {| timestamp := now'; value := stored s |}
    ∧ (∀ id, is_Some (update_remotes s !! id) ↔ is_Some (sec_get config id))
    ∧ (∀ id r, sec_get config id = Some r → ∃ e, update_remotes s !! id = Some e ∧ reflects id (remote_ty r) e).
Proof.
  intros Hnodes Hrun Hend Hj Hr.
  assert ((configured config).*1 = (sec_list config).*1) as Hkeys by by unfold configured; rw -list_fmap_compose.
  destruct (refresh_entries (configured config) st joined arrivals meanwhile now' w w') as (s & Hc & Hs & He); try done.
  { rw Hkeys. apply sec_list_NoDup. }
  exists s. split; [exact Hc |]. split.
  - intros id. rw Hs Hkeys. split.
    + intros ([k r] & -> & Hin%sec_get_list)%list_elem_of_fmap. by eexists.
    + intros [r Hin%sec_get_list]. by apply (list_elem_of_fmap_2 fst) in Hin.
  - intros id r Hin%sec_get_list. apply He. by apply (list_elem_of_fmap_2 (λ p, (p.1, remote_ty p.2))) in Hin.
Qed.
End refresh.

(** The result of one node goes to its own place; what is cached of the other nodes stays. *)
Theorem node_result_cached now remote ty node data w w' :
  update_cached_summary_for_node now remote ty node data w = (Ok (), w') →
  ∃ s s', summary_read (disk w) s
    ∧ cached (disk w') GLOBAL_NAMESPACE UPDATE_SUMMARY_CACHE_KEY
      = Some {| timestamp := now; value := stored s' |}
    ∧ (∃ e, update_remotes s' !! remote = Some e ∧ update_nodes e !! node = Some data
            ∧ ∀ n, n ≠ node →
              update_nodes e !! n = (update_remotes s !! remote ≫= λ e0, update_nodes e0 !! n))
    ∧ ∀ id, id ≠ remote → update_remotes s' !! id = update_remotes s !! id.
Proof.
  intros [s [Hs [Hc _]]]%change_summary_inv. exists s, (insert_node remote ty node data s).
  split; [done |]. split; [done |]. unfold insert_node. simpl. split; [| intros id Hid; by rw lookup_insert_ne].
  eexists. split; [by rw lookup_insert_eq |]. simpl. split; [by rw lookup_insert_eq |].
  intros n Hn. rw lookup_insert_ne //. by destruct (update_remotes s !! remote).
Qed.

(** ** What callers see *)
Section queries.
Context `{SectionLaws Remote}.

Lemma summary_for_lookup config c id :
  update_remotes (summary_for config c) !! id
  = (λ r, default (unknown_summary (remote_ty r)) (update_remotes c !! id)) <$> sec_get config id.
Proof.
  unfold summary_for. cbn [update_remotes].
  rw (foldl_update_lookup fst (λ p _, default (unknown_summary (remote_ty p.2)) (update_remotes c !! p.1))).
  { apply sec_list_NoDup. }
  rw lookup_empty. destruct (find_by _ _) as [[k r]|] eqn:E.
  - apply find_by_Some in E as [Hin Hk%String.eqb_eq]. simpl in *. subst k.
    apply sec_get_list in Hin. by rw Hin.
  - destruct (sec_get config id) as [r|] eqn:Hr; [| done]. apply sec_get_list in Hr.
    apply find_by_key_None in E. exfalso. apply E. by apply (list_elem_of_fmap_2 fst) in Hr.
Qed.

(** the summary a caller gets has exactly the configured remotes on which the caller has the
    privilege, each with what the cache has of it, or as unknown; what the cache still has of
    other remotes is not shown. *)
Theorem update_summary_shows any may config w s w' :
  update_summary any may (Ok config) w = (Ok s, w') →
  any = true ∧ disk w' = disk w
  ∧ ∃ c, summary_read (disk w) c ∧ ∀ id, update_remotes s !! id
      = if may id
        then (λ r, default (unknown_summary (remote_ty r)) (update_remotes c !! id)) <$> sec_get config id
        else None.
Proof.
  unfold update_summary. destruct any; simpl; [| done]. intros Hr. split; [done |].
  apply cached_bind_inv in Hr as [(s1 & w1 & Hs & [= <- <-])|(e & _ & [=])].
  unfold get_available_updates_summary in Hs.
  apply cached_bind_inv in Hs as [(cfg & w2 & [= <- <-] & Hs)|(e & _ & [=])].
  apply cached_bind_inv in Hs as [(c & w3 & Hc & [= <- <-])|(e & _ & [=])].
  unfold get_cached_summary_or_default in Hc.
  apply with_namespace_inv in Hc as [[_ [e [=]]]|(_ & w4 & Hd4 & [Hd3 (c' & [= <-] & Hc)]%get_summary_inv)].
  split; [congruence |]. rw Hd4 in Hc. exists c. split; [done |]. intros id. simpl. pose proof (summary_for_lookup config c id) as E.
  destruct (may id) eqn:Hm.
  - rw -E. destruct (update_remotes (summary_for config c) !! id) as [e|] eqn:He.
    + by apply map_lookup_filter_Some.
    + apply map_lookup_filter_None. by left.
  - apply map_lookup_filter_None. right. intros e _. simpl. by rw Hm.
Qed.
End queries.

(** The type of a remote is that of its first entry: a remote that was removed and added again
    with the other type keeps the old one, at every refresh that sees the new one. *)
Theorem refresh_keeps_type responses s id e r : NoDup (rr_name <$> responses) →
  update_remotes s !! id = Some e → r ∈ responses → rr_name r = id →
  ∃ e', update_remotes (merge_responses responses s) !! id = Some e' ∧ update_type e' = update_type e.
Proof.
  intros Hnd He Hr <-. eexists. rw merge_responses_lookup // (find_by_key rr_name) // He.
  split; [done |]. unfold merged_entry. by destruct (rr_nodes r).
Qed.

(** A refresh forgets the remotes it was not asked for: what the cache had of a remote without a
    response is gone, and a caller sees it as unknown. *)
Theorem refresh_forgets_others `{SectionLaws Remote} config responses s id r :
  NoDup (rr_name <$> responses) → id ∉ rr_name <$> responses → sec_get config id = Some r →
  update_remotes (merge_responses responses s) !! id = None
  ∧ update_remotes (summary_for config (merge_responses responses s)) !! id
    = Some (unknown_summary (remote_ty r)).
Proof.
  intros Hnd Hid Hr.
  assert (update_remotes (merge_responses responses s) !! id = None) as E.
  { rw merge_responses_lookup //. by apply find_by_key_None in Hid as ->. }
  split; [done |]. by rw summary_for_lookup Hr E.
Qed.

(** When the repositories of a node are fine *)
Theorem repository_ok_iff (config : Repositories) active :
  check_repository_status config active = RepoOk ↔
  repo_errors config = [] ∧ active = true
  ∧ (let s := from_repos (standard_repos config) in
     has_enterprise s = true ∧ has_no_subscription s = false ∧ has_test s = false
     ∧ has_ceph_no_subscription s = false ∧ has_ceph_test s = false).
Proof.
  unfold check_repository_status. case_bool_decide; simpl; [| naive_solver].
  destruct (from_repos (standard_repos config)) as [[] [] [] [] [] []], active; simpl; naive_solver.
Qed.
End facts.

(** ** A concrete refresh *)
Global Instance RemoteUpdateStatus_eq_dec : EqDecision RemoteUpdateStatus.
Proof. solve_decision. Defined.
Global Instance NodeUpdateStatus_eq_dec : EqDecision NodeUpdateStatus.
Proof. solve_decision. Defined.
Global Instance ProductRepositoryStatus_eq_dec : EqDecision ProductRepositoryStatus.
Proof. solve_decision. Defined.
Global Instance PackageVersion_eq_dec : EqDecision PackageVersion.
Proof. solve_decision. Defined.
Global Instance NodeUpdateSummary_eq_dec : EqDecision NodeUpdateSummary.
Proof. solve_decision. Defined.
Global Instance RemoteUpdateSummary_eq_dec : EqDecision RemoteUpdateSummary.
Proof. solve_decision. Defined.
Global Instance UpdateSummary_eq_dec : EqDecision UpdateSummary.
Proof. solve_decision. Defined.

Definition status_code (n : NodeUpdateStatus) : bool := match n with NodeSuccess => true | NodeError => false end.
Definition remote_status_code (r : RemoteUpdateStatus) : option bool :=
  match r with RemoteSuccess => Some true | RemoteError => Some false | RemoteUnknown => None end.
Definition repository_code (p : ProductRepositoryStatus) : nat :=
  match p with
  | RepoOk => 0 | NonProductionReady => 1 | MissingSubscriptionForEnterprise => 2
  | NoProductRepository => 3 | RepoError => 4
  end.
Global Instance NodeUpdateSummary_countable : Countable NodeUpdateSummary.
Proof.
  refine (inj_countable'
    (λ n, (number_of_updates n, last_refresh n, status_code (node_status n), node_message n,
           (λ v, (pv_package v, pv_version v)) <$> node_versions n, repository_code (node_repository n)))
    (λ '(u, l, s, m, v, r),
       {| number_of_updates := u; last_refresh := l;
          node_status := if s : bool then NodeSuccess else NodeError; node_message := m;
          node_versions := (λ p : string * string, {| pv_package := p.1; pv_version := p.2 |}) <$> v;
          node_repository := match r : nat with
                             | 0 => RepoOk | 1 => NonProductionReady
                             | 2 => MissingSubscriptionForEnterprise | 3 => NoProductRepository
                             | _ => RepoError
                             end |}) _).
  intros [u l s m v r]. simpl. f_equal; [by destruct s | | by destruct r].
  rw -list_fmap_compose. by induction v as [|[] v IH]; simpl; f_equal.
Defined.
Global Instance RemoteUpdateSummary_countable : Countable RemoteUpdateSummary.
Proof.
  refine (inj_countable'
    (λ r, (update_nodes r, update_type r, remote_status_code (update_status r), update_message r))
    (λ '(n, t, s, m),
       {| update_nodes := n; update_type := t;
          update_status := match s with
                           | Some true => RemoteSuccess | Some false => RemoteError | None => RemoteUnknown
                           end;
          update_message := m |}) _).
  by intros [n t [] m].
Defined.

Definition ex_summary_text (s : UpdateSummary) : string := pos_string (encode (update_remotes s)).
Definition ex_summary_parse (t : string) : option UpdateSummary :=
  Build_UpdateSummary <$> decode (string_pos t).
Global Instance ex_summary_cache : CacheEnv UpdateSummary := {
  safe_id s := negb (has_char "/" s) && negb (is_empty s);
  entry_from_str f :=
    match f with
    | [Text t; Text v] =>
        t ← parse_int t; v ← ex_summary_parse v; Some {| timestamp := t; value := v |}
    | _ => None
    end;
  entry_to_vec e := Some [Text (show_int (timestamp e)); Text (ex_summary_text (value e))];
  stored v := v;
}.
Global Instance ex_summary_laws : CacheLaws UpdateSummary.
Proof.
  split; simpl.
  - intros s [Hs _]%andb_true_iff. by apply negb_true_iff.
  - intros e f [= <-]. rw parse_int_show. cbn [mbind option_bind].
    unfold ex_summary_parse, ex_summary_text. rw string_pos_pos_string decode_encode. by destruct e as [t []].
Qed.

Global Instance ex_repos : RepoEnv := {|
  StandardRepo := bool;      (* the enterprise repository, or that without a subscription *)
  from_repos l := {| has_enterprise := existsb id l; has_no_subscription := existsb negb l;
                     has_test := false; has_ceph_enterprise := false;
                     has_ceph_no_subscription := false; has_ceph_test := false |};
|}.

Definition ex_node_answers (remote node : string) : node_answers :=
  {| na_client := Ok ();
     na_pve_updates := if String.eqb node "n2" then Err "timeout" else Ok [];
     na_pbs_updates := Ok [];
     na_packages := Ok [{| ip_package := "pve-manager"; ip_old_version := Some "9.1" |};
                        {| ip_package := "bash"; ip_old_version := None |}];
     na_repositories := Ok {| repo_errors := []; standard_repos := [true] |};
     na_active := Ok true |}.

(** The time at which a node has answered *)
Definition ex_now (remote node : string) : Z := if String.eqb node "n1" then 99%Z else 100%Z.
Definition ex_typed (id : string) (ty : RemoteType) : Remote :=
  {| remote_ty := ty; remote_id := id; authid := "root@pam!pdm"; token := "-"; web_url := None; remote_urls := [] |}.
Definition ex_refresh_config : sec_data Remote :=
  <["a" := ex_typed "a" Pve]> (<["b" := ex_typed "b" Pbs]> (<["c" := ex_typed "c" Pve]> ∅)) : gmap string Remote.
(** The configuration lists [c] first. *)
Definition ex_refresh_actions : list (nat * action) := (λ p, ((p.1 + 1) mod 3, p.2))%nat <$> ex_actions.
Definition ex_updates_final : fetch_state NodeUpdateInfo :=
  default (start ex_fetcher (configured ex_refresh_config))
    (run_actions AllNodes ex_fetcher ex_nodes (updates_call ex_now ex_node_answers) ex_refresh_actions
       (start ex_fetcher (configured ex_refresh_config))).
Definition ex_arrivals : list arrival :=
  [Arrival 100 "b" Pbs "localhost" (Err "no answer yet"); Arrival 100 "gone" Pve "n1" (Err "timeout")].
Definition ex_refreshed : world :=
  (refresh_update_summary_cache 101 ex_arrivals id (FetcherResponse (returned ex_updates_final))
     (quiet_world ∅)).2.

(** What the cache says of the remotes: the statuses of the nodes *)
Definition ex_statuses (d : dir) : list (string * (RemoteUpdateStatus * list (string * NodeUpdateStatus))) :=
  match cached d GLOBAL_NAMESPACE UPDATE_SUMMARY_CACHE_KEY with
  | Some e =>
      (λ p, (p.1, (update_status p.2, (λ q, (q.1, node_status q.2)) <$> map_to_list (update_nodes p.2))))
        <$> map_to_list (update_remotes (value e))
  | None => []
  end.
Lemma ex_refresh_statuses :
  ex_statuses (disk ex_refreshed)
  ≡ₚ [("a", (RemoteSuccess, [("n1", NodeSuccess); ("n2", NodeError)]));
      ("b", (RemoteSuccess, [("localhost", NodeSuccess)])); ("c", (RemoteError, []))].
Proof. apply (bool_decide_unpack _). vm_compute. exact I. Qed.

Lemma refresh_reflects_answers_witness :
  ∃ s, cached (disk ex_refreshed) GLOBAL_NAMESPACE UPDATE_SUMMARY_CACHE_KEY
       = Some {| timestamp := 101%Z; value := stored s |}
    ∧ (∀ id, is_Some (update_remotes s !! id) ↔ is_Some (sec_get ex_refresh_config id))
    ∧ (∀ id r, sec_get ex_refresh_config id = Some r →
         ∃ e, update_remotes s !! id = Some e ∧ reflects ex_nodes ex_now ex_node_answers id (remote_ty r) e).
Proof.
  apply (refresh_reflects_answers ex_fetcher ex_nodes ex_now ex_node_answers ex_refresh_config ex_updates_final
           (returned ex_updates_final) ex_arrivals id 101 (quiet_world ∅)).
  - intros r nodes. unfold ex_nodes. destruct (String.eqb r "a"); [| discriminate]. intros [= <-].
    apply (bool_decide_unpack _). vm_compute. exact I.
  - apply (run_actions_rtc _ _ _ _ ex_refresh_actions). vm_compute. reflexivity.
  - vm_compute. reflexivity.
  - reflexivity.
  - unfold ex_refreshed. rw {1}(surjective_pairing (refresh_update_summary_cache _ _ _ _ _)).
    f_equal.
Defined.

Definition ex_pbs_now : RemoteResponse NodeUpdateInfo :=
  {| rr_name := "a"; rr_type := Pbs; rr_nodes := Ok [] |}.
Definition ex_pve_then : UpdateSummary :=
  {| update_remotes := {[ "a" := new_summary Pve RemoteSuccess ]} |}.
Lemma refresh_keeps_type_witness :
  ∃ e', update_remotes (merge_responses [ex_pbs_now] ex_pve_then) !! "a" = Some e' ∧ update_type e' = Pve.
Proof.
  apply (refresh_keeps_type [ex_pbs_now] ex_pve_then "a" (new_summary Pve RemoteSuccess) ex_pbs_now);
    [apply NoDup_singleton | reflexivity | by left | reflexivity].
Defined.

Definition ex_updates_config : sec_data Remote :=
  <["a" := ex_remote "-"]> (<["x" := ex_remote "-"]> ∅ : gmap string Remote).
Lemma update_summary_shows_witness :
  ∃ s w', update_summary true (λ id, String.eqb id "a") (Ok ex_updates_config) ex_refreshed = (Ok s, w')
    ∧ disk w' = disk ex_refreshed ∧ update_remotes s !! "x" = None ∧ update_remotes s !! "b" = None.
Proof.
  destruct (update_summary true (λ id, String.eqb id "a") (Ok ex_updates_config) ex_refreshed)
    as [r w'] eqn:E.
  assert (is_ok r = true) as Hok by (apply (f_equal fst) in E; cbn [fst] in E; rw -E; vm_compute; reflexivity).
  destruct r as [s|]; [| discriminate].
  destruct (update_summary_shows true (λ id, String.eqb id "a") ex_updates_config ex_refreshed s w' E)
    as (_ & Hd & c & _ & Hs).
  exists s, w'. split; [reflexivity |]. split; [exact Hd |]. rw !Hs. split; reflexivity.
Defined.

Lemma node_result_cached_witness :
  ∃ w', update_cached_summary_for_node 7 "a" Pve "n2" (node_error_summary "timeout") ex_refreshed = (Ok (), w')
    ∧ ∃ s', cached (disk w') GLOBAL_NAMESPACE UPDATE_SUMMARY_CACHE_KEY
            = Some {| timestamp := 7%Z; value := stored s' |}.
Proof.
  destruct (update_cached_summary_for_node 7 "a" Pve "n2" (node_error_summary "timeout") ex_refreshed)
    as [r w'] eqn:E.
  assert (is_ok r = true) as Hok by (apply (f_equal fst) in E; cbn [fst] in E; rw -E; vm_compute; reflexivity).
  destruct r as [[]|]; [| discriminate].
  destruct (node_result_cached 7 "a" Pve "n2" (node_error_summary "timeout") ex_refreshed w' E)
    as (s & s' & _ & Hc & _).
  exists w'. split; [reflexivity |]. exists s'. exact Hc.
Defined.

(** A refresh of [a] alone: [b] becomes unknown. *)
Definition ex_b_config : sec_data Remote := <["b" := ex_remote "-"]> ∅ : gmap string Remote.
Lemma refresh_forgets_others_witness :
  update_remotes (summary_for ex_b_config
    (merge_responses [ex_pbs_now] {| update_remotes := {[ "b" := new_summary Pve RemoteSuccess ]} |})) !! "b"
  = Some (unknown_summary Pve).
Proof.
  apply (refresh_forgets_others ex_b_config [ex_pbs_now]
           {| update_remotes := {[ "b" := new_summary Pve RemoteSuccess ]} |} "b" (ex_remote "-")).
  - apply NoDup_singleton.
  - apply (bool_decide_unpack _). vm_compute. exact I.
  - reflexivity.
Defined.
