(* ===== verification/SdnClient.v ===== *)
(** * Changes of the network configuration of several remotes

    server/src/sdn_client.rs, with the workers of server/src/api/sdn/zones.rs and vnets.rs: the
    SDN configuration of all remotes involved is locked, changed and then applied; and the lists of
    zones, vnets and controllers.  What the
    program asks a remote is an [sdn_request], and a run is the sequence of the requests with their
    answers.  The remotes are the parameter [env], which answers from all that has happened, so
    nothing is assumed of what they do.

    Requests to different remotes run concurrently.  Each callback of the workers makes a single
    request, so what is left of the concurrency is the order: [shuffle] is the order of the
    requests of a phase, and [picks] says which task is polled next. *)
From S2P Require Import Prelude RustStr Remotes Disk RemotesConfig Fetcher.


(** [proxmox_client::Error] *)
Inductive client_error :=
| Api (status : Z) (msg : string)
| BadApi (msg : string)
| OtherClient (msg : string).

Inductive LockedSdnClientError :=
| LockClient (e : client_error)
| LockOther (msg : string).

Inductive sdn_error :=
| ConfigUnreadable (e : error)
| NoSuchNode (id : string)
| NotAPveRemote (id : string)
| LockingUnsupported (id : string)
| CouldNotLock (id : string)
| TransactionFailed
| ApplyFailed.

(** The fields the program sets; it leaves the others at [None]. *)
Record CreateVnet := {
  cv_vnet : string;
  cv_zone : string;
  cv_tag : option Z;
  cv_lock_token : option string;
}.
Record CreateZone := {
  cz_zone : string;
  cz_controller : option string;
  cz_vrf_vxlan : option Z;
  cz_lock_token : option string;
}.

(** [PveUpid]: its node and its text *)
Record PveTask := { task_node : string; task_text : string }.
Record TaskStatus := { is_running : bool; finished_successfully : option bool }.

(** ** Requests *)
Inductive sdn_request :=
| Connect (remote : string)     (* make_pve_client, see Connection *)
| AcquireSdnLock (remote : string) (allow_pending : option bool)
| CreateVnetAt (remote : string) (p : CreateVnet)
| CreateZoneAt (remote : string) (p : CreateZone)
| SdnApply (remote : string) (token : option string) (release_lock : option bool)
| ReleaseSdnLock (remote : string) (force : option bool) (token : option string)
| RollbackSdn (remote : string) (token : option string) (release_lock : option bool)
| GetTaskStatus (remote node upid : string).

Definition answer (q : sdn_request) : Type :=
  match q with
  | Connect _ => result string ()
  | AcquireSdnLock _ _ => result client_error string
  | CreateVnetAt _ _ | CreateZoneAt _ _ | ReleaseSdnLock _ _ _ | RollbackSdn _ _ _ =>
      result client_error ()
  | SdnApply _ _ _ => result client_error PveTask
  | GetTaskStatus _ _ _ => result client_error TaskStatus
  end.

Definition event : Type := sigT answer.

Definition Sdn (A : Type) : Type := list event → A * list event.
Global Instance Sdn_ret : MRet Sdn := λ _ a tr, (a, tr).
Global Instance Sdn_bind : MBind Sdn := λ _ _ f m tr, let '(a, tr') := m tr in f a tr'.

Fixpoint each {A B} (f : A → Sdn B) (l : list A) : Sdn (list B) :=
  match l with
  | [] => mret []
  | x :: l' => b ← f x; bs ← each f l'; mret (b :: bs)
  end.

(** [client] is the remote the client talks to. *)
Record LockedSdnClient := { lock_token : string; client : string }.
Record LockedSdnClientContext (C : Type) := { ctx_remote_id : string; ctx_data : C }.
Arguments ctx_remote_id {_} _.
Arguments ctx_data {_} _.

Section lookup.
Context `{SectionData Remote}.

(** [get_remote] of server/src/api/remotes/mod.rs and of server/src/api/pve/mod.rs *)
Definition get_remote (c : sec_data Remote) (id : string) : result sdn_error Remote :=
  ok_or (sec_get c id) (NoSuchNode id).
Definition pve_get_remote (c : sec_data Remote) (id : string) : result sdn_error Remote :=
  r ← get_remote c id;
  _ ← bail_if (bool_decide (remote_ty r ≠ Pve)) (NotAPveRemote id);
  Ok r.
End lookup.

Section sdn.
Context (env : ∀ q, list event → answer q).

Definition ask (q : sdn_request) : Sdn (answer q) := λ tr,
  let a := env q tr in (a, tr ++ [existT q a]).

(** ** One locked client *)
Definition locked_new (remote : Remote) (allow_pending : option bool)
    : Sdn (result LockedSdnClientError LockedSdnClient) :=
  c ← ask (Connect (remote_id remote));
  match c with
  | Err e => mret (Err (LockOther e))
  | Ok _ =>
      r ← ask (AcquireSdnLock (remote_id remote) allow_pending);
      mret (match r with
            | Ok t => Ok {| lock_token := t; client := remote_id remote |}
            | Err e => Err (LockClient e)
            end)
  end.

Definition client_create_vnet (c : LockedSdnClient) (p : CreateVnet) : Sdn (result client_error ()) :=
  ask (CreateVnetAt (client c)
         {| cv_vnet := cv_vnet p; cv_zone := cv_zone p; cv_tag := cv_tag p;
            cv_lock_token := Some (lock_token c) |}).
Definition client_create_zone (c : LockedSdnClient) (p : CreateZone) : Sdn (result client_error ()) :=
  ask (CreateZoneAt (client c)
         {| cz_zone := cz_zone p; cz_controller := cz_controller p; cz_vrf_vxlan := cz_vrf_vxlan p;
            cz_lock_token := Some (lock_token c) |}).

(** The client comes back with the result; it is the remote [client c]. *)
Definition client_apply_and_release (c : LockedSdnClient) : Sdn (result client_error PveTask) :=
  ask (SdnApply (client c) (Some (lock_token c)) (Some true)).
Definition client_release (force : option bool) (c : LockedSdnClient) : Sdn (result client_error ()) :=
  ask (ReleaseSdnLock (client c) force (Some (lock_token c))).
Definition client_rollback_and_release (c : LockedSdnClient) : Sdn (result client_error ()) :=
  ask (RollbackSdn (client c) (Some (lock_token c)) (Some true)).

(** ** Several of them *)
Section clients.
Context {C : Type} `{SectionData Remote} `{UpidEnv}.
Context (shuffle : nat → list (LockedSdnClient * LockedSdnClientContext C) →
                   list (LockedSdnClient * LockedSdnClientContext C)).

Abbreviation LockedSdnClients := (list (LockedSdnClient * LockedSdnClientContext C)).

(** The loop of [from_remote_names]; a name that is not configured leaves by [?]. *)
Fixpoint lock_remotes (cfg : sec_data Remote) (allow_pending : bool) (names : list (string * C))
    (clients : LockedSdnClients) : Sdn (result sdn_error LockedSdnClients) :=
  match names with
  | [] => mret (Ok clients)
  | (remote_name, context) :: names' =>
      match pve_get_remote cfg remote_name with
      | Err e => mret (Err e)
      | Ok remote =>
          r ← locked_new remote (Some allow_pending);
          match r with
          | Ok c =>
              lock_remotes cfg allow_pending names'
                (clients ++ [(c, {| ctx_remote_id := remote_name; ctx_data := context |})])
          | Err e =>
              _ ← each (λ p, client_release (Some false) p.1) clients;
              mret (Err (match e with
                         | LockClient (Api status _) =>
                             if (status =? 501)%Z then LockingUnsupported (remote_id remote)
                             else CouldNotLock (remote_id remote)
                         | _ => CouldNotLock (remote_id remote)
                         end))
          end
      end
  end.

(** [config] is what [pdm_config::remotes::config] returned. *)
Definition from_remote_names (config : result error (sec_data Remote * string))
    (names : list (string * C)) (allow_pending : bool) : Sdn (result sdn_error LockedSdnClients) :=
  match config with
  | Err e => mret (Err (ConfigUnreadable e))
  | Ok (cfg, _) =>
      r ← lock_remotes cfg allow_pending names [];
      mret (match r with
            | Ok clients =>
                Ok (sort_by (λ a b, String.compare (ctx_remote_id a.2) (ctx_remote_id b.2)) clients)
            | Err e => Err e
            end)
  end.

Definition sdn_for_each
    (callback : LockedSdnClient → LockedSdnClientContext C → Sdn (result client_error ()))
    (clients : LockedSdnClients) : Sdn (result sdn_error LockedSdnClients) :=
  results ← each (λ p, callback p.1 p.2) (shuffle 0 clients);
  if existsb (λ r, negb (is_ok r)) results then
    _ ← each (λ p, client_rollback_and_release p.1) (shuffle 1 clients);
    mret (Err TransactionFailed)
  else mret (Ok clients).

(** [poll_task] of one task, one round *)
Definition poll_round (remote node : string) (upid : RemoteUpid) : Sdn (option bool) :=
  r ← ask (GetTaskStatus remote node (ru_upid upid));
  mret (match r with
        | Err _ => Some false
        | Ok status =>
            if is_running status then None
            else Some (bool_decide (finished_successfully status = Some true))
        end).

(** The tasks that are polled: the remote of the client, the node and the upid *)
Abbreviation polled := (string * string * RemoteUpid)%type.

(** The second loop of [apply_and_release]: each pick is a round of a task that still runs; no
    picks are left when the result is [None]. *)
Fixpoint wait_reload (picks : list nat) (running : list polled) (errors : bool)
    : Sdn (option bool) :=
  match running with
  | [] => mret (Some errors)
  | _ =>
      match picks with
      | [] => mret None
      | k :: picks' =>
          let i := Nat.modulo k (length running) in
          match running !! i with
          | None => mret None
          | Some (remote, node, upid) =>
              r ← poll_round remote node upid;
              match r with
              | None => wait_reload picks' running errors
              | Some success => wait_reload picks' (delete i running) (errors || negb success)
              end
          end
      end
  end.

(** The first loop: a remote that could not apply, or whose upid is invalid, is only logged. *)
Definition reload_task (p : LockedSdnClient * LockedSdnClientContext C)
    : Sdn (option polled) :=
  r ← client_apply_and_release p.1;
  mret (match r with
        | Ok upid =>
            match try_from_pair (ctx_remote_id p.2) (task_text upid) with
            | Ok remote_upid => Some (client p.1, task_node upid, remote_upid)
            | Err _ => None
            end
        | Err _ => None
        end).

Definition sdn_apply_and_release (picks : list nat) (clients : LockedSdnClients)
    : Sdn (option (result sdn_error ())) :=
  tasks ← each reload_task (shuffle 2 clients);
  errors ← wait_reload picks (filter_map id tasks) false;
  mret (match errors with
        | None => None
        | Some true => Some (Err ApplyFailed)
        | Some false => Some (Ok ())
        end).

(** What the workers do: lock, change, apply *)
Definition transaction (config : result error (sec_data Remote * string)) (names : list (string * C))
    (callback : LockedSdnClient → LockedSdnClientContext C → Sdn (result client_error ()))
    (picks : list nat) : Sdn (option (result sdn_error ())) :=
  l ← from_remote_names config names false;
  match l with
  | Err e => mret (Some (Err e))
  | Ok clients =>
      c ← sdn_for_each callback clients;
      match c with
      | Err e => mret (Some (Err e))
      | Ok clients => sdn_apply_and_release picks clients
      end
  end.
End clients.

(** ** The workers *)
Record CreateZoneRemote := { czr_remote : string; czr_controller : string }.
Record CreateVnetRemote := { cvr_remote : string; cvr_zone : string }.

Definition create_zone_callback (zone : string) (vrf_vxlan : option Z) (c : LockedSdnClient)
    (ctx : LockedSdnClientContext CreateZoneRemote) : Sdn (result client_error ()) :=
  client_create_zone c
    {| cz_zone := zone; cz_controller := Some (czr_controller (ctx_data ctx));
       cz_vrf_vxlan := vrf_vxlan; cz_lock_token := None |}.
Definition create_vnet_callback (vnet : string) (tag : option Z) (c : LockedSdnClient)
    (ctx : LockedSdnClientContext CreateVnetRemote) : Sdn (result client_error ()) :=
  client_create_vnet c
    {| cv_vnet := vnet; cv_zone := cvr_zone (ctx_data ctx); cv_tag := tag; cv_lock_token := None |}.

Definition create_zone_worker `{SectionData Remote} `{UpidEnv} shuffle config (zone : string)
    (vrf_vxlan : option Z) (remotes : list CreateZoneRemote) (picks : list nat) :=
  transaction shuffle config ((λ r, (czr_remote r, r)) <$> remotes)
    (create_zone_callback zone vrf_vxlan) picks.
Definition create_vnet_worker `{SectionData Remote} `{UpidEnv} shuffle config (vnet : string)
    (tag : option Z) (remotes : list CreateVnetRemote) (picks : list nat) :=
  transaction shuffle config ((λ r, (cvr_remote r, r)) <$> remotes)
    (create_vnet_callback vnet tag) picks.
End sdn.

(** ** Lists *)

(** The filters of [RemoteIterator], in server/src/api/remotes/mod.rs *)
Definition iter_remote_type (ty : RemoteType) (l : list (string * Remote)) : list (string * Remote) :=
  base.filter (λ p, remote_ty p.2 = ty) l.
Definition iter_any_privs (lookup_privs : string → Z) (privs : Z) (l : list (string * Remote))
    : list (string * Remote) :=
  base.filter (λ p, Z.land (lookup_privs p.1) privs ≠ 0%Z) l.
Definition iter_name_filter (names : gset string) (l : list (string * Remote)) : list (string * Remote) :=
  base.filter (λ p, remote_id p.2 ∈ names) l.

(** The remotes that [list_zones], [list_vnets] and [list_controllers] ask *)
Definition sdn_remotes (config : list (string * Remote)) (lookup_privs : string → Z)
    (names : option (gset string)) (audit : Z) : list Remote :=
  let l := iter_any_privs lookup_privs audit (iter_remote_type Pve config) in
  (match names with Some f => iter_name_filter f l | None => l end).*2.

(** The objects of the remotes that answered, in the order of their names; [ListZone], [ListVnet]
    and [ListController] are pairs of a remote and an object. *)
Definition objects_of {T} (responses : list (RemoteResponse (list T))) : list (string * T) :=
  responses ≫= λ r,
    match rr_nodes r with
    | Ok [n] => match data n with Ok l => (λ x, (rr_name r, x)) <$> l | Err _ => [] end
    | _ => []
    end.

(** [any] says whether the caller has the privilege below /resource. *)
Definition list_objects {T} (any : bool) (config : result error (list (string * Remote)))
    (lookup_privs : string → Z) (names : option (gset string)) (audit : Z)
    (fetch : list Remote → list (RemoteResponse (list T))) : result error (list (string * T)) :=
  if negb any then Err (Error OtherIo ["user has no access to resources"%string])
  else
    config ← config;
    Ok (objects_of (fetch (sdn_remotes config lookup_privs names audit))).

(** ** What a run did *)

(** The locks that were obtained, with their tokens *)
Definition acquired_of (e : event) : option (string * string) :=
  match e with
  | existT q a =>
      match q return answer q → option (string * string) with
      | AcquireSdnLock r _ => λ a, match a with Ok t => Some (r, t) | Err _ => None end
      | _ => λ _, None
      end a
  end.
Definition acquired (l : list event) : list (string * string) := omap acquired_of l.

(** The requests that give a lock back, by releasing it, by rolling back or by applying, with the
    token and whether the remote did it.  A roll-back that ends in [BadApi] has been done: older
    versions answer it so. *)
Definition release_of (e : event) : option (string * string * bool) :=
  match e with
  | existT q a =>
      match q return answer q → option (string * string * bool) with
      | ReleaseSdnLock r _ (Some t) => λ a, Some (r, t, is_ok a)
      | RollbackSdn r (Some t) (Some true) => λ a,
          Some (r, t, match a with Ok _ | Err (BadApi _) => true | Err _ => false end)
      | SdnApply r (Some t) (Some true) => λ a, Some (r, t, is_ok a)
      | _ => λ _, None
      end a
  end.
Definition releases (l : list event) : list (string * string * bool) := omap release_of l.
Definition release_requests (l : list event) : list (string * string) := (releases l).*1.
(** The locks the remotes have given up *)
Definition given_back (l : list event) : list (string * string) :=
  omap (λ p, if p.2 : bool then Some p.1 else None) (releases l).

(** The changes, with the token they carry and whether they succeeded *)
Definition change_of (e : event) : option (string * option string * bool) :=
  match e with
  | existT q a =>
      match q return answer q → option (string * option string * bool) with
      | CreateVnetAt r p => λ a, Some (r, cv_lock_token p, is_ok a)
      | CreateZoneAt r p => λ a, Some (r, cz_lock_token p, is_ok a)
      | _ => λ _, None
      end a
  end.
Definition changes (l : list event) : list (string * option string * bool) := omap change_of l.

(** The remotes that were asked to apply their configuration, with the token *)
Definition apply_of (e : event) : option (string * option string) :=
  match projT1 e with SdnApply r t _ => Some (r, t) | _ => None end.
Definition applies (l : list event) : list (string * option string) := omap apply_of l.

(** *** Running *)
Definition runs {A} (m : Sdn A) (P : A → list event → Prop) : Prop :=
  ∀ tr, ∃ l, (m tr).2 = tr ++ l ∧ P (m tr).1 l.

Lemma runs_weaken {A} (m : Sdn A) (P Q : A → list event → Prop) :
  runs m P → (∀ a l, P a l → Q a l) → runs m Q.
Proof. intros Hm HPQ tr. destruct (Hm tr) as (l & Hl & HP). eauto. Qed.

Lemma runs_ret {A} (a : A) (P : A → list event → Prop) : P a [] → runs (mret a) P.
Proof. intros HP tr. exists []. by rw app_nil_r. Qed.

Lemma runs_bind {A B} (m : Sdn A) (f : A → Sdn B) (P : A → list event → Prop)
    (Q : B → list event → Prop) :
  runs m P → (∀ a l, P a l → runs (f a) (λ b l', Q b (l ++ l'))) → runs (m ≫= f) Q.
Proof.
  intros Hm Hf tr. unfold mbind, Sdn_bind. destruct (Hm tr) as (l & Hl & HP).
  destruct (m tr) as [a tr']. simpl in *. subst tr'.
  destruct (Hf a l HP (tr ++ l)) as (l' & Hl' & HQ). exists (l ++ l'). by rw app_assoc.
Qed.

Lemma runs_ask env q (P : answer q → list event → Prop) :
  (∀ a, P a [existT q a]) → runs (ask env q) P.
Proof. intros HP tr. eexists. split; [done | apply HP]. Qed.

Lemma runs_each {A B} (f : A → Sdn B) (P : A → B → list event → Prop)
    (I : list A → list B → list event → Prop) l :
  I [] [] [] →
  (∀ x l' b bs t ts, P x b t → I l' bs ts → I (x :: l') (b :: bs) (t ++ ts)) →
  (∀ x, runs (f x) (P x)) → runs (each f l) (I l).
Proof.
  intros Hnil Hcons Hf. induction l as [|x l IH]; simpl; [by apply runs_ret |].
  eapply runs_bind; [apply Hf |]. intros b t Ht. eapply runs_bind; [apply IH |].
  intros bs ts Hts. apply runs_ret. rw app_nil_r. by apply Hcons.
Qed.

(** All that matters of a run *)
Record does (l : list event) (acq back : list (string * string))
    (ch : list (string * option string * bool)) (ap : list (string * option string)) : Prop := {
  does_acquired : acquired l = acq;
  does_release_requests : release_requests l = back;
  does_changes : changes l = ch;
  does_applies : applies l = ap;
}.

Lemma does_nil : does [] [] [] [] [].
Proof. done. Qed.
Lemma does_app l acq back ch ap l' acq' back' ch' ap' :
  does l acq back ch ap → does l' acq' back' ch' ap' →
  does (l ++ l') (acq ++ acq') (back ++ back') (ch ++ ch') (ap ++ ap').
Proof.
  intros [] []. split; unfold acquired, release_requests, releases, changes, applies in *; rw ?omap_app ?fmap_app; congruence.
Qed.

Section facts.
Context (env : ∀ q, list event → answer q).
Context {C : Type} `{SectionData Remote} `{UpidEnv}.
Abbreviation locked := (list (LockedSdnClient * LockedSdnClientContext C)).

(** The locks that clients hold *)
Definition lock_of (p : LockedSdnClient * LockedSdnClientContext C) : string * string :=
  (client p.1, lock_token p.1).
Definition with_token (p : string * string) : string * option string := (p.1, Some p.2).

(** A callback that makes one change, with the token of its client *)
Definition changes_once
    (callback : LockedSdnClient → LockedSdnClientContext C → Sdn (result client_error ())) : Prop :=
  ∀ c ctx, runs (callback c ctx) (λ r l, does l [] [] [(client c, Some (lock_token c), is_ok r)] []).

Lemma locked_new_does remote ap :
  runs (locked_new env remote ap)
    (λ r l, match r with
            | Ok c => client c = remote_id remote ∧ does l [(client c, lock_token c)] [] [] []
            | Err _ => does l [] [] [] []
            end).
Proof.
  eapply runs_bind; [by apply (runs_ask _ _ (λ a l, l = [existT (Connect (remote_id remote)) a])) |].
  intros [[]|e] l ->; [| by apply runs_ret].
  eapply runs_bind;
    [by apply (runs_ask _ _ (λ a l, l = [existT (AcquireSdnLock (remote_id remote) ap) a])) |].
  intros [t|e] l ->; by apply runs_ret.
Qed.

(** Asking to give locks back, one request each *)
Lemma give_back_does {B} (f : LockedSdnClient * LockedSdnClientContext C → Sdn B) ap (cs : locked) :
  (∀ p, runs (f p) (λ _ l, does l [] [lock_of p] [] (ap p))) →
  runs (each f cs) (λ _ l, does l [] (lock_of <$> cs) [] (cs ≫= ap)).
Proof.
  intros Hf. apply (runs_each f (λ p _ l, does l [] [lock_of p] [] (ap p))
                      (λ cs _ l, does l [] (lock_of <$> cs) [] (cs ≫= ap))); [done | | done].
  intros p cs' b bs t ts Hp Hcs. by pose proof (does_app _ _ _ _ _ _ _ _ _ _ Hp Hcs).
Qed.

Lemma lock_remotes_does cfg allow_pending (names : list (string * C)) clients :
  runs (lock_remotes env cfg allow_pending names clients)
    (λ r l,
      match r with
      | Ok cs =>
          ∃ new, cs = clients ++ new ∧ does l (lock_of <$> new) [] [] []
            ∧ (λ p, (ctx_remote_id p.2, ctx_data p.2)) <$> new = names
            ∧ Forall (λ p, ∃ remote, pve_get_remote cfg (ctx_remote_id p.2) = Ok remote
                                     ∧ client p.1 = remote_id remote) new
      | Err _ =>
          ∃ acq back, does l acq back [] []
            ∧ (Forall (λ n, is_ok (pve_get_remote cfg n.1) = true) names →
               back = (lock_of <$> clients) ++ acq)
      end).
Proof.
  revert clients. induction names as [|[name ctx] names IH]; intros clients; cbn [lock_remotes].
  { apply runs_ret. exists []. by rw app_nil_r. }
  destruct (pve_get_remote cfg name) as [remote|e] eqn:Hr.
  2:{ apply runs_ret. exists [], []. split; [done |]. intros [Hok _]%Forall_cons. by rw Hr in Hok. }
  eapply runs_bind; [apply locked_new_does |]. intros [c|e] l Hl.
  - destruct Hl as [Hc Hl]. eapply runs_weaken; [apply IH |]. intros [cs|e] l' Hl'.
    + destruct Hl' as (new & -> & Hd & Hn & Hf).
      exists ((c, {| ctx_remote_id := name; ctx_data := ctx |}) :: new). rw -app_assoc.
      split_and!; [done | by apply (does_app _ _ _ _ _ _ _ _ _ _ Hl Hd) | by rw -Hn |].
      constructor; [by exists remote | done].
    + destruct Hl' as (acq & back & Hd & Hb). exists ((client c, lock_token c) :: acq), back.
      split; [by apply (does_app _ _ _ _ _ _ _ _ _ _ Hl Hd) |].
      intros [_ Hok]%Forall_cons. rw (Hb Hok) fmap_app. by rw -app_assoc.
  - eapply runs_bind;
      [apply (give_back_does _ (λ _, [])); intros p; by apply runs_ask |].
    intros bs l' Hl'. apply runs_ret. exists [], (lock_of <$> clients). rw !app_nil_r. split; [| done].
    pose proof (does_app _ _ _ _ _ _ _ _ _ _ Hl Hl') as Hd. simpl in Hd.
    assert ((clients ≫= λ _, []) = @nil (string * option string)) as E
      by (clear; induction clients; done). by rw E in Hd.
Qed.

Context (shuffle : nat → locked → locked) (shuffle_perm : ∀ n l, shuffle n l ≡ₚ l).

Lemma from_remote_names_does cfg digest (names : list (string * C)) allow_pending :
  runs (from_remote_names env (Ok (cfg, digest)) names allow_pending)
    (λ r l,
      match r with
      | Ok cs =>
          does l (acquired l) [] [] [] ∧ lock_of <$> cs ≡ₚ acquired l
          ∧ (λ p, (ctx_remote_id p.2, ctx_data p.2)) <$> cs ≡ₚ names
          ∧ Forall (λ p, ∃ remote, pve_get_remote cfg (ctx_remote_id p.2) = Ok remote
                                   ∧ client p.1 = remote_id remote) cs
      | Err e =>
          does l (acquired l) (release_requests l) [] []
          ∧ (Forall (λ n, is_ok (pve_get_remote cfg n.1) = true) names → release_requests l = acquired l)
      end).
Proof.
  eapply runs_bind; [apply lock_remotes_does |]. intros [cs|e] l Hl; apply runs_ret; rw app_nil_r.
  - destruct Hl as (new & -> & Hd & Hn & Hf). simpl app.
    match goal with |- context [sort_by ?cmp new] => pose proof (sort_by_perm cmp new) as Hp end.
    cbv beta iota. rw (does_acquired _ _ _ _ _ Hd).
    split_and!; [done | by apply fmap_Permutation | rw -Hn; by apply fmap_Permutation |].
    by rw Hp.
  - destruct Hl as (acq & back & Hd & Hb).
    rw (does_acquired _ _ _ _ _ Hd) (does_release_requests _ _ _ _ _ Hd). done.
Qed.

Section callback.
Context (callback : LockedSdnClient → LockedSdnClientContext C → Sdn (result client_error ())).
Context (Hcallback : changes_once callback).

Lemma callbacks_does (cs : locked) :
  runs (each (λ p, callback p.1 p.2) cs)
    (λ rs l, does l [] [] (zip_with (λ p r, (with_token (lock_of p), is_ok r)) cs rs) []
             ∧ length rs = length cs).
Proof.
  apply (runs_each _ (λ p r l, does l [] [] [(with_token (lock_of p), is_ok r)] [])
           (λ cs rs l, does l [] [] (zip_with (λ p r, (with_token (lock_of p), is_ok r)) cs rs) []
                       ∧ length rs = length cs)); [done | | intros p; apply Hcallback].
  intros p cs' r rs t ts Hp [Hcs Hlen]. split; [| simpl; by f_equal].
  by apply (does_app _ _ _ _ _ _ _ _ _ _ Hp Hcs).
Qed.

(** The changes that are made with the locks of [cs] *)
Definition changes_for (cs : locked) (ch : list (string * option string * bool)) : Prop :=
  ch.*1 ≡ₚ with_token ∘ lock_of <$> cs.

Lemma sdn_for_each_does cs :
  runs (sdn_for_each env shuffle callback cs)
    (λ r l,
      match r with
      | Ok cs' => cs' = cs ∧ does l [] [] (changes l) [] ∧ changes_for cs (changes l)
                  ∧ (changes l).*2 = replicate (length cs) true
      | Err e => does l [] (release_requests l) (changes l) [] ∧ changes_for cs (changes l)
                 ∧ release_requests l ≡ₚ lock_of <$> cs
      end).
Proof.
  eapply runs_bind; [apply callbacks_does |]. intros rs l [Hl Hlen].
  assert (Hfor : changes_for cs (changes l)).
  { unfold changes_for. rw (does_changes _ _ _ _ _ Hl).
    transitivity (with_token ∘ lock_of <$> shuffle 0 cs); [| by apply fmap_Permutation].
    clear -Hlen. revert rs Hlen. induction (shuffle 0 cs) as [|p l IH]; intros [|r rs]; simpl; try done.
    intros [= Hlen]. f_equiv. by apply IH. }
  destruct (existsb _ _) eqn:He.
  - eapply runs_bind; [apply (give_back_does _ (λ _, [])); intros p; by apply runs_ask |].
    intros bs l' Hl'. apply runs_ret. rw app_nil_r.
    pose proof (does_app _ _ _ _ _ _ _ _ _ _ Hl Hl') as Hd. rw app_nil_r in Hd.
    assert ((shuffle 1 cs ≫= λ _, []) = @nil (string * option string)) as E
      by (clear; induction (shuffle 1 cs); done). rw E in Hd. clear E.
    rw (does_changes _ _ _ _ _ Hd) (does_release_requests _ _ _ _ _ Hd) !app_nil_r.
    rw -(does_changes _ _ _ _ _ Hl). split_and!; [| done | by apply fmap_Permutation].
    rw (does_changes _ _ _ _ _ Hl). move: Hd. by rw !app_nil_r.
  - apply runs_ret. rw app_nil_r. split_and!; [done | | done |].
    + by rw (does_changes _ _ _ _ _ Hl).
    + rw (does_changes _ _ _ _ _ Hl) -(Permutation_length (shuffle_perm 0 cs)).
      clear -Hlen He. revert rs Hlen He.
      induction (shuffle 0 cs) as [|p l IH]; intros [|[[]|e] rs]; simpl; try done.
      intros [= Hlen] He. f_equal. by apply IH.
Qed.
End callback.

Lemma wait_reload_does picks running errors :
  runs (wait_reload env picks running errors) (λ _ l, does l [] [] [] []).
Proof.
  revert running errors. induction picks as [|k picks IH]; intros [|x running] errors; cbn [wait_reload];
    try by apply runs_ret.
  destruct ((x :: running) !! _) as [[[remote node] u]|]; [| by apply runs_ret].
  eapply (runs_bind _ _ (λ _ l, does l [] [] [] [])).
  - eapply runs_bind; [by apply (runs_ask _ _ (λ _ l, does l [] [] [] [])) |].
    intros a l Hl. apply runs_ret. by rw app_nil_r.
  - intros [b|] l Hl; (eapply runs_weaken; [apply IH |]);
      intros a l' Hl'; by apply (does_app _ _ _ _ _ _ _ _ _ _ Hl Hl').
Qed.

Lemma sdn_apply_does picks cs :
  runs (sdn_apply_and_release env shuffle picks cs)
    (λ _ l, does l [] (release_requests l) [] (applies l) ∧ release_requests l ≡ₚ lock_of <$> cs
            ∧ applies l ≡ₚ with_token ∘ lock_of <$> cs).
Proof.
  eapply runs_bind.
  { apply (give_back_does _ (λ p, [with_token (lock_of p)])). intros p.
    eapply runs_bind;
      [by apply (runs_ask _ _ (λ _ l, does l [] [lock_of p] [] [with_token (lock_of p)])) |].
    intros a l Hl. apply runs_ret. by rw app_nil_r. }
  intros tasks l Hl. eapply runs_bind; [apply wait_reload_does |]. intros errors l' Hl'.
  apply runs_ret. rw app_nil_r. pose proof (does_app _ _ _ _ _ _ _ _ _ _ Hl Hl') as Hd.
  rw !app_nil_r in Hd. rw (does_release_requests _ _ _ _ _ Hd) (does_applies _ _ _ _ _ Hd).
  split_and!; [done | by apply fmap_Permutation |].
  transitivity (with_token ∘ lock_of <$> shuffle 2 cs); [| by apply fmap_Permutation]. clear. by induction (shuffle 2 cs); simpl; f_equiv.
Qed.
End facts.
