(* ===== verification/SdnProps.v ===== *)
(** * Theorems on the changes of the network configuration

    Every lock that is obtained is given back, a change is applied nowhere unless it was made
    everywhere, and a transaction ends when the tasks of the remotes do; with what happens when a
    remote is not configured, or cannot apply its configuration. *)
From stdpp Require Import relations.
From S2P Require Import Prelude RustStr Remotes Disk RemotesConfig Fetcher FetcherProps Examples SdnClient TaskArchive TaskExample.

#[local] Open Scope nat_scope.

Lemma create_zone_changes env zone vrf_vxlan :
  changes_once (create_zone_callback env zone vrf_vxlan).
Proof. intros c ctx. by apply runs_ask. Qed.
Lemma create_vnet_changes env vnet tag : changes_once (create_vnet_callback env vnet tag).
Proof. intros c ctx. by apply runs_ask. Qed.

Section transaction.
Context (env : ∀ q, list event → answer q).
Context {C : Type} `{SectionData Remote} `{UpidEnv}.
Context (shuffle : nat → list (LockedSdnClient * LockedSdnClientContext C) →
                   list (LockedSdnClient * LockedSdnClientContext C)).
Context (callback : LockedSdnClient → LockedSdnClientContext C → Sdn (result client_error ())).

Lemma given_back_all l : Forall (λ p, p.2 = true) (releases l) → given_back l = release_requests l.
Proof.
  unfold given_back, release_requests. induction 1 as [|[p b] r Hb _ IH]; simpl in *; [done |]. rw Hb. by f_equal.
Qed.

(** C16: for each lock that a transaction obtained, the remote is asked exactly once and with the
    token of the lock to give it up, by a request to release it, to roll the changes back or to
    apply them, whatever the remotes answer and in whatever order they do; provided that all the
    names are configured PVE remotes.  The locks that are gone in the end are those whose request
    succeeded: a remote that refuses keeps its lock, and all locks are gone if none refuses. *)
Theorem locks_given_back cfg digest (names : list (string * C)) picks :
  (∀ n l, shuffle n l ≡ₚ l) → changes_once callback →
  Forall (λ n, is_ok (pve_get_remote cfg n.1) = true) names →
  runs (transaction env shuffle (Ok (cfg, digest)) names callback picks)
    (λ _ l, release_requests l ≡ₚ acquired l
            ∧ (Forall (λ p, p.2 = true) (releases l) → given_back l ≡ₚ acquired l)).
Proof.
  intros Hs Hc Hn. eapply runs_weaken with (P := λ _ l, release_requests l ≡ₚ acquired l);
    [| by intros _ l Hl; split; [| intros Hall; rw given_back_all]].
  eapply runs_bind; [by apply from_remote_names_does |]. intros [cs|e] l Hl.
  2:{ destruct Hl as [_ Hb]. apply runs_ret. rw app_nil_r. by rw (Hb Hn). }
  destruct Hl as (Hd & Hp & _). eapply runs_bind; [by apply sdn_for_each_does |].
  intros [cs'|e] l' Hl'.
  - destruct Hl' as (-> & Hd' & _). eapply runs_weaken; [by apply sdn_apply_does |].
    intros out l'' (Hd'' & Hb & _).
    pose proof (does_app _ _ _ _ _ _ _ _ _ _ Hd (does_app _ _ _ _ _ _ _ _ _ _ Hd' Hd'')) as [E1 E2 _ _].
    rw E1 E2 !app_nil_r Hb. exact Hp.
  - destruct Hl' as (Hd' & _ & Hb). apply runs_ret. rw app_nil_r.
    pose proof (does_app _ _ _ _ _ _ _ _ _ _ Hd Hd') as [E1 E2 _ _]. rw E1 E2 !app_nil_r Hb. exact Hp.
Qed.

Lemma changes_carry_tokens (cs : list (LockedSdnClient * LockedSdnClientContext C)) ch acq :
  changes_for cs ch → lock_of <$> cs ≡ₚ acq →
  ∀ r t ok, (r, t, ok) ∈ ch → ∃ tok, t = Some tok ∧ (r, tok) ∈ acq.
Proof.
  intros Hch Hacq r t ok Hin. apply (list_elem_of_fmap_2 fst) in Hin. rw Hch in Hin. simpl in Hin.
  apply list_elem_of_fmap in Hin as (p & [= -> ->] & Hp). exists (lock_token p.1). split; [done |].
  rw -Hacq. apply list_elem_of_fmap. by exists p.
Qed.

Lemma all_succeeded (ch : list (string * option string * bool)) n :
  ch.*2 = replicate n true → ch = (λ x, (x, true)) <$> ch.*1.
Proof.
  revert n. induction ch as [|[x b] ch IH]; intros [|n]; simpl; try done.
  intros [= -> Hch]. f_equal. by eapply IH.
Qed.

Lemma locked_names cfg (names : list (string * C)) cs : keyed cfg →
  (λ p, (ctx_remote_id p.2, ctx_data p.2)) <$> cs ≡ₚ names →
  Forall (λ p, ∃ remote, pve_get_remote cfg (ctx_remote_id p.2) = Ok remote
                         ∧ client p.1 = remote_id remote) cs →
  (lock_of <$> cs).*1 ≡ₚ names.*1.
Proof.
  intros Hk Hn Hf. rw -Hn -!list_fmap_compose. apply reflexive_eq, list_fmap_ext.
  intros i [c ctx] (remote & Hr & Hc)%(Forall_lookup_1 _ _ _ _ Hf). simpl in *. rw Hc. apply Hk.
  unfold pve_get_remote, get_remote in Hr. destruct (sec_get cfg (ctx_remote_id ctx)); [| done].
  simpl in Hr. unfold bail_if in Hr. destruct (bool_decide _); naive_solver.
Qed.

(** C17: a transaction is all or nothing up to the point where it is applied.  Each change carries
    the token of a lock on its remote; and once some remote is asked to apply its configuration,
    or success is reported, every named remote has been locked, has been changed with success,
    and is asked to apply, each exactly once and with its own token. *)
Theorem applied_everywhere_or_nowhere cfg digest (names : list (string * C)) picks :
  (∀ n l, shuffle n l ≡ₚ l) → changes_once callback → keyed cfg →
  runs (transaction env shuffle (Ok (cfg, digest)) names callback picks)
    (λ out l,
      (∀ r t ok, (r, t, ok) ∈ changes l → ∃ tok, t = Some tok ∧ (r, tok) ∈ acquired l)
      ∧ (applies l ≠ [] ∨ out = Some (Ok ()) →
         (acquired l).*1 ≡ₚ names.*1
         ∧ changes l ≡ₚ (λ p, (with_token p, true)) <$> acquired l
         ∧ applies l ≡ₚ with_token <$> acquired l)).
Proof.
  intros Hs Hc Hk. eapply runs_bind; [by apply from_remote_names_does |]. intros [cs|e] l Hl.
  2:{ destruct Hl as [[_ _ Hch Hap] _]. apply runs_ret. rw app_nil_r Hch Hap.
      split; [by intros ??? ?%not_elem_of_nil | by intros [|]]. }
  destruct Hl as (Hd & Hp & Hn & Hf). eapply runs_bind; [by apply sdn_for_each_does |].
  intros [cs'|e] l' Hl'.
  - destruct Hl' as (-> & Hd' & Hch & Hok). eapply runs_weaken; [by apply sdn_apply_does |].
    intros out l'' (Hd'' & _ & Hap).
    pose proof (does_app _ _ _ _ _ _ _ _ _ _ Hd (does_app _ _ _ _ _ _ _ _ _ _ Hd' Hd''))
      as [E1 _ E3 E4]. rw E1 E3 E4 !app_nil_r. simpl app.
    split; [by eapply changes_carry_tokens |]. intros _. split_and!.
    + by rw -Hp (locked_names _ _ _ Hk Hn Hf).
    + rw (all_succeeded _ _ Hok) Hch -Hp -!list_fmap_compose. done.
    + rw Hap -Hp -list_fmap_compose. done.
  - destruct Hl' as (Hd' & Hch & _). apply runs_ret. rw app_nil_r.
    pose proof (does_app _ _ _ _ _ _ _ _ _ _ Hd Hd') as [E1 _ E3 E4]. rw E1 E3 E4 !app_nil_r. simpl app.
    split; [by eapply changes_carry_tokens | by intros [|]].
Qed.

(** *** It ends *)

(** How often the status of a task has been asked for *)
Definition asked (remote node upid : string) (l : list event) : nat :=
  sum_list_with (λ e, match projT1 e with
                      | GetTaskStatus r n u =>
                          if bool_decide ((r, n, u) = (remote, node, upid)) then 1 else 0
                      | _ => 0
                      end) l.

(** A task does not run any more when it has been asked for [N] times; nodes may fail to answer. *)
Definition tasks_end (N : nat) : Prop :=
  ∀ remote node upid l, N ≤ asked remote node upid l →
    match env (GetTaskStatus remote node upid) l with
    | Ok status => is_running status = false
    | Err _ => True
    end.

(** The rounds a task can still take *)
Definition rounds (N : nat) (l : list event) (p : string * string * RemoteUpid) : nat :=
  S (N - asked p.1.1 p.1.2 (ru_upid p.2) l).

Lemma asked_app remote node upid l e : asked remote node upid l ≤ asked remote node upid (l ++ [e]).
Proof. unfold asked. rw sum_list_with_app. lia. Qed.
Lemma asked_self remote node upid l a :
  asked remote node upid (l ++ [existT (GetTaskStatus remote node upid) a])
  = S (asked remote node upid l).
Proof. unfold asked. rw sum_list_with_app. simpl. rw bool_decide_eq_true_2 //. lia. Qed.

Lemma rounds_le N l e running :
  sum_list_with (rounds N (l ++ [e])) running ≤ sum_list_with (rounds N l) running.
Proof.
  apply sum_le. intros p. apply le_n_S, Nat.sub_le_mono_l, asked_app.
Qed.

(** A pick uses up a round. *)
Lemma wait_reload_ends N picks running errors l :
  tasks_end N → sum_list_with (rounds N l) running ≤ length picks →
  (wait_reload env picks running errors l).1 ≠ None.
Proof.
  intros Hend. revert running errors l.
  induction picks as [|k picks IH]; intros [|x running] errors l Hle; cbn [wait_reload]; try done.
  { simpl in Hle. lia. }
  assert (k `mod` length (x :: running) < length (x :: running)) as Hk
    by (apply Nat.mod_upper_bound; done).
  apply lookup_lt_is_Some_2 in Hk as [[[remote node] u] Hx].
  remember (x :: running) as rs eqn:Hrs. clear Hrs x running. cbv zeta. rw Hx.
  revert Hle. rw {1}(delete_Permutation _ _ _ Hx). cbn [sum_list_with]. unfold rounds at 1. cbn [fst snd].
  set (i := k `mod` length rs) in *. clearbody i. intros Hle. cbn [length] in Hle.
  unfold poll_round, ask, mbind, Sdn_bind, mret, Sdn_ret.
  specialize (Hend remote node (ru_upid u) l).
  pose proof (rounds_le N l (existT (GetTaskStatus remote node (ru_upid u))
    (env (GetTaskStatus remote node (ru_upid u)) l)) (delete i rs)) as Hrest.
  pose proof (asked_self remote node (ru_upid u) l (env (GetTaskStatus remote node (ru_upid u)) l)) as Hself.
  destruct (env (GetTaskStatus remote node (ru_upid u)) l) as [status|e]; [| apply IH; etransitivity; [apply Hrest | lia]].
  destruct (is_running status) eqn:Hr; [| apply IH; etransitivity; [apply Hrest | lia]].
  apply IH. rw (delete_Permutation _ _ _ Hx). cbn [sum_list_with]. unfold rounds at 1. cbn [fst snd].
  destruct (decide (N ≤ asked remote node (ru_upid u) l)) as [HN|HN]; [by apply Hend in HN |].
  etransitivity; [apply Nat.add_le_mono_l, Hrest |]. rw Hself. lia.
Qed.

Lemma each_length {A B} (f : A → Sdn B) l tr : length (each f l tr).1 = length l.
Proof.
  revert tr. induction l as [|x l IH]; intros tr; [done |]. cbn [each]. unfold mbind, Sdn_bind.
  destruct (f x tr) as [b tr1]. specialize (IH tr1). destruct (each f l tr1) as [bs tr2].
  simpl in *. by f_equal.
Qed.

Lemma filter_map_id_length {A} (l : list (option A)) : length (filter_map id l) ≤ length l.
Proof. induction l as [|[] l IH]; simpl; lia. Qed.

(** C40: a transaction comes to an end.  When a task has stopped after its status was asked for
    [N] times, then a transaction over [n] remotes has its result after at most [n * (N + 1)]
    rounds of polling, whatever the order of the rounds and whatever else the remotes answer. *)
Theorem transaction_ends N config (names : list (string * C)) picks tr :
  (∀ n l, shuffle n l ≡ₚ l) → changes_once callback → tasks_end N →
  length names * S N ≤ length picks →
  (transaction env shuffle config names callback picks tr).1 ≠ None.
Proof.
  intros Hs Hc Hend Hlen. unfold transaction. destruct config as [[cfg digest]|e]; [| done].
  unfold mbind, Sdn_bind.
  destruct (from_remote_names_does env cfg digest names false tr) as (l1 & _ & Hl1).
  destruct (from_remote_names _ _ _ _ _) as [[cs|e] tr1]; [| done]. simpl in Hl1.
  destruct Hl1 as (_ & _ & Hn%Permutation_length & _). rw length_fmap in Hn.
  destruct (sdn_for_each_does env shuffle Hs callback Hc cs tr1) as (l2 & _ & Hl2).
  destruct (sdn_for_each _ _ _ _ _) as [[cs'|e] tr2]; [| done]. destruct Hl2 as [-> _].
  unfold sdn_apply_and_release, mbind, Sdn_bind.
  pose proof (each_length (reload_task env (C:=C)) (shuffle 2 cs) tr2) as Htasks.
  destruct (each _ _ _) as [tasks tr3]. simpl in Htasks. rw (Permutation_length (Hs 2 cs)) in Htasks.
  assert ((wait_reload env picks (filter_map id tasks) false tr3).1 ≠ None) as Hw.
  { apply (wait_reload_ends N); [done |]. etransitivity; [| exact Hlen]. rw -Hn -Htasks.
    etransitivity; [| apply Nat.mul_le_mono_r, filter_map_id_length].
    clear. induction (filter_map id tasks) as [|p l IH]; [done |]. cbn [sum_list_with length].
    assert (rounds N tr3 p ≤ S N) by (unfold rounds; lia). lia. }
  destruct (wait_reload _ _ _ _ _) as [[[]|] tr4]; by simpl in *.
Qed.
End transaction.

(** *** Lists *)
Lemma objects_of_elem {T} (responses : list (RemoteResponse (list T))) remote x :
  (remote, x) ∈ objects_of responses ↔
  ∃ r n l, r ∈ responses ∧ rr_nodes r = Ok [n] ∧ data n = Ok l ∧ rr_name r = remote ∧ x ∈ l.
Proof.
  unfold objects_of. rw list_elem_of_bind. split.
  - intros (r & Hx & Hr). destruct (rr_nodes r) as [[|n []]|] eqn:En; try by apply not_elem_of_nil in Hx.
    destruct (data n) as [l|] eqn:El; [| by apply not_elem_of_nil in Hx].
    apply list_elem_of_fmap in Hx as (y & [= -> ->] & Hy). by exists r, n, l.
  - intros (r & n & l & Hr & En & El & <- & Hx). exists r. split; [| done]. rw En El.
    apply list_elem_of_fmap. by exists x.
Qed.

Lemma sdn_remotes_elem config lookup_privs names audit r :
  r ∈ sdn_remotes config lookup_privs names audit ↔
  ∃ name, (name, r) ∈ config ∧ remote_ty r = Pve ∧ Z.land (lookup_privs name) audit ≠ 0%Z
          ∧ (∀ f, names = Some f → remote_id r ∈ f).
Proof.
  unfold sdn_remotes, iter_name_filter, iter_any_privs, iter_remote_type. rw list_elem_of_fmap.
  split.
  - intros ([name r'] & -> & Hin). exists name. destruct names as [f|]; simpl.
    + rw !list_elem_of_filter in Hin. naive_solver.
    + rw !list_elem_of_filter in Hin. naive_solver.
  - intros (name & Hin & Ht & Hp & Hf). exists (name, r). split; [done |].
    destruct names as [f|]; rw !list_elem_of_filter; naive_solver.
Qed.

(** a list of zones, vnets or controllers shows what the caller may see, and all of it.  When
    the requests have run, in whatever order, an object is listed for a remote if and only if this
    is a configured PVE remote on which the caller has the privilege, which is among the remotes
    asked for, and which answered with this object. *)
Theorem sdn_listing_exact {T} F list_nodes (call : string → RemoteType → string → option (result string (list T)))
    config lookup_privs names audit st joined remote x :
  let targets := (λ r, (remote_id r, remote_ty r)) <$> sdn_remotes config lookup_privs names audit in
  NoDup targets.*1 → rtc (steps_to SingleNode F list_nodes call) (start F targets) st →
  all_ended st = true → joined ≡ₚ returned st →
  (∃ l, list_objects true (Ok config) lookup_privs names audit (λ _, FetcherResponse joined) = Ok l
        ∧ (remote, x) ∈ l)
  ↔ ∃ name r l, (name, r) ∈ config ∧ remote_ty r = Pve ∧ Z.land (lookup_privs name) audit ≠ 0%Z
      ∧ (∀ f, names = Some f → remote_id r ∈ f) ∧ remote = remote_id r
      ∧ call remote Pve "localhost" = Some (Ok l) ∧ x ∈ l.
Proof.
  intros targets Hnd Hinv%reachable_inv Hend Hj.
  assert ((remote, x) ∈ objects_of (FetcherResponse joined) ↔ (remote, x) ∈ objects_of joined) as E.
  { rw !objects_of_elem. unfold FetcherResponse. setoid_rewrite (sort_by_perm compare_responses joined). done. }
  transitivity ((remote, x) ∈ objects_of joined); [rw -E; unfold list_objects; simpl; naive_solver |]. clear E.
  rw objects_of_elem. split.
  - intros (r & n & l & Hr & En & El & Hn & Hx).
    destruct (joined_expected _ _ _ _ _ _ _ _ Hinv Hj Hr) as (id & ty & Hin & Hid & _ & n' & Hf & En').
    rw En in En'. injection En' as <-. apply list_elem_of_fmap in Hin as (rem & [= -> ->] & Hrem).
    apply sdn_remotes_elem in Hrem as (name & Hc & Ht & Hp & Hnames). exists name, rem, l.
    unfold fetch_node in Hf. rw Ht in Hf. subst remote. rw Hid.
    destruct (call _ Pve _) as [y|]; [| done]. injection Hf as <-. simpl in El. subst y. done.
  - intros (name & rem & l & Hc & Ht & Hp & Hnames & -> & Hcall & Hx).
    assert ((remote_id rem, Pve) ∈ targets) as Hin.
    { rw -Ht. apply (list_elem_of_fmap_2 (λ r, (remote_id r, remote_ty r))).
      apply sdn_remotes_elem. by exists name. }
    destruct (joined_complete _ _ _ _ _ _ _ _ _ Hinv Hend Hj Hin) as [(r & Hr & Hid & _ & n & Hf & En)|[_ E]];
      [| by rw Hcall in E].
    unfold fetch_node in Hf. rw Hcall in Hf. injection Hf as <-. by exists r, (Build_NodeResponse "localhost" (Ok l)), l.
Qed.

(** *** Concrete transactions *)
Definition ex_pve (id : string) : Remote :=
  {| remote_ty := Pve; remote_id := id; remote_urls := []; authid := "root@pam!pdm"; token := "-";
     web_url := None |}.
Definition ex_sdn_config : sec_data Remote :=
  <["b"%string := ex_pve "b"]> (<["a"%string := ex_pve "a"]> ∅ : gmap string Remote).

(** Remotes that do what they are asked, apart from what [broken] says; a task takes two rounds. *)
Definition ex_remotes (broken : sdn_request → bool) (q : sdn_request) (l : list event) : answer q :=
  let refuse := broken q in
  match q with
  | Connect _ => Ok ()
  | AcquireSdnLock r _ => if refuse then Err (Api 501 "") else Ok ("lock of " ++ r)%string
  | CreateVnetAt _ _ | CreateZoneAt _ _ | ReleaseSdnLock _ _ _ | RollbackSdn _ _ _ =>
      if refuse then Err (Api 500 "") else Ok ()
  | SdnApply r _ _ =>
      if refuse then Err (Api 500 "")
      else Ok {| task_node := "n"; task_text := ru_upid (ex_upid 1) |}
  | GetTaskStatus r n u =>
      Ok {| is_running := asked r n u l <? 1; finished_successfully := Some true |}
  end.
Definition ex_zone (remote : string) : CreateZoneRemote :=
  {| czr_remote := remote; czr_controller := "evpn" |}.
Definition ex_order (n : nat) (l : list (LockedSdnClient * LockedSdnClientContext CreateZoneRemote)) :=
  reverse l.
Definition ex_create_zone (broken : sdn_request → bool) (remotes : list string) :=
  create_zone_worker (ex_remotes broken) ex_order (Ok (ex_sdn_config, "")) "zone" None
    (ex_zone <$> remotes) [0; 1; 0; 1; 0; 0] [].
Definition ex_locks : list (string * string) := [("b", "lock of b"); ("a", "lock of a")]%string.

Lemma ex_order_perm n l : ex_order n l ≡ₚ l.
Proof. apply reverse_Permutation. Qed.

Definition ex_callback (broken : sdn_request → bool) := create_zone_callback (ex_remotes broken) "zone" None.
Definition ex_names : list (string * CreateZoneRemote) := (λ r, (r, ex_zone r)) <$> ["b"; "a"]%string.

(** No change is possible on [b]: both remotes are rolled back. *)
Definition ex_no_zone (q : sdn_request) : bool :=
  match q with CreateZoneAt r _ => String.eqb r "b" | _ => false end.

Lemma ex_zone_failed :
  let '(out, l) := ex_create_zone ex_no_zone ["b"; "a"]%string in
  out = Some (Err TransactionFailed) ∧ acquired l = ex_locks ∧ release_requests l = ex_locks
  ∧ applies l = [] ∧ (changes l).*2 = [false; true].
Proof. vm_compute. auto. Qed.

Lemma ex_zone_created :
  let '(out, l) := ex_create_zone (λ _, false) ["b"; "a"]%string in
  out = Some (Ok ()) ∧ acquired l = ex_locks ∧ release_requests l = ex_locks
  ∧ applies l = with_token <$> ex_locks ∧ (changes l).*2 = [true; true].
Proof. vm_compute. auto. Qed.

Lemma locks_given_back_witness :
  runs (transaction (ex_remotes ex_no_zone) ex_order (Ok (ex_sdn_config, ""%string)) ex_names
          (ex_callback ex_no_zone) [0; 1; 0; 1])
    (λ _ l, release_requests l ≡ₚ acquired l
            ∧ (Forall (λ p, p.2 = true) (releases l) → given_back l ≡ₚ acquired l)).
Proof.
  apply locks_given_back; [apply ex_order_perm | apply create_zone_changes |].
  apply (bool_decide_unpack _). vm_compute. exact I.
Defined.

Lemma ex_sdn_keyed : keyed ex_sdn_config.
Proof.
  intros k r. unfold ex_sdn_config. simpl.
  by intros [[<- <-] | [_ [[<- <-] | [_ Hk]]%lookup_insert_Some]]%lookup_insert_Some.
Qed.

Lemma applied_everywhere_or_nowhere_witness :
  runs (transaction (ex_remotes (λ _, false)) ex_order (Ok (ex_sdn_config, ""%string)) ex_names
          (ex_callback (λ _, false)) [0; 1; 0; 1])
    (λ out l,
      (∀ r t ok, (r, t, ok) ∈ changes l → ∃ tok, t = Some tok ∧ (r, tok) ∈ acquired l)
      ∧ (applies l ≠ [] ∨ out = Some (Ok ()) →
         (acquired l).*1 ≡ₚ ex_names.*1
         ∧ changes l ≡ₚ (λ p, (with_token p, true)) <$> acquired l
         ∧ applies l ≡ₚ with_token <$> acquired l)).
Proof.
  apply applied_everywhere_or_nowhere; [apply ex_order_perm | apply create_zone_changes | apply ex_sdn_keyed].
Defined.

Lemma ex_tasks_end broken : tasks_end (ex_remotes broken) 1.
Proof. intros r n u l Hl. simpl. apply Nat.ltb_ge. lia. Qed.

Lemma transaction_ends_witness :
  (transaction (ex_remotes (λ _, false)) ex_order (Ok (ex_sdn_config, ""%string)) ex_names
     (ex_callback (λ _, false)) [0; 1; 0; 1] []).1 ≠ None.
Proof.
  apply (transaction_ends (ex_remotes (λ _, false)) ex_order (ex_callback (λ _, false)) 1);
    [apply ex_order_perm | apply create_zone_changes | apply ex_tasks_end |].
  apply Nat.leb_le. vm_compute. reflexivity.
Defined.

(** A remote that refuses to roll back keeps its lock, and is not asked again. *)
Theorem refused_rollback_keeps_lock :
  let refuse q := match q with CreateZoneAt r _ | RollbackSdn r _ _ => String.eqb r "b" | _ => false end in
  let '(out, l) := ex_create_zone refuse ["b"; "a"]%string in
  out = Some (Err TransactionFailed) ∧ release_requests l = ex_locks ∧ given_back l = [("a", "lock of a")]%string.
Proof. vm_compute. auto. Qed.

(** A name that is not configured ends the run at once: the lock of [a] stays. *)
Theorem unknown_remote_keeps_locks :
  let '(out, l) := ex_create_zone (λ _, false) ["a"; "c"]%string in
  out = Some (Err (NoSuchNode "c")) ∧ acquired l = [("a", "lock of a")]%string ∧ release_requests l = [].
Proof. vm_compute. auto. Qed.

(** No remote can apply its configuration, and the worker reports success. *)
Theorem failed_apply_reports_success :
  let '(out, l) := ex_create_zone (λ q, match q with SdnApply _ _ _ => true | _ => false end)
                     ["b"; "a"]%string in
  out = Some (Ok ()) ∧ applies l = with_token <$> ex_locks
  ∧ Forall (λ e, match projT1 e with GetTaskStatus _ _ _ => False | _ => True end) l.
Proof. vm_compute. split_and!; [done | done |]. repeat constructor. Qed.

(** *** A concrete list *)
Definition ex_pve_remotes : list (string * Remote) :=
  [("a", ex_pve "a"); ("b", ex_pve "b"); ("c", ex_pve "c")]%string.
Definition ex_audit (name : string) : Z := if String.eqb name "c" then 0%Z else 4%Z.
Definition ex_zones (remote : string) (ty : RemoteType) (node : string) : option (result string (list string)) :=
  if String.eqb remote "a" then Some (Ok ["zone1"; "zone2"]%string) else Some (Err "timeout"%string).
Definition ex_zone_targets : list (string * RemoteType) :=
  (λ r, (remote_id r, remote_ty r)) <$> sdn_remotes ex_pve_remotes ex_audit None 4.
Definition ex_zone_actions : list (nat * action) := [(0, Acquire); (1, Acquire); (1, Called); (0, Called)].
Definition ex_zones_final : fetch_state (list string) :=
  default (start ex_fetcher ex_zone_targets)
    (run_actions SingleNode ex_fetcher ex_nodes ex_zones ex_zone_actions (start ex_fetcher ex_zone_targets)).

Lemma sdn_listing_exact_witness :
  ∃ l, list_objects true (Ok ex_pve_remotes) ex_audit None 4
         (λ _, FetcherResponse (returned ex_zones_final)) = Ok l ∧ ("a", "zone2")%string ∈ l.
Proof.
  apply (sdn_listing_exact ex_fetcher ex_nodes ex_zones ex_pve_remotes ex_audit None 4 ex_zones_final
           (returned ex_zones_final) "a" "zone2").
  - apply (bool_decide_unpack _). vm_compute. exact I.
  - apply (run_actions_rtc _ _ _ _ ex_zone_actions). vm_compute. reflexivity.
  - vm_compute. reflexivity.
  - reflexivity.
  - exists "a"%string, (ex_pve "a"), ["zone1"; "zone2"]%string. split; [by left |].
    split; [reflexivity |]. split; [vm_compute; discriminate |]. split; [discriminate |].
    split; [reflexivity |]. split; [reflexivity |]. right. left.
Defined.
