(* ===== verification/PveGuests.v ===== *)
(** * Requests on the guests of a PVE remote

    server/src/api/pve/qemu.rs and lxc.rs with what they share in server/src/api/pve/mod.rs: a
    request on a guest is checked, the node of the guest is looked up, and the request is passed on
    to the remote; the task it starts there is tracked.  A run is the sequence of the requests to
    remotes and of the tasks that are tracked, with their answers; the answers ([env]) depend on all
    that has happened, so nothing is assumed of what remotes do.

    The privileges of the caller, the configuration that is read, the secrets, the cache of reachable
    hosts and the parser of an authority are parameters; what a remote reports and the program only
    passes on is of the parameter types of [PveTypes]. *)
From Stdlib Require Import SpecFloat.
From S2P Require Import Prelude RustStr Remotes Disk Search Resources RemotesConfig Fetcher SdnClient NexusJson.

#[local] Open Scope string_scope.

(** ** Data *)
Inductive guest_kind := GuestQemu | GuestLxc.
Global Instance guest_kind_eq_dec : EqDecision guest_kind.
Proof. solve_decision. Defined.

Inductive ConfigurationState := Pending | Active.
Definition current (s : ConfigurationState) : option bool :=
  Some match s with Active => true | Pending => false end.

(** The parameters of a migration, as pve_api_types has them *)
Record MigrateQemu := {
  mq_bwlimit : option Z; mq_force : option bool; mq_migration_network : option string;
  mq_migration_type : option string; mq_online : option bool; mq_target : string;
  mq_targetstorage : option (list string); mq_with_local_disks : option bool;
  mq_with_conntrack_state : option bool;
}.
Record MigrateLxc := {
  ml_bwlimit : option f64; ml_online : option bool; ml_restart : option bool; ml_target : string;
  ml_target_storage : option (list string); ml_timeout : option Z;
}.
Record RemoteMigrateQemu := {
  rq_target_bridge : list string; rq_target_storage : list string; rq_delete : option bool;
  rq_online : option bool; rq_target_vmid : option Z; rq_target_endpoint : string; rq_bwlimit : option Z;
}.
Record RemoteMigrateLxc := {
  rl_target_bridge : list string; rl_target_storage : list string; rl_delete : option bool;
  rl_online : option bool; rl_target_vmid : option Z; rl_target_endpoint : string; rl_bwlimit : option f64;
  rl_restart : option bool; rl_timeout : option Z;
}.

(** What changes a guest; each starts a task *)
Inductive guest_action :=
| Start | Stop | Shutdown | Resume
| CreateSnapshot (name : string) (description : option string) (vmstate : option bool)
| DeleteSnapshot (name : string)
| RollbackSnapshot (name : string) (start : option bool)
| InQemuMigration (p : MigrateQemu)
| InLxcMigration (p : MigrateLxc)
| ToRemoteQemu (p : RemoteMigrateQemu)
| ToRemoteLxc (p : RemoteMigrateLxc).

(** What is only read *)
Inductive guest_read :=
| GuestConfig (current : option bool) (snapshot : option string)
| GuestPending | GuestStatus | GuestSnapshots
| MigratePreconditions (target : option string).
Inductive node_read :=
| NodeConfig | NodeStatus | NodeSubscription
| NodeNetworks (interface_type : option string)
| NodeStorages (content : option (list string)) (enabled format : option bool) (storage target : option string)
| StorageStatus (storage : string).
Inductive cluster_read := ClusterStatus | ClusterOptions.

(** Where a firewall is *)
Inductive fw_place := FwCluster | FwNode (node : string) | FwGuest (k : guest_kind) (node : string) (vmid : Z).

Class PveTypes := {
  guest_entry : Type; entry_vmid : guest_entry → Z;   (* VmEntry, LxcEntry *)
  pve_task_entry : Type;                              (* ListTasksResponse *)
  pve_data : Type;
  (* ClusterFirewallOptions, NodeFirewallOptions, GuestFirewallOptions, ListFirewallRules and
     what changes them *)
  cluster_fw : Type; cluster_fw_enable : cluster_fw → option Z;
  node_fw : Type; node_fw_enable : node_fw → option bool;
  guest_fw : Type; guest_fw_enable : guest_fw → option bool;
  fw_rule : Type; fw_rule_enable : fw_rule → option Z;
  cluster_fw_update : Type; node_fw_update : Type; guest_fw_update : Type;
}.
Definition fw_options `{PveTypes} (p : fw_place) : Type :=
  match p with FwCluster => cluster_fw | FwNode _ => node_fw | FwGuest _ _ _ => guest_fw end.
Definition fw_update `{PveTypes} (p : fw_place) : Type :=
  match p with FwCluster => cluster_fw_update | FwNode _ => node_fw_update | FwGuest _ _ _ => guest_fw_update end.

Section requests.
Context `{PveTypes}.

Inductive pve_request :=
| ConnectPve (remote : string)                  (* make_pve_client *)
| VmResources (remote : string)                 (* cluster_resources(Some(Vm)) *)
| PveNodes (remote : string)                    (* list_nodes *)
| NodeGuests (remote : string) (k : guest_kind) (node : string)
| ReadGuest (remote : string) (k : guest_kind) (node : string) (vmid : Z) (q : guest_read)
| ChangeGuest (remote : string) (k : guest_kind) (node : string) (vmid : Z) (a : guest_action)
| UpdateSnapshot (remote : string) (k : guest_kind) (node : string) (vmid : Z) (name : string)
    (description : option string)
| TrackTask (u : RemoteUpid)                    (* add_tracked_task, see TaskCache *)
| ConnectRaw (remote : string)                  (* make_raw_client *)
| ConnectEndpoint (remote : string) (target_endpoint : option string)
| RawPost (remote path : string) (params : Json)
| ClusterResources (remote : string) (kind : option string)
| ReadCluster (remote : string) (q : cluster_read)
| NextVmid (remote : string)
| ReadNode (remote node : string) (q : node_read)
| FwOptions (remote : string) (p : fw_place)
| FwRules (remote : string) (p : fw_place)
| SetFwOptions (remote : string) (p : fw_place) (u : fw_update p)
| NodeTasks (remote node : string)
| StopTask (remote node upid : string)
| TaskStatusOf (remote node upid : string)
| TaskLog (remote node upid : string) (download : option bool) (limit start : option Z).

(** [PveUpid] is given as its text. *)
Definition pve_answer (q : pve_request) : Type :=
  match q with
  | ConnectPve _ | UpdateSnapshot _ _ _ _ _ _ | TrackTask _ => result string ()
  | VmResources _ => result string (list ClusterResource)
  | PveNodes _ => result string (list string)
  | NodeGuests _ _ _ => result string (list guest_entry)
  | ReadGuest _ _ _ _ _ => result string pve_data
  | ChangeGuest _ _ _ _ _ | RawPost _ _ _ => result string string
  | ConnectRaw _ | ConnectEndpoint _ _ | SetFwOptions _ _ _ | StopTask _ _ _ => result string ()
  | ClusterResources _ _ => result string (list ClusterResource)
  | ReadCluster _ _ | ReadNode _ _ _ => result string pve_data
  | NextVmid _ => result string Z
  | FwOptions _ p => result string (fw_options p)
  | FwRules _ _ => result string (list fw_rule)
  | NodeTasks _ _ => result string (list pve_task_entry)
  | TaskStatusOf _ _ _ => result string TaskStatus
  | TaskLog _ _ _ _ _ _ => result string (list (string * Json) * pve_data)
  end.
Definition pve_event : Type := sigT pve_answer.

Inductive pve_error :=
| RemotesUnreadable (e : error)
| BadRemote (e : sdn_error)
| ApiForbidden (msg : string)
| ApiNotFound (msg : string)
| PveFailed (msg : string)
| BadTask (e : upid_error)
| PveJson (e : string).

(** ** Runs *)
Definition PveM (A : Type) : Type := list pve_event → result pve_error A * list pve_event.
Global Instance Pve_ret : MRet PveM := λ _ a tr, (Ok a, tr).
Global Instance Pve_bind : MBind PveM := λ _ _ f m tr,
  match m tr with (Ok a, tr') => f a tr' | (Err e, tr') => (Err e, tr') end.
Definition pfail {A} (e : pve_error) : PveM A := λ tr, (Err e, tr).
Definition plift {A} (r : result pve_error A) : PveM A := λ tr, (r, tr).

Context (env : ∀ q, list pve_event → pve_answer q).
Definition pve_ask (q : pve_request) : PveM (pve_answer q) := λ tr,
  let a := env q tr in (Ok a, tr ++ [existT q a])%list.
(** [?] on the answer *)
Definition answered {A} (r : result string A) : PveM A := plift (match r with Ok a => Ok a | Err e => Err (PveFailed e) end).

(** ** The configuration *)
Context `{SectionData Remote} `{UpidEnv}.
Context (config : result error (sec_data Remote)).

Definition remotes_config : PveM (sec_data Remote) :=
  plift (match config with Ok c => Ok c | Err e => Err (RemotesUnreadable e) end).
Definition pve_remote (c : sec_data Remote) (id : string) : PveM Remote :=
  plift (match pve_get_remote c id with Ok r => Ok r | Err e => Err (BadRemote e) end).
(** The client that comes of it is for the remote of this name. *)
Definition connect_to_remote (c : sec_data Remote) (id : string) : PveM () :=
  r ← pve_remote c id;
  a ← pve_ask (ConnectPve (remote_id r));
  answered a.
Definition connect_to_remote_by_id (id : string) : PveM () :=
  c ← remotes_config;
  connect_to_remote c id.

Definition find_node_for_vm (remote : string) (node : option string) (vmid : Z) : PveM string :=
  match node with
  | Some node => mret node
  | None =>
      a ← pve_ask (VmResources remote);
      resources ← answered a;
      match find_by (λ r, bool_decide (cr_vmid r = Some vmid)) resources ≫= cr_node with
      | Some node => mret node
      | None => pfail (ApiNotFound "no such vmid")
      end
  end.

Definition new_remote_upid (remote upid : string) : PveM RemoteUpid :=
  u ← plift (match try_from_pair remote upid with Ok u => Ok u | Err e => Err (BadTask e) end);
  a ← pve_ask (TrackTask u);
  _ ← answered a;
  mret u.

(** ** Handlers on one guest *)
Definition read_guest (k : guest_kind) (q : guest_read) (remote : string) (node : option string) (vmid : Z)
    : PveM pve_data :=
  _ ← connect_to_remote_by_id remote;
  node ← find_node_for_vm remote node vmid;
  a ← pve_ask (ReadGuest remote k node vmid q);
  answered a.

(** [tracked] handlers call [new_remote_upid]; the others only convert the task. *)
Definition change_guest (k : guest_kind) (tracked : bool) (a : guest_action)
    (remote : string) (node : option string) (vmid : Z) : PveM RemoteUpid :=
  _ ← connect_to_remote_by_id remote;
  node ← find_node_for_vm remote node vmid;
  r ← pve_ask (ChangeGuest remote k node vmid a);
  upid ← answered r;
  if tracked then new_remote_upid remote upid
  else plift (match try_from_pair remote upid with Ok u => Ok u | Err e => Err (BadTask e) end).

Definition update_snapshot_config (k : guest_kind) (name : string) (description : option string)
    (remote : string) (node : option string) (vmid : Z) : PveM () :=
  _ ← connect_to_remote_by_id remote;
  node ← find_node_for_vm remote node vmid;
  a ← pve_ask (UpdateSnapshot remote k node vmid name description);
  answered a.

Definition qemu_get_config (state : ConfigurationState) (snapshot : option string) :=
  read_guest GuestQemu (GuestConfig (current state) snapshot).
Definition qemu_get_pending := read_guest GuestQemu GuestPending.
Definition qemu_get_status := read_guest GuestQemu GuestStatus.
Definition qemu_list_snapshots := read_guest GuestQemu GuestSnapshots.
Definition qemu_migrate_preconditions (target : option string) := read_guest GuestQemu (MigratePreconditions target).
Definition qemu_start := change_guest GuestQemu true Start.
Definition qemu_stop := change_guest GuestQemu false Stop.
Definition qemu_shutdown := change_guest GuestQemu false Shutdown.
Definition qemu_resume := change_guest GuestQemu true Resume.
Definition qemu_create_snapshot (name : string) (description : option string) (vmstate : option bool) :=
  change_guest GuestQemu true (CreateSnapshot name description vmstate).
Definition qemu_delete_snapshot (name : string) := change_guest GuestQemu true (DeleteSnapshot name).
Definition qemu_rollback_snapshot (name : string) (start : option bool) :=
  change_guest GuestQemu true (RollbackSnapshot name start).
Definition qemu_update_snapshot_config := update_snapshot_config GuestQemu.

Definition lxc_get_config (state : ConfigurationState) (snapshot : option string) :=
  read_guest GuestLxc (GuestConfig (current state) snapshot).
Definition lxc_get_pending := read_guest GuestLxc GuestPending.
Definition lxc_get_status := read_guest GuestLxc GuestStatus.
Definition lxc_list_snapshots := read_guest GuestLxc GuestSnapshots.
Definition lxc_start := change_guest GuestLxc true Start.
Definition lxc_stop := change_guest GuestLxc true Stop.
Definition lxc_shutdown := change_guest GuestLxc true Shutdown.
Definition lxc_create_snapshot (name : string) (description : option string) :=
  change_guest GuestLxc true (CreateSnapshot name description None).
Definition lxc_delete_snapshot (name : string) := change_guest GuestLxc true (DeleteSnapshot name).
Definition lxc_rollback_snapshot (name : string) (start : option bool) :=
  change_guest GuestLxc true (RollbackSnapshot name start).
Definition lxc_update_snapshot_config := update_snapshot_config GuestLxc.

(** *** Migration within the cluster *)
Definition migrate (k : guest_kind) (target : string) (a : guest_action)
    (remote : string) (node : option string) (vmid : Z) : PveM RemoteUpid :=
  _ ← connect_to_remote_by_id remote;
  node ← find_node_for_vm remote node vmid;
  if String.eqb node target then pfail (PveFailed "refusing migration to the same node")
  else
    r ← pve_ask (ChangeGuest remote k node vmid a);
    upid ← answered r;
    new_remote_upid remote upid.

Definition qemu_migrate (bwlimit : option Z) (force : option bool) (migration_network migration_type : option string)
    (online : option bool) (target : string) (target_storage : option (list string)) (with_local_disks : option bool) :=
  migrate GuestQemu target (InQemuMigration {|
    mq_bwlimit := bwlimit; mq_force := force; mq_migration_network := migration_network;
    mq_migration_type := migration_type; mq_online := online; mq_target := target;
    mq_targetstorage := target_storage; mq_with_local_disks := with_local_disks;
    mq_with_conntrack_state := None |}).
Definition lxc_migrate (bwlimit : option Z) (restart online : option bool) (target : string)
    (target_storage : option (list string)) (timeout : option Z) :=
  migrate GuestLxc target (InLxcMigration {|
    ml_bwlimit := f64_of_Z <$> bwlimit; ml_online := online; ml_restart := restart; ml_target := target;
    ml_target_storage := target_storage; ml_timeout := timeout |}).

(** *** Migration to another remote *)
Context (host_reachable : string → string → bool).   (* RemoteMappingCache::host_is_reachable *)
Context (parse_authority : string → result string (string * option Z)).
Context (get_secret : Remote → result string string).   (* get_secret_token, see RemotesConfig *)

Definition select_migration_target_node (r : Remote) (target_endpoint : option string) : result pve_error NodeUrl :=
  match target_endpoint with
  | Some hostname =>
      ok_or (find_by (λ n, String.eqb (node_hostname n) hostname) (remote_urls r))
        (PveFailed (hostname ++ " not configured for target cluster"))
  | None =>
      ok_or (match find_by (λ n, host_reachable (remote_id r) (node_hostname n)) (remote_urls r) with
             | Some n => Some n
             | None => head (remote_urls r)
             end) (PveFailed "no nodes configured for target cluster")
  end.

Definition pve_failed {A} (r : result string A) : result pve_error A :=
  match r with Ok a => Ok a | Err e => Err (PveFailed e) end.
Definition build_migration_endpoint (r : Remote) (n : NodeUrl) : result pve_error string :=
  '(host, port) ← pve_failed (parse_authority (node_hostname n));
  secret ← pve_failed (get_secret r);
  let endpoint := "host=" ++ host ++ ",port=" ++ show_int (default 8006%Z port)
                  ++ ",apitoken=PVEAPIToken=" ++ authid r ++ "=" ++ secret in
  Ok match fingerprint n with
     | Some fp => endpoint ++ ",fingerprint=" ++ fp
     | None => endpoint
     end.

(** The caller: the privileges he has on a path and on some path below it *)
Inductive privilege := ResourceAudit | ResourceManage | ResourceModify | ResourceMigrate | ResourceDelete | SysModify.
Global Instance privilege_eq_dec : EqDecision privilege.
Proof. solve_decision. Defined.
Record pve_caller := {
  has_priv : privilege → list string → bool;
  has_priv_below : privilege → list string → bool;
}.
Definition guest_path (remote : string) (vmid : Z) : list string := ["resource"; remote; "guest"; show_int vmid].

Definition check_guest_delete_perms (who : pve_caller) (remote : string) (vmid : Z) : PveM () :=
  if has_priv who ResourceDelete (guest_path remote vmid) then mret () else pfail (ApiForbidden "permission check failed").

(** [params] are the parameters for the endpoint of the target. *)
Definition remote_migrate (k : guest_kind) (who : pve_caller) (target : string) (target_vmid : option Z) (delete : bool)
    (target_endpoint : option string) (params : string → guest_action)
    (source : string) (node : option string) (vmid : Z) : PveM RemoteUpid :=
  if negb (has_priv who ResourceMigrate (guest_path target (default vmid target_vmid)))
  then pfail (ApiForbidden "missing PRIV_RESOURCE_MIGRATE on target remote+vmid")
  else
    _ ← if (delete : bool) then check_guest_delete_perms who source vmid else mret ();
    if String.eqb source target then pfail (PveFailed "source and destination clusters must be different")
    else
      remotes ← remotes_config;
      target ← pve_remote remotes target;
      _ ← connect_to_remote remotes source;
      node ← find_node_for_vm source node vmid;
      target_node ← plift (select_migration_target_node target target_endpoint);
      target_endpoint ← plift (build_migration_endpoint target target_node);
      r ← pve_ask (ChangeGuest source k node vmid (params target_endpoint));
      upid ← answered r;
      new_remote_upid source upid.

Definition qemu_remote_migrate (who : pve_caller) (target : string) (target_vmid : option Z) (delete online : bool)
    (target_storage target_bridge : list string) (bwlimit : option Z) (target_endpoint : option string) :=
  remote_migrate GuestQemu who target target_vmid delete target_endpoint
    (λ endpoint, ToRemoteQemu {|
       rq_target_bridge := target_bridge; rq_target_storage := target_storage; rq_delete := Some delete;
       rq_online := Some online; rq_target_vmid := target_vmid; rq_target_endpoint := endpoint;
       rq_bwlimit := bwlimit |}).
Definition lxc_remote_migrate (who : pve_caller) (target : string) (target_vmid : option Z) (delete online : bool)
    (target_storage target_bridge : list string) (bwlimit : option Z) (restart : option bool) (timeout : option Z)
    (target_endpoint : option string) :=
  remote_migrate GuestLxc who target target_vmid delete target_endpoint
    (λ endpoint, ToRemoteLxc {|
       rl_target_bridge := target_bridge; rl_target_storage := target_storage; rl_delete := Some delete;
       rl_online := Some online; rl_target_vmid := target_vmid; rl_target_endpoint := endpoint;
       rl_bwlimit := f64_of_Z <$> bwlimit; rl_restart := restart; rl_timeout := timeout |}).

(** ** The list of guests *)

(** What the first part returns besides the caller: whether he may see all of them *)
Definition check_guest_list_permissions (who : pve_caller) (remote : string) : PveM bool :=
  if negb (has_priv_below who ResourceAudit ["resource"; remote])
  then pfail (ApiForbidden "user has no access to resource list")
  else mret (has_priv who ResourceAudit ["resource"; remote]).
Definition check_guest_permissions (who : pve_caller) (remote : string) (p : privilege) (vmid : Z) : bool :=
  has_priv who p (guest_path remote vmid).

Fixpoint guests_of_nodes (remote : string) (k : guest_kind) (nodes : list string) : PveM (list guest_entry) :=
  match nodes with
  | [] => mret []
  | node :: nodes' =>
      a ← pve_ask (NodeGuests remote k node);
      l ← answered a;
      l' ← guests_of_nodes remote k nodes';
      mret (l ++ l')%list
  end.
Definition list_guests (k : guest_kind) (who : pve_caller) (remote : string) (node : option string)
    : PveM (list guest_entry) :=
  top_level_allowed ← check_guest_list_permissions who remote;
  _ ← connect_to_remote_by_id remote;
  list ← match node with
         | Some node => a ← pve_ask (NodeGuests remote k node); answered a
         | None => a ← pve_ask (PveNodes remote); nodes ← answered a; guests_of_nodes remote k nodes
         end;
  mret (if (top_level_allowed : bool) then list
        else List.filter (λ e, check_guest_permissions who remote ResourceAudit (entry_vmid e)) list).
Definition list_qemu := list_guests GuestQemu.
Definition list_lxc := list_guests GuestLxc.

(** ** The router *)
Inductive guest_call :=
| CallConfig (state : ConfigurationState) (snapshot : option string)
| CallPending | CallStatus | CallSnapshots
| CallPreconditions (target : option string)
| CallStart | CallStop | CallShutdown | CallResume
| CallCreateSnapshot (name : string) (description : option string) (vmstate : option bool)
| CallDeleteSnapshot (name : string)
| CallRollback (name : string) (start : option bool)
| CallUpdateSnapshot (name : string) (description : option string)
| CallMigrateQemu (bwlimit : option Z) (force : option bool) (network ty : option string) (online : option bool)
    (target : string) (target_storage : option (list string)) (with_local_disks : option bool)
| CallMigrateLxc (bwlimit : option Z) (restart online : option bool) (target : string)
    (target_storage : option (list string)) (timeout : option Z)
| CallRemoteMigrateQemu (target : string) (target_vmid : option Z) (delete online : bool)
    (target_storage target_bridge : list string) (bwlimit : option Z) (target_endpoint : option string)
| CallRemoteMigrateLxc (target : string) (target_vmid : option Z) (delete online : bool)
    (target_storage target_bridge : list string) (bwlimit : option Z) (restart : option bool) (timeout : option Z)
    (target_endpoint : option string).

Inductive guest_reply := ReplyData (d : pve_data) | ReplyTask (u : RemoteUpid) | ReplyUnit.

(** The privilege that the declaration of a handler asks for on the guest *)
Definition guest_permission (c : guest_call) : privilege :=
  match c with
  | CallConfig _ _ | CallPending | CallStatus | CallSnapshots => ResourceAudit
  | CallStart | CallStop | CallShutdown | CallResume | CallCreateSnapshot _ _ _ | CallDeleteSnapshot _
  | CallRollback _ _ | CallUpdateSnapshot _ _ => ResourceManage
  | CallPreconditions _ | CallMigrateQemu _ _ _ _ _ _ _ _ | CallMigrateLxc _ _ _ _ _ _
  | CallRemoteMigrateQemu _ _ _ _ _ _ _ _ | CallRemoteMigrateLxc _ _ _ _ _ _ _ _ _ _ => ResourceMigrate
  end.

Definition reply_data (m : PveM pve_data) : PveM guest_reply := d ← m; mret (ReplyData d).
Definition reply_task (m : PveM RemoteUpid) : PveM guest_reply := u ← m; mret (ReplyTask u).
Definition reply_unit (m : PveM ()) : PveM guest_reply := _ ← m; mret ReplyUnit.

(** /pve/remotes/{remote}/{kind}/{vmid}/..; what a kind of guest has no route for is not found. *)
Definition run_guest_call (who : pve_caller) (k : guest_kind) (c : guest_call)
    (remote : string) (node : option string) (vmid : Z) : PveM guest_reply :=
  match k, c with
  | GuestQemu, CallConfig state snapshot => reply_data (qemu_get_config state snapshot remote node vmid)
  | GuestQemu, CallPending => reply_data (qemu_get_pending remote node vmid)
  | GuestQemu, CallStatus => reply_data (qemu_get_status remote node vmid)
  | GuestQemu, CallSnapshots => reply_data (qemu_list_snapshots remote node vmid)
  | GuestQemu, CallPreconditions target => reply_data (qemu_migrate_preconditions target remote node vmid)
  | GuestQemu, CallStart => reply_task (qemu_start remote node vmid)
  | GuestQemu, CallStop => reply_task (qemu_stop remote node vmid)
  | GuestQemu, CallShutdown => reply_task (qemu_shutdown remote node vmid)
  | GuestQemu, CallResume => reply_task (qemu_resume remote node vmid)
  | GuestQemu, CallCreateSnapshot name description vmstate =>
      reply_task (qemu_create_snapshot name description vmstate remote node vmid)
  | GuestQemu, CallDeleteSnapshot name => reply_task (qemu_delete_snapshot name remote node vmid)
  | GuestQemu, CallRollback name start => reply_task (qemu_rollback_snapshot name start remote node vmid)
  | GuestQemu, CallUpdateSnapshot name description =>
      reply_unit (qemu_update_snapshot_config name description remote node vmid)
  | GuestQemu, CallMigrateQemu bwlimit force network ty online target storage disks =>
      reply_task (qemu_migrate bwlimit force network ty online target storage disks remote node vmid)
  | GuestQemu, CallRemoteMigrateQemu target target_vmid delete online storage bridge bwlimit endpoint =>
      reply_task (qemu_remote_migrate who target target_vmid delete online storage bridge bwlimit endpoint remote node vmid)
  | GuestLxc, CallConfig state snapshot => reply_data (lxc_get_config state snapshot remote node vmid)
  | GuestLxc, CallPending => reply_data (lxc_get_pending remote node vmid)
  | GuestLxc, CallStatus => reply_data (lxc_get_status remote node vmid)
  | GuestLxc, CallSnapshots => reply_data (lxc_list_snapshots remote node vmid)
  | GuestLxc, CallStart => reply_task (lxc_start remote node vmid)
  | GuestLxc, CallStop => reply_task (lxc_stop remote node vmid)
  | GuestLxc, CallShutdown => reply_task (lxc_shutdown remote node vmid)
  | GuestLxc, CallCreateSnapshot name description _ =>
      reply_task (lxc_create_snapshot name description remote node vmid)
  | GuestLxc, CallDeleteSnapshot name => reply_task (lxc_delete_snapshot name remote node vmid)
  | GuestLxc, CallRollback name start => reply_task (lxc_rollback_snapshot name start remote node vmid)
  | GuestLxc, CallUpdateSnapshot name description =>
      reply_unit (lxc_update_snapshot_config name description remote node vmid)
  | GuestLxc, CallMigrateLxc bwlimit restart online target storage timeout =>
      reply_task (lxc_migrate bwlimit restart online target storage timeout remote node vmid)
  | GuestLxc, CallRemoteMigrateLxc target target_vmid delete online storage bridge bwlimit restart timeout endpoint =>
      reply_task (lxc_remote_migrate who target target_vmid delete online storage bridge bwlimit restart timeout
                    endpoint remote node vmid)
  | _, _ => pfail (ApiNotFound "no such path")
  end.

(** ** What a run is

    [runs P m]: whatever happened before, the events that [m] adds and its result satisfy [P]. *)
Definition runs {A} (P : list pve_event → result pve_error A → Prop) (m : PveM A) : Prop :=
  ∀ tr r tr', m tr = (r, tr') → ∃ new, tr' = (tr ++ new)%list ∧ P new r.

Lemma runs_mono {A} (P Q : list pve_event → result pve_error A → Prop) m :
  (∀ new r, P new r → Q new r) → runs P m → runs Q m.
Proof. intros HPQ Hm tr r tr' E. destruct (Hm _ _ _ E) as (new & -> & HP). exists new. auto. Qed.

Lemma runs_plift {A} (r : result pve_error A) : runs (λ new r', new = [] ∧ r' = r) (plift r).
Proof. intros tr r' tr' [= <- <-]. exists []. by rw app_nil_r. Qed.
Lemma runs_answered {A} (r : result string A) : runs (λ new r', new = [] ∧ r' = pve_failed r) (answered r).
Proof. apply runs_plift. Qed.
Lemma pve_runs_ret {A} (a : A) : runs (λ new r, new = [] ∧ r = Ok a) (mret a : PveM A).
Proof. apply (runs_plift (Ok a)). Qed.
Lemma runs_fail {A} e : runs (λ new r, new = [] ∧ r = Err e) (pfail e : PveM A).
Proof. apply (runs_plift (Err e)). Qed.
Lemma pve_runs_ask q : runs (λ new r, ∃ a, new = [existT q a] ∧ r = Ok a) (pve_ask q).
Proof. intros tr r tr' [= <- <-]. eauto. Qed.

Lemma pve_runs_bind {A B} (P : list pve_event → result pve_error A → Prop) (Q : A → list pve_event → result pve_error B → Prop)
    (R : list pve_event → result pve_error B → Prop) (m : PveM A) (f : A → PveM B) :
  runs P m → (∀ a, runs (Q a) (f a)) →
  (∀ a new new' r, P new (Ok a) → Q a new' r → R (new ++ new')%list r) →
  (∀ e new, P new (Err e) → R new (Err e)) →
  runs R (m ≫= f).
Proof.
  intros Hm Hf Hok Herr tr r tr'. unfold mbind, Pve_bind. destruct (m tr) as [[a|e] tr1] eqn:E; apply Hm in E as (new & -> & HP).
  - intros (new' & -> & HQ)%Hf. exists (new ++ new')%list. rw app_assoc. eauto.
  - intros [= <- <-]. eauto.
Qed.

(** A request and [?] on its answer *)
Lemma runs_request {A B} q (cast : pve_answer q → result string A) (f : A → PveM B)
    (Q : A → list pve_event → result pve_error B → Prop) (R : list pve_event → result pve_error B → Prop) :
  (∀ x, runs (Q x) (f x)) →
  (∀ a x new r, cast a = Ok x → Q x new r → R (existT q a :: new) r) →
  (∀ a e, cast a = Err e → R [existT q a] (Err (PveFailed e))) →
  runs R (a ← pve_ask q; x ← answered (cast a); f x).
Proof.
  intros Hf Hok Herr tr r tr'. unfold pve_ask, answered, plift. unfold mbind, Pve_bind.
  destruct (cast (env q tr)) as [x|e] eqn:E.
  - intros (new & -> & HQ)%Hf. exists (existT q (env q tr) :: new). split; [by rw -app_assoc | by eapply Hok].
  - intros [= <- <-]. exists [existT q (env q tr)]. split; [done | by apply Herr].
Qed.

(** *** Looking up the node *)
Definition lookup_run (remote : string) (node : option string) (vmid : Z) (new : list pve_event)
    (r : result pve_error string) : Prop :=
  match node with
  | Some n => new = [] ∧ r = Ok n
  | None => ∃ a, new = [existT (VmResources remote) a] ∧
      r = match a with
          | Err e => Err (PveFailed e)
          | Ok l => match find_by (λ r, bool_decide (cr_vmid r = Some vmid)) l ≫= cr_node with
                    | Some n => Ok n
                    | None => Err (ApiNotFound "no such vmid")
                    end
          end
  end.
Lemma find_node_runs remote node vmid : runs (lookup_run remote node vmid) (find_node_for_vm remote node vmid).
Proof.
  unfold find_node_for_vm, lookup_run. destruct node as [n|]; [apply pve_runs_ret |].
  eapply (runs_request (VmResources remote) id _
    (λ l new r, new = [] ∧ r = match find_by (λ r, bool_decide (cr_vmid r = Some vmid)) l ≫= cr_node with
                               | Some n => Ok n | None => Err (ApiNotFound "no such vmid") end)).
  - intros l. destruct (_ ≫= cr_node); [apply pve_runs_ret | apply runs_fail].
  - intros a l new r [=] [-> ->]. subst a. by exists (Ok l).
  - intros a e [=]. subst a. by exists (Err e).
Qed.

(** The client of a remote *)
Definition connect_run (remote : string) (new : list pve_event) (r : result pve_error ()) : Prop :=
  match config with
  | Err e => new = [] ∧ r = Err (RemotesUnreadable e)
  | Ok cfg =>
      match pve_get_remote cfg remote with
      | Err e => new = [] ∧ r = Err (BadRemote e)
      | Ok rm => ∃ a, new = [existT (ConnectPve (remote_id rm)) a] ∧ r = pve_failed a
      end
  end.
Lemma connect_runs remote : runs (connect_run remote) (connect_to_remote_by_id remote).
Proof.
  unfold connect_to_remote_by_id, connect_to_remote, connect_run, remotes_config, pve_remote.
  intros tr r tr'. unfold plift, answered, pve_ask. unfold mbind, Pve_bind.
  destruct config as [cfg|e]; [| intros [= <- <-]; exists []; by rw app_nil_r].
  destruct (pve_get_remote cfg remote) as [rm|e]; [| intros [= <- <-]; exists []; by rw app_nil_r].
  intros [= <- <-]. eexists [_]. split; [done |]. by eexists.
Qed.

(** What comes before a request on a guest: the client, then the node *)
Definition prepare_run (remote : string) (node : option string) (vmid : Z) (new : list pve_event)
    (r : result pve_error string) : Prop :=
  (∃ e, connect_run remote new (Err e) ∧ r = Err e)
  ∨ ∃ pre new', new = (pre ++ new')%list ∧ connect_run remote pre (Ok ()) ∧ lookup_run remote node vmid new' r.

Lemma runs_prepared {B} (f : string → PveM B) (Q : string → list pve_event → result pve_error B → Prop)
    (R : list pve_event → result pve_error B → Prop) remote node vmid :
  (∀ n, runs (Q n) (f n)) →
  (∀ n pre new r, prepare_run remote node vmid pre (Ok n) → Q n new r → R (pre ++ new)%list r) →
  (∀ pre e, prepare_run remote node vmid pre (Err e) → R pre (Err e)) →
  runs R (_ ← connect_to_remote_by_id remote; n ← find_node_for_vm remote node vmid; f n).
Proof.
  intros Hf Hok Herr. eapply (pve_runs_bind _ (λ _ new r,
      (∃ e, lookup_run remote node vmid new (Err e) ∧ r = Err e)
      ∨ ∃ n pre new', new = (pre ++ new')%list ∧ lookup_run remote node vmid pre (Ok n) ∧ Q n new' r)); [apply connect_runs | | |].
  - intros _. eapply pve_runs_bind; [apply find_node_runs | exact Hf | |].
    + intros n new new' r Hl HQ. right. by exists n, new, new'.
    + intros e new Hl. left. by exists e.
  - intros [] new new' r Hc [(e & Hl & ->)|(n & pre & new2 & -> & Hl & HQ)].
    + apply Herr. right. by exists new, new'.
    + rw app_assoc. eapply Hok; [| exact HQ]. right. by exists new, pre.
  - intros e new Hc. apply Herr. left. by exists e.
Qed.

(** *** Requests on a guest *)

(** What follows the answer to a change: the task is tracked, if the handler does that. *)
Definition followed (remote : string) (tracked : bool) (ans : result string string) (post : list pve_event)
    (r : result pve_error RemoteUpid) : Prop :=
  match ans with
  | Err e => post = [] ∧ r = Err (PveFailed e)
  | Ok upid =>
      match try_from_pair remote upid with
      | Err e => post = [] ∧ r = Err (BadTask e)
      | Ok u => if tracked
                then ∃ a, post = [existT (TrackTask u) a] ∧ r = match a with Ok _ => Ok u | Err e => Err (PveFailed e) end
                else post = [] ∧ r = Ok u
      end
  end.
Lemma track_runs remote upid : runs (followed remote true (Ok upid)) (new_remote_upid remote upid).
Proof.
  unfold new_remote_upid, followed. intros tr r tr'. unfold plift, answered, pve_ask. unfold mbind, Pve_bind.
  destruct (try_from_pair remote upid) as [u|e]; [| intros [= <- <-]; exists []; by rw app_nil_r].
  intros E. exists [existT (TrackTask u) (env (TrackTask u) tr)]. revert E. unfold plift.
  destruct (env (TrackTask u) tr) as [[]|e] eqn:E; intros [= <- <-]; (split; [done |]); by eexists.
Qed.

(** The request of a change and what follows it, and the whole with the look-up of the node *)
Definition change_run (k : guest_kind) (remote n : string) (vmid : Z) (a : guest_action) (tracked : bool)
    (new : list pve_event) (r : result pve_error RemoteUpid) : Prop :=
  ∃ ans post, new = existT (ChangeGuest remote k n vmid a) ans :: post ∧ followed remote tracked ans post r.
Definition changed (k : guest_kind) (remote : string) (node : option string) (vmid : Z) (a : guest_action)
    (tracked : bool) (new : list pve_event) (r : result pve_error RemoteUpid) : Prop :=
  ∃ n pre new', new = (pre ++ new')%list ∧ prepare_run remote node vmid pre (Ok n)
    ∧ change_run k remote n vmid a tracked new' r.

Lemma request_change k tracked a remote n vmid :
  runs (change_run k remote n vmid a tracked)
    (r ← pve_ask (ChangeGuest remote k n vmid a);
     upid ← answered r;
     if tracked then new_remote_upid remote upid
     else plift (match try_from_pair remote upid with Ok u => Ok u | Err e => Err (BadTask e) end)).
Proof.
  eapply (runs_request (ChangeGuest remote k n vmid a) id _ (λ upid, followed remote tracked (Ok upid))).
  - intros upid. destruct tracked; [apply track_runs |]. unfold followed.
    eapply runs_mono; [| apply runs_plift]. intros new r [-> ->]. by destruct (try_from_pair remote upid).
  - intros ans upid new r [=] Hf. subst ans. by exists (Ok upid), new.
  - intros ans e [=]. subst ans. by exists (Err e), [].
Qed.

Lemma change_guest_runs k tracked a remote node vmid :
  runs (λ new r, (∃ e, prepare_run remote node vmid new (Err e) ∧ r = Err e) ∨ changed k remote node vmid a tracked new r)
    (change_guest k tracked a remote node vmid).
Proof.
  eapply runs_prepared; [intros n; apply request_change | |].
  - intros n pre new r Hp Hc. right. by exists n, pre, new.
  - intros pre e Hp. left. by exists e.
Qed.

Lemma read_guest_runs k q remote node vmid :
  runs (λ new r, (∃ e, prepare_run remote node vmid new (Err e) ∧ r = Err e)
          ∨ ∃ n pre a, new = (pre ++ [existT (ReadGuest remote k n vmid q) a])%list
              ∧ prepare_run remote node vmid pre (Ok n) ∧ r = pve_failed a)
    (read_guest k q remote node vmid).
Proof.
  eapply (runs_prepared _ (λ n new r, ∃ a, new = [existT (ReadGuest remote k n vmid q) a] ∧ r = pve_failed a)).
  - intros n tr r tr' [= <- <-]. eexists [_]. split; [done |]. by eexists.
  - intros n pre new r Hp (a & -> & ->). right. by exists n, pre, a.
  - intros pre e Hp. left. by exists e.
Qed.

Lemma update_snapshot_runs k name description remote node vmid :
  runs (λ new r, (∃ e, prepare_run remote node vmid new (Err e) ∧ r = Err e)
          ∨ ∃ n pre a, new = (pre ++ [existT (UpdateSnapshot remote k n vmid name description) a])%list
              ∧ prepare_run remote node vmid pre (Ok n) ∧ r = pve_failed a)
    (update_snapshot_config k name description remote node vmid).
Proof.
  eapply (runs_prepared _ (λ n new r, ∃ a, new = [existT (UpdateSnapshot remote k n vmid name description) a] ∧ r = pve_failed a)).
  - intros n tr r tr' [= <- <-]. eexists [_]. split; [done |]. by eexists.
  - intros n pre new r Hp (a & -> & ->). right. by exists n, pre, a.
  - intros pre e Hp. left. by exists e.
Qed.

Lemma migrate_runs k target a remote node vmid :
  runs (λ new r, (∃ e, prepare_run remote node vmid new (Err e) ∧ r = Err e)
          ∨ (prepare_run remote node vmid new (Ok target) ∧ r = Err (PveFailed "refusing migration to the same node"))
          ∨ changed k remote node vmid a true new r)
    (migrate k target a remote node vmid).
Proof.
  eapply (runs_prepared _ (λ n new r,
    (n = target ∧ new = [] ∧ r = Err (PveFailed "refusing migration to the same node"))
    ∨ change_run k remote n vmid a true new r)).
  - intros n. destruct (String.eqb_spec n target) as [-> | _].
    + eapply runs_mono; [| apply runs_fail]. by left.
    + eapply runs_mono; [| apply (request_change k true a)]. by right.
  - intros n pre new r Hp [(-> & -> & ->) | Hc]; [right; left; by rw app_nil_r | right; right; by exists n, pre, new].
  - intros pre e Hp. left. by exists e.
Qed.

(** *** Migration to another remote *)

(** The endpoint that the source is given *)
Definition migration_endpoint (target : string) (target_endpoint : option string) : result pve_error string :=
  cfg ← match config with Ok c => Ok c | Err e => Err (RemotesUnreadable e) end;
  t ← match pve_get_remote cfg target with Ok r => Ok r | Err e => Err (BadRemote e) end;
  n ← select_migration_target_node t target_endpoint;
  build_migration_endpoint t n.
(** Who may migrate a guest to another remote *)
Definition may_migrate (who : pve_caller) (source : string) (vmid : Z) (target : string) (target_vmid : option Z)
    (delete : bool) : Prop :=
  has_priv who ResourceMigrate (guest_path target (default vmid target_vmid)) = true
  ∧ (delete = true → has_priv who ResourceDelete (guest_path source vmid) = true)
  ∧ source ≠ target.
(** Why a migration is not requested *)
Definition migration_refused (who : pve_caller) (source : string) (node : option string) (vmid : Z)
    (target : string) (target_vmid : option Z) (delete : bool) (target_endpoint : option string) (new : list pve_event)
    : Prop :=
  new = [] ∧ (¬ may_migrate who source vmid target target_vmid delete
              ∨ ∃ e, migration_endpoint target target_endpoint = Err e)
  ∨ may_migrate who source vmid target target_vmid delete
    ∧ ((∃ e, prepare_run source node vmid new (Err e))
       ∨ ∃ n e, prepare_run source node vmid new (Ok n) ∧ migration_endpoint target target_endpoint = Err e).

Definition migration_run (k : guest_kind) (who : pve_caller) (target : string) (target_vmid : option Z) (delete : bool)
    (target_endpoint : option string) (params : string → guest_action) (source : string) (node : option string) (vmid : Z)
    (new : list pve_event) (r : result pve_error RemoteUpid) : Prop :=
  (∃ e, r = Err e ∧ migration_refused who source node vmid target target_vmid delete target_endpoint new)
  ∨ may_migrate who source vmid target target_vmid delete
    ∧ ∃ endpoint, migration_endpoint target target_endpoint = Ok endpoint
        ∧ changed k source node vmid (params endpoint) true new r.

Lemma runs_ext {A} P (m m' : PveM A) : (∀ tr, m tr = m' tr) → runs P m → runs P m'.
Proof. intros E Hm tr r tr'. rw -E. apply Hm. Qed.

(** The migration once its endpoint is known *)
Lemma request_migration k cfg t endpoint_of params source node vmid :
  config = Ok cfg →
  runs (λ new r,
      (∃ e, prepare_run source node vmid new (Err e) ∧ r = Err e)
      ∨ match select_migration_target_node t endpoint_of ≫= build_migration_endpoint t with
        | Err e => r = Err e ∧ ∃ n, prepare_run source node vmid new (Ok n)
        | Ok endpoint => changed k source node vmid (params endpoint) true new r
        end)
    (_ ← connect_to_remote cfg source;
     node ← find_node_for_vm source node vmid;
     target_node ← plift (select_migration_target_node t endpoint_of);
     target_endpoint ← plift (build_migration_endpoint t target_node);
     r ← pve_ask (ChangeGuest source k node vmid (params target_endpoint));
     upid ← answered r;
     new_remote_upid source upid).
Proof.
  intros Hcfg. eapply (runs_ext _ (_ ← connect_to_remote_by_id source; _)).
  { intros tr. unfold connect_to_remote_by_id, remotes_config. by rw Hcfg. }
  eapply (runs_prepared _ (λ n new r,
    match select_migration_target_node t endpoint_of ≫= build_migration_endpoint t with
    | Err e => new = [] ∧ r = Err e
    | Ok endpoint => change_run k source n vmid (params endpoint) true new r
    end)).
  - intros n. destruct (select_migration_target_node t endpoint_of) as [tn|e]; cbn [mbind result_bind];
      [| apply runs_fail].
    destruct (build_migration_endpoint t tn) as [endpoint|e] eqn:E.
    + eapply runs_ext; [| apply (request_change k true (params endpoint) source n vmid)]. intros tr.
      unfold plift, mbind, Pve_bind. cbn beta iota. by rw E.
    + eapply runs_ext; [| apply (runs_fail e)]. intros tr. unfold plift, mbind, Pve_bind. cbn beta iota. by rw E.
  - intros n pre new r Hp Hc. right. destruct (_ ≫= _) as [endpoint|e]; [by exists n, pre, new |].
    destruct Hc as [-> ->]. split; [done |]. exists n. by rw app_nil_r.
  - intros pre e Hp. left. by exists e.
Qed.

(** What the migration comes to, given that the caller has the privileges *)
Lemma migration_tail k who target target_vmid (delete : bool) target_endpoint params source node vmid :
  has_priv who ResourceMigrate (guest_path target (default vmid target_vmid)) = true →
  (delete = true → has_priv who ResourceDelete (guest_path source vmid) = true) →
  runs (migration_run k who target target_vmid delete target_endpoint params source node vmid)
    (if String.eqb source target then pfail (PveFailed "source and destination clusters must be different")
     else
       remotes ← remotes_config;
       target ← pve_remote remotes target;
       _ ← connect_to_remote remotes source;
       node ← find_node_for_vm source node vmid;
       target_node ← plift (select_migration_target_node target target_endpoint);
       target_endpoint ← plift (build_migration_endpoint target target_node);
       r ← pve_ask (ChangeGuest source k node vmid (params target_endpoint));
       upid ← answered r;
       new_remote_upid source upid).
Proof.
  intros Hm Hd. destruct (String.eqb_spec source target) as [-> | Hne].
  { eapply runs_mono; [| apply runs_fail]. intros new r [-> ->]. left. eexists. split; [done |]. left.
    split; [done |]. left. by intros (_ & _ & ?). }
  assert (may_migrate who source vmid target target_vmid delete) as Hmay by done.
  assert (∀ e, migration_endpoint target target_endpoint = Err e →
    ∀ new r, new = [] ∧ r = Err e → migration_run k who target target_vmid delete target_endpoint params source node vmid new r)
    as Hearly.
  { intros e He new r [-> ->]. left. exists e. split; [done |]. left. split; [done |]. right. by exists e. }
  unfold migration_endpoint in Hearly. destruct config as [cfg|e] eqn:Hcfg.
  2:{ eapply runs_ext; [| apply (runs_mono _ _ _ (Hearly _ eq_refl) (runs_fail _))]. intros tr. unfold remotes_config. by rw Hcfg. }
  cbn [mbind result_bind] in Hearly. destruct (pve_get_remote cfg target) as [t|e] eqn:Ht.
  2:{ eapply runs_ext; [| apply (runs_mono _ _ _ (Hearly _ eq_refl) (runs_fail _))]. intros tr.
      unfold remotes_config, pve_remote. rw Hcfg. unfold plift, mbind, Pve_bind. cbn beta iota. by rw Ht. }
  eapply runs_ext; [| eapply runs_mono; [| apply (request_migration k cfg t target_endpoint params source node vmid Hcfg)]].
  { intros tr. unfold remotes_config, pve_remote. rw Hcfg. unfold plift, mbind, Pve_bind. cbn beta iota. by rw Ht. }
  intros new r [(e & Hp & ->) | Hc].
  { left. exists e. split; [done |]. right. split; [done |]. left. by exists e. }
  assert (migration_endpoint target target_endpoint
    = select_migration_target_node t target_endpoint ≫= build_migration_endpoint t) as He.
  { unfold migration_endpoint. rw Hcfg. cbn [mbind result_bind]. by rw Ht. }
  unfold migration_run, migration_refused. rw He. destruct (_ ≫= _) as [endpoint|e]; [right; split; [done |]; by exists endpoint |].
  destruct Hc as (-> & n & Hp). left. exists e. split; [done |]. right. split; [done |]. right. by exists n, e.
Qed.

Lemma remote_migrate_runs k who target target_vmid delete target_endpoint params source node vmid :
  runs (migration_run k who target target_vmid delete target_endpoint params source node vmid)
    (remote_migrate k who target target_vmid delete target_endpoint params source node vmid).
Proof.
  unfold remote_migrate. destruct (has_priv who ResourceMigrate _) eqn:Hm; cbn [negb]; cbn iota.
  2:{ eapply runs_mono; [| apply runs_fail]. intros new r [-> ->]. left. eexists. split; [done |]. left.
      split; [done |]. left. intros [? _]. congruence. }
  unfold check_guest_delete_perms. destruct delete.
  - destruct (has_priv who ResourceDelete _) eqn:Hd; [eapply runs_ext; [| by apply (migration_tail k who)]; done |].
    eapply runs_mono; [| eapply runs_ext; [| apply runs_fail]; done]. intros new r [-> ->]. left. eexists. split; [done |].
    left. split; [done |]. left. intros (_ & Hd' & _). specialize (Hd' eq_refl). congruence.
  - eapply runs_ext; [| by apply (migration_tail k who)]. done.
Qed.

(** *** All requests on a guest *)
Definition call_read (k : guest_kind) (c : guest_call) : option guest_read :=
  match c with
  | CallConfig state snapshot => Some (GuestConfig (current state) snapshot)
  | CallPending => Some GuestPending
  | CallStatus => Some GuestStatus
  | CallSnapshots => Some GuestSnapshots
  | CallPreconditions target => if decide (k = GuestQemu) then Some (MigratePreconditions target) else None
  | _ => None
  end.
Definition call_update (c : guest_call) : option (string * option string) :=
  match c with CallUpdateSnapshot name description => Some (name, description) | _ => None end.
(** The change that a request asks for *)
Definition call_change (k : guest_kind) (c : guest_call) (a : guest_action) : Prop :=
  match k, c with
  | _, CallStart => a = Start
  | _, CallStop => a = Stop
  | _, CallShutdown => a = Shutdown
  | GuestQemu, CallResume => a = Resume
  | GuestQemu, CallCreateSnapshot name description vmstate => a = CreateSnapshot name description vmstate
  | GuestLxc, CallCreateSnapshot name description _ => a = CreateSnapshot name description None
  | _, CallDeleteSnapshot name => a = DeleteSnapshot name
  | _, CallRollback name start => a = RollbackSnapshot name start
  | GuestQemu, CallMigrateQemu bwlimit force network ty online target storage disks =>
      a = InQemuMigration {|
        mq_bwlimit := bwlimit; mq_force := force; mq_migration_network := network; mq_migration_type := ty;
        mq_online := online; mq_target := target; mq_targetstorage := storage; mq_with_local_disks := disks;
        mq_with_conntrack_state := None |}
  | GuestLxc, CallMigrateLxc bwlimit restart online target storage timeout =>
      a = InLxcMigration {|
        ml_bwlimit := f64_of_Z <$> bwlimit; ml_online := online; ml_restart := restart; ml_target := target;
        ml_target_storage := storage; ml_timeout := timeout |}
  | GuestQemu, CallRemoteMigrateQemu target target_vmid delete online storage bridge bwlimit target_endpoint =>
      ∃ endpoint, migration_endpoint target target_endpoint = Ok endpoint ∧ a = ToRemoteQemu {|
        rq_target_bridge := bridge; rq_target_storage := storage; rq_delete := Some delete; rq_online := Some online;
        rq_target_vmid := target_vmid; rq_target_endpoint := endpoint; rq_bwlimit := bwlimit |}
  | GuestLxc, CallRemoteMigrateLxc target target_vmid delete online storage bridge bwlimit restart timeout target_endpoint =>
      ∃ endpoint, migration_endpoint target target_endpoint = Ok endpoint ∧ a = ToRemoteLxc {|
        rl_target_bridge := bridge; rl_target_storage := storage; rl_delete := Some delete; rl_online := Some online;
        rl_target_vmid := target_vmid; rl_target_endpoint := endpoint; rl_bwlimit := f64_of_Z <$> bwlimit;
        rl_restart := restart; rl_timeout := timeout |}
  | _, _ => False
  end.
Definition call_tracked (k : guest_kind) (c : guest_call) : bool :=
  match k, c with GuestQemu, (CallStop | CallShutdown) => false | _, _ => true end.

(** What the caller needs besides the privilege on the guest *)
Definition call_allowed (who : pve_caller) (c : guest_call) (remote : string) (vmid : Z) : Prop :=
  match c with
  | CallRemoteMigrateQemu target target_vmid delete _ _ _ _ _
  | CallRemoteMigrateLxc target target_vmid delete _ _ _ _ _ _ _ =>
      may_migrate who remote vmid target target_vmid delete
  | _ => True
  end.
(** Why nothing is requested of the guest: there is no such request, the remote or the node is not
    found, the guest is on the target already, or the migration is refused. *)
Definition call_refused (who : pve_caller) (k : guest_kind) (c : guest_call) (remote : string) (node : option string)
    (vmid : Z) (new : list pve_event) : Prop :=
  new = [] ∧ call_read k c = None ∧ call_update c = None ∧ (∀ a, ¬ call_change k c a)
  ∨ match c with
    | CallMigrateQemu _ _ _ _ _ target _ _ | CallMigrateLxc _ _ _ target _ _ =>
        (∃ e, prepare_run remote node vmid new (Err e)) ∨ prepare_run remote node vmid new (Ok target)
    | CallRemoteMigrateQemu target target_vmid delete _ _ _ _ target_endpoint
    | CallRemoteMigrateLxc target target_vmid delete _ _ _ _ _ _ target_endpoint =>
        migration_refused who remote node vmid target target_vmid delete target_endpoint new
    | _ => ∃ e, prepare_run remote node vmid new (Err e)
    end.

(** [guest_run new r]: nothing is requested and the call fails; or one read, one update of a
    snapshot or one change is requested of the guest on its node, and the reply is the answer. *)
Definition guest_run (who : pve_caller) (k : guest_kind) (c : guest_call) (remote : string) (node : option string)
    (vmid : Z) (new : list pve_event) (r : result pve_error guest_reply) : Prop :=
  ((∃ e, r = Err e) ∧ call_refused who k c remote node vmid new)
  ∨ call_allowed who c remote vmid ∧
    ((∃ q n pre a, call_read k c = Some q ∧ new = (pre ++ [existT (ReadGuest remote k n vmid q) a])%list
        ∧ prepare_run remote node vmid pre (Ok n) ∧ r = ReplyData <$> pve_failed a)
     ∨ (∃ name description n pre a, call_update c = Some (name, description)
        ∧ new = (pre ++ [existT (UpdateSnapshot remote k n vmid name description) a])%list
        ∧ prepare_run remote node vmid pre (Ok n) ∧ r = (λ _, ReplyUnit) <$> pve_failed a)
     ∨ (∃ a r', call_change k c a ∧ changed k remote node vmid a (call_tracked k c) new r' ∧ r = ReplyTask <$> r')).

Lemma runs_reply {A B} (f : A → B) P (m : PveM A) : runs P m → runs (λ new r, ∃ r', P new r' ∧ r = f <$> r') (x ← m; mret (f x)).
Proof.
  intros Hm. eapply pve_runs_bind; [exact Hm | intros a; apply pve_runs_ret | |].
  - intros a new new' r HP [-> ->]. rw app_nil_r. by exists (Ok a).
  - intros e new HP. by exists (Err e).
Qed.

Section calls.
Context (who : pve_caller) (k : guest_kind) (c : guest_call) (remote : string) (node : option string) (vmid : Z).
Abbreviation run_of := (guest_run who k c remote node vmid).
(** Requests without more conditions *)
Definition plain_call : Prop :=
  call_allowed who c remote vmid
  ∧ ∀ new e, prepare_run remote node vmid new (Err e) → call_refused who k c remote node vmid new.

Lemma reads_run q : plain_call → call_read k c = Some q → runs run_of (reply_data (read_guest k q remote node vmid)).
Proof.
  intros [Ha Hr] Hq. eapply runs_mono; [| apply runs_reply, read_guest_runs].
  intros new r (r' & [(e & Hp & ->) | (n & pre & a & -> & Hp & ->)] & ->).
  - left. split; [by eexists | by eapply Hr].
  - right. split; [done |]. left. by exists q, n, pre, a.
Qed.
Lemma updates_run name description : plain_call → call_update c = Some (name, description) →
  runs run_of (reply_unit (update_snapshot_config k name description remote node vmid)).
Proof.
  intros [Ha Hr] Hq. eapply runs_mono; [| apply (runs_reply (λ _, ReplyUnit)), update_snapshot_runs].
  intros new r (r' & [(e & Hp & ->) | (n & pre & a & -> & Hp & ->)] & ->).
  - left. split; [by eexists | by eapply Hr].
  - right. split; [done |]. right. left. by exists name, description, n, pre, a.
Qed.
Lemma changes_run a : plain_call → call_change k c a →
  runs run_of (reply_task (change_guest k (call_tracked k c) a remote node vmid)).
Proof.
  intros [Ha Hr] Hq. eapply runs_mono; [| apply runs_reply, change_guest_runs].
  intros new r (r' & [(e & Hp & ->) | Hc] & ->).
  - left. split; [by eexists | by eapply Hr].
  - right. split; [done |]. right. right. by exists a, r'.
Qed.
Lemma migrations_run target a : plain_call →
  (∀ new, prepare_run remote node vmid new (Ok target) → call_refused who k c remote node vmid new) →
  call_change k c a → call_tracked k c = true → runs run_of (reply_task (migrate k target a remote node vmid)).
Proof.
  intros [Ha Hr] Ht Hq Htr. eapply runs_mono; [| apply runs_reply, migrate_runs].
  intros new r (r' & [(e & Hp & ->) | [[Hp ->] | Hc]] & ->).
  - left. split; [by eexists | by eapply Hr].
  - left. split; [by eexists | by apply Ht].
  - right. split; [done |]. right. right. exists a, r'. by rw Htr.
Qed.
Lemma remote_migrations_run target target_vmid delete target_endpoint params :
  (∀ new, migration_refused who remote node vmid target target_vmid delete target_endpoint new →
     call_refused who k c remote node vmid new) →
  (may_migrate who remote vmid target target_vmid delete → call_allowed who c remote vmid) →
  (∀ endpoint, migration_endpoint target target_endpoint = Ok endpoint → call_change k c (params endpoint)) →
  call_tracked k c = true →
  runs run_of (reply_task (remote_migrate k who target target_vmid delete target_endpoint params remote node vmid)).
Proof.
  intros Hr Ha Hq Htr. eapply runs_mono; [| apply runs_reply, remote_migrate_runs].
  intros new r (r' & [(e & -> & Hp) | [Hm (endpoint & He & Hc)]] & ->).
  - left. split; [by eexists | by apply Hr].
  - right. split; [by apply Ha |]. right. right. exists (params endpoint), r'. rw Htr. split; [by apply Hq | done].
Qed.
Lemma no_route_run e : call_read k c = None → call_update c = None → (∀ a, ¬ call_change k c a) → runs run_of (pfail e).
Proof. intros Hr Hu Hc. eapply runs_mono; [| apply runs_fail]. intros new r [-> ->]. left. split; [by eexists |]. by left. Qed.
End calls.

(** Which requests have no more conditions *)
Definition is_plain (c : guest_call) : bool :=
  match c with
  | CallMigrateQemu _ _ _ _ _ _ _ _ | CallMigrateLxc _ _ _ _ _ _
  | CallRemoteMigrateQemu _ _ _ _ _ _ _ _ | CallRemoteMigrateLxc _ _ _ _ _ _ _ _ _ _ => false
  | _ => true
  end.
Lemma plain_ok who k c remote node vmid : is_plain c = true → plain_call who k c remote node vmid.
Proof. intros Hc. destruct c; try discriminate Hc; (split; [exact I |]); intros new e Hp; right; by exists e. Qed.

Lemma run_guest_call_runs who k c remote node vmid :
  runs (guest_run who k c remote node vmid) (run_guest_call who k c remote node vmid).
Proof.
  pose proof (λ c, plain_ok who k c remote node vmid) as Hp.
  destruct k, c; cbn [run_guest_call];
    lazymatch goal with
    | |- runs _ (pfail _) => apply no_route_run; [reflexivity | reflexivity | intros a []]
    | |- runs _ (reply_data ?m) =>
        let h := get_head m in unfold h;
        lazymatch goal with |- runs _ (reply_data (read_guest _ ?q _ _ _)) =>
          apply (reads_run _ _ _ _ _ _ q); [apply Hp; reflexivity | reflexivity] end
    | |- runs _ (reply_unit _) => eapply updates_run; [apply Hp; reflexivity | reflexivity]
    | |- runs _ (reply_task ?m) =>
        let h := get_head m in unfold h;
        lazymatch goal with
        | |- runs (guest_run _ ?k ?c _ _ _) (reply_task (change_guest _ _ ?a _ _ _)) =>
            apply (changes_run who k c remote node vmid a); [apply Hp; reflexivity | reflexivity]
        | |- runs (guest_run _ ?k ?c _ _ _) (reply_task (migrate _ _ _ _ _ _)) =>
            apply (migrations_run who k c); [| | reflexivity | reflexivity]
        | |- runs (guest_run _ ?k ?c _ _ _) (reply_task (remote_migrate _ _ _ _ _ _ _ _ _ _)) =>
            apply (remote_migrations_run who k c); [| | intros endpoint He; exists endpoint; split; [exact He | reflexivity] | reflexivity]
        end
    end.
  all: try (split; [exact I |]; intros new e Hr; right; left; by exists e).
  all: first [exact (λ _ H, or_intror (or_intror H)) | exact (λ _ H, or_intror H) | exact (λ H, H)].
Qed.

(** *** Which requests a run has *)
Definition is_change (q : pve_request) : bool :=
  match q with
  | ChangeGuest _ _ _ _ _ | UpdateSnapshot _ _ _ _ _ _ | RawPost _ _ _ | SetFwOptions _ _ _ | StopTask _ _ _ => true
  | _ => false
  end.
Definition changes (new : list pve_event) : list pve_request := List.filter is_change (projT1 <$> new).
Definition tracked (new : list pve_event) : list RemoteUpid :=
  filter_map (λ q, match q with TrackTask u => Some u | _ => None end) (projT1 <$> new).

Lemma changes_app l l' : changes (l ++ l')%list = (changes l ++ changes l')%list.
Proof. unfold changes. by rw fmap_app List.filter_app. Qed.
Lemma tracked_app l l' : tracked (l ++ l')%list = (tracked l ++ tracked l')%list.
Proof. unfold tracked. rw fmap_app. by rw filter_map_app. Qed.

Definition quiet (new : list pve_event) : Prop := changes new = [] ∧ tracked new = [].
Lemma quiet_app l l' : quiet l → quiet l' → quiet (l ++ l')%list.
Proof. intros [E1 E2] [E3 E4]. split; [by rw changes_app E1 E3 | by rw tracked_app E2 E4]. Qed.

Lemma connect_run_quiet remote new r : connect_run remote new r → quiet new.
Proof.
  unfold connect_run. destruct config as [cfg|]; [destruct (pve_get_remote cfg remote) as [rm|] |].
  - intros (a & -> & _). by split.
  - intros [-> _]. by split.
  - intros [-> _]. by split.
Qed.
Lemma lookup_run_quiet remote node vmid new r : lookup_run remote node vmid new r → quiet new.
Proof.
  unfold lookup_run. destruct node; [intros [-> _]; by split |]. intros (a & -> & _). by split.
Qed.
Lemma prepare_run_quiet remote node vmid new r : prepare_run remote node vmid new r → quiet new.
Proof.
  intros [(e & Hc & _) | (pre & new' & -> & Hc & Hl)]; [by eapply connect_run_quiet |].
  apply quiet_app; [by eapply connect_run_quiet | by eapply lookup_run_quiet].
Qed.

Definition reported_node (l : list ClusterResource) (vmid : Z) : option string :=
  find_by (λ r, bool_decide (cr_vmid r = Some vmid)) l ≫= cr_node.
(** The node of a guest, as it was given or reported *)
Definition guest_node (remote : string) (node : option string) (vmid : Z) (new : list pve_event) (n : string) : Prop :=
  match node with
  | Some n' => n = n'
  | None => ∃ l, existT (VmResources remote) (Ok l) ∈ new ∧ reported_node l vmid = Some n
  end.
Lemma prepare_run_node remote node vmid pre n new :
  prepare_run remote node vmid pre (Ok n) → guest_node remote node vmid (pre ++ new)%list n.
Proof.
  intros [(e & _ & [=]) | (pre' & new' & -> & _ & Hl)]. revert Hl. unfold lookup_run, guest_node.
  destruct node as [n'|]; [by intros [_ [= ->]] |]. intros (a & -> & Hr). destruct a as [l|e]; [| done].
  exists l. split; [apply elem_of_app; left; apply elem_of_app; right; by left |].
  revert Hr. fold (reported_node l vmid). destruct (reported_node l vmid); [by intros [= ->] | done].
Qed.

(** The one change that is requested of a guest *)
Definition asks (k : guest_kind) (c : guest_call) (remote n : string) (vmid : Z) (q : pve_request) : Prop :=
  (∃ a, call_change k c a ∧ q = ChangeGuest remote k n vmid a)
  ∨ ∃ name description, call_update c = Some (name, description) ∧ q = UpdateSnapshot remote k n vmid name description.

Lemma call_refused_quiet who k c remote node vmid new : call_refused who k c remote node vmid new → quiet new.
Proof.
  assert (∀ x, (∃ e, prepare_run remote node vmid new (Err e)) ∨ prepare_run remote node vmid new (Ok x) → quiet new) as Hq.
  { by intros x [[e ?] | ?]; eapply prepare_run_quiet. }
  assert (∀ t tv d te, migration_refused who remote node vmid t tv d te new → quiet new) as Hm.
  { intros t tv d te [[-> _] | [_ [[e ?] | (n & e & ? & _)]]]; [by split | by eapply prepare_run_quiet..]. }
  intros [(-> & _) | Hr]; [by split |]. destruct c; first [by eapply Hq | by eapply Hm | by destruct Hr as [e ?]; eapply prepare_run_quiet].
Qed.
Lemma changed_requests k remote node vmid a tr new r :
  changed k remote node vmid a tr new r →
  ∃ n, guest_node remote node vmid new n ∧ changes new = [ChangeGuest remote k n vmid a] ∧
    match r with Ok u => tracked new = if tr then [u] else [] | Err _ => True end.
Proof.
  intros (n & pre & new' & -> & Hp & ans & post & -> & Hf). exists n. split; [by eapply prepare_run_node |].
  apply prepare_run_quiet in Hp as [Hc Ht]. rw changes_app tracked_app Hc Ht. cbn -[followed]. revert Hf. unfold followed.
  destruct ans as [upid|e]; [| by intros [-> ->]]. destruct (try_from_pair remote upid) as [u|e]; [| by intros [-> ->]].
  destruct tr; [| by intros [-> ->]]. intros (a' & -> & ->). by destruct a' as [[]|e].
Qed.

(** What the requests of a run on a guest are: nothing is changed and the call fails or reads, or one
    change is requested; the task of the reply is tracked, or not. *)
Definition guest_requests (who : pve_caller) (k : guest_kind) (c : guest_call) (remote : string) (node : option string)
    (vmid : Z) (new : list pve_event) (r : result pve_error guest_reply) : Prop :=
  ((changes new = [] ∧ ((∃ e, r = Err e) ∨ ∃ q, call_read k c = Some q))
   ∨ ∃ n q, changes new = [q] ∧ guest_node remote node vmid new n ∧ asks k c remote n vmid q ∧ call_allowed who c remote vmid)
  ∧ (∀ u, r = Ok (ReplyTask u) → tracked new = if call_tracked k c then [u] else []).

Lemma guest_run_requests who k c remote node vmid new r :
  guest_run who k c remote node vmid new r → guest_requests who k c remote node vmid new r.
Proof.
  intros Hr.
  destruct Hr as [[[e ->] Hq%call_refused_quiet] | [Ha [Hr | [Hr | Hr]]]].
  - split; [left; split; [apply Hq | left; by exists e] | done].
  - destruct Hr as (q & n & pre & a & Hq & -> & [Hc Ht]%prepare_run_quiet & ->). split.
    + left. split; [by rw changes_app Hc | right; by exists q].
    + by destruct a.
  - destruct Hr as (name & description & n & pre & a & Hu & -> & Hpre & ->).
    pose proof (prepare_run_quiet _ _ _ _ _ Hpre) as [Hc Ht]. split; [| by destruct a].
    right. exists n, (UpdateSnapshot remote k n vmid name description).
    split_and!; [by rw changes_app Hc | by eapply prepare_run_node | right; by exists name, description | done].
  - destruct Hr as (a & r' & Hc & (n & Hn & Hch & Ht)%changed_requests & ->). split.
    + right. exists n, (ChangeGuest remote k n vmid a). split_and!; [done | done | left; by exists a | done].
    + intros u. destruct r' as [u'|e]; [by intros [= <-] | done].
Qed.

(** *** Lists of guests *)

(** The guests of the nodes that are asked, in order *)
Definition node_events (remote : string) (k : guest_kind) (nodes : list string) (lists : list (list guest_entry))
    : list pve_event :=
  zip_with (λ n l, existT (NodeGuests remote k n) (Ok l)) nodes lists.
Definition gathered (remote : string) (k : guest_kind) (nodes : list string) (new : list pve_event)
    (r : result pve_error (list guest_entry)) : Prop :=
  (∃ e, r = Err e) ∨ ∃ lists, length lists = length nodes ∧ new = node_events remote k nodes lists ∧ r = Ok (concat lists).
Lemma guests_of_nodes_runs remote k nodes : runs (gathered remote k nodes) (guests_of_nodes remote k nodes).
Proof.
  induction nodes as [|n nodes IH]; cbn [guests_of_nodes].
  { eapply runs_mono; [| apply pve_runs_ret]. intros new r [-> ->]. right. by exists []. }
  eapply (runs_request (NodeGuests remote k n) id _ (λ l new r,
    (∃ e, r = Err e) ∨ ∃ lists, length lists = length nodes ∧ new = node_events remote k nodes lists
      ∧ r = Ok (l ++ concat lists)%list)).
  - intros l. eapply pve_runs_bind; [exact IH | intros l'; apply pve_runs_ret | |].
    + intros l' new new' r [[e [=]] | (lists & Hl & -> & [= ->])] [-> ->]. right. exists lists. by rw app_nil_r.
    + intros e new _. left. by exists e.
  - intros a l new r [=] [He | (lists & Hl & -> & ->)]; [by left |]. subst a. right. exists (l :: lists).
    split; [cbn; by f_equal | done].
  - intros a e _. left. by exists (PveFailed e).
Qed.

Definition listed_run (k : guest_kind) (remote : string) (node : option string) (visible : guest_entry → bool)
    (new : list pve_event) (r : result pve_error (list guest_entry)) : Prop :=
  (∃ e, r = Err e)
  ∨ ∃ pre nodes lists, length lists = length nodes ∧ new = (pre ++ node_events remote k nodes lists)%list
      ∧ r = Ok (List.filter visible (concat lists))
      ∧ match node with
        | Some n => nodes = [n]
        | None => existT (PveNodes remote) (Ok nodes) ∈ pre
        end.

(** Who sees a guest in a list *)
Definition guest_visible (who : pve_caller) (remote : string) (e : guest_entry) : bool :=
  has_priv who ResourceAudit ["resource"; remote] || has_priv who ResourceAudit (guest_path remote (entry_vmid e)).
Lemma filter_true {A} (f : A → bool) l : (∀ x, f x = true) → List.filter f l = l.
Proof. intros Hf. induction l as [|x l IH]; [done |]. simpl. by rw (Hf x) IH. Qed.

Lemma list_guests_runs k who remote node :
  runs (λ new r, (has_priv_below who ResourceAudit ["resource"; remote] = false → new = [] ∧ ∃ e, r = Err e)
          ∧ listed_run k remote node (guest_visible who remote) new r)
    (list_guests k who remote node).
Proof.
  unfold list_guests, check_guest_list_permissions. destruct (has_priv_below who _ _); cbn [negb].
  2:{ eapply runs_ext; [| eapply runs_mono; [| apply (runs_fail (ApiForbidden "user has no access to resource list"))]].
      { done. } intros new r [-> ->]. split; [split; [done | by eexists] | left; by eexists]. }
  eapply runs_mono; [intros new r Hlr; split; [done | exact Hlr] |].
  eapply (runs_ext _ (_ ← connect_to_remote_by_id remote; _)); [intros tr; reflexivity |].
  eapply (pve_runs_bind _ (λ _, listed_run k remote node (guest_visible who remote))); [apply connect_runs | | |].
  - intros _. eapply (pve_runs_bind (λ new r, (∃ e, r = Err e) ∨ ∃ pre nodes lists, length lists = length nodes
        ∧ new = (pre ++ node_events remote k nodes lists)%list ∧ r = Ok (concat lists)
        ∧ match node with Some n => nodes = [n] | None => existT (PveNodes remote) (Ok nodes) ∈ pre end)).
    + destruct node as [n|].
      * intros tr r tr' E. exists [existT (NodeGuests remote k n) (env (NodeGuests remote k n) tr)]. revert E.
        unfold pve_ask, answered, plift. unfold mbind, Pve_bind.
        destruct (env (NodeGuests remote k n) tr) as [l|e]; intros [= <- <-]; (split; [done |]); [right | left; by eexists].
        exists [], [n], [l]. cbn. by rw app_nil_r.
      * eapply (runs_request (PveNodes remote) id _ (gathered remote k)); [apply guests_of_nodes_runs | |].
        -- intros a nodes new r [=] [He | (lists & Hl & -> & ->)]; [by left |]. subst a. right.
           exists [existT (PveNodes remote) (Ok nodes)], nodes, lists. split_and!; [done | done | done | by left].
        -- intros a e _. left. by eexists.
    + intros l. apply pve_runs_ret.
    + intros l new new' r [[e [=]] | (pre & nodes & lists & Hl & -> & [= ->] & Hn)] [-> ->]. right. exists pre, nodes, lists.
      rw app_nil_r. split_and!; [done | done | | done]. f_equal. unfold guest_visible.
      destruct (has_priv who _ _); [by rw filter_true | done].
    + intros e new _. left. by eexists.
  - intros [] new new' r _ [He | (pre & nodes & lists & Hl & -> & -> & Hn)]; [by left |]. right. exists (new ++ pre)%list, nodes, lists.
    rw app_assoc. split_and!; [done | done | done |]. destruct node; [done |]. apply elem_of_app. by right.
  - intros e new _. left. by eexists.
Qed.
End requests.
