(* ===== verification/PveApi.v ===== *)
(** * The other requests on a PVE remote

    server/src/api/pve: tasks.rs, node.rs, storage.rs, firewall.rs and the requests on the cluster in
    mod.rs, as runs of PveGuests.  The first theorem is about all requests that change something;
    the second part has the status of the firewalls, gathered with the parallel fetcher. *)
From S2P Require Import Prelude RustStr Remotes Disk Search Resources RemotesConfig TaskArchive TaskExample Fetcher FetcherProps Examples SdnClient SdnProps NexusJson NexusDomains NexusDomainProps PveGuests.

#[local] Open Scope string_scope.

(** [GuestKind::as_str] and the path segments of server/src/api/pve/node.rs *)
Definition guest_kind_str (k : guest_kind) : string := match k with GuestQemu => "qemu" | GuestLxc => "lxc" end.

(** ** Firewall status: lib/pdm-api-types/src/firewall.rs *)
Record RuleStat := { all : nat; active : nat }.
Record FirewallStatus := { enabled : bool; rules : RuleStat }.
Record GuestFirewallStatus := {
  gf_vmid : Z; gf_name : string; gf_status : option FirewallStatus; gf_kind : guest_kind;
}.
Record NodeFirewallStatus := {
  nf_node : string; nf_status : option FirewallStatus; nf_guests : list GuestFirewallStatus;
}.
Record RemoteFirewallStatus := {
  rf_remote : string; rf_status : option FirewallStatus; rf_nodes : list NodeFirewallStatus;
}.
Record ClusterFirewallData := { cf_status : option FirewallStatus; cf_guests : list ClusterResource }.

Section api.
Context `{PveTypes} `{SectionData Remote} `{UpidEnv} `{JsonText}.
Context (env : ∀ q, list pve_event → pve_answer q).
Context (config : result error (sec_data Remote)).
Abbreviation ask := (pve_ask env).
Abbreviation by_id := (connect_to_remote_by_id env config).
Abbreviation node_of := (find_node_for_vm env).

(** ** Tasks: tasks.rs *)
Definition verify_upid (remote : string) (ty : RemoteType) (u : RemoteUpid) : result pve_error () :=
  _ ← bail_if (negb (String.eqb (ru_remote u) remote)) (PveFailed "remote does not match remote in upid");
  bail_if (bool_decide (ru_type u ≠ ty)) (PveFailed "upid does not belong to a remote of this type").
Definition parsed_pve_upid (u : RemoteUpid) : result pve_error NativeFields :=
  match pve_upid u with Ok f => Ok f | Err e => Err (BadTask e) end.

Fixpoint tasks_of_nodes (remote : string) (nodes : list string) : PveM (list pve_task_entry) :=
  match nodes with
  | [] => mret []
  | node :: nodes' =>
      a ← ask (NodeTasks remote node);
      l ← answered a;
      l' ← tasks_of_nodes remote nodes';
      mret (l ++ l')%list
  end.
Definition pve_list_tasks (remote : string) (node : option string) : PveM (list pve_task_entry) :=
  _ ← by_id remote;
  match node with
  | Some node => a ← ask (NodeTasks remote node); answered a
  | None => a ← ask (PveNodes remote); nodes ← answered a; tasks_of_nodes remote nodes
  end.

Definition stop_task (remote : string) (upid : RemoteUpid) : PveM () :=
  _ ← plift (verify_upid remote Pve upid);
  f ← plift (parsed_pve_upid upid);
  _ ← by_id (ru_remote upid);
  a ← ask (StopTask (ru_remote upid) (nu_node f) (ru_upid upid));
  answered a.

(** The loop of [get_task_status], for at most [fuel] requests *)
Fixpoint poll_task_status (fuel : nat) (remote node upid : string) (wait : bool) : PveM (option TaskStatus) :=
  match fuel with
  | O => mret None
  | S fuel' =>
      a ← ask (TaskStatusOf remote node upid);
      status ← answered a;
      if negb wait || negb (is_running status) then mret (Some status)
      else poll_task_status fuel' remote node upid wait
  end.
Definition get_task_status (fuel : nat) (remote : string) (upid : RemoteUpid) (wait : bool) : PveM (option TaskStatus) :=
  _ ← plift (verify_upid remote Pve upid);
  f ← plift (parsed_pve_upid upid);
  _ ← by_id (ru_remote upid);
  poll_task_status fuel (ru_remote upid) (nu_node f) (ru_upid upid) wait.

(** The attributes are set on the response. *)
Definition read_task_log (remote : string) (upid : RemoteUpid) (download : option bool) (start limit : option Z)
    : PveM (list (string * Json) * pve_data) :=
  _ ← plift (verify_upid remote Pve upid);
  f ← plift (parsed_pve_upid upid);
  _ ← by_id (ru_remote upid);
  a ← ask (TaskLog (ru_remote upid) (nu_node f) (ru_upid upid) download limit start);
  answered a.

(** ** Nodes: node.rs and storage.rs *)
Definition read_node (q : node_read) (remote node : string) : PveM pve_data :=
  _ ← by_id remote;
  a ← ask (ReadNode remote node q);
  answered a.
Definition node_get_config := read_node NodeConfig.
Definition node_get_status := read_node NodeStatus.
Definition node_get_subscription := read_node NodeSubscription.
Definition get_network (interface_type : option string) := read_node (NodeNetworks interface_type).
Definition get_storages (content : option (list string)) (enabled format : option bool) (storage target : option string) :=
  read_node (NodeStorages content enabled format storage target).
Definition storage_get_status (storage : string) := read_node (StorageStatus storage).

(** A UPID prints as the text that was parsed. *)
Definition create_guest (remote node kind config_text : string) : PveM RemoteUpid :=
  params ← plift (match json_from_str config_text with Some v => Ok v | None => Err (PveJson config_text) end);
  _ ← plift (match as_object params with Some _ => Ok () | None => Err (PveFailed "guest creation config must be a JSON object") end);
  remotes ← remotes_config config;
  remote_config ← pve_remote remotes remote;
  c ← ask (ConnectRaw (remote_id remote_config));
  _ ← answered c;
  a ← ask (RawPost remote ("/api2/extjs/nodes/" ++ node ++ "/" ++ kind) params);
  upid ← answered a;
  _ ← plift (match parse_pve_upid upid with Some _ => Ok () | None => Err (BadTask (InvalidUpid upid)) end);
  new_remote_upid env remote upid.
Definition create_lxc (remote node config_text : string) := create_guest remote node "lxc" config_text.
Definition create_qemu (remote node config_text : string) := create_guest remote node "qemu" config_text.

(** ** The cluster: mod.rs *)
Definition list_nodes (remote : string) : PveM (list string) :=
  _ ← by_id remote;
  a ← ask (PveNodes remote);
  answered a.
(** [map_pve_resource] of mod.rs, which has no networks *)
Definition pve_map_resource (remote : string) (r : ClusterResource) : option Resource :=
  match cr_ty r with
  | CrNode => PveNode <$> map_pve_node remote r
  | CrLxc => PveLxc <$> map_pve_lxc remote r
  | CrQemu => PveQemu <$> map_pve_qemu remote r
  | CrStorage => PveStorage <$> map_pve_storage remote r
  | _ => None
  end.
Definition cluster_resources (who : pve_caller) (remote : string) (kind : option string) : PveM (list Resource) :=
  if negb (has_priv_below who ResourceAudit ["resource"; remote])
  then pfail (ApiForbidden "user has no access to resource list")
  else
    _ ← by_id remote;
    a ← ask (ClusterResources remote kind);
    l ← answered a;
    mret (filter_map (pve_map_resource remote) l).
Definition with_endpoint (remote : string) (target_endpoint : option string) : PveM () :=
  remotes ← remotes_config config;
  r ← pve_remote remotes remote;
  a ← ask (ConnectEndpoint (remote_id r) target_endpoint);
  answered a.
Definition cluster_status (remote : string) (target_endpoint : option string) : PveM pve_data :=
  _ ← with_endpoint remote target_endpoint;
  a ← ask (ReadCluster remote ClusterStatus);
  answered a.
Definition cluster_nextid (remote : string) (target_endpoint : option string) : PveM Z :=
  _ ← with_endpoint remote target_endpoint;
  a ← ask (NextVmid remote);
  answered a.
Definition get_options (remote : string) : PveM pve_data :=
  _ ← by_id remote;
  a ← ask (ReadCluster remote ClusterOptions);
  answered a.

(** ** Firewalls: firewall.rs *)

(** What is done at a place once its node is known *)
Definition fw_options_at (remote : string) (p : fw_place) : PveM (fw_options p) :=
  a ← ask (FwOptions remote p); answered a.
Definition fw_rules_at (remote : string) (p : fw_place) : PveM (list fw_rule) :=
  a ← ask (FwRules remote p); answered a.
Definition fw_update_at (remote : string) (p : fw_place) (u : fw_update p) : PveM () :=
  a ← ask (SetFwOptions remote p u); answered a.

Definition cluster_firewall_options (remote : string) : PveM cluster_fw :=
  _ ← by_id remote; fw_options_at remote FwCluster.
Definition node_firewall_options (remote node : string) : PveM node_fw :=
  _ ← by_id remote; fw_options_at remote (FwNode node).
Definition guest_firewall_options (k : guest_kind) (remote : string) (node : option string) (vmid : Z) : PveM guest_fw :=
  _ ← by_id remote; node ← node_of remote node vmid; fw_options_at remote (FwGuest k node vmid).
Definition lxc_firewall_options := guest_firewall_options GuestLxc.
Definition qemu_firewall_options := guest_firewall_options GuestQemu.

Definition cluster_firewall_rules (remote : string) : PveM (list fw_rule) :=
  _ ← by_id remote; fw_rules_at remote FwCluster.
Definition node_firewall_rules (remote node : string) : PveM (list fw_rule) :=
  _ ← by_id remote; fw_rules_at remote (FwNode node).
Definition guest_firewall_rules (k : guest_kind) (remote : string) (node : option string) (vmid : Z) : PveM (list fw_rule) :=
  _ ← by_id remote; node ← node_of remote node vmid; fw_rules_at remote (FwGuest k node vmid).
Definition lxc_firewall_rules := guest_firewall_rules GuestLxc.
Definition qemu_firewall_rules := guest_firewall_rules GuestQemu.

Definition update_cluster_firewall_options (remote : string) (u : cluster_fw_update) : PveM () :=
  _ ← by_id remote; fw_update_at remote FwCluster u.
Definition update_node_firewall_options (remote node : string) (u : node_fw_update) : PveM () :=
  _ ← by_id remote; fw_update_at remote (FwNode node) u.
Definition update_guest_firewall_options (k : guest_kind) (u : guest_fw_update) (remote : string) (node : option string)
    (vmid : Z) : PveM () :=
  _ ← by_id remote; node ← node_of remote node vmid; fw_update_at remote (FwGuest k node vmid) u.
Definition update_lxc_firewall_options := update_guest_firewall_options GuestLxc.
Definition update_qemu_firewall_options := update_guest_firewall_options GuestQemu.

(** *** Status *)
Definition count_rules (l : list fw_rule) : RuleStat :=
  {| all := length l; active := length (List.filter (λ r, bool_decide (fw_rule_enable r = Some 1%Z)) l) |}.
(** The options and then the rules are asked for; there is a status if both are answered. *)
Definition place_status (p : fw_place) (is_enabled : fw_options p → bool) (remote : string) : PveM (option FirewallStatus) :=
  o ← ask (FwOptions remote p);
  r ← ask (FwRules remote p);
  mret (match (o : result string (fw_options p)), (r : result string (list fw_rule)) with
        | Ok o, Ok r => Some {| enabled := is_enabled o; rules := count_rules r |}
        | _, _ => None
        end).

Definition fetch_cluster_firewall_data (remote : string) : PveM ClusterFirewallData :=
  c ← ask (ConnectPve remote);
  _ ← answered c;
  a ← ask (VmResources remote);
  match (a : result string (list ClusterResource)) with
  | Err _ => mret {| cf_status := None; cf_guests := [] |}
  | Ok guests =>
      status ← place_status FwCluster (λ o, match cluster_fw_enable o with Some e => negb (Z.eqb e 0) | None => false end) remote;
      mret {| cf_status := status; cf_guests := guests |}
  end.

Definition guests_on (node : string) (guests : list ClusterResource) : list (Z * string * guest_kind) :=
  filter_map (λ g,
    vmid ← cr_vmid g;
    let name := default "" (cr_name g) in
    match cr_ty g with
    | CrLxc => Some (vmid, name, GuestLxc)
    | CrQemu => Some (vmid, name, GuestQemu)
    | _ => None
    end) (List.filter (λ g, bool_decide (cr_node g = Some node)) guests).
Fixpoint guest_statuses (remote node : string) (guests : list (Z * string * guest_kind)) : PveM (list GuestFirewallStatus) :=
  match guests with
  | [] => mret []
  | (vmid, name, kind) :: guests' =>
      status ← place_status (FwGuest kind node vmid) (λ o, default false (guest_fw_enable o)) remote;
      l ← guest_statuses remote node guests';
      mret ({| gf_vmid := vmid; gf_name := name; gf_status := status; gf_kind := kind |} :: l)
  end.
Definition load_guests_firewall_status (remote node : string) (guests : list ClusterResource) : PveM (list GuestFirewallStatus) :=
  guest_statuses remote node (guests_on node guests).

Definition fetch_node_firewall_status (guests : list ClusterResource) (remote node : string) : PveM NodeFirewallStatus :=
  c ← ask (ConnectPve remote);
  _ ← answered c;
  status ← place_status (FwNode node) (λ o, default true (node_fw_enable o)) remote;
  guests_status ← load_guests_firewall_status remote node guests;
  mret {| nf_node := node; nf_status := status; nf_guests := guests_status |}.

Definition node_firewall_status (remote node : string) : PveM NodeFirewallStatus :=
  _ ← by_id remote;
  a ← ask (VmResources remote);
  guests ← answered a;
  status ← place_status (FwNode node) (λ o, default false (node_fw_enable o)) remote;
  guests_status ← load_guests_firewall_status remote node guests;
  mret {| nf_node := node; nf_status := status; nf_guests := guests_status |}.

(** *** Status of all remotes *)

(** The answer that [do_for_all_remotes] has for a remote, and those of the nodes of a remote *)
Definition first_data {T} (r : RemoteResponse T) : option T :=
  match rr_nodes r with Ok ({| data := Ok d |} :: _) => Some d | _ => None end.
Definition answered_nodes {T} (r : RemoteResponse T) : list T :=
  match rr_nodes r with
  | Ok l => filter_map (λ n, match data n with Ok d => Some d | Err _ => None end) l
  | Err _ => []
  end.
Definition add_guests (m : gmap string (list ClusterResource)) (r : RemoteResponse ClusterFirewallData) :=
  match first_data r with Some d => <[rr_name r := cf_guests d]> m | None => m end.
Definition guests_per_remote (results : list (RemoteResponse ClusterFirewallData)) : gmap string (list ClusterResource) :=
  foldl add_guests ∅ results.
Definition combine_status (cluster_results : list (RemoteResponse ClusterFirewallData))
    (node_results : list (RemoteResponse NodeFirewallStatus)) (remote : string) : RemoteFirewallStatus :=
  let cluster_status := (get_remote_response cluster_results remote ≫= first_data) ≫= cf_status in
  let node_fetch_result := get_remote_response node_results remote in
  let nodes_failed := match node_fetch_result with Some {| rr_nodes := Err _ |} => true | _ => false end in
  {| rf_remote := remote;
     rf_status := if nodes_failed then None else cluster_status;
     rf_nodes := match node_fetch_result with Some r => answered_nodes r | None => [] end |}.

(** The fetcher is given: what it makes of the remotes, with the guests for the second one *)
Context (fetch_clusters : list Remote → list (RemoteResponse ClusterFirewallData)).
Context (fetch_nodes : (string → list ClusterResource) → list Remote → list (RemoteResponse NodeFirewallStatus)).

Definition pve_firewall_status : result error (list RemoteFirewallStatus) :=
  config ← config;
  let pve_remotes := (iter_remote_type Pve (sec_list config)).*2 in
  match pve_remotes with
  | [] => Ok []
  | _ =>
      let cluster_results := fetch_clusters pve_remotes in
      let guests := guests_per_remote cluster_results in
      let node_results := fetch_nodes (λ r, default [] (guests !! r)) pve_remotes in
      Ok (combine_status cluster_results node_results <$> (remote_id <$> pve_remotes))
  end.

Definition cluster_firewall_status (remote : string) : result pve_error RemoteFirewallStatus :=
  config ← match config with Ok c => Ok c | Err e => Err (RemotesUnreadable e) end;
  remote_obj ← ok_or (snd <$> find_by (λ p, String.eqb p.1 remote) (sec_list config)) (PveFailed ("Remote '" ++ remote ++ "' not found"));
  let cluster_results := fetch_clusters [remote_obj] in
  Ok match get_remote_response cluster_results remote ≫= first_data with
     | Some d => combine_status cluster_results (fetch_nodes (λ _, cf_guests d) [remote_obj]) remote
     | None => {| rf_remote := remote; rf_status := None; rf_nodes := [] |}
     end.
End api.

(** ** The router of a remote: /pve/remotes/{remote} *)
Section router.
Context `{PveTypes} `{SectionData Remote} `{UpidEnv} `{JsonText}.
Context (env : ∀ q, list pve_event → pve_answer q).
Context (config : result error (sec_data Remote)).
Context (host_reachable : string → string → bool).
Context (parse_authority : string → result string (string * option Z)).
Context (get_secret : Remote → result string string).

Inductive pve_call :=
| OnGuest (k : guest_kind) (c : guest_call) (node : option string) (vmid : Z)
| ListGuests (k : guest_kind) (node : option string)
| ListTasks (node : option string)
| StopTaskCall (u : RemoteUpid)
| TaskStatusCall (u : RemoteUpid) (wait : bool)
| TaskLogCall (u : RemoteUpid) (download : option bool) (start limit : option Z)
| NodeCall (node : string) (q : node_read)
| CreateGuestCall (k : guest_kind) (node config_text : string)
| ListNodesCall
| ResourcesCall (kind : option string)
| ClusterStatusCall (target_endpoint : option string)
| NextVmidCall (target_endpoint : option string)
| OptionsCall
| FwOptionsCall (k : guest_kind) (node : option string) (vmid : Z)
| FwRulesCall (k : guest_kind) (node : option string) (vmid : Z)
| FwNodeOptionsCall (node : string) | FwNodeRulesCall (node : string) | FwNodeStatusCall (node : string)
| FwClusterOptionsCall | FwClusterRulesCall
| SetClusterFw (u : cluster_fw_update)
| SetNodeFw (node : string) (u : node_fw_update)
| SetGuestFw (k : guest_kind) (node : option string) (vmid : Z) (u : guest_fw_update).

Inductive pve_reply :=
| RGuest (g : guest_reply) | RUnit | RTask (u : RemoteUpid) | RData (d : pve_data) | RGuests (l : list guest_entry)
| RTasks (l : list pve_task_entry) | RTaskStatus (s : option TaskStatus) | RLog (l : list (string * Json) * pve_data)
| RNodes (l : list string) | RResources (l : list Resource) | RVmid (n : Z) | RClusterFw (o : cluster_fw) | RNodeFw (o : node_fw)
| RGuestFw (o : guest_fw) | RRules (l : list fw_rule) | RNodeStatus (s : NodeFirewallStatus).

(** The privilege that the declaration of a handler asks for, and where *)
Definition node_path (remote node : string) : list string := ["resource"; remote; "node"; node].
Definition pve_permission (remote : string) (c : pve_call) : privilege * list string :=
  match c with
  | OnGuest _ c _ vmid => (guest_permission c, guest_path remote vmid)
  | ListGuests _ _ | ListTasks _ | TaskStatusCall _ _ | TaskLogCall _ _ _ _ => (ResourceAudit, ["resource"; remote])
  | StopTaskCall _ => (ResourceManage, ["resource"; remote])
  | NodeCall _ (StorageStatus storage) => (ResourceAudit, ["resource"; remote; "storage"; storage])
  | NodeCall node _ => (ResourceAudit, node_path remote node)
  | CreateGuestCall _ node _ => (ResourceManage, node_path remote node)
  | ListNodesCall | ResourcesCall _ | ClusterStatusCall _ | NextVmidCall _ | OptionsCall | FwNodeOptionsCall _
  | FwNodeRulesCall _ | FwNodeStatusCall _ | FwClusterOptionsCall | FwClusterRulesCall =>
      (ResourceAudit, ["resource"; remote])
  | FwOptionsCall _ _ vmid | FwRulesCall _ _ vmid => (ResourceAudit, guest_path remote vmid)
  | SetClusterFw _ => (SysModify, ["resource"; remote])
  | SetNodeFw _ _ => (ResourceModify, ["resource"; remote])
  | SetGuestFw _ _ vmid _ => (ResourceModify, guest_path remote vmid)
  end.

Definition reply {A} (f : A → pve_reply) (m : PveM A) : PveM pve_reply := a ← m; mret (f a).

(** [fuel] bounds the requests of a task status that waits. *)
Definition run_pve_call (fuel : nat) (who : pve_caller) (remote : string) (c : pve_call) : PveM pve_reply :=
  match c with
  | OnGuest k c node vmid =>
      reply RGuest (run_guest_call env config host_reachable parse_authority get_secret who k c remote node vmid)
  | ListGuests k node => reply RGuests (list_guests env config k who remote node)
  | ListTasks node => reply RTasks (pve_list_tasks env config remote node)
  | StopTaskCall u => reply (λ _, RUnit) (stop_task env config remote u)
  | TaskStatusCall u wait => reply RTaskStatus (get_task_status env config fuel remote u wait)
  | TaskLogCall u download start limit => reply RLog (read_task_log env config remote u download start limit)
  | NodeCall node q => reply RData (read_node env config q remote node)
  | CreateGuestCall k node text => reply RTask (create_guest env config remote node (guest_kind_str k) text)
  | ListNodesCall => reply RNodes (list_nodes env config remote)
  | ResourcesCall kind => reply RResources (cluster_resources env config who remote kind)
  | ClusterStatusCall e => reply RData (cluster_status env config remote e)
  | NextVmidCall e => reply RVmid (cluster_nextid env config remote e)
  | OptionsCall => reply RData (get_options env config remote)
  | FwOptionsCall k node vmid => reply RGuestFw (guest_firewall_options env config k remote node vmid)
  | FwRulesCall k node vmid => reply RRules (guest_firewall_rules env config k remote node vmid)
  | FwNodeOptionsCall node => reply RNodeFw (node_firewall_options env config remote node)
  | FwNodeRulesCall node => reply RRules (node_firewall_rules env config remote node)
  | FwNodeStatusCall node => reply RNodeStatus (node_firewall_status env config remote node)
  | FwClusterOptionsCall => reply RClusterFw (cluster_firewall_options env config remote)
  | FwClusterRulesCall => reply RRules (cluster_firewall_rules env config remote)
  | SetClusterFw u => reply (λ _, RUnit) (update_cluster_firewall_options env config remote u)
  | SetNodeFw node u => reply (λ _, RUnit) (update_node_firewall_options env config remote node u)
  | SetGuestFw k node vmid u => reply (λ _, RUnit) (update_guest_firewall_options env config k u remote node vmid)
  end.
Definition handle_pve (fuel : nat) (who : pve_caller) (remote : string) (c : pve_call) : PveM pve_reply :=
  let '(p, path) := pve_permission remote c in
  if has_priv who p path then run_pve_call fuel who remote c else pfail (ApiForbidden "permission check failed").

(** *** What the requests change *)

(** Runs that change nothing, and runs with at most the one change *)
Definition reads_only {A} (m : PveM A) : Prop := runs (λ new _, changes new = []) m.
Definition changing {A} (P : pve_request → Prop) (m : PveM A) : Prop :=
  runs (λ new r, (changes new = [] ∧ ∃ e, r = Err e) ∨ ∃ q, changes new = [q] ∧ P q) m.

Lemma reads_lift {A} (r : result pve_error A) : reads_only (plift r).
Proof. eapply runs_mono; [| apply runs_plift]. by intros new r' [-> _]. Qed.
Lemma reads_answered {A} (r : result string A) : reads_only (answered r).
Proof. apply reads_lift. Qed.
Lemma pve_reads_ret {A} (a : A) : reads_only (mret a).
Proof. apply (reads_lift (Ok a)). Qed.
Lemma reads_fail {A} e : reads_only (pfail e : PveM A).
Proof. apply (reads_lift (Err e)). Qed.
Lemma reads_ask q : is_change q = false → reads_only (pve_ask env q).
Proof.
  intros Hq. eapply runs_mono; [| apply pve_runs_ask]. intros new r (a & -> & _). unfold changes. cbn. by rw Hq.
Qed.
Lemma pve_reads_bind {A B} (m : PveM A) (f : A → PveM B) : reads_only m → (∀ a, reads_only (f a)) → reads_only (m ≫= f).
Proof.
  intros Hm Hf. eapply pve_runs_bind; [exact Hm | exact Hf | |].
  - intros a new new' r E E'. by rw changes_app E E'.
  - done.
Qed.

Lemma changing_bind {A B} P (m : PveM A) (f : A → PveM B) :
  reads_only m → (∀ a, changing P (f a)) → changing P (m ≫= f).
Proof.
  intros Hm Hf. eapply pve_runs_bind; [exact Hm | exact Hf | |].
  - intros a new new' r E [[E' He] | (q & E' & HP)]; [left | right; exists q]; (split; [by rw changes_app E E' | done]).
  - intros e new E. left. split; [done | by exists e].
Qed.
Lemma changing_lift {A B} P (r : result pve_error A) (f : A → PveM B) :
  (∀ a, r = Ok a → changing P (f a)) → changing P (plift r ≫= f).
Proof.
  intros Hf tr r' tr'. unfold plift, mbind, Pve_bind. destruct r as [a|e]; [by apply Hf |].
  intros [= <- <-]. exists []. split; [by rw app_nil_r |]. left. split; [done | by exists e].
Qed.
Lemma changing_last {A} (P : pve_request → Prop) q (cast : pve_answer q → result string A) :
  is_change q = true → P q → changing P (a ← pve_ask env q; answered (cast a)).
Proof.
  intros Hq HP tr r tr' [= <- <-]. eexists [_]. split; [done |]. right. exists q. split; [| done].
  unfold changes. cbn. by rw Hq.
Qed.
Lemma changing_now {A B} P q (cast : pve_answer q → result string A) (f : A → PveM B) :
  is_change q = true → P q → (∀ x, reads_only (f x)) → changing P (a ← pve_ask env q; x ← answered (cast a); f x).
Proof.
  intros Hq HP Hf. eapply (runs_request _ q cast f (λ _ new _, changes new = [])).
  - exact Hf.
  - intros a x new r _ E. right. exists q. split; [| done]. unfold changes in *. cbn. by rw Hq E.
  - intros a e _. right. exists q. split; [| done]. unfold changes. cbn. by rw Hq.
Qed.

Lemma reads_connect remote : reads_only (connect_to_remote_by_id env config remote).
Proof. eapply runs_mono; [| apply connect_runs]. by intros new r [Hc _]%connect_run_quiet. Qed.
Lemma reads_node remote node vmid : reads_only (find_node_for_vm env remote node vmid).
Proof. eapply runs_mono; [| apply find_node_runs]. by intros new r [Hc _]%lookup_run_quiet. Qed.
Lemma pve_reads_config : reads_only (remotes_config config).
Proof. apply reads_lift. Qed.
Lemma reads_remote c id : reads_only (pve_remote c id).
Proof. apply reads_lift. Qed.
Lemma reads_reply {A} (f : A → pve_reply) m : reads_only m → reads_only (reply f m).
Proof. intros Hm. apply pve_reads_bind; [exact Hm | intros a; apply pve_reads_ret]. Qed.
Lemma reads_track remote upid : reads_only (new_remote_upid env remote upid).
Proof.
  eapply runs_mono; [| apply track_runs]. unfold followed. intros new r.
  destruct (try_from_pair remote upid) as [u|]; [| by intros [-> _]]. by intros (a & -> & _).
Qed.

Ltac reads_step :=
  lazymatch goal with
  | |- reads_only (match ?x with _ => _ end) => destruct x
  | |- reads_only (_ ≫= _) => apply pve_reads_bind; [| intros ?]
  | |- reads_only (plift _) => apply reads_lift
  | |- reads_only (answered _) => apply reads_answered
  | |- reads_only (mret _) => apply pve_reads_ret
  | |- reads_only (pfail _) => apply reads_fail
  | |- reads_only (pve_ask _ ?q) => exact (reads_ask q eq_refl)
  | |- reads_only (connect_to_remote_by_id _ _ _) => apply reads_connect
  | |- reads_only (find_node_for_vm _ _ _ _) => apply reads_node
  | |- reads_only (remotes_config _) => apply pve_reads_config
  | |- reads_only (pve_remote _ _) => apply reads_remote
  | |- reads_only (new_remote_upid _ _ _) => apply reads_track
  end.
Ltac reads := repeat reads_step.

Lemma reads_place p f remote : reads_only (place_status env p f remote).
Proof. unfold place_status. reads. Qed.
Lemma reads_guest_statuses remote node l : reads_only (guest_statuses env remote node l).
Proof.
  induction l as [|[[vmid name] kind] l IH]; simpl; [reads |].
  apply pve_reads_bind; [apply reads_place | intros s]. apply pve_reads_bind; [exact IH | intros l'; reads].
Qed.
Lemma reads_guests_of_nodes remote k nodes : reads_only (guests_of_nodes env remote k nodes).
Proof. induction nodes as [|n nodes IH]; simpl; [reads |]. reads. exact IH. Qed.
Lemma reads_tasks_of_nodes remote nodes : reads_only (tasks_of_nodes env remote nodes).
Proof. induction nodes as [|n nodes IH]; simpl; [reads |]. reads. exact IH. Qed.
Lemma reads_poll fuel remote node upid wait : reads_only (poll_task_status env fuel remote node upid wait).
Proof. induction fuel as [|fuel IH]; simpl; reads. exact IH. Qed.

(** The requests that only read *)
Definition reading_call (c : pve_call) : bool :=
  match c with
  | OnGuest _ _ _ _ | StopTaskCall _ | CreateGuestCall _ _ _ | SetClusterFw _ | SetNodeFw _ _ | SetGuestFw _ _ _ _ => false
  | _ => true
  end.
Lemma reading_call_reads fuel who remote c : reading_call c = true →
  reads_only (run_pve_call fuel who remote c).
Proof.
  intros Hc. destruct c; try discriminate Hc; cbn [run_pve_call]; apply reads_reply.
  - unfold list_guests, check_guest_list_permissions. reads. apply reads_guests_of_nodes.
  - unfold pve_list_tasks. reads. apply reads_tasks_of_nodes.
  - unfold get_task_status. reads. apply reads_poll.
  - unfold read_task_log. reads.
  - unfold read_node. reads.
  - unfold list_nodes. reads.
  - unfold cluster_resources. reads.
  - unfold cluster_status, with_endpoint. reads.
  - unfold cluster_nextid, with_endpoint. reads.
  - unfold get_options. reads.
  - unfold guest_firewall_options, fw_options_at. reads.
  - unfold guest_firewall_rules, fw_rules_at. reads.
  - unfold node_firewall_options, fw_options_at. reads.
  - unfold node_firewall_rules, fw_rules_at. reads.
  - unfold node_firewall_status, load_guests_firewall_status. reads; [apply reads_place | apply reads_guest_statuses].
  - unfold cluster_firewall_options, fw_options_at. reads.
  - unfold cluster_firewall_rules, fw_rules_at. reads.
Qed.

(** *** Requests that change something *)

(** The change that a request asks for, given its run *)
Definition asked (who : pve_caller) (remote : string) (c : pve_call) (new : list pve_event) (q : pve_request) : Prop :=
  match c with
  | OnGuest k g node vmid =>
      ∃ n, guest_node remote node vmid new n ∧ asks config host_reachable parse_authority get_secret k g remote n vmid q
           ∧ call_allowed who g remote vmid
  | StopTaskCall u => ru_remote u = remote ∧ ru_type u = Remotes.Pve ∧
      ∃ f, pve_upid u = Ok f ∧ q = StopTask remote (nu_node f) (ru_upid u)
  | CreateGuestCall k node text => ∃ params, json_from_str text = Some (JObject params) ∧
      q = RawPost remote ("/api2/extjs/nodes/" ++ node ++ "/" ++ guest_kind_str k) (JObject params)
  | SetClusterFw u => q = SetFwOptions remote FwCluster u
  | SetNodeFw node u => q = SetFwOptions remote (FwNode node) u
  | SetGuestFw k node vmid u => ∃ n, guest_node remote node vmid new n ∧ q = SetFwOptions remote (FwGuest k n vmid) u
  | _ => False
  end.
(** The task of a reply, and whether it is tracked *)
Definition reply_task_of (r : pve_reply) : option RemoteUpid :=
  match r with RGuest (ReplyTask u) | RTask u => Some u | _ => None end.
Definition pve_tracked (c : pve_call) : bool := match c with OnGuest k g _ _ => call_tracked k g | _ => true end.
(** The requests of a run that change something *)
Definition one_change (who : pve_caller) (remote : string) (c : pve_call) (new : list pve_event)
    (r : result pve_error pve_reply) : Prop :=
  (changes new = [] ∧ ((∃ e, r = Err e) ∨ reading_call c = true ∨ ∃ k g node vmid q, c = OnGuest k g node vmid ∧ call_read k g = Some q))
  ∨ ∃ q, changes new = [q] ∧ asked who remote c new q.
(** The requests of a run, and the task it tracks *)
Definition pve_requests (who : pve_caller) (remote : string) (c : pve_call) (new : list pve_event)
    (r : result pve_error pve_reply) : Prop :=
  one_change who remote c new r
  ∧ (∀ x u, r = Ok x → reply_task_of x = Some u → tracked new = if pve_tracked c then [u] else []).

(** [bail_if] and the errors of the checks *)
Lemma verify_upid_ok remote ty u x : verify_upid remote ty u = Ok x → ru_remote u = remote ∧ ru_type u = ty.
Proof.
  unfold verify_upid. destruct (String.eqb_spec (ru_remote u) remote) as [-> | _]; cbn; [| done].
  case_bool_decide as E; [done |]. intros _. split; [done |]. by destruct (decide (ru_type u = ty)).
Qed.
Lemma parsed_upid_ok u f : parsed_pve_upid u = Ok f → pve_upid u = Ok f.
Proof. unfold parsed_pve_upid. destruct (pve_upid u); [by intros [= ->] | done]. Qed.

Lemma stop_task_changes remote u :
  changing (λ q, ru_remote u = remote ∧ ru_type u = Remotes.Pve ∧
              ∃ f, pve_upid u = Ok f ∧ q = StopTask remote (nu_node f) (ru_upid u)) (stop_task env config remote u).
Proof.
  unfold stop_task. apply changing_lift. intros x [<- Ht]%verify_upid_ok.
  apply changing_lift. intros f Hf%parsed_upid_ok. apply changing_bind; [apply reads_connect | intros _].
  apply (changing_last _ (StopTask (ru_remote u) (nu_node f) (ru_upid u)) id); [done |].
  split; [done |]. split; [done |]. by exists f.
Qed.

Lemma create_guest_changes remote node k text :
  changing (λ q, ∃ params, json_from_str text = Some (JObject params) ∧
              q = RawPost remote ("/api2/extjs/nodes/" ++ node ++ "/" ++ guest_kind_str k) (JObject params))
    (create_guest env config remote node (guest_kind_str k) text).
Proof.
  unfold create_guest. apply changing_lift. intros v Hv. destruct (json_from_str text) as [v'|] eqn:Hj; [| done].
  injection Hv as ->. apply changing_lift. intros [] Ho. destruct v; cbn in Ho; try done.
  apply changing_bind; [apply pve_reads_config | intros cfg]. apply changing_bind; [apply reads_remote | intros r].
  apply changing_bind; [exact (reads_ask (ConnectRaw _) eq_refl) | intros c]. apply changing_bind; [apply reads_answered | intros _].
  eapply (changing_now _ (RawPost remote _ (JObject _)) id); [done | by eexists |].
  intros upid. reads.
Qed.

(** After the answer to a change comes what tracks its task. *)
Lemma create_guest_tracks remote node k text tr u tr' :
  create_guest env config remote node k text tr = (Ok u, tr') → ∃ new, tr' = (tr ++ new)%list ∧ tracked new = [u].
Proof.
  intros E. revert E. unfold create_guest, remotes_config, pve_remote, new_remote_upid, answered, plift, pve_ask, mbind, Pve_bind.
  cases. all: try done. intros [= <- <-]. eexists. rw -!app_assoc. split; [reflexivity |]. done.
Qed.

Lemma set_guest_fw_runs k u remote node vmid :
  runs (λ new r, (changes new = [] ∧ ∃ e, r = Err e)
          ∨ ∃ n, guest_node remote node vmid new n ∧ changes new = [SetFwOptions remote (FwGuest k n vmid) u])
    (update_guest_firewall_options env config k u remote node vmid).
Proof.
  eapply (runs_prepared env config _ (λ n new _, changes new = [SetFwOptions remote (FwGuest k n vmid) u])).
  - intros n tr r tr' [= <- <-]. by eexists [_].
  - intros n pre new r Hp Hc. right. exists n. split; [by eapply prepare_run_node |].
    apply prepare_run_quiet in Hp as [Hp _]. by rw changes_app Hp.
  - intros pre e [Hp _]%prepare_run_quiet. left. split; [done | by exists e].
Qed.

Lemma reply_err {A} (f : A → pve_reply) m tr r tr' :
  reply f m tr = (r, tr') → ∃ r', m tr = (r', tr') ∧ r = f <$> r'.
Proof.
  unfold reply, mbind, Pve_bind. destruct (m tr) as [[a|e] tr1]; intros [= <- <-]; eauto.
Qed.

(** From a run with one change to the requests of a call that has no task *)
Lemma changing_requests {A} (P : pve_request → Prop) who remote c (f : A → pve_reply) m :
  changing P m → (∀ new q, P q → asked who remote c new q) → (∀ a, reply_task_of (f a) = None) →
  runs (pve_requests who remote c) (reply f m).
Proof.
  intros Hm HP Hf tr r tr' (r' & E & ->)%reply_err. apply Hm in E as (new & -> & Hc). exists new. split; [done |]. split.
  - destruct Hc as [[Hn [e ->]] | (q & Hq & Hp)]; [left; split; [done | left; by exists e] | right; exists q; auto].
  - intros x u. destruct r' as [a|e]; [| done]. intros [= <-]. by rw Hf.
Qed.

Lemma run_pve_call_runs fuel who remote c : runs (pve_requests who remote c) (run_pve_call fuel who remote c).
Proof.
  destruct (reading_call c) eqn:Hr.
  { intros tr r tr' E. destruct (reading_call_reads fuel who remote c Hr _ _ _ E) as (new & -> & Hn). exists new.
    split; [done |]. split; [left; auto |]. intros x u -> Hx. exfalso. revert E.
    destruct c; try discriminate Hr; cbn [run_pve_call]; intros (r' & _ & Ef)%reply_err;
      (destruct r'; [injection Ef as ->; discriminate Hx | discriminate Ef]). }
  destruct c; try discriminate Hr; cbn [run_pve_call].
  - intros tr r tr' (r' & E & ->)%reply_err. apply run_guest_call_runs in E as (new & -> & [Hc Ht]%guest_run_requests).
    exists new. split; [done |]. split.
    + destruct Hc as [[Hn [[e ->] | [q Hq]]] | (n & q & Hc & Hn & Ha & Hal)].
      * left. split; [done | left; by exists e].
      * left. split; [done |]. right. right. by exists k, c, node, vmid, q.
      * right. exists q. split; [done |]. by exists n.
    + intros x u. destruct r' as [g|e]; [| done]. intros [= <-] Hu. apply Ht. destruct g; try discriminate Hu. by injection Hu as ->.
  - eapply changing_requests; [apply stop_task_changes | done | done].
  - intros tr r tr' (r' & E & ->)%reply_err.
    pose proof E as (new & -> & Hc)%create_guest_changes. exists new. split; [done |]. split.
    + destruct Hc as [[Hn [e ->]] | (q & Hq & Hp)]; [left; split; [done | left; by exists e] | right; by exists q].
    + intros x u. destruct r' as [u'|e]; [| done]. intros [= <-] [= ->].
      apply create_guest_tracks in E as (new' & Heq & Ht). by apply app_inv_head in Heq as ->.
  - eapply (changing_requests (λ q, q = SetFwOptions remote FwCluster u)); [| done | done].
    unfold update_cluster_firewall_options. apply changing_bind; [apply reads_connect | intros _].
    by apply (changing_last _ (SetFwOptions remote FwCluster u) id).
  - eapply (changing_requests (λ q, q = SetFwOptions remote (FwNode node) u)); [| done | done].
    unfold update_node_firewall_options. apply changing_bind; [apply reads_connect | intros _].
    by apply (changing_last _ (SetFwOptions remote (FwNode node) u) id).
  - intros tr r tr' (r' & E & ->)%reply_err. apply set_guest_fw_runs in E as (new & -> & Hc). exists new.
    split; [done |].
    split; [| intros x v; destruct r'; [by intros [= <-] | done]].
    destruct Hc as [[Hn [e ->]] | (n & Hn & Hc)]; [left; split; [done | left; by exists e] |].
    right. eexists. split; [exact Hc | by exists n].
Qed.
End router.

(** ** Theorems *)

(** C22: Requests on a PVE remote change at most one thing, which is the one the caller asked for and
    may change.  A call adds to what happened; without the privilege its handler asks for on the
    path of the request nothing happens.  Otherwise it requests at most one change from the remote:
    of the guest, on the node that was given or that the remote reported for the guest, of the
    task that the given id names, if it is of this remote, or of the options or the new guest as
    they were given.  A migration to another remote also has the privileges on the guest of the
    target, and to delete the guest if it is to be deleted.  A call that succeeds without a change
    was one that reads.  The task of a reply is tracked exactly once; for the requests to stop or shut
    down a VM nothing is said about this.  The privilege is that of the [access] of the handler. *)
Theorem pve_changes_authorised `{PveTypes, SectionData Remote, UpidEnv, JsonText} env config host_reachable
    parse_authority get_secret fuel who remote c tr r tr' :
  handle_pve env config host_reachable parse_authority get_secret fuel who remote c tr = (r, tr') →
  ∃ new, tr' = (tr ++ new)%list ∧
    let '(p, path) := pve_permission remote c in
    (has_priv who p path = false → new = [] ∧ r = Err (ApiForbidden "permission check failed"))
    ∧ one_change config host_reachable parse_authority get_secret who remote c new r
    ∧ ∀ x u, r = Ok x → reply_task_of x = Some u → pve_tracked c = true → tracked new = [u].
Proof.
  unfold handle_pve. destruct (pve_permission remote c) as [p path]. destruct (has_priv who p path) eqn:Hp.
  - intros (new & -> & Hr & Ht)%run_pve_call_runs. exists new. split_and!; [done | done | done |].
    intros x u Hx Hu Htr. by rw (Ht x u Hx Hu) Htr.
  - intros [= <- <-]. exists []. rw app_nil_r. split_and!; [done | done | | done].
    left. split; [done | left; by eexists].
Qed.

(** The task of a VM that is stopped or shut down is not tracked, that of a container is. *)
Theorem stopped_vm_not_tracked `{PveTypes, SectionData Remote, UpidEnv, JsonText} env config host_reachable
    parse_authority get_secret fuel who remote k c node vmid tr u tr' :
  c = CallStop ∨ c = CallShutdown →
  handle_pve env config host_reachable parse_authority get_secret fuel who remote (OnGuest k c node vmid) tr
    = (Ok (RGuest (ReplyTask u)), tr') →
  ∃ new, tr' = (tr ++ new)%list ∧ tracked new = match k with GuestQemu => [] | GuestLxc => [u] end.
Proof.
  intros Hc. unfold handle_pve. destruct (pve_permission _ _) as [p path]. destruct (has_priv who p path); [| done].
  intros (new & -> & _ & Ht)%run_pve_call_runs. exists new. split; [done |]. rw (Ht _ u eq_refl eq_refl).
  by destruct Hc as [-> | ->], k.
Qed.

(** The privilege on the target node, which the description of the handler asks for, does not matter. *)
Theorem storages_target_unchecked `{PveTypes, SectionData Remote, UpidEnv, JsonText} env config host_reachable
    parse_authority get_secret fuel who who' remote node content is_enabled format storage target :
  has_priv who ResourceAudit (node_path remote node) = has_priv who' ResourceAudit (node_path remote node) →
  let call := NodeCall node (NodeStorages content is_enabled format storage target) in
  handle_pve env config host_reachable parse_authority get_secret fuel who remote call
  = handle_pve env config host_reachable parse_authority get_secret fuel who' remote call.
Proof. intros Hp call. unfold handle_pve, call. cbn [pve_permission run_pve_call]. by rw Hp. Qed.

(** ** Waiting for a task *)
Section waiting.
Context `{PveTypes} `{SectionData Remote} `{UpidEnv} `{JsonText}.
Context (env : ∀ q, list pve_event → pve_answer q).

(** How often a task was asked for *)
Definition is_status_of (remote node upid : string) (q : pve_request) : bool :=
  match q with TaskStatusOf r n u => String.eqb r remote && String.eqb n node && String.eqb u upid | _ => false end.
Definition polls (remote node upid : string) (tr : list pve_event) : nat :=
  length (List.filter (is_status_of remote node upid) (projT1 <$> tr)).
(** The task has ended, or asking for it fails, once it was asked for [k] times *)
Definition ends_after (k : nat) (remote node upid : string) : Prop :=
  ∀ tr, (k ≤ polls remote node upid tr)%nat →
    match env (TaskStatusOf remote node upid) tr with Ok s => is_running s = false | Err _ => True end.

Lemma polls_snoc remote node upid tr a :
  polls remote node upid (tr ++ [existT (TaskStatusOf remote node upid) a])%list = S (polls remote node upid tr).
Proof.
  unfold polls. rw fmap_app List.filter_app length_app. cbn. rw !String.eqb_refl /=. lia.
Qed.
Lemma poll_again fuel remote node upid wait tr :
  let q := TaskStatusOf remote node upid in
  let tr' := (tr ++ [existT q (env q tr)])%list in
  poll_task_status env (S fuel) remote node upid wait tr
  = match env q tr with
    | Err e => (Err (PveFailed e), tr')
    | Ok s => if negb wait || negb (is_running s) then (Ok (Some s), tr') else poll_task_status env fuel remote node upid wait tr'
    end.
Proof.
  intros q tr'. cbn [poll_task_status]. unfold pve_ask, answered, plift. unfold mbind, Pve_bind.
  destruct (env (TaskStatusOf remote node upid) tr) as [s|e] eqn:E; unfold tr', q; rw E; [| done]. by destruct (_ || _).
Qed.
Lemma poll_ends k fuel remote node upid wait tr :
  ends_after k remote node upid → (k ≤ polls remote node upid tr + fuel)%nat →
  (poll_task_status env (S fuel) remote node upid wait tr).1 ≠ Ok None.
Proof.
  intros Hend. revert tr. induction fuel as [|fuel IH]; intros tr Hk; rw poll_again; cbn zeta;
    pose proof (Hend tr) as Ht; destruct (env (TaskStatusOf remote node upid) tr) as [s|e] eqn:E; try done.
  - rw (Ht ltac:(lia)). by rw orb_true_r.
  - destruct (negb wait || negb (is_running s)); [done |]. apply IH. rw polls_snoc. lia.
Qed.
Lemma poll_result fuel remote node upid tr s tr' :
  poll_task_status env fuel remote node upid true tr = (Ok (Some s), tr') → is_running s = false.
Proof.
  revert tr. induction fuel as [|fuel IH]; intros tr; [done |]. rw poll_again. cbn zeta.
  destruct (env _ tr) as [s'|e]; [| done]. destruct (is_running s') eqn:Er; cbn; [apply IH | by intros [= <- _]].
Qed.
End waiting.

(** Waiting for a task ends when the task does.  If a task has ended, or its status can no longer
    be asked for, after [k] requests, then [k + 1] requests suffice, whether the caller waits or
    not: the call returns a status or an error.  What it returns to a caller that waits is the
    status of a task that has ended. *)
Theorem waiting_ends `{PveTypes, SectionData Remote, UpidEnv} env config k remote u f wait tr :
  pve_upid u = Ok f → ends_after env k (ru_remote u) (nu_node f) (ru_upid u) →
  let '(r, tr') := get_task_status env config (S k) remote u wait tr in
  r ≠ Ok None ∧ (∀ s, r = Ok (Some s) → wait = true → is_running s = false).
Proof.
  intros Hf Hend. destruct (get_task_status _ _ _ _ _ _ _) as [r tr'] eqn:E. revert E.
  unfold get_task_status, parsed_pve_upid, plift. rw Hf. unfold mbind, Pve_bind.
  destruct (verify_upid _ _ _) as [[]|e]; [| by intros [= <- <-]].
  destruct (connect_to_remote_by_id _ _ _ _) as [[[]|e] tr1]; [| by intros [= <- <-]]. intros E. split.
  - intros ->. by apply (f_equal fst), (poll_ends _ k k) in E; [| done | lia].
  - intros s -> ->. by eapply poll_result.
Qed.

(** ** The status of the firewalls *)
Section firewall.
Context `{PveTypes} `{SectionData Remote} `{UpidEnv} `{JsonText}.
Context (env : ∀ q, list pve_event → pve_answer q).
(** What has happened when the request on a remote or a node starts *)
Context (before : string → string → list pve_event).

Definition answer_of {T} (r : result pve_error T) : result string T := match r with Ok d => Ok d | Err _ => Err "" end.
Definition cluster_call (remote : string) (ty : RemoteType) (node : string) : option (result string ClusterFirewallData) :=
  Some (answer_of (fetch_cluster_firewall_data env remote (before remote "")).1).
Definition node_call (guests : string → list ClusterResource) (remote : string) (ty : RemoteType) (node : string)
    : option (result string NodeFirewallStatus) :=
  Some (answer_of (fetch_node_firewall_status env (guests remote) remote node (before remote node)).1).

(** What is known of a cluster, and of a node *)
Definition cluster_known (remote : string) : option ClusterFirewallData :=
  match (fetch_cluster_firewall_data env remote (before remote "")).1 with Ok d => Some d | Err _ => None end.
Definition known_guests (remote : string) : list ClusterResource := from_option cf_guests [] (cluster_known remote).
Definition node_known (remote node : string) : option NodeFirewallStatus :=
  match (fetch_node_firewall_status env (known_guests remote) remote node (before remote node)).1 with
  | Ok s => Some s | Err _ => None end.

(** The guests of a node status are those that the cluster reported there. *)
Lemma guest_statuses_of remote node l tr r tr' :
  guest_statuses env remote node l tr = (r, tr') →
  ∃ s, r = Ok s ∧ (λ g, (gf_vmid g, gf_name g, gf_kind g)) <$> s = l.
Proof.
  revert tr r tr'. induction l as [|[[vmid name] kind] l IH]; intros tr r tr'; cbn [guest_statuses].
  { intros [= <- <-]. by exists []. }
  unfold place_status, pve_ask. unfold mbind, mret, Pve_bind, Pve_ret. cbn beta iota.
  destruct (guest_statuses env remote node l _) as [r1 tr1] eqn:E. apply IH in E as (s & -> & Hs).
  intros [= <- <-]. eexists. split; [done |]. rw fmap_cons Hs. done.
Qed.
Lemma node_known_guests remote node s : node_known remote node = Some s →
  nf_node s = node ∧ (λ g, (gf_vmid g, gf_name g, gf_kind g)) <$> nf_guests s = guests_on node (known_guests remote).
Proof.
  unfold node_known, fetch_node_firewall_status, load_guests_firewall_status, place_status, pve_ask, answered, plift.
  unfold mbind, mret, Pve_bind, Pve_ret. cbn beta iota. destruct (env (ConnectPve remote) _) as [[]|e]; [| done]. cbn beta iota.
  destruct (guest_statuses env remote node _ _) as [r1 tr1] eqn:E. apply guest_statuses_of in E as (l & -> & Hl).
  cbn. by intros [= <-].
Qed.

(** *** The guests by remote *)
Lemma guests_fold l m k : NoDup (rr_name <$> l) →
  foldl add_guests m l !! k
  = match find_by (λ r, String.eqb (rr_name r) k) l ≫= first_data with Some d => Some (cf_guests d) | None => m !! k end.
Proof.
  revert m. induction l as [|r l IH]; intros m; [done |]. rw fmap_cons. intros [Hr Hnd]%NoDup_cons.
  cbn [foldl]. rw (IH _ Hnd). unfold add_guests. simpl. destruct (String.eqb_spec (rr_name r) k) as [<- | Hne].
  - assert (find_by (λ x, String.eqb (rr_name x) (rr_name r)) l = None) as ->.
    { by apply (find_by_key_None rr_name). }
    simpl. destruct (first_data r) as [d|]; [apply lookup_insert_eq | done].
  - destruct (first_data r) as [d|]; [| done]. by rw lookup_insert_ne.
Qed.

(** *** A run of the fetcher *)
Context (F : ParallelFetcher) (list_nodes : string → result string (list string)).

Lemma cluster_response targets st joined id ty :
  NoDup targets.*1 → fetch_inv SingleNode F list_nodes cluster_call targets st → all_ended st = true → joined ≡ₚ returned st →
  (id, ty) ∈ targets →
  ∃ r, get_remote_response (FetcherResponse joined) id = Some r ∧ rr_name r = id ∧ first_data r = cluster_known id.
Proof.
  intros Hnd Hinv Hend Hj Hin. pose proof (response_expected _ _ _ _ _ _ _ _ _ Hnd Hinv Hend Hj Hin) as Hr.
  destruct (get_remote_response _ id) as [r|]; [| by destruct Hr]. exists r. split; [done |].
  destruct Hr as (Hid & _ & x & Hf & Hn). split; [exact Hid |]. unfold first_data. rw Hn.
  unfold fetch_node, cluster_call in Hf. injection Hf as <-. unfold cluster_known, answer_of.
  by destruct (fetch_cluster_firewall_data env id (before id "")).1.
Qed.

Lemma guests_known targets st joined id ty :
  NoDup targets.*1 → fetch_inv SingleNode F list_nodes cluster_call targets st → all_ended st = true → joined ≡ₚ returned st →
  (id, ty) ∈ targets → default [] (guests_per_remote (FetcherResponse joined) !! id) = known_guests id.
Proof.
  intros Hnd Hinv Hend Hj Hin. destruct (cluster_response _ _ _ _ _ Hnd Hinv Hend Hj Hin) as (r & Hr & Hid & Hd).
  assert (NoDup (rr_name <$> FetcherResponse joined)) as Hnd'.
  { unfold FetcherResponse. rw (sort_by_perm compare_responses joined) Hj. by eapply returned_NoDup. }
  assert (r ∈ FetcherResponse joined) as Hin'.
  { revert Hr. unfold get_remote_response. destruct (binary_search_by _ _); [apply list_elem_of_lookup_2 | done]. }
  unfold guests_per_remote. rw (guests_fold _ _ _ Hnd'). pose proof (find_by_key rr_name _ r Hnd' Hin') as E.
  rw Hid in E. rw E. simpl. unfold known_guests. rw Hd. by destruct (cluster_known id).
Qed.

Lemma node_response targets (guests : string → list ClusterResource) st joined id :
  NoDup targets.*1 → fetch_inv AllNodes F list_nodes (node_call guests) targets st → all_ended st = true →
  joined ≡ₚ returned st → (id, Remotes.Pve) ∈ targets → guests id = known_guests id →
  ∃ r, get_remote_response (FetcherResponse joined) id = Some r ∧
    match list_nodes id with
    | Err e => rr_nodes r = Err e
    | Ok nodes => (∃ l, rr_nodes r = Ok l) ∧ answered_nodes r ≡ₚ filter_map (node_known id) nodes
    end.
Proof.
  intros Hnd Hinv Hend Hj Hin Hg. pose proof (response_expected _ _ _ _ _ _ _ _ _ Hnd Hinv Hend Hj Hin) as Hr.
  destruct (get_remote_response _ id) as [r|]; [| by destruct Hr]. exists r. split; [done |].
  destruct Hr as (_ & _ & Hr). cbn [by_nodes] in Hr. destruct (list_nodes id) as [nodes|e]; [| done].
  destruct Hr as (l & Hl & Hp). split; [by exists l |]. unfold answered_nodes. rw Hl.
  etransitivity; [exact (filter_map_perm _ _ _ Hp) |]. clear Hl Hp. unfold fetch_node, node_call. rw Hg.
  induction nodes as [|n nodes IH]; [done |]. cbn. unfold node_known at 1. destruct (fetch_node_firewall_status env (known_guests id) id n (before id n)).1; cbn; by rw IH.
Qed.
End firewall.

(** The status of the firewalls shows what the remotes answered.  When the requests to all PVE
    remotes have run, in whatever order, the list has an entry for each of them, in the order of
    the configuration.  It has the status of the cluster if the options and the rules of the
    cluster were read and its nodes could be listed, and the status of exactly the nodes that
    could be reached; each of these shows the guests that the same remote reported on this node,
    in that order. *)
Theorem firewall_status_exact `{PveTypes, SectionData Remote, UpidEnv, JsonText} env before F list_nodes
    (cfg : sec_data Remote) cst cjoined nst njoined :
  let remotes := (iter_remote_type Remotes.Pve (sec_list cfg)).*2 in
  let targets := (λ r, (remote_id r, remote_ty r)) <$> remotes in
  let guests := λ id, default [] (guests_per_remote (FetcherResponse cjoined) !! id) in
  NoDup targets.*1 →
  rtc (steps_to SingleNode F list_nodes (cluster_call env before)) (start F targets) cst →
  all_ended cst = true → cjoined ≡ₚ returned cst →
  rtc (steps_to AllNodes F list_nodes (node_call env before guests)) (start F targets) nst →
  all_ended nst = true → njoined ≡ₚ returned nst →
  ∃ l, pve_firewall_status (Ok cfg) (λ _, FetcherResponse cjoined) (λ _ _, FetcherResponse njoined) = Ok l
    ∧ rf_remote <$> l = remote_id <$> remotes
    ∧ ∀ s, s ∈ l → let id := rf_remote s in
        rf_status s = match list_nodes id with Ok _ => cluster_known env before id ≫= cf_status | Err _ => None end
        ∧ rf_nodes s ≡ₚ match list_nodes id with Ok nodes => filter_map (node_known env before id) nodes | Err _ => [] end
        ∧ ∀ n, n ∈ rf_nodes s →
            (λ g, (gf_vmid g, gf_name g, gf_kind g)) <$> nf_guests n = guests_on (nf_node n) (known_guests env before id).
Proof.
  intros remotes targets guests Hnd Hc%reachable_inv Hce Hcj Hn%reachable_inv Hne Hnj.
  set (l := combine_status (FetcherResponse cjoined) (FetcherResponse njoined) <$> (remote_id <$> remotes)).
  exists l. split; [unfold pve_firewall_status; simpl; unfold l; fold remotes; by destruct remotes |].
  split; [unfold l; rw -list_fmap_compose; apply list_fmap_id |].
  intros s (id & -> & Hid)%list_elem_of_fmap. cbn [rf_remote combine_status].
  assert ((id, Remotes.Pve) ∈ targets) as Hin.
  { apply list_elem_of_fmap in Hid as (r & -> & Hr). unfold targets. apply list_elem_of_fmap. exists r. split; [| done].
    unfold remotes, iter_remote_type in Hr. apply list_elem_of_fmap in Hr as (p & -> & [Ht _]%list_elem_of_filter).
    by rw Ht. }
  destruct (cluster_response _ _ _ _ _ _ _ _ _ Hnd Hc Hce Hcj Hin) as (rc & Hrc & _ & Hd).
  destruct (node_response _ _ _ _ _ _ _ _ _ Hnd Hn Hne Hnj Hin (guests_known _ _ _ _ _ _ _ _ _ Hnd Hc Hce Hcj Hin)) as (rn & Hrn & Hnodes).
  unfold combine_status. rw Hrc Hrn. cbn [rf_status rf_nodes mbind option_bind]. rw Hd.
  destruct (list_nodes id) as [nodes|e].
  - destruct Hnodes as [[ns Ens] Hp]. destruct rn as [nm ty rns]. cbn in Ens. subst rns. split; [done |]. split; [exact Hp |].
    intros n. rw Hp. intros (x & Hx & Hk)%elem_of_filter_map. apply node_known_guests in Hk as [-> ->]. done.
  - destruct rn as [nm ty rns]. cbn in Hnodes. subst rns. split; [done |]. split; [done |]. by intros n ?%not_elem_of_nil.
Qed.

Ltac guests_done Hg :=
  lazymatch goal with |- context [load_guests_firewall_status _ _ _ ?l ?t] =>
    let x := fresh "x" in let t' := fresh "t" in destruct (Hg l t) as (x & t' & ->); by intros [= <-] end.
(** The default of the option is not the same in the list and for a single node. *)
Theorem node_status_defaults_differ `{PveTypes, SectionData Remote, UpidEnv, JsonText} (answers : ∀ q, pve_answer q)
    config guests remote node o rules tr tr' s s' :
  let env := λ q (_ : list pve_event), answers q in
  answers (FwOptions remote (FwNode node)) = Ok o → node_fw_enable o = None → answers (FwRules remote (FwNode node)) = Ok rules →
  (fetch_node_firewall_status env guests remote node tr).1 = Ok s →
  (node_firewall_status env config remote node tr').1 = Ok s' →
  enabled <$> nf_status s = Some true ∧ enabled <$> nf_status s' = Some false.
Proof.
  intros env Ho Hn Hr Hs Hs'.
  assert (∀ f t, place_status env (FwNode node) f remote t
    = (Ok (Some {| enabled := f o; rules := count_rules rules |}),
       (t ++ [existT (FwOptions remote (FwNode node)) (Ok o)]) ++ [existT (FwRules remote (FwNode node)) (Ok rules)])%list) as Hp.
  { intros f t. unfold place_status, pve_ask, env, mbind, mret, Pve_bind, Pve_ret. by rw Ho Hr. }
  assert (∀ l t, ∃ x t', load_guests_firewall_status env remote node l t = (Ok x, t')) as Hg.
  { intros l t. unfold load_guests_firewall_status. destruct (guest_statuses _ _ _ _ _) as [r t'] eqn:E.
    apply guest_statuses_of in E as (x & -> & _). by exists x, t'. }
  split.
  - revert Hs. unfold fetch_node_firewall_status, mbind, mret, Pve_bind, Pve_ret. destruct (pve_ask _ _ _) as [[c|] t1]; [| done].
    destruct (answered _ _) as [[[]|] t2]; [| done]. rw Hp Hn. guests_done Hg.
  - revert Hs'. unfold node_firewall_status, mbind, mret, Pve_bind, Pve_ret. destruct (connect_to_remote_by_id _ _ _ _) as [[[]|] t1]; [| done].
    destruct (pve_ask _ _ _) as [[c|] t2]; [| done]. destruct (answered _ _) as [[l|] t3]; [| done].
    rw Hp Hn. guests_done Hg.
Qed.

(** ** A concrete remote *)
Local Instance ex_pve_types : PveTypes := {|
  guest_entry := Z; entry_vmid := id; pve_task_entry := string; pve_data := string;
  cluster_fw := option Z; cluster_fw_enable := id; node_fw := option bool; node_fw_enable := id;
  guest_fw := option bool; guest_fw_enable := id; fw_rule := option Z; fw_rule_enable := id;
  cluster_fw_update := (); node_fw_update := (); guest_fw_update := ();
|}.
Definition ex_guest : ClusterResource := {|
  cr_ty := CrQemu; cr_id := "qemu/100"; cr_cgroup_mode := None; cr_cpu := None; cr_maxcpu := None; cr_disk := None;
  cr_maxdisk := None; cr_mem := None; cr_maxmem := None; cr_name := Some "web"; cr_node := Some "n1"; cr_pool := None;
  cr_status := None; cr_level := None; cr_tags := None; cr_template := None; cr_uptime := None; cr_vmid := Some 100%Z;
  cr_storage := None; cr_shared := None; cr_sdn := None; cr_zone_type := None; cr_network := None; cr_network_type := None;
  cr_protocol := None;
|}.
(** It has one VM, its task runs until it was asked for twice. *)
Definition ex_pve_env (q : pve_request) (tr : list pve_event) : pve_answer q :=
  match q with
  | ConnectPve _ | UpdateSnapshot _ _ _ _ _ _ | TrackTask _ | ConnectRaw _ | ConnectEndpoint _ _ | SetFwOptions _ _ _
  | StopTask _ _ _ => Ok ()
  | VmResources _ | ClusterResources _ _ => Ok [ex_guest]
  | PveNodes _ => Ok ["n1"; "n2"]
  | NodeGuests _ _ _ => Ok [100%Z]
  | ReadGuest _ _ _ _ _ | ReadCluster _ _ | ReadNode _ _ _ => Ok "data"
  | ChangeGuest _ _ _ _ _ | RawPost _ _ _ => Ok "UPID:n1:1"
  | NextVmid _ => Ok 101%Z
  | FwOptions _ p => match p with FwCluster => Ok (Some 1%Z) | FwNode _ => Ok None | FwGuest _ _ _ => Ok (Some true) end
  | FwRules _ _ => Ok [Some 1%Z; None]
  | NodeTasks _ _ => Ok []
  | TaskStatusOf r n u => Ok {| is_running := (polls r n u tr <? 2)%nat; finished_successfully := Some true |}
  | TaskLog _ _ _ _ _ _ => Ok ([], "log")
  end.
Definition ex_operator : pve_caller := {|
  has_priv p path := bool_decide (p = ResourceManage) && bool_decide (path = guest_path "a" 100);
  has_priv_below _ _ := false;
|}.
Definition ex_start := handle_pve ex_pve_env (Ok ex_sdn_config) (λ _ _, true) (λ h, Ok (h, None)) (λ _, Ok "secret") 5
  ex_operator "a" (OnGuest GuestQemu CallStart None 100) [].
Definition ex_fw_targets : list (string * RemoteType) :=
  (λ r, (remote_id r, remote_ty r)) <$> (iter_remote_type Remotes.Pve (sec_list ex_sdn_config)).*2.

Lemma pve_changes_authorised_witness :
  (∃ new, ex_start.2 = ([] ++ new)%list ∧
    let '(p, path) := pve_permission "a" (OnGuest GuestQemu CallStart None 100) in
    (has_priv ex_operator p path = false → new = [] ∧ ex_start.1 = Err (ApiForbidden "permission check failed"))
    ∧ one_change (Ok ex_sdn_config) (λ _ _, true) (λ h, Ok (h, None)) (λ _, Ok "secret") ex_operator "a"
        (OnGuest GuestQemu CallStart None 100) new ex_start.1
    ∧ ∀ x u, ex_start.1 = Ok x → reply_task_of x = Some u → true = true → tracked new = [u])
  ∧ changes ex_start.2 = [ChangeGuest "a" GuestQemu "n1" 100 Start] ∧ length (tracked ex_start.2) = 1%nat.
Proof.
  split; [| split; vm_compute; reflexivity].
  apply (pve_changes_authorised ex_pve_env (Ok ex_sdn_config) (λ _ _, true) (λ h, Ok (h, None)) (λ _, Ok "secret") 5
           ex_operator "a" (OnGuest GuestQemu CallStart None 100) [] ex_start.1 ex_start.2).
  apply surjective_pairing.
Defined.

Definition ex_running : RemoteUpid := {| ru_remote := "a"; ru_type := Remotes.Pve; ru_upid := "UPID:n1:1" |}.
Lemma waiting_ends_witness :
  let '(r, tr') := get_task_status ex_pve_env (Ok ex_sdn_config) 3 "a" ex_running true [] in
  r ≠ Ok None ∧ (∀ s, r = Ok (Some s) → true = true → is_running s = false).
Proof.
  eapply (waiting_ends ex_pve_env (Ok ex_sdn_config) 2 "a" ex_running).
  - vm_compute. reflexivity.
  - intros tr Hk. simpl. by apply Nat.ltb_ge.
Defined.

Definition ex_node_lists (remote : string) : result string (list string) :=
  if String.eqb remote "a" then Ok ["n1"; "n2"] else Err "no route to host".
Definition ex_before (_ _ : string) : list pve_event := [].
Definition ex_cluster_actions : list (nat * action) := [(0, Acquire); (1, Acquire); (1, Called); (0, Called)]%nat.
Definition ex_node_actions : list (nat * action) :=
  [(0, Acquire); (0, Listed); (1, Acquire); (0, Spawn); (1, Listed); (0, AcquireNode); (0, Finish 0); (0, Spawn);
   (0, Finish 0); (0, Return)]%nat.
Definition ex_clusters : fetch_state ClusterFirewallData :=
  let s := start ex_fetcher ex_fw_targets in
  default s (run_actions SingleNode ex_fetcher ex_node_lists (cluster_call ex_pve_env ex_before)
    ex_cluster_actions s).
Definition ex_fw_guests (remote : string) : list ClusterResource :=
  default [] (guests_per_remote (FetcherResponse (returned ex_clusters)) !! remote).
Definition ex_nodes_done : fetch_state NodeFirewallStatus :=
  let s := start ex_fetcher ex_fw_targets in
  default s (run_actions AllNodes ex_fetcher ex_node_lists (node_call ex_pve_env ex_before ex_fw_guests)
    ex_node_actions s).

Lemma firewall_status_exact_witness :
  ∃ l, pve_firewall_status (Ok ex_sdn_config) (λ _, FetcherResponse (returned ex_clusters))
         (λ _ _, FetcherResponse (returned ex_nodes_done)) = Ok l
    ∧ rf_remote <$> l = ["a"; "b"]
    ∧ ∀ s, s ∈ l → let id := rf_remote s in
        rf_status s = match ex_node_lists id with
                      | Ok _ => cluster_known ex_pve_env ex_before id ≫= cf_status | Err _ => None end
        ∧ rf_nodes s ≡ₚ match ex_node_lists id with
                        | Ok nodes => filter_map (node_known ex_pve_env ex_before id) nodes | Err _ => [] end
        ∧ ∀ n, n ∈ rf_nodes s →
            (λ g, (gf_vmid g, gf_name g, gf_kind g)) <$> nf_guests n
            = guests_on (nf_node n) (known_guests ex_pve_env ex_before id).
Proof.
  apply (firewall_status_exact ex_pve_env ex_before ex_fetcher ex_node_lists ex_sdn_config ex_clusters
           (returned ex_clusters) ex_nodes_done (returned ex_nodes_done)).
  - apply (bool_decide_unpack _). vm_compute. exact I.
  - apply (run_actions_rtc _ _ _ _ ex_cluster_actions). vm_compute. reflexivity.
  - vm_compute. reflexivity.
  - reflexivity.
  - apply (run_actions_rtc _ _ _ _ ex_node_actions). vm_compute. reflexivity.
  - vm_compute. reflexivity.
  - reflexivity.
Defined.
(** The node [n1] shows its VM with one of two rules active, and the firewall of the node as enabled. *)
Lemma ex_firewall_shown :
  (λ s, (nf_node s, enabled <$> nf_status s, gf_vmid <$> nf_guests s))
    <$> (returned ex_nodes_done ≫= answered_nodes) = [("n1", Some true, [100%Z]); ("n2", Some true, [])].
Proof. vm_compute. reflexivity. Qed.
