(* ===== verification/ViewConfigs.v ===== *)
(** * The stored views

    server/src/api/config/views.rs and lib/pdm-config/src/views.rs: the views are the sections of
    views.cfg, and the handlers list, read, add, change and remove them.  A view may have a layout
    for the dashboard, a JSON text whose types are in lib/pdm-api-types/src/views.rs.  The JSON
    parser is a parameter; the digest is that of the file. *)
From S2P Require Import Prelude RustStr Remotes Disk Examples RemotesConfig Search Resources Views NexusJson.

#[local] Open Scope string_scope.

(** ** Layouts *)
Inductive NodeResourceType := GaugeCpu | GaugeMemory | GaugeStorage.
Inductive LeaderboardType := GuestCpu | NodeCpu | NodeMemory.
Inductive TaskSummaryGrouping := ByCategory | ByRemote.

(** [GuestType] of lib/pdm-api-types/src/resource.rs *)
Inductive GuestType := GuestQemu | GuestLxc.

Inductive WidgetType :=
| WidgetNodes (remote_type : option RemoteType)
| WidgetGuests (guest_type : option GuestType)
| PbsDatastores
| WidgetRemotes (show_wizard : bool)
| WidgetSubscription
| WidgetSdn
| Leaderboard (leaderboard_type : LeaderboardType)
| TaskSummary (grouping : TaskSummaryGrouping)
| ResourceTree
| NodeResourceGauge (resource : option NodeResourceType) (remote_type : option RemoteType)
| WidgetMap
| UnknownWidget (widget_type : string) (extra : list (string * Json)).

(** Without the flex factor, a floating-point number that is only shown *)
Record RowWidget := { widget_title : option string; widget : WidgetType }.
Inductive ViewLayout := Rows (rows : list (list RowWidget)).
Record ViewTemplate := { template_description : string; template_layout : ViewLayout }.

Definition is_unknown (w : RowWidget) : bool :=
  match widget w with UnknownWidget _ _ => true | _ => false end.
Definition has_unknown_widgets (l : ViewLayout) : bool :=
  match l with Rows rows => existsb (λ row, existsb is_unknown row) rows end.

(** ** The file *)
Inductive ViewConfigEntry := View (v : ViewConfig).
Definition entry_view (e : ViewConfigEntry) : ViewConfig := match e with View v => v end.

Definition VIEW_CFG_FILENAME : string := "views.cfg".

Inductive DeletableViewProperty := DelInclude | DelExclude | DelLayout | DelIncludeAll.
Record ViewConfigUpdater := {
  vu_include_all : option bool;
  vu_include : option (list FilterRule);
  vu_exclude : option (list FilterRule);
  vu_layout : option string;
}.

Section handlers.
Context `{SectionData ViewConfigEntry}.
Context (digest_of : file → string).
Context (template_from_str : string → result string ViewTemplate).   (* serde_json::from_str *)

Definition bail {A} (msg : string) : IO A := fail (Error OtherIo [msg]).

Definition views_config : IO (sec_data ViewConfigEntry * string) :=
  p ← read_section (T := ViewConfigEntry) VIEW_CFG_FILENAME;
  mret (p.1, digest_of p.2).
Definition save_views : sec_data ViewConfigEntry → IO () := write_section VIEW_CFG_FILENAME.

(** [config_digest.detect_modification(digest.as_ref())?] *)
Definition detect_change (config_digest : string) (digest : option string) : IO () :=
  match digest with
  | Some d => if String.eqb d config_digest then mret () else bail "detected modified configuration"
  | None => mret ()
  end.

(** The check of a layout in [add_view] and [update_view] *)
Definition check_layout (layout : string) : IO () :=
  if is_empty layout then mret ()
  else match template_from_str layout with
       | Ok t => if has_unknown_widgets (template_layout t) then bail "layout has unknown widgets" else mret ()
       | Err e => bail ("layout is not valid: '" ++ e ++ "'")
       end.

(** [lock_config]: taking the lock can fail. *)
Definition with_views_lock {A} (m : IO A) : IO A := _ ← syscall; m.

Definition get_views (top_level_allowed : bool) (may : string → bool) : IO (list ViewConfig * string) :=
  p ← views_config;
  mret (filter_map (λ '(view, value),
          if negb top_level_allowed && negb (may view) then None else Some (entry_view value))
          (sec_list p.1), p.2).

Definition add_view (view : ViewConfig) (digest : option string) : IO () :=
  with_views_lock
    (p ← views_config;
     _ ← detect_change p.2 digest;
     _ ← check_layout (layout view);
     match sec_get p.1 (view_id view) with
     | Some _ => bail ("view '" ++ view_id view ++ "' already exists.")
     | None => save_views (sec_insert p.1 (view_id view) (View view))
     end).

Definition delete_view_property (v : ViewConfig) (d : DeletableViewProperty) : ViewConfig :=
  match d with
  | DelInclude => {| view_id := view_id v; include_all := include_all v; include := [];
                     exclude := exclude v; layout := layout v |}
  | DelExclude => {| view_id := view_id v; include_all := include_all v; include := include v;
                     exclude := []; layout := layout v |}
  | DelLayout => {| view_id := view_id v; include_all := include_all v; include := include v;
                    exclude := exclude v; layout := "" |}
  | DelIncludeAll => {| view_id := view_id v; include_all := None; include := include v;
                        exclude := exclude v; layout := layout v |}
  end.

(** The updates of [update_view], after the deletions *)
Definition updated_view (u : ViewConfigUpdater) (del : option (list DeletableViewProperty))
    (v : ViewConfig) : ViewConfig :=
  let v := foldl delete_view_property v (default [] del) in
  {| view_id := view_id v;
     include_all := match vu_include_all u with Some b => Some b | None => include_all v end;
     include := default (include v) (vu_include u);
     exclude := default (exclude v) (vu_exclude u);
     layout := default (layout v) (vu_layout u) |}.

Definition update_view (id : string) (u : ViewConfigUpdater) (del : option (list DeletableViewProperty))
    (digest : option string) : IO () :=
  with_views_lock
    (p ← views_config;
     _ ← detect_change p.2 digest;
     match sec_get p.1 id with
     | None => bail ("no such view '" ++ id ++ "'")
     | Some (View conf) =>
         _ ← match vu_layout u with Some l => check_layout l | None => mret () end;
         save_views (sec_insert p.1 id (View (updated_view u del conf)))
     end).

Definition remove_view (id : string) (digest : option string) : IO () :=
  with_views_lock
    (p ← views_config;
     _ ← detect_change p.2 digest;
     match sec_get p.1 id with
     | Some _ => save_views (sec_remove p.1 id)
     | None => bail ("view '" ++ id ++ "' does not exist.")
     end).

Definition read_view (id : string) : IO (ViewConfig * string) :=
  p ← views_config;
  match sec_get p.1 id with
  | Some (View v) => mret (v, p.2)
  | None => bail ("no such view '" ++ id ++ "'")
  end.

(** ** The handlers as one transition *)
Inductive view_request :=
| AddView (v : ViewConfig) (digest : option string)
| UpdateView (id : string) (u : ViewConfigUpdater) (del : option (list DeletableViewProperty))
             (digest : option string)
| RemoveView (id : string) (digest : option string).
Definition handle_view (q : view_request) : IO () :=
  match q with
  | AddView v digest => add_view v digest
  | UpdateView id u del digest => update_view id u del digest
  | RemoveView id digest => remove_view id digest
  end.
End handlers.

(** ** What a request is to do *)
Section spec.
Context `{SectionLaws ViewConfigEntry}.
Context (digest_of : file → string).
Context (template_from_str : string → result string ViewTemplate).
Abbreviation handle := (handle_view digest_of template_from_str).

Definition layout_ok (l : string) : bool :=
  is_empty l || match template_from_str l with
                | Ok t => negb (has_unknown_widgets (template_layout t))
                | Err _ => false
                end.

Definition request_id (q : view_request) : string :=
  match q with AddView v _ => view_id v | UpdateView id _ _ _ | RemoveView id _ => id end.
Definition request_digest (q : view_request) : option string :=
  match q with AddView _ d | UpdateView _ _ _ d | RemoveView _ d => d end.

(** What the view of the request becomes, when the request is acceptable *)
Definition view_spec (q : view_request) (old : option ViewConfigEntry) : option (option ViewConfigEntry) :=
  match q, old with
  | AddView v _, None => if layout_ok (layout v) then Some (Some (View v)) else None
  | UpdateView _ u del _, Some (View v) =>
      if match vu_layout u with Some l => layout_ok l | None => true end
      then Some (Some (View (updated_view u del v))) else None
  | RemoveView _ _, Some _ => Some None
  | _, _ => None
  end.
Definition digest_matches (d : dir) (q : view_request) : bool :=
  match request_digest q with
  | Some x => String.eqb x (digest_of (default [] (d !! VIEW_CFG_FILENAME)))
  | None => true
  end.

(** The views on disk *)
Definition views_on (d : dir) : option (sec_data ViewConfigEntry) := section_on VIEW_CFG_FILENAME d.

(** The request was carried out. *)
Definition view_changed (q : view_request) (d d' : dir) : Prop :=
  digest_matches d q = true ∧
  ∃ c c' e, views_on d = Some c ∧ views_on d' = Some c'
    ∧ view_spec q (sec_get c (request_id q)) = Some e
    ∧ (∀ k, sec_get c' k = if decide (request_id q = k) then e else sec_get c k)
    ∧ ∀ n, n ≠ VIEW_CFG_FILENAME → d' !! n = d !! n.

Lemma triple_views_config d0 :
  triple (λ d, d = d0) (views_config digest_of)
    (λ p d, d = d0 ∧ views_on d0 = Some p.1 ∧ p.2 = digest_of (default [] (d0 !! VIEW_CFG_FILENAME)))
    (λ d, d = d0).
Proof.
  intros w Hd. unfold views_config, read_section, file_read_optional_string, attempt, fs_open, syscall,
    get_disk, enoent, fail, mbind, IO_bind, mret, IO_ret, views_on, section_on, parse_error, fail.
  simpl. destruct (faults w (tick w)); simpl; [done |]. subst d0.
  destruct (disk w !! VIEW_CFG_FILENAME) as [f|] eqn:Hf; simpl.
  - by destruct (sec_parse f) eqn:Hp.
  - by destruct (sec_parse []) eqn:Hp.
Qed.

Lemma triple_save_views c d0 (E : dir → Prop) : E d0 →
  triple (λ d, d = d0) (save_views c)
    (λ _ d, (∃ c', views_on d = Some c' ∧ ∀ k, sec_get c' k = sec_get c k)
            ∧ ∀ n, n ≠ VIEW_CFG_FILENAME → d !! n = d0 !! n) E.
Proof.
  intros HE. eapply triple_conseq; [by apply (triple_write_section _ _ d0 E) | done | | done].
  intros _ d (f & c' & -> & Hp & Hget). split; [| intros n Hn; by rw lookup_insert_ne].
  exists c'. split; [| done]. unfold views_on, section_on. by rw lookup_insert_eq.
Qed.

Lemma triple_detect_change config_digest digest d0 :
  triple (λ d, d = d0) (detect_change config_digest digest)
    (λ _ d, d = d0 ∧ match digest with Some x => String.eqb x config_digest | None => true end = true)
    (λ d, d = d0).
Proof.
  unfold detect_change. destruct digest as [x|]; [| by apply triple_ret].
  destruct (String.eqb x config_digest); [by apply triple_ret | by apply triple_fail].
Qed.

Lemma triple_check_layout l d0 :
  triple (λ d, d = d0) (check_layout template_from_str l) (λ _ d, d = d0 ∧ layout_ok l = true) (λ d, d = d0).
Proof.
  unfold check_layout, layout_ok. destruct (is_empty l); [by apply triple_ret |].
  destruct (template_from_str l) as [t|]; [| by apply triple_fail].
  destruct (has_unknown_widgets _); [by apply triple_fail | by apply triple_ret].
Qed.

(** A step that reads and leaves the disk as it was *)
Lemma triple_read_then {A B} (m : IO A) (f : A → IO B) d0 (R : A → Prop) Q :
  triple (λ d, d = d0) m (λ a d, d = d0 ∧ R a) (λ d, d = d0) →
  (∀ a, R a → triple (λ d, d = d0) (f a) Q (λ d, d = d0)) →
  triple (λ d, d = d0) (m ≫= f) Q (λ d, d = d0).
Proof.
  intros Hm Hf. eapply triple_bind; [exact Hm |]. intros a w [Hd Ha]. by apply Hf.
Qed.

Lemma handle_triple q d0 :
  triple (λ d, d = d0) (handle q) (λ _ d, view_changed q d0 d) (λ d, d = d0).
Proof.
  assert (∀ c f e, views_on d0 = Some c → digest_matches d0 q = true →
    view_spec q (sec_get c (request_id q)) = Some e →
    (∀ k, sec_get f k = if decide (request_id q = k) then e else sec_get c k) →
    triple (λ d, d = d0) (save_views f) (λ _ d, view_changed q d0 d) (λ d, d = d0)) as Hsave.
  { intros c f e Hc Hdig Hspec Hf. eapply triple_conseq; [by apply (triple_save_views f d0 (λ d, d = d0)) | done | | done].
    intros _ d [(c' & Hc' & Hget) Hother]. split; [done |]. exists c, c', e.
    split_and!; [done.. | | done]. intros k. by rw Hget. }
  assert (∀ y, y = digest_of (default [] (d0 !! VIEW_CFG_FILENAME)) →
    match request_digest q with Some x => String.eqb x y | None => true end = digest_matches d0 q) as Hdig.
  { intros y Hy. unfold digest_matches. by rw Hy. }
  destruct q as [v digest | id u del digest | id digest]; cbn [handle_view];
    unfold add_view, update_view, remove_view, with_views_lock;
    (apply (triple_read_then _ _ _ (λ _, True));
      [eapply triple_conseq; [by apply (triple_syscall (λ d, d = d0) (λ d, d = d0)) | done | done | done] |]);
    intros _ _; (eapply triple_read_then; [apply triple_views_config |]); intros [c x] [Hc Hx];
    (eapply triple_read_then; [apply triple_detect_change |]); intros [] Hd;
    rw (Hdig _ Hx) in Hd; cbn [fst snd] in *.
  - eapply triple_read_then; [apply triple_check_layout |]. intros [] Hl.
    destruct (sec_get c (view_id v)) as [e|] eqn:Hv; [by apply triple_fail |].
    apply (Hsave c _ (Some (View v))); [done | done | by simpl; rw Hv Hl |].
    intros k. apply sec_get_insert.
  - destruct (sec_get c id) as [[v]|] eqn:Hv; [| by apply triple_fail].
    apply (triple_read_then _ _ _ (λ _, match vu_layout u with Some l => layout_ok l | None => true end = true)).
    { destruct (vu_layout u) as [l|]; [apply triple_check_layout | by apply triple_ret]. }
    intros _ Hl. apply (Hsave c _ (Some (View (updated_view u del v)))); [done | done | by simpl; rw Hv Hl |].
    intros k. apply sec_get_insert.
  - destruct (sec_get c id) as [e|] eqn:Hv; [| by apply triple_fail].
    apply (Hsave c _ None); [done | done | by simpl; rw Hv |]. intros k. apply sec_get_remove.
Qed.

(** C19: a request on views does what it promises or nothing.  Whatever file operation fails, a request
    that succeeds had the current digest (if it had one), was acceptable for the stored view of
    its id (a new id to add, a known one otherwise, a layout that is empty or valid without
    unknown widgets), and changes exactly this view in the file; a request that fails changes
    nothing. *)
Theorem view_requests_refine q w r w' :
  handle q w = (r, w') →
  match r with Ok _ => view_changed q (disk w) (disk w') | Err _ => disk w' = disk w end.
Proof.
  intros Hr. pose proof (handle_triple q (disk w) w eq_refl) as Ht. rw Hr in Ht. by destruct r.
Qed.

(** ** Every stored view stays usable *)

(** Sections are named by the id of the view, and layouts can be shown. *)
Definition views_sane (d : dir) : Prop :=
  ∃ c, views_on d = Some c
    ∧ ∀ k e, sec_get c k = Some e → view_id (entry_view e) = k ∧ layout_ok (layout (entry_view e)) = true.

Lemma deleted_view del v : layout_ok (layout v) = true →
  view_id (foldl delete_view_property v del) = view_id v
  ∧ layout_ok (layout (foldl delete_view_property v del)) = true.
Proof.
  revert v. induction del as [|d del IH]; intros v Hv; simpl; [done |].
  destruct (IH (delete_view_property v d)) as [-> ->]; by destruct d.
Qed.

Lemma view_spec_sane q old e :
  view_spec q old = Some e →
  (∀ x, old = Some x → view_id (entry_view x) = request_id q ∧ layout_ok (layout (entry_view x)) = true) →
  ∀ x, e = Some x → view_id (entry_view x) = request_id q ∧ layout_ok (layout (entry_view x)) = true.
Proof.
  destruct q as [v digest | id u del digest | id digest], old as [[v']|]; simpl; try done.
  - destruct (layout_ok (layout v)) eqn:Hl; [| done]. by intros [= <-] _ x [= <-].
  - intros Hs Hold x ->. destruct (Hold _ eq_refl) as [Hid Hl].
    destruct (deleted_view (default [] del) v' Hl) as [Hid' Hl']. simpl in *.
    destruct (vu_layout u) as [l|] eqn:Hu.
    + destruct (layout_ok l) eqn:Hll; [| done]. injection Hs as <-. simpl. rw Hu. split; [by rw Hid' | done].
    + injection Hs as <-. simpl. rw Hu. split; [by rw Hid' | done].
  - by intros [= <-] _ x [=].
Qed.

(** the stored views stay readable and valid.  After any requests, with any of the file
    operations failing, views.cfg can be parsed, each section has the id of its view, and each
    layout is empty or can be parsed and has no unknown widgets. *)
Theorem views_stay_sane (qs : list view_request) w :
  views_sane (disk w) → views_sane (disk (foldl (λ w q, (handle q w).2) w qs)).
Proof.
  revert w. induction qs as [|q qs IH]; intros w Hs; simpl; [done |]. apply IH.
  pose proof (handle_triple q (disk w) w eq_refl) as Ht. destruct (handle q w) as [[u|e] w']; simpl; [| by rw Ht].
  destruct Ht as (_ & c & c' & e & Hc & Hc' & He & Hget & _). destruct Hs as (c0 & Hc0 & Hsane).
  rw Hc in Hc0. injection Hc0 as <-. exists c'. split; [done |]. intros k x. rw Hget.
  case_decide as Hk; [| apply Hsane]. subst k. eapply view_spec_sane; [done |]. apply Hsane.
Qed.

(** The list has the views the caller may see, and all of them. *)
Theorem get_views_exact top_level_allowed may w l x w' :
  get_views digest_of top_level_allowed may w = (Ok (l, x), w') →
  disk w' = disk w ∧
  ∃ c, views_on (disk w) = Some c
    ∧ ∀ v, v ∈ l ↔ ∃ k, sec_get c k = Some (View v) ∧ (top_level_allowed = true ∨ may k = true).
Proof.
  unfold get_views, mbind, IO_bind. pose proof (triple_views_config (disk w) w eq_refl) as Ht.
  destruct (views_config digest_of w) as [[[c y]|e] w1]; [| done]. simpl in Ht.
  destruct Ht as (Hd & Hc & _). intros [= <- <- <-]. split; [done |]. exists c. split; [done |].
  intros v. rw elem_of_filter_map. split.
  - intros ([k [v']] & Hk%sec_get_list & Hv). exists k.
    destruct top_level_allowed, (may k); simpl in Hv; try done; injection Hv as <-; auto.
  - intros (k & Hk%sec_get_list & Hp). exists (k, View v). split; [done |]. simpl.
    destruct top_level_allowed, (may k); naive_solver.
Qed.

Lemma check_layout_run l w :
  (check_layout template_from_str l w = (Ok (), w) ∧ layout_ok l = true)
  ∨ ∃ e, check_layout template_from_str l w = (Err e, w) ∧ layout_ok l = false.
Proof.
  unfold check_layout, layout_ok. destruct (is_empty l); [by left |].
  destruct (template_from_str l) as [t|]; [| by right; eexists].
  destruct (has_unknown_widgets _); [by right; eexists | by left].
Qed.

(** When nothing fails, an acceptable request is carried out. *)
Theorem view_requests_served q w c :
  (∀ n, faults w n = false) → (∀ c, is_Some (sec_write c)) → views_on (disk w) = Some c →
  is_ok (handle q w).1 = digest_matches (disk w) q && bool_decide (is_Some (view_spec q (sec_get c (request_id q)))).
Proof.
  intros Hq Hw Hc. destruct w as [d t fs]. simpl in *.
  assert (∀ t c', is_ok (save_views c' (World d t fs)).1 = true) as Hsave.
  { intros t' c'. destruct (Hw c') as [raw Hraw].
    unfold save_views, write_section, fs_replace, syscall, get_disk, put_disk, mbind, IO_bind. rw Hraw. simpl.
    by rw Hq. }
  assert (∀ t', ∃ t1, views_config digest_of (World d t' fs)
    = (Ok (c, digest_of (default [] (d !! VIEW_CFG_FILENAME))), World d t1 fs)) as Hcfg.
  { intros t'. unfold views_config, read_section, file_read_optional_string, attempt, fs_open, syscall, get_disk,
      enoent, fail, mbind, IO_bind, mret, IO_ret. simpl. rw Hq. simpl. unfold views_on, section_on in Hc.
    destruct (d !! VIEW_CFG_FILENAME) as [f|]; simpl in *; rw Hc; by eexists. }
  destruct (Hcfg (S t)) as [t1 Hcfg1].
  destruct q as [v digest | id u del digest | id digest]; cbn [handle_view];
    unfold add_view, update_view, remove_view, with_views_lock, syscall, mbind, IO_bind; cbn [tick faults disk];
    rw Hq Hcfg1; cbn [fst snd]; unfold digest_matches, detect_change, bail, fail, mret, IO_ret; cbn [request_digest];
    (destruct digest as [x|]; [destruct (String.eqb x _); simpl; [| done] | simpl]).
  1, 2: destruct (check_layout_run (layout v) (World d t1 fs)) as [[-> ->]|(e & -> & ->)];
    destruct (sec_get c (view_id v)); simpl; rw ?Hsave; done.
  3, 4: destruct (sec_get c id); simpl; rw ?Hsave; done.
  all: destruct (sec_get c id) as [[v]|]; simpl; [| done]; destruct (vu_layout u) as [l|]; [| by rw Hsave];
    destruct (check_layout_run l (World d t1 fs)) as [[-> ->]|(e & -> & ->)]; simpl; rw ?Hsave; done.
Qed.
End spec.

(** ** A concrete configuration *)
Global Instance ViewConfig_eq_dec : EqDecision ViewConfig.
Proof. solve_decision. Defined.
Global Instance ViewConfigEntry_eq_dec : EqDecision ViewConfigEntry.
Proof. solve_decision. Defined.
Global Instance FilterRule_countable : Countable FilterRule.
Proof.
  refine (inj_countable
    (λ r, match r with
          | RuleType (EnumExact t) => (0, resource_type_str t)
          | RulePool (Exact s) => (1, s) | RuleId (Exact s) => (2, s)
          | RuleTag (Exact s) => (3, s) | RuleRemote (Exact s) => (4, s)
          end)
    (λ '(n, s), match n with
                | 0 => RuleType ∘ EnumExact <$> parse_resource_type s
                | 1 => Some (RulePool (Exact s)) | 2 => Some (RuleId (Exact s))
                | 3 => Some (RuleTag (Exact s)) | _ => Some (RuleRemote (Exact s))
                end) _).
  intros [[t]|[s]|[s]|[s]|[s]]; simpl; [| done..]. by destruct t.
Defined.
Global Instance ViewConfigEntry_countable : Countable ViewConfigEntry.
Proof.
  refine (inj_countable'
    (λ e, let v := entry_view e in (view_id v, include_all v, include v, exclude v, layout v))
    (λ '(i, a, inc, exc, l), View {| view_id := i; include_all := a; include := inc; exclude := exc; layout := l |}) _).
  by intros [[]].
Defined.
Global Instance ex_view_sections : SectionData ViewConfigEntry := map_sections ViewConfigEntry.
Global Instance ex_view_laws : SectionLaws ViewConfigEntry := map_sections_laws ViewConfigEntry.

Definition ex_view (id l : string) : ViewConfig :=
  {| view_id := id; include_all := None; include := [RuleTag (Exact "prod")]; exclude := []; layout := l |}.
Definition ex_template (l : string) : result string ViewTemplate :=
  if String.eqb l "map" then
    Ok {| template_description := "";
          template_layout := Rows [[{| widget_title := None; widget := WidgetMap |}]] |}
  else if String.eqb l "new" then
    Ok {| template_description := "";
          template_layout := Rows [[{| widget_title := None; widget := UnknownWidget "3d" [] |}]] |}
  else Err "expected value at line 1 column 1".
Definition ex_view_digest (f : file) : string := show_int (Z.of_nat (length f)).
Definition ex_handle := handle_view ex_view_digest ex_template.
Definition ex_view_update (l : string) : view_request :=
  UpdateView "v" {| vu_include_all := None; vu_include := None; vu_exclude := None; vu_layout := Some l |}
    (Some [DelInclude]) (Some "1").
Definition ex_view_requests : list view_request :=
  [AddView (ex_view "v" "") (Some "0"); ex_view_update "new"; ex_view_update "map";
   AddView (ex_view "v" "") None; RemoveView "w" None].
Definition ex_views (w : world) : list ViewConfig :=
  match (get_views ex_view_digest true (λ _, false) w).1 with Ok (l, _) => l | Err _ => [] end.

(** The unknown widget, the second view [v] and the removal of [w] are refused. *)
Lemma ex_views_after :
  ex_views (foldl (λ w q, (ex_handle q w).2) (quiet_world ∅) ex_view_requests)
  = [{| view_id := "v"; include_all := None; include := []; exclude := []; layout := "map" |}].
Proof. apply (bool_decide_unpack _). vm_compute. exact I. Qed.

Lemma views_stay_sane_witness :
  views_sane ex_template (disk (foldl (λ w q, (ex_handle q w).2) (quiet_world ∅) ex_view_requests)).
Proof.
  apply (views_stay_sane ex_view_digest ex_template ex_view_requests (quiet_world ∅)).
  exists ∅. split; [vm_compute; reflexivity |]. intros k e Hk. exfalso. cbn in Hk.
  rw lookup_empty in Hk. discriminate.
Defined.

Lemma view_requests_refine_witness :
  ∃ w', ex_handle (AddView (ex_view "v" "map") None) (quiet_world ∅) = (Ok (), w')
        ∧ view_changed ex_view_digest ex_template (AddView (ex_view "v" "map") None) ∅ (disk w').
Proof.
  destruct (ex_handle (AddView (ex_view "v" "map") None) (quiet_world ∅)) as [r w'] eqn:E.
  assert (is_ok r = true) as Hok by (apply (f_equal fst) in E; cbn [fst] in E; rw -E; vm_compute; reflexivity).
  destruct r as [[]|]; [| discriminate]. exists w'. split; [reflexivity |].
  exact (view_requests_refine ex_view_digest ex_template _ _ _ _ E).
Defined.

Lemma get_views_exact_witness :
  ∃ l w', get_views ex_view_digest true (λ _, false) (quiet_world ∅) = (Ok (l, "0"), w') ∧ disk w' = ∅.
Proof.
  destruct (get_views ex_view_digest true (λ _, false) (quiet_world ∅)) as [r w'] eqn:E.
  assert (match r with Ok (_, x) => String.eqb x "0" | Err _ => false end = true) as Hok
    by (apply (f_equal fst) in E; cbn [fst] in E; rw -E; vm_compute; reflexivity).
  destruct r as [[l x]|]; [| discriminate]. apply String.eqb_eq in Hok. subst x. exists l, w'.
  split; [reflexivity |]. exact (proj1 (get_views_exact ex_view_digest ex_template true (λ _, false) (quiet_world ∅) l "0" w' E)).
Defined.

Lemma view_requests_served_witness :
  is_ok (ex_handle (AddView (ex_view "v" "map") None) (quiet_world ∅)).1 = true.
Proof.
  rw (view_requests_served ex_view_digest ex_template (AddView (ex_view "v" "map") None) (quiet_world ∅) ∅).
  - intros n. reflexivity.
  - intros c. cbn. eexists. reflexivity.
  - vm_compute. reflexivity.
  - vm_compute. reflexivity.
Defined.
