(* ===== verification/LocationCache.v ===== *)
(** * The locations of nodes

    server/src/location_cache.rs: where the nodes of a remote are, asked of the remote and kept in
    the API cache; and the handler in server/src/api/resources.rs that gives the locations of all
    remotes.  What the remotes answer and the parser of a location are parameters.

    The cache entry is written as an [Option] and read without one: [LocationLaws] says what
    serde_json makes of this. *)
From Stdlib Require Import SpecFloat.
From S2P Require Import Prelude RustStr Remotes Disk Search Resources Views ResourceList ApiCache.

#[local] Open Scope string_scope.

(** ** Data *)
Record Location := { loc_name : option string; latitude : f64; longitude : f64 }.
Record CachedLocationInfo := { node_locations : gmap string Location }.

(** The two types of a cache entry *)
Class LocationEnv := {
  location_read :: CacheEnv CachedLocationInfo;
  location_write :: CacheEnv (option CachedLocationInfo);
}.
(** Both use the same namespaces and files, and a null is no [CachedLocationInfo]. *)
Class LocationLaws `{LocationEnv} : Prop := {
  location_write_laws :: CacheLaws (option CachedLocationInfo);
  location_safe_id s : safe_id (CacheEnv := location_read) s = safe_id (CacheEnv := location_write) s;
  location_null f :
    entry_from_str (CacheEnv := location_read) f
    = match entry_from_str (CacheEnv := location_write) f with
      | Some e => (λ v, {| timestamp := timestamp e; value := v |}) <$> value e
      | None => None
      end;
}.

(** ** What a remote answers *)
Record location_answers := {
  la_client : result string ();
  la_datacenter : result string (option string);      (* cluster_options().location *)
  la_nodes : result string (list string);
  la_node : string → result string (option string);   (* node_config(..).location of PVE *)
  la_pbs : result string (option Location);           (* node_config().location of PBS *)
}.

Section location.
(** [PropertyString<PveNodeLocation>] *)
Context (parse_location : string → option Location).

Definition parse_pve_location (value : option string) : option Location := value ≫= parse_location.

(** A node that cannot be asked gets the location of the datacenter. *)
Definition insert_location (location : option Location) (a : location_answers)
    (m : gmap string Location) (node : string) : gmap string Location :=
  let node_config := match la_node a node with Ok config => Some config | Err _ => None end in
  let node_location := parse_pve_location (node_config ≫= id) in
  match node_location, location with
  | Some l, _ => <[node := l]> m
  | None, Some l => <[node := l]> m
  | None, None => m
  end.

Definition fetch_remote_location_info (ty : RemoteType) (a : location_answers)
    : result string (option CachedLocationInfo) :=
  _ ← la_client a;
  match ty return result string (option CachedLocationInfo) with
  | Pve =>
      options ← la_datacenter a;
      let location := parse_pve_location options in
      nodes ← la_nodes a;
      let locations := foldl (insert_location location a) ∅ nodes in
      Ok (if bool_decide (locations = ∅) then None else Some {| node_locations := locations |})
  | Pbs =>
      loc ← la_pbs a;
      Ok (option_map (λ l, {| node_locations := {[ "localhost" := l ]} |}) loc)
  end.

(** ** The cache *)
Context `{LocationEnv}.

Definition LOCATION_STATE_CACHE_KEY : string := "location-state".

(** Reading errors are logged. *)
Definition get_cached_location_info (now : Z) (remote : string) (max_age : Z)
    : Cached (option CachedLocationInfo) :=
  with_namespace (V := CachedLocationInfo) (format_remote_namespace remote)
    (r ← catch (get_impl (V := CachedLocationInfo) now (format_remote_namespace remote)
                  LOCATION_STATE_CACHE_KEY (Some (Z.min max_age i64_max)));
     mret (match r with Ok v => v | Err _ => None end)).

Definition update_cached_location_info (remote : string) (info : option CachedLocationInfo) (now : Z)
    : Cached (option CachedLocationInfo) :=
  with_namespace (V := option CachedLocationInfo) (format_remote_namespace remote)
    (r ← set_if_newer_impl (format_remote_namespace remote) LOCATION_STATE_CACHE_KEY info now;
     mret (r ≫= id)).

(** [fetch] is what asking the remote comes to; the times are those of the first read, of the read
    after a failure, and of the update. *)
Definition get_location_info_for_remote (now1 now2 now3 : Z)
    (fetch : result string (option CachedLocationInfo)) (remote : string) (max_age : Z)
    : Cached (option CachedLocationInfo) :=
  cached ← get_cached_location_info now1 remote max_age;
  match cached with
  | Some v => mret (Some v)
  | None =>
      location_info ← match fetch with
                      | Ok info => mret info
                      | Err _ => get_cached_location_info now2 remote u64_max
                      end;
      existing_state ← update_cached_location_info remote location_info now3;
      match existing_state with
      | Some v => mret (Some v)
      | None => mret location_info
      end
  end.

(** ** The handler *)

(** The remotes that are considered; [allow_all] is [check_all_remotes_allowed]. *)
Definition location_remote (view : option ViewConfig) (allow_all : bool) (check_remote_priv : string → bool)
    (name : string) : bool :=
  match view with
  | Some v => negb (can_skip_remote v name)
  | None => allow_all || check_remote_priv name
  end.

(** [times] are those of the requests for a remote, and errors are logged.  The requests use
    different namespaces of the cache; they run one after the other here. *)
Fixpoint collect_locations (times : string → Z * Z * Z)
    (fetch : string → result string (option CachedLocationInfo)) (max_age : Z) (remotes : list string)
    : Cached (list (string * CachedLocationInfo)) :=
  match remotes with
  | [] => mret []
  | name :: remotes' =>
      let '(now1, now2, now3) := times name in
      r ← catch (get_location_info_for_remote now1 now2 now3 (fetch name) name max_age);
      rest ← collect_locations times fetch max_age remotes';
      mret (match r with Ok (Some info) => (name, info) :: rest | _ => rest end)
  end.

Definition get_location_info (times : string → Z * Z * Z)
    (fetch : string → result string (option CachedLocationInfo)) (max_age : Z)
    (view : option ViewConfig) (allow_all : bool) (check_remote_priv : string → bool)
    (config : list string) : Cached (gmap string CachedLocationInfo) :=
  l ← collect_locations times fetch max_age
        (List.filter (location_remote view allow_all check_remote_priv) config);
  mret (foldl (λ m p, <[p.1 := p.2]> m) ∅ l).
End location.

(** ** Where a location comes from *)
Section facts.
Context `{LocationLaws}.

(** The entry of a remote; a null is an entry too. *)
Definition location_entry (d : dir) (remote : string) : option (CacheEntry (option CachedLocationInfo)) :=
  cached d (format_remote_namespace remote) LOCATION_STATE_CACHE_KEY.

(** A read finds what the entry holds. *)
Definition location_found (d : dir) (remote : string) (v : CachedLocationInfo)
    (e : CacheEntry (option CachedLocationInfo)) : Prop :=
  location_entry d remote = Some e ∧ value e = Some v.

Lemma get_cached_location_inv now remote max_age w r w' :
  get_cached_location_info now remote max_age w = (r, w') →
  disk w' = disk w
  ∧ ∀ v, r = Ok (Some v) →
      ∃ e, location_found (disk w) remote v e ∧ is_expired e now (Z.min max_age i64_max) = false.
Proof.
  unfold get_cached_location_info.
  intros [[Hd [e ->]]|(_ & w1 & Hd1 & Hr)]%with_namespace_inv; [done |].
  apply cached_bind_inv in Hr as [(y & w2 & Hy & [= <- <-])|(er & Her & ->)];
    [| unfold catch in Her; by destruct (get_impl _ _ _ _ w1)].
  unfold catch in Hy. destruct (get_impl _ _ _ _ w1) as [y' w2'] eqn:Hg. injection Hy as -> ->.
  pose proof (get_impl_disk _ _ _ _ _ _ _ Hg) as Hd2. rw Hd2 Hd1. split; [done |].
  intros v Hv. destruct y as [y|]; [| done]. injection Hv as ->.
  apply get_impl_some in Hg as [_ (e & He & Hf)]. rw Hd1 in He. unfold fresh_value in Hf.
  destruct (is_expired e now _) eqn:Hx; [done |]. injection Hf as <-.
  unfold cached in He. destruct (disk w !! _) as [f|] eqn:Hf; [| done]. cbn [mbind option_bind] in He.
  rw location_null in He. destruct (entry_from_str f) as [e'|] eqn:He'; [| done].
  apply fmap_Some in He as (v & Hv & ->). exists e'. split; [| done]. split; [| done].
  unfold location_entry, cached. by rw Hf.
Qed.

(** What is stored and what is answered once the remote has been asked for [i] *)
Definition location_stored (d d' : dir) (remote : string) (now : Z) (i r : option CachedLocationInfo) : Prop :=
  (r = i ∧ updated d d' (format_remote_namespace remote) LOCATION_STATE_CACHE_KEY
             {| timestamp := now; value := stored i |})
  ∨ d' = d ∧ ∃ e, location_entry d remote = Some e ∧ (now < timestamp e)%Z
                  ∧ r = match value e with Some v => Some v | None => i end.

Lemma update_location_inv remote i now w r w' :
  update_cached_location_info remote i now w = (Ok r, w') →
  location_stored (disk w) (disk w') remote now i (match r with Some v => Some v | None => i end).
Proof.
  unfold update_cached_location_info.
  intros [[_ [e [=]]]|(Hn & w1 & Hd1 & Hr)]%with_namespace_inv.
  apply cached_bind_inv in Hr as [(x & w2 & Hx & [= <- <-])|(e & _ & [=])].
  apply set_if_newer_inv in Hx; [| done]. rw Hd1 in Hx. destruct x as [x|]; simpl.
  - destruct Hx as (Hd & e & He & Hlt & ->). right. split; [done |]. by exists e.
  - left. by destruct Hx.
Qed.

(** the location of a remote is a cached one younger than [max_age], or what the remote just
    said, or, when the remote could not be asked, a cached one of any age (or none); unless somebody
    cached a newer one meanwhile.  What is not read from the cache is stored in it with the current
    time. *)
Theorem location_sources now1 now2 now3 fetch remote max_age w r w' :
  get_location_info_for_remote now1 now2 now3 fetch remote max_age w = (Ok r, w') →
  (∃ v e, r = Some v ∧ disk w' = disk w ∧ location_found (disk w) remote v e
          ∧ is_expired e now1 (Z.min max_age i64_max) = false)
  ∨ (∃ i, match fetch with
          | Ok x => i = x
          | Err _ => i = None ∨ ∃ v e, i = Some v ∧ location_found (disk w) remote v e
          end
          ∧ location_stored (disk w) (disk w') remote now3 i r).
Proof.
  unfold get_location_info_for_remote.
  intros [(c & w1 & [Hd1 Hc]%get_cached_location_inv & Hr)|(e & _ & [=])]%cached_bind_inv.
  destruct c as [v|].
  { left. injection Hr as <- <-. destruct (Hc v eq_refl) as (e & He & Hx). by exists v, e. }
  right. apply cached_bind_inv in Hr as [(i & w2 & Hi & Hr)|(e & _ & [=])].
  assert (disk w2 = disk w ∧ match fetch with
          | Ok x => i = x
          | Err _ => i = None ∨ ∃ v e, i = Some v ∧ location_found (disk w) remote v e
          end) as [Hd2 Hfetch].
  { destruct fetch as [x|msg]; [by injection Hi as -> <- |].
    apply get_cached_location_inv in Hi as [Hd2 Hi]. split; [congruence |].
    destruct i as [v|]; [right | by left]. destruct (Hi v eq_refl) as (e & He & _).
    rw Hd1 in He. by exists v, e. }
  exists i. split; [done |].
  apply cached_bind_inv in Hr as [(x & w3 & Hx%update_location_inv & Hr)|(e & _ & [=])].
  rw Hd2 in Hx. destruct x; injection Hr as <- <-; done.
Qed.

(** Where a node is: at its own location, or at that of the datacenter *)
Definition node_place (parse_location : string → option Location) (options : option string)
    (a : location_answers) (n : string) : option Location :=
  match la_node a n with
  | Ok (Some l) => match parse_location l with Some x => Some x | None => options ≫= parse_location end
  | _ => options ≫= parse_location
  end.

Lemma insert_locations_lookup parse_location options a nodes m n :
  foldl (insert_location parse_location (options ≫= parse_location) a) m nodes !! n
  = if decide (n ∈ nodes)
    then match node_place parse_location options a n with Some l => Some l | None => m !! n end
    else m !! n.
Proof.
  assert (∀ m x, insert_location parse_location (options ≫= parse_location) a m x
    = match node_place parse_location options a x with Some l => <[x := l]> m | None => m end) as Hstep.
  { intros m0 x. unfold insert_location, node_place, parse_pve_location.
    destruct (la_node a x) as [[l|]|]; simpl; [destruct (parse_location l); [done |] | |];
      by destruct (options ≫= parse_location). }
  revert m. induction nodes as [|x nodes IH]; intros m; cbn [foldl].
  { case_decide as Hn; [by apply not_elem_of_nil in Hn | done]. }
  rw Hstep IH. destruct (decide (n = x)) as [<- | Hne].
  - destruct (decide (n ∈ n :: nodes)) as [_ | Hn]; [| exfalso; apply Hn; by left].
    destruct (node_place parse_location options a n) as [l|] eqn:E; [rw lookup_insert_eq |]; by case_decide.
  - assert (n ∈ x :: nodes ↔ n ∈ nodes) as Hiff by (rw elem_of_cons; split; [by intros [] | by right]).
    destruct (decide (n ∈ nodes)), (decide (n ∈ x :: nodes)); try tauto;
      destruct (node_place parse_location options a x); try done; by rw lookup_insert_ne.
Qed.

(** the locations of a PVE remote: a node is at its own location, or at that of the datacenter
    when it has none or cannot be asked, and nowhere else; a remote without any location has no
    information. *)
Theorem pve_locations_exact parse_location (a : location_answers) options nodes :
  la_client a = Ok () → la_datacenter a = Ok options → la_nodes a = Ok nodes →
  ∃ info, fetch_remote_location_info parse_location Pve a = Ok info
    ∧ (info = None ↔ ∀ n, n ∈ nodes → node_place parse_location options a n = None)
    ∧ ∀ i, info = Some i → ∀ n,
        node_locations i !! n = if decide (n ∈ nodes) then node_place parse_location options a n else None.
Proof.
  intros Hc Ho Hn. unfold fetch_remote_location_info. rw Hc Ho Hn. cbn [mbind result_bind].
  pose proof (insert_locations_lookup parse_location options a nodes ∅) as Hm.
  unfold parse_pve_location. revert Hm. generalize (foldl (insert_location parse_location
    (options ≫= parse_location) a) ∅ nodes). intros m Hm.
  assert (∀ n, m !! n = if decide (n ∈ nodes) then node_place parse_location options a n else None) as Hl.
  { intros n. rw Hm lookup_empty. case_decide; [by destruct (node_place _ _ _ n) | done]. }
  clear Hm. eexists. split; [done |]. case_bool_decide as Hempty.
  - split; [| done]. split; [intros _ n Hin | done]. specialize (Hl n).
    by rw Hempty lookup_empty decide_True // in Hl.
  - split; [| by intros i [= <-]]. split; [done |]. intros Hnone. exfalso. apply Hempty.
    apply map_empty. intros n. rw Hl. case_decide; [by apply Hnone | done].
Qed.

Lemma collect_locations_names times fetch max_age remotes w l w' :
  collect_locations times fetch max_age remotes w = (Ok l, w') → ∀ p, p ∈ l → p.1 ∈ remotes.
Proof.
  revert w l w'. induction remotes as [|name remotes IH]; intros w l w'; cbn [collect_locations].
  { intros [= <- _] p Hp. by apply not_elem_of_nil in Hp. }
  destruct (times name) as [[now1 now2] now3].
  intros [(r & w1 & _ & Hr)|(e & _ & [=])]%cached_bind_inv.
  apply cached_bind_inv in Hr as [(rest & w2 & Hrest & [= <- _])|(e & _ & [=])].
  intros p Hp. destruct r as [[info|]|e]; try (right; by eapply IH).
  apply elem_of_cons in Hp as [-> | Hp]; [by left | right; by eapply IH].
Qed.

(** The handler gives locations of remotes its caller may see, or that the view may contain. *)
Theorem locations_visible times fetch max_age view allow_all check_remote_priv config w m w' name :
  get_location_info times fetch max_age view allow_all check_remote_priv config w = (Ok m, w') →
  is_Some (m !! name) →
  name ∈ config ∧ location_remote view allow_all check_remote_priv name = true.
Proof.
  intros [(l & w1 & Hl & [= <- _])|(e & _ & [=])]%cached_bind_inv.
  pose proof (collect_locations_names _ _ _ _ _ _ _ Hl) as Hnames. clear Hl.
  assert (∀ m0 : gmap string CachedLocationInfo, is_Some (foldl (λ m p, <[p.1 := p.2]> m) m0 l !! name) →
    is_Some (m0 !! name) ∨ ∃ p, p ∈ l ∧ p.1 = name) as Hfold.
  { clear. induction l as [|p l IH]; intros m0; cbn [foldl]; [by left |].
    intros [[x Hx]|(q & Hq & Hn)]%IH; [| right; exists q; by split; [right |]].
    apply lookup_insert_Some in Hx as [[Hn _]|[_ Hx]]; [right; exists p; by split; [left |] | left; by exists x]. }
  intros [[x Hx]|(p & Hp & <-)]%Hfold; [by rw lookup_empty in Hx |].
  specialize (Hnames p Hp). apply list_elem_of_In, filter_In in Hnames as [Hin Hf].
  split; [by apply list_elem_of_In | done].
Qed.
End facts.

(** ** A concrete cache *)
Global Instance f64_eq_dec : EqDecision f64.
Proof. unfold f64. solve_decision. Defined.
Global Instance f64_countable : Countable f64.
Proof.
  refine (inj_countable'
    (λ x : f64, match x with
                | S754_zero s => inl (inl s) | S754_infinity s => inl (inr s)
                | S754_nan => inr None | S754_finite s m e => inr (Some (s, m, e))
                end)
    (λ c, match c with
          | inl (inl s) => S754_zero s | inl (inr s) => S754_infinity s
          | inr None => S754_nan | inr (Some (s, m, e)) => S754_finite s m e
          end) _).
  by intros [].
Defined.
Global Instance Location_eq_dec : EqDecision Location.
Proof. solve_decision. Defined.
Global Instance Location_countable : Countable Location.
Proof.
  refine (inj_countable' (λ l, (loc_name l, latitude l, longitude l))
    (λ '(n, a, o), {| loc_name := n; latitude := a; longitude := o |}) _). by intros [].
Defined.
Global Instance CachedLocationInfo_eq_dec : EqDecision CachedLocationInfo.
Proof. solve_decision. Defined.
Global Instance CachedLocationInfo_countable : Countable CachedLocationInfo.
Proof. refine (inj_countable' node_locations Build_CachedLocationInfo _). by intros []. Defined.

Global Instance CacheEntry_eq_dec V `{EqDecision V} : EqDecision (CacheEntry V).
Proof. solve_decision. Defined.

Definition ex_location_entry (f : file) : option (CacheEntry (option CachedLocationInfo)) :=
  match f with
  | [Text t; Text v] =>
      t ← parse_int t;
      if String.eqb v "null" then Some {| timestamp := t; value := None |}
      else v ← strip_prefix "{" v; v ← decode (string_pos v); Some {| timestamp := t; value := Some v |}
  | _ => None
  end.
Definition ex_location_file (t : Z) (v : option CachedLocationInfo) : file :=
  [Text (show_int t); Text (match v with Some v => "{" ++ pos_string (encode v) | None => "null" end)].
Lemma ex_location_round t v :
  ex_location_entry (ex_location_file t v) = Some {| timestamp := t; value := v |}.
Proof.
  unfold ex_location_entry, ex_location_file. rw parse_int_show. cbn [mbind option_bind].
  destruct v as [v|]; [| done].
  assert (String.eqb ("{" ++ pos_string (encode v)) "null" = false) as -> by done.
  rw strip_prefix_app. cbn [mbind option_bind]. by rw string_pos_pos_string decode_encode.
Qed.
Definition ex_slashless (s : string) : bool := negb (has_char "/" s) && negb (is_empty s).

Global Instance ex_location_env : LocationEnv := {|
  location_read := {|
    safe_id := ex_slashless;
    entry_from_str f := e ← ex_location_entry f;
                        (λ v, {| timestamp := timestamp e; value := v |}) <$> value e;
    entry_to_vec e := Some (ex_location_file (timestamp e) (Some (value e)));
    stored v := v;
  |};
  location_write := {|
    safe_id := ex_slashless;
    entry_from_str := ex_location_entry;
    entry_to_vec e := Some (ex_location_file (timestamp e) (value e));
    stored v := v;
  |};
|}.
Global Instance ex_location_laws : LocationLaws.
Proof.
  split; [| done | done]. split; simpl.
  - intros s [Hs _]%andb_true_iff. by apply negb_true_iff.
  - intros [t v] f [= <-]. apply ex_location_round.
Qed.

Definition ex_vienna : Location :=
  {| loc_name := Some "Vienna"; latitude := S754_finite false 48 0; longitude := S754_finite false 16 0 |}.
Definition ex_graz : Location :=
  {| loc_name := None; latitude := S754_finite false 47 0; longitude := S754_finite false 15 0 |}.
Definition ex_info (l : Location) : CachedLocationInfo := {| node_locations := {[ "n1" := l ]} |}.
Definition ex_located (t : Z) : world :=
  quiet_world {[ get_path (format_remote_namespace "a") LOCATION_STATE_CACHE_KEY
                 := ex_location_file t (Some (ex_info ex_vienna)) ]}.
Definition ex_down : result string (option CachedLocationInfo) := Err "no route to host".

Lemma location_sources_witness :
  ∃ w', get_location_info_for_remote 100 101 102 ex_down "a" 10 (ex_located 5)
        = (Ok (Some (ex_info ex_vienna)), w')
    ∧ location_stored (disk (ex_located 5)) (disk w') "a" 102 (Some (ex_info ex_vienna))
        (Some (ex_info ex_vienna)).
Proof.
  destruct (get_location_info_for_remote 100 101 102 ex_down "a" 10 (ex_located 5)) as [r w'] eqn:E.
  assert (match r with Ok r => bool_decide (r = Some (ex_info ex_vienna)) | Err _ => false end = true) as Hr
    by (apply (f_equal fst) in E; cbn [fst] in E; rw -E; vm_compute; reflexivity).
  destruct r as [r|]; [| discriminate]. apply bool_decide_eq_true in Hr. subst r.
  exists w'. split; [reflexivity |].
  destruct (location_sources 100 101 102 ex_down "a" 10 (ex_located 5) _ w' E)
    as [(v & e & _ & _ & He & Hx)|(i & Hi & Hs)].
  - exfalso. destruct He as [He _]. vm_compute in He. injection He as <-. vm_compute in Hx. discriminate.
  - destruct Hi as [-> | (v & e & -> & He & Hv)].
    + destruct Hs as [[[=] _]|(_ & e & He & Hlt & _)]. vm_compute in He. injection He as <-.
      vm_compute in Hlt. discriminate.
    + assert (v = ex_info ex_vienna) as ->; [| exact Hs].
      revert He Hv. unfold location_entry, cached. intros He Hv.
      assert (cached (disk (ex_located 5)) (format_remote_namespace "a") LOCATION_STATE_CACHE_KEY
        = Some {| timestamp := 5%Z; value := Some (ex_info ex_vienna) |}) as He2
        by (apply (bool_decide_unpack _); vm_compute; exact I).
      unfold cached in He2. rw He2 in He. injection He as <-. by injection Hv as <-.
Defined.

Definition answered (r : result CacheError (option CachedLocationInfo)) : option CachedLocationInfo :=
  match r with Ok x => x | Err _ => None end.
Definition ex_ask (t : Z) (fetch : result string (option CachedLocationInfo)) (w : world) :=
  get_location_info_for_remote t t t fetch "a" 10 w.

(** A location of any age that is given because the remote cannot be asked is stored as a new one:
    when the remote answers again, it is not asked although the location is older than [max_age]. *)
Theorem stale_location_renewed :
  let w := (ex_ask 100 ex_down (ex_located 5)).2 in
  timestamp <$> location_entry (disk w) "a" = Some 100%Z
  ∧ answered (ex_ask 105 (Ok (Some (ex_info ex_graz))) w).1 = Some (ex_info ex_vienna).
Proof. split; apply (bool_decide_unpack _); vm_compute; exact I. Qed.

(** That a remote has no location is stored, but a read does not understand it: the remote is asked
    each time. *)
Theorem no_location_asked_again :
  let w := (ex_ask 100 (Ok None) (quiet_world ∅)).2 in
  location_entry (disk w) "a" = Some {| timestamp := 100%Z; value := None |}
  ∧ answered (ex_ask 101 (Ok (Some (ex_info ex_graz))) w).1 = Some (ex_info ex_graz).
Proof. split; apply (bool_decide_unpack _); vm_compute; exact I. Qed.

Definition ex_places (s : string) : option Location :=
  if String.eqb s "vienna" then Some ex_vienna else if String.eqb s "graz" then Some ex_graz else None.
Definition ex_location_answers : location_answers := {|
  la_client := Ok ();
  la_datacenter := Ok (Some "vienna");
  la_nodes := Ok ["n1"; "n2"; "n3"];
  la_node n := if String.eqb n "n1" then Ok (Some "graz")
               else if String.eqb n "n2" then Err "timeout" else Ok (Some "somewhere");
  la_pbs := Ok None;
|}.
Lemma pve_locations_exact_witness :
  ∃ i, fetch_remote_location_info ex_places Pve ex_location_answers = Ok (Some i)
    ∧ node_locations i !! "n1" = Some ex_graz ∧ node_locations i !! "n2" = Some ex_vienna
    ∧ node_locations i !! "n3" = Some ex_vienna ∧ node_locations i !! "n4" = None.
Proof.
  destruct (pve_locations_exact ex_places ex_location_answers (Some "vienna") ["n1"; "n2"; "n3"]
              eq_refl eq_refl eq_refl) as (info & Hi & Hnone & Hl).
  destruct info as [i|].
  - exists i. split; [exact Hi |]. rw !(Hl i eq_refl). split; [reflexivity |]. split; [reflexivity |].
    split; reflexivity.
  - exfalso. pose proof (proj1 Hnone eq_refl "n1" ltac:(by left)) as E. vm_compute in E. discriminate.
Defined.

Lemma locations_visible_witness :
  location_remote None false (String.eqb "a") "a" = true.
Proof.
  refine (proj2 (locations_visible (λ _, (1, 2, 3)%Z) (λ _, Ok (Some (ex_info ex_graz))) 10 None false
    (String.eqb "a") ["a"; "b"] (quiet_world ∅) {["a" := ex_info ex_graz]}
    (get_location_info (λ _, (1, 2, 3)%Z) (λ _, Ok (Some (ex_info ex_graz))) 10 None false
       (String.eqb "a") ["a"; "b"] (quiet_world ∅)).2 "a" _ _)).
  - rw {1}(surjective_pairing (get_location_info _ _ _ _ _ _ _ _)). f_equal.
  - vm_compute. eexists. reflexivity.
Defined.
