(* ===== verification/CephStatus.v ===== *)
(** * The status of Ceph clusters

    server/src/ceph/cache.rs, which keeps what `ceph status` gives in the global namespace of the
    API cache and makes a typed summary of it; the probe of server/src/ceph/sweep.rs as far as it
    fills this cache; and the handlers of server/src/api/ceph/clusters.rs, with the types of
    lib/pdm-api-types/src/ceph.rs.  A status is a JSON value.  The answers of a member's remote
    are a [PveClient], and what makes a client for a remote ([connect]) is a parameter. *)
From Stdlib Require Import SpecFloat.
From S2P Require Import Prelude RustStr Remotes Disk Search Resources ApiCache TopEntities CephConfig CephConfigFacts CephRegistry CephFacts CephStore Examples CephProps NexusJson.

#[local] Open Scope string_scope.

(** ** Numbers

    serde_json keeps an integer that fits in [u64] or [i64] as such and any other number as an
    [f64]; ["-0"] is one of those.  [json_float] is the [f64] of a number. *)
Class JsonFloats := { json_float : string → option f64 }.

Definition number_int (text : string) : option Z :=
  if String.eqb text "-0" then None else parse_int text.
(** [Value::as_i64], [as_u64], [as_f64] *)
Definition as_json_i64 (v : Json) : option Z :=
  match v with JNumber t => z ← number_int t; if in_i64 z then Some z else None | _ => None end.
Definition as_json_u64 (v : Json) : option Z :=
  match v with
  | JNumber t => z ← number_int t; if ((0 <=? z) && (z <? 2 ^ 64))%Z then Some z else None
  | _ => None
  end.
Definition as_json_f64 `{JsonFloats} (v : Json) : option f64 :=
  match v with JNumber t => json_float t | _ => None end.

Definition value_i64 (v : Json) : option Z :=
  match as_json_i64 v with Some z => Some z | None => i64 <$> as_json_u64 v end.

(** [f64::total_cmp]; there is one NaN, a positive one. *)
Definition total_cmp (a b : f64) : comparison :=
  match a, b with
  | S754_nan, S754_nan => Eq
  | S754_nan, _ => Gt
  | _, S754_nan => Lt
  | S754_zero s, S754_zero s' => bool_cmp s' s
  | _, _ => default Eq (SFcompare a b)
  end.
(** [Iterator::max_by]: the last of the greatest elements *)
Definition max_by {A} (cmp : A → A → comparison) (l : list A) : option A :=
  foldl (λ acc x, match acc with
                  | None => Some x
                  | Some m => match cmp m x with Gt => Some m | _ => Some x end
                  end) None l.
Definition f64_hundred : f64 := f64_of_Z 100.

(** ** Types *)
Record CephHealthCheck := { hc_code : string; hc_severity : string; hc_summary : string }.
Record CephPgStateGroup := { pg_state_name : string; pg_count : Z }.
Record CephClusterMember := {
  cm_kind : CephMemberKind; cm_remote : option string; cm_node : option string; cm_site : option string;
}.
Record CephClusterStatus := {
  st_fsid : string; st_health : string; st_checks : list CephHealthCheck;
  st_bytes_total : Z; st_bytes_used : Z; st_bytes_avail : Z; st_num_pools : Z; st_num_pgs : Z;
  st_pgs_by_state : list CephPgStateGroup; st_osds_total : Z; st_osds_up : Z; st_osds_in : Z;
  st_mons_total : Z; st_mons_in_quorum : Z; st_mgr_active : option string; st_mgr_standbys : list string;
  st_client_read_bytes_sec : option Z; st_client_write_bytes_sec : option Z;
  st_client_read_ops_sec : option Z; st_client_write_ops_sec : option Z; st_recovery_bytes_sec : option Z;
  st_misplaced_ratio : option f64; st_degraded_ratio : option f64;
  st_fullest_pool : option string; st_fullest_pool_used : option f64;
  st_version : option string; st_version_mixed : bool; st_members : list CephClusterMember;
}.
Record CephClusterListEntry := {
  le_cluster : string; le_display_name : string; le_state : CephClusterState; le_member_count : Z;
  le_health : option string; le_remote : option string; le_node : option string;
  le_bytes_used : option Z; le_bytes_total : option Z; le_bytes_avail : option Z;
  le_osds_up : option Z; le_osds_in : option Z; le_osds_total : option Z;
  le_mons_in_quorum : option Z; le_mons_total : option Z;
  le_recovering : option bool; le_degraded : option bool; le_nearfull : option bool;
  le_problem_count : option Z;
}.

(** ** Summaries *)
Definition health_from_status (status : Json) : option string := jget "health" status ≫= str_at "status".
Definition quorum_count_from_status (status : Json) : Z :=
  default 0%Z ((λ names : list Json, Z.of_nat (length names)) <$> (jget "quorum_names" status ≫= as_array)).

(** The checks, in the order of the object *)
Definition health_check (p : string * Json) : CephHealthCheck := {|
  hc_code := p.1;
  hc_severity := default "" (str_at "severity" p.2);
  hc_summary := default "" (jget "summary" p.2 ≫= str_at "message");
|}.
Definition pg_state_group (e : Json) : CephPgStateGroup := {|
  pg_state_name := default "" (str_at "state_name" e);
  pg_count := default 0%Z (jget "count" e ≫= value_i64);
|}.

Definition summarize_status `{JsonFloats} (fsid : string) (raw : Json) : CephClusterStatus :=
  let health := default "HEALTH_UNKNOWN" (health_from_status raw) in
  let checks := default [] (fmap (M := list) health_check <$> ((jget "health" raw ≫= jget "checks") ≫= as_object)) in
  let pgmap := jget "pgmap" raw in
  let pg_opt key := (pgmap ≫= jget key) ≫= value_i64 in
  let pg key := default 0%Z (pg_opt key) in
  let pg_f key := (pgmap ≫= jget key) ≫= as_json_f64 in
  let pgs_by_state := default [] (fmap (M := list) pg_state_group <$> ((pgmap ≫= jget "pgs_by_state") ≫= as_array)) in
  (* flat in current releases, nested in older ones *)
  let osdmap := (λ o : Json, default o (jget "osdmap" o)) <$> jget "osdmap" raw in
  let osd key := default 0%Z ((osdmap ≫= jget key) ≫= value_i64) in
  let monmap := jget "monmap" raw in
  let mons_total :=
    default 0%Z
      match (monmap ≫= jget "num_mons") ≫= value_i64 with
      | Some n => Some n
      | None => (λ l : list Json, Z.of_nat (length l)) <$> ((monmap ≫= jget "mons") ≫= as_array)
      end in
  let mgrmap := jget "mgrmap" raw in
  let mgr_active := s ← mgrmap ≫= str_at "active_name"; if is_empty s then None else Some s in
  let mgr_standbys := default [] (omap (M := list) (str_at "name") <$> ((mgrmap ≫= jget "standbys") ≫= as_array)) in
  {| st_fsid := fsid; st_health := health; st_checks := checks;
     st_bytes_total := pg "bytes_total"; st_bytes_used := pg "bytes_used"; st_bytes_avail := pg "bytes_avail";
     st_num_pools := pg "num_pools"; st_num_pgs := pg "num_pgs"; st_pgs_by_state := pgs_by_state;
     st_osds_total := osd "num_osds"; st_osds_up := osd "num_up_osds"; st_osds_in := osd "num_in_osds";
     st_mons_total := mons_total; st_mons_in_quorum := quorum_count_from_status raw;
     st_mgr_active := mgr_active; st_mgr_standbys := mgr_standbys;
     st_client_read_bytes_sec := pg_opt "read_bytes_sec"; st_client_write_bytes_sec := pg_opt "write_bytes_sec";
     st_client_read_ops_sec := pg_opt "read_op_per_sec"; st_client_write_ops_sec := pg_opt "write_op_per_sec";
     st_recovery_bytes_sec := pg_opt "recovering_bytes_per_sec";
     st_misplaced_ratio := pg_f "misplaced_ratio"; st_degraded_ratio := pg_f "degraded_ratio";
     st_fullest_pool := None; st_fullest_pool_used := None; st_version := None; st_version_mixed := false;
     st_members := [] |}.

(** ** What a member answers

    The types of pve_api_types, with the fields that are used *)
Class CephApi := {
  CephPool : Type; pool_name : CephPool → string; percent_used : CephPool → option f64;
  CephMon : Type; ceph_version_short : CephMon → option string;
  CephMgr : Type; CephMds : Type; CephFs : Type; CephFlagInfo : Type;
}.
Record PveClient `{CephApi} := {
  cluster_ceph_status : result string Json;
  cluster_ceph_flags : result string (list CephFlagInfo);
  list_ceph_pools : string → result string (list CephPool);
  list_ceph_mon : string → result string (list CephMon);
  list_ceph_mgr : string → result string (list CephMgr);
  list_ceph_mds : string → result string (list CephMds);
  list_ceph_fs : string → result string (list CephFs);
  get_ceph_osd_tree : string → result string Json;
}.

(** ** Additions to a summary *)
Definition with_fullest (s : CephClusterStatus) (p : option (string * f64)) : CephClusterStatus :=
  match p with
  | None => s
  | Some (name, used) => {|
      st_fsid := st_fsid s; st_health := st_health s; st_checks := st_checks s;
      st_bytes_total := st_bytes_total s; st_bytes_used := st_bytes_used s; st_bytes_avail := st_bytes_avail s;
      st_num_pools := st_num_pools s; st_num_pgs := st_num_pgs s; st_pgs_by_state := st_pgs_by_state s;
      st_osds_total := st_osds_total s; st_osds_up := st_osds_up s; st_osds_in := st_osds_in s;
      st_mons_total := st_mons_total s; st_mons_in_quorum := st_mons_in_quorum s;
      st_mgr_active := st_mgr_active s; st_mgr_standbys := st_mgr_standbys s;
      st_client_read_bytes_sec := st_client_read_bytes_sec s; st_client_write_bytes_sec := st_client_write_bytes_sec s;
      st_client_read_ops_sec := st_client_read_ops_sec s; st_client_write_ops_sec := st_client_write_ops_sec s;
      st_recovery_bytes_sec := st_recovery_bytes_sec s; st_misplaced_ratio := st_misplaced_ratio s;
      st_degraded_ratio := st_degraded_ratio s; st_fullest_pool := Some name; st_fullest_pool_used := Some used;
      st_version := st_version s; st_version_mixed := st_version_mixed s; st_members := st_members s |}
  end.
Definition with_versions (s : CephClusterStatus) (version : option string) (mixed : bool) : CephClusterStatus := {|
  st_fsid := st_fsid s; st_health := st_health s; st_checks := st_checks s;
  st_bytes_total := st_bytes_total s; st_bytes_used := st_bytes_used s; st_bytes_avail := st_bytes_avail s;
  st_num_pools := st_num_pools s; st_num_pgs := st_num_pgs s; st_pgs_by_state := st_pgs_by_state s;
  st_osds_total := st_osds_total s; st_osds_up := st_osds_up s; st_osds_in := st_osds_in s;
  st_mons_total := st_mons_total s; st_mons_in_quorum := st_mons_in_quorum s;
  st_mgr_active := st_mgr_active s; st_mgr_standbys := st_mgr_standbys s;
  st_client_read_bytes_sec := st_client_read_bytes_sec s; st_client_write_bytes_sec := st_client_write_bytes_sec s;
  st_client_read_ops_sec := st_client_read_ops_sec s; st_client_write_ops_sec := st_client_write_ops_sec s;
  st_recovery_bytes_sec := st_recovery_bytes_sec s; st_misplaced_ratio := st_misplaced_ratio s;
  st_degraded_ratio := st_degraded_ratio s; st_fullest_pool := st_fullest_pool s;
  st_fullest_pool_used := st_fullest_pool_used s;
  st_version := version; st_version_mixed := mixed; st_members := st_members s |}.
Definition set_members (s : CephClusterStatus) (members : list CephClusterMember) : CephClusterStatus := {|
  st_fsid := st_fsid s; st_health := st_health s; st_checks := st_checks s;
  st_bytes_total := st_bytes_total s; st_bytes_used := st_bytes_used s; st_bytes_avail := st_bytes_avail s;
  st_num_pools := st_num_pools s; st_num_pgs := st_num_pgs s; st_pgs_by_state := st_pgs_by_state s;
  st_osds_total := st_osds_total s; st_osds_up := st_osds_up s; st_osds_in := st_osds_in s;
  st_mons_total := st_mons_total s; st_mons_in_quorum := st_mons_in_quorum s;
  st_mgr_active := st_mgr_active s; st_mgr_standbys := st_mgr_standbys s;
  st_client_read_bytes_sec := st_client_read_bytes_sec s; st_client_write_bytes_sec := st_client_write_bytes_sec s;
  st_client_read_ops_sec := st_client_read_ops_sec s; st_client_write_ops_sec := st_client_write_ops_sec s;
  st_recovery_bytes_sec := st_recovery_bytes_sec s; st_misplaced_ratio := st_misplaced_ratio s;
  st_degraded_ratio := st_degraded_ratio s; st_fullest_pool := st_fullest_pool s;
  st_fullest_pool_used := st_fullest_pool_used s;
  st_version := st_version s; st_version_mixed := st_version_mixed s; st_members := members |}.

(** The usage of a pool in percent, if it is reported and finite; the fullest pool *)
Definition pool_usage `{CephApi} (p : CephPool) : option (string * f64) :=
  u ← percent_used p; if is_finite u then Some (pool_name p, f64_mul u f64_hundred) else None.
Definition fullest `{CephApi} (pools : list CephPool) : option (string * f64) :=
  max_by (λ a b, total_cmp a.2 b.2) (filter_map pool_usage pools).
(** The [BTreeSet] of the versions, in ascending order *)
Definition mon_versions `{CephApi} (mons : list CephMon) : list string :=
  sort_by String.compare (remove_dups (filter_map ceph_version_short mons)).

(** Errors are dropped or logged. *)
Definition enrich_summary `{CephApi} (connect : string → result string PveClient) (members : list CephMember)
    (summary : CephClusterStatus) : CephClusterStatus :=
  match connect_cluster connect members with
  | Err _ => summary
  | Ok (member, client) =>
      match mb_node member with
      | None => summary
      | Some node =>
          let summary := match list_ceph_pools client node with
                         | Ok pools => with_fullest summary (fullest pools)
                         | Err _ => summary
                         end in
          match list_ceph_mon client node with
          | Ok mons => let versions := mon_versions mons in
                       with_versions summary (last versions) (1 <? length versions)%nat
          | Err _ => summary
          end
      end
  end.

(** ** The cache *)
Definition status_key (fsid : string) : string := "ceph-status-" ++ fsid.

Section cache.
Context `{CacheEnv Json}.

Definition cached_status (now : Z) (fsid : string) (max_age : Z) : Cached (option Json) :=
  with_namespace GLOBAL_NAMESPACE (get_impl now GLOBAL_NAMESPACE (status_key fsid) (Some max_age)).
Definition store_status (now : Z) (fsid : string) (status : Json) : Cached () :=
  with_namespace GLOBAL_NAMESPACE (set_impl GLOBAL_NAMESPACE (status_key fsid) status now).
Definition invalidate (fsid : string) : Cached () :=
  with_namespace GLOBAL_NAMESPACE (remove_impl GLOBAL_NAMESPACE (status_key fsid)).

(** ** The probe of a sweep, with the status it stores *)
Inductive raw_answer :=
| RawNoClient
| RawError (e : ClientError)
| RawStatus (status : Json).

Definition probe_and_store (now : Z) (a : raw_answer) : Cached ProbeOutcome :=
  match a with
  | RawNoClient => mret ProbeUnreachable
  | RawError (ErrApi | ErrAuthentication | ErrTicket | ErrTfaRequired) => mret ProbeReachable
  | RawError ErrOtherClient => mret ProbeUnreachable
  | RawStatus status =>
      match str_at "fsid" status with
      | None => mret ProbeReachable
      | Some fsid =>
          _ ← catch (store_status now fsid status); (* logged *)
          let nodes := default [] (omap (M := list) as_str <$> (jget "quorum_names" status ≫= as_array)) in
          mret (Found fsid nodes)
      end
  end.

(** [now] are the times at which the statuses are stored. *)
Fixpoint probe_all_and_store (now : string → Z) (answers : string → raw_answer)
    (acc : gmap string ProbeOutcome * found_map) (remotes : list string)
    : Cached (gmap string ProbeOutcome * found_map) :=
  match remotes with
  | [] => mret acc
  | remote :: remotes' =>
      outcome ← probe_and_store (now remote) (answers remote);
      let found := match outcome with
                   | Found fsid nodes =>
                       <[fsid := (default [] (acc.2 !! fsid) ++ ((λ n, (remote, n)) <$> nodes))%list]> acc.2
                   | _ => acc.2
                   end in
      probe_all_and_store now answers (<[remote := outcome]> acc.1, found) remotes'
  end.

(** ** The handlers *)
Context `{JsonFloats} `{CephApi} `{CephSections}.

Definition DEFAULT_STATUS_MAX_AGE : Z := 30.
Definition LIST_STATUS_MAX_AGE : Z := 660.

(** [s.get(..8)]: [None] when it is too short or the eighth byte is within a character *)
Definition get_to (n : nat) (s : string) : option string :=
  if (String.length s <? n)%nat || match String.get n s with Some c => is_continuation c | None => false end
  then None else Some (String.substring 0 n s).
Definition f64_positive (f : option f64) : bool :=
  match f with Some r => f64_gt r f64_zero | None => false end.

Definition cluster_entry (cluster : CephCluster) (members : list CephMember) (raw : option Json)
    : CephClusterListEntry :=
  let summary := summarize_status (cl_id cluster) <$> raw in
  let remote := head (filter_map mb_remote members) in
  let node := r ← remote; m ← find_by (λ m, bool_decide (mb_remote m = Some r)) members; mb_node m in
  {| le_cluster := cl_id cluster;
     le_display_name := default ("ceph-" ++ default (cl_id cluster) (get_to 8 (cl_id cluster)))
                          (cl_display_name cluster);
     le_state := default Detected (cl_state cluster);
     le_member_count := Z.of_nat (length members);
     le_health := st_health <$> summary; le_remote := remote; le_node := node;
     le_bytes_used := st_bytes_used <$> summary; le_bytes_total := st_bytes_total <$> summary;
     le_bytes_avail := st_bytes_avail <$> summary; le_osds_up := st_osds_up <$> summary;
     le_osds_in := st_osds_in <$> summary; le_osds_total := st_osds_total <$> summary;
     le_mons_in_quorum := st_mons_in_quorum <$> summary; le_mons_total := st_mons_total <$> summary;
     le_recovering := (λ s, bool_decide (is_Some (st_recovery_bytes_sec s)) || f64_positive (st_misplaced_ratio s)) <$> summary;
     le_degraded := (λ s, f64_positive (st_degraded_ratio s)) <$> summary;
     le_nearfull := (λ s, existsb (λ c, contains_str "FULL" (hc_code c)) (st_checks s)) <$> summary;
     le_problem_count := (λ s, Z.of_nat (length (st_checks s))) <$> summary |}.

(** A status that cannot be read counts as none. *)
Fixpoint list_entries (now : Z) (accessible : list (CephCluster * list CephMember))
    : Cached (list CephClusterListEntry) :=
  match accessible with
  | [] => mret []
  | (cluster, members) :: accessible' =>
      r ← catch (cached_status now (cl_id cluster) LIST_STATUS_MAX_AGE);
      let raw := match r with Ok raw => raw | Err _ => None end in
      rest ← list_entries now accessible';
      mret (cluster_entry cluster members raw :: rest)
  end.
Definition list_clusters (now : Z) (may : string → bool) : Cached (list CephClusterListEntry) :=
  c ← cio ceph_config;
  list_entries now (accessible_clusters may c).

(** Besides the errors of the files, a handler refuses the access or reports the text of an error. *)
Context (connect : string → result string PveClient).

Definition cached_or_fetch_status (now now' : Z) (cluster : string) (members : list CephMember) (max_age : Z)
    : Cached (result (access_error + string) Json) :=
  c ← cached_status now cluster max_age;
  match c with
  | Some cached => mret (Ok cached)
  | None =>
      match connect_cluster connect members with
      | Err e => mret (Err (inr e))
      | Ok (_, client) =>
          match cluster_ceph_status client with
          | Err e => mret (Err (inr ("ceph cluster " ++ cluster ++ ": failed to read status: " ++ e)))
          | Ok status => _ ← store_status now' cluster status; mret (Ok status)
          end
      end
  end.

Definition get_cluster_status (now now' : Z) (may : string → bool) (cluster : string) (max_age : option Z)
    : Cached (result (access_error + string) Json) :=
  c ← cio ceph_config;
  match access_checked_members may c cluster with
  | Err e => mret (Err (inl e))
  | Ok members => cached_or_fetch_status now now' cluster members (i64 (default DEFAULT_STATUS_MAX_AGE max_age))
  end.

Definition cluster_member (m : CephMember) : CephClusterMember := {|
  cm_kind := mb_kind m; cm_remote := mb_remote m; cm_node := mb_node m; cm_site := mb_site m |}.
Definition get_cluster_summary (now now' : Z) (may : string → bool) (cluster : string) (max_age : option Z)
    : Cached (result (access_error + string) CephClusterStatus) :=
  c ← cio ceph_config;
  match access_checked_members may c cluster with
  | Err e => mret (Err (inl e))
  | Ok members =>
      r ← cached_or_fetch_status now now' cluster members (i64 (default DEFAULT_STATUS_MAX_AGE max_age));
      mret match r with
           | Err e => Err e
           | Ok raw =>
               let summary := enrich_summary connect members (summarize_status cluster raw) in
               Ok (set_members summary (cluster_member <$> members))
           end
  end.

(** The reads that are passed on to a member *)
Definition read_failed (cluster what : string) {A} (r : result string A) : result (access_error + string) A :=
  match r with
  | Ok a => Ok a
  | Err e => Err (inr ("ceph cluster " ++ cluster ++ ": failed to " ++ what ++ ": " ++ e))
  end.
Definition ask_node {A} (what : string) (call : PveClient → string → result string A)
    (may : string → bool) (cluster : string) : Cached (result (access_error + string) A) :=
  c ← cio ceph_config;
  mret match cluster_connect may connect c cluster with
       | Err e => Err e
       | Ok (member, client) =>
           match mb_node member with
           | None => Err (inr "pve ceph member has no node")
           | Some node => read_failed cluster what (call client node)
           end
       end.

Definition list_flags (may : string → bool) (cluster : string) : Cached (result (access_error + string) (list CephFlagInfo)) :=
  c ← cio ceph_config;
  mret match cluster_connect may connect c cluster with
       | Err e => Err e
       | Ok (_, client) => read_failed cluster "read flags" (cluster_ceph_flags client)
       end.
Definition list_mon := ask_node "list monitors" list_ceph_mon.
Definition list_mgr := ask_node "list managers" list_ceph_mgr.
Definition list_mds := ask_node "list metadata servers" list_ceph_mds.
Definition list_fs := ask_node "list file systems" list_ceph_fs.
Definition list_pools := ask_node "list pools" list_ceph_pools.
Definition get_osd_tree := ask_node "read OSD tree" get_ceph_osd_tree.
End cache.

(** ** What a summary says *)

(** A status as Ceph reports it: in older releases the counts of the OSDs are nested; the number of
    monitors is a number or the length of a list, whose elements and those of the quorum are given. *)
Definition json_count (z : Z) : Json := JNumber (show_int z).
Definition json_option (k : string) (o : option Json) : list (string * Json) :=
  match o with Some v => [(k, v)] | None => [] end.
Definition json_check (c : CephHealthCheck) : string * Json :=
  (hc_code c, JObject [("severity", JString (hc_severity c));
                       ("summary", JObject [("message", JString (hc_summary c))])]).
Definition json_pg_group (g : CephPgStateGroup) : Json :=
  JObject [("state_name", JString (pg_state_name g)); ("count", json_count (pg_count g))].
Definition json_status (print_float : f64 → string) (nested : bool) (mons : option (list Json)) (quorum : list Json)
    (s : CephClusterStatus) : Json :=
  let osds := JObject [("num_osds", json_count (st_osds_total s)); ("num_up_osds", json_count (st_osds_up s));
                       ("num_in_osds", json_count (st_osds_in s))] in
  let rate k o := json_option k (json_count <$> o) in
  let ratio k o := json_option k ((λ r, JNumber (print_float r)) <$> o) in
  JObject [
    ("fsid", JString (st_fsid s));
    ("health", JObject [("status", JString (st_health s)); ("checks", JObject (json_check <$> st_checks s))]);
    ("quorum_names", JArray quorum);
    ("monmap", match mons with
               | Some l => JObject [("mons", JArray l)]
               | None => JObject [("num_mons", json_count (st_mons_total s))]
               end);
    ("osdmap", if nested then JObject [("osdmap", osds)] else osds);
    ("pgmap", JObject (
       ("pgs_by_state", JArray (json_pg_group <$> st_pgs_by_state s)) ::
       ("num_pools", json_count (st_num_pools s)) :: ("num_pgs", json_count (st_num_pgs s)) ::
       ("bytes_used", json_count (st_bytes_used s)) :: ("bytes_total", json_count (st_bytes_total s)) ::
       ("bytes_avail", json_count (st_bytes_avail s)) ::
       rate "read_bytes_sec" (st_client_read_bytes_sec s) ++ rate "write_bytes_sec" (st_client_write_bytes_sec s) ++
       rate "read_op_per_sec" (st_client_read_ops_sec s) ++ rate "write_op_per_sec" (st_client_write_ops_sec s) ++
       rate "recovering_bytes_per_sec" (st_recovery_bytes_sec s) ++
       ratio "misplaced_ratio" (st_misplaced_ratio s) ++ ratio "degraded_ratio" (st_degraded_ratio s))%list);
    ("mgrmap", JObject [("active_name", JString (default "" (st_mgr_active s)));
                        ("standbys", JArray ((λ n, JObject [("name", JString n)]) <$> st_mgr_standbys s))])].

(** A summary of a status alone: counts fit, and nothing is added yet. *)
Record plain_summary (s : CephClusterStatus) : Prop := {
  ps_counts : Forall (λ z, in_i64 z = true)
    ([st_bytes_total s; st_bytes_used s; st_bytes_avail s; st_num_pools s; st_num_pgs s; st_osds_total s;
      st_osds_up s; st_osds_in s; st_mons_total s] ++ (pg_count <$> st_pgs_by_state s))%list;
  ps_rates : Forall (λ o, ∀ z, o = Some z → in_i64 z = true)
    [st_client_read_bytes_sec s; st_client_write_bytes_sec s; st_client_read_ops_sec s; st_client_write_ops_sec s;
     st_recovery_bytes_sec s];
  ps_active : st_mgr_active s ≠ Some "";
  ps_plain : st_fullest_pool s = None ∧ st_fullest_pool_used s = None ∧ st_version s = None
             ∧ st_version_mixed s = false ∧ st_members s = [];
}.

Lemma number_int_show z : number_int (show_int z) = Some z.
Proof.
  unfold number_int. destruct (String.eqb_spec (show_int z) "-0") as [E | _]; [| apply parse_int_show].
  pose proof (parse_int_show z) as Hz. rw E in Hz. vm_compute in Hz. injection Hz as <-. by vm_compute in E.
Qed.
Lemma value_i64_count z : in_i64 z = true → value_i64 (json_count z) = Some z.
Proof. intros Hz. unfold value_i64, as_json_i64, json_count. rw number_int_show. cbn [mbind option_bind]. by rw Hz. Qed.
Lemma member_option k o m k' :
  member (json_option k o ++ m)%list k' = if String.eqb k k' then match o with Some v => Some v | None => member m k' end else member m k'.
Proof. destruct o; simpl; [done |]. by destruct (String.eqb k k'). Qed.
Lemma member_option_last k o k' :
  member (json_option k o) k' = if String.eqb k k' then o else None.
Proof. destruct o; simpl; [done |]. by destruct (String.eqb k k'). Qed.

Lemma wrap_in_i64 z : in_i64 (i64 z) = true.
Proof.
  unfold in_i64, i64_min, i64_max, wrap_i. pose proof (Z.mod_pos_bound (z + 2 ^ (64 - 1)) (2 ^ 64) ltac:(lia)) as Hm.
  apply andb_true_iff. split; apply Z.leb_le; lia.
Qed.
Lemma value_i64_in_i64 v z : value_i64 v = Some z → in_i64 z = true.
Proof.
  unfold value_i64. destruct (as_json_i64 v) as [z'|] eqn:E.
  - intros [= <-]. unfold as_json_i64 in E. destruct v; try done. destruct (number_int text) as [z|]; [| done].
    simpl in E. destruct (in_i64 z) eqn:Hz; [by injection E as <- | done].
  - intros (u & _ & ->)%fmap_Some. apply wrap_in_i64.
Qed.
Lemma count_in_i64 (o : option Json) : in_i64 (default 0%Z (o ≫= value_i64)) = true.
Proof. destruct (o ≫= value_i64) as [z|] eqn:E; [| done]. apply bind_Some in E as (v & _ & Hv). by eapply value_i64_in_i64. Qed.

Section summaries.
Context `{JsonFloats}.

(** Whatever a member reports, the counts of its summary that are read as numbers fit in [i64]. *)
Theorem summary_in_i64 fsid raw :
  let s := summarize_status fsid raw in
  Forall (λ z, in_i64 z = true)
    ([st_bytes_total s; st_bytes_used s; st_bytes_avail s; st_num_pools s; st_num_pgs s; st_osds_total s;
      st_osds_up s; st_osds_in s] ++ (pg_count <$> st_pgs_by_state s))%list.
Proof.
  cbv zeta. apply Forall_app. split; [repeat constructor; apply count_in_i64 |].
  unfold summarize_status. cbn [st_pgs_by_state]. apply Forall_fmap, Forall_forall. intros g Hg.
  destruct ((jget "pgmap" raw ≫= jget "pgs_by_state") ≫= as_array) as [l|]; [| by apply not_elem_of_nil in Hg].
  cbn [fmap option_fmap option_map default] in Hg. apply list_elem_of_fmap in Hg as (e & -> & _). apply count_in_i64.
Qed.

(** The summary of a status says what Ceph reported, in either form the releases use: each count,
    rate, ratio, check, group and manager is read from its own place. *)
Theorem summary_reads_status (print_float : f64 → string) nested mons quorum s :
  (∀ r, json_float (print_float r) = Some r) →
  plain_summary s → st_mons_in_quorum s = Z.of_nat (length quorum) →
  (∀ l, mons = Some l → st_mons_total s = Z.of_nat (length l)) →
  summarize_status (st_fsid s) (json_status print_float nested mons quorum s) = s.
Proof.
  intros Hf [Hc Hr Ha (Hp1 & Hp2 & Hp3 & Hp4 & Hp5)] Hq Hm. unfold summarize_status, json_status.
  apply Forall_app in Hc as [Hc Hg]. rw !Forall_cons in Hc Hr. destruct Hc as (? & ? & ? & ? & ? & ? & ? & ? & Ht & _).
  destruct Hr as (Hr1 & Hr2 & Hr3 & Hr4 & Hr5 & _).
  assert (∀ o : option Z, (∀ z, o = Some z → in_i64 z = true) → (json_count <$> o) ≫= value_i64 = o) as Ho.
  { intros [z|] Hz; [| done]. simpl. apply value_i64_count, Hz. done. }
  assert (∀ o : option f64, ((λ r, JNumber (print_float r)) <$> o) ≫= as_json_f64 = o) as Hfo by (intros [r|]; simpl; auto).
  assert (∀ o : option Json, match o with Some v => Some v | None => None end = o) as Hid by by intros [].
  destruct s; simpl in *. subst. f_equal.
  all: rw ?member_option ?member_option_last /= ?Hid ?value_i64_count //.
  all: try (by apply Ho). all: try apply Hfo.
  - rw -list_fmap_compose -[RHS]list_fmap_id. apply list_fmap_ext. by intros i [].
  - rw -list_fmap_compose -[RHS]list_fmap_id. apply list_fmap_ext. intros i [] Hi. rw Forall_fmap Forall_forall in Hg.
    apply list_elem_of_lookup_2, Hg in Hi. unfold pg_state_group, json_pg_group. simpl in *. by rw value_i64_count.
  - destruct nested; simpl; by rw value_i64_count.
  - destruct nested; simpl; by rw value_i64_count.
  - destruct nested; simpl; by rw value_i64_count.
  - destruct mons as [l|]; simpl; [by rw (Hm l) | by rw value_i64_count].
  - destruct st_mgr_active0 as [[|]|]; done.
  - clear. induction st_mgr_standbys0 as [|n l IH]; simpl; [done | by f_equal].
Qed.
End summaries.

(** ** What is added to a summary *)

(** The order of [f64] as one of triples *)
Definition f64_key (f : f64) : Z * (Z * Z) :=
  match f with
  | S754_infinity true => (-2, (0, 0))
  | S754_finite true m e => (-1, (- e, - Z.pos m))
  | S754_zero true => (0, (0, 0))
  | S754_zero false => (0, (1, 0))
  | S754_finite false m e => (1, (e, Z.pos m))
  | S754_infinity false => (2, (0, 0))
  | S754_nan => (3, (0, 0))
  end%Z.
Definition key_compare (a b : Z * (Z * Z)) : comparison :=
  then_with (Z.compare a.1 b.1) (then_with (Z.compare a.2.1 b.2.1) (Z.compare a.2.2 b.2.2)).
Lemma key_compare_order : CmpOrder key_compare.
Proof.
  unfold key_compare. apply then_with_order; [by apply (cmp_pullback fst), _ |].
  apply then_with_order; [by apply (cmp_pullback (λ a : Z * (Z * Z), a.2.1)), _ | by apply (cmp_pullback (λ a : Z * (Z * Z), a.2.2)), _].
Qed.
Lemma total_cmp_key a b : total_cmp a b = key_compare (f64_key a) (f64_key b).
Proof.
  destruct a as [[] | [] | | [] m e], b as [[] | [] | | [] m' e']; try done; unfold total_cmp, key_compare; cbn.
  - rw !Z.compare_opp (Z.compare_antisym e e') (Z.compare_antisym (Z.pos m)). by destruct (e ?= e')%Z.
  - by destruct (e ?= e')%Z.
Qed.
Global Instance total_cmp_order : CmpOrder total_cmp.
Proof.
  pose proof (cmp_pullback f64_key key_compare key_compare_order) as [Hopp Htrans].
  split; intros; rw ?total_cmp_key; [apply Hopp | revert H H0; rw !total_cmp_key; apply Htrans].
Qed.

Section max_by.
Context {A} (cmp : A → A → comparison) `{!CmpOrder cmp}.

Lemma max_by_spec l :
  match max_by cmp l with
  | None => l = []
  | Some m => m ∈ l ∧ ∀ x, x ∈ l → cmp x m ≠ Gt
  end.
Proof.
  unfold max_by. induction l as [|x l IH] using rev_ind; [done |]. rw foldl_app /=.
  destruct (foldl _ None l) as [m|].
  - destruct IH as [Hm Hall].
    assert (cmp m x = Gt ∨ cmp m x ≠ Gt) as [E | E] by (destruct (cmp m x); auto; by right).
    + rw E. split; [apply elem_of_app; by left |]. intros y [Hy | ->%list_elem_of_singleton]%elem_of_app; [by apply Hall |].
      by rw (cmp_opp (cmp:=cmp) m x) E.
    + assert (match cmp m x with Gt => Some m | _ => Some x end = Some x) as -> by by destruct (cmp m x).
      split; [apply elem_of_app; right; by left |]. intros y [Hy | ->%list_elem_of_singleton]%elem_of_app.
      * eapply cmp_le_trans; [by apply Hall | done].
      * by rw (cmp_refl cmp).
  - subst l. split; [by left |]. intros y ->%list_elem_of_singleton. by rw (cmp_refl cmp).
Qed.
End max_by.

Section enrichment.
Context `{CephApi}.

(** No pool is fuller, and no monitor has a later version in the order of the texts. *)
Definition fullest_of (pools : list CephPool) (p : option (string * f64)) : Prop :=
  match p with
  | None => ∀ q, q ∈ pools → pool_usage q = None
  | Some (name, used) =>
      (∃ q, q ∈ pools ∧ pool_usage q = Some (name, used))
      ∧ ∀ q n u, q ∈ pools → pool_usage q = Some (n, u) → total_cmp u used ≠ Gt
  end.
Definition has_version (mons : list CephMon) (v : string) : Prop := ∃ m, m ∈ mons ∧ ceph_version_short m = Some v.
Definition latest_of (mons : list CephMon) (v : option string) (mixed : bool) : Prop :=
  (mixed = true ↔ ∃ v1 v2, has_version mons v1 ∧ has_version mons v2 ∧ v1 ≠ v2)
  ∧ match v with
    | None => ∀ v', ¬ has_version mons v'
    | Some v => has_version mons v ∧ ∀ v', has_version mons v' → String.compare v' v ≠ Gt
    end.

Lemma fullest_spec pools : fullest_of pools (fullest pools).
Proof.
  unfold fullest, fullest_of.
  pose proof (max_by_spec _ (CmpOrder0 := cmp_pullback snd total_cmp _) (filter_map pool_usage pools)) as Hm.
  cbn beta in Hm.
  destruct (max_by _ _) as [[name used]|].
  - destruct Hm as [(q & Hq & Hu)%elem_of_filter_map Hall]. split; [by exists q |].
    intros q' n u Hq' Hu'. apply (Hall (n, u)), elem_of_filter_map. by exists q'.
  - intros q Hq. destruct (pool_usage q) as [p|] eqn:E; [| done].
    assert (p ∈ filter_map pool_usage pools) as Hin by (apply elem_of_filter_map; by exists q).
    rw Hm in Hin. by apply not_elem_of_nil in Hin.
Qed.

Lemma elem_of_mon_versions mons v : v ∈ mon_versions mons ↔ has_version mons v.
Proof. unfold mon_versions, has_version. by rw elem_of_sort_by elem_of_remove_dups elem_of_filter_map. Qed.
Lemma mon_versions_spec mons :
  latest_of mons (last (mon_versions mons)) (1 <? length (mon_versions mons))%nat.
Proof.
  assert (NoDup (mon_versions mons)) as Hnd by (unfold mon_versions; rw sort_by_perm; apply NoDup_remove_dups).
  assert (StronglySorted (cmp_le String.compare) (mon_versions mons)) as Hs by apply sort_by_sorted, _.
  pose proof (elem_of_mon_versions mons) as Hv. unfold latest_of. revert Hnd Hs Hv. generalize (mon_versions mons).
  intros l Hnd Hs Hv. split.
  - rw Nat.ltb_lt. split.
    + destruct l as [|v1 [|v2 l]]; cbn [length]; [lia | lia |]. intros _. exists v1, v2. rw -!Hv.
      apply NoDup_cons in Hnd as [Hne _]. split; [by left |]. split; [right; by left |]. intros ->. apply Hne. by left.
    + intros (v1 & v2 & H1%Hv & H2%Hv & Hne).
      destruct l as [|x [|y l]]; cbn [length]; [by apply not_elem_of_nil in H1 | | lia].
      apply list_elem_of_singleton in H1, H2. by subst.
  - destruct l as [|v l _] using rev_ind; [by intros v' ?%Hv%not_elem_of_nil |]. rw last_snoc.
    split; [apply Hv, elem_of_app; right; by left |]. intros v' [Hv' | ->%list_elem_of_singleton]%Hv%elem_of_app;
      [| by rw (cmp_refl String.compare)].
    apply StronglySorted_app in Hs as (Hs & _ & _). by apply (Hs v' v Hv'); left.
Qed.

(** The summary of a cluster that can be asked has the fullest of the pools that report a finite
    usage, in percent, and the latest version of the monitors, which are mixed exactly when two of
    them differ; nothing else of it changes. *)
Theorem enrichment_exact connect members s member client node pools mons :
  connect_cluster connect members = Ok (member, client) → mb_node member = Some node →
  list_ceph_pools client node = Ok pools → list_ceph_mon client node = Ok mons →
  ∃ p v mixed, fullest_of pools p ∧ latest_of mons v mixed
    ∧ enrich_summary connect members s = with_versions (with_fullest s p) v mixed.
Proof.
  intros Hc Hn Hp Hm. unfold enrich_summary. rw Hc Hn Hp Hm.
  exists (fullest pools), (last (mon_versions mons)), (1 <? length (mon_versions mons))%nat.
  split; [apply fullest_spec |]. by split; [apply mon_versions_spec |].
Qed.
End enrichment.

(** ** The cache of statuses *)
Section statuses.
Context `{CacheLaws Json} `{JsonFloats} `{CephApi} `{CephSections}.

(** What a reader of the cache finds of a cluster at the time [now] *)
Definition status_entry (d : dir) (fsid : string) : option (CacheEntry Json) :=
  cached d GLOBAL_NAMESPACE (status_key fsid).
Definition status_found (d : dir) (fsid : string) (now max_age : Z) : option Json :=
  e ← status_entry d fsid; fresh_value e now (Some max_age).
(** The names that the cache is asked for are valid. *)
Definition status_names (fsid : string) : Prop :=
  safe_id GLOBAL_NAMESPACE = true ∧ safe_id (status_key fsid) = true.

Lemma cached_status_inv now fsid max_age w r w' :
  cached_status now fsid max_age w = (r, w') →
  disk w' = disk w ∧ (∀ v, r = Ok (Some v) → status_found (disk w) fsid now max_age = Some v).
Proof.
  unfold cached_status. intros [[Hd [e ->]]|(_ & w1 & Hd1 & Hr)]%with_namespace_inv; [done |].
  pose proof (get_impl_disk _ _ _ _ _ _ _ Hr) as Hd. split; [congruence |]. intros v ->.
  apply get_impl_some in Hr as [_ (e & He & Hf)]. rw Hd1 in He. unfold status_found, status_entry. by rw He.
Qed.

Lemma store_status_inv now fsid status w r w' :
  store_status now fsid status w = (r, w') →
  match r with
  | Ok _ => updated (disk w) (disk w') GLOBAL_NAMESPACE (status_key fsid) {| timestamp := now; value := stored status |}
  | Err _ => disk w' = disk w
  end.
Proof.
  unfold store_status. intros [[Hd [e ->]]|(Hs & w1 & Hd1 & Hr)]%with_namespace_inv; [done |].
  apply set_impl_inv in Hr; [| done]. rw Hd1 in Hr. destruct r; [| done]. by destruct Hr.
Qed.

Lemma cached_status_faults now fsid max_age w : faults (cached_status now fsid max_age w).2 = faults w.
Proof.
  unfold cached_status, with_namespace, ensure_valid_namespace, get_impl, ensure_valid_key,
    get_from_path, file_read_optional_string, attempt, fs_open, syscall, get_disk, enoent, fail, cfail, cio, mbind, Cached_bind,
    IO_bind, mret, Cached_ret, IO_ret.
  repeat (case_match; simplify_eq/=; try done).
Qed.
Lemma store_status_faults now fsid status w : faults (store_status now fsid status w).2 = faults w.
Proof.
  unfold store_status, with_namespace, ensure_valid_namespace, set_impl, ensure_valid_key,
    set_at_path, fs_replace, syscall, get_disk, put_disk, fail, cfail, cio, mbind, Cached_bind, IO_bind, mret, Cached_ret, IO_ret.
  repeat (case_match; simplify_eq/=; try done).
Qed.

(** Without faults a read gives what there is, and a write succeeds. *)
Lemma cached_status_quiet now fsid max_age w :
  quiet w → status_names fsid →
  match (cached_status now fsid max_age w).1 with Ok x => x | Err _ => None end
  = status_found (disk w) fsid now max_age.
Proof.
  intros Hq [Hn Hk]. unfold cached_status, with_namespace, ensure_valid_namespace, get_impl, ensure_valid_key,
    get_from_path, file_read_optional_string, attempt, fs_open, syscall, get_disk, enoent, fail, cio, mbind, Cached_bind,
    IO_bind, mret, Cached_ret, IO_ret, status_found, status_entry, cached, fresh_value.
  rw Hn Hk. simpl. rw !Hq /=. case_bool_decide as Ha.
  { injection Ha as ->. simpl. by destruct (disk w !! _ ≫= entry_from_str). }
  simpl. rw !Hq /=. destruct (disk w !! get_path GLOBAL_NAMESPACE (status_key fsid)) as [f|]; simpl; [| done].
  destruct (entry_from_str f) as [e|]; simpl; [| done]. by destruct (is_expired e now max_age).
Qed.
Lemma store_status_quiet now fsid status w :
  quiet w → status_names fsid → is_Some (entry_to_vec {| timestamp := now; value := status |}) →
  (store_status now fsid status w).1 = Ok ().
Proof.
  intros Hq [Hn Hk] [f Hf]. unfold store_status, with_namespace, ensure_valid_namespace, set_impl, ensure_valid_key,
    set_at_path, fs_replace, syscall, get_disk, put_disk, cio, mbind, Cached_bind, IO_bind, mret, Cached_ret, IO_ret.
  rw Hn Hk /= !Hq /= Hf /= ?Hq //.
Qed.

(** *** The list *)

(** An entry of the list shows a status that is in the cache and young enough, and without faults
    any such status. *)
Definition entry_shown (w : world) (now : Z) (c : CephCluster * list CephMember) (e : CephClusterListEntry) : Prop :=
  ∃ raw, e = cluster_entry c.1 c.2 raw
    ∧ (∀ v, raw = Some v → status_found (disk w) (cl_id c.1) now LIST_STATUS_MAX_AGE = Some v)
    ∧ (quiet w → status_names (cl_id c.1) → raw = status_found (disk w) (cl_id c.1) now LIST_STATUS_MAX_AGE).

Lemma entry_shown_world w w' now c e :
  disk w' = disk w → faults w' = faults w → entry_shown w' now c e → entry_shown w now c e.
Proof.
  intros Hd Hf (raw & -> & Hs & Hx). rw Hd in Hs, Hx. exists raw. split; [done |]. split; [done |].
  intros Hq. apply Hx. unfold quiet. by rw Hf.
Qed.

Lemma list_entries_inv now l w :
  ∃ out w', list_entries now l w = (Ok out, w') ∧ disk w' = disk w ∧ Forall2 (entry_shown w now) l out.
Proof.
  revert w. induction l as [|[cluster members] l IH]; intros w; cbn [list_entries]; [by exists [], w |].
  pose proof (cached_status_faults now (cl_id cluster) LIST_STATUS_MAX_AGE w) as Hfaults.
  pose proof (cached_status_quiet now (cl_id cluster) LIST_STATUS_MAX_AGE w) as Hquiet.
  unfold catch, mbind, Cached_bind. destruct (cached_status _ _ _ w) as [r w1] eqn:Hc.
  apply cached_status_inv in Hc as [Hd Hr]. destruct (IH w1) as (out & w' & -> & Hd' & Hout).
  eexists _, w'. split; [done |]. split; [congruence |]. constructor.
  - eexists. split; [done |]. split; [| exact Hquiet]. intros v Hv. apply Hr. by destruct r; subst.
  - eapply Forall2_impl; [exact Hout |]. intros c e. by apply entry_shown_world.
Qed.

Lemma ceph_config_spec w :
  disk (cio ceph_config w).2 = disk w ∧ faults (cio ceph_config w).2 = faults w
  ∧ match (cio ceph_config w).1 with
    | Ok c => ceph_on (disk w) = Some c
    | Err _ => quiet w → ceph_on (disk w) = None
    end.
Proof.
  unfold cio, ceph_config, file_read_optional_string, attempt, fs_open, syscall, get_disk,
    enoent, fail, mbind, IO_bind, mret, IO_ret, ceph_on.
  simpl. destruct (faults w (tick w)) eqn:Hf; simpl.
  { split_and!; try done. intros Hq. by rw Hq in Hf. }
  destruct (disk w !! CEPH_CLUSTERS_CFG_FILENAME) as [f|]; simpl; by destruct (ceph_parse _).
Qed.

(** The list of clusters has exactly those the caller may see, by id; each with the status that the
    cache has of it when it is young enough, and without the signals of one otherwise; nothing
    changes.  It only fails when the registry cannot be read. *)
Theorem cluster_list_exact now may w :
  match list_clusters now may w with
  | (Ok out, w') => disk w' = disk w
      ∧ ∃ c, ceph_on (disk w) = Some c ∧ Forall2 (entry_shown w now) (accessible_clusters may c) out
  | (Err _, w') => disk w' = disk w ∧ (quiet w → ceph_on (disk w) = None)
  end.
Proof.
  unfold list_clusters, mbind, Cached_bind. pose proof (ceph_config_spec w) as (Hd & Hf & Hc).
  destruct (cio ceph_config w) as [[c|e] w1]; simpl in *; [| done].
  destruct (list_entries_inv now (accessible_clusters may c) w1) as (out & w' & -> & Hd' & Hout).
  split; [congruence |]. exists c. split; [done |]. eapply Forall2_impl; [exact Hout |]. intros x e.
  by apply entry_shown_world.
Qed.

(** *** The status of a cluster *)
Lemma access_checked_members_spec may c k :
  match access_checked_members may c k with
  | Ok members => is_Some (cc_clusters c !! k) ∧ cluster_visible may c k ∧ members = sorted_members c k
  | Err NoSuchCluster => cc_clusters c !! k = None
  | Err NoAccess => is_Some (cc_clusters c !! k) ∧ ¬ cluster_visible may c k
  end.
Proof.
  unfold access_checked_members, lookup_cluster, check_cluster_access, bail_if.
  destruct (cc_clusters c !! k) as [cl|] eqn:Hcl; simpl; [| done].
  destruct (cluster_accessible may c k) eqn:Ha; simpl.
  - apply cluster_accessible_visible in Ha. split_and!; try done.
  - split; [done |]. intros Hv%cluster_accessible_visible. congruence.
Qed.

(** A status is one of the cache that is young enough, or what the first member that can be
    connected to has just answered, which is then stored. *)
Definition status_source (connect : string → result string PveClient) (now now' : Z) (cluster : string)
    (members : list CephMember) (max_age : Z) (d d' : dir) (v : Json) : Prop :=
  (status_found d cluster now max_age = Some v ∧ d' = d)
  ∨ ∃ m client, connect_cluster connect members = Ok (m, client) ∧ cluster_ceph_status client = Ok v
      ∧ updated d d' GLOBAL_NAMESPACE (status_key cluster) {| timestamp := now'; value := stored v |}.

Lemma cached_or_fetch_inv connect now now' cluster members max_age w r w' :
  cached_or_fetch_status connect now now' cluster members max_age w = (r, w') →
  match r with
  | Ok (Ok v) => status_source connect now now' cluster members max_age (disk w) (disk w') v
  | Ok (Err (inl _)) => False
  | _ => disk w' = disk w
  end.
Proof.
  unfold cached_or_fetch_status.
  intros [(c & w1 & [Hd Hc]%cached_status_inv & Hr)|(e & [Hd _]%cached_status_inv & ->)]%cached_bind_inv; [| done].
  destruct c as [v|]; [injection Hr as <- <-; left; split; [by apply Hc | done] |].
  destruct (connect_cluster connect members) as [[m client]|e] eqn:Hconn; [| injection Hr as <- <-; done].
  destruct (cluster_ceph_status client) as [v|e] eqn:Hv; [| injection Hr as <- <-; done].
  apply cached_bind_inv in Hr as [(u & w2 & Hs%store_status_inv & [= <- <-])|(e & Hs%store_status_inv & ->)]; rw Hd in Hs;
    [| done]. right. by exists m, client.
Qed.

(** Who asks for the status of a cluster he may see gets a cached one that is young enough, or
    what the first member that can be connected to answers, which is stored for the next request;
    anybody else is refused.  When it fails nothing is changed. *)
Theorem status_sources connect now now' may cluster max_age w r w' :
  get_cluster_status connect now now' may cluster max_age w = (r, w') →
  match r with
  | Ok (Ok v) => ∃ c, ceph_on (disk w) = Some c ∧ is_Some (cc_clusters c !! cluster) ∧ cluster_visible may c cluster
      ∧ status_source connect now now' cluster (sorted_members c cluster) (i64 (default DEFAULT_STATUS_MAX_AGE max_age))
          (disk w) (disk w') v
  | Ok (Err (inl NoSuchCluster)) => disk w' = disk w ∧ ∃ c, ceph_on (disk w) = Some c ∧ cc_clusters c !! cluster = None
  | Ok (Err (inl NoAccess)) => disk w' = disk w ∧ ∃ c, ceph_on (disk w) = Some c ∧ ¬ cluster_visible may c cluster
  | Ok (Err (inr _)) | Err _ => disk w' = disk w
  end.
Proof.
  unfold get_cluster_status. pose proof (ceph_config_spec w) as (Hd & _ & Hc).
  intros [(c & w1 & E & Hr)|(e & E & ->)]%cached_bind_inv; rw E in Hd, Hc; simpl in *; [| done].
  pose proof (access_checked_members_spec may c cluster) as Ha.
  destruct (access_checked_members may c cluster) as [members|e].
  - destruct Ha as (Hk & Hv & ->). apply cached_or_fetch_inv in Hr. rw Hd in Hr.
    destruct r as [[v|[[]|]]|]; try done.
    exists c. done.
  - injection Hr as <- <-. destruct e; (split; [done |]); exists c; by try destruct Ha.
Qed.

(** *** What a sweep stores *)
Definition probe_answer_of (a : raw_answer) : probe_answer :=
  match a with
  | RawNoClient => NoClient
  | RawError e => StatusError e
  | RawStatus status =>
      CephAnswer (str_at "fsid" status) (fmap (M := list) as_str <$> (jget "quorum_names" status ≫= as_array))
  end.
Definition reports (answers : string → raw_answer) (remote fsid : string) (status : Json) : Prop :=
  answers remote = RawStatus status ∧ str_at "fsid" status = Some fsid.

Lemma probe_and_store_spec now a w :
  ∃ w', probe_and_store now a w = (Ok (probe_remote (probe_answer_of a)), w')
    ∧ faults w' = faults w
    ∧ match a with
      | RawStatus status =>
          match str_at "fsid" status with
          | Some fsid => disk w' = disk w ∧ (quiet w → status_names fsid → entry_to_vec {| timestamp := now; value := status |} = None)
              ∨ updated (disk w) (disk w') GLOBAL_NAMESPACE (status_key fsid) {| timestamp := now; value := stored status |}
          | None => disk w' = disk w
          end
      | _ => disk w' = disk w
      end.
Proof.
  destruct a as [|[]|status]; simpl; try by (exists w).
  destruct (str_at "fsid" status) as [fsid|]; [| by exists w].
  pose proof (store_status_faults now fsid status w) as Hf. pose proof (store_status_quiet now fsid status w) as Hq.
  unfold catch, mbind, Cached_bind. destruct (store_status now fsid status w) as [r w'] eqn:Hs.
  apply store_status_inv in Hs. exists w'. split; [| split; [done |]].
  - unfold mret, Cached_ret. do 3 f_equal. destruct (option_bind _ _ as_array _) as [l|]; [| done].
    simpl. induction l as [|x l IH]; [done |]. csimpl. destruct (as_str x); csimpl; by f_equal.
  - destruct r; [by right |]. left. split; [done |]. intros Hw Hn. destruct (entry_to_vec _) eqn:E; [| done].
    by specialize (Hq Hw Hn (ex_intro _ _ eq_refl)).
Qed.

(** The entry of a key comes from one of the remotes of the sweep. *)
Definition stored_by (now : string → Z) (answers : string → raw_answer) (remotes : list string) (d : dir) (n k : string) : Prop :=
  ∃ remote fsid status, remote ∈ remotes ∧ reports answers remote fsid status
    ∧ n = GLOBAL_NAMESPACE ∧ k = status_key fsid
    ∧ cached d n k = Some {| timestamp := now remote; value := stored status |}.

(** [swept_cache now answers remotes w w']: what a sweep of [remotes] makes of the cache *)
Definition swept_cache (now : string → Z) (answers : string → raw_answer) (remotes : list string) (w w' : world) : Prop :=
  (∀ n k, safe_id n = true → cached (disk w') n k = cached (disk w) n k ∨ stored_by now answers remotes (disk w') n k)
  ∧ (quiet w → (∀ e, is_Some (entry_to_vec e)) → ∀ remote fsid status,
       remote ∈ remotes → reports answers remote fsid status → status_names fsid →
       stored_by now answers remotes (disk w') GLOBAL_NAMESPACE (status_key fsid)).

Lemma stored_by_further now answers remote remotes d n k :
  stored_by now answers remotes d n k → stored_by now answers (remote :: remotes) d n k.
Proof. intros (r & fsid & status & Hr & Hs). exists r, fsid, status. by split; [right |]. Qed.

Lemma swept_cache_cons now answers remote remotes w w1 w' :
  (∃ v, probe_and_store (now remote) (answers remote) w = (Ok v, w1)) →
  swept_cache now answers remotes w1 w' → swept_cache now answers (remote :: remotes) w w'.
Proof.
  intros [v Hp] [Ha Hb]. destruct (probe_and_store_spec (now remote) (answers remote) w) as (w1' & Hp' & Hf & Hs).
  rw Hp in Hp'. injection Hp' as _ <-.
  assert (∀ n k, safe_id n = true → cached (disk w1) n k = cached (disk w) n k
    ∨ ∃ fsid status, reports answers remote fsid status ∧ n = GLOBAL_NAMESPACE ∧ k = status_key fsid
        ∧ cached (disk w1) n k = Some {| timestamp := now remote; value := stored status |}) as Hstep.
  { intros n k Hn. destruct (answers remote) as [| |status] eqn:Hans; [by rw Hs; left | by rw Hs; left |].
    destruct (str_at "fsid" status) as [fsid|] eqn:Hfsid; [| by rw Hs; left].
    destruct Hs as [[-> _] | [Hnew Hold]]; [by left |].
    destruct (decide ((n, k) = (GLOBAL_NAMESPACE, status_key fsid))) as [[= -> ->] | Hne]; [| left; by apply Hold].
    right. by exists fsid, status. }
  split.
  - intros n k Hn. destruct (Ha n k Hn) as [E | Hst]; [| right; by apply stored_by_further].
    destruct (Hstep n k Hn) as [E' | (fsid & status & Hr & -> & -> & E')]; [left; congruence |].
    right. exists remote, fsid, status. split; [by left |]. by rw E.
  - intros Hq Hvec r fsid status [-> | Hin]%elem_of_cons Hr Hnames.
    + destruct (Ha GLOBAL_NAMESPACE (status_key fsid) (proj1 Hnames)) as [E | Hst]; [| by apply stored_by_further].
      exists remote, fsid, status. split; [by left |]. split; [done |]. do 2 (split; [done |]). rw E.
      destruct Hr as [Hr Hfsid]. rw Hr Hfsid in Hs. destruct Hs as [[_ Hnone] | [Hnew _]]; [| done].
      specialize (Hnone Hq Hnames). destruct (Hvec {| timestamp := now remote; value := status |}) as [f Hvf]. by rw Hvf in Hnone.
    + apply stored_by_further, (Hb ltac:(unfold quiet; by rw Hf) Hvec r fsid status Hin Hr Hnames).
Qed.

Lemma probe_all_and_store_inv now answers remotes acc w :
  ∃ w', probe_all_and_store now answers acc remotes w
        = (Ok (foldl (probe_step (λ r, probe_answer_of (answers r))) acc remotes), w')
    ∧ swept_cache now answers remotes w w'.
Proof.
  revert acc w. induction remotes as [|remote remotes IH]; intros acc w; cbn [probe_all_and_store foldl].
  { exists w. split; [done |]. split; [by left |]. by intros _ _ ??? ?%not_elem_of_nil. }
  destruct (probe_and_store_spec (now remote) (answers remote) w) as (w1 & Hp & _ & _).
  unfold mbind at 1, Cached_bind at 1. rw Hp.
  destruct (IH (probe_step (λ r, probe_answer_of (answers r)) acc remote) w1) as (w' & Hr & Hs).
  exists w'. split; [exact Hr |]. eapply swept_cache_cons; [by eexists | done].
Qed.

(** C37: The probes of a sweep never fail and find exactly what [probe_all] does for these answers; on
    the way they change no entry of the cache but the statuses of the clusters that are reported,
    each to what a remote has just said, and without faults all of them. *)
Theorem sweep_stores_statuses now answers remotes w :
  ∃ w', probe_all_and_store now answers (∅, ∅) remotes w
        = (Ok (probe_all (λ r, probe_answer_of (answers r)) remotes), w')
    ∧ swept_cache now answers remotes w w'.
Proof. apply probe_all_and_store_inv. Qed.
(** The summary of a cluster is that of the status its other handler gives, with what a member adds
    to it and the registered members; the effects are the same. *)
Theorem summary_of_status connect now now' may cluster max_age w :
  match get_cluster_status connect now now' may cluster max_age w with
  | (Ok (Ok raw), w') =>
      ∃ c, ceph_on (disk w) = Some c ∧
        get_cluster_summary connect now now' may cluster max_age w
        = (Ok (Ok (set_members (enrich_summary connect (sorted_members c cluster) (summarize_status cluster raw))
                     (cluster_member <$> sorted_members c cluster))), w')
  | (Ok (Err e), w') => get_cluster_summary connect now now' may cluster max_age w = (Ok (Err e), w')
  | (Err e, w') => get_cluster_summary connect now now' may cluster max_age w = (Err e, w')
  end.
Proof.
  unfold get_cluster_status, get_cluster_summary, mbind, Cached_bind. pose proof (ceph_config_spec w) as (_ & _ & Hc).
  destruct (cio ceph_config w) as [[c|e] w1]; simpl in *; [| done].
  pose proof (access_checked_members_spec may c cluster) as Ha. destruct (access_checked_members may c cluster) as [members|e]; [| done].
  destruct Ha as (_ & _ & ->). destruct (cached_or_fetch_status _ _ _ _ _ _ w1) as [[[raw|e]|e] w2]; [| done | done].
  by exists c.
Qed.
End statuses.

(** ** Concrete runs *)
Definition f64_code (f : f64) : nat * bool * positive * Z :=
  match f with
  | S754_zero s => (0%nat, s, 1%positive, 0%Z)
  | S754_infinity s => (1%nat, s, 1%positive, 0%Z)
  | S754_nan => (2%nat, false, 1%positive, 0%Z)
  | S754_finite s m e => (3%nat, s, m, e)
  end.
Global Instance f64_countable : Countable f64.
Proof.
  refine (inj_countable' f64_code
    (λ '(k, s, m, e), match k with 0 => S754_zero s | 1 => S754_infinity s | 2 => S754_nan | _ => S754_finite s m e end) _).
  by intros [].
Defined.
Definition ex_print_float (f : f64) : string := "1." ++ pos_string (encode f).
Global Instance ex_json_floats : JsonFloats := {|
  json_float t := digits ← strip_prefix "1." t; decode (string_pos digits);
|}.
Lemma ex_print_float_read f : json_float (ex_print_float f) = Some f.
Proof. unfold ex_print_float. simpl. by rw string_pos_pos_string decode_encode. Qed.

Global Instance ex_status_cache : CacheEnv Json := {
  safe_id s := negb (has_char "/" s) && negb (is_empty s);
  entry_from_str f :=
    match f with
    | [Text t; Text v] => t ← parse_int t; v ← decode (string_pos v); Some {| timestamp := t; value := v |}
    | _ => None
    end;
  entry_to_vec e := Some [Text (show_int (timestamp e)); Text (pos_string (encode (value e)))];
  stored v := v;
}.
Global Instance ex_status_laws : CacheLaws Json.
Proof.
  split; simpl.
  - intros s [Hs _]%andb_true_iff. by apply negb_true_iff.
  - intros e f [= <-]. rw parse_int_show. cbn [mbind option_bind]. rw string_pos_pos_string decode_encode. by destruct e.
Qed.

Global Instance ex_ceph_api : CephApi := {|
  CephPool := string * option f64; pool_name := fst; percent_used := snd;
  CephMon := option string; ceph_version_short v := v;
  CephMgr := (); CephMds := (); CephFs := (); CephFlagInfo := ();
|}.

Definition ex_summary : CephClusterStatus := {|
  st_fsid := ex_fsid; st_health := "HEALTH_WARN";
  st_checks := [{| hc_code := "OSD_NEARFULL"; hc_severity := "HEALTH_WARN"; hc_summary := "1 nearfull osd(s)" |}];
  st_bytes_total := 4000; st_bytes_used := 1000; st_bytes_avail := 3000; st_num_pools := 3; st_num_pgs := 256;
  st_pgs_by_state := [{| pg_state_name := "active+clean"; pg_count := 256 |}];
  st_osds_total := 6; st_osds_up := 5; st_osds_in := 6; st_mons_total := 3; st_mons_in_quorum := 2;
  st_mgr_active := Some "mgr-a"; st_mgr_standbys := ["mgr-b"];
  st_client_read_bytes_sec := Some 1024%Z; st_client_write_bytes_sec := None; st_client_read_ops_sec := None;
  st_client_write_ops_sec := None; st_recovery_bytes_sec := Some 77%Z; st_misplaced_ratio := Some (f64_of_Z 1);
  st_degraded_ratio := None; st_fullest_pool := None; st_fullest_pool_used := None; st_version := None;
  st_version_mixed := false; st_members := [] |}%Z.
Definition ex_quorum : list Json := [JString "node1"; JString "node2"].
Definition ex_status : Json := json_status ex_print_float true None ex_quorum ex_summary.

Lemma summary_reads_status_witness : summarize_status ex_fsid ex_status = ex_summary.
Proof.
  apply (summary_reads_status ex_print_float true None ex_quorum ex_summary ex_print_float_read).
  - split; [by repeat constructor | | done | done].
    repeat constructor; intros z Hz; vm_compute in Hz; by simplify_eq.
  - reflexivity.
  - intros l Hl. discriminate Hl.
Defined.

Definition ex_client (status : Json) : PveClient := {|
  cluster_ceph_status := Ok status;
  cluster_ceph_flags := Ok [];
  list_ceph_pools node := Ok [("rbd", Some (f64_of_Z 2)); ("old", None); ("cephfs", Some (f64_of_Z 7)); ("odd", Some S754_nan)];
  list_ceph_mon node := Ok [Some "19.2.0"; None; Some "19.2.1"];
  list_ceph_mgr node := Ok []; list_ceph_mds node := Ok []; list_ceph_fs node := Ok [];
  get_ceph_osd_tree node := Ok JNull;
|}.
Definition ex_connect (status : Json) (remote : string) : result string PveClient :=
  if String.eqb remote "east" then Ok (ex_client status) else Err "no route to host".

Lemma enrichment_exact_witness :
  ∃ p v mixed, fullest_of [("rbd", Some (f64_of_Z 2)); ("old", None); ("cephfs", Some (f64_of_Z 7)); ("odd", Some S754_nan)] p
    ∧ latest_of [Some "19.2.0"; None; Some "19.2.1"] v mixed
    ∧ enrich_summary (ex_connect ex_status) (sorted_members ex_registry ex_fsid) ex_summary
      = with_versions (with_fullest ex_summary p) v mixed.
Proof.
  apply (enrichment_exact (ex_connect ex_status) (sorted_members ex_registry ex_fsid) ex_summary (pve_member ex_fsid "east" "node1")
    (ex_client ex_status) "node1"); vm_compute; reflexivity.
Defined.

(** The health that the list shows *)
Definition ex_seen (w : world) : option (option string) :=
  match list_clusters 150 (String.eqb "east") w with (Ok l, _) => head (le_health <$> l) | _ => None end.
Definition ex_got {A} (r : result CacheError (result (access_error + string) A)) : option A :=
  match r with Ok (Ok v) => Some v | _ => None end.

Lemma status_sources_witness :
  ∃ w', get_cluster_status (ex_connect ex_status) 100 101 (String.eqb "east") ex_fsid None ex_world = (Ok (Ok ex_status), w')
    ∧ updated (disk ex_world) (disk w') GLOBAL_NAMESPACE (status_key ex_fsid) {| timestamp := 101%Z; value := ex_status |}
    ∧ ex_seen ex_world = Some None ∧ ex_seen w' = Some (Some "HEALTH_WARN").
Proof.
  destruct (get_cluster_status (ex_connect ex_status) 100 101 (String.eqb "east") ex_fsid None ex_world) as [r w'] eqn:E.
  assert (bool_decide (ex_got r = Some ex_status) = true) as Hr.
  { apply (f_equal fst) in E. cbn [fst] in E. rw -E. vm_compute. reflexivity. }
  apply bool_decide_eq_true in Hr. destruct r as [[v|e]|e]; try discriminate Hr. injection Hr as ->.
  exists w'. split; [reflexivity |].
  destruct (status_sources _ _ _ _ _ _ _ _ _ E) as (c & Hon & _ & _ & [[Hf _]|(m & client & _ & _ & Hu)]).
  - exfalso. vm_compute in Hf. discriminate Hf.
  - split; [exact Hu |]. apply (f_equal snd) in E. cbn [snd] in E. rw -E. split; vm_compute; reflexivity.
Defined.

(** A sweep in which [east] reports its cluster and [west] cannot be reached *)
Definition ex_probes (remote : string) : raw_answer :=
  if String.eqb remote "east" then RawStatus ex_status else RawNoClient.
Lemma sweep_stores_statuses_witness :
  ∃ w', probe_all_and_store (λ _, 100%Z) ex_probes (∅, ∅) ["east"; "west"] ex_world
        = (Ok (probe_all (λ r, probe_answer_of (ex_probes r)) ["east"; "west"]), w')
    ∧ status_entry (disk w') ex_fsid = Some {| timestamp := 100%Z; value := ex_status |}.
Proof.
  destruct (sweep_stores_statuses (λ _, 100%Z) ex_probes ["east"; "west"] ex_world) as (w' & Hr & _ & Hs).
  exists w'. split; [exact Hr |].
  destruct (Hs (λ _, eq_refl) (λ e, ex_intro _ _ eq_refl) "east" ex_fsid ex_status) as (remote & fsid & status & _ & [Ha Hf] & _ & _ & Hc).
  - by left.
  - split; vm_compute; reflexivity.
  - split; vm_compute; reflexivity.
  - unfold ex_probes in Ha. destruct (String.eqb remote "east"); [| discriminate Ha]. injection Ha as <-. exact Hc.
Defined.

(** After a cluster was rebuilt under another fsid, a request for the old one, which stays in the
    registry, is answered with the status of the new one; it is stored under the old fsid, so the list
    shows the health of the new cluster for the old one too. *)
Definition ex_rebuilt : Json :=
  JObject [("fsid", JString "00000000-0000-0000-0000-000000000002"); ("health", JObject [("status", JString "HEALTH_OK")])].
Theorem rebuilt_cluster_answers_for_old :
  let '(r, w') := get_cluster_status (ex_connect ex_rebuilt) 100 101 (String.eqb "east") ex_fsid None ex_world in
  str_at "fsid" ex_rebuilt ≠ Some ex_fsid ∧ ex_got r = Some ex_rebuilt ∧ ex_seen w' = Some (Some "HEALTH_OK").
Proof.
  destruct (get_cluster_status (ex_connect ex_rebuilt) 100 101 (String.eqb "east") ex_fsid None ex_world) as [r w'] eqn:E.
  assert (r = (get_cluster_status (ex_connect ex_rebuilt) 100 101 (String.eqb "east") ex_fsid None ex_world).1) as -> by by rw E.
  assert (w' = (get_cluster_status (ex_connect ex_rebuilt) 100 101 (String.eqb "east") ex_fsid None ex_world).2) as -> by by rw E.
  split; [discriminate |]. split; apply (bool_decide_unpack _); vm_compute; exact I.
Qed.

(** The checks of an older release and the counts of a list of monitors, as in the tests of the code *)
Example summary_of_nested_osdmap :
  let s := summarize_status "fsid" (JObject [("health", JObject [("status", JString "HEALTH_OK")]);
             ("osdmap", JObject [("osdmap", JObject [("num_osds", JNumber "9"); ("num_up_osds", JNumber "9")])])]) in
  (st_health s, st_osds_total s, st_osds_up s, st_bytes_total s, st_checks s, st_mons_in_quorum s)
  = ("HEALTH_OK", 9, 9, 0, [], 0)%Z.
Proof. reflexivity. Qed.
Example summary_of_large_number :
  st_bytes_total (summarize_status "fsid" (JObject [("pgmap", JObject [("bytes_total", JNumber "18446744073709551615")])])) = (-1)%Z.
Proof. reflexivity. Qed.
